(* ===== verification/_CoqProject ===== *)
-Q . S2P
Prelude.v
Bytes.v
Uint256.v
Params.v
ChainConfig.v
Machine.v
Opcodes.v
Analysis.v
JumpTable.v
Rlp.v
RlpTheorems.v
RlpStream.v
RlpTypes.v
RlpCodec.v
RlpCanon.v
VM.v
Lru.v
Headers.v
HeaderRules.v
Difficulty.v
Clique.v
CliqueVoting.v
CliqueTheorems.v
CliqueChain.v
State.v
GasTable.v
Instructions.v
Evm.v
StateSpec.v
StateProofs.v
StateFinalise.v
Frames.v
InstrSpec.v
TableSpec.v
EvmSafe.v
Fuel.v
Scenario.v
EvmTheorems.v
StateTheorems.v
MachineTheorems.v
ConfigTheorems.v
StateTransition.v
TransitionTheorems.v
HeaderTheorems.v
CliqueRewards.v
CliqueScenario.v
TrieKeys.v
TrieNode.v
Trie.v
TrieSpec.v
TrieHash.v
TrieOps.v
TrieTheorems.v
TrieProof.v
TrieCommit.v
StackTrie.v
StackTrieTheorems.v
DeriveSha.v
Transactions.v
TxSigning.v
TxCodec.v
TxCaches.v
TxTheorems.v
Receipts.v
ReceiptTheorems.v
Blocks.v
BlockCodec.v
BlockTheorems.v
Processor.v
AncestorTheorems.v
ProcessorTheorems.v
ProcessorScenario.v
