(* ===== verification/Prelude.v ===== *)
(** * Verification of the go-ethereum execution layer

    The repository is go-ethereum 1.15.12 under [src/go-ethereum] (paths below are relative to it).
    The development models the part of it that decides what a transaction is and does: its encoding
    and signature, the chain configuration, the state transition, the EVM with its instruction tables and gas rules, and
    the journalled state database; the processing, assembly and validation of blocks with their
    receipts; the rules that link a header to its parent; the
    proof-of-authority engine that decides which headers extend a chain; the Merkle Patricia trie
    that the state is committed to; and the data formats they use.

    ** Parts of the program and where they are modelled

    - Chain configuration ([params/config.go]): ChainConfig.v.  A fork is scheduled by a block
      number or a timestamp, a nil pointer being [None]; [Config.Rules] computes the rule set of a
      block.  Constants ([params/protocol_params.go]): Params.v.
    - State transition ([core/state_transition.go], [core/gaspool.go], [core/types/tx_setcode.go]):
      StateTransition.v.  [execute] checks a message, buys its gas from the sender and from the
      block's pool, runs it in the EVM, refunds gas and pays the coinbase.
    - EVM ([core/vm/evm.go], [core/vm/interpreter.go]): Evm.v.  [Call], [CallCode],
      [DelegateCall], [StaticCall], [create] and the loop of [Run].
    - Instructions ([core/vm/instructions.go], [core/vm/eips.go]): Instructions.v.  Dynamic gas
      ([core/vm/gas_table.go], [core/vm/operations_acl.go]): GasTable.v.  Instruction tables of
      the forks ([core/vm/jump_table.go], [core/vm/eips.go]): JumpTable.v, opcodes in Opcodes.v.
    - Stack, memory, call data and gas arithmetic ([core/vm/stack.go], [memory.go],
      [memory_table.go], [common.go], [gas.go], [common/math/integer.go]): Machine.v.  Jump
      destinations ([core/vm/analysis_legacy.go]): Analysis.v.
    - Contracts and the [StateDB] interface ([core/vm/contract.go], [core/vm/interface.go]): VM.v.
    - State database ([core/state]: [statedb.go], [state_object.go], [journal.go],
      [access_list.go], [transient_storage.go]): State.v.
    - RLP ([rlp/encode.go], [rlp/encbuffer.go], [rlp/raw.go]): Rlp.v.
    - The decoding side of RLP and the types ([rlp/decode.go], [rlp/encode.go], [rlp/typecache.go]):
      the [Stream] with its stack of list limits in RlpStream.v; what reflection makes of a Go type
      is a pair of a decoder and a writer ([typeinfo]) in RlpTypes.v.
    - Transactions ([core/types/transaction.go] and the files of the transaction types):
      Transactions.v has the data, its RLP types and the binary encodings; TxSigning.v the signers
      ([transaction_signing.go]), the cached methods of [Transaction], fees and
      [TransactionToMessage], which makes the message of the state transition.
    - Receipts, their storage form and derived fields ([core/types/receipt.go], [log.go]) and bloom
      filters ([bloom9.go]): Receipts.v.
    - Block headers ([core/types/block.go], [gen_header_rlp.go]): Headers.v.  Withdrawals, bodies and
      blocks, their assembly ([NewBlock]) and validation ([core/block_validator.go]): Blocks.v.
    - Block processing ([core/state_processor.go], [core/evm.go], [consensus/misc/dao.go],
      [core/types/deposit.go]): Processor.v.  [Process] runs the system calls and the transactions of a
      block on one EVM, and makes the receipts; the engine's [Author] and [Finalize] and the chain's
      [GetHeader] are parameters.
    - Rules between a header
      and its parent ([consensus/misc]): HeaderRules.v.  Difficulty of proof of work
      ([consensus/ethash/consensus.go], [difficulty.go]): Difficulty.v.
    - Proof-of-authority engine ([consensus/clique]): Clique.v.  [Snapshot] is the state of the
      voting ([snapshot.go]); [Engine] holds the caches, the database and the configuration
      ([clique.go]); [Finalize] and [ProcessRewardEvents] are the block rewards this repository
      adds ([rewards.go], [reward_snapshot.go]).  Its snapshot cache ([common/lru/basiclru.go]):
      Lru.v.
    - Merkle Patricia trie ([trie]): key encodings ([encoding.go]) in TrieKeys.v; nodes, their codec
      and hashing ([node.go], [node_enc.go], [hasher.go]) in TrieNode.v; the trie with its tracer and
      node reader ([trie.go], [tracer.go], [trie_reader.go]) in Trie.v; proofs ([proof.go]) in
      TrieProof.v; the committer and node sets ([committer.go], [trienode/node.go]) in TrieCommit.v;
      the stack trie ([stacktrie.go]) in StackTrie.v.  Roots of the lists of a block
      ([core/types/hashing.go]): DeriveSha.v, over an interface both tries implement.
      Nodes in memory are values: an operation returns the node that takes the place of its
      argument, also where the code changes a node in place and where it fails.

    ** How the model corresponds to the code

    A Go function is a Rocq function of the same name.  A [uint64] is an integer whose wrapping is
    written out ([+!], [-!], [*!]); the 256-bit integers of package [uint256] (which is not part of
    the repository) are a type class, Uint256.v, with the laws the code relies on and a reference
    instance over [Z].  Hash functions are the class [Crypto]; signature recovery and the
    precompiled contracts are parameters.  Stateful code runs in the state and error monad [ST]:
    [Ret] is a normal return, [Fail] is a panic of the Go program (index out of range, nil
    pointer, explicit panic), the exhaustion of the fuel, or a branch that is not modelled
    ([Unmodelled], only behind EIP-4762).  Errors that the code returns as values are values of
    the model ([vmerror], [coreerror], ...).

    The EVM sees the state database through the requests [sdbE] of class [StateDB].  What it may
    rely on is class [StateDBSpec] (StateSpec.v); StateProofs.v shows that the journalled state
    database implements it, and the theorems about the EVM and the state transition are proved
    against the class.

    ** What the theorems show

    - EvmTheorems.v: the entry points of the EVM end, do not panic but for the cases below, never give back more gas than
      they got, undo the state on an error, and static calls change nothing.  The proofs are in
      Frames.v (gas functions), InstrSpec.v (instructions), TableSpec.v (the tables fit the
      instructions), EvmSafe.v (the loop and the calls) and Fuel.v (fuel does not matter).
    - StateTheorems.v, over StateProofs.v and StateFinalise.v (the end of a transaction): reverting to
      a snapshot restores every observable after a session of calls ([session]), the methods keep the
      invariant ([served] has their conditions), storage, transfers and access lists behave as maps
      and sets.
    - TransitionTheorems.v: the gas of a message is accounted for exactly, rejected messages cost
      nothing, the intrinsic gas does not overflow.
    - ConfigTheorems.v: accepted configurations activate forks in order; compatible ones agree on
      the past (up to Petersburg and the chain id).
    - MachineTheorems.v: memory and its fee, jump destinations, the 63/64 rule, call data.
    - RlpCodec.v, RlpCanon.v: for every type built from the generators of RlpTypes.v, decoding what
      was encoded gives the value back ([Codec]), and a decoder ends on every input and accepts only
      canonical encodings ([Canon]); both together are [Exact].
    - TxCodec.v instantiates this for the transactions; TxCaches.v shows that the caches of a
      transaction are transparent; TxTheorems.v: one encoding per transaction, the sender of a signed
      transaction is its signer, what is signed binds content and chain, and the price of a message.
    - ReceiptTheorems.v: the bloom filter of a block has no false negatives, receipts have one
      consensus encoding, and stored receipts are recovered with their derived fields.  BlockCodec.v, BlockTheorems.v: the hash of a block binds
      header, transactions, uncles and withdrawals; an assembled block is valid; the gas limit a miner
      chooses is accepted.
    - ProcessorTheorems.v: processing a block accounts for its gas exactly and keeps the state well
      formed, over [StateDBSpec] and the state transition; ProcessorScenario.v applies it to a block.
      AncestorTheorems.v: the cache behind BLOCKHASH does not show.
    - RlpTheorems.v: the encoder produces the reference encoding, the splitting functions invert it
      and accept only canonical input.
    - HeaderTheorems.v: base fee, gas limit and blob fee behave as their specifications say, and the
      256-bit difficulty functions agree with the arbitrary-precision ones.
    - Lru.v ends with the invariant of the cache and its refinement to a list of entries in the order
      of their last use.
    - CliqueVoting.v, CliqueTheorems.v: the books of the voting are kept, signers change only by
      majority, turns go round and the chain cannot stall, checkpoints carry the signers.
      CliqueChain.v: the snapshots found through the caches are those of the chain, and a verified
      header extends the chain once the window of recent signers is full.  CliqueRewards.v: a block creates exactly one
      ether, for registered weights that fit.
      CliqueScenario.v: a small chain on which these theorems are applied.
    - TrieSpec.v defines the abstract tree of a content and its root hash and shows that the content
      determines the tree and the hash determines both; TrieHash.v relates nodes, with their cached
      hashes and those still in the database, to trees ([repr]); TrieOps.v shows what reading,
      insertion and deletion do to the tree.  TrieTheorems.v: the trie is a finite map with a root
      hash that depends on the content alone and binds it.  TrieProof.v: proofs are sound and
      complete.  TrieCommit.v: a committed trie can be reopened, for the sequential and the parallel
      committer.  StackTrieTheorems.v: the stack trie has the root hash of the trie and its callback
      gets every node.  DeriveSha.v: the root of a list binds the list.
    - Scenario.v: a concrete state, reader and block on which the theorems are applied and the
      interpreter is run.

    ** Panics and collisions

    Nil pointers of the context are [None] ([BaseFee], [BlobBaseFee], [Random] and the chain id), and
    following one panics; the theorems ask for those that the rules of the block use
    ([ctx_has], [context_ok], [runnable]).  Two panics are not excluded and are named by [tolerated] (Frames.v): a
    refund counter that would drop below zero ([SubRefund]), and an index out of range in a
    jump-destination vector that was computed for another code with the same hash (the cache is keyed
    by code hash).

    That a hash binds what was hashed is stated up to a collision in a given finite set:
    [hash_collision] (TrieSpec.v) has as its argument the encoded nodes of the tries, headers or proof
    entries in question.

    ** Fuel

    One fuel counter cuts the recursion of the interpreter and is spent once per instruction.
    Every instruction after which a frame continues has consumed gas, so fuel above the gas is
    enough ([Run_terminates]) and any two such amounts give the same result
    ([Call_fuel_irrelevant]).  The loop of [CheckCompatible] is given 46 turns, more than
    the rewind points that two configurations can have ([CheckCompatible_total]).  The walk back of
    clique's [snapshot] needs as many turns as the number of the block
    ([snapshot_refines_chain]), the Taylor expansion of the blob fee a number that depends on the
    excess ([blob_fee_total_monotone]).  The operations of the trie are given a turn for each nibble
    of the key and each node that may have to be loaded, which is enough ([trie_refines_map]).
    A block is processed with fuel above its transactions' gas and the 30 million units of a system
    call ([Process_correct]), and the walk behind BLOCKHASH takes a turn per block
    ([GetHashFn_transparent]).  Other loops are structural or bounded by the length of
    their input.

    ** Not modelled

    Verkle (EIP-4762) and EOF, which no network configuration of the repository enables; tracing,
    metrics, logging and the state witness; the update of the tries from the state database, the
    databases, snapshots and caches behind the [Reader]; block import, the transaction pools, the
    networking and RPC layers, the wallets, the node and the command line tools, which are I/O and
    goroutine scheduling around the modelled core; the cryptographic primitives.
    Of RLP: reflection itself, interface types, iterators and streaming input.  Of transactions: JSON,
    the time of arrival, and the curve, which is a parameter with what signing and recovery promise.
    Of blocks: the RLP form of whole blocks, the caches of hash and size, and the roots in receipts
    before Byzantium ([Process] ends in [Unmodelled] there); block import, reorganisation and the
    databases of [core/blockchain.go].
    In the proof-of-authority engine: the JSON text of stored snapshots, the cache of recovered
    signers, the assembly of a block and the RPC interface; of ethash only the difficulty.  Of the tries: range proofs,
    iterators, synchronisation and the path and hash databases.
*)

From stdpp Require Export base numbers list gmap.
From Stdlib Require Export ZArith Lia.

#[global] Open Scope Z_scope.

(** ** Machine integers

    A Go [uint64] is a [Z] in [0, 2^64); every wrapping operation of the code is
    written with [wrap64].  [int] values that the code uses as lengths and counters
    are plain [Z] (they are bounded by the size of a slice). *)

Definition two64 : Z := 18446744073709551616.
Definition two256 : Z := 2 ^ 256.
Definition MaxUint64 : Z := two64 - 1.
Definition wrap64 (z : Z) : Z := z mod two64.
Definition is_u64 (z : Z) : Prop := 0 <= z < two64.

Declare Scope u64_scope.
Delimit Scope u64_scope with u64.
Notation "a +! b" := (wrap64 (a + b)) (at level 50, left associativity) : u64_scope.
Notation "a -! b" := (wrap64 (a - b)) (at level 50, left associativity) : u64_scope.
Notation "a *! b" := (wrap64 (a * b)) (at level 40, left associativity) : u64_scope.
#[global] Open Scope u64_scope.

(** ** Outcomes

    A Go function that the model covers either returns, or stops the goroutine with a
    run-time panic.  [OutOfFuel] is the model's own failure: the recursion budget of a
    loop ran out; [Unmodelled] marks a branch whose code is outside the model. *)

Inductive failure :=
  | PanicIndex       (** index or slice bounds out of range *)
  | PanicJumpdest    (** index out of range in a jump-destination bit vector *)
  | PanicMemory      (** [panic("invalid memory: store empty")] *)
  | PanicRefund      (** [panic("Refund counter below zero ...")] *)
  | PanicRevision    (** [panic("revision id ... cannot be reverted")] *)
  | PanicNil         (** nil pointer dereference, assignment to a nil map *)
  | PanicDivide      (** integer division by zero *)
  | PanicExplicit    (** another explicit [panic] of the source *)
  | OutOfFuel
  | Unmodelled.

#[global] Instance failure_eq_dec : EqDecision failure.
Proof. solve_decision. Defined.

Inductive Outcome (A : Type) :=
  | Ret (a : A)
  | Fail (f : failure).
Arguments Ret {A} _.
Arguments Fail {A} _.

#[global] Instance outcome_ret : MRet Outcome := fun A a => Ret a.
#[global] Instance outcome_bind : MBind Outcome := fun A B k m =>
  match m with Ret a => k a | Fail f => Fail f end.

(** A stateful method of a Go object: explicit state passing over [Outcome]. *)
Definition ST (S A : Type) : Type := S -> Outcome (A * S).

#[global] Instance st_ret {S} : MRet (ST S) := fun A a s => Ret (a, s).
#[global] Instance st_bind {S} : MBind (ST S) := fun A B k m s =>
  match m s with Ret (a, s') => k a s' | Fail f => Fail f end.

Definition st_get {S} : ST S S := fun s => Ret (s, s).
Definition st_put {S} (s' : S) : ST S unit := fun _ => Ret (tt, s').
Definition st_modify {S} (f : S -> S) : ST S unit := fun s => Ret (tt, f s).
Definition st_gets {S A} (f : S -> A) : ST S A := fun s => Ret (f s, s).
Definition st_fail {S A} (f : failure) : ST S A := fun _ => Fail f.
Definition st_lift {S A} (o : Outcome A) : ST S A := fun s =>
  match o with Ret a => Ret (a, s) | Fail f => Fail f end.

(** ** Weakest preconditions

    [wp E m Q s]: running [m] from [s] either ends in a state satisfying [Q] or fails with a
    failure that [E] tolerates. *)
Definition wp {S A} (E : failure -> Prop) (m : ST S A) (Q : A -> S -> Prop) (s : S) : Prop :=
  match m s with Ret (a, s') => Q a s' | Fail f => E f end.

Section wp_rules.
Context {S : Type} (E : failure -> Prop).
Implicit Types s : S.

Lemma wp_ret {A} (a : A) Q s : Q a s -> wp E (mret a) Q s.
Proof. done. Qed.

Lemma wp_bind {A B} (m : ST S A) (k : A -> ST S B) Q s :
  wp E m (fun a s' => wp E (k a) Q s') s -> wp E (m ≫= k) Q s.
Proof. unfold wp, mbind, st_bind. destruct (m s) as [[a s']|f]; done. Qed.

Lemma wp_bind_inv {A B} (m : ST S A) (k : A -> ST S B) Q s :
  wp E (m ≫= k) Q s -> wp E m (fun a s' => wp E (k a) Q s') s.
Proof. unfold wp, mbind, st_bind. destruct (m s) as [[a s']|f]; done. Qed.

Lemma wp_get Q s : Q s s -> wp E st_get Q s.
Proof. done. Qed.
Lemma wp_put Q s s' : Q tt s' -> wp E (st_put s') Q s.
Proof. done. Qed.
Lemma wp_modify f Q s : Q tt (f s) -> wp E (st_modify f) Q s.
Proof. done. Qed.
Lemma wp_gets {A} (f : S -> A) Q s : Q (f s) s -> wp E (st_gets f) Q s.
Proof. done. Qed.
Lemma wp_fail {A} f (Q : A -> S -> Prop) s : E f -> wp E (st_fail f) Q s.
Proof. done. Qed.

Lemma wp_mono {A} (m : ST S A) (Q Q' : A -> S -> Prop) s :
  wp E m Q s -> (forall a s', Q a s' -> Q' a s') -> wp E m Q' s.
Proof. unfold wp. destruct (m s) as [[a s']|f]; auto. Qed.

Lemma wp_if {A} (b : bool) (m1 m2 : ST S A) Q s :
  (b = true -> wp E m1 Q s) -> (b = false -> wp E m2 Q s) ->
  wp E (if b then m1 else m2) Q s.
Proof. destruct b; auto. Qed.

Lemma wp_conj {A} (m : ST S A) (Q Q' : A -> S -> Prop) s :
  wp E m Q s -> wp E m Q' s -> wp E m (fun a s' => Q a s' /\ Q' a s') s.
Proof. unfold wp. destruct (m s) as [[a s']|f]; auto. Qed.

Lemma wp_Ret {A} (m : ST S A) Q s a s' : wp E m Q s -> m s = Ret (a, s') -> Q a s'.
Proof. unfold wp. intros H Heq. by rewrite Heq in H. Qed.
End wp_rules.

Lemma wp_mono_fail {S A} (E E' : failure -> Prop) (m : ST S A) Q s :
  wp E m Q s -> (forall f, E f -> E' f) -> wp E' m Q s.
Proof. unfold wp. destruct (m s) as [[a s']|f]; auto. Qed.

(** ** Slices

    [slice l lo hi] is Go's [l[lo:hi]]; it panics when the bounds are out of range. *)
Definition len {A} (l : list A) : Z := Z.of_nat (length l).

Definition zslice {A} (l : list A) (lo hi : Z) : list A :=
  take (Z.to_nat (hi - lo)) (drop (Z.to_nat lo) l).

Definition slice {A} (l : list A) (lo hi : Z) : Outcome (list A) :=
  if (0 <=? lo) && (lo <=? hi) && (hi <=? len l)
  then Ret (zslice l lo hi) else Fail PanicIndex.

Definition index {A} (l : list A) (i : Z) : Outcome A :=
  if 0 <=? i then
    match l !! Z.to_nat i with Some a => Ret a | None => Fail PanicIndex end
  else Fail PanicIndex.

(** [zreplicate n a] is [make([]T, n)] filled with [a]. *)
Definition zreplicate {A} (n : Z) (a : A) : list A := replicate (Z.to_nat n) a.

(** ** Automation *)

Create HintDb geth.

Ltac unfold_u64 := unfold wrap64, is_u64, MaxUint64, two64 in *.

(** [bool_to_Z] turns the boolean comparisons of the code into propositions. *)
Ltac bool_to_Z :=
  repeat match goal with
  | H : andb _ _ = true |- _ => apply andb_prop in H; destruct H
  | H : andb _ _ = false |- _ => apply andb_false_iff in H
  | H : orb _ _ = true |- _ => apply orb_true_iff in H
  | H : orb _ _ = false |- _ => apply orb_false_iff in H; destruct H
  | H : negb _ = true |- _ => apply negb_true_iff in H
  | H : negb _ = false |- _ => apply negb_false_iff in H
  | H : (_ <? _) = true |- _ => apply Z.ltb_lt in H
  | H : (_ <? _) = false |- _ => apply Z.ltb_ge in H
  | H : (_ <=? _) = true |- _ => apply Z.leb_le in H
  | H : (_ <=? _) = false |- _ => apply Z.leb_gt in H
  | H : (_ =? _) = true |- _ => apply Z.eqb_eq in H
  | H : (_ =? _) = false |- _ => apply Z.eqb_neq in H
  | H : (_ >? _) = _ |- _ => rewrite Z.gtb_ltb in H
  | H : (_ >=? _) = _ |- _ => rewrite Z.geb_leb in H
  end.

(** One case of every conditional in the goal. *)
Ltac case_if :=
  match goal with
  | |- context [if ?b then _ else _] =>
      lazymatch type of b with bool => destruct b eqn:? end
  end.

Lemma wrap64_small z : is_u64 z -> wrap64 z = z.
Proof. intros. apply Z.mod_small. done. Qed.

Lemma wrap64_range z : is_u64 (wrap64 z).
Proof. apply Z.mod_pos_bound. done. Qed.
#[export] Hint Resolve wrap64_range : geth.

Lemma wrap64_idemp z : wrap64 (wrap64 z) = wrap64 z.
Proof. apply wrap64_small, wrap64_range. Qed.

(** Go's overflow test [val < a] after [val := a + b]. *)
Lemma wrap64_add_overflow a b : is_u64 a -> is_u64 b ->
  ((a +! b) <? a) = (two64 <=? a + b).
Proof.
  intros Ha Hb. unfold_u64.
  destruct (Z.leb_spec 18446744073709551616 (a + b)).
  - apply Z.ltb_lt. rewrite <- (Z.mod_add _ (-1)) by lia. rewrite Z.mod_small; lia.
  - apply Z.ltb_ge. rewrite Z.mod_small; lia.
Qed.

Lemma len_nonneg {A} (l : list A) : 0 <= len l.
Proof. unfold len; lia. Qed.
#[export] Hint Resolve len_nonneg : geth.

Lemma len_app {A} (l k : list A) : len (l ++ k) = len l + len k.
Proof. unfold len. rewrite length_app. lia. Qed.
Lemma len_cons {A} (a : A) l : len (a :: l) = len l + 1.
Proof. unfold len. simpl. lia. Qed.
Lemma len_nil {A} : len (@nil A) = 0.
Proof. done. Qed.
Lemma len_zreplicate {A} n (a : A) : 0 <= n -> len (zreplicate n a) = n.
Proof. intros. unfold len, zreplicate. rewrite length_replicate. lia. Qed.
Lemma len_zslice {A} (l : list A) lo hi :
  0 <= lo <= hi -> hi <= len l -> len (zslice l lo hi) = hi - lo.
Proof. unfold len, zslice. intros. rewrite length_take, length_drop. lia. Qed.
Lemma len_zslice_le {A} (l : list A) lo hi :
  lo <= hi -> len (zslice l lo hi) <= hi - lo.
Proof. unfold len, zslice. intros. rewrite length_take. lia. Qed.

Create Rewrite HintDb zlen.
#[export] Hint Rewrite @len_app @len_cons @len_nil : zlen.

Lemma slice_ok {A} (l : list A) lo hi :
  0 <= lo <= hi -> hi <= len l -> slice l lo hi = Ret (zslice l lo hi).
Proof.
  intros. unfold slice.
  replace ((0 <=? lo) && (lo <=? hi) && (hi <=? len l)) with true by lia. done.
Qed.

Lemma index_ok {A} (l : list A) i :
  0 <= i < len l -> exists a, l !! Z.to_nat i = Some a /\ index l i = Ret a.
Proof.
  unfold len, index. intros. replace (0 <=? i) with true by lia.
  destruct (l !! Z.to_nat i) eqn:E; [by eauto|].
  apply lookup_ge_None in E. lia.
Qed.
