(* ===== verification/Bytes.v ===== *)
(** * Byte strings, [common.Hash] and [common.Address]

    A Go [[]byte] is a list of integers in [0, 256).  [common.Hash] ([[32]byte]) and
    [common.Address] ([[20]byte]) are the integers their bytes denote in big-endian order; the
    zero value [common.Hash{}] is [0].  [be_bytes] is [Hash.Bytes] / [Address.Bytes]. *)

From S2P Require Import Prelude.

Abbreviation byte := Z (only parsing).
Abbreviation bytes := (list Z) (only parsing).
Abbreviation Hash := Z (only parsing).
Abbreviation Address := Z (only parsing).

Definition is_byte (b : Z) : Prop := 0 <= b < 256.

(** The integer that a byte string denotes, most significant byte first. *)
Definition be_val (l : bytes) : Z := fold_left (fun acc b => acc * 256 + b) l 0.

(** The [n] least significant bytes of [z], most significant first. *)
Fixpoint be_bytes (n : nat) (z : Z) : bytes :=
  match n with
  | O => []
  | S k => be_bytes k (z / 256) ++ [z mod 256]
  end.

(** [func (h Hash) Bytes() []byte] *)
Definition Hash_Bytes (h : Hash) : bytes := be_bytes 32 h.
(** [func (a Address) Bytes() []byte] *)
Definition Address_Bytes (a : Address) : bytes := be_bytes 20 a.

(** [func RightPadBytes(slice []byte, l int) []byte]: the slice itself when it is long enough,
    else a copy extended with zeroes. *)
Definition RightPadBytes (l : bytes) (n : Z) : bytes :=
  if n <=? len l then l else l ++ zreplicate (n - len l) 0.

(** [func LeftPadBytes(slice []byte, l int) []byte] *)
Definition LeftPadBytes (l : bytes) (n : Z) : bytes :=
  if n <=? len l then l else zreplicate (n - len l) 0 ++ l.

(** ** Lemmas *)

Lemma be_bytes_length n z : length (be_bytes n z) = n.
Proof. revert z. induction n as [|n IH]; intros z; [done|]. simpl. rewrite length_app, IH. simpl. lia. Qed.

Lemma be_bytes_bytes n z : Forall is_byte (be_bytes n z).
Proof.
  revert z. induction n as [|n IH]; intros z; [constructor|].
  simpl. apply Forall_app. split; [apply IH|].
  repeat constructor; apply Z.mod_pos_bound; lia.
Qed.

Lemma be_val_snoc l b : be_val (l ++ [b]) = be_val l * 256 + b.
Proof. unfold be_val. rewrite fold_left_app. done. Qed.

Lemma be_val_app l k : be_val (l ++ k) = be_val l * 256 ^ len k + be_val k.
Proof.
  induction k as [|b k IH] using rev_ind.
  - rewrite app_nil_r. change (be_val []) with 0. rewrite len_nil. lia.
  - rewrite app_assoc, !be_val_snoc, IH, len_app. change (len [b]) with 1.
    rewrite Z.pow_add_r, Z.pow_1_r by (unfold len; lia). ring.
Qed.

Lemma be_val_be_bytes n z : be_val (be_bytes n z) = z mod 256 ^ Z.of_nat n.
Proof.
  revert z. induction n as [|n IH]; intros z.
  - simpl. rewrite Z.mod_1_r. done.
  - cbn [be_bytes]. rewrite be_val_snoc, IH.
    rewrite Nat2Z.inj_succ, Z.pow_succ_r by lia.
    rewrite Z.rem_mul_r by lia. lia.
Qed.

Lemma be_val_bounds l : Forall is_byte l -> 0 <= be_val l < 256 ^ len l.
Proof.
  induction l as [|b l IH] using rev_ind; intros H; [by cbv|].
  apply Forall_app in H as [H Hb]. rewrite Forall_singleton in Hb. specialize (IH H).
  rewrite be_val_snoc, len_app. change (len [b]) with 1.
  rewrite Z.pow_add_r, Z.pow_1_r by (unfold len; lia). unfold is_byte in Hb. lia.
Qed.

(** A fixed-width big-endian encoding is undone by reading it back. *)
Lemma be_bytes_be_val l : Forall is_byte l -> be_bytes (length l) (be_val l) = l.
Proof.
  induction l as [|b l IH] using rev_ind; intros H; [done|].
  apply Forall_app in H as [H Hb]. rewrite Forall_singleton in Hb. specialize (IH H).
  rewrite length_app, Nat.add_comm. cbn [length Nat.add be_bytes].
  rewrite be_val_snoc. unfold is_byte in Hb.
  rewrite (Z.add_comm (be_val l * 256)), Z.div_add by lia.
  rewrite (Z.div_small b 256) by lia. rewrite Z.mod_add by lia.
  rewrite (Z.mod_small b 256) by lia. rewrite Z.add_0_l, IH. done.
Qed.

Lemma RightPadBytes_len l n : len (RightPadBytes l n) = Z.max n (len l).
Proof.
  unfold RightPadBytes. case_if; bool_to_Z; [lia|].
  rewrite len_app, len_zreplicate; lia.
Qed.
