(* ===== verification/Uint256.v ===== *)
(** * The [github.com/holiman/uint256] library, as an interface

    The virtual machine computes on [uint256.Int], a type of a third-party package.  The model
    takes that package as a parameter: [Uint256] lists the methods the code calls, [Uint256Spec]
    states their documented behaviour on the integer [uval] an [Int] denotes.  [ref_uint256] is
    one implementation; it shows that the specification can be met and makes the model
    executable. *)

From Stdlib Require Import Zpow_facts.
From S2P Require Import Prelude Bytes.

Class Uint256 := {
  word : Type;
  uval : word -> Z;                       (** the integer an [Int] denotes *)
  (** constructors and conversions *)
  SetUint64 : Z -> word;
  SetBytes : bytes -> word;               (** big-endian *)
  FromBig : Z -> word;                    (** first result of [uint256.FromBig] *)
  FromBigOverflow : Z -> bool;            (** its second result *)
  Uint64 : word -> Z;
  Uint64WithOverflow : word -> Z * bool;
  IsUint64 : word -> bool;
  Bytes32 : word -> Hash;
  Bytes20 : word -> Address;
  PutUint256 : word -> bytes;             (** the 32 bytes written at the destination *)
  BitLen : word -> Z;
  (** arithmetic *)
  Add : word -> word -> word;
  Sub : word -> word -> word;
  Mul : word -> word -> word;
  Div : word -> word -> word;
  SDiv : word -> word -> word;
  Mod : word -> word -> word;
  SMod : word -> word -> word;
  Exp : word -> word -> word;
  ExtendSign : word -> word -> word;
  AddMod : word -> word -> word -> word;
  MulMod : word -> word -> word -> word;
  (** comparison *)
  Lt : word -> word -> bool;
  Gt : word -> word -> bool;
  Slt : word -> word -> bool;
  Sgt : word -> word -> bool;
  Eq : word -> word -> bool;
  IsZero : word -> bool;
  Sign : word -> Z;
  LtUint64 : word -> Z -> bool;
  GtUint64 : word -> Z -> bool;
  (** bits *)
  Not : word -> word;
  And : word -> word -> word;
  Or : word -> word -> word;
  Xor : word -> word -> word;
  Byte : word -> word -> word;            (** [z.Byte(n)] on [z] and [n] *)
  Lsh : word -> Z -> word;
  Rsh : word -> Z -> word;
  SRsh : word -> Z -> word;
}.

(** [z.Clear()], [z.SetOne()], [z.SetAllOne()] *)
Definition wzero `{Uint256} : word := SetUint64 0.
Definition wone `{Uint256} : word := SetUint64 1.
Definition wallone `{Uint256} : word := Not wzero.
Definition bool_word `{Uint256} (b : bool) : word := if b then wone else wzero.

(** Two's complement reading of a 256-bit integer. *)
Definition signed256 (z : Z) : Z := if z <? 2 ^ 255 then z else z - two256.

(** The documented behaviour of the methods. *)
Class Uint256Spec (U : Uint256) : Prop := {
  uval_range w : 0 <= uval w < two256;
  uval_inj x y : uval x = uval y -> x = y;
  SetUint64_spec n : is_u64 n -> uval (SetUint64 n) = n;
  SetBytes_spec l : Forall is_byte l -> uval (SetBytes l) = be_val l mod two256;
  FromBig_spec z : uval (FromBig z) = z mod two256;
  FromBigOverflow_spec z : FromBigOverflow z = (two256 <=? Z.abs z);
  Uint64_spec w : Uint64 w = uval w mod two64;
  Uint64WithOverflow_spec w : Uint64WithOverflow w = (uval w mod two64, two64 <=? uval w);
  IsUint64_spec w : IsUint64 w = (uval w <? two64);
  Bytes32_spec w : Bytes32 w = uval w;
  Bytes20_spec w : Bytes20 w = uval w mod 2 ^ 160;
  PutUint256_spec w : PutUint256 w = be_bytes 32 (uval w);
  BitLen_spec w : BitLen w = if uval w =? 0 then 0 else Z.log2 (uval w) + 1;
  Add_spec x y : uval (Add x y) = (uval x + uval y) mod two256;
  Sub_spec x y : uval (Sub x y) = (uval x - uval y) mod two256;
  Mul_spec x y : uval (Mul x y) = (uval x * uval y) mod two256;
  Div_spec x y : uval (Div x y) = if uval y =? 0 then 0 else uval x / uval y;
  SDiv_spec x y : uval (SDiv x y) =
    if uval y =? 0 then 0 else (signed256 (uval x) ÷ signed256 (uval y)) mod two256;
  Mod_spec x y : uval (Mod x y) = if uval y =? 0 then 0 else uval x mod uval y;
  SMod_spec x y : uval (SMod x y) =
    if uval y =? 0 then 0
    else (Z.rem (signed256 (uval x)) (signed256 (uval y))) mod two256;
  Exp_spec x y : uval (Exp x y) = (uval x ^ uval y) mod two256;
  ExtendSign_spec x b : uval (ExtendSign x b) =
    if 30 <? uval b then uval x
    else let n := 8 * (uval b + 1) in
         let low := uval x mod 2 ^ n in
         (if low <? 2 ^ (n - 1) then low else low - 2 ^ n) mod two256;
  AddMod_spec x y m : uval (AddMod x y m) =
    if uval m =? 0 then 0 else (uval x + uval y) mod uval m;
  MulMod_spec x y m : uval (MulMod x y m) =
    if uval m =? 0 then 0 else (uval x * uval y) mod uval m;
  Lt_spec x y : Lt x y = (uval x <? uval y);
  Gt_spec x y : Gt x y = (uval y <? uval x);
  Slt_spec x y : Slt x y = (signed256 (uval x) <? signed256 (uval y));
  Sgt_spec x y : Sgt x y = (signed256 (uval y) <? signed256 (uval x));
  Eq_spec x y : Eq x y = (uval x =? uval y);
  IsZero_spec x : IsZero x = (uval x =? 0);
  Sign_spec x : Sign x = Z.sgn (signed256 (uval x));
  LtUint64_spec x n : LtUint64 x n = (uval x <? n);
  GtUint64_spec x n : GtUint64 x n = (n <? uval x);
  Not_spec x : uval (Not x) = two256 - 1 - uval x;
  And_spec x y : uval (And x y) = Z.land (uval x) (uval y);
  Or_spec x y : uval (Or x y) = Z.lor (uval x) (uval y);
  Xor_spec x y : uval (Xor x y) = Z.lxor (uval x) (uval y);
  Byte_spec x n : uval (Byte x n) =
    if 32 <=? uval n then 0 else (uval x / 256 ^ (31 - uval n)) mod 256;
  Lsh_spec x n : 0 <= n -> uval (Lsh x n) = (uval x * 2 ^ n) mod two256;
  Rsh_spec x n : 0 <= n -> uval (Rsh x n) = uval x / 2 ^ n;
  SRsh_spec x n : 0 <= n -> uval (SRsh x n) = (signed256 (uval x) / 2 ^ n) mod two256;
}.

Lemma uval_wzero `{Uint256Spec} : uval wzero = 0.
Proof. by apply SetUint64_spec. Qed.

Lemma IsZero_wzero `{Uint256Spec} : IsZero wzero = true.
Proof. by rewrite IsZero_spec, uval_wzero. Qed.

(** ** A reference implementation *)

Definition wrap256 (z : Z) : Z := z mod two256.

Record u256 := U256 { u256_val : Z; u256_ok : (wrap256 u256_val =? u256_val) = true }.

Lemma wrap256_ok z : (wrap256 (wrap256 z) =? wrap256 z) = true.
Proof. apply Z.eqb_eq, Z.mod_small, Z.mod_pos_bound. done. Qed.

Definition mk256 (z : Z) : u256 := U256 (wrap256 z) (wrap256_ok z).

#[export] Instance ref_uint256 : Uint256 := {
  word := u256;
  uval := u256_val;
  SetUint64 n := mk256 (wrap64 n);
  SetBytes l := mk256 (be_val l);
  FromBig z := mk256 z;
  FromBigOverflow z := two256 <=? Z.abs z;
  Uint64 w := u256_val w mod two64;
  Uint64WithOverflow w := (u256_val w mod two64, two64 <=? u256_val w);
  IsUint64 w := u256_val w <? two64;
  Bytes32 w := u256_val w;
  Bytes20 w := u256_val w mod 2 ^ 160;
  PutUint256 w := be_bytes 32 (u256_val w);
  BitLen w := if u256_val w =? 0 then 0 else Z.log2 (u256_val w) + 1;
  Add x y := mk256 (u256_val x + u256_val y);
  Sub x y := mk256 (u256_val x - u256_val y);
  Mul x y := mk256 (u256_val x * u256_val y);
  Div x y := mk256 (if u256_val y =? 0 then 0 else u256_val x / u256_val y);
  SDiv x y := mk256 (if u256_val y =? 0 then 0
                     else signed256 (u256_val x) ÷ signed256 (u256_val y));
  Mod x y := mk256 (if u256_val y =? 0 then 0 else u256_val x mod u256_val y);
  SMod x y := mk256 (if u256_val y =? 0 then 0
                     else Z.rem (signed256 (u256_val x)) (signed256 (u256_val y)));
  Exp x y := mk256 (Zpow_mod (u256_val x) (u256_val y) two256);
  ExtendSign x b := mk256
    (if 30 <? u256_val b then u256_val x
     else let n := 8 * (u256_val b + 1) in
          let low := u256_val x mod 2 ^ n in
          if low <? 2 ^ (n - 1) then low else low - 2 ^ n);
  AddMod x y m := mk256 (if u256_val m =? 0 then 0 else (u256_val x + u256_val y) mod u256_val m);
  MulMod x y m := mk256 (if u256_val m =? 0 then 0 else (u256_val x * u256_val y) mod u256_val m);
  Lt x y := u256_val x <? u256_val y;
  Gt x y := u256_val y <? u256_val x;
  Slt x y := signed256 (u256_val x) <? signed256 (u256_val y);
  Sgt x y := signed256 (u256_val y) <? signed256 (u256_val x);
  Eq x y := u256_val x =? u256_val y;
  IsZero x := u256_val x =? 0;
  Sign x := Z.sgn (signed256 (u256_val x));
  LtUint64 x n := u256_val x <? n;
  GtUint64 x n := n <? u256_val x;
  Not x := mk256 (two256 - 1 - u256_val x);
  And x y := mk256 (Z.land (u256_val x) (u256_val y));
  Or x y := mk256 (Z.lor (u256_val x) (u256_val y));
  Xor x y := mk256 (Z.lxor (u256_val x) (u256_val y));
  Byte x n := mk256 (if 32 <=? u256_val n then 0
                     else (u256_val x / 256 ^ (31 - u256_val n)) mod 256);
  Lsh x n := mk256 (u256_val x * 2 ^ n);
  Rsh x n := mk256 (u256_val x / 2 ^ n);
  SRsh x n := mk256 (signed256 (u256_val x) / 2 ^ n);
}.

Lemma u256_range (w : u256) : 0 <= u256_val w < two256.
Proof.
  destruct w as [v Hv]. simpl. apply Z.eqb_eq in Hv. rewrite <- Hv.
  apply Z.mod_pos_bound. done.
Qed.

Lemma bits_bound (a : Z) : 0 <= a -> (forall i, 256 <= i -> Z.testbit a i = false) -> a < two256.
Proof.
  intros Ha H. destruct (Z.eq_dec a 0) as [->|Hne]; [done|].
  apply Z.log2_lt_pow2; [lia|].
  destruct (Z.lt_ge_cases (Z.log2 a) 256) as [|Hge]; [done|].
  specialize (H _ Hge). rewrite Z.bit_log2 in H by lia. done.
Qed.

Lemma testbit_high (a i : Z) : 0 <= a < two256 -> 256 <= i -> Z.testbit a i = false.
Proof.
  intros Ha Hi. destruct (Z.eq_dec a 0) as [->|Hne]; [apply Z.testbit_0_l|].
  apply Z.bits_above_log2; [lia|].
  apply Z.lt_le_trans with 256; [|done]. apply Z.log2_lt_pow2; [lia|]. apply Ha.
Qed.

Ltac u256_bitop spec :=
  intros [v Hv] [v' Hv']; simpl; apply Z.mod_small;
  pose proof (u256_range (U256 v Hv)); pose proof (u256_range (U256 v' Hv')); simpl in *;
  split; [apply spec; lia|];
  apply bits_bound; [apply spec; lia|]; intros i Hi;
  rewrite ?Z.land_spec, ?Z.lor_spec, ?Z.lxor_spec;
  rewrite !testbit_high by lia; done.

Lemma signed256_mod_range z : 0 <= z mod two256 < two256.
Proof. apply Z.mod_pos_bound. done. Qed.

#[export] Instance ref_uint256_spec : Uint256Spec ref_uint256.
Proof.
  constructor; simpl; intros; unfold wrap256;
    try pose proof (u256_range w); try pose proof (u256_range x); try pose proof (u256_range y);
    try pose proof (u256_range m); try done.
  - destruct x as [v Hv], y as [v' Hv']. simpl in *. subst v'. f_equal. apply proof_irrel.
  - rewrite wrap64_small by done. apply Z.mod_small. unfold is_u64, two64, two256 in *. lia.
  - case_if; [done|]. bool_to_Z. apply Z.mod_small.
    pose proof (Z.div_le_upper_bound (u256_val x) (u256_val y) (u256_val x)).
    split; [apply Z.div_pos; lia|]. nia.
  - case_if; done.
  - case_if; [done|]. bool_to_Z. apply Z.mod_small.
    pose proof (Z.mod_pos_bound (u256_val x) (u256_val y)). lia.
  - case_if; done.
  - rewrite Zpow_mod_correct by done. apply Z.mod_mod. done.
  - case_if; [apply Z.mod_small; done|done].
  - case_if; [done|]. bool_to_Z. apply Z.mod_small.
    pose proof (Z.mod_pos_bound (u256_val x + u256_val y) (u256_val m)). lia.
  - case_if; [done|]. bool_to_Z. apply Z.mod_small.
    pose proof (Z.mod_pos_bound (u256_val x * u256_val y) (u256_val m)). lia.
  - apply Z.mod_small. lia.
  - revert x y H H0. assert (forall x y : u256, Z.land (u256_val x) (u256_val y) mod two256 = Z.land (u256_val x) (u256_val y)) as G; [|auto].
    u256_bitop Z.land_nonneg.
  - revert x y H H0. assert (forall x y : u256, Z.lor (u256_val x) (u256_val y) mod two256 = Z.lor (u256_val x) (u256_val y)) as G; [|auto].
    u256_bitop Z.lor_nonneg.
  - revert x y H H0. assert (forall x y : u256, Z.lxor (u256_val x) (u256_val y) mod two256 = Z.lxor (u256_val x) (u256_val y)) as G; [|auto].
    u256_bitop Z.lxor_nonneg.
  - case_if; [done|]. apply Z.mod_small.
    pose proof (Z.mod_pos_bound (u256_val x / 256 ^ (31 - u256_val n)) 256). unfold two256. lia.
  - apply Z.mod_small. split; [apply Z.div_pos; [lia|apply Z.pow_pos_nonneg; lia]|].
    apply Z.div_lt_upper_bound; [apply Z.pow_pos_nonneg; lia|].
    assert (0 < 2 ^ n) by (apply Z.pow_pos_nonneg; lia). nia.
Qed.
