(* ===== verification/Params.v ===== *)
(** * Protocol parameters ([params/protocol_params.go]) and the rule set of an epoch
    ([params/config.go], type [Rules])

    Every numeric constant of the Go file, under its own name; all are [uint64] or untyped
    constants used as such. *)

From S2P Require Import Prelude.

Definition GasLimitBoundDivisor : Z := 1024.
Definition MinGasLimit : Z := 5000.
Definition MaxGasLimit : Z := 9223372036854775807.
Definition GenesisGasLimit : Z := 4712388.
Definition MaximumExtraDataSize : Z := 32.
Definition ExpByteGas : Z := 10.
Definition SloadGas : Z := 50.
Definition CallValueTransferGas : Z := 9000.
Definition CallNewAccountGas : Z := 25000.
Definition TxGas : Z := 21000.
Definition TxGasContractCreation : Z := 53000.
Definition TxDataZeroGas : Z := 4.
Definition QuadCoeffDiv : Z := 512.
Definition LogDataGas : Z := 8.
Definition CallStipend : Z := 2300.
Definition Keccak256Gas : Z := 30.
Definition Keccak256WordGas : Z := 6.
Definition InitCodeWordGas : Z := 2.
Definition SstoreSetGas : Z := 20000.
Definition SstoreResetGas : Z := 5000.
Definition SstoreClearGas : Z := 5000.
Definition SstoreRefundGas : Z := 15000.
Definition NetSstoreNoopGas : Z := 200.
Definition NetSstoreInitGas : Z := 20000.
Definition NetSstoreCleanGas : Z := 5000.
Definition NetSstoreDirtyGas : Z := 200.
Definition NetSstoreClearRefund : Z := 15000.
Definition NetSstoreResetRefund : Z := 4800.
Definition NetSstoreResetClearRefund : Z := 19800.
Definition SstoreSentryGasEIP2200 : Z := 2300.
Definition SstoreSetGasEIP2200 : Z := 20000.
Definition SstoreResetGasEIP2200 : Z := 5000.
Definition SstoreClearsScheduleRefundEIP2200 : Z := 15000.
Definition ColdAccountAccessCostEIP2929 : Z := 2600.
Definition ColdSloadCostEIP2929 : Z := 2100.
Definition WarmStorageReadCostEIP2929 : Z := 100.
Definition JumpdestGas : Z := 1.
Definition EpochDuration : Z := 30000.
Definition CreateDataGas : Z := 200.
Definition CallCreateDepth : Z := 1024.
Definition ExpGas : Z := 10.
Definition LogGas : Z := 375.
Definition CopyGas : Z := 3.
Definition StackLimit : Z := 1024.
Definition TierStepGas : Z := 0.
Definition LogTopicGas : Z := 375.
Definition CreateGas : Z := 32000.
Definition Create2Gas : Z := 32000.
Definition CreateNGasEip4762 : Z := 1000.
Definition SelfdestructRefundGas : Z := 24000.
Definition MemoryGas : Z := 3.
Definition TxDataNonZeroGasFrontier : Z := 68.
Definition TxDataNonZeroGasEIP2028 : Z := 16.
Definition TxTokenPerNonZeroByte : Z := 4.
Definition TxCostFloorPerToken : Z := 10.
Definition TxAccessListAddressGas : Z := 2400.
Definition TxAccessListStorageKeyGas : Z := 1900.
Definition TxAuthTupleGas : Z := 12500.
Definition CallGasFrontier : Z := 40.
Definition CallGasEIP150 : Z := 700.
Definition BalanceGasFrontier : Z := 20.
Definition BalanceGasEIP150 : Z := 400.
Definition BalanceGasEIP1884 : Z := 700.
Definition ExtcodeSizeGasFrontier : Z := 20.
Definition ExtcodeSizeGasEIP150 : Z := 700.
Definition SloadGasFrontier : Z := 50.
Definition SloadGasEIP150 : Z := 200.
Definition SloadGasEIP1884 : Z := 800.
Definition SloadGasEIP2200 : Z := 800.
Definition ExtcodeHashGasConstantinople : Z := 400.
Definition ExtcodeHashGasEIP1884 : Z := 700.
Definition SelfdestructGasEIP150 : Z := 5000.
Definition ExpByteFrontier : Z := 10.
Definition ExpByteEIP158 : Z := 50.
Definition ExtcodeCopyBaseFrontier : Z := 20.
Definition ExtcodeCopyBaseEIP150 : Z := 700.
Definition CreateBySelfdestructGas : Z := 25000.
Definition DefaultBaseFeeChangeDenominator : Z := 8.
Definition DefaultElasticityMultiplier : Z := 2.
Definition InitialBaseFee : Z := 1000000000.
Definition MaxCodeSize : Z := 24576.
Definition MaxInitCodeSize : Z := 2 * MaxCodeSize.
Definition EcrecoverGas : Z := 3000.
Definition Sha256BaseGas : Z := 60.
Definition Sha256PerWordGas : Z := 12.
Definition Ripemd160BaseGas : Z := 600.
Definition Ripemd160PerWordGas : Z := 120.
Definition IdentityBaseGas : Z := 15.
Definition IdentityPerWordGas : Z := 3.
Definition Bn256AddGasByzantium : Z := 500.
Definition Bn256AddGasIstanbul : Z := 150.
Definition Bn256ScalarMulGasByzantium : Z := 40000.
Definition Bn256ScalarMulGasIstanbul : Z := 6000.
Definition Bn256PairingBaseGasByzantium : Z := 100000.
Definition Bn256PairingBaseGasIstanbul : Z := 45000.
Definition Bn256PairingPerPointGasByzantium : Z := 80000.
Definition Bn256PairingPerPointGasIstanbul : Z := 34000.
Definition Bls12381G1AddGas : Z := 375.
Definition Bls12381G1MulGas : Z := 12000.
Definition Bls12381G2AddGas : Z := 600.
Definition Bls12381G2MulGas : Z := 22500.
Definition Bls12381PairingBaseGas : Z := 37700.
Definition Bls12381PairingPerPairGas : Z := 32600.
Definition Bls12381MapG1Gas : Z := 5500.
Definition Bls12381MapG2Gas : Z := 23800.
Definition RefundQuotient : Z := 2.
Definition RefundQuotientEIP3529 : Z := 5.
Definition BlobTxBytesPerFieldElement : Z := 32.
Definition BlobTxFieldElementsPerBlob : Z := 4096.
Definition DifficultyBoundDivisor : Z := 2048.
Definition GenesisDifficulty : Z := 131072.
Definition MinimumDifficulty : Z := 131072.
Definition DurationLimit : Z := 13.
Definition FullImmutabilityThreshold : Z := 90000.
Definition BlobTxBlobGasPerBlob : Z := 131072.
Definition BlobTxMinBlobGasprice : Z := 1.
Definition BlobTxPointEvaluationPrecompileGas : Z := 50000.
Definition HistoryServeWindow : Z := 8192.
Definition SstoreClearsScheduleRefundEIP3529 : Z := SstoreResetGasEIP2200 - ColdSloadCostEIP2929 + TxAccessListStorageKeyGas.

(** [GasQuickStep] ... [GasExtStep] of [core/vm/gas.go]. *)
Definition GasQuickStep : Z := 2.
Definition GasFastestStep : Z := 3.
Definition GasFastishStep : Z := 4.
Definition GasFastStep : Z := 5.
Definition GasMidStep : Z := 8.
Definition GasSlowStep : Z := 10.
Definition GasExtStep : Z := 20.

(** [params.SystemAddress] *)
Definition SystemAddress : Z := 2 ^ 160 - 2.

(** [type Rules struct]: the forks active in an epoch. *)
Record Rules := mkRules {
  ChainID : Z;
  IsHomestead : bool; IsEIP150 : bool; IsEIP155 : bool; IsEIP158 : bool;
  IsEIP2929 : bool; IsEIP4762 : bool;
  IsByzantium : bool; IsConstantinople : bool; IsPetersburg : bool; IsIstanbul : bool;
  IsBerlin : bool; IsLondon : bool;
  IsMerge : bool; IsShanghai : bool; IsCancun : bool; IsPrague : bool; IsOsaka : bool;
  IsVerkle : bool;
}.

(** Unfolding of the constants, for arithmetic goals. *)
Create HintDb params.
#[export] Hint Unfold
  GasLimitBoundDivisor MinGasLimit MaxGasLimit GenesisGasLimit MaximumExtraDataSize ExpByteGas
  SloadGas CallValueTransferGas CallNewAccountGas TxGas TxGasContractCreation TxDataZeroGas
  QuadCoeffDiv LogDataGas CallStipend Keccak256Gas Keccak256WordGas InitCodeWordGas SstoreSetGas
  SstoreResetGas SstoreClearGas SstoreRefundGas NetSstoreNoopGas NetSstoreInitGas
  NetSstoreCleanGas NetSstoreDirtyGas NetSstoreClearRefund NetSstoreResetRefund
  NetSstoreResetClearRefund SstoreSentryGasEIP2200 SstoreSetGasEIP2200 SstoreResetGasEIP2200
  SstoreClearsScheduleRefundEIP2200 ColdAccountAccessCostEIP2929 ColdSloadCostEIP2929
  WarmStorageReadCostEIP2929 JumpdestGas EpochDuration CreateDataGas CallCreateDepth ExpGas
  LogGas CopyGas StackLimit TierStepGas LogTopicGas CreateGas Create2Gas CreateNGasEip4762
  SelfdestructRefundGas MemoryGas TxDataNonZeroGasFrontier TxDataNonZeroGasEIP2028
  TxTokenPerNonZeroByte TxCostFloorPerToken TxAccessListAddressGas TxAccessListStorageKeyGas
  TxAuthTupleGas CallGasFrontier CallGasEIP150 BalanceGasFrontier BalanceGasEIP150
  BalanceGasEIP1884 ExtcodeSizeGasFrontier ExtcodeSizeGasEIP150 SloadGasFrontier SloadGasEIP150
  SloadGasEIP1884 SloadGasEIP2200 ExtcodeHashGasConstantinople ExtcodeHashGasEIP1884
  SelfdestructGasEIP150 ExpByteFrontier ExpByteEIP158 ExtcodeCopyBaseFrontier
  ExtcodeCopyBaseEIP150 CreateBySelfdestructGas DefaultBaseFeeChangeDenominator
  DefaultElasticityMultiplier InitialBaseFee MaxCodeSize MaxInitCodeSize EcrecoverGas
  Sha256BaseGas Sha256PerWordGas Ripemd160BaseGas Ripemd160PerWordGas IdentityBaseGas
  IdentityPerWordGas Bn256AddGasByzantium Bn256AddGasIstanbul Bn256ScalarMulGasByzantium
  Bn256ScalarMulGasIstanbul Bn256PairingBaseGasByzantium Bn256PairingBaseGasIstanbul
  Bn256PairingPerPointGasByzantium Bn256PairingPerPointGasIstanbul Bls12381G1AddGas
  Bls12381G1MulGas Bls12381G2AddGas Bls12381G2MulGas Bls12381PairingBaseGas
  Bls12381PairingPerPairGas Bls12381MapG1Gas Bls12381MapG2Gas RefundQuotient
  RefundQuotientEIP3529 BlobTxBytesPerFieldElement BlobTxFieldElementsPerBlob
  BlobTxBlobGasPerBlob BlobTxMinBlobGasprice BlobTxPointEvaluationPrecompileGas
  HistoryServeWindow SstoreClearsScheduleRefundEIP3529 GasQuickStep GasFastestStep
  GasFastishStep GasFastStep GasMidStep GasSlowStep GasExtStep SystemAddress : params.
