(* ===== verification/ChainConfig.v ===== *)
(** * Chain configuration and fork rules ([params/config.go])

    A [ChainConfig] schedules forks by block number or by timestamp, [None] for a fork that is not
    scheduled (a nil pointer).  The model covers the fork tests, [Rules], the check of the fork
    order, and the check that a new configuration does not rewrite the history of a chain
    ([CheckCompatible], whose loop is bounded by the number of forks).  Banner
    printing is not modelled; error texts are kept as the names of the forks. *)

From stdpp Require Import strings.
From S2P Require Import Prelude Params.

#[local] Open Scope Z_scope.

(** [type BlobConfig struct] *)
Record BlobConfig := mkBlobConfig { Target : Z; Max : Z; UpdateFraction : Z }.

(** [type BlobScheduleConfig struct] *)
Record BlobScheduleConfig := mkBlobSchedule {
  Cancun : option BlobConfig; Prague : option BlobConfig; Osaka : option BlobConfig;
  Verkle : option BlobConfig }.

(** [type ChainConfig struct], the fields that schedule forks. *)
Record ChainConfig := mkChainConfig {
  config_ChainID_ : option Z;
  HomesteadBlock : option Z;
  DAOForkBlock : option Z; DAOForkSupport : bool;
  EIP150Block : option Z; EIP155Block : option Z; EIP158Block : option Z;
  ByzantiumBlock : option Z; ConstantinopleBlock : option Z; PetersburgBlock : option Z;
  IstanbulBlock : option Z; MuirGlacierBlock : option Z; BerlinBlock : option Z;
  LondonBlock : option Z; ArrowGlacierBlock : option Z; GrayGlacierBlock : option Z;
  MergeNetsplitBlock : option Z;
  ShanghaiTime : option Z; CancunTime : option Z; PragueTime : option Z; OsakaTime : option Z;
  VerkleTime : option Z;
  BlobScheduleConfig_ : option BlobScheduleConfig;
}.

(** ** Fork tests *)

Definition isBlockForked (s head : option Z) : bool :=
  match s, head with Some s, Some head => s <=? head | _, _ => false end.

Definition configBlockEqual (x y : option Z) : bool :=
  match x, y with
  | None, None => true
  | Some x, Some y => x =? y
  | _, _ => false
  end.

Definition isForkBlockIncompatible (s1 s2 head : option Z) : bool :=
  (isBlockForked s1 head || isBlockForked s2 head) && negb (configBlockEqual s1 s2).

Definition isTimestampForked (s : option Z) (head : Z) : bool :=
  match s with Some s => s <=? head | None => false end.

Definition configTimestampEqual (x y : option Z) : bool :=
  match x, y with
  | None, None => true
  | Some x, Some y => x =? y
  | _, _ => false
  end.

Definition isForkTimestampIncompatible (s1 s2 : option Z) (head : Z) : bool :=
  (isTimestampForked s1 head || isTimestampForked s2 head) && negb (configTimestampEqual s1 s2).

(** ** Methods of [ChainConfig]

    [num] is a nullable block number, as in the source. *)
Module Config.

Definition IsHomestead (c : ChainConfig) (num : option Z) := isBlockForked (HomesteadBlock c) num.
Definition IsDAOFork (c : ChainConfig) (num : option Z) := isBlockForked (DAOForkBlock c) num.
Definition IsEIP150 (c : ChainConfig) (num : option Z) := isBlockForked (EIP150Block c) num.
Definition IsEIP155 (c : ChainConfig) (num : option Z) := isBlockForked (EIP155Block c) num.
Definition IsEIP158 (c : ChainConfig) (num : option Z) := isBlockForked (EIP158Block c) num.
Definition IsByzantium (c : ChainConfig) (num : option Z) := isBlockForked (ByzantiumBlock c) num.
Definition IsConstantinople (c : ChainConfig) (num : option Z) :=
  isBlockForked (ConstantinopleBlock c) num.
Definition IsMuirGlacier (c : ChainConfig) (num : option Z) := isBlockForked (MuirGlacierBlock c) num.
Definition IsPetersburg (c : ChainConfig) (num : option Z) : bool :=
  isBlockForked (PetersburgBlock c) num
  || bool_decide (PetersburgBlock c = None) && isBlockForked (ConstantinopleBlock c) num.
Definition IsIstanbul (c : ChainConfig) (num : option Z) := isBlockForked (IstanbulBlock c) num.
Definition IsBerlin (c : ChainConfig) (num : option Z) := isBlockForked (BerlinBlock c) num.
Definition IsLondon (c : ChainConfig) (num : option Z) := isBlockForked (LondonBlock c) num.
Definition IsArrowGlacier (c : ChainConfig) (num : option Z) := isBlockForked (ArrowGlacierBlock c) num.
Definition IsGrayGlacier (c : ChainConfig) (num : option Z) := isBlockForked (GrayGlacierBlock c) num.
Definition IsShanghai (c : ChainConfig) (num : option Z) (time : Z) : bool :=
  IsLondon c num && isTimestampForked (ShanghaiTime c) time.
Definition IsCancun (c : ChainConfig) (num : option Z) (time : Z) : bool :=
  IsLondon c num && isTimestampForked (CancunTime c) time.
Definition IsPrague (c : ChainConfig) (num : option Z) (time : Z) : bool :=
  IsLondon c num && isTimestampForked (PragueTime c) time.
Definition IsOsaka (c : ChainConfig) (num : option Z) (time : Z) : bool :=
  IsLondon c num && isTimestampForked (OsakaTime c) time.
Definition IsVerkle (c : ChainConfig) (num : option Z) (time : Z) : bool :=
  IsLondon c num && isTimestampForked (VerkleTime c) time.
Definition IsEIP4762 (c : ChainConfig) (num : option Z) (time : Z) : bool := IsVerkle c num time.

(** [func (c *ChainConfig) Rules(num *big.Int, isMerge bool, timestamp uint64) Rules] *)
Definition Rules (c : ChainConfig) (num : option Z) (isMerge : bool) (timestamp : Z) : Params.Rules :=
  let chainID := default 0 (config_ChainID_ c) in
  let isMerge := isMerge && IsLondon c num in
  let isVerkle := isMerge && IsVerkle c num timestamp in
  {| Params.ChainID := chainID;
     Params.IsHomestead := IsHomestead c num;
     Params.IsEIP150 := IsEIP150 c num;
     Params.IsEIP155 := IsEIP155 c num;
     Params.IsEIP158 := IsEIP158 c num;
     Params.IsEIP2929 := IsBerlin c num && negb isVerkle;
     Params.IsEIP4762 := isVerkle;
     Params.IsByzantium := IsByzantium c num;
     Params.IsConstantinople := IsConstantinople c num;
     Params.IsPetersburg := IsPetersburg c num;
     Params.IsIstanbul := IsIstanbul c num;
     Params.IsBerlin := IsBerlin c num;
     Params.IsLondon := IsLondon c num;
     Params.IsMerge := isMerge;
     Params.IsShanghai := isMerge && IsShanghai c num timestamp;
     Params.IsCancun := isMerge && IsCancun c num timestamp;
     Params.IsPrague := isMerge && IsPrague c num timestamp;
     Params.IsOsaka := isMerge && IsOsaka c num timestamp;
     Params.IsVerkle := isVerkle |}.

(** [type Fork int], the forks that [LatestFork] and [Timestamp] distinguish. *)
Inductive Fork := fork_Paris | fork_Shanghai | fork_Cancun | fork_Prague | fork_Osaka.

Definition LatestFork (c : ChainConfig) (time : Z) : Fork :=
  let london := LondonBlock c in
  if IsOsaka c london time then fork_Osaka
  else if IsPrague c london time then fork_Prague
  else if IsCancun c london time then fork_Cancun
  else if IsShanghai c london time then fork_Shanghai
  else fork_Paris.

Definition Timestamp (c : ChainConfig) (fork : Fork) : option Z :=
  match fork with
  | fork_Osaka => OsakaTime c
  | fork_Prague => PragueTime c
  | fork_Cancun => CancunTime c
  | fork_Shanghai => ShanghaiTime c
  | fork_Paris => None
  end.

(** ** Fork order *)

(** [type fork struct] of [CheckConfigForkOrder]. *)
Record fork := mkFork { name : string; block : option Z; timestamp : option Z; optional : bool }.

Inductive configerror :=
  | NotEnabled (last cur : string)             (** "%v not enabled, but %v enabled at ..." *)
  | OutOfOrder (last cur : string)             (** "%v enabled at ..., but %v enabled at ..." *)
  | RevertedToBlock (last cur : string)
  | InvalidBlobSchedule (fork : string)
  | MissingBlobSchedule (fork : string).

Definition isSome {A} (o : option A) : bool := match o with Some _ => true | None => false end.

Definition fork_list (c : ChainConfig) : list fork := [
  mkFork "homesteadBlock" (HomesteadBlock c) None false;
  mkFork "daoForkBlock" (DAOForkBlock c) None true;
  mkFork "eip150Block" (EIP150Block c) None false;
  mkFork "eip155Block" (EIP155Block c) None false;
  mkFork "eip158Block" (EIP158Block c) None false;
  mkFork "byzantiumBlock" (ByzantiumBlock c) None false;
  mkFork "constantinopleBlock" (ConstantinopleBlock c) None false;
  mkFork "petersburgBlock" (PetersburgBlock c) None false;
  mkFork "istanbulBlock" (IstanbulBlock c) None false;
  mkFork "muirGlacierBlock" (MuirGlacierBlock c) None true;
  mkFork "berlinBlock" (BerlinBlock c) None false;
  mkFork "londonBlock" (LondonBlock c) None false;
  mkFork "arrowGlacierBlock" (ArrowGlacierBlock c) None true;
  mkFork "grayGlacierBlock" (GrayGlacierBlock c) None true;
  mkFork "mergeNetsplitBlock" (MergeNetsplitBlock c) None true;
  mkFork "shanghaiTime" None (ShanghaiTime c) false;
  mkFork "cancunTime" None (CancunTime c) true;
  mkFork "pragueTime" None (PragueTime c) true;
  mkFork "osakaTime" None (OsakaTime c) true;
  mkFork "verkleTime" None (VerkleTime c) true ].

(** The [switch] of the loop body, for a [lastFork] that is set. *)
Definition checkFork (last cur : fork) : option configerror :=
  if negb (isSome (block last)) && negb (isSome (timestamp last))
     && (isSome (block cur) || isSome (timestamp cur))
  then Some (NotEnabled (name last) (name cur))
  else if isSome (block last) && isSome (block cur) || isSome (timestamp last) && isSome (timestamp cur)
  then
    match block last, block cur, timestamp last, timestamp cur with
    | Some b, Some b', _, _ =>
        if b' <? b then Some (OutOfOrder (name last) (name cur))
        else if isSome (timestamp last) then Some (RevertedToBlock (name last) (name cur)) else None
    | _, _, Some t, Some t' => if t' <? t then Some (OutOfOrder (name last) (name cur)) else None
    | _, _, _, _ => None
    end
  else None.

Fixpoint checkForks (last : option fork) (forks : list fork) : option configerror :=
  match forks with
  | [] => None
  | cur :: rest =>
      match match last with Some l => checkFork l cur | None => None end with
      | Some e => Some e
      | None =>
          checkForks (if negb (optional cur) || (isSome (block cur) || isSome (timestamp cur))
                      then Some cur else last) rest
      end
  end.

(** [func (bc *BlobConfig) validate() error] *)
Definition validate (bc : BlobConfig) : bool :=
  negb (Max bc <? 0) && negb (Target bc <? 0) && negb (UpdateFraction bc =? 0).

Definition checkBlobSchedule (cur : string * option Z * option BlobConfig) : option configerror :=
  let '(nm, ts, config) := cur in
  match config with
  | Some bc => if validate bc then None else Some (InvalidBlobSchedule nm)
  | None => if isSome ts then Some (MissingBlobSchedule nm) else None
  end.

Fixpoint firstError {A} (f : A -> option configerror) (l : list A) : option configerror :=
  match l with
  | [] => None
  | x :: r => match f x with Some e => Some e | None => firstError f r end
  end.

Definition CheckConfigForkOrder (c : ChainConfig) : option configerror :=
  match checkForks None (fork_list c) with
  | Some e => Some e
  | None =>
      let bsc := default (mkBlobSchedule None None None None) (BlobScheduleConfig_ c) in
      firstError checkBlobSchedule
        [("cancun"%string, CancunTime c, Cancun bsc); ("prague"%string, PragueTime c, Prague bsc);
         ("osaka"%string, OsakaTime c, Osaka bsc)]
  end.

(** ** Compatibility with the stored chain *)

(** [type ConfigCompatError struct], the rewind points. *)
Record ConfigCompatError := mkCompatError {
  What : string; RewindToBlock : Z; RewindToTime : Z }.

(** The point before the earlier of the two schedules. *)
Definition rewindPoint (stored new : option Z) : option Z :=
  match stored, new with
  | None, _ => new
  | Some s, None => Some s
  | Some s, Some n => if s <? n then Some s else Some n
  end.

Definition newBlockCompatError (what : string) (storedblock newblock : option Z) : ConfigCompatError :=
  mkCompatError what
    (match rewindPoint storedblock newblock with
     | Some rew => if 0 <? rew then wrap64 rew -! 1 else 0
     | None => 0
     end) 0.

Definition newTimestampCompatError (what : string) (storedtime newtime : option Z) : ConfigCompatError :=
  mkCompatError what 0
    (match rewindPoint storedtime newtime with
     | Some rew => if negb (rew =? 0) then rew -! 1 else 0
     | None => 0
     end).

(** The tests of [checkCompatible], in order: each is a condition with its error. *)
Definition compatChecks (c newcfg : ChainConfig) (headNumber : option Z) (headTimestamp : Z)
    : list (bool * ConfigCompatError) :=
  let blk what (f : ChainConfig -> option Z) :=
    (isForkBlockIncompatible (f c) (f newcfg) headNumber, newBlockCompatError what (f c) (f newcfg)) in
  let tim what (f : ChainConfig -> option Z) :=
    (isForkTimestampIncompatible (f c) (f newcfg) headTimestamp,
     newTimestampCompatError what (f c) (f newcfg)) in
  [ blk "Homestead fork block"%string HomesteadBlock;
    blk "DAO fork block"%string DAOForkBlock;
    (IsDAOFork c headNumber && negb (Bool.eqb (DAOForkSupport c) (DAOForkSupport newcfg)),
     newBlockCompatError "DAO fork support flag" (DAOForkBlock c) (DAOForkBlock newcfg));
    blk "EIP150 fork block"%string EIP150Block;
    blk "EIP155 fork block"%string EIP155Block;
    blk "EIP158 fork block"%string EIP158Block;
    (IsEIP158 c headNumber && negb (configBlockEqual (config_ChainID_ c) (config_ChainID_ newcfg)),
     newBlockCompatError "EIP158 chain ID" (EIP158Block c) (EIP158Block newcfg));
    blk "Byzantium fork block"%string ByzantiumBlock;
    blk "Constantinople fork block"%string ConstantinopleBlock;
    (isForkBlockIncompatible (PetersburgBlock c) (PetersburgBlock newcfg) headNumber
     && isForkBlockIncompatible (ConstantinopleBlock c) (PetersburgBlock newcfg) headNumber,
     newBlockCompatError "Petersburg fork block" (PetersburgBlock c) (PetersburgBlock newcfg));
    blk "Istanbul fork block"%string IstanbulBlock;
    blk "Muir Glacier fork block"%string MuirGlacierBlock;
    blk "Berlin fork block"%string BerlinBlock;
    blk "London fork block"%string LondonBlock;
    blk "Arrow Glacier fork block"%string ArrowGlacierBlock;
    blk "Gray Glacier fork block"%string GrayGlacierBlock;
    blk "Merge netsplit fork block"%string MergeNetsplitBlock;
    tim "Shanghai fork timestamp"%string ShanghaiTime;
    tim "Cancun fork timestamp"%string CancunTime;
    tim "Prague fork timestamp"%string PragueTime;
    tim "Osaka fork timestamp"%string OsakaTime;
    tim "Verkle fork timestamp"%string VerkleTime ].

(** The first test that holds decides. *)
Fixpoint firstConflict (l : list (bool * ConfigCompatError)) : option ConfigCompatError :=
  match l with
  | [] => None
  | (b, e) :: r => if (b : bool) then Some e else firstConflict r
  end.

Definition checkCompatible (c newcfg : ChainConfig) (headNumber : option Z) (headTimestamp : Z)
    : option ConfigCompatError :=
  firstConflict (compatChecks c newcfg headNumber headTimestamp).

(** The loop of [CheckCompatible]. *)
Fixpoint checkCompatibleLoop (fuel : nat) (c newcfg : ChainConfig) (bhead btime : Z)
    (lasterr : option ConfigCompatError) : Outcome (option ConfigCompatError) :=
  match fuel with
  | O => Fail OutOfFuel
  | S fuel =>
      match checkCompatible c newcfg (Some bhead) btime with
      | None => Ret lasterr
      | Some err =>
          if match lasterr with
             | Some last => (RewindToBlock err =? RewindToBlock last)
                            && (RewindToTime err =? RewindToTime last)
             | None => false
             end
          then Ret lasterr
          else if 0 <? RewindToTime err
          then checkCompatibleLoop fuel c newcfg bhead (RewindToTime err) (Some err)
          else checkCompatibleLoop fuel c newcfg (RewindToBlock err) btime (Some err)
      end
  end.

(** Each turn of the loop that goes on silences at least one of the 22 tests or only clears the
    rewind point, so that 46 turns are enough ([CheckCompatible_total]). *)
Definition CheckCompatible (c newcfg : ChainConfig) (height time : Z)
    : Outcome (option ConfigCompatError) :=
  checkCompatibleLoop 46 c newcfg height time None.

End Config.
