(* ===== verification/Machine.v ===== *)
(** * Data of the virtual machine: errors, stack, memory and gas arithmetic

    Models [core/vm/errors.go], [stack.go], [stack_table.go], [memory.go], [common.go],
    [memory_table.go], [gas.go] and the overflow-checked arithmetic of
    [common/math/integer.go].

    The stack is a list whose head is the top: [st !! n] is the source's
    [data[len(data)-1-n]].  [sync.Pool] recycling is not modelled: [returnStack] and
    [Memory.Free] reset an object before it is handed out again, so a stack or memory always
    starts empty. *)

From S2P Require Import Prelude Bytes Uint256 Params.

(** ** Errors ([errors.go]) *)

Inductive vmerror :=
  | ErrOutOfGas
  | ErrCodeStoreOutOfGas
  | ErrDepth
  | ErrInsufficientBalance
  | ErrContractAddressCollision
  | ErrExecutionReverted
  | ErrMaxCodeSizeExceeded
  | ErrMaxInitCodeSizeExceeded (size : Z)   (** wrapped with the size *)
  | ErrInvalidJump
  | ErrWriteProtection
  | ErrReturnDataOutOfBounds
  | ErrGasUintOverflow
  | ErrInvalidCode
  | ErrNonceUintOverflow
  | ErrStackUnderflow (stackLen required : Z)
  | ErrStackOverflow (stackLen limit : Z)
  | ErrInvalidOpCode (opcode : Z)
  | ErrReentrancySentry                     (** "not enough gas for reentrancy sentry" *)
  | ErrDynamicGas (e : vmerror)             (** [fmt.Errorf("%w: %v", ErrOutOfGas, err)] *)
  | ErrPrecompile (code : Z)                (** an error of a precompiled contract *)
  | errStopToken.

#[global] Instance vmerror_eq_dec : EqDecision vmerror.
Proof. solve_decision. Defined.

Abbreviation error := (option vmerror) (only parsing).

(** ** Overflow-checked arithmetic ([common/math/integer.go]) *)

Definition SafeSub (x y : Z) : Z * bool := (x -! y, x <? y).
Definition SafeAdd (x y : Z) : Z * bool := (x +! y, two64 <=? x + y).
Definition SafeMul (x y : Z) : Z * bool := (x *! y, negb (x * y / two64 =? 0)).

(** ** Stack limits ([stack_table.go]) *)

Definition maxStack (pop push : Z) : Z := StackLimit + pop - push.
Definition minStack (pops push : Z) : Z := pops.
Definition minSwapStack (n : Z) : Z := minStack n n.
Definition maxSwapStack (n : Z) : Z := maxStack n n.
Definition minDupStack (n : Z) : Z := minStack n (n + 1).
Definition maxDupStack (n : Z) : Z := maxStack n (n + 1).

(** ** Word sizes and data slices ([common.go]) *)

Definition toWordSize (size : Z) : Z :=
  if MaxUint64 - 31 <? size then MaxUint64 / 32 + 1 else (size + 31) / 32.

(** [int(x)] of a [uint64]. *)
Definition to_int (x : Z) : Z := if x <? 2 ^ 63 then x else x - two64.
Lemma to_int_small x : x < 2 ^ 63 -> to_int x = x.
Proof. intros H. unfold to_int. by rewrite (proj2 (Z.ltb_lt _ _) H). Qed.

Definition getData (data : bytes) (start size : Z) : Outcome bytes :=
  let length := len data in
  let start := if length <? start then length else start in
  let end_ := start +! size in
  let end_ := if length <? end_ then length else end_ in
  d ← slice data start end_;
  Ret (RightPadBytes d (to_int size)).

Fixpoint allZero (b : bytes) : bool :=
  match b with [] => true | x :: r => if x =? 0 then allZero r else false end.

Section machine.
Context `{U : Uint256}.

(** ** [stack.go] *)

Definition Stack : Type := list word.

Definition push (d : word) (st : Stack) : Stack := d :: st.

Definition pop (st : Stack) : Outcome (word * Stack) :=
  match st with w :: r => Ret (w, r) | [] => Fail PanicIndex end.

(** [Back(n)]; [peek] is [Back(0)]. *)
Definition Back (st : Stack) (n : Z) : Outcome word := index st n.
Definition peek (st : Stack) : Outcome word := Back st 0.

Definition dup (n : Z) (st : Stack) : Outcome Stack :=
  w ← index st (n - 1); Ret (push w st).

(** [swap1] ... [swap16]: exchange the top with the item [n] below it. *)
Definition swap (n : Z) (st : Stack) : Outcome Stack :=
  a ← index st 0; b ← index st n;
  Ret (<[0%nat := b]> (<[Z.to_nat n := a]> st)).

(** Writing through the pointer that [peek] returns. *)
Definition set_top (w : word) (st : Stack) : Outcome Stack :=
  match st with _ :: r => Ret (w :: r) | [] => Fail PanicIndex end.

(** ** [memory.go] *)

Record Memory := mkMemory { store : bytes; lastGasCost : Z }.

Definition NewMemory : Memory := mkMemory [] 0.

(** [copy(store[off:off+n], value)] for bounds already checked. *)
Definition write_at (s : bytes) (off n : Z) (value : bytes) : bytes :=
  let v := take (Z.to_nat n) value in
  take (Z.to_nat off) s ++ v ++ drop (Z.to_nat off + length v) s.

Definition Memory_Set (m : Memory) (offset size : Z) (value : bytes) : Outcome Memory :=
  if 0 <? size then
    if len (store m) <? offset +! size then Fail PanicMemory
    else
      _ ← slice (store m) offset (offset +! size);
      Ret (mkMemory (write_at (store m) offset size value) (lastGasCost m))
  else Ret m.

Definition Memory_Set32 (m : Memory) (offset : Z) (val : word) : Outcome Memory :=
  if len (store m) <? offset +! 32 then Fail PanicMemory
  else
    d ← slice (store m) offset (len (store m));
    if len d <? 32 then Fail PanicIndex
    else Ret (mkMemory (write_at (store m) offset 32 (PutUint256 val)) (lastGasCost m)).

Definition Memory_Resize (m : Memory) (size : Z) : Memory :=
  if len (store m) <? size
  then mkMemory (store m ++ zreplicate (size - len (store m)) 0) (lastGasCost m)
  else m.

Definition Memory_GetCopy (m : Memory) (offset size : Z) : Outcome bytes :=
  if size =? 0 then Ret [] else slice (store m) offset (offset +! size).

Definition Memory_GetPtr (m : Memory) (offset size : Z) : Outcome bytes :=
  if size =? 0 then Ret [] else slice (store m) offset (offset +! size).

Definition Memory_Copy (m : Memory) (dst src n : Z) : Outcome Memory :=
  if n =? 0 then Ret m
  else
    d ← slice (store m) dst (len (store m));
    s ← slice (store m) src (src +! n);
    Ret (mkMemory (write_at (store m) dst (len d) s) (lastGasCost m)).

(** [scope.Memory.store[off] = byte(val)] of [opMstore8]. *)
Definition Memory_SetByte (m : Memory) (off b : Z) : Outcome Memory :=
  _ ← index (store m) off;
  Ret (mkMemory (<[Z.to_nat off := b]> (store m)) (lastGasCost m)).

(** ** Memory size computation ([common.go], [memory_table.go]) *)

Definition calcMemSize64WithUint (off : word) (length64 : Z) : Z * bool :=
  if length64 =? 0 then (0, false)
  else
    let '(offset64, overflow) := Uint64WithOverflow off in
    if (overflow : bool) then (0, true)
    else
      let val := offset64 +! length64 in
      (val, val <? offset64).

Definition calcMemSize64 (off l : word) : Z * bool :=
  if negb (IsUint64 l) then (0, true) else calcMemSize64WithUint off (Uint64 l).

Definition memorySizeAt (st : Stack) (off l : Z) : Outcome (Z * bool) :=
  o ← Back st off; n ← Back st l; Ret (calcMemSize64 o n).

Definition memoryKeccak256 (st : Stack) := memorySizeAt st 0 1.
Definition memoryCallDataCopy (st : Stack) := memorySizeAt st 0 2.
Definition memoryReturnDataCopy (st : Stack) := memorySizeAt st 0 2.
Definition memoryCodeCopy (st : Stack) := memorySizeAt st 0 2.
Definition memoryExtCodeCopy (st : Stack) := memorySizeAt st 1 3.
Definition memoryMLoad (st : Stack) : Outcome (Z * bool) :=
  o ← Back st 0; Ret (calcMemSize64WithUint o 32).
Definition memoryMStore8 (st : Stack) : Outcome (Z * bool) :=
  o ← Back st 0; Ret (calcMemSize64WithUint o 1).
Definition memoryMStore (st : Stack) : Outcome (Z * bool) :=
  o ← Back st 0; Ret (calcMemSize64WithUint o 32).
Definition memoryMcopy (st : Stack) : Outcome (Z * bool) :=
  mStart ← Back st 0; src ← Back st 1; l ← Back st 2;
  Ret (calcMemSize64 (if Gt src mStart then src else mStart) l).
Definition memoryCreate (st : Stack) := memorySizeAt st 1 2.
Definition memoryCreate2 (st : Stack) := memorySizeAt st 1 2.

(** The larger of two regions, as [memoryCall] and its variants compute it. *)
Definition memoryMax (x y : Z * bool) : Z * bool :=
  if x.2 then (0, true) else if y.2 then (0, true)
  else if y.1 <? x.1 then (x.1, false) else (y.1, false).

Definition memoryCall (st : Stack) : Outcome (Z * bool) :=
  x ← memorySizeAt st 5 6; y ← memorySizeAt st 3 4; Ret (memoryMax x y).
Definition memoryDelegateCall (st : Stack) : Outcome (Z * bool) :=
  x ← memorySizeAt st 4 5; y ← memorySizeAt st 2 3; Ret (memoryMax x y).
Definition memoryStaticCall (st : Stack) : Outcome (Z * bool) :=
  x ← memorySizeAt st 4 5; y ← memorySizeAt st 2 3; Ret (memoryMax x y).
Definition memoryReturn (st : Stack) := memorySizeAt st 0 1.
Definition memoryRevert (st : Stack) := memorySizeAt st 0 1.
Definition memoryLog (st : Stack) := memorySizeAt st 0 1.

(** ** Gas forwarded to a call ([gas.go]) *)

Definition callGas (isEip150 : bool) (availableGas base : Z) (callCost : word) : Z * error :=
  let availableGas := if isEip150 then availableGas -! base else availableGas in
  let gas := availableGas -! availableGas / 64 in
  if isEip150 && (negb (IsUint64 callCost) || (gas <? Uint64 callCost)) then (gas, None)
  else if negb (IsUint64 callCost) then (0, Some ErrGasUintOverflow)
  else (Uint64 callCost, None).

(** ** Memory expansion gas ([gas_table.go]) *)

Definition memoryGasCost (mem : Memory) (newMemSize : Z) : (Z * error) * Memory :=
  if newMemSize =? 0 then ((0, None), mem)
  else if 137438953440 <? newMemSize then ((0, Some ErrGasUintOverflow), mem)
  else
    let newMemSizeWords := toWordSize newMemSize in
    let newMemSize := newMemSizeWords *! 32 in
    if len (store mem) <? newMemSize then
      let square := newMemSizeWords *! newMemSizeWords in
      let linCoef := newMemSizeWords *! MemoryGas in
      let quadCoef := square / QuadCoeffDiv in
      let newTotalFee := linCoef +! quadCoef in
      let fee := newTotalFee -! lastGasCost mem in
      ((fee, None), mkMemory (store mem) newTotalFee)
    else ((0, None), mem).
End machine.

(** ** Lemmas: checked arithmetic *)

Lemma SafeAdd_ok x y z : 0 <= x -> 0 <= y -> SafeAdd x y = (z, false) -> z = x + y /\ z < two64.
Proof.
  intros Hx Hy [= <- H]. apply Z.leb_gt in H.
  rewrite wrap64_small by (unfold is_u64; lia). lia.
Qed.

Lemma SafeMul_ok x y z : 0 <= x -> 0 <= y -> SafeMul x y = (z, false) -> z = x * y /\ z < two64.
Proof.
  intros Hx Hy [= <- H]. apply negb_false_iff, Z.eqb_eq in H.
  assert (0 <= x * y < two64).
  { split; [nia|]. apply Z.div_small_iff in H; unfold two64 in *; [|lia]. destruct H; lia. }
  rewrite wrap64_small by done. lia.
Qed.

Lemma SafeAdd_ok' x y z : SafeAdd x y = (z, false) -> 0 <= x -> 0 <= y -> z = x + y.
Proof. intros H ??. by eapply SafeAdd_ok in H as []. Qed.

Lemma SafeAdd_u64 x y z b : SafeAdd x y = (z, b) -> is_u64 z.
Proof. intros [= <- _]. auto with geth. Qed.
Lemma SafeMul_u64 x y z b : SafeMul x y = (z, b) -> is_u64 z.
Proof. intros [= <- _]. auto with geth. Qed.

(** [toWordSize] is the rounded-up quotient for every [uint64], also where [size + 31] would
    wrap around. *)
Lemma toWordSize_ceil size : is_u64 size -> toWordSize size = (size + 31) / 32.
Proof.
  intros H. unfold toWordSize. case_if; bool_to_Z; [|done].
  unfold_u64. change ((18446744073709551616 - 1) / 32 + 1) with 576460752303423488.
  apply Z.div_unique with (r := size + 31 - 18446744073709551616); lia.
Qed.

Lemma toWordSize_bound size : is_u64 size -> size <= 32 * toWordSize size < size + 32.
Proof.
  intros H. rewrite toWordSize_ceil by done.
  pose proof (Z.div_mod (size + 31) 32). pose proof (Z.mod_pos_bound (size + 31) 32). lia.
Qed.

(** ** Lemmas: slices of data *)

(** What the interpreter handles as data: bytes, and fewer than [2^63] of them, the limit of a
    Go slice. *)
Definition data_ok (d : bytes) : Prop := Forall is_byte d /\ len d < 2 ^ 63.

Lemma data_ok_nil : data_ok [].
Proof. split; [constructor|done]. Qed.
#[export] Hint Resolve data_ok_nil : geth.

Lemma Forall_zslice {A} (P : A -> Prop) l lo hi : Forall P l -> Forall P (zslice l lo hi).
Proof. intros. by apply Forall_take, Forall_drop. Qed.

Lemma len_zslice_le_len {A} (l : list A) lo hi : len (zslice l lo hi) <= len l.
Proof. unfold len, zslice. rewrite length_take, length_drop. lia. Qed.

Lemma data_ok_zslice l lo hi : data_ok l -> data_ok (zslice l lo hi).
Proof.
  intros [H1 H2]. split; [by apply Forall_zslice|].
  pose proof (len_zslice_le_len l lo hi). lia.
Qed.
#[export] Hint Resolve data_ok_zslice : geth.

Lemma Forall_zreplicate_0 n : Forall is_byte (zreplicate n 0).
Proof. apply Forall_replicate. unfold is_byte; lia. Qed.
#[export] Hint Resolve Forall_zreplicate_0 : geth.

(** [getData] does not panic and pads its result to the requested size.  The bound on [size]
    matters: [start + size] would wrap around for a larger one; the interpreter only passes
    sizes that fit into memory. *)
Lemma getData_ok d start size :
  data_ok d -> 0 <= start -> 0 <= size < 2 ^ 63 ->
  exists r, getData d start size = Ret r /\ Forall is_byte r /\ size <= len r <= Z.max size (len d).
Proof.
  intros [Hb Hl] H0 Hz. unfold getData. rewrite (to_int_small size) by lia.
  pose proof (len_nonneg d).
  set (st := if len d <? start then len d else start).
  assert (Hst : 0 <= st <= len d) by (unfold st; case_if; bool_to_Z; lia).
  rewrite (wrap64_small (st + size)) by (unfold_u64; lia).
  set (en := if len d <? st + size then len d else st + size).
  assert (st <= en <= len d) by (unfold en; case_if; bool_to_Z; lia).
  rewrite slice_ok by lia. eexists; split; [reflexivity|]. split.
  - unfold RightPadBytes. case_if; [by apply Forall_zslice|].
    apply Forall_app. split; [by apply Forall_zslice|auto with geth].
  - rewrite RightPadBytes_len, len_zslice by lia.
    assert (en - st <= size) by (unfold en; case_if; bool_to_Z; lia). lia.
Qed.

(** ** Lemmas: memory *)

Definition maxMemSize : Z := 137438953440.

(** The fee for a memory of [w] words: [3 * w + w^2 / 512]. *)
Definition memFee (w : Z) : Z := w * MemoryGas + w * w / QuadCoeffDiv.

(** The invariant of a frame's memory: a whole number of words, within the limit that
    [memoryGasCost] imposes, with the fee paid so far recorded in [lastGasCost]. *)
Record mem_ok `{Uint256} (m : Memory) : Prop := {
  mem_bytes : Forall is_byte (store m);
  mem_words : len (store m) mod 32 = 0;
  mem_max : len (store m) <= maxMemSize;
  mem_paid : lastGasCost m = memFee (len (store m) / 32);
}.

Lemma memFee_mono v w : 0 <= v <= w -> memFee v <= memFee w.
Proof.
  intros H. unfold memFee, MemoryGas, QuadCoeffDiv.
  assert (v * v / 512 <= w * w / 512) by (apply Z.div_le_mono; [lia|apply Z.mul_le_mono_nonneg; lia]). lia.
Qed.

Lemma memFee_range w : 0 <= w < 2 ^ 32 -> 0 <= memFee w < 2 ^ 56.
Proof.
  intros H. unfold memFee, MemoryGas, QuadCoeffDiv.
  assert (w * w / 512 <= 2 ^ 32 * 2 ^ 32 / 512)
    by (apply Z.div_le_mono; [lia|apply Z.mul_le_mono_nonneg; lia]).
  change (2 ^ 32 * 2 ^ 32 / 512) with (2 ^ 55) in *.
  assert (0 <= w * w / 512) by (apply Z.div_pos; nia). lia.
Qed.

Section memory_lemmas.
Context `{U : Uint256}.

Lemma mem_ok_new : mem_ok NewMemory.
Proof. split; [constructor|done|done|done]. Qed.

Lemma mem_data_ok m : mem_ok m -> data_ok (store m).
Proof. intros [??? _]. split; [done|]. unfold maxMemSize in *. lia. Qed.

(** The memory once the fee for [n] bytes is paid, before it is resized. *)
Definition mem_charged (m : Memory) (n : Z) (m' : Memory) : Prop :=
  store m' = store m /\ n <= maxMemSize /\
  lastGasCost m' = memFee (Z.max (len (store m)) n / 32).

(** [memoryGasCost] on success: the fee is exactly the difference between the total fees of
    the new and the old size, without overflow. *)
Lemma memoryGasCost_exact m n c m' :
  mem_ok m -> 0 <= n -> n mod 32 = 0 -> memoryGasCost m n = ((c, None), m') ->
  mem_charged m n m' /\
  c = memFee (Z.max (len (store m)) n / 32) - memFee (len (store m) / 32) /\
  0 <= c < 2 ^ 56.
Proof.
  intros [Hb Hw Hm Hp] Hn H32 H. pose proof (len_nonneg (store m)) as Hl.
  unfold memoryGasCost in H. unfold mem_charged, maxMemSize in *.
  destruct (n =? 0) eqn:E0; bool_to_Z.
  { simplify_eq. rewrite Z.max_l by lia. split_and!; done || lia. }
  destruct (137438953440 <? n) eqn:E1; bool_to_Z; [done|].
  rewrite toWordSize_ceil in H by (unfold_u64; lia).
  assert (Hq : (n + 31) / 32 = n / 32).
  { symmetry. apply Z.div_unique with (r := 31); [lia|].
    pose proof (Z.div_mod n 32). lia. }
  rewrite Hq in H. pose proof (Z.div_mod n 32).
  assert (Hr : 0 <= n / 32 < 2 ^ 32) by lia.
  pose proof (memFee_range _ Hr) as Hf. unfold memFee, MemoryGas, QuadCoeffDiv in Hf.
  rewrite (wrap64_small (n / 32 * 32)) in H by (unfold_u64; lia).
  replace (n / 32 * 32) with n in H by lia.
  destruct (len (store m) <? n) eqn:E2; bool_to_Z; simplify_eq.
  2: { rewrite Z.max_l by lia. split_and!; done || lia. }
  rewrite Z.max_r by lia.
  assert (Hmono : memFee (len (store m) / 32) <= memFee (n / 32)).
  { apply memFee_mono. split; [apply Z.div_pos; lia|]. apply Z.div_le_mono; lia. }
  assert (Hpos : 0 <= memFee (len (store m) / 32)).
  { apply memFee_range. split; [apply Z.div_pos; lia|]. apply Z.div_lt_upper_bound; lia. }
  cbn [store lastGasCost]. unfold MemoryGas, QuadCoeffDiv.
  assert (0 <= n / 32 * (n / 32) / 512) by (apply Z.div_pos; nia).
  rewrite (wrap64_small (n / 32 * (n / 32))) by (unfold_u64; nia).
  rewrite (wrap64_small (n / 32 * 3)) by (unfold_u64; lia).
  rewrite (wrap64_small (n / 32 * 3 + _)) by (unfold_u64; lia).
  change (n / 32 * 3 + n / 32 * (n / 32) / 512) with (memFee (n / 32)) in *.
  rewrite Hp. rewrite wrap64_small by (unfold_u64; lia). split_and!; done || lia.
Qed.

Lemma memoryGasCost_u64 m n c e m' :
  memoryGasCost m n = ((c, e), m') -> is_u64 c /\ store m' = store m.
Proof.
  unfold memoryGasCost. intros H. repeat case_match; simplify_eq; split;
    try done; auto with geth.
Qed.

(** Paying for [n] bytes and then resizing keeps the invariant. *)
Lemma mem_ok_Resize m n m' :
  mem_ok m -> 0 <= n -> n mod 32 = 0 -> mem_charged m n m' ->
  mem_ok (Memory_Resize m' n) /\ n <= len (store (Memory_Resize m' n)).
Proof.
  intros [Hb Hw Hm Hp] Hn H32 (Hs & Hx & Hf). unfold Memory_Resize.
  pose proof (len_nonneg (store m)). rewrite Hs.
  destruct (len (store m) <? n) eqn:E; bool_to_Z.
  - rewrite Z.max_r in Hf by lia.
    assert (Hl : len (store m ++ zreplicate (n - len (store m)) 0) = n)
      by (rewrite len_app, len_zreplicate; lia).
    split; [|cbn [store]; lia]. split; cbn [store lastGasCost]; rewrite ?Hl; try done.
    apply Forall_app. split; [done|auto with geth].
  - rewrite Z.max_l in Hf by lia. split; [|rewrite Hs; lia].
    split; rewrite ?Hs; done.
Qed.
End memory_lemmas.

(** ** Lemmas: memory accesses inside the paid region *)

Definition region_ok `{Uint256} (m : Memory) (off size : Z) : Prop :=
  size = 0 \/ (0 <= off /\ 0 < size /\ off + size <= len (store m)).

Lemma len_write_at s off n v :
  0 <= off -> 0 <= n -> off + n <= len s -> len (write_at s off n v) = len s.
Proof.
  unfold write_at, len. intros. rewrite !length_app, !length_take, length_drop. lia.
Qed.

Lemma Forall_write_at s off n v :
  Forall is_byte s -> Forall is_byte v -> Forall is_byte (write_at s off n v).
Proof. intros. unfold write_at. repeat apply Forall_app_2; auto using Forall_take, Forall_drop. Qed.

Section memory_access.
Context `{U : Uint256}.
Implicit Types m : Memory.

Lemma mem_ok_store m s :
  mem_ok m -> Forall is_byte s -> len s = len (store m) -> mem_ok (mkMemory s (lastGasCost m)).
Proof. intros [????] ? Hl. split; cbn [store lastGasCost]; rewrite ?Hl; done. Qed.

Lemma region_wrap m off size :
  mem_ok m -> region_ok m off size -> size <> 0 ->
  off +! size = off + size /\ 0 <= off /\ 0 < size /\ off + size <= len (store m).
Proof.
  intros [? ? Hm ?] [->|(?&?&?)] ?; [done|]. unfold maxMemSize in Hm.
  rewrite wrap64_small by (unfold_u64; lia). lia.
Qed.

Lemma GetPtr_ok m off size : mem_ok m -> region_ok m off size ->
  exists d, Memory_GetPtr m off size = Ret d /\ data_ok d.
Proof.
  intros Hm Hr. unfold Memory_GetPtr. case_if; bool_to_Z; [eauto with geth|].
  destruct (region_wrap m off size) as (-> & ?); [done..|].
  rewrite slice_ok by lia. eexists; split; [done|]. by apply data_ok_zslice, mem_data_ok.
Qed.

Lemma GetCopy_ok m off size : mem_ok m -> region_ok m off size ->
  exists d, Memory_GetCopy m off size = Ret d /\ data_ok d.
Proof. apply GetPtr_ok. Qed.

Lemma Set_ok m off size v : mem_ok m -> region_ok m off size -> Forall is_byte v ->
  exists m', Memory_Set m off size v = Ret m' /\ mem_ok m' /\ len (store m') = len (store m).
Proof.
  intros Hm Hr Hv. unfold Memory_Set. case_if; bool_to_Z; [|eauto].
  destruct (region_wrap m off size) as (-> & ?); [done|done|lia|].
  replace (len (store m) <? off + size) with false by lia.
  rewrite slice_ok by lia. cbn. eexists; split; [done|].
  assert (len (write_at (store m) off size v) = len (store m)) by (apply len_write_at; lia).
  split; [|done]. apply mem_ok_store; [done| |done]. apply Forall_write_at; [apply Hm|done].
Qed.

Lemma Set32_ok {US : Uint256Spec U} m off w : mem_ok m -> region_ok m off 32 ->
  exists m', Memory_Set32 m off w = Ret m' /\ mem_ok m' /\ len (store m') = len (store m).
Proof.
  intros Hm Hr. unfold Memory_Set32.
  destruct (region_wrap m off 32) as (-> & ?); [done..|].
  replace (len (store m) <? off + 32) with false by lia.
  rewrite slice_ok by lia. cbn [mbind outcome_bind].
  rewrite len_zslice by lia. replace (len (store m) - off <? 32) with false by lia.
  eexists; split; [done|].
  assert (len (write_at (store m) off 32 (PutUint256 w)) = len (store m))
    by (apply len_write_at; lia).
  split; [|done]. apply mem_ok_store; [done| |done]. apply Forall_write_at; [apply Hm|].
  rewrite PutUint256_spec. apply be_bytes_bytes.
Qed.

Lemma SetByte_ok m off b : mem_ok m -> region_ok m off 1 -> is_byte b ->
  exists m', Memory_SetByte m off b = Ret m' /\ mem_ok m' /\ len (store m') = len (store m).
Proof.
  intros Hm Hr Hb. unfold Memory_SetByte.
  destruct Hr as [?|(?&?&?)]; [done|].
  destruct (index_ok (store m) off) as (a & _ & ->); [lia|]. cbn.
  assert (len (<[Z.to_nat off:=b]> (store m)) = len (store m))
    by (unfold len; by rewrite length_insert).
  eexists; split; [done|]. split; [|done].
  apply mem_ok_store; [done| |done]. apply Forall_insert; [apply Hm|done].
Qed.

Lemma Copy_ok m dst src n : mem_ok m -> region_ok m dst n -> region_ok m src n ->
  exists m', Memory_Copy m dst src n = Ret m' /\ mem_ok m' /\ len (store m') = len (store m).
Proof.
  intros Hm Hd Hs. unfold Memory_Copy. case_if; bool_to_Z; [eauto|].
  destruct (region_wrap m dst n) as (_ & ?); [done..|].
  destruct (region_wrap m src n) as (-> & ?); [done..|].
  rewrite !slice_ok by lia. cbn. eexists; split; [done|].
  assert (Hl : len (write_at (store m) dst (len (zslice (store m) dst (len (store m))))
                (zslice (store m) src (src + n))) = len (store m)).
  { apply len_write_at; [lia|apply len_nonneg|]. rewrite len_zslice; lia. }
  split; [|done]. apply mem_ok_store; [done| |done].
  apply Forall_write_at; [|apply Forall_zslice]; apply Hm.
Qed.

(** ** Lemmas: requested memory sizes *)
Context {US : Uint256Spec U}.

Lemma Uint64_u64 w : is_u64 (Uint64 w).
Proof. rewrite Uint64_spec. apply Z.mod_pos_bound. done. Qed.

Lemma calcMemSize64WithUint_region o n sz m :
  is_u64 n -> calcMemSize64WithUint o n = (sz, false) ->
  is_u64 sz /\ n <= sz /\ (sz <= len (store m) -> region_ok m (Uint64 o) n).
Proof.
  intros Hn. unfold calcMemSize64WithUint, region_ok. case_if; bool_to_Z.
  { intros [= <-]. split; [done|]. auto with lia. }
  rewrite Uint64WithOverflow_spec, Uint64_spec. case_if; [done|]. intros [= <- Ho].
  split; [auto with geth|].
  assert (Hu : is_u64 (uval o mod two64)) by (apply Z.mod_pos_bound; done).
  rewrite wrap64_add_overflow in Ho by done. bool_to_Z.
  rewrite wrap64_small by (unfold_u64; lia). unfold_u64. split; [lia|].
  intros. right. lia.
Qed.

Lemma calcMemSize64_region o l sz m :
  calcMemSize64 o l = (sz, false) ->
  is_u64 sz /\ Uint64 l <= sz /\ (sz <= len (store m) -> region_ok m (Uint64 o) (Uint64 l)).
Proof.
  unfold calcMemSize64. case_if; [done|].
  intros H. eapply calcMemSize64WithUint_region in H; [eauto|]. apply Uint64_u64.
Qed.

Lemma memoryMax_bound x y sz :
  memoryMax x y = (sz, false) -> x.2 = false /\ y.2 = false /\ x.1 <= sz /\ y.1 <= sz /\
    (sz = x.1 \/ sz = y.1).
Proof.
  unfold memoryMax. destruct x as [x []], y as [y []]; cbn; try done.
  case_if; bool_to_Z; intros [= <-]; lia.
Qed.
End memory_access.
