(* ===== verification/Opcodes.v ===== *)
(** * Opcodes ([core/vm/opcodes.go])

    [type OpCode byte]: an opcode is the byte that encodes it. *)

From S2P Require Import Prelude.

Abbreviation OpCode := Z (only parsing).

Definition STOP : OpCode := 0.
Definition ADD : OpCode := 1.
Definition MUL : OpCode := 2.
Definition SUB : OpCode := 3.
Definition DIV : OpCode := 4.
Definition SDIV : OpCode := 5.
Definition MOD : OpCode := 6.
Definition SMOD : OpCode := 7.
Definition ADDMOD : OpCode := 8.
Definition MULMOD : OpCode := 9.
Definition EXP : OpCode := 10.
Definition SIGNEXTEND : OpCode := 11.
Definition LT : OpCode := 16.
Definition GT : OpCode := 17.
Definition SLT : OpCode := 18.
Definition SGT : OpCode := 19.
Definition EQ : OpCode := 20.
Definition ISZERO : OpCode := 21.
Definition AND : OpCode := 22.
Definition OR : OpCode := 23.
Definition XOR : OpCode := 24.
Definition NOT : OpCode := 25.
Definition BYTE : OpCode := 26.
Definition SHL : OpCode := 27.
Definition SHR : OpCode := 28.
Definition SAR : OpCode := 29.
Definition KECCAK256 : OpCode := 32.
Definition ADDRESS : OpCode := 48.
Definition BALANCE : OpCode := 49.
Definition ORIGIN : OpCode := 50.
Definition CALLER : OpCode := 51.
Definition CALLVALUE : OpCode := 52.
Definition CALLDATALOAD : OpCode := 53.
Definition CALLDATASIZE : OpCode := 54.
Definition CALLDATACOPY : OpCode := 55.
Definition CODESIZE : OpCode := 56.
Definition CODECOPY : OpCode := 57.
Definition GASPRICE : OpCode := 58.
Definition EXTCODESIZE : OpCode := 59.
Definition EXTCODECOPY : OpCode := 60.
Definition RETURNDATASIZE : OpCode := 61.
Definition RETURNDATACOPY : OpCode := 62.
Definition EXTCODEHASH : OpCode := 63.
Definition BLOCKHASH : OpCode := 64.
Definition COINBASE : OpCode := 65.
Definition TIMESTAMP : OpCode := 66.
Definition NUMBER : OpCode := 67.
Definition DIFFICULTY : OpCode := 68.
Definition RANDOM : OpCode := 68.
Definition PREVRANDAO : OpCode := 68.
Definition GASLIMIT : OpCode := 69.
Definition CHAINID : OpCode := 70.
Definition SELFBALANCE : OpCode := 71.
Definition BASEFEE : OpCode := 72.
Definition BLOBHASH : OpCode := 73.
Definition BLOBBASEFEE : OpCode := 74.
Definition POP : OpCode := 80.
Definition MLOAD : OpCode := 81.
Definition MSTORE : OpCode := 82.
Definition MSTORE8 : OpCode := 83.
Definition SLOAD : OpCode := 84.
Definition SSTORE : OpCode := 85.
Definition JUMP : OpCode := 86.
Definition JUMPI : OpCode := 87.
Definition PC : OpCode := 88.
Definition MSIZE : OpCode := 89.
Definition GAS : OpCode := 90.
Definition JUMPDEST : OpCode := 91.
Definition TLOAD : OpCode := 92.
Definition TSTORE : OpCode := 93.
Definition MCOPY : OpCode := 94.
Definition PUSH0 : OpCode := 95.
Definition PUSH1 : OpCode := 96.
Definition PUSH2 : OpCode := 97.
Definition PUSH3 : OpCode := 98.
Definition PUSH4 : OpCode := 99.
Definition PUSH5 : OpCode := 100.
Definition PUSH6 : OpCode := 101.
Definition PUSH7 : OpCode := 102.
Definition PUSH8 : OpCode := 103.
Definition PUSH9 : OpCode := 104.
Definition PUSH10 : OpCode := 105.
Definition PUSH11 : OpCode := 106.
Definition PUSH12 : OpCode := 107.
Definition PUSH13 : OpCode := 108.
Definition PUSH14 : OpCode := 109.
Definition PUSH15 : OpCode := 110.
Definition PUSH16 : OpCode := 111.
Definition PUSH17 : OpCode := 112.
Definition PUSH18 : OpCode := 113.
Definition PUSH19 : OpCode := 114.
Definition PUSH20 : OpCode := 115.
Definition PUSH21 : OpCode := 116.
Definition PUSH22 : OpCode := 117.
Definition PUSH23 : OpCode := 118.
Definition PUSH24 : OpCode := 119.
Definition PUSH25 : OpCode := 120.
Definition PUSH26 : OpCode := 121.
Definition PUSH27 : OpCode := 122.
Definition PUSH28 : OpCode := 123.
Definition PUSH29 : OpCode := 124.
Definition PUSH30 : OpCode := 125.
Definition PUSH31 : OpCode := 126.
Definition PUSH32 : OpCode := 127.
Definition DUP1 : OpCode := 128.
Definition DUP2 : OpCode := 129.
Definition DUP3 : OpCode := 130.
Definition DUP4 : OpCode := 131.
Definition DUP5 : OpCode := 132.
Definition DUP6 : OpCode := 133.
Definition DUP7 : OpCode := 134.
Definition DUP8 : OpCode := 135.
Definition DUP9 : OpCode := 136.
Definition DUP10 : OpCode := 137.
Definition DUP11 : OpCode := 138.
Definition DUP12 : OpCode := 139.
Definition DUP13 : OpCode := 140.
Definition DUP14 : OpCode := 141.
Definition DUP15 : OpCode := 142.
Definition DUP16 : OpCode := 143.
Definition SWAP1 : OpCode := 144.
Definition SWAP2 : OpCode := 145.
Definition SWAP3 : OpCode := 146.
Definition SWAP4 : OpCode := 147.
Definition SWAP5 : OpCode := 148.
Definition SWAP6 : OpCode := 149.
Definition SWAP7 : OpCode := 150.
Definition SWAP8 : OpCode := 151.
Definition SWAP9 : OpCode := 152.
Definition SWAP10 : OpCode := 153.
Definition SWAP11 : OpCode := 154.
Definition SWAP12 : OpCode := 155.
Definition SWAP13 : OpCode := 156.
Definition SWAP14 : OpCode := 157.
Definition SWAP15 : OpCode := 158.
Definition SWAP16 : OpCode := 159.
Definition LOG0 : OpCode := 160.
Definition LOG1 : OpCode := 161.
Definition LOG2 : OpCode := 162.
Definition LOG3 : OpCode := 163.
Definition LOG4 : OpCode := 164.
Definition DATALOAD : OpCode := 208.
Definition DATALOADN : OpCode := 209.
Definition DATASIZE : OpCode := 210.
Definition DATACOPY : OpCode := 211.
Definition RJUMP : OpCode := 224.
Definition RJUMPI : OpCode := 225.
Definition RJUMPV : OpCode := 226.
Definition CALLF : OpCode := 227.
Definition RETF : OpCode := 228.
Definition JUMPF : OpCode := 229.
Definition DUPN : OpCode := 230.
Definition SWAPN : OpCode := 231.
Definition EXCHANGE : OpCode := 232.
Definition EOFCREATE : OpCode := 236.
Definition RETURNCONTRACT : OpCode := 238.
Definition CREATE : OpCode := 240.
Definition CALL : OpCode := 241.
Definition CALLCODE : OpCode := 242.
Definition RETURN : OpCode := 243.
Definition DELEGATECALL : OpCode := 244.
Definition CREATE2 : OpCode := 245.
Definition RETURNDATALOAD : OpCode := 247.
Definition EXTCALL : OpCode := 248.
Definition EXTDELEGATECALL : OpCode := 249.
Definition STATICCALL : OpCode := 250.
Definition EXTSTATICCALL : OpCode := 251.
Definition REVERT : OpCode := 253.
Definition INVALID : OpCode := 254.
Definition SELFDESTRUCT : OpCode := 255.

(** [func (op OpCode) IsPush() bool] *)
Definition IsPush (op : OpCode) : bool := (PUSH0 <=? op) && (op <=? PUSH32).
