(* ===== verification/Analysis.v ===== *)
(** * Jump destination analysis ([core/vm/analysis_legacy.go])

    [codeBitmap] marks the bytes of a program that are arguments of PUSHxx.  The model works on
    the same packed bit vector, with the same byte writes; the reference notion of an
    instruction start is the relation [instr_start].  The main result is that the optimised
    bitmap agrees with it on every position ([codeBitmap_correct]). *)

From S2P Require Import Prelude Bytes Opcodes.

Abbreviation bitvec := (list Z) (only parsing).

Definition set2BitsMask : Z := 3.
Definition set3BitsMask : Z := 7.
Definition set4BitsMask : Z := 15.
Definition set5BitsMask : Z := 31.
Definition set6BitsMask : Z := 63.
Definition set7BitsMask : Z := 127.

(** [byte(x)] *)
Definition to_byte (x : Z) : Z := Z.land x 255.

(** [bits[i] |= v] and [bits[i] = v], with Go's bounds check. *)
Definition or_at (bits : bitvec) (i v : Z) : Outcome bitvec :=
  b ← index bits i; Ret (<[Z.to_nat i := Z.lor b v]> bits).
Definition set_at (bits : bitvec) (i v : Z) : Outcome bitvec :=
  _ ← index bits i; Ret (<[Z.to_nat i := v]> bits).

Definition set1 (bits : bitvec) (pos : Z) : Outcome bitvec :=
  or_at bits (pos / 8) (Z.shiftl 1 (pos mod 8)).

Definition setN (bits : bitvec) (flag pos : Z) : Outcome bitvec :=
  let a := Z.land (Z.shiftl flag (pos mod 8)) 65535 in
  bits ← or_at bits (pos / 8) (to_byte a);
  let b := to_byte (Z.shiftr a 8) in
  if b =? 0 then Ret bits else set_at bits (pos / 8 + 1) b.

Definition set8 (bits : bitvec) (pos : Z) : Outcome bitvec :=
  let a := to_byte (Z.shiftl 255 (pos mod 8)) in
  bits ← or_at bits (pos / 8) a;
  set_at bits (pos / 8 + 1) (Z.lxor a 255).

Definition set16 (bits : bitvec) (pos : Z) : Outcome bitvec :=
  let a := to_byte (Z.shiftl 255 (pos mod 8)) in
  bits ← or_at bits (pos / 8) a;
  bits ← set_at bits (pos / 8 + 1) 255;
  set_at bits (pos / 8 + 2) (Z.lxor a 255).

(** [bits[pos/8] >> (pos % 8) & 1 == 0]; an index out of range has a name of its own *)
Definition codeSegment (bits : bitvec) (pos : Z) : Outcome bool :=
  match index bits (pos / 8) with
  | Ret b => Ret (Z.land (Z.shiftr b (pos mod 8)) 1 =? 0)
  | Fail _ => Fail PanicJumpdest
  end.

(** [for ; numbits >= step; numbits -= step { set(pc); pc += step }] *)
Fixpoint set_while (fuel : nat) (step : Z) (set : bitvec -> Z -> Outcome bitvec)
    (bits : bitvec) (numbits pc : Z) : Outcome (bitvec * Z * Z) :=
  if step <=? numbits then
    match fuel with
    | O => Fail OutOfFuel
    | S f => bits ← set bits pc; set_while f step set bits (numbits - step) (pc + step)
    end
  else Ret (bits, numbits, pc).

(** The final [switch numbits]. *)
Definition set_rest (bits : bitvec) (numbits pc : Z) : Outcome (bitvec * Z) :=
  match numbits with
  | 1 => bits ← set1 bits pc; Ret (bits, pc + 1)
  | 2 => bits ← setN bits set2BitsMask pc; Ret (bits, pc + 2)
  | 3 => bits ← setN bits set3BitsMask pc; Ret (bits, pc + 3)
  | 4 => bits ← setN bits set4BitsMask pc; Ret (bits, pc + 4)
  | 5 => bits ← setN bits set5BitsMask pc; Ret (bits, pc + 5)
  | 6 => bits ← setN bits set6BitsMask pc; Ret (bits, pc + 6)
  | 7 => bits ← setN bits set7BitsMask pc; Ret (bits, pc + 7)
  | _ => Ret (bits, pc)
  end.

(** [int8(op) < int8(PUSH1)] *)
Definition int8 (b : Z) : Z := if b <? 128 then b else b - 256.

(** One iteration of the loop of [codeBitmapInternal] on the opcode [op] found before [pc]. *)
Definition codeBitmapStep (bits : bitvec) (op pc : Z) : Outcome (bitvec * Z) :=
  if int8 op <? int8 PUSH1 then Ret (bits, pc)
  else
    let numbits := op - PUSH1 + 1 in
    if 8 <=? numbits then
      '(bits, numbits, pc) ← set_while 2 16 set16 bits numbits pc;
      '(bits, numbits, pc) ← set_while 2 8 set8 bits numbits pc;
      set_rest bits numbits pc
    else set_rest bits numbits pc.

(** Every iteration advances [pc], so [length code] iterations are enough. *)
Fixpoint codeBitmapLoop (fuel : nat) (code : bytes) (bits : bitvec) (pc : Z) : Outcome bitvec :=
  if pc <? len code then
    match fuel with
    | O => Fail OutOfFuel
    | S f =>
        op ← index code pc;
        '(bits, pc) ← codeBitmapStep bits op (pc + 1);
        codeBitmapLoop f code bits pc
    end
  else Ret bits.

Definition codeBitmapInternal (code : bytes) (bits : bitvec) : Outcome bitvec :=
  codeBitmapLoop (length code) code bits 0.

Definition codeBitmap (code : bytes) : Outcome bitvec :=
  codeBitmapInternal code (zreplicate (len code / 8 + 1 + 4) 0).

(** ** Reference: instruction starts *)

(** The number of immediate bytes of an opcode. *)
Definition pushBytes (op : Z) : Z :=
  if (PUSH1 <=? op) && (op <=? PUSH32) then op - PUSH1 + 1 else 0.

(** [instr_start code pc]: the interpreter, walking [code] from its start without jumping, reads
    an opcode at [pc]. *)
Inductive instr_start (code : bytes) : Z -> Prop :=
  | instr_start_0 : instr_start code 0
  | instr_start_next pc op :
      instr_start code pc -> code !! Z.to_nat pc = Some op ->
      instr_start code (pc + 1 + pushBytes op).

Example codeBitmap_push1 :
  codeBitmap [PUSH1; 91; JUMPDEST] = Ret [2; 0; 0; 0; 0].
Proof. reflexivity. Qed.

(** ** Bits of a packed vector *)

Definition bitAt (bits : bitvec) (p : Z) : bool :=
  match bits !! Z.to_nat (p / 8) with Some b => Z.testbit b (p mod 8) | None => false end.

(** No position from [pos] on is marked: the state of the vector at the loop head. *)
Definition clear_from (bits : bitvec) (pos : Z) : Prop :=
  forall p, pos <= p -> bitAt bits p = false.

(** [bits'] is [bits] with exactly the [n] positions from [pos] added. *)
Definition marks (bits bits' : bitvec) (pos n : Z) : Prop :=
  len bits' = len bits /\
  forall p, 0 <= p -> bitAt bits' p = bitAt bits p || ((pos <=? p) && (p <? pos + n)).

Lemma codeSegment_bitAt bits p :
  0 <= p -> p / 8 < len bits -> codeSegment bits p = Ret (negb (bitAt bits p)).
Proof.
  intros Hp Hl. unfold codeSegment, bitAt.
  destruct (index_ok bits (p / 8)) as (b & Hb & ->); [split; [apply Z.div_pos|]; lia|].
  rewrite Hb. cbn. f_equal.
  rewrite Z.testbit_odd. change 1 with (Z.ones 1). rewrite Z.land_ones by lia.
  change (2 ^ 1) with 2. rewrite Zmod_odd. by destruct (Z.odd _).
Qed.

Lemma len_insert {A} (l : list A) i x : len (<[i := x]> l) = len l.
Proof. unfold len. by rewrite length_insert. Qed.

Lemma to_nat_inj_div p q : 0 <= p -> 0 <= q -> Z.to_nat p = Z.to_nat q -> p = q.
Proof. lia. Qed.

Lemma bitAt_insert bits i v p :
  0 <= i < len bits -> 0 <= p ->
  bitAt (<[Z.to_nat i := v]> bits) p =
    if p / 8 =? i then Z.testbit v (p mod 8) else bitAt bits p.
Proof.
  unfold len. intros Hi Hp. unfold bitAt. pose proof (Z.div_pos p 8).
  destruct (Z.eqb_spec (p / 8) i) as [->|Hne].
  - rewrite list_lookup_insert_eq by lia. done.
  - rewrite list_lookup_insert_ne by lia. done.
Qed.

Lemma or_at_spec bits i v :
  0 <= i < len bits ->
  exists bits', or_at bits i v = Ret bits' /\ len bits' = len bits /\
    forall p, 0 <= p -> bitAt bits' p = bitAt bits p || ((p / 8 =? i) && Z.testbit v (p mod 8)).
Proof.
  intros Hi. unfold or_at. destruct (index_ok bits i Hi) as (b & Hb & ->).
  eexists. split; [reflexivity|]. split; [apply len_insert|]. intros p Hp.
  rewrite bitAt_insert by done. destruct (Z.eqb_spec (p / 8) i) as [He|]; cbn.
  - unfold bitAt. rewrite He, Hb, Z.lor_spec. done.
  - by rewrite orb_false_r.
Qed.

Lemma set_at_spec bits i v :
  0 <= i < len bits ->
  exists bits', set_at bits i v = Ret bits' /\ len bits' = len bits /\
    forall p, 0 <= p -> bitAt bits' p = if p / 8 =? i then Z.testbit v (p mod 8) else bitAt bits p.
Proof.
  intros Hi. unfold set_at. destruct (index_ok bits i Hi) as (b & Hb & ->).
  eexists. split; [reflexivity|]. split; [apply len_insert|]. intros p Hp.
  by apply bitAt_insert.
Qed.

Lemma testbit_byte x t : 0 <= t < 8 -> Z.testbit (to_byte x) t = Z.testbit x t.
Proof.
  intros. unfold to_byte. change 255 with (Z.ones 8).
  rewrite Z.land_spec, Z.testbit_ones by lia.
  replace ((0 <=? t) && (t <? 8)) with true by lia. apply andb_true_r.
Qed.

Lemma testbit_window k s t :
  0 <= k -> 0 <= s -> 0 <= t ->
  Z.testbit (Z.shiftl (Z.ones k) s) t = (s <=? t) && (t <? s + k).
Proof.
  intros. rewrite Z.shiftl_spec, Z.testbit_ones by lia.
  destruct (Z.leb_spec s t); destruct (Z.ltb_spec t (s + k)); lia.
Qed.

Lemma divmod8 p : p = 8 * (p / 8) + p mod 8 /\ 0 <= p mod 8 < 8.
Proof. split; [apply Z.div_mod; lia|apply Z.mod_pos_bound; lia]. Qed.

(** The tactic closes the bit-by-bit comparison of a write with the interval it marks. *)
Ltac bit_window :=
  repeat match goal with
  | |- context [?a =? ?b] => destruct (Z.eqb_spec a b)
  | |- context [?a <=? ?b] => destruct (Z.leb_spec a b)
  | |- context [?a <? ?b] => destruct (Z.ltb_spec a b)
  end; simpl; try reflexivity; try lia.

Lemma setN_spec bits pos k :
  1 <= k <= 8 -> 0 <= pos -> clear_from bits pos -> pos / 8 + 1 < len bits ->
  exists bits', setN bits (Z.ones k) pos = Ret bits' /\ marks bits bits' pos k.
Proof.
  intros Hk Hpos Hclear Hlen. unfold setN.
  pose proof (divmod8 pos) as [Hd Hm]. assert (0 <= pos / 8) by (apply Z.div_pos; lia).
  set (s := pos mod 8) in *. set (q := pos / 8) in *.
  set (a := Z.land (Z.shiftl (Z.ones k) s) 65535).
  assert (Ha : forall t, 0 <= t < 16 -> Z.testbit a t = (s <=? t) && (t <? s + k)).
  { intros t Ht. unfold a. change 65535 with (Z.ones 16).
    rewrite Z.land_spec, testbit_window, Z.testbit_ones by lia. bit_window. }
  destruct (or_at_spec bits q (to_byte a)) as (b1 & -> & Hl1 & Hb1); [lia|]. cbn.
  assert (Hhi : forall t, 0 <= t < 8 ->
    Z.testbit (to_byte (Z.shiftr a 8)) t = (t + 8 <? s + k)).
  { intros t Ht. rewrite testbit_byte, Z.shiftr_spec, Ha by lia. bit_window. }
  destruct (Z.eqb_spec (to_byte (Z.shiftr a 8)) 0) as [Hz|_].
  - eexists. split; [reflexivity|]. split; [done|]. intros p Hp. rewrite Hb1 by done.
    pose proof (divmod8 p) as [Hdp Hmp]. rewrite testbit_byte, Ha by lia.
    specialize (Hhi 0 ltac:(lia)). rewrite Hz, Z.testbit_0_l in Hhi.
    symmetry in Hhi. apply Z.ltb_ge in Hhi. f_equal. bit_window.
  - destruct (set_at_spec b1 (q + 1) (to_byte (Z.shiftr a 8))) as (b2 & -> & Hl2 & Hb2); [lia|].
    eexists. split; [reflexivity|]. split; [lia|]. intros p Hp. rewrite Hb2, Hb1 by done.
    pose proof (divmod8 p) as [Hdp Hmp].
    destruct (Z.eqb_spec (p / 8) (q + 1)) as [He|Hne].
    + rewrite Hhi, Hclear by lia. bit_window.
    + rewrite testbit_byte, Ha by lia. f_equal. bit_window.
Qed.

Lemma set1_spec bits pos :
  0 <= pos -> pos / 8 < len bits ->
  exists bits', set1 bits pos = Ret bits' /\ marks bits bits' pos 1.
Proof.
  intros Hpos Hlen. unfold set1. pose proof (divmod8 pos) as [Hd Hm].
  assert (0 <= pos / 8) by (apply Z.div_pos; lia).
  destruct (or_at_spec bits (pos / 8) (Z.shiftl 1 (pos mod 8))) as (b1 & -> & Hl1 & Hb1); [lia|].
  eexists. split; [reflexivity|]. split; [done|]. intros p Hp. rewrite Hb1 by done.
  pose proof (divmod8 p) as [Hdp Hmp]. change (Z.shiftl 1 (pos mod 8)) with (Z.shiftl (Z.ones 1) (pos mod 8)).
  rewrite testbit_window by lia. f_equal. bit_window.
Qed.

(** [a] and [^a] of [set8] and [set16] split a byte at bit [s]. *)
Lemma testbit_ff_low s t : 0 <= s -> 0 <= t < 8 ->
  Z.testbit (to_byte (Z.shiftl 255 s)) t = (s <=? t).
Proof.
  intros. rewrite testbit_byte by lia. change 255 with (Z.ones 8).
  rewrite testbit_window by lia. bit_window.
Qed.

Lemma testbit_ff_high s t : 0 <= s -> 0 <= t < 8 ->
  Z.testbit (Z.lxor (to_byte (Z.shiftl 255 s)) 255) t = (t <? s).
Proof.
  intros. rewrite Z.lxor_spec, testbit_ff_low by lia. change 255 with (Z.ones 8).
  rewrite Z.testbit_ones by lia. bit_window.
Qed.

Lemma testbit_255 t : 0 <= t < 8 -> Z.testbit 255 t = true.
Proof. intros. change 255 with (Z.ones 8). rewrite Z.testbit_ones by lia. lia. Qed.

Lemma set8_spec bits pos :
  0 <= pos -> clear_from bits pos -> pos / 8 + 1 < len bits ->
  exists bits', set8 bits pos = Ret bits' /\ marks bits bits' pos 8.
Proof.
  intros Hpos Hclear Hlen. unfold set8.
  pose proof (divmod8 pos) as [Hd Hm]. assert (0 <= pos / 8) by (apply Z.div_pos; lia).
  destruct (or_at_spec bits (pos / 8) (to_byte (Z.shiftl 255 (pos mod 8))))
    as (b1 & -> & Hl1 & Hb1); [lia|]. cbn.
  edestruct (set_at_spec b1 (pos / 8 + 1)) as (b2 & -> & Hl2 & Hb2); [lia|].
  eexists. split; [reflexivity|]. split; [lia|]. intros p Hp. rewrite Hb2, Hb1 by done.
  pose proof (divmod8 p) as [Hdp Hmp].
  destruct (Z.eqb_spec (p / 8) (pos / 8 + 1)) as [He|Hne].
  - rewrite testbit_ff_high, Hclear by lia. bit_window.
  - rewrite testbit_ff_low by lia. f_equal. bit_window.
Qed.

Lemma set16_spec bits pos :
  0 <= pos -> clear_from bits pos -> pos / 8 + 2 < len bits ->
  exists bits', set16 bits pos = Ret bits' /\ marks bits bits' pos 16.
Proof.
  intros Hpos Hclear Hlen. unfold set16.
  pose proof (divmod8 pos) as [Hd Hm]. assert (0 <= pos / 8) by (apply Z.div_pos; lia).
  destruct (or_at_spec bits (pos / 8) (to_byte (Z.shiftl 255 (pos mod 8))))
    as (b1 & -> & Hl1 & Hb1); [lia|]. cbn.
  edestruct (set_at_spec b1 (pos / 8 + 1)) as (b2 & -> & Hl2 & Hb2); [lia|]. cbn.
  edestruct (set_at_spec b2 (pos / 8 + 2)) as (b3 & -> & Hl3 & Hb3); [lia|].
  eexists. split; [reflexivity|]. split; [lia|]. intros p Hp. rewrite Hb3, Hb2, Hb1 by done.
  pose proof (divmod8 p) as [Hdp Hmp].
  destruct (Z.eqb_spec (p / 8) (pos / 8 + 2)) as [He|Hne].
  { rewrite testbit_ff_high, Hclear by lia. bit_window. }
  destruct (Z.eqb_spec (p / 8) (pos / 8 + 1)) as [He'|Hne'].
  - rewrite testbit_255, Hclear by lia. bit_window.
  - rewrite testbit_ff_low by lia. f_equal. bit_window.
Qed.

Lemma marks_refl bits pos : marks bits bits pos 0.
Proof.
  split; [done|]. intros p Hp.
  replace ((pos <=? p) && (p <? pos + 0)) with false by lia. by rewrite orb_false_r.
Qed.

Lemma marks_trans b0 b1 b2 pos n m :
  0 <= n -> 0 <= m -> marks b0 b1 pos n -> marks b1 b2 (pos + n) m -> marks b0 b2 pos (n + m).
Proof.
  intros Hn Hm [Hl1 H1] [Hl2 H2]. split; [lia|]. intros p Hp. rewrite H2, H1 by done.
  rewrite <- orb_assoc. f_equal. bit_window.
Qed.

Lemma marks_clear b b' pos n :
  0 <= pos -> 0 <= n -> clear_from b pos -> marks b b' pos n -> clear_from b' (pos + n).
Proof.
  intros Hpos Hn Hc [_ H] p Hp. rewrite H, Hc by lia. simpl. lia.
Qed.

Lemma set_while_spec fuel step set bits numbits pc :
  (forall b pos, 0 <= pos -> clear_from b pos -> (pos + step) / 8 < len b ->
     exists b', set b pos = Ret b' /\ marks b b' pos step) ->
  0 < step -> 0 <= numbits < step * (Z.of_nat fuel + 1) -> 0 <= pc -> clear_from bits pc ->
  (pc + (numbits - numbits mod step)) / 8 < len bits ->
  exists bits',
    set_while fuel step set bits numbits pc =
      Ret (bits', numbits mod step, pc + (numbits - numbits mod step)) /\
    marks bits bits' pc (numbits - numbits mod step).
Proof.
  intros Hset Hstep. revert bits numbits pc.
  induction fuel as [|f IH]; intros bits numbits pc Hn Hpc Hc Hl; simpl;
    destruct (Z.leb_spec step numbits) as [Hle|Hlt]; try lia.
  1, 3: rewrite Z.mod_small by lia; exists bits; split;
    [do 2 f_equal; lia | replace (numbits - numbits) with 0 by lia; apply marks_refl].
  assert (Hmod : (numbits - step) mod step = numbits mod step).
  { replace (numbits - step) with (numbits + -1 * step) by lia. apply Z.mod_add. lia. }
  pose proof (Z.mod_pos_bound numbits step Hstep).
  assert (Hge : step <= numbits - numbits mod step).
  { pose proof (Z.div_mod numbits step ltac:(lia)).
    assert (1 <= numbits / step) by (apply Z.div_le_lower_bound; lia). nia. }
  destruct (Hset bits pc) as (b1 & Hb1 & Hm1); try done.
  { eapply Z.le_lt_trans; [|exact Hl]. apply Z.div_le_mono; lia. }
  rewrite Hb1. simpl.
  destruct (IH b1 (numbits - step) (pc + step)) as (b2 & Hb2 & Hm2); try lia.
  - apply marks_clear with bits; auto; lia.
  - destruct Hm1 as [-> _]. rewrite Hmod.
    replace (pc + step + (numbits - step - numbits mod step))
      with (pc + (numbits - numbits mod step)) by lia. done.
  - rewrite Hmod in Hb2, Hm2. exists b2. rewrite Hb2. split; [do 2 f_equal; lia|].
    replace (numbits - numbits mod step) with (step + (numbits - step - numbits mod step)) by lia.
    apply marks_trans with b1; auto; lia.
Qed.

Lemma set_rest_spec bits numbits pc :
  0 <= numbits < 8 -> 0 <= pc -> clear_from bits pc -> pc / 8 + 1 < len bits ->
  exists bits', set_rest bits numbits pc = Ret (bits', pc + numbits) /\
    marks bits bits' pc numbits.
Proof.
  intros Hn Hpc Hc Hl.
  assert (numbits = 0 \/ numbits = 1 \/ 2 <= numbits <= 7) as [->|[->|H]] by lia.
  - exists bits. split; [simpl; do 2 f_equal; lia|apply marks_refl].
  - destruct (set1_spec bits pc) as (b & Hb & ?); try lia.
    exists b. simpl. rewrite Hb. done.
  - destruct (setN_spec bits pc numbits) as (b & Hb & ?); try lia; auto.
    exists b. split; [|done].
    assert (numbits = 2 \/ numbits = 3 \/ numbits = 4 \/ numbits = 5 \/ numbits = 6 \/ numbits = 7)
      as Hcase by lia.
    destruct_or! Hcase; subst numbits; simpl;
      match type of Hb with setN _ ?m _ = _ => let v := eval compute in m in
        change m with v in Hb end;
      unfold set2BitsMask, set3BitsMask, set4BitsMask, set5BitsMask, set6BitsMask, set7BitsMask;
      rewrite Hb; done.
Qed.

#[local] Arguments set_while : simpl never.
#[local] Arguments set_rest : simpl never.

(** One iteration marks exactly the immediate bytes of the opcode. *)
Lemma codeBitmapStep_spec bits op pc n :
  is_byte op -> 0 <= pc <= n -> clear_from bits pc -> n / 8 + 5 = len bits ->
  exists bits', codeBitmapStep bits op pc = Ret (bits', pc + pushBytes op) /\
    marks bits bits' pc (pushBytes op).
Proof.
  unfold is_byte. intros Hop Hpc Hc Hl. unfold codeBitmapStep, pushBytes.
  unfold int8, PUSH1, PUSH32 in *.
  replace ((if op <? 128 then op else op - 256) <? (if 96 <? 128 then 96 else 96 - 256))
    with (negb ((96 <=? op) && (op <=? 127))) by (repeat case_if; lia).
  destruct ((96 <=? op) && (op <=? 127)) eqn:Hpush; simpl.
  2: { exists bits. rewrite Z.add_0_r. split; [done|apply marks_refl]. }
  bool_to_Z. set (k := op - 96 + 1).
  assert (Hk : 1 <= k <= 32) by lia.
  assert (Hend : forall e, e <= pc + 32 -> e / 8 < len bits).
  { intros e He. rewrite <- Hl. apply Z.le_lt_trans with ((n + 4 * 8) / 8);
      [apply Z.div_le_mono; lia|]. rewrite Z.div_add by lia. lia. }
  destruct (Z.leb_spec 8 k).
  2: { apply set_rest_spec; auto; try lia.
       assert (pc / 8 + 1 = (pc + 1 * 8) / 8) as -> by (rewrite Z.div_add; lia). apply Hend; lia. }
  pose proof (Z.mod_pos_bound k 16). pose proof (Z.div_mod k 16).
  destruct (set_while_spec 2 16 set16 bits k pc) as (b1 & -> & Hm1); try lia; auto.
  { intros b pos ? ? Hlt. apply set16_spec; auto.
    replace (pos / 8 + 2) with ((pos + 2 * 8) / 8) by (rewrite Z.div_add; lia). done. }
  { apply Hend. lia. }
  simpl. set (k1 := k mod 16) in *. set (pc1 := pc + (k - k1)) in *.
  assert (Hc1 : clear_from b1 pc1) by (apply marks_clear with bits; auto; lia).
  assert (Hl1 : len b1 = len bits) by apply Hm1.
  pose proof (Z.mod_pos_bound k1 8). pose proof (Z.div_mod k1 8).
  destruct (set_while_spec 2 8 set8 b1 k1 pc1) as (b2 & -> & Hm2); try lia; auto.
  { intros b pos ? ? Hlt. apply set8_spec; auto.
    replace (pos / 8 + 1) with ((pos + 1 * 8) / 8) by (rewrite Z.div_add; lia). done. }
  { rewrite Hl1. apply Hend. lia. }
  simpl. set (k2 := k1 mod 8) in *. set (pc2 := pc1 + (k1 - k2)) in *.
  assert (Hc2 : clear_from b2 pc2) by (apply marks_clear with b1; auto; lia).
  assert (Hl2 : len b2 = len bits) by (rewrite <- Hl1; apply Hm2).
  destruct (Z.eq_dec k2 0) as [Hk2|Hk2].
  - assert (set_rest b2 k2 pc2 = Ret (b2, pc2)) as -> by (rewrite Hk2; done).
    exists b2. split; [unfold pc2, pc1; do 2 f_equal; lia|].
    replace k with ((k - k1) + (k1 - k2)) by lia. apply marks_trans with b1; auto; lia.
  - destruct (set_rest_spec b2 k2 pc2) as (b3 & -> & Hm3); try lia; auto.
    { rewrite Hl2. assert (pc2 / 8 + 1 = (pc2 + 1 * 8) / 8) as -> by (rewrite Z.div_add; lia).
      apply Hend. subst pc2 pc1. assert (k2 <= k - (k - k1) - (k1 - k2)) by lia.
      assert (k - k2 <= 24); [|lia].
      assert (k <> 32); [intros ->; compute in k1; subst k2; compute in Hk2; lia|].
      assert (k - k2 = 8 * (2 * (k / 16) + k1 / 8)) by lia. lia. }
    exists b3. split; [unfold pc2, pc1; do 2 f_equal; lia|].
    replace k with ((k - k1) + ((k1 - k2) + k2)) by lia.
    apply marks_trans with b1; auto; try lia.
    apply marks_trans with b2; auto; lia.
Qed.

Lemma pushBytes_range op : 0 <= pushBytes op <= 32.
Proof. unfold pushBytes, PUSH1, PUSH32. case_if; bool_to_Z; lia. Qed.

Lemma instr_start_nonneg code p : instr_start code p -> 0 <= p.
Proof. induction 1 as [|p op]; [done|]. pose proof (pushBytes_range op). lia. Qed.

(** Distinct instruction starts are at least one whole instruction apart. *)
Lemma instr_start_apart code a b :
  instr_start code a -> instr_start code b -> a < b ->
  exists op, code !! Z.to_nat a = Some op /\ a + 1 + pushBytes op <= b.
Proof.
  remember (Z.to_nat (a + b)) as n eqn:Hn. revert a b Hn.
  induction n as [n IH] using lt_wf_ind. intros a b -> Ha Hb Hab.
  pose proof (instr_start_nonneg _ _ Ha).
  inversion Hb as [|b' op Hb' Hop Heq]; subst; [lia|].
  pose proof (instr_start_nonneg _ _ Hb'). pose proof (pushBytes_range op).
  destruct (Z.lt_trichotomy a b') as [Hlt|[->|Hgt]].
  - destruct (IH (Z.to_nat (a + b')) ltac:(lia) a b' eq_refl Ha Hb' Hlt) as (o & ? & ?).
    exists o. split; [done|lia].
  - exists op. split; [done|lia].
  - destruct (IH (Z.to_nat (b' + a)) ltac:(lia) b' a eq_refl Hb' Ha Hgt) as (o & Ho & ?).
    rewrite Hop in Ho. simplify_eq. lia.
Qed.

(** The state of the bit vector when the loop reaches the instruction start [pc]. *)
Record bitmap_inv (code : bytes) (bits : bitvec) (pc : Z) : Prop := {
  bi_len : len bits = len code / 8 + 5;
  bi_start : instr_start code pc;
  bi_clear : clear_from bits pc;
  bi_exact p : 0 <= p < pc -> (bitAt bits p = false <-> instr_start code p);
}.

Lemma bitmap_inv_step code bits pc op :
  bitmap_inv code bits pc -> is_byte op -> code !! Z.to_nat pc = Some op ->
  exists bits', codeBitmapStep bits op (pc + 1) = Ret (bits', pc + 1 + pushBytes op) /\
    bitmap_inv code bits' (pc + 1 + pushBytes op).
Proof.
  intros [Hl Hs Hc Hx] Hop Hat. pose proof (instr_start_nonneg _ _ Hs) as H0.
  assert (pc < len code) by (apply lookup_lt_Some in Hat; unfold len; lia).
  destruct (codeBitmapStep_spec bits op (pc + 1) (len code)) as (b & Hb & Hm); auto; try lia.
  { intros p Hp. apply Hc. lia. }
  exists b. split; [done|]. pose proof (pushBytes_range op). constructor.
  - destruct Hm as [-> _]. done.
  - by constructor.
  - apply marks_clear with bits; auto; try lia. intros p Hp. apply Hc. lia.
  - intros p Hp. destruct Hm as [_ Hm]. rewrite Hm by lia.
    destruct (Z.lt_ge_cases p pc) as [Hlt|Hge].
    { rewrite <- Hx by lia.
      replace ((pc + 1 <=? p) && (p <? pc + 1 + pushBytes op)) with false by lia.
      by rewrite orb_false_r. }
    rewrite Hc by lia. simpl. destruct (Z.eq_dec p pc) as [->|Hne].
    { replace ((pc + 1 <=? pc) && (pc <? pc + 1 + pushBytes op)) with false by lia. done. }
    replace ((pc + 1 <=? p) && (p <? pc + 1 + pushBytes op)) with true by lia.
    split; [done|]. intros Hp'. exfalso.
    destruct (instr_start_apart code pc p) as (o & Ho & ?); auto; [lia|].
    rewrite Hat in Ho. simplify_eq. lia.
Qed.

Lemma codeBitmapLoop_spec fuel code bits pc :
  Forall is_byte code -> bitmap_inv code bits pc -> len code <= pc + Z.of_nat fuel ->
  exists bits' pc', codeBitmapLoop fuel code bits pc = Ret bits' /\
    bitmap_inv code bits' pc' /\ len code <= pc'.
Proof.
  intros Hbytes. revert bits pc.
  induction fuel as [|f IH]; intros bits pc Hinv Hf; simpl;
    destruct (Z.ltb_spec pc (len code)) as [Hlt|Hge]; try lia; eauto.
  pose proof (instr_start_nonneg _ _ (bi_start _ _ _ Hinv)) as H0.
  destruct (index_ok code pc) as (op & Hat & ->); [lia|].
  assert (is_byte op) by (eapply Forall_lookup_1; eauto).
  destruct (bitmap_inv_step code bits pc op) as (b & Hb & Hi); auto.
  pose proof (pushBytes_range op). simpl. rewrite Hb. simpl. apply IH; [done|lia].
Qed.

Lemma bitAt_zero n p : bitAt (zreplicate n 0) p = false.
Proof.
  unfold bitAt, zreplicate. destruct (_ !! _) eqn:E; [|done].
  apply lookup_replicate in E as [-> _]. apply Z.testbit_0_l.
Qed.

(** The analysis terminates without an index panic, and the vector it returns is long enough
    and exact for every byte of the code. *)
Lemma codeBitmap_spec code :
  Forall is_byte code ->
  exists bits, codeBitmap code = Ret bits /\ len bits = len code / 8 + 5 /\
    forall p, 0 <= p < len code -> (bitAt bits p = false <-> instr_start code p).
Proof.
  intros Hb. unfold codeBitmap, codeBitmapInternal.
  assert (0 <= len code / 8) by (apply Z.div_pos; [apply len_nonneg|lia]).
  destruct (codeBitmapLoop_spec (length code) code (zreplicate (len code / 8 + 1 + 4) 0) 0)
    as (bits & pc & -> & [Hl Hs Hc Hx] & Hpc); auto.
  - constructor.
    + rewrite len_zreplicate; lia.
    + constructor.
    + intros p _. apply bitAt_zero.
    + lia.
  - unfold len. lia.
  - exists bits. split; [done|]. split; [done|]. intros p Hp. apply Hx. lia.
Qed.

(** C39 The jump-destination analysis is exact: for every byte string, [codeBitmap] does not index
    outside the bit vector it allocates, and [codeSegment] at a position of the code answers true
    exactly when an instruction starts there; [instr_start] is the definition by walking over the
    code one instruction at a time, and the routine sets up to 16 bits at once. *)
Theorem codeBitmap_correct (code : bytes) (pos : Z) :
  Forall is_byte code -> 0 <= pos < len code ->
  exists bits b, codeBitmap code = Ret bits /\ codeSegment bits pos = Ret b /\
    (b = true <-> instr_start code pos).
Proof.
  intros Hb Hp. destruct (codeBitmap_spec code Hb) as (bits & Hbits & Hl & Hx).
  exists bits, (negb (bitAt bits pos)). split; [done|]. split.
  - apply codeSegment_bitAt; [lia|]. rewrite Hl.
    pose proof (Z.div_le_mono pos (len code) 8). lia.
  - rewrite negb_true_iff. auto.
Qed.

(** PUSH2 with its two bytes of data, one of which looks like a JUMPDEST, then a real one. *)
Lemma codeBitmap_correct_witness : exists bits b,
  codeBitmap [97; 91; 0; 91] = Ret bits /\ codeSegment bits 1 = Ret b /\
  (b = true <-> instr_start [97; 91; 0; 91] 1).
Proof.
  apply (codeBitmap_correct [97; 91; 0; 91] 1); [repeat constructor; done|].
  split; [done|reflexivity].
Defined.
