(* ===== verification/JumpTable.v ===== *)
(** * Jump tables ([core/vm/jump_table.go], [core/vm/eips.go])

    An entry of a [JumpTable] holds three function values (execute, dynamicGas, memorySize).
    They are represented by tags ([execTag], [gasTag], [memTag]), one per Go function, whose
    meaning is given where the functions are modelled ([exec_fn] in Instructions, [gas_fn] in
    GasTable, [mem_fn] here); a nil function is [None].  A table is a finite map from opcodes
    to operations, a missing key being a nil entry.

    The instruction set of the Verkle fork and the EOF test set are not modelled. *)

From S2P Require Import Prelude Bytes Uint256 Params Machine Opcodes.

(** ** Function tags *)

Inductive execTag :=
  | OpAdd | OpSub | OpMul | OpDiv | OpSdiv | OpMod | OpSmod | OpExp | OpSignExtend | OpNot
  | OpLt | OpGt | OpSlt | OpSgt | OpEq | OpIszero | OpAnd | OpOr | OpXor | OpByte
  | OpAddmod | OpMulmod | OpSHL | OpSHR | OpSAR | OpKeccak256
  | OpAddress | OpBalance | OpOrigin | OpCaller | OpCallValue | OpCallDataLoad
  | OpCallDataSize | OpCallDataCopy | OpReturnDataSize | OpReturnDataCopy | OpExtCodeSize
  | OpCodeSize | OpCodeCopy | OpExtCodeCopy | OpExtCodeHash | OpGasprice | OpBlockhash
  | OpCoinbase | OpTimestamp | OpNumber | OpDifficulty | OpRandom | OpGasLimit
  | OpPop | OpMload | OpMstore | OpMstore8 | OpSload | OpSstore | OpJump | OpJumpi
  | OpJumpdest | OpPc | OpMsize | OpGas
  | OpSwap (n : Z) | MakeDup (n : Z) | OpPush1 | OpPush2 | MakePush (size pushByteSize : Z)
  | OpPush0 | MakeLog (n : Z)
  | OpCreate | OpCreate2 | OpCall | OpCallCode | OpDelegateCall | OpStaticCall
  | OpReturn | OpRevert | OpUndefined | OpStop | OpSelfdestruct | OpSelfdestruct6780
  | OpSelfBalance | OpChainID | OpBaseFee | OpTload | OpTstore | OpMcopy | OpBlobHash
  | OpBlobBaseFee.

Inductive gasTag :=
  | GasCallDataCopy | GasCodeCopy | GasMcopy | GasExtCodeCopy | GasReturnDataCopy
  | GasSStore | GasSStoreEIP2200 | GasSStoreEIP2929 | GasSStoreEIP3529
  | MakeGasLog (n : Z) | GasKeccak256
  | GasReturn | GasRevert | GasMLoad | GasMStore8 | GasMStore | GasCreate
  | GasCreate2 | GasCreateEip3860 | GasCreate2Eip3860 | GasExpFrontier | GasExpEIP158
  | GasCall | GasCallCode | GasDelegateCall | GasStaticCall | GasSelfdestruct
  | GasSLoadEIP2929 | GasExtCodeCopyEIP2929 | GasEip2929AccountCheck
  | GasCallEIP2929 | GasDelegateCallEIP2929 | GasStaticCallEIP2929 | GasCallCodeEIP2929
  | GasSelfdestructEIP2929 | GasSelfdestructEIP3529
  | GasCallEIP7702 | GasDelegateCallEIP7702 | GasStaticCallEIP7702 | GasCallCodeEIP7702.

Inductive memTag :=
  | MemoryKeccak256 | MemoryCallDataCopy | MemoryReturnDataCopy | MemoryCodeCopy
  | MemoryExtCodeCopy | MemoryMLoad | MemoryMStore8 | MemoryMStore | MemoryMcopy
  | MemoryCreate | MemoryCreate2 | MemoryCall | MemoryDelegateCall | MemoryStaticCall
  | MemoryReturn | MemoryRevert | MemoryLog.

#[global] Instance execTag_eq_dec : EqDecision execTag.
Proof. solve_decision. Defined.
#[global] Instance gasTag_eq_dec : EqDecision gasTag.
Proof. solve_decision. Defined.
#[global] Instance memTag_eq_dec : EqDecision memTag.
Proof. solve_decision. Defined.

Definition mem_fn `{Uint256} (t : memTag) : Stack -> Outcome (Z * bool) :=
  match t with
  | MemoryKeccak256 => memoryKeccak256
  | MemoryCallDataCopy => memoryCallDataCopy
  | MemoryReturnDataCopy => memoryReturnDataCopy
  | MemoryCodeCopy => memoryCodeCopy
  | MemoryExtCodeCopy => memoryExtCodeCopy
  | MemoryMLoad => memoryMLoad
  | MemoryMStore8 => memoryMStore8
  | MemoryMStore => memoryMStore
  | MemoryMcopy => memoryMcopy
  | MemoryCreate => memoryCreate
  | MemoryCreate2 => memoryCreate2
  | MemoryCall => memoryCall
  | MemoryDelegateCall => memoryDelegateCall
  | MemoryStaticCall => memoryStaticCall
  | MemoryReturn => memoryReturn
  | MemoryRevert => memoryRevert
  | MemoryLog => memoryLog
  end.

(** ** [type operation struct] *)

Record operation := mkOp {
  execute : execTag;
  constantGas : Z;
  dynamicGas : option gasTag;
  op_minStack : Z;
  op_maxStack : Z;
  memorySize : option memTag;
  undefined : bool;
}.

Abbreviation JumpTable := (gmap Z operation).

Definition with_constantGas (g : Z) (o : operation) : operation :=
  mkOp (execute o) g (dynamicGas o) (op_minStack o) (op_maxStack o) (memorySize o) (undefined o).
Definition with_dynamicGas (t : gasTag) (o : operation) : operation :=
  mkOp (execute o) (constantGas o) (Some t) (op_minStack o) (op_maxStack o) (memorySize o)
    (undefined o).

(** [jt[op].constantGas = g] and [jt[op].dynamicGas = f].  Assigning through a nil entry would
    panic; [set_constantGas] leaves the table unchanged there, and no table below has one. *)
Definition set_constantGas (op : OpCode) (g : Z) (jt : JumpTable) : JumpTable :=
  alter (with_constantGas g) op jt.
Definition set_dynamicGas (op : OpCode) (t : gasTag) (jt : JumpTable) : JumpTable :=
  alter (with_dynamicGas t) op jt.

(** [func validate(jt JumpTable) JumpTable]: [false] stands for its panics. *)
Definition opcodes : list OpCode := Z.of_nat <$> seq 0 256.

Definition validate (jt : JumpTable) : bool :=
  forallb (fun i => match jt !! i with
                    | None => false
                    | Some o => negb (bool_decide (is_Some (memorySize o)) &&
                                      bool_decide (dynamicGas o = None))
                    end) opcodes.

(** ** The frontier instruction set *)

Definition frontierArithmetic : list (OpCode * operation) := [
  (STOP, mkOp OpStop 0 None (minStack 0 0) (maxStack 0 0) None false);
  (ADD, mkOp OpAdd GasFastestStep None (minStack 2 1) (maxStack 2 1) None false);
  (MUL, mkOp OpMul GasFastStep None (minStack 2 1) (maxStack 2 1) None false);
  (SUB, mkOp OpSub GasFastestStep None (minStack 2 1) (maxStack 2 1) None false);
  (DIV, mkOp OpDiv GasFastStep None (minStack 2 1) (maxStack 2 1) None false);
  (SDIV, mkOp OpSdiv GasFastStep None (minStack 2 1) (maxStack 2 1) None false);
  (MOD, mkOp OpMod GasFastStep None (minStack 2 1) (maxStack 2 1) None false);
  (SMOD, mkOp OpSmod GasFastStep None (minStack 2 1) (maxStack 2 1) None false);
  (ADDMOD, mkOp OpAddmod GasMidStep None (minStack 3 1) (maxStack 3 1) None false);
  (MULMOD, mkOp OpMulmod GasMidStep None (minStack 3 1) (maxStack 3 1) None false);
  (EXP, mkOp OpExp 0 (Some GasExpFrontier) (minStack 2 1) (maxStack 2 1) None false);
  (SIGNEXTEND, mkOp OpSignExtend GasFastStep None (minStack 2 1) (maxStack 2 1) None false);
  (LT, mkOp OpLt GasFastestStep None (minStack 2 1) (maxStack 2 1) None false);
  (GT, mkOp OpGt GasFastestStep None (minStack 2 1) (maxStack 2 1) None false);
  (SLT, mkOp OpSlt GasFastestStep None (minStack 2 1) (maxStack 2 1) None false);
  (SGT, mkOp OpSgt GasFastestStep None (minStack 2 1) (maxStack 2 1) None false);
  (EQ, mkOp OpEq GasFastestStep None (minStack 2 1) (maxStack 2 1) None false);
  (ISZERO, mkOp OpIszero GasFastestStep None (minStack 1 1) (maxStack 1 1) None false);
  (AND, mkOp OpAnd GasFastestStep None (minStack 2 1) (maxStack 2 1) None false);
  (XOR, mkOp OpXor GasFastestStep None (minStack 2 1) (maxStack 2 1) None false);
  (OR, mkOp OpOr GasFastestStep None (minStack 2 1) (maxStack 2 1) None false);
  (NOT, mkOp OpNot GasFastestStep None (minStack 1 1) (maxStack 1 1) None false);
  (BYTE, mkOp OpByte GasFastestStep None (minStack 2 1) (maxStack 2 1) None false)
].

Definition frontierEnvironment : list (OpCode * operation) := [
  (KECCAK256, mkOp OpKeccak256 Keccak256Gas (Some GasKeccak256) (minStack 2 1) (maxStack 2 1) (Some MemoryKeccak256) false);
  (ADDRESS, mkOp OpAddress GasQuickStep None (minStack 0 1) (maxStack 0 1) None false);
  (BALANCE, mkOp OpBalance BalanceGasFrontier None (minStack 1 1) (maxStack 1 1) None false);
  (ORIGIN, mkOp OpOrigin GasQuickStep None (minStack 0 1) (maxStack 0 1) None false);
  (CALLER, mkOp OpCaller GasQuickStep None (minStack 0 1) (maxStack 0 1) None false);
  (CALLVALUE, mkOp OpCallValue GasQuickStep None (minStack 0 1) (maxStack 0 1) None false);
  (CALLDATALOAD, mkOp OpCallDataLoad GasFastestStep None (minStack 1 1) (maxStack 1 1) None false);
  (CALLDATASIZE, mkOp OpCallDataSize GasQuickStep None (minStack 0 1) (maxStack 0 1) None false);
  (CALLDATACOPY, mkOp OpCallDataCopy GasFastestStep (Some GasCallDataCopy) (minStack 3 0) (maxStack 3 0) (Some MemoryCallDataCopy) false);
  (CODESIZE, mkOp OpCodeSize GasQuickStep None (minStack 0 1) (maxStack 0 1) None false);
  (CODECOPY, mkOp OpCodeCopy GasFastestStep (Some GasCodeCopy) (minStack 3 0) (maxStack 3 0) (Some MemoryCodeCopy) false);
  (GASPRICE, mkOp OpGasprice GasQuickStep None (minStack 0 1) (maxStack 0 1) None false);
  (EXTCODESIZE, mkOp OpExtCodeSize ExtcodeSizeGasFrontier None (minStack 1 1) (maxStack 1 1) None false);
  (EXTCODECOPY, mkOp OpExtCodeCopy ExtcodeCopyBaseFrontier (Some GasExtCodeCopy) (minStack 4 0) (maxStack 4 0) (Some MemoryExtCodeCopy) false);
  (BLOCKHASH, mkOp OpBlockhash GasExtStep None (minStack 1 1) (maxStack 1 1) None false);
  (COINBASE, mkOp OpCoinbase GasQuickStep None (minStack 0 1) (maxStack 0 1) None false);
  (TIMESTAMP, mkOp OpTimestamp GasQuickStep None (minStack 0 1) (maxStack 0 1) None false);
  (NUMBER, mkOp OpNumber GasQuickStep None (minStack 0 1) (maxStack 0 1) None false);
  (DIFFICULTY, mkOp OpDifficulty GasQuickStep None (minStack 0 1) (maxStack 0 1) None false);
  (GASLIMIT, mkOp OpGasLimit GasQuickStep None (minStack 0 1) (maxStack 0 1) None false)
].

Definition frontierStorage : list (OpCode * operation) := [
  (POP, mkOp OpPop GasQuickStep None (minStack 1 0) (maxStack 1 0) None false);
  (MLOAD, mkOp OpMload GasFastestStep (Some GasMLoad) (minStack 1 1) (maxStack 1 1) (Some MemoryMLoad) false);
  (MSTORE, mkOp OpMstore GasFastestStep (Some GasMStore) (minStack 2 0) (maxStack 2 0) (Some MemoryMStore) false);
  (MSTORE8, mkOp OpMstore8 GasFastestStep (Some GasMStore8) (minStack 2 0) (maxStack 2 0) (Some MemoryMStore8) false);
  (SLOAD, mkOp OpSload SloadGasFrontier None (minStack 1 1) (maxStack 1 1) None false);
  (SSTORE, mkOp OpSstore 0 (Some GasSStore) (minStack 2 0) (maxStack 2 0) None false);
  (JUMP, mkOp OpJump GasMidStep None (minStack 1 0) (maxStack 1 0) None false);
  (JUMPI, mkOp OpJumpi GasSlowStep None (minStack 2 0) (maxStack 2 0) None false);
  (PC, mkOp OpPc GasQuickStep None (minStack 0 1) (maxStack 0 1) None false);
  (MSIZE, mkOp OpMsize GasQuickStep None (minStack 0 1) (maxStack 0 1) None false);
  (GAS, mkOp OpGas GasQuickStep None (minStack 0 1) (maxStack 0 1) None false);
  (JUMPDEST, mkOp OpJumpdest JumpdestGas None (minStack 0 0) (maxStack 0 0) None false)
].

Definition frontierPush1 : list (OpCode * operation) := [
  (PUSH1, mkOp OpPush1 GasFastestStep None (minStack 0 1) (maxStack 0 1) None false);
  (PUSH2, mkOp OpPush2 GasFastestStep None (minStack 0 1) (maxStack 0 1) None false);
  (PUSH3, mkOp (MakePush 3 3) GasFastestStep None (minStack 0 1) (maxStack 0 1) None false);
  (PUSH4, mkOp (MakePush 4 4) GasFastestStep None (minStack 0 1) (maxStack 0 1) None false);
  (PUSH5, mkOp (MakePush 5 5) GasFastestStep None (minStack 0 1) (maxStack 0 1) None false);
  (PUSH6, mkOp (MakePush 6 6) GasFastestStep None (minStack 0 1) (maxStack 0 1) None false);
  (PUSH7, mkOp (MakePush 7 7) GasFastestStep None (minStack 0 1) (maxStack 0 1) None false);
  (PUSH8, mkOp (MakePush 8 8) GasFastestStep None (minStack 0 1) (maxStack 0 1) None false);
  (PUSH9, mkOp (MakePush 9 9) GasFastestStep None (minStack 0 1) (maxStack 0 1) None false);
  (PUSH10, mkOp (MakePush 10 10) GasFastestStep None (minStack 0 1) (maxStack 0 1) None false);
  (PUSH11, mkOp (MakePush 11 11) GasFastestStep None (minStack 0 1) (maxStack 0 1) None false);
  (PUSH12, mkOp (MakePush 12 12) GasFastestStep None (minStack 0 1) (maxStack 0 1) None false);
  (PUSH13, mkOp (MakePush 13 13) GasFastestStep None (minStack 0 1) (maxStack 0 1) None false);
  (PUSH14, mkOp (MakePush 14 14) GasFastestStep None (minStack 0 1) (maxStack 0 1) None false);
  (PUSH15, mkOp (MakePush 15 15) GasFastestStep None (minStack 0 1) (maxStack 0 1) None false);
  (PUSH16, mkOp (MakePush 16 16) GasFastestStep None (minStack 0 1) (maxStack 0 1) None false);
  (PUSH17, mkOp (MakePush 17 17) GasFastestStep None (minStack 0 1) (maxStack 0 1) None false);
  (PUSH18, mkOp (MakePush 18 18) GasFastestStep None (minStack 0 1) (maxStack 0 1) None false);
  (PUSH19, mkOp (MakePush 19 19) GasFastestStep None (minStack 0 1) (maxStack 0 1) None false);
  (PUSH20, mkOp (MakePush 20 20) GasFastestStep None (minStack 0 1) (maxStack 0 1) None false)
].

Definition frontierPush2 : list (OpCode * operation) := [
  (PUSH21, mkOp (MakePush 21 21) GasFastestStep None (minStack 0 1) (maxStack 0 1) None false);
  (PUSH22, mkOp (MakePush 22 22) GasFastestStep None (minStack 0 1) (maxStack 0 1) None false);
  (PUSH23, mkOp (MakePush 23 23) GasFastestStep None (minStack 0 1) (maxStack 0 1) None false);
  (PUSH24, mkOp (MakePush 24 24) GasFastestStep None (minStack 0 1) (maxStack 0 1) None false);
  (PUSH25, mkOp (MakePush 25 25) GasFastestStep None (minStack 0 1) (maxStack 0 1) None false);
  (PUSH26, mkOp (MakePush 26 26) GasFastestStep None (minStack 0 1) (maxStack 0 1) None false);
  (PUSH27, mkOp (MakePush 27 27) GasFastestStep None (minStack 0 1) (maxStack 0 1) None false);
  (PUSH28, mkOp (MakePush 28 28) GasFastestStep None (minStack 0 1) (maxStack 0 1) None false);
  (PUSH29, mkOp (MakePush 29 29) GasFastestStep None (minStack 0 1) (maxStack 0 1) None false);
  (PUSH30, mkOp (MakePush 30 30) GasFastestStep None (minStack 0 1) (maxStack 0 1) None false);
  (PUSH31, mkOp (MakePush 31 31) GasFastestStep None (minStack 0 1) (maxStack 0 1) None false);
  (PUSH32, mkOp (MakePush 32 32) GasFastestStep None (minStack 0 1) (maxStack 0 1) None false)
].

Definition frontierDup : list (OpCode * operation) := [
  (DUP1, mkOp (MakeDup 1) GasFastestStep None (minDupStack 1) (maxDupStack 1) None false);
  (DUP2, mkOp (MakeDup 2) GasFastestStep None (minDupStack 2) (maxDupStack 2) None false);
  (DUP3, mkOp (MakeDup 3) GasFastestStep None (minDupStack 3) (maxDupStack 3) None false);
  (DUP4, mkOp (MakeDup 4) GasFastestStep None (minDupStack 4) (maxDupStack 4) None false);
  (DUP5, mkOp (MakeDup 5) GasFastestStep None (minDupStack 5) (maxDupStack 5) None false);
  (DUP6, mkOp (MakeDup 6) GasFastestStep None (minDupStack 6) (maxDupStack 6) None false);
  (DUP7, mkOp (MakeDup 7) GasFastestStep None (minDupStack 7) (maxDupStack 7) None false);
  (DUP8, mkOp (MakeDup 8) GasFastestStep None (minDupStack 8) (maxDupStack 8) None false);
  (DUP9, mkOp (MakeDup 9) GasFastestStep None (minDupStack 9) (maxDupStack 9) None false);
  (DUP10, mkOp (MakeDup 10) GasFastestStep None (minDupStack 10) (maxDupStack 10) None false);
  (DUP11, mkOp (MakeDup 11) GasFastestStep None (minDupStack 11) (maxDupStack 11) None false);
  (DUP12, mkOp (MakeDup 12) GasFastestStep None (minDupStack 12) (maxDupStack 12) None false);
  (DUP13, mkOp (MakeDup 13) GasFastestStep None (minDupStack 13) (maxDupStack 13) None false);
  (DUP14, mkOp (MakeDup 14) GasFastestStep None (minDupStack 14) (maxDupStack 14) None false);
  (DUP15, mkOp (MakeDup 15) GasFastestStep None (minDupStack 15) (maxDupStack 15) None false);
  (DUP16, mkOp (MakeDup 16) GasFastestStep None (minDupStack 16) (maxDupStack 16) None false)
].

Definition frontierSwap : list (OpCode * operation) := [
  (SWAP1, mkOp (OpSwap 1) GasFastestStep None (minSwapStack 2) (maxSwapStack 2) None false);
  (SWAP2, mkOp (OpSwap 2) GasFastestStep None (minSwapStack 3) (maxSwapStack 3) None false);
  (SWAP3, mkOp (OpSwap 3) GasFastestStep None (minSwapStack 4) (maxSwapStack 4) None false);
  (SWAP4, mkOp (OpSwap 4) GasFastestStep None (minSwapStack 5) (maxSwapStack 5) None false);
  (SWAP5, mkOp (OpSwap 5) GasFastestStep None (minSwapStack 6) (maxSwapStack 6) None false);
  (SWAP6, mkOp (OpSwap 6) GasFastestStep None (minSwapStack 7) (maxSwapStack 7) None false);
  (SWAP7, mkOp (OpSwap 7) GasFastestStep None (minSwapStack 8) (maxSwapStack 8) None false);
  (SWAP8, mkOp (OpSwap 8) GasFastestStep None (minSwapStack 9) (maxSwapStack 9) None false);
  (SWAP9, mkOp (OpSwap 9) GasFastestStep None (minSwapStack 10) (maxSwapStack 10) None false);
  (SWAP10, mkOp (OpSwap 10) GasFastestStep None (minSwapStack 11) (maxSwapStack 11) None false);
  (SWAP11, mkOp (OpSwap 11) GasFastestStep None (minSwapStack 12) (maxSwapStack 12) None false);
  (SWAP12, mkOp (OpSwap 12) GasFastestStep None (minSwapStack 13) (maxSwapStack 13) None false);
  (SWAP13, mkOp (OpSwap 13) GasFastestStep None (minSwapStack 14) (maxSwapStack 14) None false);
  (SWAP14, mkOp (OpSwap 14) GasFastestStep None (minSwapStack 15) (maxSwapStack 15) None false);
  (SWAP15, mkOp (OpSwap 15) GasFastestStep None (minSwapStack 16) (maxSwapStack 16) None false);
  (SWAP16, mkOp (OpSwap 16) GasFastestStep None (minSwapStack 17) (maxSwapStack 17) None false)
].

Definition frontierSystem : list (OpCode * operation) := [
  (LOG0, mkOp (MakeLog 0) 0 (Some (MakeGasLog 0)) (minStack 2 0) (maxStack 2 0) (Some MemoryLog) false);
  (LOG1, mkOp (MakeLog 1) 0 (Some (MakeGasLog 1)) (minStack 3 0) (maxStack 3 0) (Some MemoryLog) false);
  (LOG2, mkOp (MakeLog 2) 0 (Some (MakeGasLog 2)) (minStack 4 0) (maxStack 4 0) (Some MemoryLog) false);
  (LOG3, mkOp (MakeLog 3) 0 (Some (MakeGasLog 3)) (minStack 5 0) (maxStack 5 0) (Some MemoryLog) false);
  (LOG4, mkOp (MakeLog 4) 0 (Some (MakeGasLog 4)) (minStack 6 0) (maxStack 6 0) (Some MemoryLog) false);
  (CREATE, mkOp OpCreate CreateGas (Some GasCreate) (minStack 3 1) (maxStack 3 1) (Some MemoryCreate) false);
  (CALL, mkOp OpCall CallGasFrontier (Some GasCall) (minStack 7 1) (maxStack 7 1) (Some MemoryCall) false);
  (CALLCODE, mkOp OpCallCode CallGasFrontier (Some GasCallCode) (minStack 7 1) (maxStack 7 1) (Some MemoryCall) false);
  (RETURN, mkOp OpReturn 0 (Some GasReturn) (minStack 2 0) (maxStack 2 0) (Some MemoryReturn) false);
  (SELFDESTRUCT, mkOp OpSelfdestruct 0 (Some GasSelfdestruct) (minStack 1 0) (maxStack 1 0) None false);
  (INVALID, mkOp OpUndefined 0 None (minStack 0 0) (maxStack 0 0) None false)
].

(** Unassigned slots are filled with [opUndefined]. *)
Definition undefinedOp : operation := mkOp OpUndefined 0 None 0 (maxStack 0 0) None true.

Definition fillUndefined (jt : JumpTable) : JumpTable :=
  fold_right (fun i t => match t !! i with None => <[i := undefinedOp]> t | Some _ => t end)
    jt opcodes.

Definition newFrontierInstructionSet : JumpTable :=
  fillUndefined (list_to_map
    (frontierArithmetic ++ frontierEnvironment ++ frontierStorage ++ frontierPush1 ++
     frontierPush2 ++ frontierDup ++ frontierSwap ++ frontierSystem)).

Definition newHomesteadInstructionSet : JumpTable :=
  <[DELEGATECALL := mkOp OpDelegateCall CallGasFrontier (Some GasDelegateCall)
      (minStack 6 1) (maxStack 6 1) (Some MemoryDelegateCall) false]>
    newFrontierInstructionSet.

Definition newTangerineWhistleInstructionSet : JumpTable :=
  set_constantGas DELEGATECALL CallGasEIP150 $
  set_constantGas CALLCODE CallGasEIP150 $
  set_constantGas CALL CallGasEIP150 $
  set_constantGas EXTCODECOPY ExtcodeCopyBaseEIP150 $
  set_constantGas SLOAD SloadGasEIP150 $
  set_constantGas EXTCODESIZE ExtcodeSizeGasEIP150 $
  set_constantGas BALANCE BalanceGasEIP150 newHomesteadInstructionSet.

Definition newSpuriousDragonInstructionSet : JumpTable :=
  set_dynamicGas EXP GasExpEIP158 newTangerineWhistleInstructionSet.

Definition newByzantiumInstructionSet : JumpTable :=
  <[REVERT := mkOp OpRevert 0 (Some GasRevert) (minStack 2 0) (maxStack 2 0)
      (Some MemoryRevert) false]> $
  <[RETURNDATACOPY := mkOp OpReturnDataCopy GasFastestStep (Some GasReturnDataCopy)
      (minStack 3 0) (maxStack 3 0) (Some MemoryReturnDataCopy) false]> $
  <[RETURNDATASIZE := mkOp OpReturnDataSize GasQuickStep None (minStack 0 1) (maxStack 0 1)
      None false]> $
  <[STATICCALL := mkOp OpStaticCall CallGasEIP150 (Some GasStaticCall) (minStack 6 1)
      (maxStack 6 1) (Some MemoryStaticCall) false]> newSpuriousDragonInstructionSet.

Definition newConstantinopleInstructionSet : JumpTable :=
  <[CREATE2 := mkOp OpCreate2 Create2Gas (Some GasCreate2) (minStack 4 1) (maxStack 4 1)
      (Some MemoryCreate2) false]> $
  <[EXTCODEHASH := mkOp OpExtCodeHash ExtcodeHashGasConstantinople None (minStack 1 1)
      (maxStack 1 1) None false]> $
  <[SAR := mkOp OpSAR GasFastestStep None (minStack 2 1) (maxStack 2 1) None false]> $
  <[SHR := mkOp OpSHR GasFastestStep None (minStack 2 1) (maxStack 2 1) None false]> $
  <[SHL := mkOp OpSHL GasFastestStep None (minStack 2 1) (maxStack 2 1) None false]>
    newByzantiumInstructionSet.

(** ** EIP activators ([eips.go]) *)

Definition enable1884 (jt : JumpTable) : JumpTable :=
  <[SELFBALANCE := mkOp OpSelfBalance GasFastStep None (minStack 0 1) (maxStack 0 1)
      None false]> $
  set_constantGas EXTCODEHASH ExtcodeHashGasEIP1884 $
  set_constantGas BALANCE BalanceGasEIP1884 $
  set_constantGas SLOAD SloadGasEIP1884 jt.

Definition enable1344 (jt : JumpTable) : JumpTable :=
  <[CHAINID := mkOp OpChainID GasQuickStep None (minStack 0 1) (maxStack 0 1) None false]> jt.

Definition enable2200 (jt : JumpTable) : JumpTable :=
  set_dynamicGas SSTORE GasSStoreEIP2200 $ set_constantGas SLOAD SloadGasEIP2200 jt.

Definition enable2929 (jt : JumpTable) : JumpTable :=
  set_dynamicGas SELFDESTRUCT GasSelfdestructEIP2929 $
  set_constantGas SELFDESTRUCT SelfdestructGasEIP150 $
  set_dynamicGas DELEGATECALL GasDelegateCallEIP2929 $
  set_constantGas DELEGATECALL WarmStorageReadCostEIP2929 $
  set_dynamicGas STATICCALL GasStaticCallEIP2929 $
  set_constantGas STATICCALL WarmStorageReadCostEIP2929 $
  set_dynamicGas CALLCODE GasCallCodeEIP2929 $
  set_constantGas CALLCODE WarmStorageReadCostEIP2929 $
  set_dynamicGas CALL GasCallEIP2929 $
  set_constantGas CALL WarmStorageReadCostEIP2929 $
  set_dynamicGas BALANCE GasEip2929AccountCheck $
  set_constantGas BALANCE WarmStorageReadCostEIP2929 $
  set_dynamicGas EXTCODEHASH GasEip2929AccountCheck $
  set_constantGas EXTCODEHASH WarmStorageReadCostEIP2929 $
  set_dynamicGas EXTCODESIZE GasEip2929AccountCheck $
  set_constantGas EXTCODESIZE WarmStorageReadCostEIP2929 $
  set_dynamicGas EXTCODECOPY GasExtCodeCopyEIP2929 $
  set_constantGas EXTCODECOPY WarmStorageReadCostEIP2929 $
  set_dynamicGas SLOAD GasSLoadEIP2929 $
  set_constantGas SLOAD 0 $
  set_dynamicGas SSTORE GasSStoreEIP2929 jt.

Definition enable3529 (jt : JumpTable) : JumpTable :=
  set_dynamicGas SELFDESTRUCT GasSelfdestructEIP3529 $
  set_dynamicGas SSTORE GasSStoreEIP3529 jt.

Definition enable3198 (jt : JumpTable) : JumpTable :=
  <[BASEFEE := mkOp OpBaseFee GasQuickStep None (minStack 0 1) (maxStack 0 1) None false]> jt.

Definition enable1153 (jt : JumpTable) : JumpTable :=
  <[TSTORE := mkOp OpTstore WarmStorageReadCostEIP2929 None (minStack 2 0) (maxStack 2 0)
      None false]> $
  <[TLOAD := mkOp OpTload WarmStorageReadCostEIP2929 None (minStack 1 1) (maxStack 1 1)
      None false]> jt.

Definition enable3855 (jt : JumpTable) : JumpTable :=
  <[PUSH0 := mkOp OpPush0 GasQuickStep None (minStack 0 1) (maxStack 0 1) None false]> jt.

Definition enable3860 (jt : JumpTable) : JumpTable :=
  set_dynamicGas CREATE2 GasCreate2Eip3860 $ set_dynamicGas CREATE GasCreateEip3860 jt.

Definition enable5656 (jt : JumpTable) : JumpTable :=
  <[MCOPY := mkOp OpMcopy GasFastestStep (Some GasMcopy) (minStack 3 0) (maxStack 3 0)
      (Some MemoryMcopy) false]> jt.

Definition enable4844 (jt : JumpTable) : JumpTable :=
  <[BLOBHASH := mkOp OpBlobHash GasFastestStep None (minStack 1 1) (maxStack 1 1)
      None false]> jt.

Definition enable7516 (jt : JumpTable) : JumpTable :=
  <[BLOBBASEFEE := mkOp OpBlobBaseFee GasQuickStep None (minStack 0 1) (maxStack 0 1)
      None false]> jt.

Definition enable6780 (jt : JumpTable) : JumpTable :=
  <[SELFDESTRUCT := mkOp OpSelfdestruct6780 SelfdestructGasEIP150
      (Some GasSelfdestructEIP3529) (minStack 1 0) (maxStack 1 0) None false]> jt.

Definition enable7702 (jt : JumpTable) : JumpTable :=
  set_dynamicGas DELEGATECALL GasDelegateCallEIP7702 $
  set_dynamicGas STATICCALL GasStaticCallEIP7702 $
  set_dynamicGas CALLCODE GasCallCodeEIP7702 $
  set_dynamicGas CALL GasCallEIP7702 jt.

(** ** Later instruction sets ([jump_table.go]) *)

Definition newIstanbulInstructionSet : JumpTable :=
  enable2200 (enable1884 (enable1344 newConstantinopleInstructionSet)).

Definition newBerlinInstructionSet : JumpTable := enable2929 newIstanbulInstructionSet.

Definition newLondonInstructionSet : JumpTable :=
  enable3198 (enable3529 newBerlinInstructionSet).

Definition newMergeInstructionSet : JumpTable :=
  <[PREVRANDAO := mkOp OpRandom GasQuickStep None (minStack 0 1) (maxStack 0 1) None false]>
    newLondonInstructionSet.

Definition newShanghaiInstructionSet : JumpTable :=
  enable3860 (enable3855 newMergeInstructionSet).

Definition newCancunInstructionSet : JumpTable :=
  enable6780 (enable5656 (enable1153 (enable7516 (enable4844 newShanghaiInstructionSet)))).

Definition newPragueInstructionSet : JumpTable := enable7702 newCancunInstructionSet.

(** The table that [NewEVMInterpreter] selects ([interpreter.go]); [Unmodelled] for the Verkle
    fork. *)
Definition instructionSet (r : Rules) : Outcome JumpTable :=
  if IsVerkle r then Fail Unmodelled
  else Ret (
    if IsPrague r then newPragueInstructionSet
    else if IsCancun r then newCancunInstructionSet
    else if IsShanghai r then newShanghaiInstructionSet
    else if IsMerge r then newMergeInstructionSet
    else if IsLondon r then newLondonInstructionSet
    else if IsBerlin r then newBerlinInstructionSet
    else if IsIstanbul r then newIstanbulInstructionSet
    else if IsConstantinople r then newConstantinopleInstructionSet
    else if IsByzantium r then newByzantiumInstructionSet
    else if IsEIP158 r then newSpuriousDragonInstructionSet
    else if IsEIP150 r then newTangerineWhistleInstructionSet
    else if IsHomestead r then newHomesteadInstructionSet
    else newFrontierInstructionSet).

(** [var activators] and [func EnableEIP]: [Ret None] is the error "undefined eip".  EIP-4762
    (Verkle) is not modelled. *)
Definition EnableEIP (eipNum : Z) (jt : JumpTable) : Outcome (option JumpTable) :=
  if eipNum =? 5656 then Ret (Some (enable5656 jt))
  else if eipNum =? 6780 then Ret (Some (enable6780 jt))
  else if eipNum =? 3855 then Ret (Some (enable3855 jt))
  else if eipNum =? 3860 then Ret (Some (enable3860 jt))
  else if eipNum =? 3529 then Ret (Some (enable3529 jt))
  else if eipNum =? 3198 then Ret (Some (enable3198 jt))
  else if eipNum =? 2929 then Ret (Some (enable2929 jt))
  else if eipNum =? 2200 then Ret (Some (enable2200 jt))
  else if eipNum =? 1884 then Ret (Some (enable1884 jt))
  else if eipNum =? 1344 then Ret (Some (enable1344 jt))
  else if eipNum =? 1153 then Ret (Some (enable1153 jt))
  else if eipNum =? 4762 then Fail Unmodelled
  else if eipNum =? 7702 then Ret (Some (enable7702 jt))
  else Ret None.

(** All modelled instruction sets. *)
Definition allInstructionSets : list JumpTable :=
  [newFrontierInstructionSet; newHomesteadInstructionSet; newTangerineWhistleInstructionSet;
   newSpuriousDragonInstructionSet; newByzantiumInstructionSet; newConstantinopleInstructionSet;
   newIstanbulInstructionSet; newBerlinInstructionSet; newLondonInstructionSet;
   newMergeInstructionSet; newShanghaiInstructionSet; newCancunInstructionSet;
   newPragueInstructionSet].
