(* ===== verification/Rlp.v ===== *)
(** * RLP encoding and splitting ([rlp/encode.go], [rlp/encbuffer.go], [rlp/raw.go])

    The encoder does not know a list's size when it starts writing it: [encBuffer] keeps the
    string data in [str] and the list headers, with the offsets where they belong, in [lheads],
    and [makeBytes] merges the two.  [encode] is the reference encoding of an [item]; the
    buffer implements it, and the splitting functions of [raw.go] are inverse to the encoder
    (RlpTheorems.v). *)

From S2P Require Import Prelude Bytes.

Inductive Kind := KByte | KString | KList.

#[global] Instance Kind_eq_dec : EqDecision Kind.
Proof. solve_decision. Defined.

(** The messages of a [decodeError] *)
Inductive decodeMsg :=
  | nonCanonicalInteger | nonCanonicalSize | expectedInputList | expectedInputString
  | inputTooLong | inputTooShort | tooManyElements | listTooFewElements | tooFewElements | wrongKindOfEmpty.

(** The errors of the package; a [decodeError] is its message, without the type and the context, and
    [errDecoder] an error of a type's own decoder. *)
Inductive rlperror :=
  | ErrUnexpectedEOF | ErrExpectedString | ErrExpectedList | ErrCanonInt | ErrCanonSize
  | ErrValueTooLarge | ErrUintOverflow
  | EOF | EOL | ErrElemTooLarge | ErrMoreThanOneValue | errNotInList | errNotAtEOL | errUint256Large
  | errWrongSize | errInvalidBool | ErrNegativeBigInt | decodeError (msg : decodeMsg) | errDecoder.

(** [byte(x)] *)
Definition u8 (x : Z) : Z := x mod 256.

(** ** Integers and headers ([encode.go]) *)

(** [putint]: the bytes it writes at the start of its buffer. *)
Definition putint (i : Z) : bytes :=
  if i <? 2 ^ 8 then [u8 i]
  else if i <? 2 ^ 16 then [u8 (Z.shiftr i 8); u8 i]
  else if i <? 2 ^ 24 then [u8 (Z.shiftr i 16); u8 (Z.shiftr i 8); u8 i]
  else if i <? 2 ^ 32 then [u8 (Z.shiftr i 24); u8 (Z.shiftr i 16); u8 (Z.shiftr i 8); u8 i]
  else if i <? 2 ^ 40 then
    [u8 (Z.shiftr i 32); u8 (Z.shiftr i 24); u8 (Z.shiftr i 16); u8 (Z.shiftr i 8); u8 i]
  else if i <? 2 ^ 48 then
    [u8 (Z.shiftr i 40); u8 (Z.shiftr i 32); u8 (Z.shiftr i 24); u8 (Z.shiftr i 16);
     u8 (Z.shiftr i 8); u8 i]
  else if i <? 2 ^ 56 then
    [u8 (Z.shiftr i 48); u8 (Z.shiftr i 40); u8 (Z.shiftr i 32); u8 (Z.shiftr i 24);
     u8 (Z.shiftr i 16); u8 (Z.shiftr i 8); u8 i]
  else
    [u8 (Z.shiftr i 56); u8 (Z.shiftr i 48); u8 (Z.shiftr i 40); u8 (Z.shiftr i 32);
     u8 (Z.shiftr i 24); u8 (Z.shiftr i 16); u8 (Z.shiftr i 8); u8 i].

(** [intsize]: [for size = 1; ; size++ { if i >>= 8; i == 0 { return size } }]; a [uint64] is
    exhausted after eight shifts. *)
Fixpoint intsize_loop (fuel : nat) (i size : Z) : Z :=
  match fuel with
  | O => size
  | S f => let i := Z.shiftr i 8 in if i =? 0 then size else intsize_loop f i (size + 1)
  end.
Definition intsize (i : Z) : Z := intsize_loop 8 i 1.

Definition headsize (size : Z) : Z := if size <? 56 then 1 else 1 + intsize size.

(** [puthead]: the header bytes. *)
Definition puthead (smalltag largetag size : Z) : bytes :=
  if size <? 56 then [u8 (smalltag + u8 size)]
  else let s := putint size in u8 (largetag + u8 (len s)) :: s.

(** ** The encoder buffer ([encbuffer.go]) *)

Record listhead := mkListhead { offset : Z; size : Z }.

(** [func (head *listhead) encode(buf []byte) []byte] *)
Definition listhead_encode (h : listhead) : bytes := puthead 192 247 (size h).

Record encBuffer := mkBuf { str : bytes; lheads : list listhead; lhsize : Z }.

Definition emptyBuf : encBuffer := mkBuf [] [] 0.

(** [func (buf *encBuffer) size() int] *)
Definition bufsize (b : encBuffer) : Z := len (str b) + lhsize b.

Definition append_str (b : encBuffer) (s : bytes) : encBuffer :=
  mkBuf (str b ++ s) (lheads b) (lhsize b).

Definition encodeStringHeader (b : encBuffer) (sz : Z) : encBuffer :=
  if sz <? 56 then append_str b [u8 (128 + u8 sz)]
  else let s := putint sz in append_str b (u8 (183 + u8 (len s)) :: s).

Definition writeBool (b : encBuffer) (v : bool) : encBuffer :=
  append_str b (if v then [1] else [128]).

Definition writeUint64 (b : encBuffer) (i : Z) : encBuffer :=
  if i =? 0 then append_str b [128]
  else if i <? 128 then append_str b [u8 i]
  else let s := putint i in append_str b (u8 (128 + u8 (len s)) :: s).

Definition writeBytes (b : encBuffer) (d : bytes) : encBuffer :=
  match d with
  | [x] => if x <=? 127 then append_str b [x]
           else append_str (encodeStringHeader b (len d)) d
  | _ => append_str (encodeStringHeader b (len d)) d
  end.

(** [writeUint256], on the integer that the word denotes. *)
Definition writeUint256 (b : encBuffer) (z : Z) : encBuffer :=
  let bitlen := if z =? 0 then 0 else Z.log2 z + 1 in
  if bitlen <=? 64 then writeUint64 b (wrap64 z)
  else
    let nBytes := (bitlen + 7) / 8 in
    append_str b (u8 (128 + nBytes) :: be_bytes (Z.to_nat nBytes) z).

(** [big.Int.BitLen] *)
Definition bitLen (z : Z) : Z := if z =? 0 then 0 else Z.log2 (Z.abs z) + 1.

(** [writeBigInt], for an integer that is not negative; its callers return [ErrNegativeBigInt] on a
    negative one. *)
Definition writeBigInt (b : encBuffer) (i : Z) : encBuffer :=
  let bitlen := bitLen i in
  if bitlen <=? 64 then writeUint64 b (wrap64 i)
  else
    let length := Z.shiftr (Z.land (bitlen + 7) (-8)) 3 in
    append_str (encodeStringHeader b length) (be_bytes (Z.to_nat length) i).

(** [list] adds a new list header and returns its index. *)
Definition buf_list (b : encBuffer) : Z * encBuffer :=
  (len (lheads b),
   mkBuf (str b) (lheads b ++ [mkListhead (len (str b)) (lhsize b)]) (lhsize b)).

Definition listEnd (b : encBuffer) (i : Z) : Outcome encBuffer :=
  lh ← index (lheads b) i;
  let sz := bufsize b - offset lh - size lh in
  Ret (mkBuf (str b) (<[Z.to_nat i := mkListhead (offset lh) sz]> (lheads b))
         (if sz <? 56 then lhsize b + 1 else lhsize b + (1 + intsize sz))).

(** [copyTo] / [makeBytes]: the string data with the headers merged in. *)
Fixpoint copyTo (s : bytes) (strpos : Z) (heads : list listhead) : bytes :=
  match heads with
  | [] => drop (Z.to_nat strpos) s
  | h :: r => zslice s strpos (offset h) ++ listhead_encode h ++ copyTo s (offset h) r
  end.
Definition makeBytes (b : encBuffer) : bytes := copyTo (str b) 0 (lheads b).

(** ** Splitting ([raw.go]) *)

(** [readSize]: the shifts and ors of the cases 1 to 8; [s] stays 0 for any other length. *)
Definition readSize_val (b : bytes) (slen : Z) : Z :=
  if (1 <=? slen) && (slen <=? 8)
  then fold_left (fun acc x => Z.lor (Z.shiftl acc 8) x) (take (Z.to_nat slen) b) 0
  else 0.

Definition readSize (b : bytes) (slen : Z) : Outcome (Z + rlperror) :=
  if len b <? slen then Ret (inr ErrUnexpectedEOF)
  else
    let s := readSize_val b slen in
    if s <? 56 then Ret (inr ErrCanonSize)
    else
      b0 ← index b 0;
      if b0 =? 0 then Ret (inr ErrCanonSize) else Ret (inl s).

Definition readKind (buf : bytes) : Outcome ((Kind * Z * Z) + rlperror) :=
  match buf with
  | [] => Ret (inr ErrUnexpectedEOF)
  | b :: rest =>
    let fin k tagsize contentsize :=
      if len buf -! tagsize <? contentsize then Ret (inr ErrValueTooLarge)
      else Ret (inl (k, tagsize, contentsize)) in
    let long k slen :=
      r ← readSize rest slen;
      match r with inr e => Ret (inr e) | inl cs => fin k (slen + 1) cs end in
    if b <? 128 then fin KByte 0 1
    else if b <? 184 then
      let contentsize := b - 128 in
      match rest with
      | b1 :: _ => if (contentsize =? 1) && (b1 <? 128) then Ret (inr ErrCanonSize)
                   else fin KString 1 contentsize
      | [] => fin KString 1 contentsize
      end
    else if b <? 192 then long KString (b - 183)
    else if b <? 248 then fin KList 1 (b - 192)
    else long KList (b - 247)
  end.

Definition Split (b : bytes) : Outcome ((Kind * bytes * bytes) + rlperror) :=
  r ← readKind b;
  match r with
  | inr e => Ret (inr e)
  | inl (k, ts, cs) =>
      content ← slice b ts (ts +! cs);
      rest ← slice b (ts +! cs) (len b);
      Ret (inl (k, content, rest))
  end.

Definition SplitString (b : bytes) : Outcome ((bytes * bytes) + rlperror) :=
  r ← Split b;
  match r with
  | inr e => Ret (inr e)
  | inl (KList, _, _) => Ret (inr ErrExpectedString)
  | inl (_, content, rest) => Ret (inl (content, rest))
  end.

Definition SplitUint64 (b : bytes) : Outcome ((Z * bytes) + rlperror) :=
  r ← SplitString b;
  match r with
  | inr e => Ret (inr e)
  | inl (content, rest) =>
      match content with
      | [] => Ret (inl (0, rest))
      | [c] => if c =? 0 then Ret (inr ErrCanonInt) else Ret (inl (c, rest))
      | _ =>
          if 8 <? len content then Ret (inr ErrUintOverflow)
          else
            x ← readSize content (len content);
            match x with
            | inr _ => Ret (inr ErrCanonInt)
            | inl x => Ret (inl (x, rest))
            end
      end
  end.

Definition SplitList (b : bytes) : Outcome ((bytes * bytes) + rlperror) :=
  r ← Split b;
  match r with
  | inr e => Ret (inr e)
  | inl (KList, content, rest) => Ret (inl (content, rest))
  | inl _ => Ret (inr ErrExpectedList)
  end.

(** Each iteration of [CountValues] drops at least one byte. *)
Fixpoint CountValues_loop (fuel : nat) (b : bytes) (i : Z) : Outcome (Z + rlperror) :=
  match b with
  | [] => Ret (inl i)
  | _ =>
    match fuel with
    | O => Fail OutOfFuel
    | S f =>
        r ← readKind b;
        match r with
        | inr e => Ret (inr e)
        | inl (_, ts, cs) => b' ← slice b (ts +! cs) (len b); CountValues_loop f b' (i + 1)
        end
    end
  end.
Definition CountValues (b : bytes) : Outcome (Z + rlperror) := CountValues_loop (length b) b 0.

(** The cases of [AppendUint64] from 128 on write the tag [0x80 + n] and the same [n] bytes as
    [putint]. *)
Definition AppendUint64 (b : bytes) (i : Z) : bytes :=
  if i =? 0 then b ++ [128]
  else if i <? 128 then b ++ [u8 i]
  else b ++ (128 + len (putint i)) :: putint i.

(** ** Sizes ([raw.go]) *)

Definition BytesSize (b : bytes) : Z :=
  match b with
  | [] => 1
  | [x] => if x <=? 127 then 1 else 2
  | _ => headsize (len b) + len b
  end.
Definition ListSize (contentSize : Z) : Z := headsize contentSize + contentSize.
Definition IntSize (x : Z) : Z := if x <? 128 then 1 else 1 + intsize x.

(** ** Reference encoding *)

Inductive item :=
  | Str (b : bytes)
  | Lst (l : list item).

Definition encode_bytes (d : bytes) : bytes :=
  match d with
  | [x] => if x <=? 127 then [x] else puthead 128 183 (len d) ++ d
  | _ => puthead 128 183 (len d) ++ d
  end.

Fixpoint encode (it : item) : bytes :=
  match it with
  | Str b => encode_bytes b
  | Lst l => let payload := concat (encode <$> l) in puthead 192 247 (len payload) ++ payload
  end.

(** The writer that [EncodeToBytes] runs on a value: strings with [writeBytes], an empty list as
    the byte 0xC0, other lists with [list] ... [listEnd]. *)
Fixpoint writeItem (b : encBuffer) (it : item) : Outcome encBuffer :=
  match it with
  | Str d => Ret (writeBytes b d)
  | Lst [] => Ret (append_str b [192])
  | Lst l =>
      let '(i, b) := buf_list b in
      b ← (fix go (b : encBuffer) (l : list item) : Outcome encBuffer :=
             match l with [] => Ret b | x :: r => b ← writeItem b x; go b r end) b l;
      listEnd b i
  end.

Definition EncodeToBytes (it : item) : Outcome bytes :=
  b ← writeItem emptyBuf it; Ret (makeBytes b).

Example encode_dog : EncodeToBytes (Lst [Str [100; 111; 103]; Lst []; Str [15]]) =
  Ret [198; 131; 100; 111; 103; 192; 15].
Proof. reflexivity. Qed.
