(* ===== verification/RlpTheorems.v ===== *)
(** * RLP: the encoder writes the reference encoding, and splitting inverts it

    The encoder of [rlp/encbuffer.go] implements the reference encoding [encode] of Rlp.v; the
    splitting functions of [rlp/raw.go] recover what was encoded, and accept nothing but canonical
    encodings. *)

From S2P Require Import Prelude Bytes Rlp.

(** ** Integers *)

Lemma intsize_loop_spec fuel i size : 0 <= i < 256 ^ Z.of_nat fuel ->
  exists m, intsize_loop fuel i size = size + m /\ 0 <= m /\ m <= Z.max 0 (Z.of_nat fuel - 1) /\
    i < 256 ^ (m + 1) /\ (0 < m -> 256 ^ m <= i).
Proof.
  revert i size. induction fuel as [|fuel IH]; intros i size Hi.
  - exists 0. cbn. cbn in Hi. lia.
  - cbn [intsize_loop]. rewrite Z.shiftr_div_pow2 by lia. change (2 ^ 8) with 256.
    rewrite Nat2Z.inj_succ, Z.pow_succ_r in Hi by lia.
    pose proof (Z.div_mod i 256 ltac:(lia)). pose proof (Z.mod_pos_bound i 256 ltac:(lia)).
    case_if; bool_to_Z.
    + exists 0. change (256 ^ (0 + 1)) with 256. lia.
    + destruct (IH (i / 256) (size + 1)) as (m & -> & Hm0 & Hm1 & Hlt & Hge).
      { split; [apply Z.div_pos; lia|apply Z.div_lt_upper_bound; lia]. }
      assert (fuel <> 0%nat) as Hf.
      { intros ->. cbn in Hi. rewrite Z.div_small in * by lia. done. }
      exists (m + 1). split; [lia|]. split; [lia|]. split; [lia|].
      replace (m + 1 + 1) with (Z.succ (m + 1)) by lia. rewrite Z.pow_succ_r by lia. split; [lia|].
      intros _. replace (m + 1) with (Z.succ m) by lia. rewrite Z.pow_succ_r by lia.
      destruct (Z.eq_dec m 0) as [->|]; [|specialize (Hge ltac:(lia)); lia].
      change (256 ^ 0) with 1. pose proof (Z.div_pos i 256). lia.
Qed.

Lemma intsize_spec i : is_u64 i ->
  1 <= intsize i <= 8 /\ i < 256 ^ intsize i /\ (1 < intsize i -> 256 ^ (intsize i - 1) <= i).
Proof.
  intros Hi. destruct (intsize_loop_spec 8 i 1) as (m & E & H0 & H1 & H2 & H3).
  { change (256 ^ Z.of_nat 8) with two64. exact Hi. }
  unfold intsize. rewrite E. replace (1 + m) with (m + 1) by lia. replace (m + 1 - 1) with m by lia.
  cbn in H1. split; [lia|]. split; [done|]. intros. apply H3. lia.
Qed.

Lemma intsize_unique i n : is_u64 i -> 1 <= n -> i < 256 ^ n -> (1 < n -> 256 ^ (n - 1) <= i) ->
  intsize i = n.
Proof.
  intros Hi Hn Hlt Hge. destruct (intsize_spec i Hi) as (Hr & Hlt' & Hge').
  destruct (Z.lt_trichotomy (intsize i) n) as [Hc|[Hc|Hc]]; [|done|].
  - assert (256 ^ intsize i <= 256 ^ (n - 1)) by (apply Z.pow_le_mono_r; lia). lia.
  - assert (256 ^ n <= 256 ^ (intsize i - 1)) by (apply Z.pow_le_mono_r; lia). lia.
Qed.

Lemma putint_be i : is_u64 i -> putint i = be_bytes (Z.to_nat (intsize i)) i.
Proof.
  intros Hi. unfold_u64. unfold putint.
  assert (Hk : forall n : nat, 1 <= Z.of_nat n <= 8 -> i < 256 ^ Z.of_nat n ->
    (1 < Z.of_nat n -> 256 ^ (Z.of_nat n - 1) <= i) -> be_bytes (Z.to_nat (intsize i)) i = be_bytes n i).
  { intros n Hn H1 H2. rewrite (intsize_unique i (Z.of_nat n)), Nat2Z.id; [done|unfold_u64; lia|lia|done..]. }
  repeat (case_if; bool_to_Z); unfold u8; rewrite ?Z.shiftr_div_pow2 by lia.
  1: rewrite (Hk 1%nat) by (cbn; lia). 2: rewrite (Hk 2%nat) by (cbn; lia). 3: rewrite (Hk 3%nat) by (cbn; lia).
  4: rewrite (Hk 4%nat) by (cbn; lia). 5: rewrite (Hk 5%nat) by (cbn; lia). 6: rewrite (Hk 6%nat) by (cbn; lia).
  7: rewrite (Hk 7%nat) by (cbn; lia). 8: rewrite (Hk 8%nat) by (cbn; lia).
  all: cbn [be_bytes app]; rewrite ?Z.div_div by lia; reflexivity.
Qed.

Lemma putint_len i : is_u64 i -> len (putint i) = intsize i.
Proof.
  intros Hi. rewrite putint_be by done. unfold len. rewrite be_bytes_length.
  destruct (intsize_spec i Hi). lia.
Qed.

Lemma putint_bytes i : is_u64 i -> Forall is_byte (putint i).
Proof. intros Hi. rewrite putint_be by done. apply be_bytes_bytes. Qed.

Lemma putint_val i : is_u64 i -> be_val (putint i) = i.
Proof.
  intros Hi. rewrite putint_be, be_val_be_bytes by done. destruct (intsize_spec i Hi) as (Hr & Hlt & _).
  rewrite Z2Nat.id by lia. apply Z.mod_small. unfold_u64. lia.
Qed.

(** A big-endian byte string without a leading zero is what [putint] writes. *)
Lemma putint_be_val l : Forall is_byte l -> 1 <= len l <= 8 -> head l <> Some 0 -> putint (be_val l) = l.
Proof.
  intros Hb Hl Hh. pose proof (be_val_bounds l Hb) as Hv.
  assert (Hu : is_u64 (be_val l)).
  { assert (256 ^ len l <= 256 ^ 8) by (apply Z.pow_le_mono_r; lia). change (256 ^ 8) with two64 in *.
    unfold_u64. lia. }
  rewrite putint_be, (intsize_unique _ (len l)) by (first [done|lia|intros _;
    destruct l as [|b l]; [done|]; change (b :: l) with ([b] ++ l); rewrite be_val_app;
    apply Forall_cons in Hb as [Hb Hbs]; pose proof (be_val_bounds l Hbs); cbn [be_val fold_left app];
    rewrite len_cons; replace (len l + 1 - 1) with (len l) by lia; unfold is_byte in Hb;
    assert (b <> 0) by (intros ->; by apply Hh); nia]).
  unfold len. rewrite Nat2Z.id. by apply be_bytes_be_val.
Qed.

Lemma lor_byte a x : 0 <= a -> is_byte x -> Z.lor (Z.shiftl a 8) x = a * 256 + x.
Proof.
  intros Ha Hx. assert (E : Z.land (Z.shiftl a 8) x = 0).
  { apply Z.bits_inj'. intros n Hn. rewrite Z.land_spec, Z.bits_0. destruct (Z.lt_ge_cases n 8).
    - by rewrite Z.shiftl_spec_low.
    - rewrite (Z.testbit_eqb x n), Z.div_small, andb_false_r by
        (unfold is_byte in Hx; try (assert (2 ^ 8 <= 2 ^ n) by (apply Z.pow_le_mono_r; lia)); lia).
      done. }
  rewrite <- Z.lxor_lor, <- Z.add_nocarry_lxor by done. by rewrite Z.shiftl_mul_pow2 by lia.
Qed.

Lemma fold_lor_be l acc : 0 <= acc -> Forall is_byte l ->
  fold_left (fun acc x => Z.lor (Z.shiftl acc 8) x) l acc = fold_left (fun acc b => acc * 256 + b) l acc.
Proof.
  revert acc. induction l as [|x l IH]; intros acc Ha Hl; [done|].
  apply Forall_cons in Hl as [Hx Hl]. cbn. rewrite lor_byte by done. apply IH; [|done].
  unfold is_byte in Hx. lia.
Qed.

Lemma readSize_val_be l rest : Forall is_byte l -> 1 <= len l <= 8 ->
  readSize_val (l ++ rest) (len l) = be_val l.
Proof.
  intros Hb Hl. unfold readSize_val. replace ((1 <=? len l) && (len l <=? 8)) with true by lia.
  unfold len. rewrite Nat2Z.id, take_app_length. by apply fold_lor_be.
Qed.

(** ** Headers *)

(** The header of a canonical encoding of a payload [c]. *)
Definition header (k : Kind) (c : bytes) : bytes :=
  match k with
  | KByte => []
  | KString => puthead 128 183 (len c)
  | KList => puthead 192 247 (len c)
  end.

(** When a payload may be encoded with kind [k]. *)
Definition fits (k : Kind) (c : bytes) : Prop :=
  match k with
  | KByte => exists x, c = [x] /\ 0 <= x < 128
  | KString => forall x, c = [x] -> 128 <= x
  | KList => True
  end.

Lemma readSize_putint n rest : 56 <= n -> is_u64 n ->
  readSize (putint n ++ rest) (len (putint n)) = Ret (inl n).
Proof.
  intros Hn Hu. pose proof (putint_len n Hu) as Hl. destruct (intsize_spec n Hu) as (Hr & _ & Hge).
  unfold readSize. rewrite len_app. pose proof (len_nonneg rest).
  replace (len (putint n) + len rest <? len (putint n)) with false by lia.
  rewrite readSize_val_be, putint_val by (first [by apply putint_bytes|done|lia]).
  replace (n <? 56) with false by lia.
  destruct (putint n) as [|b l] eqn:E; [rewrite len_nil in Hl; lia|]. cbn [app].
  change (index (b :: (l ++ rest)) 0) with (Ret b). cbn.
  case_if; bool_to_Z; [|done]. subst b. exfalso. pose proof (putint_val n Hu) as Hv.
  pose proof (putint_bytes n Hu) as Hb. rewrite E in Hv, Hb. apply Forall_cons in Hb as [_ Hb].
  change (0 :: l) with ([0] ++ l) in Hv. rewrite be_val_app in Hv. change (be_val [0]) with 0 in Hv.
  pose proof (be_val_bounds l Hb). rewrite len_cons in Hl.
  destruct (Z.eq_dec (len l) 0) as [E0|].
  - rewrite E0 in *. change (256 ^ 0) with 1 in *. lia.
  - specialize (Hge ltac:(lia)). replace (intsize n - 1) with (len l) in Hge by lia. lia.
Qed.

Lemma len_puthead t1 t2 n : 0 <= n -> len (puthead t1 t2 n) = if n <? 56 then 1 else 1 + len (putint n).
Proof. intros. unfold puthead. case_if; [done|]. rewrite len_cons. lia. Qed.

Lemma long_tag n lo : is_u64 n -> lo = 183 \/ lo = 247 ->
  1 <= len (putint n) <= 8 /\ u8 (lo + u8 (len (putint n))) = lo + len (putint n).
Proof.
  intros Hn Hlo. rewrite putint_len by done. destruct (intsize_spec _ Hn) as (? & _).
  split; [lia|]. unfold u8. rewrite (Z.mod_small (intsize n)) by lia. apply Z.mod_small. lia.
Qed.

(** [readKind] recognises a canonical encoding. *)
Lemma readKind_header k c rest : fits k c -> Forall is_byte c -> is_u64 (len (header k c ++ c ++ rest)) ->
  readKind (header k c ++ c ++ rest) = Ret (inl (k, len (header k c), len c)).
Proof.
  intros Hf Hc Hu. rewrite !len_app in Hu. pose proof (len_nonneg c). pose proof (len_nonneg rest).
  pose proof (len_nonneg (header k c)).
  assert (Hfin : forall ts, len (header k c) = ts ->
    (len (header k c ++ c ++ rest) -! ts <? len c) = false).
  { intros ts <-. rewrite !len_app. apply Z.ltb_ge. rewrite wrap64_small by (unfold_u64; lia). lia. }
  destruct k; cbn [header fits] in *.
  - destruct Hf as (x & -> & Hx). cbn [app readKind]. replace (x <? 128) with true by lia.
    specialize (Hfin 0 eq_refl). cbn [app] in Hfin. change (len [x]) with 1 in Hfin. by rewrite Hfin.
  - unfold puthead in *. destruct (Z.ltb_spec (len c) 56) as [Hs|Hs].
    + cbn [app] in *. cbn [readKind]. unfold u8 in *. rewrite (Z.mod_small (len c)) in * by lia.
      rewrite (Z.mod_small (128 + len c)) in * by lia.
      replace (128 + len c <? 128) with false by lia. replace (128 + len c <? 184) with true by lia.
      replace (128 + len c - 128) with (len c) by lia.
      destruct c as [|x c]; cbn [app] in *.
      * destruct rest as [|y rest]; [by rewrite (Hfin 1)|]. cbn [len length Z.of_nat].
        change (0 =? 1) with false. cbn [andb]. by rewrite (Hfin 1).
      * destruct (Z.eqb_spec (len (x :: c)) 1) as [E|]; cbn [andb]; [|by rewrite (Hfin 1)].
        rewrite len_cons in E. destruct c; [|rewrite len_cons in E; pose proof (len_nonneg c); lia].
        specialize (Hf x eq_refl). replace (x <? 128) with false by lia. by rewrite (Hfin 1).
    + destruct (long_tag (len c) 183) as (Hr & Et); [unfold_u64; lia|by left|]. rewrite Et in *.
      cbn [app] in *. cbn [readKind].
      replace (_ <? 128) with false by lia. replace (_ <? 184) with false by lia.
      replace (183 + len (putint (len c)) <? 192) with true by lia.
      replace (183 + len (putint (len c)) - 183) with (len (putint (len c))) by lia.
      rewrite readSize_putint by (unfold_u64; lia). cbn [mbind outcome_bind].
      rewrite (Hfin (len (putint (len c)) + 1)) by (rewrite len_cons; lia). by rewrite len_cons.
  - unfold puthead in *. destruct (Z.ltb_spec (len c) 56) as [Hs|Hs].
    + cbn [app] in *. cbn [readKind]. unfold u8 in *. rewrite (Z.mod_small (len c)) in * by lia.
      rewrite (Z.mod_small (192 + len c)) in * by lia.
      replace (192 + len c <? 128) with false by lia. replace (192 + len c <? 184) with false by lia.
      replace (192 + len c <? 192) with false by lia. replace (192 + len c <? 248) with true by lia.
      replace (192 + len c - 192) with (len c) by lia. by rewrite (Hfin 1).
    + destruct (long_tag (len c) 247) as (Hr & Et); [unfold_u64; lia|by right|]. rewrite Et in *.
      cbn [app] in *. cbn [readKind].
      replace (_ <? 128) with false by lia. replace (_ <? 184) with false by lia.
      replace (_ <? 192) with false by lia. replace (_ <? 248) with false by lia.
      replace (247 + len (putint (len c)) - 247) with (len (putint (len c))) by lia.
      rewrite readSize_putint by (unfold_u64; lia). cbn [mbind outcome_bind].
      rewrite (Hfin (len (putint (len c)) + 1)) by (rewrite len_cons; lia). by rewrite len_cons.
Qed.

Lemma zslice_mid {A} (h c r : list A) : zslice (h ++ c ++ r) (len h) (len h + len c) = c.
Proof.
  unfold zslice, len. replace (Z.to_nat (_ + _ - _)) with (length c) by lia.
  by rewrite Nat2Z.id, drop_app_length, take_app_length.
Qed.
Lemma zslice_end {A} (h c r : list A) : zslice (h ++ c ++ r) (len h + len c) (len (h ++ c ++ r)) = r.
Proof.
  rewrite app_assoc, <- len_app. unfold zslice. rewrite (len_app (h ++ c)). unfold len.
  rewrite Nat2Z.id, drop_app_length. replace (Z.to_nat _) with (length r) by lia.
  apply take_ge. lia.
Qed.

Lemma Split_header k c rest : fits k c -> Forall is_byte c -> is_u64 (len (header k c ++ c ++ rest)) ->
  Split (header k c ++ c ++ rest) = Ret (inl (k, c, rest)).
Proof.
  intros Hf Hc Hu. unfold Split. rewrite readKind_header by done. cbn [mbind outcome_bind].
  pose proof (len_nonneg c). pose proof (len_nonneg (header k c)). pose proof (len_nonneg rest).
  assert (len (header k c ++ c ++ rest) = len (header k c) + len c + len rest) as El by (rewrite !len_app; lia).
  rewrite (wrap64_small (_ + _)) by (unfold_u64; lia).
  rewrite !slice_ok by lia. cbn [mbind outcome_bind]. by rewrite zslice_mid, zslice_end.
Qed.

(** ** Canonicity *)

Lemma readSize_sound b slen n : Forall is_byte b -> 1 <= slen <= 8 -> readSize b slen = Ret (inl n) ->
  exists rest, b = putint n ++ rest /\ len (putint n) = slen /\ 56 <= n /\ is_u64 n.
Proof.
  intros Hb Hs. unfold readSize. case_if; [done|]. bool_to_Z.
  set (l := take (Z.to_nat slen) b). set (rest := drop (Z.to_nat slen) b).
  assert (Eb : b = l ++ rest) by (symmetry; apply take_drop).
  assert (El : len l = slen) by (unfold l, len in *; rewrite length_take; lia).
  assert (Hlb : Forall is_byte l) by by apply Forall_take.
  clearbody l rest. subst b slen. rewrite readSize_val_be by (done || lia). case_if; [done|]. bool_to_Z.
  destruct l as [|x l']; [rewrite len_nil in Hs; lia|].
  change (index ((x :: l') ++ rest) 0) with (Ret x). cbn [mbind outcome_bind].
  case_if; [done|]. bool_to_Z. intros [= <-].
  assert (Ep : putint (be_val (x :: l')) = x :: l') by (apply putint_be_val; [done|lia|cbn; congruence]).
  exists rest. rewrite Ep. split; [done|]. split; [done|]. split; [done|].
  pose proof (be_val_bounds (x :: l') Hlb) as Hv.
  assert (256 ^ len (x :: l') <= 256 ^ 8) by (apply Z.pow_le_mono_r; lia).
  change (256 ^ 8) with two64 in *. unfold_u64. lia.
Qed.

Lemma take_drop_payload (h b : bytes) cs : is_u64 (len (h ++ b)) -> 0 <= cs ->
  (len (h ++ b) -! len h <? cs) = false -> exists c rest, b = c ++ rest /\ len c = cs.
Proof.
  intros Hu Hcs Hlt. apply Z.ltb_ge in Hlt. rewrite len_app in *. pose proof (len_nonneg h).
  pose proof (len_nonneg b). rewrite wrap64_small in Hlt by (unfold_u64; lia).
  exists (take (Z.to_nat cs) b), (drop (Z.to_nat cs) b). rewrite take_drop. split; [done|].
  unfold len in *. rewrite length_take. lia.
Qed.

Lemma small_sound (k : Kind) (t x : Z) (b : bytes) : 0 <= x < 256 -> is_u64 (len (x :: b)) ->
  0 <= x - t < 56 -> 0 <= t -> header k = (fun c => puthead t (t + 55) (len c)) ->
  (len (x :: b) -! 1 <? x - t) = false ->
  exists c rest, x :: b = header k c ++ c ++ rest /\ 1 = len (header k c) /\ x - t = len c.
Proof.
  intros Hx Hu Hr Ht Eh Hf. destruct (take_drop_payload [x] b (x - t)) as (c & rest & -> & Ec); [done|lia|done|].
  exists c, rest. rewrite Eh. unfold puthead, u8. rewrite Ec. replace (x - t <? 56) with true by lia.
  rewrite (Z.mod_small (x - t)) by lia. replace (t + (x - t)) with x by lia. by rewrite Z.mod_small by lia.
Qed.

Lemma long_sound (k : Kind) (t n x : Z) (b : bytes) : 0 <= x < 256 -> is_u64 (len (x :: b)) ->
  Forall is_byte b -> 56 <= t <= 247 -> 1 <= x - t <= 8 ->
  header k = (fun c => puthead (t - 55) t (len c)) -> readSize b (x - t) = Ret (inl n) ->
  (len (x :: b) -! (x - t + 1) <? n) = false ->
  exists c rest, x :: b = header k c ++ c ++ rest /\ x - t + 1 = len (header k c) /\ n = len c.
Proof.
  intros Hx Hu Hb Ht Hr Eh Hs Hf.
  destruct (readSize_sound b (x - t) n Hb Hr Hs) as (b' & -> & El & Hn & Hnu).
  destruct (take_drop_payload (x :: putint n) b' n) as (c & rest & -> & Ec).
  { done. } { unfold_u64; lia. }
  { by rewrite len_cons, El. }
  exists c, rest. rewrite Eh. unfold puthead, u8. rewrite Ec. replace (n <? 56) with false by lia.
  rewrite El, (Z.mod_small (x - t)) by lia. replace (t + (x - t)) with x by lia.
  rewrite Z.mod_small by lia. rewrite len_cons. split; [done|]. lia.
Qed.

(** What [readKind] accepts is a canonical encoding. *)
Lemma readKind_sound b k ts cs : Forall is_byte b -> is_u64 (len b) -> readKind b = Ret (inl (k, ts, cs)) ->
  exists c rest, b = header k c ++ c ++ rest /\ fits k c /\ ts = len (header k c) /\ cs = len c.
Proof.
  intros Hb Hu. destruct b as [|x b]; [done|]. apply Forall_cons in Hb as [Hx Hb]. unfold is_byte in Hx.
  cbn [readKind].
  destruct (Z.ltb_spec x 128).
  { case_if; [done|]. intros [= <- <- <-]. exists [x], b. split; [done|]. split; [|done].
    exists x. split; [done|lia]. }
  destruct (Z.ltb_spec x 184).
  { intros Hk. assert ((len (x :: b) -! 1 <? x - 128) = false /\
      match b with b1 :: _ => (x - 128 =? 1) && (b1 <? 128) = false | [] => True end /\
      k = KString /\ ts = 1 /\ cs = x - 128) as (Hf & Hcan & -> & -> & ->).
    { revert Hk. destruct b; repeat case_if; intros; by simplify_eq. }
    destruct (small_sound KString 128 x b) as (c & rest & E & E1 & E2); [lia|done|lia|lia|done|done|].
    exists c, rest. split; [done|]. split; [|done]. intros y ->. rewrite E2 in Hcan.
    change (len [y]) with 1 in *. cbn [header] in E. unfold puthead in E. cbn in E. injection E as _ ->.
    cbn in Hcan. bool_to_Z. lia. }
  destruct (Z.ltb_spec x 192).
  { destruct (readSize b (x - 183)) as [[n|e]|] eqn:Hs; cbn [mbind outcome_bind]; [|done|done].
    case_if; [done|]. intros [= <- <- <-].
    destruct (long_sound KString 183 n x b) as (c & rest & E & E1 & E2); [lia|done|done|lia|lia|done|done|done|].
    exists c, rest. split; [done|]. split; [|done]. intros y ->.
    destruct (readSize_sound b (x - 183) n Hb ltac:(lia) Hs) as (_ & _ & _ & Hn & _).
    change (len [y]) with 1 in E2. lia. }
  destruct (Z.ltb_spec x 248).
  { case_if; [done|]. intros [= <- <- <-].
    destruct (small_sound KList 192 x b) as (c & rest & E & E1 & E2); [lia|done|lia|lia|done|done|].
    by exists c, rest. }
  destruct (readSize b (x - 247)) as [[n|e]|] eqn:Hs; cbn [mbind outcome_bind]; [|done|done].
  case_if; [done|]. intros [= <- <- <-].
  destruct (long_sound KList 247 n x b) as (c & rest & E & E1 & E2); [lia|done|done|lia|lia|done|done|done|].
  by exists c, rest.
Qed.

Lemma Split_sound b k c rest : Forall is_byte b -> is_u64 (len b) -> Split b = Ret (inl (k, c, rest)) ->
  b = header k c ++ c ++ rest /\ fits k c.
Proof.
  intros Hb Hu H. pose proof H as H'. unfold Split in H'.
  destruct (readKind b) as [[[[k' ts] cs]|e]|] eqn:Hk; cbn [mbind outcome_bind] in H'; [|done|done].
  destruct (readKind_sound b k' ts cs Hb Hu Hk) as (c' & rest' & E & Hf & -> & ->).
  assert (Hc' : Forall is_byte c') by (rewrite E in Hb; by decompose_Forall).
  rewrite E in H, Hu. rewrite Split_header in H by done. by simplify_eq.
Qed.

(** ** The encoder buffer *)

(** Strings are byte strings. *)
Inductive item_ok : item -> Prop :=
  | ok_Str b : Forall is_byte b -> item_ok (Str b)
  | ok_Lst l : Forall item_ok l -> item_ok (Lst l).

Section item_induction.
Context (P : item -> Prop) (HS : forall b, P (Str b)) (HL : forall l, Forall P l -> P (Lst l)).
Fixpoint item_all (it : item) : P it :=
  match it with
  | Str b => HS b
  | Lst l => HL l ((fix go l : Forall P l :=
      match l with [] => Forall_nil_2 _ | x :: r => Forall_cons_2 _ _ _ (item_all x) (go r) end) l)
  end.
End item_induction.

(** The next list header, if any, does not start before position [n]. *)
Definition heads_from (n : Z) (hs : list listhead) : Prop :=
  match hs with [] => True | h :: _ => n <= offset h end.

(** [s] and [hs], written after [p], denote [out], whatever is written next; [k] is the size of
    the headers. *)
Record wrote (p s : bytes) (hs : list listhead) (k : Z) (out : bytes) : Prop := {
  w_size : len s + k = len out;
  w_heads : heads_from (len p) hs;
  w_copy : forall q hs', heads_from (len p + len s) hs' ->
    copyTo (p ++ s ++ q) (len p) (hs ++ hs') = out ++ copyTo (p ++ s ++ q) (len p + len s) hs';
}.

Lemma copyTo_from (p s q : bytes) hs : heads_from (len p + len s) hs ->
  copyTo (p ++ s ++ q) (len p) hs = s ++ copyTo (p ++ s ++ q) (len p + len s) hs.
Proof.
  intros Hh. assert (Hd : drop (Z.to_nat (len p)) (p ++ s ++ q) = s ++ q).
  { unfold len. by rewrite Nat2Z.id, drop_app_length. }
  assert (Hd2 : drop (Z.to_nat (len p + len s)) (p ++ s ++ q) = q).
  { rewrite app_assoc, <- len_app. unfold len. by rewrite Nat2Z.id, drop_app_length. }
  destruct hs as [|h hs]; cbn [copyTo].
  - by rewrite Hd, Hd2.
  - cbn in Hh. rewrite (app_assoc s). f_equal. unfold zslice. rewrite Hd, Hd2.
    rewrite take_app. replace (take (Z.to_nat (offset h - len p)) s) with s.
    2: { symmetry. apply take_ge. unfold len in *. lia. }
    do 2 f_equal. unfold len in *. lia.
Qed.

Lemma wrote_str p s : wrote p s [] 0 s.
Proof. split; [lia|done|]. intros q hs' Hh. by apply copyTo_from. Qed.

Lemma wrote_nil p : wrote p [] [] 0 [].
Proof. apply wrote_str. Qed.

Lemma heads_from_weaken n m hs : n <= m -> heads_from m hs -> heads_from n hs.
Proof. destruct hs; cbn; [done|lia]. Qed.

Lemma wrote_app p s1 h1 k1 o1 s2 h2 k2 o2 :
  wrote p s1 h1 k1 o1 -> wrote (p ++ s1) s2 h2 k2 o2 ->
  wrote p (s1 ++ s2) (h1 ++ h2) (k1 + k2) (o1 ++ o2).
Proof.
  intros [Sz1 Hd1 C1] [Sz2 Hd2 C2]. rewrite len_app in Hd2. pose proof (len_nonneg s1). split.
  - rewrite !len_app. lia.
  - destruct h1; cbn in *; [|done]. by eapply heads_from_weaken; [|exact Hd2]; lia.
  - intros q hs' Hh. rewrite len_app in Hh.
    rewrite <- !(app_assoc h1), <- !(app_assoc s1), C1.
    2: { destruct h2; cbn in *; [|done]. eapply heads_from_weaken; [|exact Hh]. pose proof (len_nonneg s2). lia. }
    specialize (C2 q hs'). rewrite len_app, <- app_assoc in C2.
    rewrite <- (app_assoc o1). f_equal. rewrite len_app, Z.add_assoc. apply C2. by rewrite Z.add_assoc in Hh.
Qed.

(** A list: its header is put in front of what its elements wrote. *)
Lemma wrote_list p s hs k out : is_u64 (len out) -> wrote p s hs k out ->
  wrote p s (mkListhead (len p) (len out) :: hs) (len (puthead 192 247 (len out)) + k)
    (puthead 192 247 (len out) ++ out).
Proof.
  intros Hu [Sz Hd Cp]. split; cbn.
  - rewrite len_app. lia.
  - lia.
  - intros q hs' Hh. rewrite Cp by done. unfold zslice.
    replace (Z.to_nat (len p - len p)) with 0%nat by lia. rewrite take_0. cbn [app]. unfold listhead_encode. cbn [size]. by rewrite app_assoc.
Qed.

Lemma writeBytes_eq b d : writeBytes b d = append_str b (encode_bytes d).
Proof.
  unfold writeBytes, encode_bytes, encodeStringHeader, puthead, append_str.
  repeat case_match; cbn; by rewrite <- ?app_assoc.
Qed.

Lemma headsize_puthead n : is_u64 n ->
  (if n <? 56 then 1 else 1 + intsize n) = len (puthead 192 247 n).
Proof. intros Hu. rewrite len_puthead by (unfold_u64; lia). case_if; [done|]. by rewrite putint_len. Qed.

(** Encoding an item appends its reference encoding. *)
Definition writes (it : item) : Prop := forall p heads lh, is_u64 (len (encode it)) ->
  exists s hs k, writeItem (mkBuf p heads lh) it = Ret (mkBuf (p ++ s) (heads ++ hs) (lh + k)) /\
    wrote p s hs k (encode it).

Fixpoint writeItems (b : encBuffer) (l : list item) : Outcome encBuffer :=
  match l with [] => Ret b | x :: r => b ← writeItem b x; writeItems b r end.

Lemma writeItems_ok l p heads lh : Forall writes l -> is_u64 (len (concat (encode <$> l))) ->
  exists s hs k, writeItems (mkBuf p heads lh) l = Ret (mkBuf (p ++ s) (heads ++ hs) (lh + k)) /\
    wrote p s hs k (concat (encode <$> l)).
Proof.
  intros Hl. revert p heads lh. induction Hl as [|it l Hit Hl IH]; intros p heads lh Hu.
  - exists [], [], 0. rewrite !app_nil_r, Z.add_0_r. split; [done|apply wrote_nil].
  - cbn in Hu. rewrite len_app in Hu. pose proof (len_nonneg (encode it)).
    pose proof (len_nonneg (concat (encode <$> l))).
    destruct (Hit p heads lh) as (s1 & h1 & k1 & E1 & W1); [unfold_u64; lia|].
    destruct (IH (p ++ s1) (heads ++ h1) (lh + k1)) as (s2 & h2 & k2 & E2 & W2); [unfold_u64; lia|].
    exists (s1 ++ s2), (h1 ++ h2), (k1 + k2). cbn. rewrite E1. cbn. rewrite E2, <- !app_assoc, Z.add_assoc.
    split; [done|]. by apply wrote_app.
Qed.

Lemma writeItem_list b l : l <> [] -> writeItem b (Lst l) =
  (let '(i, b) := buf_list b in b ← writeItems b l; listEnd b i).
Proof.
  intros Hl. destruct l as [|x l]; [done|]. cbn [writeItem]. destruct (buf_list b) as [i b'].
  cbn [writeItems]. destruct (writeItem b' x) as [b1|]; [|done]. cbn [mbind outcome_bind].
  match goal with |- mbind _ (?f b1 l) = _ => assert (Hgo : forall l b, f b l = writeItems b l) end.
  { clear. induction l as [|y l IH]; intros b; [done|]. cbn. destruct (writeItem b y); [|done]. cbn. apply IH. }
  by rewrite Hgo.
Qed.

Lemma listEnd_ok p s heads hs lh k : is_u64 (len s + k) ->
  listEnd (mkBuf (p ++ s) ((heads ++ [mkListhead (len p) lh]) ++ hs) (lh + k)) (len heads) =
    Ret (mkBuf (p ++ s) (heads ++ mkListhead (len p) (len s + k) :: hs)
      (lh + (len (puthead 192 247 (len s + k)) + k))).
Proof.
  intros Hu. rewrite <- (app_assoc heads). cbn [app]. unfold listEnd. cbn [lheads].
  assert (Hi : index (heads ++ mkListhead (len p) lh :: hs) (len heads) = Ret (mkListhead (len p) lh)).
  { unfold index. replace (0 <=? len heads) with true by (pose proof (len_nonneg heads); lia).
    unfold len. by rewrite Nat2Z.id, list_lookup_middle. }
  rewrite Hi. cbn [mbind outcome_bind offset size]. unfold bufsize. cbn [str lhsize]. rewrite len_app.
  replace (len p + len s + (lh + k) - len p - lh) with (len s + k) by lia.
  rewrite <- headsize_puthead by done. unfold len at 1.
  rewrite Nat2Z.id, insert_app_r_alt, Nat.sub_diag by lia. cbn [insert list_insert].
  do 2 f_equal. case_if; lia.
Qed.

Lemma writeItem_ok it : writes it.
Proof.
  induction it as [b|l IH] using item_all; intros p heads lh Hu.
  - exists (encode_bytes b), [], 0. cbn [writeItem encode]. rewrite writeBytes_eq, app_nil_r, Z.add_0_r.
    split; [done|apply wrote_str].
  - destruct (decide (l = [])) as [->|Hl].
    { exists [192], [], 0. rewrite app_nil_r, Z.add_0_r. split; [done|apply wrote_str]. }
    cbn [encode] in *. set (out := concat (encode <$> l)) in *. rewrite len_app in Hu.
    assert (Ho : is_u64 (len out)).
    { pose proof (len_nonneg out). pose proof (len_nonneg (puthead 192 247 (len out))). unfold_u64. lia. }
    destruct (writeItems_ok l p (heads ++ [mkListhead (len p) lh]) lh IH Ho) as (s & hs & k & E & W).
    exists s, (mkListhead (len p) (len out) :: hs), (len (puthead 192 247 (len out)) + k).
    split; [|by apply wrote_list]. rewrite writeItem_list by done. cbn [buf_list str lheads lhsize].
    rewrite E. cbn [mbind outcome_bind]. pose proof (w_size _ _ _ _ _ W) as Sz. fold out in Sz. rewrite <- Sz.
    apply listEnd_ok. by rewrite Sz.
Qed.

(** ** Splitting what was encoded *)

Lemma encode_bytes_kind d : Forall is_byte d ->
  exists k, k <> KList /\ encode_bytes d = header k d ++ d /\ fits k d.
Proof.
  intros Hd. destruct d as [|x d]; [by exists KString|].
  destruct d as [|y d]; [|exists KString; split; [done|]; split; [done|intros ? ?; simplify_eq]].
  apply Forall_cons in Hd as [Hx _]. unfold is_byte in Hx. cbn [encode_bytes].
  destruct (Z.leb_spec x 127).
  - exists KByte. split; [done|]. split; [done|]. exists x. split; [done|lia].
  - exists KString. split; [done|]. split; [done|]. intros z [= <-]. lia.
Qed.

Lemma encode_list l : encode (Lst l) = header KList (concat (encode <$> l)) ++ concat (encode <$> l).
Proof. done. Qed.

Lemma is_byte_u8 x : is_byte (u8 x).
Proof. apply Z.mod_pos_bound. lia. Qed.

Lemma puthead_bytes t1 t2 n : is_u64 n -> Forall is_byte (puthead t1 t2 n).
Proof.
  intros Hn. unfold puthead. case_if; [repeat constructor; apply is_byte_u8|].
  constructor; [apply is_byte_u8|by apply putint_bytes].
Qed.

Lemma encode_ok it : item_ok it -> is_u64 (len (encode it)) -> Forall is_byte (encode it).
Proof.
  induction it as [b|l IH] using item_all; intros Hi Hu; inversion Hi as [? Hb|? Hl]; subst.
  - cbn [encode] in *. destruct (encode_bytes_kind b Hb) as (k & _ & E & _). rewrite E, len_app in Hu. pose proof (len_nonneg b). pose proof (len_nonneg (header k b)).
    rewrite E. apply Forall_app. split; [|done].
    destruct k; [constructor|apply puthead_bytes; unfold_u64; lia..].
  - rewrite encode_list, len_app in *. set (c := concat (encode <$> l)) in *.
    pose proof (len_nonneg c). pose proof (len_nonneg (header KList c)).
    apply Forall_app. split; [apply puthead_bytes; unfold_u64; lia|].
    assert (Hc : is_u64 (len c)) by (unfold_u64; lia). clear Hi Hu H H0. unfold c in *. clear c.
    induction l as [|x l IHl]; [constructor|]. cbn in *. rewrite len_app in Hc.
    pose proof (len_nonneg (encode x)). pose proof (len_nonneg (concat (encode <$> l))).
    apply Forall_cons in IH as [IHx IH], Hl as [Hx Hl].
    apply Forall_app. split; [apply IHx; [done|unfold_u64; lia]|apply IHl; [done..|unfold_u64; lia]].
Qed.

Lemma payload_ok l : item_ok (Lst l) -> is_u64 (len (encode (Lst l))) ->
  Forall is_byte (concat (encode <$> l)).
Proof.
  intros Hi Hu. pose proof (encode_ok _ Hi Hu) as H. rewrite encode_list in H. by apply Forall_app in H as [_ H].
Qed.

Lemma Split_list l rest : item_ok (Lst l) -> is_u64 (len (encode (Lst l) ++ rest)) ->
  Split (encode (Lst l) ++ rest) = Ret (inl (KList, concat (encode <$> l), rest)).
Proof.
  intros Hi Hu. pose proof Hu as Hu'. rewrite len_app in Hu'. pose proof (len_nonneg rest).
  pose proof (len_nonneg (encode (Lst l))).
  rewrite encode_list, <- app_assoc in *. apply Split_header; [done| |done].
  apply payload_ok; [done|]. rewrite encode_list. unfold_u64. lia.
Qed.

(** Every item is split off with a kind that shows whether it is a list. *)
Lemma Split_encode it rest : item_ok it -> is_u64 (len (encode it ++ rest)) ->
  exists k c, Split (encode it ++ rest) = Ret (inl (k, c, rest)) /\
    encode it = header k c ++ c /\ fits k c /\ Forall is_byte c /\
    match it with Str b => k <> KList /\ c = b | Lst l => k = KList /\ c = concat (encode <$> l) end.
Proof.
  intros Hi Hu. inversion Hi as [b Hb|l Hl]; subst.
  - destruct (encode_bytes_kind b Hb) as (k & Hk & E & Hf). exists k, b. cbn [encode] in *.
    split; [|done]. rewrite E, <- app_assoc in *. by apply Split_header.
  - exists KList, (concat (encode <$> l)). split; [by apply Split_list|]. split; [done|]. split; [done|].
    split; [|done]. rewrite len_app in Hu. pose proof (len_nonneg rest). pose proof (len_nonneg (encode (Lst l))).
    apply payload_ok; [done|unfold_u64; lia].
Qed.

Lemma encode_nonempty it : 1 <= len (encode it).
Proof.
  assert (Hh : forall t1 t2 n (c : bytes), 1 <= len (puthead t1 t2 n ++ c)).
  { intros. rewrite len_app. pose proof (len_nonneg c). unfold puthead. case_if; rewrite ?len_cons, ?len_nil; [lia|].
    pose proof (len_nonneg (putint n)). lia. }
  destruct it as [b|l]; [|apply Hh]. cbn. unfold encode_bytes. repeat case_match; try apply Hh. done.
Qed.

(** No encoding is a proper prefix of another one. *)
Lemma encode_prefix_free it1 : forall it2 r1 r2, item_ok it1 -> item_ok it2 ->
  is_u64 (len (encode it1 ++ r1)) -> encode it1 ++ r1 = encode it2 ++ r2 -> it1 = it2 /\ r1 = r2.
Proof.
  induction it1 as [b1|l1 IH] using item_all; intros it2 r1 r2 H1 H2 Hu E.
  all: destruct (Split_encode _ r1 H1 Hu) as (k & c & Es & _ & _ & _ & Hk).
  all: pose proof Hu as Hu2; rewrite E in Hu2;
    destruct (Split_encode it2 r2 H2 Hu2) as (k' & c' & Es' & _ & _ & _ & Hk').
  all: rewrite E, Es' in Es; injection Es as -> -> ->.
  - destruct Hk as [Hk ->]. destruct it2; [by destruct Hk' as [_ ->]|by destruct Hk'].
  - destruct Hk as [-> ->]. destruct it2 as [b2|l2]; [by destruct Hk'|]. destruct Hk' as [_ Hc].
    split; [|done]. f_equal. rewrite encode_list, !len_app in Hu.
    assert (Hlen : is_u64 (len (concat (encode <$> l1)))).
    { pose proof (len_nonneg (concat (encode <$> l1))). pose proof (len_nonneg r1).
      pose proof (len_nonneg (header KList (concat (encode <$> l1)))). unfold_u64. lia. }
    inversion H1 as [|? Hl1]; inversion H2 as [|? Hl2]; subst. clear -IH Hl1 Hl2 Hc Hlen.
    revert l2 Hl2 Hc Hlen. induction l1 as [|x1 l1 IHl]; intros [|x2 l2] Hl2 Hc Hlen; [done| | |]; cbn in *.
    1,2: apply (f_equal len) in Hc; rewrite len_app, len_nil in Hc.
    + pose proof (encode_nonempty x2). pose proof (len_nonneg (concat (encode <$> l2))). lia.
    + pose proof (encode_nonempty x1). pose proof (len_nonneg (concat (encode <$> l1))). lia.
    + apply Forall_cons in IH as [IHx IH], Hl1 as [Hx1 Hl1], Hl2 as [Hx2 Hl2].
      destruct (IHx x2 _ _ Hx1 Hx2 Hlen Hc) as [-> Hc']. f_equal. apply IHl; try done.
      rewrite len_app in Hlen. pose proof (len_nonneg (encode x2)).
      pose proof (len_nonneg (concat (encode <$> l1))). unfold_u64. lia.
Qed.

Lemma CountValues_loop_ok l fuel i : Forall item_ok l -> is_u64 (len (concat (encode <$> l))) ->
  (length l <= fuel)%nat -> CountValues_loop fuel (concat (encode <$> l)) i = Ret (inl (i + len l)).
Proof.
  intros Hl. revert fuel i. induction Hl as [|x l Hx Hl IH]; intros fuel i Hu Hf.
  - destruct fuel; cbn; by rewrite Z.add_0_r.
  - destruct fuel as [|fuel]; [cbn in Hf; lia|]. cbn [fmap list_fmap concat] in *.
    destruct (Split_encode x _ Hx Hu) as (k & c & _ & E & Hf' & Hc & _).
    pose proof (encode_nonempty x) as Hne. rewrite len_app in Hu.
    pose proof (len_nonneg (concat (encode <$> l))).
    destruct (encode x ++ concat (encode <$> l)) as [|y t] eqn:Ex.
    { apply (f_equal len) in Ex. rewrite len_app, len_nil in Ex. lia. }
    cbn [CountValues_loop]. rewrite <- Ex, E, <- app_assoc.
    rewrite readKind_header; [|done|done|rewrite app_assoc, <- E, len_app; done]. cbn [mbind outcome_bind].
    pose proof (len_nonneg c). pose proof (len_nonneg (header k c)).
    rewrite E, len_app in Hu. rewrite (wrap64_small (_ + _)) by (unfold_u64; lia).
    rewrite slice_ok by (rewrite ?len_app; lia). cbn [mbind outcome_bind]. rewrite zslice_end.
    rewrite IH, len_cons; [do 2 f_equal; lia|unfold_u64; lia|cbn in Hf; lia].
Qed.

Lemma concat_encode_length l : (length l <= length (concat (encode <$> l)))%nat.
Proof.
  induction l as [|x l IH]; cbn; [lia|]. rewrite length_app. pose proof (encode_nonempty x). unfold len in *. lia.
Qed.

(** *** Integers *)

(** The minimal big-endian bytes of an integer. *)
Definition intBytes (x : Z) : bytes := if x =? 0 then [] else putint x.

Lemma AppendUint64_eq x : is_u64 x -> AppendUint64 [] x = encode_bytes (intBytes x).
Proof.
  intros Hx. unfold AppendUint64, intBytes. destruct (Z.eqb_spec x 0); [done|]. cbn [app].
  pose proof (putint_len x Hx) as Hl. destruct (intsize_spec x Hx) as (Hr & Hlt & Hge).
  assert (Hone : x < 256 -> putint x = [x]).
  { intros Hs. unfold putint. change (2 ^ 8) with 256. replace (x <? 256) with true by lia.
    unfold u8. unfold_u64. by rewrite Z.mod_small by lia. }
  destruct (Z.ltb_spec x 128).
  { rewrite Hone by lia. cbn. replace (x <=? 127) with true by lia. unfold u8. unfold_u64.
    by rewrite Z.mod_small by lia. }
  destruct (Z.ltb_spec x 256).
  { rewrite Hone by lia. cbn. by replace (x <=? 127) with false by lia. }
  assert (2 <= intsize x).
  { destruct (Z.eq_dec (intsize x) 1) as [E1|]; [|lia]. rewrite E1 in Hlt. change (256 ^ 1) with 256 in Hlt. lia. }
  assert (E : encode_bytes (putint x) = puthead 128 183 (len (putint x)) ++ putint x).
  { destruct (putint x) as [|a [|b l]]; [done| |done]. change (len [a]) with 1 in Hl. lia. }
  rewrite E. unfold puthead, u8. replace (len (putint x) <? 56) with true by lia.
  rewrite (Z.mod_small (len (putint x))) by lia. by rewrite Z.mod_small by lia.
Qed.

Lemma intBytes_ok x : is_u64 x -> Forall is_byte (intBytes x).
Proof. intros Hx. unfold intBytes. case_if; [constructor|by apply putint_bytes]. Qed.

Lemma putint_one x : is_u64 x -> len (putint x) = 1 -> putint x = [x].
Proof.
  intros Hx Hl. pose proof (putint_val x Hx) as Hv. destruct (putint x) as [|a [|b l]]; [done| |].
  - change (be_val [a]) with a in Hv. by subst.
  - rewrite !len_cons in Hl. pose proof (len_nonneg l). lia.
Qed.

Lemma readSize_exact l n : Forall is_byte l -> 1 <= len l <= 8 -> readSize l (len l) = Ret (inl n) ->
  l = putint n /\ 56 <= n /\ is_u64 n.
Proof.
  intros Hb Hl H. destruct (readSize_sound l (len l) n Hb Hl H) as (r & E & El & Hn & Hu).
  split; [|done]. rewrite E in El. rewrite len_app in El. destruct r; [by rewrite app_nil_r in E|].
  rewrite len_cons in El. pose proof (len_nonneg r). lia.
Qed.

Lemma split_string_encode d rest : Forall is_byte d -> is_u64 (len (encode_bytes d ++ rest)) ->
  SplitString (encode_bytes d ++ rest) = Ret (inl (d, rest)).
Proof.
  intros Hd Hu. destruct (Split_encode (Str d) rest (ok_Str d Hd) Hu) as (k & c & Es & _ & _ & _ & Hk & ->).
  unfold SplitString. cbn [encode] in Es. rewrite Es. cbn [mbind outcome_bind]. by destruct k.
Qed.

Lemma split_canonical_string b c rest : Forall is_byte b -> is_u64 (len b) ->
  SplitString b = Ret (inl (c, rest)) -> b = encode (Str c) ++ rest.
Proof.
  intros Hb Hu. unfold SplitString.
  destruct (Split b) as [[[[k c'] rest']|e]|] eqn:E; cbn [mbind outcome_bind]; [|done..].
  destruct (Split_sound _ _ _ _ Hb Hu E) as [Eb Hf].
  destruct k; intros H; simplify_eq.
  - destruct Hf as (x & -> & Hx). cbn. by replace (x <=? 127) with true by lia.
  - cbn [encode header]. unfold encode_bytes. rewrite app_assoc. f_equal.
    destruct c as [|x [|y c]]; [done| |done]. specialize (Hf x eq_refl).
    by replace (x <=? 127) with false by lia.
Qed.

Lemma SplitUint64_sound b rest x : Forall is_byte b -> is_u64 (len b) ->
  SplitUint64 b = Ret (inl (x, rest)) -> is_u64 x /\ b = AppendUint64 [] x ++ rest.
Proof.
  intros Hb Hu.
  intros H. unfold SplitUint64 in H.
  destruct (SplitString b) as [[[c r]|e]|] eqn:E; cbn [mbind outcome_bind] in H; [|done..].
  pose proof (split_canonical_string b c r Hb Hu E) as Hcan. rewrite Hcan in Hb. apply Forall_app in Hb as [Hb _].
  assert (Hcb : Forall is_byte c).
  { destruct (Z.eq_dec (len c) 1) as [E1|].
    - destruct c as [|y [|z c]]; [done| |rewrite !len_cons in E1; pose proof (len_nonneg c); lia].
      cbn in Hb. destruct (y <=? 127); [done|]. by apply Forall_app in Hb as [_ Hb].
    - assert (Ee : encode_bytes c = puthead 128 183 (len c) ++ c) by (destruct c as [|y [|z c]]; done).
      cbn in Hb. rewrite Ee in Hb. by apply Forall_app in Hb as [_ Hb]. }
  assert (Hgoal : is_u64 x -> r = rest -> c = intBytes x -> is_u64 x /\ b = AppendUint64 [] x ++ rest).
  { intros Hx -> ->. split; [done|]. by rewrite AppendUint64_eq. }
  destruct c as [|y [|z c]].
  - simplify_eq. by apply Hgoal.
  - apply Forall_cons in Hcb as [Hy _]. unfold is_byte in Hy.
    destruct (Z.eqb_spec y 0); simplify_eq. apply Hgoal; [unfold_u64; lia|done|].
    unfold intBytes, putint, u8. replace (x =? 0) with false by lia.
    change (2 ^ 8) with 256. replace (x <? 256) with true by lia. by rewrite Z.mod_small by lia.
  - set (l := y :: z :: c) in *. destruct (Z.ltb_spec 8 (len l)); [done|].
    assert (Hl : 2 <= len l) by (unfold l; rewrite !len_cons; pose proof (len_nonneg c); lia).
    destruct (readSize l (len l)) as [[n|e]|] eqn:Er; cbn [mbind outcome_bind] in H; [|done..].
    injection H as -> ->. destruct (readSize_exact l x Hcb ltac:(lia) Er) as (El & Hn & Hxu).
    apply Hgoal; [done|done|]. unfold intBytes. by replace (x =? 0) with false by lia.
Qed.

Lemma SplitUint64_complete rest x : is_u64 x -> is_u64 (len (AppendUint64 [] x ++ rest)) ->
  SplitUint64 (AppendUint64 [] x ++ rest) = Ret (inl (x, rest)).
Proof.
  intros Hx Hu. rewrite AppendUint64_eq in * by done.
  assert (Es : SplitString (encode_bytes (intBytes x) ++ rest) = Ret (inl (intBytes x, rest))).
  { apply (split_string_encode (intBytes x)); [by apply intBytes_ok|done]. }
  unfold SplitUint64. rewrite Es. cbn [mbind outcome_bind].
  unfold intBytes. destruct (Z.eqb_spec x 0) as [->|Hx0]; [done|].
  pose proof (putint_len x Hx) as Hl. destruct (intsize_spec x Hx) as (Hr & _ & Hge).
  destruct (putint x) as [|y [|z c]] eqn:Ep.
  - rewrite len_nil in Hl. lia.
  - rewrite <- Ep in Hl. rewrite (putint_one x Hx) in Ep by (rewrite Ep; done). simplify_eq.
    by replace (y =? 0) with false by lia.
  - rewrite <- Ep. rewrite Ep at 1. rewrite Ep, Hl. replace (8 <? intsize x) with false by lia.
    rewrite !len_cons in Hl. pose proof (len_nonneg c). specialize (Hge ltac:(lia)).
    assert (256 ^ 1 <= 256 ^ (intsize x - 1)) by (apply Z.pow_le_mono_r; lia). change (256 ^ 1) with 256 in *.
    pose proof (readSize_putint x [] ltac:(lia) Hx) as Er. rewrite app_nil_r, putint_len in Er by done.
    rewrite <- Ep, Er. done.
Qed.

(** *** Whole values *)

Lemma writeItem_bytes it : is_u64 (len (encode it)) ->
  exists b, writeItem emptyBuf it = Ret b /\ makeBytes b = encode it.
Proof.
  intros Hu. unfold makeBytes, emptyBuf.
  destruct (writeItem_ok it [] [] 0 Hu) as (s & hs & k & E & W). eexists. split; [done|]. cbn [app str lheads].
  pose proof (w_copy _ _ _ _ _ W [] [] I) as H. rewrite !app_nil_r in H. cbn [app] in H.
  rewrite len_nil in H. rewrite H. cbn [copyTo]. unfold len. rewrite Z.add_0_l, Nat2Z.id, drop_all.
  by rewrite app_nil_r.
Qed.

Lemma split_list_encode l rest : item_ok (Lst l) -> is_u64 (len (encode (Lst l) ++ rest)) ->
  SplitList (encode (Lst l) ++ rest) = Ret (inl (concat (encode <$> l), rest)) /\
  CountValues (concat (encode <$> l)) = Ret (inl (len l)).
Proof.
  intros Hi Hu. destruct (Split_encode (Lst l) rest Hi Hu) as (k & c & Es & E & _ & Hc & -> & ->).
  unfold SplitList. rewrite Es. cbn [mbind outcome_bind]. split; [done|].
  rewrite E, !len_app in Hu. pose proof (len_nonneg rest). pose proof (len_nonneg (concat (encode <$> l))).
  pose proof (len_nonneg (header KList (concat (encode <$> l)))).
  unfold CountValues. inversion Hi. rewrite CountValues_loop_ok; [done|done|unfold_u64; lia|].
  apply concat_encode_length.
Qed.

(** ** Theorems *)

(** The encoder buffer, which collects string data and list headers separately and patches the
    size of a list when it ends, produces the reference encoding of every value. *)
Theorem EncodeToBytes_correct (it : item) : is_u64 (len (encode it)) -> EncodeToBytes it = Ret (encode it).
Proof.
  intros Hu. unfold EncodeToBytes. destruct (writeItem_bytes it Hu) as (b & -> & E). cbn [mbind outcome_bind].
  by rewrite E.
Qed.

(** Splitting recovers what was encoded: the content of a string, the encoded elements of a list
    and their number, and the input that follows; and an encoding determines its value: it is not
    a prefix of the encoding of any other value. *)
Theorem split_encode_roundtrip (it it' : item) (rest rest' : bytes) :
  item_ok it -> item_ok it' -> is_u64 (len (encode it ++ rest)) ->
  match it with
  | Str b => SplitString (encode it ++ rest) = Ret (inl (b, rest))
  | Lst l => SplitList (encode it ++ rest) = Ret (inl (concat (encode <$> l), rest)) /\
             CountValues (concat (encode <$> l)) = Ret (inl (len l))
  end /\
  (encode it ++ rest = encode it' ++ rest' -> it = it' /\ rest = rest').
Proof.
  intros Hi Hi' Hu. split; [|by apply encode_prefix_free].
  destruct it as [b|l]; [apply split_string_encode; [by inversion Hi|done]|by apply split_list_encode].
Qed.

(** Only canonical encodings are accepted: whatever [SplitString] or [SplitList] splits off is the
    one encoding of its content, without leading zeroes in the size and without a long form for a
    short value. *)
Theorem split_canonical (b c rest : bytes) : Forall is_byte b -> is_u64 (len b) ->
  (SplitString b = Ret (inl (c, rest)) -> b = encode (Str c) ++ rest) /\
  (SplitList b = Ret (inl (c, rest)) -> b = puthead 192 247 (len c) ++ c ++ rest).
Proof.
  intros Hb Hu. split; [by apply split_canonical_string|]. unfold SplitList.
  destruct (Split b) as [[[[k c'] rest']|e]|] eqn:E; cbn [mbind outcome_bind]; [|done..].
  destruct (Split_sound _ _ _ _ Hb Hu E) as [Eb _]. by destruct k; intros [= -> ->].
Qed.

(** An integer is decoded to itself, and [SplitUint64] accepts only the minimal encoding that
    [AppendUint64] and the encoder buffer write. *)
Theorem SplitUint64_roundtrip (b rest : bytes) (x : Z) :
  Forall is_byte b -> is_u64 (len b) ->
  SplitUint64 b = Ret (inl (x, rest)) <-> is_u64 x /\ b = AppendUint64 [] x ++ rest.
Proof.
  intros Hb Hu. split; [by apply SplitUint64_sound|]. intros [Hx ->]. by apply SplitUint64_complete.
Qed.

(** ** Witnesses *)

Definition demo_item : item := Lst [Str [100; 111; 103]; Lst []; Str [200]].

Lemma demo_item_ok : item_ok demo_item.
Proof. repeat constructor; done. Qed.

Lemma EncodeToBytes_correct_witness : EncodeToBytes demo_item = Ret [199; 131; 100; 111; 103; 192; 129; 200].
Proof. exact (EncodeToBytes_correct demo_item ltac:(by split)). Defined.

Lemma split_encode_roundtrip_witness :
  SplitList [199; 131; 100; 111; 103; 192; 129; 200; 9] =
    Ret (inl ([131; 100; 111; 103; 192; 129; 200], [9])) /\
  CountValues [131; 100; 111; 103; 192; 129; 200] = Ret (inl 3).
Proof.
  exact (proj1 (split_encode_roundtrip demo_item demo_item [9] [9] demo_item_ok demo_item_ok ltac:(by split))).
Defined.

Lemma split_canonical_witness : [131; 1; 2; 3; 9] = encode (Str [1; 2; 3]) ++ [9].
Proof.
  refine (proj1 (split_canonical [131; 1; 2; 3; 9] [1; 2; 3] [9] _ _) eq_refl);
    [by repeat (constructor; [done|])|by split].
Defined.

Lemma SplitUint64_roundtrip_witness : SplitUint64 [130; 1; 0; 7] = Ret (inl (256, [7])).
Proof.
  apply (SplitUint64_roundtrip [130; 1; 0; 7] [7] 256);
    [by repeat (constructor; [done|])|by split|split; [by split|reflexivity]].
Defined.
