(* ===== verification/RlpStream.v ===== *)
(** * The RLP stream decoder ([rlp/decode.go], [type Stream])

    The stream reads from a byte slice ([sliceReader], [bytes.Reader]).  Its methods return a value or
    an error and change the stream in both cases; a panic of the code is a [Fail].  The buffer
    [uintbuf] is filled before it is used, so its contents are not part of the state. *)

From S2P Require Import Prelude Bytes Rlp.

Set Default Proof Using "Type".

(** [type Stream struct]: [s_kind] is [None] for -1, the head of [stack] is the innermost list. *)
Record Stream := mkStream {
  s_r : bytes;
  remaining : Z;
  s_size : Z;
  kinderr : option rlperror;
  stack : list Z;
  s_kind : option Kind;
  byteval : Z;
  limited : bool;
}.

Definition with_r (r : bytes) (s : Stream) : Stream :=
  mkStream r (remaining s) (s_size s) (kinderr s) (stack s) (s_kind s) (byteval s) (limited s).
Definition with_remaining (n : Z) (s : Stream) : Stream :=
  mkStream (s_r s) n (s_size s) (kinderr s) (stack s) (s_kind s) (byteval s) (limited s).
Definition with_stack (l : list Z) (s : Stream) : Stream :=
  mkStream (s_r s) (remaining s) (s_size s) (kinderr s) l (s_kind s) (byteval s) (limited s).
Definition with_byteval (b : Z) (s : Stream) : Stream :=
  mkStream (s_r s) (remaining s) (s_size s) (kinderr s) (stack s) (s_kind s) b (limited s).
(** [s.kind, s.size, s.kinderr = kind, size, err] *)
Definition with_ahead (k : option Kind) (size : Z) (e : option rlperror) (s : Stream) : Stream :=
  mkStream (s_r s) (remaining s) size e (stack s) k (byteval s) (limited s).
(** [s.kind = -1] *)
Definition rearm (s : Stream) : Stream := with_ahead None (s_size s) (kinderr s) s.

(** ** Methods that return a value or an error *)

Abbreviation D A := (ST Stream (A + rlperror)).

Definition d_ret {A} (a : A) : D A := mret (inl a).
Definition d_err {A} (e : rlperror) : D A := mret (inr e).
Definition d_bind {A B} (m : D A) (k : A -> D B) : D B :=
  r ← m; match r with inl a => k a | inr e => mret (inr e) end.
Definition d_do {A} (m : ST Stream A) : D A := a ← m; d_ret a.

Notation "'let!' p := m 'in' k" := (d_bind m (fun p => k)) (at level 10, p pattern, k at level 200).

(** ** Limits and reading *)

(** [listLimit]: [None] outside of any list *)
Definition listLimit (s : Stream) : option Z := head (stack s).

(** [if inList, limit := s.listLimit(); inList { s.stack[len(s.stack)-1] = limit - n }] *)
Definition shrinkList (n : Z) (s : Stream) : Stream :=
  with_stack (match stack s with [] => [] | limit :: rest => (limit -! n) :: rest end) s.

Definition willRead (n : Z) : D () :=
  _ ← st_modify rearm;
  limit ← st_gets listLimit;
  if (match limit with Some limit => limit <? n | None => false end : bool) then d_err ErrElemTooLarge
  else
    _ ← st_modify (shrinkList n);
    s ← st_get;
    if limited s then
      if remaining s <? n then d_err ErrValueTooLarge
      else d_do (st_modify (with_remaining (remaining s -! n)))
    else d_ret tt.

Definition readByte : D Z :=
  let! _ := willRead 1 in
  s ← st_get;
  match s_r s with
  | [] => d_err ErrUnexpectedEOF
  | b :: r => let! _ := d_do (st_put (with_r r s)) in d_ret b
  end.

(** [readFull(buf)] with a buffer of [n] bytes: the bytes read.  What is there is consumed also if it
    is not enough. *)
Definition readFull (n : Z) : D bytes :=
  let! _ := willRead n in
  s ← st_get;
  let! _ := d_do (st_put (with_r (drop (Z.to_nat n) (s_r s)) s)) in
  if len (s_r s) <? n then d_err ErrUnexpectedEOF else d_ret (take (Z.to_nat n) (s_r s)).

Definition readUint (size : Z) : D Z :=
  if size =? 0 then let! _ := d_do (st_modify rearm) in d_ret 0
  else if size =? 1 then readByte
  else if 8 <? size then st_fail PanicIndex
  else
    let! buffer := readFull size in
    let! b0 := d_do (st_lift (index buffer 0)) in
    if b0 =? 0 then d_err ErrCanonSize else d_ret (be_val buffer).

(** ** Kind and size of the next value *)

(** The cases of a size that is itself encoded: [size] is 0 if it cannot be read. *)
Definition readLong (kind : Kind) (slen : Z) : ST Stream (Kind * Z * option rlperror) :=
  r ← readUint slen;
  mret (match r with
        | inl size => (kind, size, if size <? 56 then Some ErrCanonSize else None)
        | inr e => (kind, 0, Some e)
        end).

Definition s_readKind : ST Stream (Kind * Z * option rlperror) :=
  r ← readByte;
  match r with
  | inr err =>
      s ← st_get;
      mret (KByte, 0, Some (match stack s, err with
                            | [], (ErrUnexpectedEOF | ErrValueTooLarge) => EOF
                            | _, _ => err
                            end))
  | inl b =>
      _ ← st_modify (with_byteval 0);
      if b <? 128 then _ ← st_modify (with_byteval b); mret (KByte, 0, None)
      else if b <? 184 then mret (KString, b - 128, None)
      else if b <? 192 then readLong KString (b - 183)
      else if b <? 248 then mret (KList, b - 192, None)
      else readLong KList (b - 247)
  end.

(** The check of the size of the value ahead against the limits; [limit] is the one before the tag was
    read. *)
Definition checkSize (limit : option Z) (size : Z) (err : option rlperror) (s : Stream) : option rlperror :=
  match err with
  | Some e => Some e
  | None =>
      if match limit with Some limit => limit <? size | None => false end then Some ErrElemTooLarge
      else if limited s && (remaining s <? size) then Some ErrValueTooLarge
      else None
  end.

Definition s_Kind : D (Kind * Z) :=
  s ← st_get;
  match s_kind s with
  | Some k => mret (match kinderr s with Some e => inr e | None => inl (k, s_size s) end)
  | None =>
      let limit := listLimit s in
      if (match limit with Some limit => limit =? 0 | None => false end : bool) then d_err EOL
      else
        '(k, size, err) ← s_readKind;
        s ← st_get;
        let err := checkSize limit size err s in
        _ ← st_modify (with_ahead (Some k) size err);
        mret (match err with Some e => inr e | None => inl (k, size) end)
  end.

(** ** Values *)

(** [make([]byte, size)] panics if the size is not an [int]. *)
Definition makeSize (size : Z) : D () := if size <? 2 ^ 63 then d_ret tt else st_fail PanicIndex.

(** A single byte must not have a header. *)
Definition canonSize (size : Z) (b : bytes) : D bytes :=
  match b with
  | x :: _ => if (size =? 1) && (x <? 128) then d_err ErrCanonSize else d_ret b
  | [] => d_ret b
  end.

Definition s_byteval : D Z :=
  let! _ := d_do (st_modify rearm) in d_do (st_gets byteval).

Definition s_Bytes : D bytes :=
  let! (kind, size) := s_Kind in
  match kind with
  | KByte => let! b := s_byteval in d_ret [b]
  | KString => let! _ := makeSize size in let! b := readFull size in canonSize size b
  | KList => d_err ErrExpectedString
  end.

(** [ReadBytes(b)] with a buffer of [n] bytes *)
Definition ReadBytes (n : Z) : D bytes :=
  let! (kind, size) := s_Kind in
  match kind with
  | KByte => if negb (n =? 1) then d_err errWrongSize else let! b := s_byteval in d_ret [b]
  | KString =>
      if negb (n =? size) then d_err errWrongSize
      else let! b := readFull n in canonSize size b
  | KList => d_err ErrExpectedString
  end.

Definition s_Raw : D bytes :=
  let! (kind, size) := s_Kind in
  match kind with
  | KByte => let! b := s_byteval in d_ret [b]
  | KString => let! _ := makeSize (headsize size +! size) in let! b := readFull size in d_ret (puthead 128 183 size ++ b)
  | KList => let! _ := makeSize (headsize size +! size) in let! b := readFull size in d_ret (puthead 192 247 size ++ b)
  end.

(** [s.uint(maxbits)] *)
Definition s_uint (maxbits : Z) : D Z :=
  let! (kind, size) := s_Kind in
  match kind with
  | KByte =>
      let! b := d_do (st_gets byteval) in
      if b =? 0 then d_err ErrCanonInt else let! _ := d_do (st_modify rearm) in d_ret b
  | KString =>
      if maxbits / 8 <? size then d_err ErrUintOverflow
      else
        r ← readUint size;
        match r with
        | inr ErrCanonSize => d_err ErrCanonInt
        | inr e => d_err e
        | inl v => if (0 <? size) && (v <? 128) then d_err ErrCanonSize else d_ret v
        end
  | KList => d_err ErrExpectedString
  end.

Definition s_Bool : D bool :=
  let! num := s_uint 8 in
  if num =? 0 then d_ret false else if num =? 1 then d_ret true else d_err errInvalidBool.

Definition s_List : D Z :=
  let! (kind, size) := s_Kind in
  match kind with
  | KList =>
      _ ← st_modify (shrinkList size);
      _ ← st_modify (fun s => with_stack (size :: stack s) s);
      _ ← st_modify (fun s => with_ahead None 0 (kinderr s) s);
      d_ret size
  | _ => d_err ErrExpectedList
  end.

Definition s_ListEnd : D () :=
  s ← st_get;
  match stack s with
  | [] => d_err errNotInList
  | limit :: rest =>
      if 0 <? limit then d_err errNotAtEOL
      else
        _ ← st_modify (with_stack rest);
        d_do (st_modify (fun s => with_ahead None 0 (kinderr s) s))
  end.

Definition MoreDataInList : ST Stream bool :=
  st_gets (fun s => match listLimit s with Some limit => 0 <? limit | None => false end).

(** The rest of [decodeBigInt] and [ReadUint256], with the bytes of the integer *)
Definition integerOf (buffer : bytes) : D Z :=
  match buffer with
  | b0 :: _ => if b0 =? 0 then d_err ErrCanonInt else d_ret (be_val buffer)
  | [] => d_ret 0
  end.

(** [decodeBigInt]: the integer that is assigned to the destination; [ReadUint256] is the same up to 32
    bytes. *)
Definition decodeInteger (large : Z -> D bytes) : D Z :=
  let! (kind, size) := s_Kind in
  let! buffer :=
    (match kind with
     | KList => d_err ErrExpectedString
     | KByte => let! b := s_byteval in d_ret [b]
     | KString =>
         if size =? 0 then let! _ := d_do (st_modify rearm) in d_ret []
         else if size <=? 32 then let! b := readFull size in canonSize size b
         else large size
     end) in
  integerOf buffer.

Definition s_decodeBigInt : D Z := decodeInteger (fun size => let! _ := makeSize size in readFull size).
Definition ReadUint256 : D Z := decodeInteger (fun _ => d_err errUint256Large).

(** ** Construction *)

(** [Reset(r, inputLimit)]; [known] says that the reader is one whose length is discovered. *)
Definition s_Reset (r : bytes) (known : bool) (inputLimit : Z) (s : Stream) : Stream :=
  let '(remaining, limited) :=
    if 0 <? inputLimit then (inputLimit, true)
    else if known then (len r, true)
    else (remaining s, false) in
  mkStream r remaining 0 None [] None 0 limited.

Definition zeroStream : Stream := mkStream [] 0 0 None [] (Some KByte) 0 false.

Definition NewStream (r : bytes) (known : bool) (inputLimit : Z) : Stream := s_Reset r known inputLimit zeroStream.

Definition NewListStream (r : bytes) (known : bool) (n : Z) : Stream :=
  let s := s_Reset r known n zeroStream in with_ahead (Some KList) n (kinderr s) s.

(** [DecodeBytes(b, val)] for the decoder of the type of [val] *)
Definition DecodeBytes {A} (decoder : D A) (b : bytes) : Outcome (A + rlperror) :=
  '(r, s) ← decoder (s_Reset b false (len b) zeroStream);
  match r with
  | inr e => Ret (inr e)
  | inl v => if 0 <? len (s_r s) then Ret (inr ErrMoreThanOneValue) else Ret (inl v)
  end.

Example stream_dog : DecodeBytes s_Bytes [131; 100; 111; 103] = Ret (inl [100; 111; 103]).
Proof. reflexivity. Qed.
Example stream_canon : DecodeBytes s_Bytes [129; 5] = Ret (inr ErrCanonSize).
Proof. reflexivity. Qed.
Example stream_eof : DecodeBytes s_Bytes [] = Ret (inr EOF).
Proof. reflexivity. Qed.
