(* ===== verification/RlpTypes.v ===== *)
(** * Encoding and decoding by type ([rlp/encode.go], [rlp/decode.go], [rlp/typecache.go])

    The package derives a writer and a decoder from a Go type by reflection.  Here [typeinfo A] is
    such a pair for values of type [A], and every generator of the package is a function on them; a
    type of the program is the application of the generators that reflection would find.  A value is
    decoded into a fresh variable.  Interface types and recursive types are not modelled; a type with
    its own [EncodeRLP] and [DecodeRLP] is a [typeinfo] made of these methods. *)

From S2P Require Import Prelude Bytes Rlp RlpStream.

Set Default Proof Using "Type".

(** A writer appends to the buffer or returns an error. *)
Abbreviation W := (encBuffer -> Outcome (encBuffer + rlperror)).

Definition w_bind (m : W) (k : W) : W := fun w =>
  r ← m w; match r with inl w => k w | inr e => Ret (inr e) end.
Definition w_do (f : encBuffer -> encBuffer) : W := fun w => Ret (inl (f w)).

(** [type typeinfo struct]; the errors are about types that cannot be encoded. *)
Record typeinfo (A : Type) := mkInfo { ti_decoder : D A; ti_writer : A -> W }.
Arguments mkInfo {A} _ _.
Arguments ti_decoder {A} _.
Arguments ti_writer {A} _ _ _.

(** The same bytes as another Go type, for example a [common.Hash] as an integer. *)
Definition viewInfo {A B} (f : A -> B) (g : B -> A) (i : typeinfo A) : typeinfo B :=
  mkInfo (let! a := ti_decoder i in d_ret (f a)) (fun b => ti_writer i (g b)).

Definition wrapStreamError (err : rlperror) : rlperror :=
  match err with
  | ErrCanonInt => decodeError nonCanonicalInteger
  | ErrCanonSize => decodeError nonCanonicalSize
  | ErrExpectedList => decodeError expectedInputList
  | ErrExpectedString => decodeError expectedInputString
  | ErrUintOverflow => decodeError inputTooLong
  | errNotAtEOL => decodeError tooManyElements
  | _ => err
  end.

(** [if err != nil { return wrapStreamError(err, typ) }] *)
Definition wrapped {A} (m : D A) : D A :=
  r ← m; mret (match r with inl a => inl a | inr e => inr (wrapStreamError e) end).

(** ** Strings and integers *)

Definition decodeRawValue : D bytes := s_Raw.
Definition writeRawValue (val : bytes) : W := w_do (fun w => append_str w val).
Definition rawValueInfo : typeinfo bytes := mkInfo decodeRawValue writeRawValue.

Definition decodeUint (bits : Z) : D Z := wrapped (s_uint bits).
Definition writeUint (val : Z) : W := w_do (fun w => writeUint64 w val).
Definition uintInfo (bits : Z) : typeinfo Z := mkInfo (decodeUint bits) writeUint.

Definition decodeBool : D bool := wrapped s_Bool.
Definition boolInfo : typeinfo bool := mkInfo decodeBool (fun b => w_do (fun w => writeBool w b)).

(** [*big.Int]: [None] is nil. *)
Definition decodeBigInt : D Z := wrapped s_decodeBigInt.
Definition writeBigIntNoPtr (i : Z) : W := fun w =>
  if i <? 0 then Ret (inr ErrNegativeBigInt) else Ret (inl (writeBigInt w i)).
Definition writeBigIntPtr (ptr : option Z) : W :=
  match ptr with
  | None => w_do (fun w => append_str w [128])
  | Some i => writeBigIntNoPtr i
  end.
Definition bigIntPtrInfo : typeinfo (option Z) := mkInfo (let! i := decodeBigInt in d_ret (Some i)) writeBigIntPtr.
Definition bigIntInfo : typeinfo Z := mkInfo decodeBigInt writeBigIntNoPtr.

(** [*uint256.Int], as the integer it denotes *)
Definition decodeU256 : D Z := wrapped ReadUint256.
Definition writeU256IntNoPtr (i : Z) : W := w_do (fun w => writeUint256 w i).
Definition u256Info : typeinfo Z := mkInfo decodeU256 writeU256IntNoPtr.

Definition decodeByteSlice : D bytes := wrapped s_Bytes.
Definition writeByteSlice (val : bytes) : W := w_do (fun w => writeBytes w val).
Definition byteSliceInfo : typeinfo bytes := mkInfo decodeByteSlice writeByteSlice.

(** [decodeByteArray] into an array of [n] bytes *)
Definition decodeByteArray (n : Z) : D bytes :=
  let! (kind, size) := s_Kind in
  match kind with
  | KByte =>
      if n =? 0 then d_err (decodeError inputTooLong)
      else if 1 <? n then d_err (decodeError inputTooShort)
      else let! b := s_byteval in d_ret [b]
  | KString =>
      if n <? size then d_err (decodeError inputTooLong)
      else if size <? n then d_err (decodeError inputTooShort)
      else let! b := readFull n in wrapped (canonSize size b)
  | KList => d_err (wrapStreamError ErrExpectedString)
  end.

Definition makeByteArrayWriter (n : Z) (val : bytes) : W :=
  if n =? 0 then w_do (fun w => append_str w [128])
  else if n =? 1 then fun w =>
    b ← index val 0;
    Ret (inl (append_str w (if b <=? 127 then [b] else [129; b])))
  else w_do (fun w => append_str (encodeStringHeader w (len val)) val).

Definition byteArrayInfo (n : Z) : typeinfo bytes := mkInfo (decodeByteArray n) (makeByteArrayWriter n).

Definition hashInfo : typeinfo Hash := viewInfo be_val Hash_Bytes (byteArrayInfo 32).
Definition addressInfo : typeinfo Address := viewInfo be_val Address_Bytes (byteArrayInfo 20).

(** ** Lists *)

(** The loop of [decodeSliceElems]: every element but one of a type that reads nothing takes a byte. *)
Fixpoint decodeSliceLoop {A} (elemdec : D A) (fuel : nat) (acc : list A) : D (list A) :=
  match fuel with
  | O => st_fail OutOfFuel
  | S fuel =>
      r ← elemdec;
      match r with
      | inr EOL => d_ret acc
      | inr e => d_err e
      | inl a => decodeSliceLoop elemdec fuel (acc ++ [a])
      end
  end.

Definition decodeSliceElems {A} (elemdec : D A) : D (list A) :=
  s ← st_get; decodeSliceLoop elemdec (S (length (s_r s))) [].

Definition decodeListSlice {A} (elemdec : D A) : D (list A) :=
  let! size := wrapped s_List in
  if size =? 0 then let! _ := s_ListEnd in d_ret []
  else
    let! l := decodeSliceElems elemdec in
    let! _ := s_ListEnd in
    d_ret l.

Fixpoint decodeArrayLoop {A} (elemdec : D A) (n : nat) (acc : list A) : D (list A) :=
  match n with
  | O => d_ret acc
  | S n =>
      r ← elemdec;
      match r with
      | inr EOL => d_ret acc
      | inr e => d_err e
      | inl a => decodeArrayLoop elemdec n (acc ++ [a])
      end
  end.

(** [decodeListArray] into an array of [n] elements *)
Definition decodeListArray {A} (elemdec : D A) (n : nat) : D (list A) :=
  let! _ := wrapped s_List in
  let! l := decodeArrayLoop elemdec n [] in
  if (length l <? n)%nat then d_err (decodeError listTooFewElements)
  else let! _ := wrapped s_ListEnd in d_ret l.

(** The elements of a slice, as the tail of a struct writes them *)
Fixpoint writeElems {A} (elem : A -> W) (l : list A) : W :=
  match l with
  | [] => fun w => Ret (inl w)
  | a :: l => w_bind (elem a) (writeElems elem l)
  end.

(** [lh := w.list(); ...; w.listEnd(lh)] *)
Definition inList (m : W) : W := fun w =>
  let '(lh, w) := buf_list w in
  r ← m w;
  match r with
  | inl w => w ← listEnd w lh; Ret (inl w)
  | inr e => Ret (inr e)
  end.

Definition makeSliceWriter {A} (elem : A -> W) (l : list A) : W :=
  match l with
  | [] => w_do (fun w => append_str w [192])
  | _ => inList (writeElems elem l)
  end.

Definition sliceInfo {A} (e : typeinfo A) : typeinfo (list A) :=
  mkInfo (decodeListSlice (ti_decoder e)) (makeSliceWriter (ti_writer e)).

Definition listArrayInfo {A} (n : nat) (e : typeinfo A) : typeinfo (list A) :=
  mkInfo (decodeListArray (ti_decoder e) n) (makeSliceWriter (ti_writer e)).

(** A slice that distinguishes nil ([None]) from an empty one *)
Definition nilSliceInfo {A} (e : typeinfo A) : typeinfo (option (list A)) :=
  mkInfo (let! l := decodeListSlice (ti_decoder e) in d_ret (Some l))
    (fun l => makeSliceWriter (ti_writer e) (default [] l)).

(** ** Pointers: [None] is nil. *)

(** [makePtrWriter]; [nilKind] is [typeNilKind] of the element type and the tags. *)
Definition makePtrWriter {A} (nilKind : Kind) (elem : A -> W) (val : option A) : W :=
  match val with
  | Some a => elem a
  | None => w_do (fun w => append_str w [match nilKind with KString => 128 | _ => 192 end])
  end.

Definition makeSimplePtrDecoder {A} (elemdec : D A) : D (option A) := let! a := elemdec in d_ret (Some a).

Definition makeNilPtrDecoder {A} (nilKind : Kind) (elemdec : D A) : D (option A) :=
  let! (kind, size) := wrapped s_Kind in
  if negb (bool_decide (kind = KByte)) && (size =? 0) then
    if negb (bool_decide (kind = nilKind)) then d_err (decodeError wrongKindOfEmpty)
    else let! _ := d_do (st_modify rearm) in d_ret None
  else let! a := elemdec in d_ret (Some a).

(** Without a tag, and with [rlp:"nil"] (or [nilString], [nilList]) *)
Definition ptrInfo {A} (nilKind : Kind) (e : typeinfo A) : typeinfo (option A) :=
  mkInfo (makeSimplePtrDecoder (ti_decoder e)) (makePtrWriter nilKind (ti_writer e)).
Definition nilPtrInfo {A} (nilKind : Kind) (e : typeinfo A) : typeinfo (option A) :=
  mkInfo (makeNilPtrDecoder nilKind (ti_decoder e)) (makePtrWriter nilKind (ti_writer e)).

(** ** Structs *)

(** [reflect.Zero(typ)] and [IsZero] *)
Record zeroval (A : Type) := mkZero { zero : A; isZero : A -> bool }.
Arguments mkZero {A} _ _.
Arguments zero {A} _.
Arguments isZero {A} _ _.

Definition zeroPtr {A} : zeroval (option A) := mkZero None (fun o => bool_decide (o = None)).

(** The fields of a struct, which is a nested pair here: [fcons] is a field, with its zero value if it
    is optional ([field.optional]), [ftail] is the tail slice.  A tail after optional fields is not
    modelled. *)
Inductive fields : Type -> Type :=
  | fnil : fields ()
  | fcons {A B} (info : typeinfo A) (optional : option (zeroval A)) (rest : fields B) : fields (A * B)
  | ftail {A} (info : typeinfo A) : fields (list A).

(** [zeroFields]: all fields left are optional, as [ProcessFields] checks. *)
Fixpoint zeroFields {T} (fs : fields T) : Outcome T :=
  match fs with
  | fnil => Ret tt
  | fcons _ (Some z) rest => r ← zeroFields rest; Ret (zero z, r)
  | fcons _ None _ => Fail PanicExplicit
  | ftail _ => Fail Unmodelled
  end.

(** The loop over the fields in [makeStructDecoder] *)
Fixpoint decodeFields {T} (fs : fields T) : D T :=
  match fs with
  | fnil => d_ret tt
  | fcons info optional rest =>
      r ← ti_decoder info;
      match r with
      | inr EOL =>
          match optional with
          | Some z => let! r := d_do (st_lift (zeroFields rest)) in d_ret (zero z, r)
          | None => d_err (decodeError tooFewElements)
          end
      | inr e => d_err e
      | inl a => let! r := decodeFields rest in d_ret (a, r)
      end
  | ftail info => decodeSliceElems (ti_decoder info)
  end.

Definition makeStructDecoder {T} (fs : fields T) : D T :=
  let! _ := wrapped s_List in
  let! v := decodeFields fs in
  let! _ := wrapped s_ListEnd in
  d_ret v.

(** [lastField+1] after the loop of the writer: the optional fields at the end that are zero are left
    out; [seen] says that an optional field has been passed. *)
Fixpoint countFields {T} (seen : bool) (fs : fields T) : T -> Outcome nat :=
  match fs with
  | fnil => fun _ => Ret 0%nat
  | fcons _ None rest => fun v => n ← countFields seen rest v.2; Ret (S n)
  | fcons _ (Some z) rest => fun v =>
      n ← countFields true rest v.2;
      Ret (match n with O => if isZero z v.1 then 0%nat else 1%nat | _ => S n end)
  | ftail _ => fun _ => if seen then Fail Unmodelled else Ret 1%nat
  end.

(** The first [n] fields *)
Fixpoint writeFields {T} (n : nat) (fs : fields T) : T -> W :=
  match n, fs with
  | O, _ => fun _ w => Ret (inl w)
  | _, fnil => fun _ w => Ret (inl w)
  | S n, fcons info _ rest => fun v => w_bind (ti_writer info v.1) (writeFields n rest v.2)
  | _, ftail info => fun l => writeElems (ti_writer info) l
  end.

Definition makeStructWriter {T} (fs : fields T) (v : T) : W := fun w =>
  n ← countFields false fs v; inList (writeFields n fs v) w.

Definition structInfo {T} (fs : fields T) : typeinfo T := mkInfo (makeStructDecoder fs) (makeStructWriter fs).

(** ** Entry points *)

(** [EncodeToBytes(val)], [Encode(w, val)] *)
Definition encodeVal {A} (i : typeinfo A) (val : A) : Outcome (bytes + rlperror) :=
  r ← ti_writer i val emptyBuf;
  Ret (match r with inl w => inl (makeBytes w) | inr e => inr e end).

Definition decodeVal {A} (i : typeinfo A) (b : bytes) : Outcome (A + rlperror) := DecodeBytes (ti_decoder i) b.

(** [Encode] of a [[]any]: the writers of its elements *)
Definition encodeAny (l : list W) : Outcome (bytes + rlperror) :=
  r ← makeSliceWriter (fun w => w) l emptyBuf;
  Ret (match r with inl w => inl (makeBytes w) | inr e => inr e end).

(** A struct of a number, an optional pointer and a list *)
Definition demo_info : typeinfo (Z * (option Z * ())) :=
  structInfo (fcons (uintInfo 64) None (fcons bigIntPtrInfo (Some zeroPtr) fnil)).

Example demo_info_short : encodeVal demo_info (7, (None, tt)) = Ret (inl [193; 7]) /\ decodeVal demo_info [193; 7] = Ret (inl (7, (None, tt))).
Proof. split; reflexivity. Qed.
Example demo_info_long : encodeVal demo_info (0, (Some 300, tt)) = Ret (inl [196; 128; 130; 1; 44]) /\ decodeVal demo_info [196; 128; 130; 1; 44] = Ret (inl (0, (Some 300, tt))).
Proof. split; reflexivity. Qed.
Example demo_info_many : decodeVal demo_info [196; 1; 2; 3; 4] = Ret (inr (decodeError tooManyElements)).
Proof. reflexivity. Qed.
