(* ===== verification/RlpCodec.v ===== *)
(** * Round trips of the typed RLP codec

    What a writer appends is the reference encoding of an item, and a stream in front of that encoding
    decodes it to the same value; conversely a decoder accepts nothing but the encoding its value has.
    Both are proved for every generator of RlpTypes.v and compose along the types. *)

From S2P Require Import Prelude Bytes Rlp RlpTheorems RlpStream RlpTypes.

Set Default Proof Using "Type".

(** ** Positions of a stream *)

(** The state after [n] bytes are read *)
Definition adv (n : Z) (s : Stream) : Stream :=
  mkStream (drop (Z.to_nat n) (s_r s)) (if limited s then remaining s - n else remaining s) (s_size s) (kinderr s)
    (match stack s with [] => [] | l :: r => (l - n) :: r end) None (byteval s) (limited s).

(** [n] bytes can be read. *)
Record room (s : Stream) (n : Z) : Prop := {
  room_n : 0 <= n < 2 ^ 63;
  room_r : n <= len (s_r s);
  room_list : match stack s with [] => True | l :: _ => n <= l < two64 end;
  room_limit : limited s = true -> n <= remaining s < two64;
}.

(** [s'] is [s] after [n] bytes, up to what is forgotten when the kind is [None] *)
Record advanced (n : Z) (s s' : Stream) : Prop := {
  adv_kind : s_kind s' = None;
  adv_r : s_r s' = drop (Z.to_nat n) (s_r s);
  adv_stack : stack s' = match stack s with [] => [] | l :: r => (l - n) :: r end;
  adv_limited : limited s' = limited s;
  adv_remaining : limited s = true -> remaining s' = remaining s - n;
}.

Lemma advanced_adv n s : advanced n s (adv n s).
Proof. split; try done. intros E. cbn. by rewrite E. Qed.

Lemma advanced_trans n m s s1 s2 : 0 <= n -> 0 <= m -> advanced n s s1 -> advanced m s1 s2 -> advanced (n + m) s s2.
Proof.
  intros Hn Hm [K1 R1 S1 L1 M1] [K2 R2 S2 L2 M2]. split; [done| | |congruence|].
  - rewrite R2, R1, drop_drop. f_equal. lia.
  - rewrite S2, S1. destruct (stack s); [done|]. f_equal. lia.
  - intros E. rewrite M2, M1 by congruence. lia.
Qed.

Lemma room_advanced n m s s' : 0 <= n -> 0 <= m -> room s (n + m) -> advanced n s s' -> room s' m.
Proof.
  intros Hn Hm [H1 H2 H3 H4] [K R St L M]. split; [lia| | |].
  - rewrite R. unfold len in *. rewrite length_drop. lia.
  - rewrite St. destruct (stack s); [done|lia].
  - intros E. rewrite L in E. specialize (M E). specialize (H4 E). lia.
Qed.

Lemma room_le n m s : 0 <= n <= m -> room s m -> room s n.
Proof.
  intros Hn [H1 H2 H3 H4]. split; [lia|lia|destruct (stack s); [done|lia]|]. intros E. specialize (H4 E). lia.
Qed.

Lemma willRead_room n s : room s n ->
  willRead n s = Ret (inl tt, with_r (s_r s) (adv n s)).
Proof.
  intros [H1 H2 H3 H4]. unfold willRead, mbind, st_bind, st_modify, st_gets, st_get, d_do, d_ret, mret, st_ret, rearm, with_ahead, listLimit, shrinkList, with_stack, with_remaining, adv, with_r.
  destruct s as [r rem sz ke st k bv lim]. cbn in *. destruct st as [|l st]; cbn.
  - destruct lim; cbn; [|done]. specialize (H4 eq_refl). replace (rem <? n) with false by lia. cbn.
    by rewrite wrap64_small by (unfold_u64; lia).
  - replace (l <? n) with false by lia. cbn. rewrite (wrap64_small (l - n)) by (unfold_u64; lia).
    destruct lim; cbn; [|done]. specialize (H4 eq_refl). replace (rem <? n) with false by lia. cbn.
    by rewrite wrap64_small by (unfold_u64; lia).
Qed.

Lemma readByte_room s b r : s_r s = b :: r -> room s 1 -> readByte s = Ret (inl b, adv 1 s).
Proof.
  intros E H. unfold readByte, d_bind, mbind, st_bind. rewrite willRead_room by done. cbn. rewrite E. cbn.
  unfold adv, with_r. cbn. by rewrite E.
Qed.

Lemma readFull_room s n : room s n -> readFull n s = Ret (inl (take (Z.to_nat n) (s_r s)), adv n s).
Proof.
  intros H. unfold readFull, d_bind, mbind, st_bind. rewrite willRead_room by done. cbn.
  replace (len (s_r s) <? n) with false by (symmetry; apply Z.ltb_ge; apply H). done.
Qed.

Lemma putint_head v : is_u64 v -> v <> 0 -> exists b l, putint v = b :: l /\ 0 < b < 256.
Proof.
  intros Hv Hn. pose proof (putint_bytes v Hv) as Hb. pose proof (putint_len v Hv) as Hl.
  destruct (intsize_spec v Hv) as (Hr & _). destruct (putint v) as [|b l] eqn:E; [rewrite len_nil in Hl; lia|].
  exists b, l. split; [done|]. apply Forall_cons in Hb as [Hb _]. unfold is_byte in Hb.
  destruct (decide (56 <= v)) as [H56|].
  - pose proof (readSize_putint v [] H56 Hv) as Hs. rewrite app_nil_r, E in Hs. unfold readSize in Hs.
    change (index (b :: l) 0) with (@Ret Z b) in Hs. cbn [mbind outcome_bind] in Hs.
    destruct (Z.eqb_spec b 0); [by repeat case_match|lia].
  - unfold putint in E. replace (v <? 2 ^ 8) with true in E by lia. injection E as <- _. unfold u8.
    unfold_u64. rewrite Z.mod_small; lia.
Qed.

Lemma readUint_room s v rest : is_u64 v -> v <> 0 -> s_r s = putint v ++ rest -> room s (len (putint v)) ->
  readUint (len (putint v)) s = Ret (inl v, adv (len (putint v)) s).
Proof.
  intros Hv Hn E Hroom. pose proof (putint_len v Hv) as Hl. destruct (intsize_spec v Hv) as (Hr & _).
  unfold readUint. replace (len (putint v) =? 0) with false by lia. replace (8 <? len (putint v)) with false by lia.
  destruct (Z.eqb_spec (len (putint v)) 1) as [E1|N1].
  - rewrite E1 in *. pose proof (putint_one v Hv E1) as E2. rewrite E2 in E. by rewrite (readByte_room s v rest).
  - unfold d_bind, mbind, st_bind. rewrite readFull_room by done. rewrite E.
    assert (Et : take (Z.to_nat (len (putint v))) (putint v ++ rest) = putint v) by (unfold len; by rewrite Nat2Z.id, take_app_length).
    rewrite Et. destruct (putint_head v Hv Hn) as (b & l & Eb & Hb). unfold d_do, mbind, st_bind, st_lift.
    replace (index (putint v) 0) with (@Ret Z b) by (rewrite Eb; done). cbn [mret st_ret d_ret].
    replace (b =? 0) with false by lia. by rewrite putint_val.
Qed.

(** ** The tag in front of a value *)

(** The bytes that [Kind] reads and the size it returns: a single byte is its own tag. *)
Definition tagOf (k : Kind) (c : bytes) : bytes := match k with KByte => c | _ => header k c end.
Definition bodyOf (k : Kind) (c : bytes) : bytes := match k with KByte => [] | _ => c end.

(** The stream after [Kind]: the kind and the size are kept. *)
Definition ahead (k : Kind) (c : bytes) (s : Stream) : Stream :=
  with_byteval (match k with KByte => hd 0 c | _ => 0 end)
    (with_ahead (Some k) (len (bodyOf k c)) None (adv (len (tagOf k c)) s)).

Definition ready (s : Stream) : Prop := s_kind s = None.

Lemma tag_body k c : tagOf k c ++ bodyOf k c = header k c ++ c.
Proof. destruct k; cbn; [by rewrite app_nil_r|done|done]. Qed.

Lemma adv_0 s : ready s -> adv 0 s = s.
Proof.
  intros H. destruct s as [r rem sz ke st k bv lim]. unfold ready in H. cbn in *. subst k. unfold adv. cbn. f_equal.
  - destruct lim; lia.
  - destruct st; [done|]. f_equal. lia.
Qed.

Lemma adv_adv n m s : 0 <= n -> 0 <= m -> adv m (adv n s) = adv (n + m) s.
Proof.
  intros Hn Hm. unfold adv. cbn. f_equal.
  - rewrite drop_drop. f_equal. lia.
  - destruct (limited s); lia.
  - destruct (stack s); [done|]. f_equal. lia.
Qed.

Lemma readKind_small k s b t : ready s -> s_r s = b :: t -> room s 1 -> (k = KString /\ 128 <= b < 184 \/ k = KList /\ 192 <= b < 248) ->
  s_readKind s = Ret (k, b - (if k is KString then 128 else 192), None, with_byteval 0 (adv 1 s)).
Proof.
  intros Hk E Hroom Hb. unfold s_readKind, mbind, st_bind. rewrite (readByte_room s b t) by done. cbn.
  replace (b <? 128) with false by (destruct Hb as [[_ ?]|[_ ?]]; lia). unfold mret, st_ret.
  destruct Hb as [[-> Hb]|[-> Hb]].
  - by replace (b <? 184) with true by lia.
  - replace (b <? 184) with false by lia. replace (b <? 192) with false by lia. by replace (b <? 248) with true by lia.
Qed.

Lemma readLong_room k s n rest : ready s -> 56 <= n -> is_u64 n -> s_r s = putint n ++ rest -> room s (len (putint n)) ->
  readLong k (len (putint n)) s = Ret (k, n, None, adv (len (putint n)) s).
Proof.
  intros Hk Hn Hu E Hroom. unfold readLong, mbind, st_bind. rewrite (readUint_room s n rest) by (done || lia).
  unfold mret, st_ret. by replace (n <? 56) with false by lia.
Qed.

Lemma advanced_byteval n b s : advanced n s (with_byteval b (adv n s)).
Proof. split; try done. intros E. cbn. by rewrite E. Qed.

(** The tag of a value of 56 bytes or more *)
Lemma readKind_long (k : Kind) (lo : Z) s n rest : ready s -> 56 <= n -> is_u64 n ->
  (k = KString /\ lo = 183 \/ k = KList /\ lo = 247) -> s_r s = u8 (lo + u8 (len (putint n))) :: putint n ++ rest ->
  room s (len (putint n) + 1) ->
  s_readKind s = Ret (k, n, None, with_byteval 0 (adv (len (putint n) + 1) s)).
Proof.
  intros Hs H56 Hu Hk E Hroom.
  destruct (long_tag n lo) as (Hr & Et); [done|destruct Hk as [[_ ->]|[_ ->]]; auto|]. rewrite Et in E.
  unfold s_readKind, mbind, st_bind. rewrite (readByte_room s _ _ E) by (eapply room_le; [|exact Hroom]; lia).
  assert (Hl : readLong k (len (putint n)) (with_byteval 0 (adv 1 s)) = Ret (k, n, None, with_byteval 0 (adv (len (putint n) + 1) s))).
  { rewrite (readLong_room _ _ _ rest); [|done|lia|done|cbn; by rewrite E|].
    - do 2 f_equal. change (adv ?n (with_byteval 0 ?s)) with (with_byteval 0 (adv n s)). rewrite adv_adv by lia. do 2 f_equal. lia.
    - eapply (room_advanced 1 _ s); [lia|lia|eapply room_le; [|exact Hroom]; lia|apply advanced_byteval]. }
  unfold st_modify. destruct Hk as [[-> ->]|[-> ->]].
  - replace (_ <? 128) with false by lia. replace (_ <? 184) with false by lia. replace (_ <? 192) with true by lia.
    by replace (183 + len (putint n) - 183) with (len (putint n)) by lia.
  - replace (_ <? 128) with false by lia. replace (_ <? 184) with false by lia. replace (_ <? 192) with false by lia.
    replace (_ <? 248) with false by lia. by replace (247 + len (putint n) - 247) with (len (putint n)) by lia.
Qed.

Lemma s_readKind_header k c s rest : ready s -> fits k c -> s_r s = header k c ++ c ++ rest ->
  room s (len (header k c) + len c) ->
  s_readKind s = Ret (k, len (bodyOf k c), None, with_byteval (match k with KByte => hd 0 c | _ => 0 end) (adv (len (tagOf k c)) s)).
Proof.
  intros Hs Hf E Hroom. pose proof (room_n _ _ Hroom) as Hn. pose proof (len_nonneg c) as Hc. pose proof (len_nonneg (header k c)) as Hh.
  assert (Hlong : forall lo tag, 56 <= len c -> (k = KString /\ lo = 183 \/ k = KList /\ lo = 247) -> header k c = tag :: putint (len c) ->
    tag = u8 (lo + u8 (len (putint (len c)))) -> s_readKind s = Ret (k, len c, None, with_byteval 0 (adv (len (header k c)) s))).
  { intros lo tag H56 Hk Hhd ->. rewrite Hhd in *. rewrite len_cons in *. apply (readKind_long k lo s (len c) (c ++ rest)); auto.
    - unfold_u64. lia.
    - eapply room_le; [|exact Hroom]. lia. }
  destruct k; cbn [header fits tagOf bodyOf] in *.
  - destruct Hf as (x & -> & Hx). unfold s_readKind, mbind, st_bind. rewrite (readByte_room s x rest) by done.
    unfold mret, st_ret, st_modify. by replace (x <? 128) with true by lia.
  - unfold puthead in *. destruct (Z.ltb_spec (len c) 56) as [Hsm|Hlg]; [|by eapply Hlong; eauto].
    unfold u8 in E. rewrite (Z.mod_small (len c)), (Z.mod_small (128 + len c)) in E by lia.
    rewrite (readKind_small KString s (128 + len c) (c ++ rest)); try done; [|eapply room_le; [|exact Hroom]; change (len [_]) with 1; lia|left; split; [done|lia]].
    do 4 f_equal. lia.
  - unfold puthead in *. destruct (Z.ltb_spec (len c) 56) as [Hsm|Hlg]; [|by eapply Hlong; eauto].
    unfold u8 in E. rewrite (Z.mod_small (len c)), (Z.mod_small (192 + len c)) in E by lia.
    rewrite (readKind_small KList s (192 + len c) (c ++ rest)); try done; [|eapply room_le; [|exact Hroom]; change (len [_]) with 1; lia|right; split; [done|lia]].
    do 4 f_equal. lia.
Qed.

Lemma s_Kind_header k c s rest : ready s -> fits k c -> s_r s = header k c ++ c ++ rest ->
  room s (len (header k c) + len c) -> s_Kind s = Ret (inl (k, len (bodyOf k c)), ahead k c s).
Proof.
  intros Hs Hf E Hroom. assert (Hpos : 1 <= len (tagOf k c) /\ len (tagOf k c) + len (bodyOf k c) = len (header k c) + len c /\ 0 <= len (bodyOf k c)).
  { rewrite <- !len_app, tag_body. split_and!; [|done|apply len_nonneg]. destruct k; cbn; [destruct Hf as (? & -> & _); done| |].
    all: unfold puthead; case_if; rewrite len_cons; apply Z.le_sub_le_add_r; apply len_nonneg. }
  unfold s_Kind, mbind, st_bind, st_get. rewrite Hs. destruct Hroom as [Hn Hr Hl Hlim].
  replace (match listLimit s with Some limit => limit =? 0 | None => false end) with false.
  2: { unfold listLimit. destruct (stack s); cbn; [done|lia]. }
  rewrite (s_readKind_header k c s rest) by done. unfold checkSize, listLimit. cbn [with_byteval limited remaining adv].
  replace (match head (stack s) with Some limit => limit <? len (bodyOf k c) | None => false end) with false.
  2: { destruct (stack s); cbn; [done|lia]. }
  replace (limited s && ((if limited s then remaining s - len (tagOf k c) else remaining s) <? len (bodyOf k c))) with false.
  2: { destruct (limited s); cbn; [|done]. specialize (Hlim eq_refl). lia. }
  done.
Qed.

(** ** Reading a value *)

(** In front of the encoding of [it], [m] returns [v] and moves behind it. *)
Definition reads {A} (m : D A) (it : item) (v : A) : Prop := forall s rest, ready s ->
  s_r s = encode it ++ rest -> room s (len (encode it)) ->
  exists s', m s = Ret (inl v, s') /\ advanced (len (encode it)) s s'.

Lemma reads_wrapped {A} (m : D A) it v : reads m it v -> reads (wrapped m) it v.
Proof.
  intros H s rest Hs E Hroom. destruct (H s rest Hs E Hroom) as (s' & Em & Ha). exists s'. split; [|done].
  unfold wrapped, mbind, st_bind. by rewrite Em.
Qed.

Lemma reads_map {A B} (f : A -> B) (m : D A) it v : reads m it v -> reads (let! a := m in d_ret (f a)) it (f v).
Proof.
  intros H s rest Hs E Hroom. destruct (H s rest Hs E Hroom) as (s' & Em & Ha). exists s'. split; [|done].
  unfold d_bind, mbind, st_bind. by rewrite Em.
Qed.

(** What follows [Kind] in front of the canonical encoding of [c] *)
Lemma ahead_advanced k c s s' n : 0 <= n -> advanced n (ahead k c s) s' -> advanced (len (tagOf k c) + n) s s'.
Proof.
  intros Hn [K R St L M]. pose proof (len_nonneg (tagOf k c)). cbn in *. split; [done| | |done|].
  - rewrite R, drop_drop. f_equal. lia.
  - rewrite St. destruct (stack s); [done|]. f_equal. lia.
  - intros E. rewrite M by done. rewrite E. lia.
Qed.

Lemma ahead_room k c s n : 0 <= n -> room s (len (tagOf k c) + n) -> room (ahead k c s) n.
Proof.
  intros Hn [H1 H2 H3 H4]. pose proof (len_nonneg (tagOf k c)). split; [lia| | |].
  - cbn. unfold len in *. rewrite length_drop. lia.
  - cbn. destruct (stack s); [done|]. unfold_u64. lia.
  - intros E. cbn in *. rewrite E. specialize (H4 E). lia.
Qed.

Definition at_body (k : Kind) (c rest : bytes) (s : Stream) : Prop :=
  s_kind s = Some k /\ kinderr s = None /\ s_size s = len (bodyOf k c) /\ (k = KByte -> byteval s = hd 0 c) /\
  s_r s = bodyOf k c ++ rest /\ room s (len (bodyOf k c)).

Lemma reads_kind {A} (f : Kind * Z -> D A) it k c v : encode it = header k c ++ c -> fits k c ->
  (forall s rest, at_body k c rest s -> exists s', f (k, len (bodyOf k c)) s = Ret (inl v, s') /\ advanced (len (bodyOf k c)) s s') ->
  reads (d_bind s_Kind f) it v.
Proof.
  intros Ei Hf H s rest Hs E Hroom. rewrite Ei in *. rewrite len_app in *. rewrite <- app_assoc in E.
  assert (Hl : len (header k c) + len c = len (tagOf k c) + len (bodyOf k c)) by (rewrite <- !len_app; by rewrite tag_body).
  unfold d_bind, mbind, st_bind. rewrite (s_Kind_header k c s rest) by done.
  destruct (H (ahead k c s) rest) as (s' & Ef & Ha).
  { split_and!; try done; [intros ->; done| |].
    - cbn. rewrite E, app_assoc, <- tag_body, <- app_assoc. unfold len. by rewrite Nat2Z.id, drop_app_length.
    - apply ahead_room; [apply len_nonneg|]. by rewrite <- Hl. }
  exists s'. split; [done|]. rewrite Hl. apply ahead_advanced; [apply len_nonneg|done].
Qed.

(** The ways to take the value ahead *)
Lemma rearm_advanced s : advanced 0 s (rearm s).
Proof. split; cbn; [done|done|destruct (stack s); [done|f_equal; lia]|done|intros; lia]. Qed.

Lemma body_byte c rest s : at_body KByte c rest s -> s_byteval s = Ret (inl (hd 0 c), rearm s) /\ advanced 0 s (rearm s).
Proof.
  intros (K & _ & _ & B & R & _). split; [|apply rearm_advanced].
  unfold s_byteval, d_bind, d_do, mbind, st_bind. cbn. by rewrite B.
Qed.

Lemma body_full k c rest s : k <> KByte -> at_body k c rest s ->
  readFull (len c) s = Ret (inl c, adv (len c) s) /\ advanced (len c) s (adv (len c) s).
Proof.
  intros Hk (_ & _ & _ & _ & R & Hroom). assert (Eb : bodyOf k c = c) by (by destruct k). rewrite Eb in *.
  split; [|apply advanced_adv]. rewrite readFull_room by done. rewrite R. unfold len. by rewrite Nat2Z.id, take_app_length.
Qed.

Lemma canonSize_ok c s : (forall x, c = [x] -> 128 <= x) -> canonSize (len c) c s = Ret (inl c, s).
Proof.
  intros H. unfold canonSize. destruct c as [|x [|y c]]; [done| |].
  - specialize (H x eq_refl). replace (x <? 128) with false by lia. by rewrite andb_false_r.
  - replace (len (x :: y :: c) =? 1) with false; [done|]. rewrite !len_cons. pose proof (len_nonneg c). lia.
Qed.

(** ** Integers *)

(** The minimal big-endian bytes of an integer of any size *)
Definition minBytes (v : Z) : bytes := be_bytes (Z.to_nat ((bitLen v + 7) / 8)) v.

Lemma minBytes_size v : 0 < v -> 1 <= (bitLen v + 7) / 8 /\
  256 ^ ((bitLen v + 7) / 8 - 1) <= v < 256 ^ ((bitLen v + 7) / 8).
Proof.
  intros Hv. unfold bitLen. replace (v =? 0) with false by lia. rewrite Z.abs_eq by lia.
  pose proof (Z.log2_nonneg v) as Hl. destruct (Z.log2_spec v Hv) as [Hlo Hhi]. set (L := Z.log2 v) in *.
  replace (L + 1 + 7) with (L + 8) by lia. pose proof (Z.div_mod (L + 8) 8 ltac:(lia)) as Hd.
  pose proof (Z.mod_pos_bound (L + 8) 8 ltac:(lia)) as Hm. set (n := (L + 8) / 8) in *.
  split; [lia|]. change 256 with (2 ^ 8). rewrite <- !Z.pow_mul_r by lia. split.
  - etransitivity; [|exact Hlo]. apply Z.pow_le_mono_r; lia.
  - eapply Z.lt_le_trans; [exact Hhi|]. apply Z.pow_le_mono_r; lia.
Qed.

Lemma minBytes_bytes v : Forall is_byte (minBytes v).
Proof. apply be_bytes_bytes. Qed.

Lemma minBytes_val v : 0 <= v -> be_val (minBytes v) = v.
Proof.
  intros Hv. unfold minBytes. rewrite be_val_be_bytes. destruct (decide (v = 0)) as [->|]; [done|].
  destruct (minBytes_size v) as (H1 & H2); [lia|]. rewrite Z2Nat.id by lia. apply Z.mod_small. lia.
Qed.

Lemma be_val_head d b : Forall is_byte (b :: d) -> b <> 0 -> 256 ^ len d <= be_val (b :: d) < 256 ^ (len d + 1).
Proof.
  intros Hd Hb. pose proof (be_val_bounds _ Hd) as H. rewrite len_cons in H. split; [|lia].
  change (b :: d) with ([b] ++ d). rewrite be_val_app. change (be_val [b]) with b.
  apply Forall_cons in Hd as [Hb' Hd]. pose proof (be_val_bounds _ Hd). unfold is_byte in Hb'.
  pose proof (len_nonneg d). pose proof (Z.pow_pos_nonneg 256 (len d) ltac:(lia) ltac:(lia)). nia.
Qed.

Lemma pow256_unique n m v : 0 <= n -> 0 <= m -> 256 ^ n <= v < 256 ^ (n + 1) -> 256 ^ m <= v < 256 ^ (m + 1) -> n = m.
Proof.
  intros Hn Hm H1 H2. destruct (Z.lt_trichotomy n m) as [Hlt|[|Hlt]]; [|done|]; exfalso.
  - pose proof (Z.pow_le_mono_r 256 (n + 1) m). lia.
  - pose proof (Z.pow_le_mono_r 256 (m + 1) n). lia.
Qed.

(** A byte string without leading zeroes is the minimal one of its integer. *)
Lemma minBytes_unique d : Forall is_byte d -> head d <> Some 0 -> minBytes (be_val d) = d.
Proof.
  intros Hd Hh. destruct d as [|b d]; [done|]. assert (Hb : b <> 0) by (intros ->; done).
  pose proof (be_val_head _ _ Hd Hb) as Hv. pose proof (len_nonneg d) as Hl.
  pose proof (Z.pow_pos_nonneg 256 (len d) ltac:(lia) ltac:(lia)) as Hp.
  destruct (minBytes_size (be_val (b :: d))) as (H1 & H2); [lia|].
  unfold minBytes. replace ((bitLen (be_val (b :: d)) + 7) / 8) with (len d + 1).
  - replace (Z.to_nat (len d + 1)) with (length (b :: d)) by (cbn [length]; unfold len; lia). by apply be_bytes_be_val.
  - rewrite (pow256_unique (len d) ((bitLen (be_val (b :: d)) + 7) / 8 - 1) (be_val (b :: d))); [lia|lia|lia|done|].
    by replace (_ - 1 + 1) with ((bitLen (be_val (b :: d)) + 7) / 8) by lia.
Qed.

Lemma minBytes_intBytes v : is_u64 v -> intBytes v = minBytes v.
Proof.
  intros Hv. unfold intBytes. destruct (Z.eqb_spec v 0) as [->|Hn]; [done|].
  destruct (putint_head v Hv Hn) as (b & l & E & Hb). rewrite <- (putint_val v Hv) at 2. rewrite minBytes_unique; [done|by apply putint_bytes|].
  rewrite E. intros [= ->]. lia.
Qed.

Lemma minBytes_head v : 0 <= v -> head (minBytes v) <> Some 0.
Proof.
  intros Hv. pose proof (minBytes_val v Hv) as E. pose proof (minBytes_bytes v) as Hb. destruct (minBytes v) as [|b l] eqn:Em; [done|].
  intros [= ->]. change (0 :: l) with ([0] ++ l) in E. rewrite be_val_app in E. change (be_val [0]) with 0 in E.
  apply Forall_cons in Hb as [_ Hb]. pose proof (be_val_bounds _ Hb) as H.
  assert (Hlen : len l + 1 = (bitLen v + 7) / 8 \/ len l + 1 = 0).
  { pose proof (f_equal length Em) as Hl. unfold minBytes in Hl. rewrite be_bytes_length in Hl. cbn in Hl. unfold len.
    destruct (decide (0 <= (bitLen v + 7) / 8)); lia. }
  pose proof (len_nonneg l). destruct Hlen as [Hlen|]; [|lia]. destruct (decide (v = 0)) as [->|]; [by cbn in Em|].
  destruct (minBytes_size v) as (H1 & H2); [lia|]. rewrite <- Hlen in H2. replace (len l + 1 - 1) with (len l) in H2 by lia. lia.
Qed.

(** ** Values of one type *)

(** [m] begins with [Kind] and passes its errors on, the end of a list as it is. *)
Definition starts {A} (m : D A) : Prop := exists f : (Kind * Z) + rlperror -> D A,
  (forall s, m s = (r ← s_Kind; f r) s) /\
  (forall e s, exists e', f (inr e) s = Ret (inr e', s) /\ (e = EOL -> e' = EOL)).

(** [Kind] returns the same when it is called again. *)
Lemma s_Kind_again s r s' : s_Kind s = Ret (r, s') -> s_Kind s' = Ret (r, s').
Proof.
  unfold s_Kind, mbind, st_bind, st_get. destruct (s_kind s) as [k|] eqn:Ek.
  - intros [= <- <-]. by rewrite Ek.
  - destruct (match listLimit s with Some limit => limit =? 0 | None => false end) eqn:El.
    + intros [= <- <-]. by rewrite Ek, El.
    + destruct (s_readKind s) as [[[[k size] err] s1]|]; [|done]. unfold st_modify, mret, st_ret.
      intros [= <- <-]. cbn. done.
Qed.

Lemma starts_again {A} (m : D A) s r s' : starts m -> s_Kind s = Ret (r, s') -> m s' = m s.
Proof.
  intros (f & Hf & _) E. rewrite !Hf. unfold mbind, st_bind. by rewrite E, (s_Kind_again _ _ _ E).
Qed.

Lemma starts_eol {A} (m : D A) s : starts m -> ready s -> listLimit s = Some 0 -> m s = Ret (inr EOL, s).
Proof.
  intros (f & Hf & He) Hs Hl. destruct (He EOL s) as (e' & E & Ee). rewrite (Ee eq_refl) in E. rewrite Hf.
  unfold mbind, st_bind, s_Kind, st_get, mbind, st_bind. by rewrite Hs, Hl, <- E.
Qed.

Lemma starts_err {A} (m : D A) s e s' : starts m -> s_Kind s = Ret (inr e, s') -> exists e', m s = Ret (inr e', s').
Proof.
  intros (f & Hf & He) E. destruct (He e s') as (e' & Ef & _). exists e'. rewrite Hf. unfold mbind, st_bind. by rewrite E.
Qed.

Lemma starts_kind {A} (f : Kind * Z -> D A) : starts (d_bind s_Kind f).
Proof. eexists. split; [intros s; reflexivity|]. intros e s. by exists e. Qed.

Lemma starts_bind {A B} (m : D A) (k : A -> D B) : starts m -> starts (d_bind m k).
Proof.
  intros (f & Hf & He). exists (fun r => d_bind (f r) k). split.
  - intros s. unfold d_bind, mbind, st_bind. rewrite Hf. unfold mbind, st_bind. by destruct (s_Kind s) as [[]|].
  - intros e s. destruct (He e s) as (e' & E & Ee). exists e'. unfold d_bind, mbind, st_bind. by rewrite E.
Qed.

Lemma starts_wrapped {A} (m : D A) : starts m -> starts (wrapped m).
Proof.
  intros (f & Hf & He). exists (fun r => wrapped (f r)). split.
  - intros s. unfold wrapped, mbind, st_bind. rewrite Hf. unfold mbind, st_bind. by destruct (s_Kind s) as [[]|].
  - intros e s. destruct (He e s) as (e' & E & Ee). exists (wrapStreamError e'). unfold wrapped, mbind, st_bind. rewrite E.
    split; [done|]. intros H. by rewrite Ee.
Qed.

(** [m] appends the encodings of [l]. *)
Definition writes_as (m : W) (l : list item) : Prop := forall p heads lh, is_u64 (len (concat (encode <$> l))) ->
  exists s hs k, m (mkBuf p heads lh) = Ret (inl (mkBuf (p ++ s) (heads ++ hs) (lh + k))) /\
    wrote p s hs k (concat (encode <$> l)).

(** The values that satisfy [ok] are encoded as the item [it]. *)
Record Codec {A} (i : typeinfo A) (ok : A -> Prop) (it : A -> item) : Prop := {
  c_item v : ok v -> item_ok (it v);
  c_writes v : ok v -> writes_as (ti_writer i v) [it v];
  c_reads v : ok v -> reads (ti_decoder i) (it v) v;
  c_starts : starts (ti_decoder i);
}.

Lemma writes_str (m : W) d : (forall w, m w = Ret (inl (append_str w (encode_bytes d)))) -> writes_as m [Str d].
Proof.
  intros H p heads lh _. exists (encode_bytes d), [], 0. cbn. rewrite H, !app_nil_r, Z.add_0_r. split; [done|]. apply wrote_str.
Qed.

Lemma s_Bytes_reads d : Forall is_byte d -> reads s_Bytes (Str d) d.
Proof.
  intros Hd. destruct (encode_bytes_kind d Hd) as (k & Hk & E & Hf). apply (reads_kind _ _ k d); [done|done|].
  intros s rest Hb. destruct k; [| |done].
  - destruct (body_byte _ _ _ Hb) as [Eb Ha]. destruct Hf as (x & -> & _). eexists. split; [|exact Ha].
    unfold d_bind, mbind, st_bind. by rewrite Eb.
  - destruct (body_full KString d rest s) as [Ef Ha]; [done|done|]. eexists. split; [|exact Ha].
    cbn [bodyOf]. unfold d_bind, mbind, st_bind, makeSize. pose proof (room_n _ _ (proj2 (proj2 (proj2 (proj2 (proj2 Hb)))))) as Hn. cbn [bodyOf] in Hn.
    replace (len d <? 2 ^ 63) with true by lia. cbn. rewrite Ef. by apply canonSize_ok.
Qed.

Lemma byteSlice_codec : Codec byteSliceInfo (Forall is_byte) Str.
Proof.
  split; [by constructor| | |apply starts_wrapped, starts_kind].
  - intros v Hv. apply writes_str. intros w. cbn. unfold writeByteSlice, w_do. by rewrite writeBytes_eq.
  - intros v Hv. by apply reads_wrapped, s_Bytes_reads.
Qed.

Lemma intBytes_string v k : is_u64 v -> fits k (intBytes v) -> k <> KList ->
  (k = KByte /\ intBytes v = [v] /\ 0 < v < 128) \/ (k = KString /\ (v = 0 \/ 128 <= v)).
Proof.
  intros Hv Hf Hk. unfold intBytes in *. destruct (Z.eqb_spec v 0) as [->|Hn].
  - destruct k; [by destruct Hf as (? & ? & _)|by right; auto|done].
  - destruct k; [left|right|done]; split; try done.
    + destruct Hf as (x & E & Hx). pose proof (putint_val v Hv) as Ev. rewrite E in Ev. change (be_val [x]) with x in Ev. subst x.
      split; [done|lia].
    + right. destruct (decide (128 <= v)); [done|]. assert (Ep : putint v = [v]).
      { unfold putint. unfold_u64. replace (v <? 2 ^ 8) with true by lia. unfold u8. by rewrite Z.mod_small by lia. }
      specialize (Hf v Ep). lia.
Qed.

Lemma intsize_bits v bits : 0 <= v < 2 ^ bits -> is_u64 v -> 0 < bits -> bits mod 8 = 0 -> intsize v <= bits / 8.
Proof.
  intros Hb Hv Hp Hm. destruct (intsize_spec v Hv) as (Hr & _ & Hge). pose proof (Z.div_mod bits 8 ltac:(lia)) as Hd.
  rewrite Hm, Z.add_0_r in Hd. destruct (decide (intsize v <= bits / 8)) as [|Hgt]; [done|]. exfalso.
  assert (H1 : 256 ^ (intsize v - 1) <= v) by (apply Hge; lia).
  assert (H2 : 2 ^ bits <= 256 ^ (intsize v - 1)).
  { change 256 with (2 ^ 8). rewrite <- Z.pow_mul_r by lia. apply Z.pow_le_mono_r; lia. }
  lia.
Qed.

Lemma s_uint_reads bits v : 0 <= v < 2 ^ bits -> is_u64 v -> 0 < bits -> bits mod 8 = 0 -> reads (s_uint bits) (Str (intBytes v)) v.
Proof.
  intros Hb Hv Hp Hm. pose proof (intBytes_ok v Hv) as Hd. destruct (encode_bytes_kind _ Hd) as (k & Hk & E & Hf).
  apply (reads_kind _ _ k (intBytes v)); [done|done|]. intros s rest Ha.
  destruct (intBytes_string v k Hv Hf Hk) as [(-> & Ei & Hr)|(-> & Hr)].
  - destruct Ha as (_ & _ & _ & B & _). specialize (B eq_refl). rewrite Ei in *. cbn in B. exists (rearm s).
    split; [|apply rearm_advanced]. unfold d_bind, d_do, mbind, st_bind, st_gets. cbn. rewrite B. by replace (v =? 0) with false by lia.
  - cbn [bodyOf]. destruct (decide (v = 0)) as [->|Hn].
    + exists (rearm s). split; [|apply rearm_advanced]. cbn [len intBytes length]. change (len (intBytes 0)) with 0.
      unfold readUint, d_bind, d_do, mbind, st_bind. cbn. by replace (bits / 8 <? 0) with false by (symmetry; apply Z.ltb_ge; apply Z.div_pos; lia).
    + destruct Hr as [?|Hr]; [done|]. unfold intBytes in *. replace (v =? 0) with false in * by lia.
      destruct Ha as (_ & _ & _ & _ & R & Hroom). cbn [bodyOf] in *.
      eexists. split; [|apply advanced_adv]. pose proof (intsize_bits v bits Hb Hv Hp Hm) as Hs.
      pose proof (putint_len v Hv) as El. replace (bits / 8 <? len (putint v)) with false by lia.
      unfold mbind, st_bind. rewrite (readUint_room s v rest) by done.
      replace (v <? 128) with false by lia. by rewrite andb_false_r.
Qed.

Lemma writeUint64_eq w v : is_u64 v -> writeUint64 w v = append_str w (encode_bytes (intBytes v)).
Proof.
  intros Hv. rewrite <- AppendUint64_eq by done. unfold writeUint64, AppendUint64. destruct (v =? 0); [done|].
  destruct (v <? 128); [done|]. cbn [app]. do 2 f_equal. pose proof (putint_len v Hv). destruct (intsize_spec v Hv) as (? & _).
  unfold u8. rewrite (Z.mod_small (len (putint v))) by lia. rewrite Z.mod_small; lia.
Qed.

Lemma uint_codec bits : 0 < bits <= 64 -> bits mod 8 = 0 -> Codec (uintInfo bits) (fun v => 0 <= v < 2 ^ bits) (fun v => Str (intBytes v)).
Proof.
  intros Hb Hm. assert (Hu : forall v, 0 <= v < 2 ^ bits -> is_u64 v).
  { intros v Hv. unfold is_u64, two64. pose proof (Z.pow_le_mono_r 2 bits 64 ltac:(lia) ltac:(lia)) as H. change (2 ^ 64) with 18446744073709551616 in H. lia. }
  split.
  - intros v Hv. constructor. apply intBytes_ok; auto.
  - intros v Hv. apply writes_str. intros w. cbn. unfold writeUint, w_do. rewrite writeUint64_eq; auto.
  - intros v Hv. apply reads_wrapped, s_uint_reads; auto; lia.
  - apply starts_wrapped, starts_kind.
Qed.

Lemma bool_codec : Codec boolInfo (fun _ => True) (fun b => Str (if b : bool then [1] else [])).
Proof.
  split.
  - intros [] _; constructor; [|constructor]. apply Forall_singleton. unfold is_byte. lia.
  - intros [] _; apply writes_str; done.
  - intros b _. apply reads_wrapped. assert (Hr : reads (s_uint 8) (Str (if b then [1] else [])) (if b then 1 else 0)).
    { destruct b; [apply (s_uint_reads 8 1)|apply (s_uint_reads 8 0)]; unfold is_u64, two64; lia || done. }
    intros s rest Hs E Hroom. destruct (Hr s rest Hs E Hroom) as (s' & Em & Ha). exists s'. split; [|done].
    unfold s_Bool, d_bind, mbind, st_bind. rewrite Em. by destruct b.
  - apply starts_wrapped, starts_bind, starts_kind.
Qed.

Lemma integerOf_min v s : 0 <= v -> integerOf (minBytes v) s = Ret (inl v, s).
Proof.
  intros Hv. pose proof (minBytes_val v Hv) as E. pose proof (minBytes_head v Hv) as Hh. unfold integerOf.
  destruct (minBytes v) as [|b l]; [by rewrite <- E|]. destruct (Z.eqb_spec b 0) as [->|]; [done|]. by rewrite E.
Qed.

Lemma decodeInteger_reads large v : 0 <= v ->
  (32 < len (minBytes v) -> forall s rest, at_body KString (minBytes v) rest s ->
     exists s', large (len (minBytes v)) s = Ret (inl (minBytes v), s') /\ advanced (len (minBytes v)) s s') ->
  reads (decodeInteger large) (Str (minBytes v)) v.
Proof.
  intros Hv Hlarge. destruct (encode_bytes_kind _ (minBytes_bytes v)) as (k & Hk & E & Hf).
  apply (reads_kind _ _ k (minBytes v)); [done|done|]. intros s rest Ha. cbn [fst snd].
  enough (Hbuf : exists s', (match k with
     | KList => d_err ErrExpectedString
     | KByte => let! b := s_byteval in d_ret [b]
     | KString =>
         if len (bodyOf k (minBytes v)) =? 0 then let! _ := d_do (st_modify rearm) in d_ret []
         else if len (bodyOf k (minBytes v)) <=? 32 then let! b := readFull (len (bodyOf k (minBytes v))) in canonSize (len (bodyOf k (minBytes v))) b
         else large (len (bodyOf k (minBytes v)))
     end) s = Ret (inl (minBytes v), s') /\ advanced (len (bodyOf k (minBytes v))) s s').
  { destruct Hbuf as (s' & Eb & Hadv). exists s'. split; [|done]. unfold d_bind at 1, mbind, st_bind. rewrite Eb. by apply integerOf_min. }
  destruct k; [| |done]; cbn [bodyOf].
  - destruct (body_byte _ _ _ Ha) as [Eb Hadv]. destruct Hf as (x & Ex & _). exists (rearm s). split; [|exact Hadv].
    unfold d_bind, mbind, st_bind. by rewrite Eb, Ex.
  - destruct (Z.eqb_spec (len (minBytes v)) 0) as [E0|].
    { exists (rearm s). destruct (minBytes v) as [|b l]; [split; [done|apply rearm_advanced]|]. rewrite len_cons in E0. pose proof (len_nonneg l). lia. }
    destruct (Z.leb_spec (len (minBytes v)) 32); [|by apply (Hlarge ltac:(lia) s rest)].
    destruct (body_full KString _ rest s ltac:(done) Ha) as [Ef Hadv]. eexists. split; [|exact Hadv].
    unfold d_bind, mbind, st_bind. rewrite Ef. by apply canonSize_ok.
Qed.

Lemma bitLen_le64 v : 0 <= v -> bitLen v <= 64 -> is_u64 v.
Proof.
  intros Hv Hb. unfold bitLen in Hb. destruct (Z.eqb_spec v 0) as [->|]; [unfold is_u64, two64; lia|]. rewrite Z.abs_eq in Hb by lia.
  unfold is_u64, two64. split; [done|]. apply Z.log2_lt_pow2 with (b := 64); lia.
Qed.

Lemma minBytes_len v : 0 <= v -> len (minBytes v) = (bitLen v + 7) / 8.
Proof.
  intros Hv. unfold minBytes, len. rewrite be_bytes_length, Z2Nat.id; [done|]. apply Z.div_pos; [|lia].
  unfold bitLen. case_if; [lia|]. pose proof (Z.log2_nonneg (Z.abs v)). lia.
Qed.

Lemma bitLen_nonneg v : 0 <= bitLen v.
Proof. unfold bitLen. case_if; [lia|]. pose proof (Z.log2_nonneg (Z.abs v)). lia. Qed.

Lemma bitLen_bound v n : 0 <= v < 2 ^ n -> bitLen v <= n.
Proof.
  intros Hv. unfold bitLen. destruct (Z.eqb_spec v 0) as [->|].
  - destruct (decide (0 <= n)); [done|]. rewrite Z.pow_neg_r in Hv; lia.
  - rewrite Z.abs_eq by lia. assert (Z.log2 v < n); [|lia]. apply Z.log2_lt_pow2; lia.
Qed.

Lemma encode_bytes_long d : 1 < len d -> encode_bytes d = puthead 128 183 (len d) ++ d.
Proof. intros H. destruct d as [|x [|y d]]; [done| |done]. change (len [x]) with 1 in H. lia. Qed.

Lemma land_minus8 x : 0 <= x -> Z.shiftr (Z.land x (-8)) 3 = x / 8.
Proof.
  intros Hx. rewrite Z.shiftr_land, Z.shiftr_div_pow2 by lia. change (Z.shiftr (-8) 3) with (-1). by rewrite Z.land_m1_r.
Qed.

Lemma writeBigInt_eq w v : 0 <= v -> writeBigInt w v = append_str w (encode_bytes (minBytes v)).
Proof.
  intros Hv. unfold writeBigInt. destruct (Z.leb_spec (bitLen v) 64) as [Hs|Hl].
  - pose proof (bitLen_le64 v Hv Hs) as Hu. rewrite wrap64_small by done. by rewrite writeUint64_eq, minBytes_intBytes.
  - pose proof (minBytes_len v Hv) as El. assert (H9 : 9 <= (bitLen v + 7) / 8) by (apply Z.div_le_lower_bound; lia).
    rewrite land_minus8 by lia. rewrite encode_bytes_long by lia. rewrite El. fold (minBytes v).
    unfold encodeStringHeader, puthead, append_str. case_if; cbn; by rewrite <- app_assoc.
Qed.

Lemma writeUint256_eq w v : 0 <= v < two256 -> writeUint256 w v = append_str w (encode_bytes (minBytes v)).
Proof.
  intros Hv. unfold writeUint256. assert (Eb : (if v =? 0 then 0 else Z.log2 v + 1) = bitLen v).
  { unfold bitLen. case_if; [done|]. by rewrite Z.abs_eq by lia. }
  rewrite Eb. destruct (Z.leb_spec (bitLen v) 64) as [Hs|Hl].
  - pose proof (bitLen_le64 v (proj1 Hv) Hs) as Hu. rewrite wrap64_small by done. by rewrite writeUint64_eq, minBytes_intBytes.
  - pose proof (minBytes_len v (proj1 Hv)) as El. assert (H9 : 9 <= (bitLen v + 7) / 8) by (apply Z.div_le_lower_bound; lia).
    pose proof (bitLen_bound v 256 Hv) as H256. assert (H32 : (bitLen v + 7) / 8 < 33) by (apply Z.div_lt_upper_bound; lia).
    rewrite encode_bytes_long by lia. rewrite El. fold (minBytes v). unfold puthead. replace (_ <? 56) with true by lia.
    unfold u8. by rewrite (Z.mod_small ((bitLen v + 7) / 8)) by lia.
Qed.

Lemma bigInt_codec : Codec bigIntInfo (fun v => 0 <= v) (fun v => Str (minBytes v)).
Proof.
  split.
  - intros v _. constructor. apply minBytes_bytes.
  - intros v Hv. apply writes_str. intros w. cbn. unfold writeBigIntNoPtr. replace (v <? 0) with false by lia. by rewrite writeBigInt_eq.
  - intros v Hv. apply reads_wrapped, decodeInteger_reads; [done|]. intros Hl s rest Ha.
    destruct (body_full KString _ rest s ltac:(done) Ha) as [Ef Hadv]. eexists. split; [|exact Hadv].
    pose proof (room_n _ _ (proj2 (proj2 (proj2 (proj2 (proj2 Ha)))))) as Hn. cbn [bodyOf] in Hn.
    unfold d_bind, mbind, st_bind, makeSize. by replace (_ <? 2 ^ 63) with true by lia.
  - apply starts_wrapped, starts_kind.
Qed.

Lemma u256_codec : Codec u256Info (fun v => 0 <= v < two256) (fun v => Str (minBytes v)).
Proof.
  split.
  - intros v _. constructor. apply minBytes_bytes.
  - intros v Hv. apply writes_str. intros w. cbn. unfold writeU256IntNoPtr, w_do. by rewrite writeUint256_eq.
  - intros v Hv. apply reads_wrapped, decodeInteger_reads; [lia|]. rewrite minBytes_len by lia.
    pose proof (bitLen_bound v 256 Hv) as H256. intros H. exfalso.
    assert ((bitLen v + 7) / 8 < 33) by (apply Z.div_lt_upper_bound; lia). lia.
  - apply starts_wrapped, starts_kind.
Qed.

Lemma bigIntPtr_codec : Codec bigIntPtrInfo (fun v => exists i, v = Some i /\ 0 <= i) (fun v => Str (minBytes (default 0 v))).
Proof.
  destruct bigInt_codec as [H1 H2 H3 H4]. split.
  - intros v (i & -> & Hi). by apply H1.
  - intros v (i & -> & Hi). by apply H2.
  - intros v (i & -> & Hi). apply reads_map. by apply H3.
  - by apply starts_bind.
Qed.

(** ** Arrays of bytes, views and pointers *)

Lemma byteArray_codec n : 0 <= n -> Codec (byteArrayInfo n) (fun v => Forall is_byte v /\ len v = n) Str.
Proof.
  intros Hn. split.
  - intros v [Hv _]. by constructor.
  - intros v [Hv Hl]. unfold byteArrayInfo, ti_writer, makeByteArrayWriter. destruct (Z.eqb_spec n 0) as [->|].
    { destruct v; [|rewrite len_cons in Hl; pose proof (len_nonneg v); lia]. by apply writes_str. }
    destruct (Z.eqb_spec n 1) as [->|].
    { destruct v as [|x [|y v]]; [done| |rewrite !len_cons in Hl; pose proof (len_nonneg v); lia]. apply writes_str. intros w.
      change (index [x] 0) with (@Ret Z x). unfold encode_bytes, mbind, outcome_bind. by destruct (x <=? 127). }
    apply writes_str. intros w. unfold w_do. do 2 f_equal. rewrite encode_bytes_long by lia.
    unfold encodeStringHeader, puthead, append_str. case_if; cbn; by rewrite <- app_assoc.
  - intros v [Hv Hl]. destruct (encode_bytes_kind v Hv) as (k & Hk & E & Hf). apply (reads_kind _ _ k v); [done|done|].
    intros s rest Ha. destruct k; [| |done]; cbn [bodyOf].
    + destruct (body_byte _ _ _ Ha) as [Eb Hadv]. destruct Hf as (x & -> & _). change (len [x]) with 1 in Hl. subst n.
      eexists. split; [|exact Hadv]. unfold d_bind, mbind, st_bind. cbn [Z.eqb Z.ltb Z.compare Pos.compare Pos.compare_cont Pos.eqb]. by rewrite Eb.
    + destruct (body_full KString v rest s) as [Ef Hadv]; [done|done|]. eexists. split; [|exact Hadv].
      rewrite Hl in *. replace (n <? n) with false by lia. unfold d_bind, mbind, st_bind. rewrite Ef.
      unfold wrapped, mbind, st_bind. rewrite <- Hl. by rewrite canonSize_ok.
  - apply starts_kind.
Qed.

Lemma view_codec {A B} (f : A -> B) (g : B -> A) i ok it (ok' : B -> Prop) : Codec i ok it ->
  (forall b, ok' b -> ok (g b) /\ f (g b) = b) -> Codec (viewInfo f g i) ok' (fun b => it (g b)).
Proof.
  intros [H1 H2 H3 H4] H. split.
  - intros b Hb. by apply H1, H.
  - intros b Hb. by apply H2, H.
  - intros b Hb. destruct (H b Hb) as [Hok E]. cbn [viewInfo ti_decoder]. rewrite <- E at 2. apply (reads_map f). by apply H3.
  - by apply starts_bind.
Qed.

Lemma codec_weaken {A} (i : typeinfo A) (ok ok' : A -> Prop) (it it' : A -> item) : Codec i ok it ->
  (forall v, ok' v -> ok v /\ it' v = it v) -> Codec i ok' it'.
Proof.
  intros [H1 H2 H3 H4] H. split; [| | |done].
  all: intros v Hv; destruct (H v Hv) as [Hok ->]; auto.
Qed.

Lemma hash_codec : Codec hashInfo (fun h => 0 <= h < two256) (fun h => Str (Hash_Bytes h)).
Proof.
  unfold hashInfo. eapply view_codec; [apply byteArray_codec; done|]. intros h Hh. unfold Hash_Bytes, len.
  rewrite be_bytes_length, be_val_be_bytes. split; [split; [apply be_bytes_bytes|done]|]. apply Z.mod_small. exact Hh.
Qed.

Lemma address_codec : Codec addressInfo (fun a => 0 <= a < 2 ^ 160) (fun a => Str (Address_Bytes a)).
Proof.
  unfold addressInfo. eapply view_codec; [apply byteArray_codec; done|]. intros h Hh. unfold Address_Bytes, len.
  rewrite be_bytes_length, be_val_be_bytes. split; [split; [apply be_bytes_bytes|done]|]. apply Z.mod_small. exact Hh.
Qed.

(** Pointers: nil is decoded as such only with the tag; an empty value then is not one of the element type. *)
Definition ptr_ok {A} (ok : A -> Prop) (v : option A) : Prop := match v with Some a => ok a | None => False end.
Definition nil_item (nilKind : Kind) : item := match nilKind with KString => Str [] | _ => Lst [] end.
Definition ptr_item {A} (nilKind : Kind) (it : A -> item) (v : option A) : item := match v with Some a => it a | None => nil_item nilKind end.

Lemma ptr_codec {A} k (e : typeinfo A) ok it : Codec e ok it -> Codec (ptrInfo k e) (ptr_ok ok) (ptr_item k it).
Proof.
  intros [H1 H2 H3 H4]. split.
  - intros [a|]; [apply H1|done].
  - intros [a|]; [apply H2|done].
  - intros [a|] Ha; [|done]. cbn. apply (reads_map Some). by apply H3.
  - by apply starts_bind.
Qed.

Definition nil_ok {A} (ok : A -> Prop) (it : A -> item) (v : option A) : Prop :=
  match v with Some a => ok a /\ it a <> Str [] /\ it a <> Lst [] | None => True end.

Lemma nilPtr_codec {A} k (e : typeinfo A) ok it : k <> KByte -> Codec e ok it ->
  Codec (nilPtrInfo k e) (nil_ok ok it) (ptr_item k it).
Proof.
  intros Hk [H1 H2 H3 H4]. split.
  - intros [a|]; [intros [Ha _]; by apply H1|]. intros _. destruct k; [done|repeat constructor..].
  - intros [a|]; [intros [Ha _]; by apply H2|]. intros _. destruct k; [done|by apply writes_str|].
    intros p heads lh _. exists [192], [], 0. cbn. rewrite !app_nil_r, Z.add_0_r. split; [done|apply wrote_str].
  - intros [a|] Hv.
    + destruct Hv as (Ha & Hn1 & Hn2). cbn [ptr_item nilPtrInfo ti_decoder]. intros s rest Hs E Hroom.
      pose proof (H1 a Ha) as Hi. assert (Hsplit : exists k c, encode (it a) = header k c ++ c /\ fits k c /\ (k = KByte \/ len (bodyOf k c) <> 0)).
      { destruct (it a) as [b|l] eqn:Eit; inversion Hi as [? Hb|? Hl]; subst.
        - destruct (encode_bytes_kind b Hb) as (k' & Hk' & Eb & Hf). exists k', b. split; [done|]. split; [done|].
          destruct k'; [by left|right|done]. cbn. destruct b; [done|]. rewrite len_cons. pose proof (len_nonneg b). lia.
        - exists KList, (concat (encode <$> l)). split; [done|]. split; [done|]. right. cbn. destruct l as [|x l]; [done|]. cbn.
          rewrite len_app. pose proof (encode_nonempty x). pose proof (len_nonneg (concat (encode <$> l))). lia. }
      destruct Hsplit as (k' & c & Ek & Hf & Hne). destruct (H3 a Ha s rest Hs E Hroom) as (s' & Ed & Hadv).
      exists s'. split; [|done]. rewrite Ek in E, Hroom. rewrite len_app in Hroom. rewrite <- app_assoc in E.
      pose proof (s_Kind_header k' c s rest Hs Hf E Hroom) as EK.
      unfold makeNilPtrDecoder, d_bind at 1, mbind, st_bind, wrapped, mbind, st_bind. rewrite EK. unfold mret, st_ret.
      replace (negb (bool_decide (k' = KByte)) && (len (bodyOf k' c) =? 0)) with false.
      2: { destruct Hne as [->|Hne]; [done|]. destruct (Z.eqb_spec (len (bodyOf k' c)) 0); [done|]. by rewrite andb_false_r. }
      unfold d_bind, mbind, st_bind. rewrite (starts_again _ _ _ _ H4 EK), Ed. done.
    + cbn [ptr_item nilPtrInfo ti_decoder]. unfold makeNilPtrDecoder.
      assert (Hr : forall k', (k' = KString /\ nil_item k = Str [] \/ k' = KList /\ nil_item k = Lst []) -> k = k' ->
        reads (makeNilPtrDecoder k (ti_decoder e)) (nil_item k) None).
      { intros k' Hk' Ekk. subst k'. intros s rest Hs E Hroom. pose proof (s_Kind_header k [] s rest Hs) as EK.
        assert (Ei : encode (nil_item k) = header k [] ++ []) by (by destruct k). rewrite Ei in *. rewrite len_app in *. rewrite <- app_assoc in E.
        specialize (EK ltac:(by destruct k) E Hroom). exists (rearm (ahead k [] s)). split.
        - unfold makeNilPtrDecoder, d_bind at 1, mbind, st_bind, wrapped, mbind, st_bind. rewrite EK. by destruct k.
        - assert (Et : len (header k []) + len (@nil Z) = len (tagOf k []) + 0) by (by destruct k). rewrite Et.
          apply ahead_advanced; [done|]. apply rearm_advanced. }
      destruct k; [done|apply (Hr KString); auto|apply (Hr KList); auto].
  - cbn. unfold makeNilPtrDecoder. apply starts_bind, starts_wrapped. exists (fun r => mret r). split; [|intros err s; by exists err].
    intros s. unfold mbind, st_bind. by destruct (s_Kind s) as [[]|].
Qed.

(** ** Lists *)

(** [s1] is the stream [s] after [List] in front of a list with the payload [c]. *)
Record entered (c rest : bytes) (s s1 : Stream) : Prop := {
  en_kind : ready s1;
  en_r : s_r s1 = c ++ rest;
  en_stack : stack s1 = len c :: match stack s with [] => [] | l :: r => (l - (len (header KList c) + len c)) :: r end;
  en_limited : limited s1 = limited s;
  en_remaining : limited s = true -> remaining s1 = remaining s - len (header KList c);
  en_room : room s1 (len c);
}.

Lemma s_List_ok c s rest : ready s -> s_r s = header KList c ++ c ++ rest -> room s (len (header KList c) + len c) ->
  exists s1, s_List s = Ret (inl (len c), s1) /\ entered c rest s s1.
Proof.
  intros Hs E Hroom. pose proof (len_nonneg c) as Hc. pose proof (len_nonneg (header KList c)) as Hh.
  unfold s_List, d_bind, mbind, st_bind. rewrite (s_Kind_header KList c s rest) by done.
  assert (Hr2 : s_r (ahead KList c s) = c ++ rest).
  { cbn [ahead with_byteval with_ahead s_r adv tagOf]. rewrite E. unfold len. by rewrite Nat2Z.id, drop_app_length. }
  cbn [bodyOf]. eexists. split; [reflexivity|]. destruct Hroom as [Hn Hr Hl Hlim]. split; try done.
  - unfold shrinkList. cbn [ahead with_byteval with_ahead with_stack stack adv tagOf]. destruct (stack s) as [|l st]; [done|].
    do 2 f_equal. rewrite wrap64_small; [lia|]. unfold_u64. lia.
  - intros El. cbn. by rewrite El.
  - split; cbn -[header]; [lia| |unfold_u64; lia|].
    + change (drop _ (s_r s)) with (s_r (ahead KList c s)). rewrite Hr2, len_app. pose proof (len_nonneg rest). lia.
    + intros El. rewrite El. specialize (Hlim El). lia.
Qed.

Lemma s_ListEnd_ok c rest s s1 s2 : entered c rest s s1 -> advanced (len c) s1 s2 -> s_r s = header KList c ++ c ++ rest ->
  exists s3, s_ListEnd s2 = Ret (inl tt, s3) /\ advanced (len (header KList c) + len c) s s3.
Proof.
  intros [K1 R1 St1 L1 M1 _] [K2 R2 St2 L2 M2] E. pose proof (len_nonneg c) as Hc. pose proof (len_nonneg (header KList c)) as Hh.
  rewrite St1 in St2. unfold s_ListEnd, mbind, st_bind, st_get. rewrite St2.
  replace (0 <? len c - len c) with false by lia. eexists. split; [reflexivity|]. split; try done; cbn -[header].
  - rewrite R2, R1, E, app_assoc, <- len_app. unfold len. by rewrite !Nat2Z.id, !drop_app_length.
  - by rewrite L2, L1.
  - intros El. rewrite M2, M1 by congruence. lia.
Qed.

(** The encodings of a list of values, one after the other *)
Definition encs (l : list item) : bytes := concat (encode <$> l).

Lemma encs_cons x l : encs (x :: l) = encode x ++ encs l.
Proof. done. Qed.
Lemma encs_app l k : encs (l ++ k) = encs l ++ encs k.
Proof. unfold encs. by rewrite fmap_app, concat_app. Qed.

Section lists.
Context {A : Type} (e : typeinfo A) (ok : A -> Prop) (it : A -> item) (He : Codec e ok it).

(** One element of a list *)
Lemma elem_reads a l s rest : ok a -> ready s -> s_r s = encode (it a) ++ encs l ++ rest ->
  room s (len (encode (it a)) + len (encs l)) ->
  exists s', ti_decoder e s = Ret (inl a, s') /\ advanced (len (encode (it a))) s s' /\ ready s' /\
    s_r s' = encs l ++ rest /\ room s' (len (encs l)).
Proof using He.
  intros Ha Hs E Hroom. pose proof (len_nonneg (encs l)) as H1. pose proof (len_nonneg (encode (it a))) as H2.
  destruct (c_reads _ _ _ He a Ha s (encs l ++ rest)) as (s' & Ed & Hadv); [done|done|eapply room_le; [|exact Hroom]; lia|].
  exists s'. split_and!; [done|done|apply Hadv| |by eapply room_advanced; [| |exact Hroom|exact Hadv]].
  rewrite (adv_r _ _ _ Hadv), E. unfold len. by rewrite Nat2Z.id, drop_app_length.
Qed.

Lemma decodeSliceLoop_reads l fuel acc s rest st : Forall ok l -> ready s -> s_r s = encs (it <$> l) ++ rest ->
  room s (len (encs (it <$> l))) -> stack s = len (encs (it <$> l)) :: st -> (length l < fuel)%nat ->
  exists s', decodeSliceLoop (ti_decoder e) fuel acc s = Ret (inl (acc ++ l), s') /\ advanced (len (encs (it <$> l))) s s'.
Proof using He.
  intros Hl. revert fuel acc s st. induction Hl as [|a l Ha Hl IH]; intros fuel acc s st Hs E Hroom Est Hf.
  - destruct fuel as [|fuel]; [lia|]. exists s. cbn [decodeSliceLoop]. unfold mbind, st_bind.
    rewrite (starts_eol _ s (c_starts _ _ _ He)); [|done|by unfold listLimit; rewrite Est]. rewrite app_nil_r. split; [done|].
    change (len (encs _)) with 0. rewrite <- (adv_0 s Hs) at 2. apply advanced_adv.
  - destruct fuel as [|fuel]; [lia|]. cbn [fmap list_fmap] in *. rewrite encs_cons in *. rewrite len_app in *. rewrite <- app_assoc in E.
    destruct (elem_reads a (it <$> l) s rest) as (s1 & Ed & Hadv & Hs1 & E1 & Hroom1); [done..|].
    destruct (IH fuel (acc ++ [a]) s1 st) as (s' & Eloop & Hadv'); [done..| |cbn in Hf; lia|].
    { rewrite (adv_stack _ _ _ Hadv), Est. f_equal. lia. }
    exists s'. split; [|eapply advanced_trans; [apply len_nonneg|apply len_nonneg|done|done]].
    cbn [decodeSliceLoop]. unfold mbind, st_bind. rewrite Ed, Eloop. by rewrite <- app_assoc.
Qed.

Lemma encs_length l : (length l <= length (encs l))%nat.
Proof. apply concat_encode_length. Qed.

Lemma decodeListSlice_reads l : Forall ok l -> reads (decodeListSlice (ti_decoder e)) (Lst (it <$> l)) l.
Proof using He.
  intros Hl s rest Hs E Hroom. rewrite encode_list in *. fold (encs (it <$> l)) in *. set (c := encs (it <$> l)) in *.
  rewrite len_app in *. rewrite <- app_assoc in E. destruct (s_List_ok c s rest Hs E Hroom) as (s1 & EL & En).
  unfold decodeListSlice, d_bind at 1, mbind, st_bind, wrapped, mbind, st_bind. rewrite EL. unfold mret, st_ret.
  destruct (Z.eqb_spec (len c) 0) as [E0|Hn].
  - destruct (s_ListEnd_ok c rest s s1 s1 En) as (s3 & EE & Hadv); [|done|].
    { rewrite E0. rewrite <- (adv_0 s1 (en_kind _ _ _ _ En)) at 2. apply advanced_adv. }
    exists s3. split; [|done]. unfold d_bind, mbind, st_bind. rewrite EE. pose proof (encs_length (it <$> l)) as Hlen. fold c in Hlen.
    rewrite length_fmap in Hlen. unfold len in E0. by rewrite (nil_length_inv l) by lia.
  - destruct (decodeSliceLoop_reads l (S (length (s_r s1))) [] s1 rest (tail (stack s1)) Hl) as (s2 & Eloop & Hadv).
    + apply En.
    + apply En.
    + apply En.
    + by rewrite (en_stack _ _ _ _ En).
    + rewrite (en_r _ _ _ _ En), length_app. pose proof (encs_length (it <$> l)) as Hlen. fold c in Hlen. rewrite length_fmap in Hlen. lia.
    + destruct (s_ListEnd_ok c rest s s1 s2 En Hadv E) as (s3 & EE & Hadv3).
      exists s3. split; [|done]. unfold d_bind, mbind, st_bind. unfold decodeSliceElems, mbind, st_bind, st_get. rewrite Eloop.
      rewrite EE. done.
Qed.
End lists.

Lemma writes_nil : writes_as (fun w => Ret (inl w)) [].
Proof. intros p heads lh _. exists [], [], 0. rewrite !app_nil_r, Z.add_0_r. split; [done|apply wrote_nil]. Qed.

Lemma writes_bind m1 m2 l1 l2 : writes_as m1 l1 -> writes_as m2 l2 -> writes_as (w_bind m1 m2) (l1 ++ l2).
Proof.
  intros H1 H2 p heads lh Hu. fold (encs (l1 ++ l2)) in *. rewrite encs_app, len_app in *.
  pose proof (len_nonneg (encs l1)). pose proof (len_nonneg (encs l2)).
  destruct (H1 p heads lh) as (s1 & h1 & k1 & E1 & W1); [fold (encs l1); unfold_u64; lia|].
  destruct (H2 (p ++ s1) (heads ++ h1) (lh + k1)) as (s2 & h2 & k2 & E2 & W2); [fold (encs l2); unfold_u64; lia|].
  exists (s1 ++ s2), (h1 ++ h2), (k1 + k2). unfold w_bind. rewrite E1. cbn. rewrite E2, <- !app_assoc, Z.add_assoc.
  split; [done|]. by apply wrote_app.
Qed.

Lemma writes_list m l : writes_as m l -> writes_as (inList m) [Lst l].
Proof.
  intros H p heads lh. cbn [fmap list_fmap concat encode]. rewrite app_nil_r. fold (encs l). rewrite len_app. intros Hu.
  pose proof (len_nonneg (encs l)). pose proof (len_nonneg (puthead 192 247 (len (encs l)))).
  destruct (H p (heads ++ [mkListhead (len p) lh]) lh) as (s & hs & k & E & Wr); [fold (encs l); unfold_u64; lia|]. fold (encs l) in Wr.
  exists s, (mkListhead (len p) (len (encs l)) :: hs), (len (puthead 192 247 (len (encs l))) + k).
  split; [|apply wrote_list; [unfold_u64; lia|done]].
  unfold inList. cbn [buf_list str lheads lhsize]. rewrite E. cbn [mbind outcome_bind]. pose proof (w_size _ _ _ _ _ Wr) as Sz.
  rewrite <- Sz. rewrite listEnd_ok by (rewrite Sz; unfold_u64; lia). done.
Qed.

Section slices.
Context {A : Type} (e : typeinfo A) (ok : A -> Prop) (it : A -> item) (He : Codec e ok it).

Lemma writeElems_writes l : Forall ok l -> writes_as (writeElems (ti_writer e) l) (it <$> l).
Proof using He.
  intros Hl. induction Hl as [|a l Ha Hl IH]; cbn [writeElems fmap list_fmap]; [apply writes_nil|].
  apply (writes_bind _ _ [it a]); [by apply He|done].
Qed.

Lemma slice_codec : Codec (sliceInfo e) (Forall ok) (fun l => Lst (it <$> l)).
Proof using He.
  split.
  - intros l Hl. constructor. apply Forall_fmap. eapply Forall_impl; [exact Hl|]. intros a. apply (c_item _ _ _ He).
  - intros l Hl. cbn [sliceInfo ti_writer]. unfold makeSliceWriter. destruct l as [|a l].
    + intros p heads lh _. exists [192], [], 0. cbn. rewrite !app_nil_r, Z.add_0_r. split; [done|apply wrote_str].
    + by apply writes_list, writeElems_writes.
  - intros l Hl. by apply decodeListSlice_reads with (ok := ok).
  - apply starts_bind, starts_wrapped, starts_kind.
Qed.

Lemma nilSlice_codec : Codec (nilSliceInfo e) (ptr_ok (Forall ok)) (fun l => Lst (it <$> default [] l)).
Proof using He.
  destruct slice_codec as [H1 H2 H3 H4]. split.
  - intros [l|] Hl; [by apply H1|done].
  - intros [l|] Hl; [by apply H2|done].
  - intros [l|] Hl; [|done]. apply (reads_map Some). by apply H3.
  - by apply starts_bind.
Qed.
End slices.

(** ** Structs *)

(** All fields are optional. *)
Fixpoint opts {T} (fs : fields T) : Prop :=
  match fs with fnil => True | fcons _ (Some _) rest => opts rest | _ => False end.

(** The items of the fields: the optional ones at the end are left out if they are zero. *)
Definition opt_items {A B} (z : zeroval A) (it : A -> item) (its : B -> list item) (v : A * B) : list item :=
  match its v.2 with [] => if isZero z v.1 then [] else [it v.1] | l => it v.1 :: l end.
Definition opt_ok {A B} (z : zeroval A) (ok : A -> Prop) (ok' : B -> Prop) (it : A -> item) (its : B -> list item) (v : A * B) : Prop :=
  (match opt_items z it its v with [] => v.1 = zero z | _ => ok v.1 end) /\ ok' v.2.

Inductive FieldsCodec : forall {T}, fields T -> (T -> Prop) -> (T -> list item) -> Prop :=
  | fc_nil : FieldsCodec fnil (fun _ => True) (fun _ => [])
  | fc_req {A B} (i : typeinfo A) (rest : fields B) ok it ok' its : Codec i ok it -> FieldsCodec rest ok' its ->
      FieldsCodec (fcons i None rest) (fun v => ok v.1 /\ ok' v.2) (fun v => it v.1 :: its v.2)
  | fc_opt {A B} (i : typeinfo A) z (rest : fields B) ok it ok' its : Codec i ok it -> opts rest -> FieldsCodec rest ok' its ->
      FieldsCodec (fcons i (Some z) rest) (opt_ok z ok ok' it its) (opt_items z it its)
  | fc_tail {A} (e : typeinfo A) ok it : Codec e ok it -> FieldsCodec (ftail e) (Forall ok) (fun l => it <$> l).

Lemma opt_items_cases {A B} z (it : A -> item) (its : B -> list item) v :
  (opt_items z it its v = [] /\ its v.2 = [] /\ isZero z v.1 = true) \/
  (opt_items z it its v = it v.1 :: its v.2 /\ (its v.2 = [] -> isZero z v.1 = false)).
Proof. unfold opt_items. destruct (its v.2) as [|x l]; [|by right]. destruct (isZero z v.1); [by left|by right]. Qed.

Lemma fields_items {T} (fs : fields T) ok its v : FieldsCodec fs ok its -> ok v -> Forall item_ok (its v).
Proof.
  intros H. induction H as [|A B i rest ok it ok' its Hi Hr IH|A B i z rest ok it ok' its Hi Ho Hr IH|A e ok it He].
  - constructor.
  - intros [H1 H2]. constructor; [by apply Hi|by apply IH].
  - unfold opt_ok. destruct (opt_items_cases z it its v) as [(E & _)|(E & _)]; rewrite E; [constructor|].
    intros [H1 H2]. constructor; [by apply Hi|by apply IH].
  - intros Hv. apply Forall_fmap. eapply Forall_impl; [exact Hv|]. intros a. apply He.
Qed.

Lemma fields_zero {T} (fs : fields T) ok its v : FieldsCodec fs ok its -> opts fs -> ok v -> its v = [] -> zeroFields fs = Ret v.
Proof.
  intros H. induction H as [|A B i rest ok it ok' its Hi Hr IH|A B i z rest ok it ok' its Hi Ho Hr IH|A e ok it He]; cbn [opts]; try done.
  - by destruct v.
  - intros _. unfold opt_ok. intros [H1 H2] E. rewrite E in H1. destruct (opt_items_cases z it its v) as [(_ & E2 & _)|(E2 & _)]; [|congruence].
    cbn [zeroFields]. rewrite (IH v.2 Ho H2 E2). cbn. rewrite <- H1. by destruct v.
Qed.

Lemma fields_writes {T} (fs : fields T) ok its v seen : FieldsCodec fs ok its -> ok v -> seen = false \/ opts fs ->
  exists n, countFields seen fs v = Ret n /\ writes_as (writeFields n fs v) (its v) /\ (opts fs -> n = 0%nat <-> its v = []).
Proof.
  intros H. revert seen. induction H as [|A B i rest ok it ok' its Hi Hr IH|A B i z rest ok it ok' its Hi Ho Hr IH|A e ok it He]; intros seen.
  - intros _ _. exists 0%nat. split_and!; [done|apply writes_nil|done].
  - intros [H1 H2] Hs. destruct (IH v.2 seen H2) as (n & En & Hw & _); [destruct Hs; [by left|done]|].
    exists (S n). cbn [countFields opts]. rewrite En. split_and!; [done| |done].
    cbn [writeFields]. apply (writes_bind _ _ [it v.1]); [by apply Hi|done].
  - intros Hok _. destruct Hok as [H1 H2]. destruct (IH v.2 true H2) as (n & En & Hw & Hn); [by right|]. specialize (Hn Ho).
    cbn [countFields]. rewrite En. cbn [mbind outcome_bind].
    destruct (opt_items_cases z it its v) as [(E & E2 & Ez)|(E & Ez)]; rewrite E in *.
    + assert (n = 0%nat) as -> by (by apply Hn). rewrite Ez. exists 0%nat. split_and!; [done|apply writes_nil|done].
    + exists (S n). split_and!; [| |done].
      * destruct n; [|done]. by rewrite Ez by (by apply Hn).
      * cbn [writeFields]. apply (writes_bind _ _ [it v.1]); [by apply Hi|done].
  - intros Hok Hs. exists 1%nat. split_and!; [by destruct Hs as [->|]|by apply writeElems_writes with (ok := ok)|done].
Qed.

Lemma fields_reads {T} (fs : fields T) ok its v : FieldsCodec fs ok its -> ok v -> forall s rest st, ready s ->
  s_r s = encs (its v) ++ rest -> room s (len (encs (its v))) -> stack s = len (encs (its v)) :: st ->
  exists s', decodeFields fs s = Ret (inl v, s') /\ advanced (len (encs (its v))) s s'.
Proof.
  intros H. induction H as [|A B i rest ok it ok' its Hi Hr IH|A B i z rest ok it ok' its Hi Ho Hr IH|A e ok it He]; intros Hok s tl st Hs E Hroom Est.
  - exists s. destruct v. split; [done|]. change (len (encs [])) with 0. rewrite <- (adv_0 s Hs) at 2. apply advanced_adv.
  - destruct Hok as [H1 H2]. rewrite encs_cons in *. rewrite len_app in *. rewrite <- app_assoc in E.
    destruct (elem_reads i ok it Hi v.1 (its v.2) s tl) as (s1 & Ed & Hadv & Hs1 & E1 & Hroom1); [done..|].
    destruct (IH v.2 H2 s1 tl st) as (s' & Ef & Hadv'); [done..| |].
    { rewrite (adv_stack _ _ _ Hadv), Est. f_equal. lia. }
    exists s'. split; [|eapply advanced_trans; [apply len_nonneg|apply len_nonneg|done|done]].
    cbn [decodeFields]. unfold mbind, st_bind. rewrite Ed. unfold d_bind, mbind, st_bind. rewrite Ef. by destruct v.
  - destruct Hok as [H1 H2]. destruct (opt_items_cases z it its v) as [(E0 & E2 & Ez)|(E0 & Ez)]; rewrite E0 in *.
    + exists s. cbn [decodeFields]. unfold mbind, st_bind. rewrite (starts_eol _ s (c_starts _ _ _ Hi)); [|done|by unfold listLimit; rewrite Est].
      unfold d_bind, d_do, st_lift, mbind, st_bind. rewrite (fields_zero rest ok' its v.2) by done. cbn.
      split; [by rewrite <- H1; destruct v|]. rewrite <- (adv_0 s Hs) at 2. apply advanced_adv.
    + rewrite encs_cons in *. rewrite len_app in *. rewrite <- app_assoc in E.
      destruct (elem_reads i ok it Hi v.1 (its v.2) s tl) as (s1 & Ed & Hadv & Hs1 & E1 & Hroom1); [done..|].
      destruct (IH v.2 H2 s1 tl st) as (s' & Ef & Hadv'); [done..| |].
      { rewrite (adv_stack _ _ _ Hadv), Est. f_equal. lia. }
      exists s'. split; [|eapply advanced_trans; [apply len_nonneg|apply len_nonneg|done|done]].
      cbn [decodeFields]. unfold mbind, st_bind. rewrite Ed. unfold d_bind, mbind, st_bind. rewrite Ef. by destruct v.
  - cbn [decodeFields]. unfold decodeSliceElems, mbind, st_bind, st_get.
    apply (decodeSliceLoop_reads e ok it He v (S (length (s_r s))) [] s tl st Hok Hs E Hroom Est).
    rewrite E, length_app. pose proof (encs_length (it <$> v)) as Hl. rewrite length_fmap in Hl. lia.
Qed.

Lemma struct_codec {T} (fs : fields T) ok its : FieldsCodec fs ok its -> Codec (structInfo fs) ok (fun v => Lst (its v)).
Proof.
  intros H. split.
  - intros v Hv. constructor. by eapply fields_items.
  - intros v Hv. destruct (fields_writes fs ok its v false H Hv) as (n & En & Hw & _); [by left|].
    intros p heads lh Hu. cbn [structInfo ti_writer]. unfold makeStructWriter. rewrite En. by apply writes_list.
  - intros v Hv s rest Hs E Hroom. rewrite encode_list in *. fold (encs (its v)) in *. set (c := encs (its v)) in *.
    rewrite len_app in *. rewrite <- app_assoc in E. destruct (s_List_ok c s rest Hs E Hroom) as (s1 & EL & En).
    destruct (fields_reads fs ok its v H Hv s1 rest (tail (stack s1))) as (s2 & Ef & Hadv).
    + apply En.
    + apply En.
    + apply En.
    + by rewrite (en_stack _ _ _ _ En).
    + destruct (s_ListEnd_ok c rest s s1 s2 En Hadv E) as (s3 & EE & Hadv3). exists s3. split; [|done].
      cbn [structInfo ti_decoder]. unfold makeStructDecoder, d_bind at 1, mbind, st_bind, wrapped at 1, mbind, st_bind. rewrite EL. unfold mret, st_ret.
      unfold d_bind at 1, mbind, st_bind. rewrite Ef. unfold d_bind, mbind, st_bind, wrapped, mbind, st_bind. by rewrite EE.
  - apply starts_bind, starts_wrapped, starts_kind.
Qed.

(** ** Whole inputs *)

Lemma writes_whole (m : W) it : writes_as m [it] -> is_u64 (len (encode it)) ->
  exists w, m emptyBuf = Ret (inl w) /\ makeBytes w = encode it.
Proof.
  intros H Hu. destruct (H [] [] 0) as (s & hs & k & E & Wr).
  { cbn. by rewrite app_nil_r. }
  unfold emptyBuf. rewrite E. eexists. split; [done|]. unfold makeBytes. cbn [app str lheads].
  pose proof (w_copy _ _ _ _ _ Wr [] [] I) as Hc. cbn [app] in Hc. rewrite !app_nil_r in Hc. change (len []) with 0 in Hc. rewrite Hc. cbn [copyTo fmap list_fmap concat]. rewrite app_nil_r.
  rewrite drop_ge; [by rewrite app_nil_r|]. cbn. unfold len. lia.
Qed.

Lemma encodeVal_ok {A} (i : typeinfo A) ok it v : Codec i ok it -> ok v -> is_u64 (len (encode (it v))) ->
  encodeVal i v = Ret (inl (encode (it v))).
Proof.
  intros Hi Hv Hu. destruct (writes_whole _ _ (c_writes _ _ _ Hi v Hv) Hu) as (w & E & <-). unfold encodeVal. by rewrite E.
Qed.

(** The elements of a [[]any] *)
Lemma encodeAny_ok ws its : Forall2 (fun w it => writes_as w [it]) ws its -> is_u64 (len (encode (Lst its))) ->
  encodeAny ws = Ret (inl (encode (Lst its))).
Proof.
  intros H Hu. assert (Hw : writes_as (makeSliceWriter (fun w => w) ws) [Lst its]).
  { unfold makeSliceWriter. destruct H as [|w i ws its Hw H].
    - intros p heads lh _. exists [192], [], 0. cbn. rewrite !app_nil_r, Z.add_0_r. split; [done|apply wrote_str].
    - apply writes_list, (writes_bind _ _ [i]); [done|]. clear Hu. induction H as [|x j ws its Hx H IH]; [apply writes_nil|].
      by apply (writes_bind _ _ [j]). }
  destruct (writes_whole _ _ Hw Hu) as (w & E & <-). unfold encodeAny. by rewrite E.
Qed.

Lemma reset_room b : len b < 2 ^ 63 -> b <> [] -> room (s_Reset b false (len b) zeroStream) (len b).
Proof.
  intros Hb Hn. assert (0 < len b) by (destruct b; [done|]; rewrite len_cons; pose proof (len_nonneg b); lia).
  unfold s_Reset. replace (0 <? len b) with true by lia. split; cbn; [lia|lia|done|unfold two64; lia].
Qed.

Lemma decodeVal_ok {A} (i : typeinfo A) ok it v : Codec i ok it -> ok v -> len (encode (it v)) < 2 ^ 63 ->
  decodeVal i (encode (it v)) = Ret (inl v).
Proof.
  intros Hi Hv Hl. pose proof (encode_nonempty (it v)) as Hne. set (b := encode (it v)) in *.
  assert (Hb : b <> []) by (intros E; rewrite E in Hne; done).
  destruct (c_reads _ _ _ Hi v Hv (s_Reset b false (len b) zeroStream) []) as (s' & E & Hadv).
  - unfold ready, s_Reset. by case_if.
  - rewrite app_nil_r. unfold s_Reset. by case_if.
  - by apply reset_room.
  - unfold decodeVal, DecodeBytes. rewrite E. cbn [mbind outcome_bind].
    rewrite (adv_r _ _ _ Hadv). fold b. assert (Er : s_r (s_Reset b false (len b) zeroStream) = b) by (unfold s_Reset; by case_if).
    rewrite Er, drop_ge by (unfold len; lia). done.
Qed.
