(* ===== verification/RlpCanon.v ===== *)
(** * The decoder accepts only canonical encodings

    A value that a decoder returns re-encodes to exactly the bytes that were read, and a decoder never
    panics, whatever the input.  This is what makes the hash of a decoded object the hash of the bytes
    received.  Proved for every generator of RlpTypes.v but [RawValue], which checks nothing. *)

From S2P Require Import Prelude Bytes Rlp RlpTheorems RlpStream RlpTypes RlpCodec.

Set Default Proof Using "Type".

(** ** Streams over a byte slice with its length as the limit *)

Record wf (s : Stream) : Prop := {
  wf_bytes : Forall is_byte (s_r s);
  wf_len : len (s_r s) < 2 ^ 63;
  wf_limit : (limited s = true /\ remaining s = len (s_r s)) \/ (limited s = false /\ s_r s = [] /\ stack s = []);
  wf_stack : Forall is_u64 (stack s);
}.

Lemma wf_advanced n s s' : wf s -> room s n -> advanced n s s' -> wf s'.
Proof.
  intros [H1 H2 H3 H4] [R1 R2 R3 R4] [K R St L M]. assert (Hl : len (s_r s') = len (s_r s) - n).
  { rewrite R. unfold len in *. rewrite length_drop. lia. }
  split.
  - rewrite R. by apply Forall_drop.
  - lia.
  - rewrite L. destruct H3 as [[E1 E2]|(E1 & E2 & E3)]; [left|right].
    + split; [done|]. rewrite M by done. lia.
    + rewrite R, E2, St, E3. by rewrite drop_nil.
  - rewrite St. destruct (stack s) as [|l st]; [done|]. apply Forall_cons in H4 as [Hl4 H4]. constructor; [unfold_u64; lia|done].
Qed.

Lemma willRead_inv n s r s' : wf s -> 0 <= n < 2 ^ 63 -> willRead n s = Ret (r, s') ->
  (exists e, r = inr e /\ e <> EOL) \/ (r = inl tt /\ s' = with_r (s_r s) (adv n s) /\ (n <= len (s_r s) -> room s n) /\ (limited s = true -> n <= len (s_r s))).
Proof.
  intros [H1 H2 H3 H4] Hn E. assert (Hroom : (match listLimit s with Some l => n <= l | None => True end) ->
    (limited s = true -> n <= remaining s) -> n <= len (s_r s) -> room s n).
  { intros Hl Hr Hlen. split; [done|done| |].
    - unfold listLimit in Hl. destruct (stack s) as [|l st]; [done|]. apply Forall_cons in H4 as [H4 _]. cbn in Hl. unfold_u64. lia.
    - intros El. specialize (Hr El). destruct H3 as [[_ E2]|(E1 & _)]; [|congruence]. unfold_u64. lia. }
  revert E. unfold willRead, mbind, st_bind, st_modify, st_gets, st_get, rearm. cbn.
  destruct (match listLimit _ with Some limit => limit <? n | None => false end) eqn:El; [intros [= <- <-]; left; by eexists|].
  assert (Hlim : match listLimit s with Some l => n <= l | None => True end).
  { unfold listLimit in *. cbn in El. destruct (stack s); cbn in *; [done|lia]. }
  assert (Hst : (match stack s with [] => [] | limit :: rest => (limit -! n) :: rest end) = match stack s with [] => [] | l :: r => (l - n) :: r end).
  { unfold listLimit in Hlim. destruct (stack s) as [|l st]; [done|]. apply Forall_cons in H4 as [H4 _]. cbn in Hlim.
    rewrite wrap64_small; [done|]. unfold_u64. lia. }
  cbn. destruct (limited s) eqn:Elim.
  - destruct (Z.ltb_spec (remaining s) n); [intros [= <- <-]; left; by eexists|]. intros [= <- <-]. right.
    destruct H3 as [[_ E2]|(E1 & _)]; [|congruence]. split_and!; [done| |by apply Hroom|lia].
    unfold adv, with_r, with_remaining, shrinkList, with_stack. cbn. rewrite Elim, Hst.
    rewrite wrap64_small; [done|]. unfold_u64. lia.
  - intros [= <- <-]. right. split_and!; [done| |by apply Hroom|done].
    unfold adv, with_r, shrinkList, with_stack. cbn. by rewrite Elim, Hst.
Qed.

Lemma willRead_total n s : exists r s', willRead n s = Ret (r, s').
Proof.
  unfold willRead, mbind, st_bind, st_modify, st_gets, st_get. case_if; [by eexists _, _|]. cbn.
  repeat case_if; by eexists _, _.
Qed.

Lemma readByte_inv s b s' : wf s -> readByte s = Ret (inl b, s') -> exists t, s_r s = b :: t /\ room s 1 /\ s' = adv 1 s.
Proof.
  intros Hwf. unfold readByte, d_bind, mbind, st_bind. destruct (willRead_total 1 s) as (r & s1 & E). rewrite E.
  destruct (willRead_inv 1 s r s1 Hwf ltac:(lia) E) as [(e & -> & _)|(-> & -> & Hroom & _)]; [done|]. cbn.
  destruct (s_r s) as [|x t] eqn:Er; [done|]. intros [= <- <-]. exists t. split_and!; [done| |].
  - apply Hroom. rewrite len_cons. pose proof (len_nonneg t). lia.
  - unfold adv, with_r. cbn. by rewrite Er.
Qed.

Lemma readByte_total s : exists r s', readByte s = Ret (r, s').
Proof.
  unfold readByte, d_bind, mbind, st_bind. destruct (willRead_total 1 s) as ([] & s1 & ->); [|by eexists _, _]. cbn.
  destruct (s_r s1); by eexists _, _.
Qed.

Lemma readFull_inv n s d s' : wf s -> 0 <= n < 2 ^ 63 -> readFull n s = Ret (inl d, s') ->
  s_r s = d ++ drop (Z.to_nat n) (s_r s) /\ len d = n /\ room s n /\ s' = adv n s.
Proof.
  intros Hwf Hn. unfold readFull, d_bind, mbind, st_bind. destruct (willRead_total n s) as (r & s1 & E). rewrite E.
  destruct (willRead_inv n s r s1 Hwf Hn E) as [(e & -> & _)|(-> & -> & Hroom & _)]; [done|]. cbn.
  destruct (Z.ltb_spec (len (s_r s)) n); [done|]. intros [= <- <-]. split_and!; [by rewrite take_drop| |by apply Hroom|done].
  unfold len in *. rewrite length_take. lia.
Qed.

Lemma readFull_total n s : exists r s', readFull n s = Ret (r, s').
Proof.
  unfold readFull, d_bind, mbind, st_bind. destruct (willRead_total n s) as ([] & s1 & ->); [|by eexists _, _]. cbn.
  case_if; by eexists _, _.
Qed.

(** The size in a long tag: at least 56, and without leading zeroes *)
Lemma readUint_inv n s v s' : wf s -> 1 <= n <= 8 -> readUint n s = Ret (inl v, s') ->
  exists d, s_r s = d ++ s_r s' /\ len d = n /\ v = be_val d /\ Forall is_byte d /\ (n <> 1 -> head d <> Some 0) /\ room s n /\ s' = adv n s.
Proof.
  intros Hwf Hn. unfold readUint. replace (n =? 0) with false by lia. replace (8 <? n) with false by lia.
  destruct (Z.eqb_spec n 1) as [->|Hn1].
  - intros E. destruct (readByte_inv _ _ _ Hwf E) as (t & Et & Hroom & ->). exists [v].
    pose proof (wf_bytes _ Hwf) as Hb. rewrite Et in Hb. apply Forall_cons in Hb as [Hb _].
    split_and!; [cbn; by rewrite Et|done|done|by apply Forall_singleton|done|done|done].
  - unfold d_bind, mbind, st_bind. destruct (readFull n s) as [[[d|e] s1]|] eqn:Ef; try done.
    destruct (readFull_inv n s d s1 Hwf ltac:(lia) Ef) as (Ed & Hl & Hroom & ->).
    unfold d_do, mbind, st_bind, st_lift. destruct d as [|x d]; [rewrite len_nil in Hl; lia|].
    change (index (x :: d) 0) with (@Ret Z x). cbn. destruct (Z.eqb_spec x 0); [done|]. intros [= <- <-]. exists (x :: d).
    pose proof (wf_bytes _ Hwf) as Hb. rewrite Ed in Hb. apply Forall_app in Hb as [Hb _].
    split_and!; try done. intros _ [= ->]. done.
Qed.

(** The tag that [Kind] reads: its byte for a single byte, else the header of a value of [size] bytes *)
Definition tag_of (k : Kind) (size b : Z) : bytes :=
  match k with KByte => [b] | KString => puthead 128 183 size | KList => puthead 192 247 size end.

Lemma readLong_inv k lo n b s size s' : (k = KString /\ lo = 183 \/ k = KList /\ lo = 247) -> wf s -> 1 <= n <= 8 -> b = lo + n ->
  readLong k n s = Ret (k, size, None, s') ->
  is_u64 size /\ b :: putint size = tag_of k size 0 /\ s_r s = putint size ++ s_r s' /\ room s n /\ s' = adv n s /\ len (putint size) = n.
Proof.
  intros Hk Hwf Hn Hb. unfold readLong, mbind, st_bind. destruct (readUint n s) as [[[v|e] s1]|] eqn:E; try done.
  unfold mret, st_ret. destruct (Z.ltb_spec v 56) as [|H56]; [done|]. intros [= <- <-].
  destruct (readUint_inv n s v s1 Hwf Hn E) as (d & Ed & Hl & -> & Hd & Hh & Hroom & ->).
  assert (Hp : putint (be_val d) = d).
  { apply putint_be_val; [done|lia|]. destruct (decide (n = 1)) as [->|]; [|by apply Hh].
    destruct d as [|x [|y d]]; [done| |rewrite !len_cons in Hl; pose proof (len_nonneg d); lia]. change (be_val [x]) with x in H56. intros [= ->]. lia. }
  assert (Hu : is_u64 (be_val d)).
  { pose proof (be_val_bounds d Hd) as Hv. pose proof (Z.pow_le_mono_r 256 (len d) 8 ltac:(lia) ltac:(lia)) as Hp8.
    change (256 ^ 8) with two64 in Hp8. unfold is_u64. lia. }
  rewrite Hp. split_and!; try done. destruct (long_tag (be_val d) lo Hu) as (_ & Et); [destruct Hk as [[_ ->]|[_ ->]]; auto|].
  unfold tag_of, puthead. destruct Hk as [[-> ->]|[-> ->]]; replace (be_val d <? 56) with false by lia; rewrite Hp in *; rewrite Et, Hl, Hb; done.
Qed.

Lemma readLong_kind k0 n s k size err s' : readLong k0 n s = Ret (k, size, err, s') -> k = k0.
Proof. unfold readLong, mbind, st_bind. destruct (readUint n s) as [[[] ?]|]; [|..|done]; by intros [= <- _ _ _]. Qed.

Lemma s_readKind_inv s k size s' : wf s -> s_readKind s = Ret (k, size, None, s') ->
  exists b, s_r s = tag_of k size b ++ s_r s' /\ is_u64 size /\ (k = KByte -> size = 0 /\ 0 <= b < 128) /\
    room s (len (tag_of k size b)) /\ s' = with_byteval (match k with KByte => b | _ => 0 end) (adv (len (tag_of k size b)) s).
Proof.
  intros Hwf. unfold s_readKind, mbind, st_bind. destruct (readByte s) as [[[b|e] s1]|] eqn:E; try done.
  destruct (readByte_inv _ _ _ Hwf E) as (t & Et & Hroom & ->). pose proof (wf_bytes _ Hwf) as Hb. rewrite Et in Hb.
  apply Forall_cons in Hb as [Hb _]. unfold is_byte in Hb.
  assert (Hwf1 : wf (with_byteval 0 (adv 1 s))) by (eapply wf_advanced; [exact Hwf|exact Hroom|apply advanced_byteval]).
  assert (Hr1 : s_r (adv 1 s) = t) by (cbn; by rewrite Et).
  unfold st_modify, mret, st_ret. destruct (Z.ltb_spec b 128).
  { intros [= <- <- <-]. exists b. split_and!; [cbn; by rewrite Et|unfold is_u64, two64; lia|intros _; lia|done|done]. }
  assert (Hsmall : forall k lo, (k = KString /\ lo = 128 \/ k = KList /\ lo = 192) -> lo <= b < lo + 56 ->
    exists b', s_r s = tag_of k (b - lo) b' ++ s_r (with_byteval 0 (adv 1 s)) /\ is_u64 (b - lo) /\ (k = KByte -> b - lo = 0 /\ 0 <= b' < 128) /\
    room s (len (tag_of k (b - lo) b')) /\ with_byteval 0 (adv 1 s) = with_byteval (match k with KByte => b' | _ => 0 end) (adv (len (tag_of k (b - lo) b')) s)).
  { intros k' lo Hk Hlo. exists 0. assert (Etag : tag_of k' (b - lo) 0 = [b]).
    { unfold tag_of, puthead, u8. destruct Hk as [[-> ->]|[-> ->]]; (replace (_ <? 56) with true by lia); rewrite (Z.mod_small (b - _)), Z.mod_small by lia; f_equal; lia. }
    rewrite Etag. split_and!; [cbn; by rewrite Et|unfold is_u64, two64; lia|by destruct Hk as [[-> _]|[-> _]]|done|by destruct Hk as [[-> _]|[-> _]]]. }
  assert (Hlong : forall k lo s', (k = KString /\ lo = 183 \/ k = KList /\ lo = 247) -> lo + 1 <= b <= lo + 8 ->
    readLong k (b - lo) (with_byteval 0 (adv 1 s)) = Ret (k, size, None, s') ->
    exists b', s_r s = tag_of k size b' ++ s_r s' /\ is_u64 size /\ (k = KByte -> size = 0 /\ 0 <= b' < 128) /\
    room s (len (tag_of k size b')) /\ s' = with_byteval (match k with KByte => b' | _ => 0 end) (adv (len (tag_of k size b')) s)).
  { intros k' lo s2 Hk Hlo El. destruct (readLong_inv k' lo (b - lo) b _ size s2 Hk Hwf1 ltac:(lia) ltac:(lia) El) as (Hu & Etag & Er & Hroom2 & -> & Hlen).
    exists 0. rewrite <- Etag. rewrite len_cons, Hlen. split_and!; [rewrite Et; cbn [app]; f_equal; by rewrite <- Hr1|done|by destruct Hk as [[-> _]|[-> _]]| |].
    - destruct Hroom as [R1 R2 R3 R4], Hroom2 as [Q1 Q2 Q3 Q4]. cbn in Q2, Q3, Q4. split; [lia| | |].
      + unfold len in *. rewrite length_drop in Q2. change (Z.to_nat 1) with 1%nat in Q2. lia.
      + destruct (stack s); [done|lia].
      + intros El'. rewrite El' in Q4. specialize (Q4 eq_refl). specialize (R4 El'). lia.
    - change (adv ?n (with_byteval 0 ?s)) with (with_byteval 0 (adv n s)). rewrite adv_adv by lia. replace (1 + (b - lo)) with (b - lo + 1) by lia.
      by destruct Hk as [[-> _]|[-> _]]. }
  destruct (Z.ltb_spec b 184). { intros [= <- <- <-]. apply (Hsmall KString 128); [auto|lia]. }
  destruct (Z.ltb_spec b 192). { intros El. pose proof (readLong_kind _ _ _ _ _ _ _ El) as ->. apply (Hlong KString 183); [auto|lia|done]. }
  destruct (Z.ltb_spec b 248). { intros [= <- <- <-]. apply (Hsmall KList 192); [auto|lia]. }
  intros El. pose proof (readLong_kind _ _ _ _ _ _ _ El) as ->. apply (Hlong KList 247); [auto|lia|done].
Qed.

Lemma readFull_len n s d s' : readFull n s = Ret (inl d, s') -> n <= len d.
Proof.
  unfold readFull, d_bind, mbind, st_bind. destruct (willRead_total n s) as ([] & s1 & ->); [|done]. cbn.
  destruct (Z.ltb_spec (len (s_r s1)) n); [done|]. intros [= <- _]. unfold len in *. rewrite length_take. lia.
Qed.

Lemma readUint_total n s : 0 <= n <= 8 -> exists r s', readUint n s = Ret (r, s').
Proof.
  intros Hn. unfold readUint. destruct (Z.eqb_spec n 0); [by eexists _, _|]. case_if; [apply readByte_total|]. replace (8 <? n) with false by lia.
  unfold d_bind, mbind, st_bind. destruct (readFull n s) as [[[d|] s1]|] eqn:E; [|by eexists _, _|].
  - apply readFull_len in E. unfold d_do, mbind, st_bind, st_lift. destruct d as [|x d]; [rewrite len_nil in E; lia|].
    change (index (x :: d) 0) with (@Ret Z x). cbn. case_if; by eexists _, _.
  - destruct (readFull_total n s) as (? & ? & ?). congruence.
Qed.

Lemma s_readKind_total s : wf s -> exists r s', s_readKind s = Ret (r, s').
Proof.
  intros Hwf. unfold s_readKind, mbind, st_bind. destruct (readByte s) as [[[b|e] s1]|] eqn:E; [| |destruct (readByte_total s) as (? & ? & ?); congruence].
  - destruct (readByte_inv _ _ _ Hwf E) as (t & Et & _). pose proof (wf_bytes _ Hwf) as Hb. rewrite Et in Hb.
    apply Forall_cons in Hb as [Hb _]. unfold is_byte in Hb. unfold st_modify, mret, st_ret.
    assert (Hl : forall k n s, 0 <= n <= 8 -> exists r s', readLong k n s = Ret (r, s')).
    { intros k n s0 Hn. unfold readLong, mbind, st_bind. destruct (readUint_total n s0 Hn) as (r & s2 & ->). by eexists _, _. }
    destruct (Z.ltb_spec b 128); [by eexists _, _|]. destruct (Z.ltb_spec b 184); [by eexists _, _|].
    destruct (Z.ltb_spec b 192); [apply Hl; lia|]. destruct (Z.ltb_spec b 248); [by eexists _, _|]. apply Hl; lia.
  - by eexists _, _.
Qed.

Lemma s_Kind_total s : wf s -> exists r s', s_Kind s = Ret (r, s').
Proof.
  intros Hwf. unfold s_Kind, mbind, st_bind, st_get. destruct (s_kind s); [by eexists _, _|].
  destruct (match listLimit s with Some limit => limit =? 0 | None => false end); [by eexists _, _|].
  destruct (s_readKind_total s Hwf) as ([[k size] err] & s1 & ->). by eexists _, _.
Qed.

(** ** The limit of a list

    [Kind] compares the size of a value with what the list had left before the tag, so [List] may enter
    a list that is longer than the rest of the enclosing one: its limit wraps around and is then greater
    than the input, and [ListEnd] fails. *)
Definition bogus (s : Stream) : Prop := match stack s with [] => False | l :: _ => len (s_r s) < l end.

(** What [Kind] found is in the input, with a canonical header. *)
Lemma s_Kind_inv s k size s' : wf s -> ready s -> s_Kind s = Ret (inl (k, size), s') ->
  exists c rest, s_r s = header k c ++ c ++ rest /\ size = len (bodyOf k c) /\ s' = ahead k c s /\
    room s (len (tagOf k c)) /\ len (header k c) + len c <= len (s_r s) /\ limited s = true /\ (k = KByte -> fits KByte c) /\ Forall is_byte c /\
    match stack s with [] => True | l :: _ => len (bodyOf k c) <= l end.
Proof.
  intros Hwf Hs. unfold s_Kind, mbind, st_bind, st_get. rewrite Hs.
  destruct (match listLimit s with Some limit => limit =? 0 | None => false end) eqn:El; [done|].
  destruct (s_readKind s) as [[[[k' size'] err] s1]|] eqn:E; [|done]. unfold st_modify, mret, st_ret, checkSize.
  destruct err as [e|]; [done|].
  destruct (match listLimit s with Some limit => limit <? size' | None => false end) eqn:Elim; [done|].
  destruct (limited s1 && (remaining s1 <? size')) eqn:Erem; [done|]. intros [= -> -> <-].
  destruct (s_readKind_inv s k size s1 Hwf E) as (b & Er & Hu & Hk & Hroom & ->). cbn in Erem.
  assert (Hlim : limited s = true /\ remaining s = len (s_r s)).
  { destruct (wf_limit _ Hwf) as [|(_ & Hn & _)]; [done|]. rewrite Hn in Er. apply (f_equal len) in Er. rewrite len_app, len_nil in Er.
    pose proof (len_nonneg (s_r (with_byteval (match k with KByte => b | _ => 0 end) (adv (len (tag_of k size b)) s)))).
    assert (1 <= len (tag_of k size b)); [|lia]. destruct k; cbn [tag_of]; [done|..]; unfold puthead; case_if; rewrite len_cons; pose proof (len_nonneg (putint size)); rewrite ?len_nil; lia. }
  destruct Hlim as [Hl1 Hl2]. rewrite Hl1, Hl2 in Erem. cbn [andb] in Erem.
  set (t := drop (Z.to_nat (len (tag_of k size b))) (s_r s)). assert (Et : s_r s = tag_of k size b ++ t) by exact Er.
  assert (Ht : len t = len (s_r s) - len (tag_of k size b)) by (rewrite Et, len_app; lia).
  assert (Hsz : size <= len t) by (bool_to_Z; lia). unfold is_u64 in Hu.
  set (c := match k with KByte => [b] | _ => take (Z.to_nat size) t end).
  assert (Hc : k <> KByte -> len c = size).
  { intros Hn. unfold c. destruct k; [done|..]; unfold len in *; rewrite length_take; lia. }
  assert (Etag : tagOf k c = tag_of k size b).
  { destruct k; [done|..]; cbn [tagOf header tag_of]; by rewrite Hc by done. }
  assert (Ebody : size = len (bodyOf k c)).
  { destruct k; [by destruct Hk|..]; cbn [bodyOf]; by rewrite Hc by done. }
  exists c, (match k with KByte => t | _ => drop (Z.to_nat size) t end).
  assert (Esum : len (header k c) + len c = len (tag_of k size b) + size).
  { rewrite <- Etag, Ebody, <- !len_app. by rewrite tag_body. }
  split_and!; [| | | | | | | |].
  - rewrite app_assoc, <- tag_body, Etag, Et, <- app_assoc. f_equal. unfold c. destruct k; [done|..]; cbn [bodyOf]; by rewrite take_drop.
  - done.
  - unfold ahead. rewrite Etag, <- Ebody. destruct k; done.
  - by rewrite Etag.
  - lia.
  - done.
  - intros ->. exists b. split; [done|]. by apply Hk.
  - pose proof (wf_bytes _ Hwf) as Hb. rewrite Et in Hb. apply Forall_app in Hb as [Hb1 Hb2]. unfold c.
    destruct k; [by apply Forall_singleton; apply (Forall_singleton is_byte b)|..]; by apply Forall_take.
  - rewrite <- Ebody. unfold listLimit in Elim. destruct (stack s); [done|]. cbn in Elim. lia.
Qed.

(** ** Running a decoder *)

(** No panic, and no lack of fuel *)
Definition NF (f : failure) : Prop := False.

(** [n] bytes are read from [s] to [s'], within the limits unless the enclosing list was left. *)
Definition within (s : Stream) (n : Z) (s' : Stream) : Prop := bogus s' \/ (room s n /\ advanced n s s').

(** The outcome of a decoder at [s]: the value re-encodes to what was read, and the limits are reduced by
    its size unless the enclosing list was left; the end of the list is reported only there. *)
Definition decoded {A} (ok : A -> Prop) (its : A -> list item) (s : Stream) (r : A + rlperror) (s' : Stream) : Prop :=
  match r with
  | inl v => wf s' /\ ready s' /\ ok v /\ s_r s = encs (its v) ++ s_r s' /\ within s (len (encs (its v))) s'
  | inr e => e = EOL -> s' = s /\ listLimit s = Some 0
  end.

Record Canon {A} (i : typeinfo A) (ok : A -> Prop) (it : A -> item) : Prop := {
  k_decoded s : wf s -> ready s -> wp NF (ti_decoder i) (decoded ok (fun v => [it v]) s) s;
  k_starts : starts (ti_decoder i);
}.

Lemma wp_dbind {A B} (m : D A) (k : A -> D B) Q s :
  wp NF m (fun r s' => match r with inl a => wp NF (k a) Q s' | inr e => Q (inr e) s' end) s -> wp NF (d_bind m k) Q s.
Proof. unfold wp, d_bind, mbind, st_bind. destruct (m s) as [[[a|e] s']|]; done. Qed.

Lemma wp_dget {A} (f : Stream -> A) Q s : Q (inl (f s)) s -> wp NF (d_do (st_gets f)) Q s.
Proof. done. Qed.
Lemma wp_dmodify f Q s : Q (inl tt) (f s) -> wp NF (d_do (st_modify f)) Q s.
Proof. done. Qed.

Lemma wp_wrapped {A} (m : D A) (Q : A + rlperror -> Stream -> Prop) s :
  wp NF m (fun r s' => Q (match r with inl a => inl a | inr e => inr (wrapStreamError e) end) s') s -> wp NF (wrapped m) Q s.
Proof. unfold wp, wrapped, mbind, st_bind. destruct (m s) as [[r s']|]; done. Qed.

Lemma wrap_eol e : wrapStreamError e = EOL -> e = EOL.
Proof. by destruct e. Qed.

Lemma decoded_wrapped {A} (ok : A -> Prop) its s r s' : decoded ok its s r s' ->
  decoded ok its s (match r with inl a => inl a | inr e => inr (wrapStreamError e) end) s'.
Proof. destruct r as [v|e]; [done|]. cbn. intros H E. by apply H, wrap_eol. Qed.

Lemma wp_decoded_wrapped {A} (m : D A) ok its s : wp NF m (decoded ok its s) s -> wp NF (wrapped m) (decoded ok its s) s.
Proof. intros H. apply wp_wrapped. eapply wp_mono; [exact H|]. intros r s'. apply decoded_wrapped. Qed.

Lemma wp_decoded_map {A B} (f : A -> B) (m : D A) (ok : A -> Prop) its (ok' : B -> Prop) its' s :
  (forall v, ok v -> ok' (f v) /\ its' (f v) = its v) ->
  wp NF m (decoded ok its s) s -> wp NF (let! a := m in d_ret (f a)) (decoded ok' its' s) s.
Proof.
  intros H Hm. apply wp_dbind. eapply wp_mono; [exact Hm|]. intros [v|e] s'; [|done]. cbn.
  intros (Hw & Hr & Hok & E). destruct (H v Hok) as [H1 ->]. done.
Qed.

(** *** Errors other than the end of the list *)

Definition not_eol {A} (r : A + rlperror) (s : Stream) : Prop := match r with inl _ => True | inr e => e <> EOL end.

Lemma willRead_not_eol n s : wp NF (willRead n) not_eol s.
Proof.
  unfold wp. destruct (willRead n s) as [[r s']|] eqn:E; [|by destruct (willRead_total n s) as (? & ? & ?); congruence].
  revert E. unfold willRead, mbind, st_bind, st_modify, st_gets, st_get, d_err, d_do, d_ret, mret, st_ret, mbind, st_bind.
  repeat case_match; intros; simplify_eq; done.
Qed.

Lemma readByte_not_eol s : wp NF readByte not_eol s.
Proof.
  unfold readByte. apply wp_dbind. eapply wp_mono; [apply willRead_not_eol|]. intros [[]|e] s'; [|done]. intros _.
  unfold wp, mbind, st_bind, st_get. by destruct (s_r s').
Qed.

Lemma readFull_not_eol n s : wp NF (readFull n) not_eol s.
Proof.
  unfold readFull. apply wp_dbind. eapply wp_mono; [apply willRead_not_eol|]. intros [[]|e] s'; [|done]. intros _.
  unfold wp, mbind, st_bind, st_get, d_bind, mbind, st_bind. cbn. by case_if.
Qed.

Lemma readUint_not_eol n s : 0 <= n <= 8 -> wp NF (readUint n) not_eol s.
Proof.
  intros Hn. unfold readUint. destruct (Z.eqb_spec n 0); [done|]. case_if; [apply readByte_not_eol|]. replace (8 <? n) with false by lia.
  apply wp_dbind. unfold wp. pose proof (readFull_not_eol n s) as H. unfold wp in H. destruct (readFull n s) as [[[d|e] s1]|] eqn:E; [|done|done].
  apply readFull_len in E. apply wp_dbind. unfold wp, d_do, mbind, st_bind, st_lift. destruct d as [|x d]; [rewrite len_nil in E; lia|].
  change (index (x :: d) 0) with (@Ret Z x). cbn. case_if; done.
Qed.

Lemma s_Kind_eol s e s' : wf s -> ready s -> s_Kind s = Ret (inr e, s') -> e = EOL -> s' = s /\ listLimit s = Some 0.
Proof.
  intros Hwf Hs E ->. revert E. unfold s_Kind, mbind, st_bind, st_get. rewrite Hs.
  destruct (match listLimit s with Some limit => limit =? 0 | None => false end) eqn:El.
  { intros [= <-]. split; [done|]. destruct (listLimit s); [|done]. f_equal. lia. }
  destruct (s_readKind s) as [[[[k size] err] s1]|] eqn:E; [|done]. unfold st_modify, mret, st_ret, checkSize.
  destruct err as [e|]; [|repeat case_if; done]. intros [= -> _]. exfalso. revert E.
  unfold s_readKind, mbind, st_bind. pose proof (readByte_not_eol s) as Hb. unfold wp in Hb. destruct (readByte s) as [[[b|e] s2]|] eqn:Eb; [| |done].
  - destruct (readByte_inv _ _ _ Hwf Eb) as (t & Et & _). pose proof (wf_bytes _ Hwf) as Hby. rewrite Et in Hby.
    apply Forall_cons in Hby as [Hby _]. unfold is_byte in Hby. unfold st_modify, mret, st_ret.
    assert (Hl : forall k n s x, 0 <= n <= 8 -> readLong k n s <> Ret (x, Some EOL, s1)).
    { intros k' n s0 [k2 sz2] Hn. unfold readLong, mbind, st_bind. pose proof (readUint_not_eol n s0 Hn) as Hu. unfold wp in Hu.
      destruct (readUint n s0) as [[[v|e] s3]|]; [| |done]; unfold mret, st_ret; [case_if|]; congruence. }
    destruct (Z.ltb_spec b 128); [congruence|]. destruct (Z.ltb_spec b 184); [congruence|].
    destruct (Z.ltb_spec b 192); [apply (Hl _ _ _ (_, _)); lia|]. destruct (Z.ltb_spec b 248); [congruence|]. apply (Hl _ _ _ (_, _)); lia.
  - unfold st_get, mret, st_ret. intros [= _ _ Ee _]. destruct (stack s2), e; congruence.
Qed.

(** ** Strings *)

Record kinded (k : Kind) (c rest : bytes) (s : Stream) : Prop := {
  kd_r : s_r s = header k c ++ c ++ rest;
  kd_room : room s (len (tagOf k c));
  kd_all : len (header k c) + len c <= len (s_r s);
  kd_limited : limited s = true;
  kd_byte : k = KByte -> fits KByte c;
  kd_bytes : Forall is_byte c;
  kd_list : match stack s with [] => True | l :: _ => len (bodyOf k c) <= l end;
}.

Lemma wp_kind {A} (f : Kind * Z -> D A) Q s : wf s -> ready s ->
  (forall k c rest, kinded k c rest s -> wp NF (f (k, len (bodyOf k c))) Q (ahead k c s)) ->
  (forall e s', (e = EOL -> s' = s /\ listLimit s = Some 0) -> Q (inr e) s') -> wp NF (d_bind s_Kind f) Q s.
Proof.
  intros Hwf Hs H He. apply wp_dbind. unfold wp at 1. destruct (s_Kind s) as [[[[k size]|e] s']|] eqn:E.
  - destruct (s_Kind_inv s k size s' Hwf Hs E) as (c & rest & H1 & -> & -> & H2 & H3 & H4 & H5 & H6 & H7). apply (H k c rest). by split.
  - apply He. intros Ee. by eapply s_Kind_eol.
  - by destruct (s_Kind_total s Hwf) as (? & ? & ?); congruence.
Qed.

Lemma wf_ahead k c rest s : wf s -> kinded k c rest s -> wf (ahead k c s).
Proof.
  intros Hwf Hk. pose proof (wf_advanced _ _ _ Hwf (kd_room _ _ _ _ Hk) (advanced_adv _ _)) as [H1 H2 H3 H4]. by split.
Qed.

Lemma ahead_r k c rest s : kinded k c rest s -> s_r (ahead k c s) = bodyOf k c ++ rest.
Proof.
  intros Hk. cbn. rewrite (kd_r _ _ _ _ Hk), app_assoc, <- tag_body, <- app_assoc. unfold len. by rewrite Nat2Z.id, drop_app_length.
Qed.

Lemma room_ahead k c s n : 0 <= n -> room s (len (tagOf k c)) -> room (ahead k c s) n -> len (s_r s) < 2 ^ 63 -> room s (len (tagOf k c) + n).
Proof.
  intros Hn [H1 H2 H3 H4] [R1 R2 R3 R4] Hlen. cbn in R2, R3, R4.
  assert (Hr : len (tagOf k c) + n <= len (s_r s)). { unfold len in *. rewrite length_drop in R2. lia. }
  split; [lia|done| |].
  - destruct (stack s); [done|lia].
  - intros E. rewrite E in R4. specialize (R4 eq_refl). specialize (H4 E). lia.
Qed.

(** The value ahead is taken: a string with the canonical encoding. *)
Lemma decoded_str {A} (ok : A -> Prop) (f : A -> bytes) k c rest s v s' : wf s -> kinded k c rest s -> k <> KList -> fits k c ->
  ok v -> f v = c -> room s (len (tagOf k c) + len (bodyOf k c)) -> advanced (len (bodyOf k c)) (ahead k c s) s' ->
  decoded ok (fun v => [Str (f v)]) s (inl v) s'.
Proof.
  intros Hwf Hk Hn Hf Hok Ev Hroom Hadv. assert (He : encs [Str (f v)] = tagOf k c ++ bodyOf k c).
  { unfold encs. cbn [fmap list_fmap concat encode]. rewrite app_nil_r, Ev, tag_body. unfold encode_bytes.
    destruct k; [|clear Hn|done].
    - destruct Hf as (x & -> & Hx). cbn. by replace (x <=? 127) with true by lia.
    - cbn [header]. destruct c as [|x [|y c]]; [done| |done]. specialize (Hf x eq_refl). by replace (x <=? 127) with false by lia. }
  assert (Ha : advanced (len (tagOf k c) + len (bodyOf k c)) s s') by (apply ahead_advanced; [apply len_nonneg|done]).
  cbn [decoded]. rewrite He, len_app. split; [by eapply wf_advanced|]. split; [apply Hadv|]. split; [done|]. split; [|by right].
  rewrite (adv_r _ _ _ Ha), (kd_r _ _ _ _ Hk), app_assoc, <- tag_body.
  rewrite <- len_app. unfold len. by rewrite Nat2Z.id, drop_app_length.
Qed.

Lemma wp_byteval c rest s (Q : Z + rlperror -> Stream -> Prop) : kinded KByte c rest s ->
  (forall x, c = [x] -> 0 <= x < 128 -> advanced 0 (ahead KByte c s) (rearm (ahead KByte c s)) -> Q (inl x) (rearm (ahead KByte c s))) ->
  wp NF s_byteval Q (ahead KByte c s).
Proof.
  intros Hk H. destruct (kd_byte _ _ _ _ Hk eq_refl) as (x & -> & Hx). apply (H x); [done|done|apply rearm_advanced].
Qed.

(** [readFull] of the body: the body, or an error *)
Lemma wp_body k c rest s (Q : bytes + rlperror -> Stream -> Prop) : wf s -> kinded k c rest s -> k <> KByte ->
  (forall s', room s (len (tagOf k c) + len c) -> advanced (len c) (ahead k c s) s' -> Q (inl c) s') ->
  (forall e s', e <> EOL -> Q (inr e) s') -> wp NF (readFull (len c)) Q (ahead k c s).
Proof.
  intros Hwf Hk Hn H He. pose proof (wf_ahead _ _ _ _ Hwf Hk) as Hwa. pose proof (ahead_r _ _ _ _ Hk) as Hr. assert (Eb : bodyOf k c = c) by (by destruct k).
  pose proof (readFull_not_eol (len c) (ahead k c s)) as Hne. unfold wp in *. destruct (readFull (len c) (ahead k c s)) as [[[d|e] s']|] eqn:E; [|by apply He|done].
  assert (Hc : 0 <= len c < 2 ^ 63).
  { pose proof (len_nonneg c). pose proof (len_nonneg (header k c)). pose proof (kd_all _ _ _ _ Hk). pose proof (wf_len _ Hwf). lia. }
  destruct (readFull_inv (len c) _ d s' Hwa Hc E) as (Ed & Hl & Hroom & ->).
  assert (d = c) as ->.
  { rewrite Hr, Eb in Ed. apply (f_equal (take (length c))) in Ed.
    rewrite take_app_length in Ed. rewrite take_app_le, take_ge in Ed by (unfold len in Hl; lia). done. }
  apply H; [|apply advanced_adv]. apply room_ahead; [apply len_nonneg|apply Hk|done|apply Hwf].
Qed.

Lemma wp_canonSize c s (Q : bytes + rlperror -> Stream -> Prop) : (fits KString c -> Q (inl c) s) -> Q (inr ErrCanonSize) s ->
  wp NF (canonSize (len c) c) Q s.
Proof.
  intros H1 H2. unfold canonSize. destruct c as [|x c]; [by apply H1|].
  destruct ((len (x :: c) =? 1) && (x <? 128)) eqn:E; [done|]. apply H1. intros y [= -> ->]. change (len [y]) with 1 in E. cbn in E. lia.
Qed.

Lemma byteSlice_canon : Canon byteSliceInfo (Forall is_byte) Str.
Proof.
  split; [|apply starts_wrapped, starts_kind]. intros s Hwf Hs. cbn [byteSliceInfo ti_decoder]. apply wp_decoded_wrapped, wp_kind; [done|done| |done].
  intros k c rest Hk. destruct k; [| |done].
  - apply wp_dbind. eapply wp_byteval; [done|]. intros x Ec Hx Ha. eapply (decoded_str _ (fun v => v) KByte c rest); try done.
    + by exists x.
    + rewrite <- Ec. apply Hk.
    + rewrite Z.add_0_r. apply Hk.
  - cbn [bodyOf]. apply wp_dbind. unfold makeSize. replace (len c <? 2 ^ 63) with true.
    2: { symmetry. apply Z.ltb_lt. pose proof (len_nonneg (header KString c)). pose proof (kd_all _ _ _ _ Hk). pose proof (wf_len _ Hwf). lia. }
    apply wp_ret, wp_dbind. eapply wp_body; [done|done|done| |by intros e s' He ?]. intros s' Hroom Ha. apply wp_canonSize; [|done].
    intros Hf. eapply (decoded_str _ (fun v => v) KString c rest); try done. apply Hk.
Qed.

(** ** Integers *)

Lemma wp_readUint c rest s (Q : Z + rlperror -> Stream -> Prop) : wf s -> kinded KString c rest s -> len c <= 8 ->
  (forall s', room s (len (tagOf KString c) + len c) -> advanced (len c) (ahead KString c s) s' -> (1 < len c -> head c <> Some 0) -> Q (inl (be_val c)) s') ->
  (forall e s', e <> EOL -> Q (inr e) s') -> wp NF (readUint (len c)) Q (ahead KString c s).
Proof.
  intros Hwf Hk Hl H He. pose proof (len_nonneg c) as Hc. destruct (decide (len c = 0)) as [E0|Hn].
  - assert (Hc0 : c = []) by (destruct c; [done|]; rewrite len_cons in E0; pose proof (len_nonneg c); lia). subst c.
    apply H; [|apply rearm_advanced|done]. rewrite Z.add_0_r. apply Hk.
  - pose proof (wf_ahead _ _ _ _ Hwf Hk) as Hwa. pose proof (ahead_r _ _ _ _ Hk) as Hr. cbn [bodyOf] in Hr.
    pose proof (readUint_not_eol (len c) (ahead KString c s) ltac:(lia)) as Hne. unfold wp in *.
    destruct (readUint (len c) (ahead KString c s)) as [[[v|e] s']|] eqn:E; [|by apply He|done].
    destruct (readUint_inv (len c) _ v s' Hwa ltac:(lia) E) as (d & Ed & Hld & -> & Hd & Hh & Hroom & ->).
    assert (d = c) as ->.
    { rewrite Hr in Ed. apply (f_equal (take (length c))) in Ed.
      rewrite take_app_length in Ed. rewrite take_app_le, take_ge in Ed by (unfold len in Hld; lia). done. }
    apply H; [apply room_ahead; [done|apply Hk|done|apply Hwf]|apply advanced_adv|intros ?; apply Hh; lia].
Qed.

Lemma s_uint_decoded bits s : 0 < bits <= 64 -> bits mod 8 = 0 -> wf s -> ready s ->
  wp NF (s_uint bits) (decoded (fun v => 0 <= v < 2 ^ bits) (fun v => [Str (intBytes v)]) s) s.
Proof.
  intros Hb Hm Hwf Hs. assert (Hp8 : 2 ^ 8 <= 2 ^ bits).
  { apply Z.pow_le_mono_r; [lia|]. pose proof (Z.div_mod bits 8 ltac:(lia)). lia. } change (2 ^ 8) with 256 in Hp8.
  apply wp_kind; [done|done| |done]. intros k c rest Hk. destruct k; [| |done].
  - destruct (kd_byte _ _ _ _ Hk eq_refl) as (x & -> & Hx). apply wp_dbind, wp_dget. cbn [ahead with_byteval byteval hd].
    destruct (Z.eqb_spec x 0); [done|]. apply wp_dbind, wp_dmodify. eapply (decoded_str _ intBytes KByte [x] rest); try done.
    + by exists x.
    + lia.
    + unfold intBytes. replace (x =? 0) with false by lia. unfold putint. replace (x <? 2 ^ 8) with true by lia. unfold u8. by rewrite Z.mod_small by lia.
    + rewrite Z.add_0_r. apply Hk.
    + apply rearm_advanced.
  - cbn [bodyOf]. destruct (Z.ltb_spec (bits / 8) (len c)) as [|Hle]; [done|]. assert (Hd : 8 * (bits / 8) = bits) by (pose proof (Z.div_mod bits 8 ltac:(lia)); lia).
    apply wp_bind. eapply wp_readUint; [done|done|lia| |].
    + intros s' Hroom Ha Hh. pose proof (len_nonneg c) as Hc. pose proof (kd_bytes _ _ _ _ Hk) as Hby.
      destruct ((0 <? len c) && (be_val c <? 128)) eqn:Ec; [done|].
      assert (Hhead : c <> [] -> head c <> Some 0).
      { intros Hne. destruct c as [|x [|y c]]; [done| |apply Hh; rewrite !len_cons; pose proof (len_nonneg c); lia].
        change (len [x]) with 1 in Ec. change (be_val [x]) with x in Ec. cbn in Ec. intros [= ->]. lia. }
      eapply (decoded_str _ intBytes KString c rest); try done.
      * intros x ->. change (len [x]) with 1 in Ec. change (be_val [x]) with x in Ec. cbn in Ec. lia.
      * pose proof (be_val_bounds c Hby) as Hv. change 256 with (2 ^ 8) in Hv. rewrite <- Z.pow_mul_r in Hv by lia.
        pose proof (Z.pow_le_mono_r 2 (8 * len c) bits). lia.
      * destruct c as [|x c]; [done|]. unfold intBytes. pose proof (putint_be_val (x :: c) Hby ltac:(rewrite len_cons in *; pose proof (len_nonneg c); lia) (Hhead ltac:(done))) as Hp.
        destruct (Z.eqb_spec (be_val (x :: c)) 0) as [E0|]; [|done]. rewrite E0 in Hp. exfalso. injection Hp as <- _. by apply Hhead.
    + intros e s' He. by destruct e.
  Unshelve. all: done.
Qed.

Lemma uint_canon bits : 0 < bits <= 64 -> bits mod 8 = 0 -> Canon (uintInfo bits) (fun v => 0 <= v < 2 ^ bits) (fun v => Str (intBytes v)).
Proof.
  intros Hb Hm. split; [|apply starts_wrapped, starts_kind]. intros s Hwf Hs. by apply wp_decoded_wrapped, s_uint_decoded.
Qed.

Lemma bool_canon : Canon boolInfo (fun _ => True) (fun b => Str (if b : bool then [1] else [])).
Proof.
  split; [|apply starts_wrapped, starts_bind, starts_kind]. intros s Hwf Hs. cbn [boolInfo ti_decoder]. apply wp_decoded_wrapped, wp_dbind.
  eapply wp_mono; [apply (s_uint_decoded 8); done|]. intros [v|e] s'; [|done]. intros (Hw & Hr & Hd).
  destruct (Z.eqb_spec v 0) as [->|]; [|destruct (Z.eqb_spec v 1) as [->|]; [|done]].
  all: split; [done|]; split; [done|]; split; [done|]; apply Hd.
Qed.

Lemma decodeInteger_decoded large s (P : Z -> Prop) : wf s -> ready s ->
  (forall c rest, 32 < len c -> kinded KString c rest s -> wp NF (large (len c)) (fun r s' => match r with
     | inl d => d = c /\ P (be_val c) /\ room s (len (tagOf KString c) + len c) /\ advanced (len c) (ahead KString c s) s'
     | inr e => e <> EOL end) (ahead KString c s)) ->
  (forall v, 0 <= v < 256 ^ 32 -> P v) ->
  wp NF (decodeInteger large) (decoded P (fun v => [Str (minBytes v)]) s) s.
Proof.
  intros Hwf Hs Hlarge Hsmall. apply wp_kind; [done|done| |done]. intros k c rest Hk. pose proof (kd_bytes _ _ _ _ Hk) as Hby.
  assert (Hend : forall s', k <> KList -> fits k c -> P (be_val c) -> room s (len (tagOf k c) + len (bodyOf k c)) -> advanced (len (bodyOf k c)) (ahead k c s) s' ->
    wp NF (integerOf c) (decoded P (fun v => [Str (minBytes v)]) s) s').
  { intros s' Hn Hf HP Hroom Ha. unfold integerOf. destruct c as [|x c].
    - eapply (decoded_str _ minBytes k [] rest); done.
    - destruct (Z.eqb_spec x 0) as [->|Hx]; [done|]. eapply (decoded_str _ minBytes k (x :: c) rest); try done.
      apply minBytes_unique; [done|]. intros [= ->]. done. }
  assert (Hval : len c <= 32 -> P (be_val c)).
  { intros Hl. apply Hsmall. pose proof (be_val_bounds c Hby) as Hv. pose proof (len_nonneg c).
    pose proof (Z.pow_le_mono_r 256 (len c) 32). lia. }
  apply wp_dbind. destruct k; [| |done]; cbn [bodyOf].
  - apply wp_dbind. eapply wp_byteval; [done|]. intros x -> Hx Ha. apply Hend; [done|by exists x|by apply Hval| |done].
    rewrite Z.add_0_r. apply Hk.
  - destruct (Z.eqb_spec (len c) 0) as [E0|].
    { assert (Hc0 : c = []) by (destruct c; [done|]; rewrite len_cons in E0; pose proof (len_nonneg c); lia). subst c.
      apply wp_dbind, wp_dmodify. apply Hend; [done|done|by apply Hval| |apply rearm_advanced]. rewrite Z.add_0_r. apply Hk. }
    destruct (Z.leb_spec (len c) 32).
    + apply wp_dbind. eapply wp_body; [done|done|done| |by intros e s' He ?]. intros s' Hroom Ha. apply wp_canonSize; [|done].
      intros Hf. apply Hend; auto.
    + eapply wp_mono; [by apply (Hlarge c rest)|]. intros [d|e] s'; [|done]. intros (-> & HP & Hroom & Ha). apply Hend; auto.
      intros x ->. change (len [x]) with 1 in *. lia.
Qed.

Lemma bigInt_canon : Canon bigIntInfo (fun v => 0 <= v) (fun v => Str (minBytes v)).
Proof.
  split; [|apply starts_wrapped, starts_kind]. intros s Hwf Hs. cbn [bigIntInfo ti_decoder]. apply wp_decoded_wrapped, decodeInteger_decoded; [done|done| |lia].
  intros c rest Hc Hk. apply wp_dbind. unfold makeSize. replace (len c <? 2 ^ 63) with true.
  2: { symmetry. apply Z.ltb_lt. pose proof (len_nonneg (header KString c)). pose proof (kd_all _ _ _ _ Hk). pose proof (wf_len _ Hwf). lia. }
  apply wp_ret. eapply wp_body; [done|done|done| |done]. intros s' Hroom Ha. split_and!; try done. apply be_val_bounds, Hk.
Qed.

Lemma u256_canon : Canon u256Info (fun v => 0 <= v < two256) (fun v => Str (minBytes v)).
Proof.
  split; [|apply starts_wrapped, starts_kind]. intros s Hwf Hs. cbn [u256Info ti_decoder]. apply wp_decoded_wrapped, decodeInteger_decoded; [done|done|done|].
  intros v Hv. change (256 ^ 32) with two256 in Hv. done.
Qed.

Lemma bigIntPtr_canon : Canon bigIntPtrInfo (fun v => exists i, v = Some i /\ 0 <= i) (fun v => Str (minBytes (default 0 v))).
Proof.
  destruct bigInt_canon as [H1 H2]. split; [|by apply starts_bind]. intros s Hwf Hs.
  apply (wp_decoded_map Some _ (fun v => 0 <= v) (fun v => [Str (minBytes v)])); [|by apply H1]. intros v Hv. eauto.
Qed.

(** ** Arrays of bytes, views and pointers *)

Lemma byteArray_canon n : 0 <= n -> Canon (byteArrayInfo n) (fun v => Forall is_byte v /\ len v = n) Str.
Proof.
  intros Hn. split; [|apply starts_kind]. intros s Hwf Hs. cbn [byteArrayInfo ti_decoder]. apply wp_kind; [done|done| |done].
  intros k c rest Hk. destruct k; [| |done]; cbn [bodyOf].
  - destruct (Z.eqb_spec n 0); [done|]. destruct (Z.ltb_spec 1 n); [done|]. apply wp_dbind. eapply wp_byteval; [done|].
    intros x -> Hx Ha. eapply (decoded_str _ (fun v => v) KByte [x] rest); try done.
    + by exists x.
    + split; [apply Hk|]. change (len [x]) with 1. lia.
    + rewrite Z.add_0_r. apply Hk.
  - destruct (Z.ltb_spec n (len c)); [done|]. destruct (Z.ltb_spec (len c) n); [done|]. assert (n = len c) as -> by lia.
    apply wp_dbind. eapply wp_body; [done|done|done| |by intros e s' He ?]. intros s' Hroom Ha. apply wp_wrapped, wp_canonSize; [|done].
    intros Hf. eapply (decoded_str _ (fun v => v) KString c rest); try done. split; [apply Hk|done].
Qed.

Lemma view_canon {A B} (f : A -> B) (g : B -> A) i ok it (ok' : B -> Prop) : Canon i ok it ->
  (forall a, ok a -> ok' (f a) /\ g (f a) = a) -> Canon (viewInfo f g i) ok' (fun b => it (g b)).
Proof.
  intros [H1 H2] H. split; [|by apply starts_bind]. intros s Hwf Hs.
  apply (wp_decoded_map f _ ok (fun v => [it v])); [|by apply H1]. intros v Hv. destruct (H v Hv) as [? ->]. done.
Qed.

Lemma canon_weaken {A} (i : typeinfo A) (ok ok' : A -> Prop) (it it' : A -> item) : Canon i ok it ->
  (forall v, ok v -> ok' v /\ it' v = it v) -> Canon i ok' it'.
Proof.
  intros [H1 H2] H. split; [|done]. intros s Hwf Hs. eapply wp_mono; [by apply H1|]. intros [v|e] s'; [|done].
  cbn. intros (Hw & Hr & Hok & E). destruct (H v Hok) as [? ->]. done.
Qed.

Lemma hash_canon : Canon hashInfo (fun h => 0 <= h < two256) (fun h => Str (Hash_Bytes h)).
Proof.
  unfold hashInfo. eapply view_canon; [apply byteArray_canon; done|]. intros d [Hd Hl]. unfold Hash_Bytes.
  pose proof (be_val_bounds d Hd) as Hv. rewrite Hl in Hv. split; [exact Hv|]. rewrite <- (be_bytes_be_val d Hd) at 2. f_equal. unfold len in Hl. lia.
Qed.

Lemma address_canon : Canon addressInfo (fun a => 0 <= a < 2 ^ 160) (fun a => Str (Address_Bytes a)).
Proof.
  unfold addressInfo. eapply view_canon; [apply byteArray_canon; done|]. intros d [Hd Hl]. unfold Address_Bytes.
  pose proof (be_val_bounds d Hd) as Hv. rewrite Hl in Hv. split; [exact Hv|]. rewrite <- (be_bytes_be_val d Hd) at 2. f_equal. unfold len in Hl. lia.
Qed.

Lemma ptr_canon {A} k (e : typeinfo A) ok it : Canon e ok it -> Canon (ptrInfo k e) (ptr_ok ok) (ptr_item k it).
Proof.
  intros [H1 H2]. split; [|by apply starts_bind]. intros s Hwf Hs.
  apply (wp_decoded_map Some _ ok (fun v => [it v])); [done|by apply H1].
Qed.

Lemma decoded_eol {A} (ok : A -> Prop) its s e s' : decoded ok its s (inr e) s' -> e = EOL -> s' = s /\ listLimit s = Some 0.
Proof. done. Qed.

Lemma nilPtr_canon {A} k0 (e : typeinfo A) ok it : k0 <> KByte -> Canon e ok it -> Canon (nilPtrInfo k0 e) (nil_ok ok it) (ptr_item k0 it).
Proof.
  intros Hk0 [H1 H2]. split.
  2: { cbn. apply starts_bind, starts_wrapped. exists (fun r => mret r). split; [|intros err s; by exists err].
       intros s. unfold mbind, st_bind. by destruct (s_Kind s) as [[]|]. }
  intros s Hwf Hs. cbn [nilPtrInfo ti_decoder]. unfold makeNilPtrDecoder. apply wp_dbind, wp_wrapped. unfold wp at 1.
  destruct (s_Kind s) as [[[[k size]|err] s1]|] eqn:E.
  2: { intros Ee. apply wrap_eol in Ee. by eapply s_Kind_eol. }
  2: { by destruct (s_Kind_total s Hwf) as (? & ? & ?); congruence. }
  destruct (s_Kind_inv s k size s1 Hwf Hs E) as (c & rest & K1 & -> & Es1 & K2 & K3 & K4 & K5 & K6 & K7).
  assert (Hk : kinded k c rest s) by (by split). cbn [fst snd].
  destruct (negb (bool_decide (k = KByte)) && (len (bodyOf k c) =? 0)) eqn:Et.
  - destruct (bool_decide (k = k0)) eqn:Ek; [|done]. apply bool_decide_eq_true in Ek. subst k0. cbn [negb]. bool_to_Z.
    assert (Ec : c = []) by (destruct k; [done|..]; cbn in *; destruct c; [done| |done|]; rewrite len_cons in *; pose proof (len_nonneg c); lia). subst c.
    apply wp_dbind, wp_dmodify, wp_ret. cbn [decoded ptr_item]. assert (Ee : encs [nil_item k] = tagOf k []) by (by destruct k). rewrite Ee. rewrite Es1.
    assert (Ha : advanced (len (tagOf k []) + 0) s (rearm (ahead k [] s))) by (apply ahead_advanced; [done|apply rearm_advanced]). rewrite Z.add_0_r in Ha.
    split_and!; [by eapply wf_advanced|done|done| |by right]. rewrite K1. change (s_r (rearm _)) with (s_r (ahead k [] s)).
    rewrite (ahead_r k [] rest s Hk). by destruct k.
  - assert (Hsame : forall Q, wp NF (ti_decoder e) Q s -> wp NF (ti_decoder e) Q s1).
    { intros Q. unfold wp. by rewrite (starts_again _ _ _ _ H2 E). }
    apply wp_dbind, Hsame. eapply wp_mono; [by apply H1|]. intros [a|err] s'; [|done]. intros (Hw & Hr & Hok & Er & Hd). apply wp_ret. cbn [decoded ptr_item].
    assert (Hne : forall k1, k1 <> KByte -> encode (it a) = header k1 [] ++ [] -> False).
    { intros k1 Hk1 Ea. cbn in Er. rewrite app_nil_r, Ea, <- app_assoc in Er.
      assert (Hroom : room s (len (header k1 []) + len (@nil Z))).
      { eapply room_le; [|exact K2]. assert (len (header k1 []) = 1) as -> by (by destruct k1). change (len []) with 0.
        destruct k; cbn; [destruct (K5 eq_refl) as (? & -> & _); done|..]; unfold puthead; case_if; unfold len; cbn [length]; lia. }
      pose proof (s_Kind_header k1 [] s (s_r s') Hs ltac:(by destruct k1) Er Hroom) as EK. rewrite E in EK.
      injection EK as -> Hb _. rewrite Hb in Et. destruct k1; done. }
    split; [done|]. split; [done|]. split; [|done]. split; [done|]. split; intros Ea.
    + apply (Hne KString); [done|]. by rewrite Ea.
    + apply (Hne KList); [done|]. by rewrite Ea.
Qed.

(** ** Lists *)

(** [s1] is the stream [s] after [List] in front of a list with the payload [c]; the limit of the
    enclosing list may have wrapped around. *)
Record opened (c rest : bytes) (s s1 : Stream) : Prop := {
  op_wf : wf s1;
  op_kind : ready s1;
  op_s : s_r s = header KList c ++ c ++ rest;
  op_r : s_r s1 = c ++ rest;
  op_stack : stack s1 = len c :: match stack s with [] => [] | l :: r => ((l - len (header KList c)) -! len c) :: r end;
  op_list : match stack s with [] => True | l :: _ => len (header KList c) <= l /\ len c <= l end;
  op_limited : limited s1 = limited s;
  op_remaining : limited s = true -> remaining s1 = remaining s - len (header KList c);
}.

Lemma wp_List s (Q : Z + rlperror -> Stream -> Prop) : wf s -> ready s ->
  (forall c rest s1, opened c rest s s1 -> Q (inl (len c)) s1) ->
  (forall e s', (e = EOL -> s' = s /\ listLimit s = Some 0) -> Q (inr e) s') -> wp NF s_List Q s.
Proof.
  intros Hwf Hs H He. unfold s_List. apply wp_kind; [done|done| |done]. intros k c rest Hk. destruct k; [by apply He|by apply He|]. cbn [bodyOf].
  unfold wp, mbind, st_bind, st_modify, d_ret, mret, st_ret. apply (H c rest). pose proof (wf_ahead _ _ _ _ Hwf Hk) as [W1 W2 W3 W4].
  pose proof (ahead_r _ _ _ _ Hk) as Hr. cbn [bodyOf] in Hr. pose proof (kd_room _ _ _ _ Hk) as Hroom. cbn [tagOf] in Hroom.
  assert (Hc : is_u64 (len c)).
  { pose proof (len_nonneg c). pose proof (len_nonneg (header KList c)). pose proof (kd_all _ _ _ _ Hk). pose proof (wf_len _ Hwf). unfold_u64. lia. }
  split; try done.
  - split; try done.
    + destruct W3 as [W3|(W3 & _)]; [by left|]. exfalso. cbn in W3. rewrite (kd_limited _ _ _ _ Hk) in W3. done.
    + cbn -[header]. constructor; [done|]. pose proof (wf_stack _ Hwf) as Hst. unfold shrinkList. cbn -[header].
      destruct (stack s) as [|l st]; [done|]. apply Forall_cons in Hst as [_ Hst]. constructor; [apply wrap64_range|done].
  - apply Hk.
  - unfold shrinkList. cbn -[header]. by destruct (stack s).
  - pose proof (kd_list _ _ _ _ Hk) as Hl. destruct Hroom as [_ _ R _]. cbn [bodyOf] in Hl. destruct (stack s); [done|]. lia.
  - intros El. cbn -[header]. by rewrite El.
Qed.

(** [ListEnd] succeeds only if all of the list was read. *)
Lemma wp_ListEnd c rest s s1 b s2 (Q : () + rlperror -> Stream -> Prop) : wf s -> opened c rest s s1 -> wf s2 -> s_r s1 = b ++ s_r s2 ->
  within s1 (len b) s2 ->
  (forall s3, b = c -> wf s3 -> ready s3 -> s_r s = header KList c ++ c ++ s_r s3 ->
     within s (len (header KList c) + len c) s3 -> Q (inl tt) s3) ->
  (forall e s', e <> EOL -> Q (inr e) s') -> wp NF s_ListEnd Q s2.
Proof.
  intros Hwf Ho Hwf2 Eb Hb H He. unfold wp, s_ListEnd, mbind, st_bind, st_get. destruct Hb as [Hb|[Hroom Hadv]].
  - unfold bogus in Hb. destruct (stack s2) as [|l st]; [done|]. pose proof (len_nonneg (s_r s2)). replace (0 <? l) with true by lia. by apply He.
  - pose proof (adv_stack _ _ _ Hadv) as Est. rewrite (op_stack _ _ _ _ Ho) in Est. rewrite Est.
    destruct (Z.ltb_spec 0 (len c - len b)) as [|Hle]; [by apply He|].
    assert (Hlb : len b = len c). { pose proof (room_list _ _ Hroom) as Hl. rewrite (op_stack _ _ _ _ Ho) in Hl. lia. }
    rewrite (op_r _ _ _ _ Ho) in Eb. assert (b = c /\ s_r s2 = rest) as [-> Er].
    { apply app_inj_1 in Eb; [destruct Eb; done|]. unfold len in Hlb. lia. }
    unfold st_modify, d_do, mbind, st_bind, d_ret, mret, st_ret. destruct Hwf2 as [W1 W2 W3 W4].
    pose proof (len_nonneg (header KList c)) as Hh. pose proof (len_nonneg c) as Hc. pose proof (len_nonneg (s_r s2)) as Hs2.
    assert (Hlen : len (s_r s) = len (header KList c) + len c + len (s_r s2)) by (rewrite (op_s _ _ _ _ Ho), Er, !len_app; lia).
    apply H; try done.
    + split; try done.
      * destruct W3 as [W3|(_ & _ & W3)]; [by left|]. by rewrite Est in W3.
      * cbn -[header]. pose proof W4 as W5. rewrite Est in W5. by apply Forall_cons in W5 as [_ W5].
    + cbn. rewrite Er. apply Ho.
    + destruct (match stack s with [] => true | l :: _ => len (header KList c) + len c <=? l end) eqn:Efit.
      * right. pose proof (wf_len _ Hwf) as Hwl. pose proof (wf_stack _ Hwf) as Hws. split.
        -- split; [lia|lia| |].
           ++ destruct (stack s); [done|]. apply Forall_cons in Hws as [Hws _]. unfold_u64. lia.
           ++ intros El. destruct (wf_limit _ Hwf) as [[_ E2]|(E1 & _)]; [|congruence]. unfold_u64. lia.
        -- split; try done; cbn -[header].
           ++ rewrite (op_s _ _ _ _ Ho), Er, app_assoc, <- len_app. unfold len. by rewrite Nat2Z.id, drop_app_length.
           ++ destruct (stack s); [done|]. f_equal. apply Forall_cons in Hws as [Hws _]. unfold is_u64 in Hws. rewrite wrap64_small; [lia|]. unfold_u64. lia.
           ++ rewrite (adv_limited _ _ _ Hadv). apply Ho.
           ++ intros El. rewrite (adv_remaining _ _ _ Hadv) by (rewrite (op_limited _ _ _ _ Ho); done). rewrite (op_remaining _ _ _ _ Ho) by done. lia.
      * left. unfold bogus. cbn -[header]. pose proof (op_list _ _ _ _ Ho) as Hl. pose proof (wf_len _ Hwf) as Hwl. destruct (stack s) as [|l st]; [done|].
        unfold wrap64. rewrite <- (Z.mod_add _ 1) by (unfold two64; lia). pose proof (len_nonneg (s_r s2)). rewrite Z.mod_small; unfold two64; lia.
Qed.

Lemma within_refl s : wf s -> ready s -> within s 0 s.
Proof.
  intros [W1 W2 W3 W4] Hs. right. split; [|rewrite <- (adv_0 s Hs) at 2; apply advanced_adv]. pose proof (len_nonneg (s_r s)). split; [lia|lia| |].
  - destruct (stack s); [done|]. apply Forall_cons in W4 as [W4 _]. unfold_u64. lia.
  - intros E. destruct W3 as [[_ ->]|(E' & _)]; [unfold_u64; lia|congruence].
Qed.

Lemma within_trans s1 n s m s' : wf s1 -> 0 <= n -> 0 <= m -> within s1 n s -> within s m s' -> within s1 (n + m) s'.
Proof.
  intros Hwf Hn Hm H1 [Hb|[R2 A2]]; [by left|]. destruct H1 as [Hb|[R1 A1]].
  - left. unfold bogus in *. rewrite (adv_stack _ _ _ A2), (adv_r _ _ _ A2). destruct (stack s); [done|]. pose proof (room_r _ _ R2).
    unfold len in *. rewrite length_drop. lia.
  - right. split; [|by eapply advanced_trans]. pose proof (wf_len _ Hwf). destruct R1 as [P1 P2 P3 P4], R2 as [Q1 Q2 Q3 Q4].
    rewrite (adv_r _ _ _ A1) in Q2. rewrite (adv_stack _ _ _ A1) in Q3. rewrite (adv_limited _ _ _ A1) in Q4.
    assert (Hle : n + m <= len (s_r s1)) by (unfold len in *; rewrite length_drop in Q2; lia).
    split; [lia|done|destruct (stack s1); [done|lia]|]. intros E. specialize (Q4 E). rewrite (adv_remaining _ _ _ A1 E) in Q4. specialize (P4 E). lia.
Qed.

Section slices.
Context {A : Type} (e : typeinfo A) (ok : A -> Prop) (it : A -> item) (He : Canon e ok it).

Lemma decodeSliceLoop_decoded fuel acc s1 s : wf s1 -> wf s -> ready s -> Forall ok acc -> s_r s1 = encs (it <$> acc) ++ s_r s ->
  within s1 (len (encs (it <$> acc))) s -> (length (s_r s) < fuel)%nat ->
  wp NF (decodeSliceLoop (ti_decoder e) fuel acc) (fun r s2 => match r with
    | inl l => wf s2 /\ ready s2 /\ Forall ok l /\ s_r s1 = encs (it <$> l) ++ s_r s2 /\ within s1 (len (encs (it <$> l))) s2
    | inr err => err <> EOL end) s.
Proof using He.
  intros Hwf1. revert acc s. induction fuel as [|fuel IH]; intros acc s Hwf Hs Hacc E Hin Hf; [lia|].
  cbn [decodeSliceLoop]. apply wp_bind. eapply wp_mono; [by apply He|]. intros [a|err] s'.
  - intros (Hw & Hr & Hok & Er & Hd). assert (Ea : encs (it <$> (acc ++ [a])) = encs (it <$> acc) ++ encs [it a]) by (rewrite fmap_app; apply encs_app).
    apply IH; [done|done|by apply Forall_app; split; [|apply Forall_singleton]| | |].
    + rewrite Ea, <- app_assoc, <- Er. done.
    + rewrite Ea, len_app. eapply within_trans; [done|apply len_nonneg|apply len_nonneg|done|done].
    + rewrite Er, length_app in Hf. pose proof (encode_nonempty (it a)) as Hne. unfold encs in Hf. cbn in Hf. rewrite app_nil_r in Hf. unfold len in Hne. lia.
  - cbn. intros Heol. destruct err; try done. destruct (Heol eq_refl) as [-> _]. apply wp_ret. split_and!; done.
Qed.

Lemma list_item_encs c (l : list item) : encs l = c -> encs [Lst l] = header KList c ++ c.
Proof. intros <-. unfold encs. cbn [fmap list_fmap concat encode]. by rewrite app_nil_r. Qed.

Lemma slice_canon : Canon (sliceInfo e) (Forall ok) (fun l => Lst (it <$> l)).
Proof using He.
  split; [|apply starts_bind, starts_wrapped, starts_kind]. intros s Hwf Hs. cbn [sliceInfo ti_decoder]. unfold decodeListSlice.
  apply wp_dbind, wp_wrapped, wp_List; [done|done| |intros err s' H Ee; by apply H, wrap_eol].
  intros c rest s1 Ho. assert (Hfin : forall l s2, Forall ok l -> wf s2 -> s_r s1 = encs (it <$> l) ++ s_r s2 -> within s1 (len (encs (it <$> l))) s2 ->
    wp NF (let! _ := s_ListEnd in d_ret l) (decoded (Forall ok) (fun l => [Lst (it <$> l)]) s) s2).
  { intros l s2 Hl Hw2 E2 Hin. apply wp_dbind. eapply (wp_ListEnd c rest s s1); [done|done|done|done|done| |by intros err s' H ?].
    intros s3 Ec Hw3 Hr3 E3 Hin3. apply wp_ret. cbn [decoded]. rewrite (list_item_encs c) by done. rewrite len_app, <- app_assoc. done. }
  destruct (Z.eqb_spec (len c) 0) as [E0|].
  - apply (Hfin []); [done|apply Ho|done|]. apply within_refl; apply Ho.
  - apply wp_dbind. unfold decodeSliceElems. apply wp_bind, wp_get. eapply wp_mono.
    + apply (decodeSliceLoop_decoded _ [] s1 s1); [apply Ho|apply Ho|apply Ho|done|done| |lia]. apply within_refl; apply Ho.
    + intros [l|err] s2; [|by intros H ?]. intros (Hw2 & Hr2 & Hl & E2 & Hin). by apply Hfin.
Qed.

Lemma nilSlice_canon : Canon (nilSliceInfo e) (ptr_ok (Forall ok)) (fun l => Lst (it <$> default [] l)).
Proof using He.
  destruct slice_canon as [H1 H2]. split; [|by apply starts_bind]. intros s Hwf Hs.
  apply (wp_decoded_map Some _ (Forall ok) (fun l => [Lst (it <$> l)])); [done|by apply H1].
Qed.
End slices.

(** ** Structs, and both directions together *)

Record Exact {A} (i : typeinfo A) (ok : A -> Prop) (it : A -> item) : Prop := {
  ex_codec : Codec i ok it;
  ex_canon : Canon i ok it;
}.

(** The fields of a struct; the value of an optional field that is present is not zero. *)
Inductive FieldsExact : forall {T}, fields T -> (T -> Prop) -> (T -> list item) -> Prop :=
  | fe_nil : FieldsExact fnil (fun _ => True) (fun _ => [])
  | fe_req {A B} (i : typeinfo A) (rest : fields B) ok it ok' its : Exact i ok it -> FieldsExact rest ok' its ->
      FieldsExact (fcons i None rest) (fun v => ok v.1 /\ ok' v.2) (fun v => it v.1 :: its v.2)
  | fe_opt {A B} (i : typeinfo A) z (rest : fields B) ok it ok' its : Exact i ok it -> opts rest -> FieldsExact rest ok' its ->
      isZero z (zero z) = true -> (forall v, ok v -> isZero z v = false) ->
      FieldsExact (fcons i (Some z) rest) (opt_ok z ok ok' it its) (opt_items z it its)
  | fe_tail {A} (e : typeinfo A) ok it : Exact e ok it -> FieldsExact (ftail e) (Forall ok) (fun l => it <$> l).

Lemma fields_codec {T} (fs : fields T) ok its : FieldsExact fs ok its -> FieldsCodec fs ok its.
Proof. intros H. induction H; constructor; try done; by apply ex_codec. Qed.

Lemma fields_zeros {T} (fs : fields T) ok its : FieldsExact fs ok its -> opts fs -> exists v, zeroFields fs = Ret v /\ ok v /\ its v = [].
Proof.
  intros H. induction H as [|A B i rest ok it ok' its Hi Hr IH|A B i z rest ok it ok' its Hi Ho Hr IH Hz Hn|A e ok it He]; try done.
  - by exists tt.
  - intros _. destruct (IH Ho) as (v & E & Hok & Ei). exists (zero z, v). cbn [zeroFields]. rewrite E. split; [done|].
    assert (E2 : opt_items z it its (zero z, v) = []) by (unfold opt_items; cbn; by rewrite Ei, Hz). split; [|done]. split; [by rewrite E2|done].
Qed.

Lemma fields_decoded {T} (fs : fields T) ok its : FieldsExact fs ok its -> forall s, wf s -> ready s ->
  wp NF (decodeFields fs) (fun r s' => match r with
    | inl v => wf s' /\ ready s' /\ ok v /\ s_r s = encs (its v) ++ s_r s' /\ within s (len (encs (its v))) s'
    | inr e => e <> EOL end) s.
Proof.
  intros H. induction H as [|A B i rest ok it ok' its Hi Hr IH|A B i z rest ok it ok' its Hi Ho Hr IH Hz Hn|A e ok it He]; intros s Hwf Hs.
  - apply wp_ret. split_and!; try done. by apply within_refl.
  - cbn [decodeFields]. apply wp_bind. eapply wp_mono; [by apply (ex_canon _ _ _ Hi)|]. intros [a|err] s1.
    + intros (Hw & Hrd & Hok & E & Hin). apply wp_dbind. eapply wp_mono; [by apply IH|]. intros [v|err] s2; [|done].
      intros (Hw2 & Hrd2 & Hok2 & E2 & Hin2). apply wp_ret. cbn [fst snd].
      assert (Ee : encs (it a :: its v) = encs [it a] ++ encs (its v)) by (apply (encs_app [it a])). rewrite Ee, len_app, <- app_assoc, <- E2.
      split_and!; try done. eapply within_trans; [done|apply len_nonneg|apply len_nonneg|done|done].
    + intros _. by destruct err.
  - cbn [decodeFields]. apply wp_bind. eapply wp_mono; [by apply (ex_canon _ _ _ Hi)|]. intros [a|err] s1.
    + intros (Hw & Hrd & Hok & E & Hin). apply wp_dbind. eapply wp_mono; [by apply IH|]. intros [v|err] s2; [|done].
      intros (Hw2 & Hrd2 & Hok2 & E2 & Hin2). apply wp_ret.
      assert (Ei : opt_items z it its (a, v) = it a :: its v).
      { unfold opt_items. cbn [fst snd]. rewrite (Hn a Hok). by destruct (its v). }
      assert (Ee : encs (it a :: its v) = encs [it a] ++ encs (its v)) by (apply (encs_app [it a])). unfold opt_ok. rewrite Ei, Ee, len_app, <- app_assoc, <- E2.
      split_and!; try done. eapply within_trans; [done|apply len_nonneg|apply len_nonneg|done|done].
    + intros Heol. destruct err; try done. destruct (Heol eq_refl) as [-> _]. destruct (fields_zeros rest ok' its Hr Ho) as (v & E & Hok & Ei).
      apply wp_dbind. unfold wp, d_do, mbind, st_bind, st_lift. rewrite E. cbn.
      assert (E2 : opt_items z it its (zero z, v) = []) by (unfold opt_items; cbn; by rewrite Ei, Hz). unfold opt_ok. rewrite E2. cbn.
      split_and!; try done. by apply within_refl.
  - cbn [decodeFields]. unfold decodeSliceElems. apply wp_bind, wp_get.
    apply (decodeSliceLoop_decoded e ok it (ex_canon _ _ _ He) _ [] s s); try done; [by apply within_refl|lia].
Qed.

Lemma struct_canon {T} (fs : fields T) ok its : FieldsExact fs ok its -> Canon (structInfo fs) ok (fun v => Lst (its v)).
Proof.
  intros H. split; [|apply starts_bind, starts_wrapped, starts_kind]. intros s Hwf Hs. cbn [structInfo ti_decoder]. unfold makeStructDecoder.
  apply wp_dbind, wp_wrapped, wp_List; [done|done| |intros err s' He Ee; by apply He, wrap_eol].
  intros c rest s1 Ho. apply wp_dbind. eapply wp_mono; [eapply fields_decoded; [done|apply Ho|apply Ho]|].
  intros [v|err] s2; [|by intros He ?]. intros (Hw2 & Hr2 & Hok & E2 & Hin). apply wp_dbind, wp_wrapped.
  eapply (wp_ListEnd c rest s s1); [done|done|done|done|done| |by intros err s' He ?%wrap_eol].
  intros s3 Ec Hw3 Hr3 E3 Hin3. apply wp_ret. cbn [decoded]. rewrite (list_item_encs c) by done. rewrite len_app, <- app_assoc. done.
Qed.

(** ** The types, in both directions *)

Lemma byteSlice_exact : Exact byteSliceInfo (Forall is_byte) Str.
Proof. split; [apply byteSlice_codec|apply byteSlice_canon]. Qed.
Lemma uint_exact bits : 0 < bits <= 64 -> bits mod 8 = 0 -> Exact (uintInfo bits) (fun v => 0 <= v < 2 ^ bits) (fun v => Str (intBytes v)).
Proof. intros. split; [by apply uint_codec|by apply uint_canon]. Qed.
Lemma bool_exact : Exact boolInfo (fun _ => True) (fun b => Str (if b : bool then [1] else [])).
Proof. split; [apply bool_codec|apply bool_canon]. Qed.
Lemma bigInt_exact : Exact bigIntInfo (fun v => 0 <= v) (fun v => Str (minBytes v)).
Proof. split; [apply bigInt_codec|apply bigInt_canon]. Qed.
Lemma bigIntPtr_exact : Exact bigIntPtrInfo (fun v => exists i, v = Some i /\ 0 <= i) (fun v => Str (minBytes (default 0 v))).
Proof. split; [apply bigIntPtr_codec|apply bigIntPtr_canon]. Qed.
Lemma u256_exact : Exact u256Info (fun v => 0 <= v < two256) (fun v => Str (minBytes v)).
Proof. split; [apply u256_codec|apply u256_canon]. Qed.
Lemma byteArray_exact n : 0 <= n -> Exact (byteArrayInfo n) (fun v => Forall is_byte v /\ len v = n) Str.
Proof. intros. split; [by apply byteArray_codec|by apply byteArray_canon]. Qed.
Lemma hash_exact : Exact hashInfo (fun h => 0 <= h < two256) (fun h => Str (Hash_Bytes h)).
Proof. split; [apply hash_codec|apply hash_canon]. Qed.
Lemma address_exact : Exact addressInfo (fun a => 0 <= a < 2 ^ 160) (fun a => Str (Address_Bytes a)).
Proof. split; [apply address_codec|apply address_canon]. Qed.
Lemma slice_exact {A} (e : typeinfo A) ok it : Exact e ok it -> Exact (sliceInfo e) (Forall ok) (fun l => Lst (it <$> l)).
Proof. intros [H1 H2]. split; [by apply slice_codec|by apply slice_canon]. Qed.
Lemma nilSlice_exact {A} (e : typeinfo A) ok it : Exact e ok it -> Exact (nilSliceInfo e) (ptr_ok (Forall ok)) (fun l => Lst (it <$> default [] l)).
Proof. intros [H1 H2]. split; [by apply nilSlice_codec|by apply nilSlice_canon]. Qed.
Lemma ptr_exact {A} k (e : typeinfo A) ok it : Exact e ok it -> Exact (ptrInfo k e) (ptr_ok ok) (ptr_item k it).
Proof. intros [H1 H2]. split; [by apply ptr_codec|by apply ptr_canon]. Qed.
Lemma nilPtr_exact {A} k (e : typeinfo A) ok it : k <> KByte -> Exact e ok it -> Exact (nilPtrInfo k e) (nil_ok ok it) (ptr_item k it).
Proof. intros Hk [H1 H2]. split; [by apply nilPtr_codec|by apply nilPtr_canon]. Qed.
Lemma struct_exact {T} (fs : fields T) ok its : FieldsExact fs ok its -> Exact (structInfo fs) ok (fun v => Lst (its v)).
Proof. intros H. split; [by apply struct_codec, fields_codec|by apply struct_canon]. Qed.

(** The same type seen as a record *)
Lemma view_exact {A B} (f : A -> B) (g : B -> A) i ok it (ok' : B -> Prop) (it' : B -> item) : Exact i ok it ->
  (forall b, ok' b -> ok (g b) /\ f (g b) = b /\ it' b = it (g b)) -> (forall a, ok a -> ok' (f a) /\ g (f a) = a) ->
  Exact (viewInfo f g i) ok' it'.
Proof.
  intros [H1 H2] H H'. split.
  - eapply codec_weaken; [eapply (view_codec f g i ok it ok'); [done|]|]; intros b Hb; destruct (H b Hb) as (? & ? & ?); done.
  - eapply canon_weaken; [eapply (view_canon f g i ok it ok'); [done|]|]; [done|]. intros b Hb. split; [done|]. by apply H.
Qed.

Create HintDb rlp.
#[export] Hint Resolve byteSlice_exact bool_exact bigInt_exact bigIntPtr_exact u256_exact hash_exact address_exact slice_exact nilSlice_exact ptr_exact struct_exact fe_nil fe_req fe_tail : rlp.

(** ** Whole inputs *)

Lemma wf_reset b : Forall is_byte b -> len b < 2 ^ 63 -> wf (s_Reset b false (len b) zeroStream) /\
  ready (s_Reset b false (len b) zeroStream) /\ s_r (s_Reset b false (len b) zeroStream) = b.
Proof.
  intros Hb Hl. unfold s_Reset. destruct (Z.ltb_spec 0 (len b)); cbn; (split; [|done]); split; try done; [by left|right].
  cbn. destruct b; [done|]. rewrite len_cons in *. pose proof (len_nonneg b). lia.
Qed.

(** Every decoder ends, and what it accepts is the encoding of its value. *)
Lemma decodeVal_canonical {A} (i : typeinfo A) ok it b : Exact i ok it -> Forall is_byte b -> len b < 2 ^ 63 ->
  exists r, decodeVal i b = Ret r /\ forall v, r = inl v -> ok v /\ b = encode (it v).
Proof.
  intros Hi Hb Hl. destruct (wf_reset b Hb Hl) as (Hwf & Hs & Er). pose proof (k_decoded _ _ _ (ex_canon _ _ _ Hi) _ Hwf Hs) as H.
  unfold decodeVal, DecodeBytes. unfold wp in H. destruct (ti_decoder i _) as [[[v|e] s']|]; [| |done]; cbn [mbind outcome_bind].
  - destruct H as (_ & _ & Hok & E & _). rewrite Er in E. unfold encs in E. cbn in E. rewrite app_nil_r in E.
    destruct (Z.ltb_spec 0 (len (s_r s'))); [by eexists|]. exists (inl v). split; [done|]. intros v' [= <-]. split; [done|].
    destruct (s_r s'); [by rewrite app_nil_r in E|]. rewrite len_cons in *. pose proof (len_nonneg l). lia.
  - by eexists.
Qed.

(** [List] enters a list that does not fit into the enclosing one: the inner list of [C1 C1 00] is accepted
    with one byte although nothing is left of the outer list, whose limit wraps around. *)
Example list_overrun :
  match (r1 ← s_List; r2 ← s_List; limits ← st_gets stack; mret (r1, r2, limits)) (NewStream [193; 193; 0] true 0) with
  | Ret (r, _) => Some r
  | Fail _ => None
  end = Some (inl 1, inl 1, [1; MaxUint64]).
Proof. vm_compute. reflexivity. Qed.
