(* ===== verification/VM.v ===== *)
(** * The objects the interpreter works on

    Models [core/vm/interface.go] (the [StateDB] interface), [contract.go], the structs of
    [evm.go] and [interpreter.go], [RunPrecompiledContract] of [contracts.go], the transfer
    functions of [core/evm.go], [types.ParseDelegation] and [crypto.CreateAddress(2)].

    [StateDB] is an interface in the source and a type class here: a method call is a value of
    [sdbE A] ([A] its result type), and an implementation gives every method a meaning as a
    state transformer.  The EVM theorems are proved against this class. *)

From S2P Require Import Prelude Bytes Uint256 Params Machine Opcodes Analysis Rlp.

(** [type Log struct], the consensus fields and the block number set by the EVM. *)
Record Log := mkLog {
  log_Address : Address; log_Topics : list Hash; log_Data : bytes; log_BlockNumber : Z }.

(** [type AccessList []AccessTuple] *)
Abbreviation AccessList := (list (Address * list Hash)).

(** Hash functions come from [golang.org/x/crypto/sha3] through package [crypto]: a parameter. *)
Class Crypto := { Keccak256 : bytes -> Hash }.

(** [types.EmptyCodeHash] and [types.EmptyRootHash]. *)
Definition EmptyCodeHash `{Crypto} : Hash := Keccak256 [].
Definition EmptyRootHash : Hash :=
  0x56e81f171bcc55a6ff8345e692c0f86e5b48e01b996cadc001622fb5e363b421.

Section vm.
Context `{U : Uint256} `{C : Crypto}.

(** ** The [StateDB] interface ([interface.go]) *)

Inductive sdbE : Type -> Type :=
  | CreateAccount (a : Address) : sdbE unit
  | CreateContract (a : Address) : sdbE unit
  | SubBalance (a : Address) (amount : word) : sdbE word
  | AddBalance (a : Address) (amount : word) : sdbE word
  | GetBalance (a : Address) : sdbE word
  | GetNonce (a : Address) : sdbE Z
  | SetNonce (a : Address) (nonce : Z) : sdbE unit
  | GetCodeHash (a : Address) : sdbE Hash
  | GetCode (a : Address) : sdbE bytes
  | SetCode (a : Address) (code : bytes) : sdbE bytes
  | GetCodeSize (a : Address) : sdbE Z
  | AddRefund (gas : Z) : sdbE unit
  | SubRefund (gas : Z) : sdbE unit
  | GetRefund : sdbE Z
  | GetCommittedState (a : Address) (k : Hash) : sdbE Hash
  | GetState (a : Address) (k : Hash) : sdbE Hash
  | SetState (a : Address) (k v : Hash) : sdbE Hash
  | GetStorageRoot (a : Address) : sdbE Hash
  | GetTransientState (a : Address) (k : Hash) : sdbE Hash
  | SetTransientState (a : Address) (k v : Hash) : sdbE unit
  | SelfDestruct (a : Address) : sdbE word
  | HasSelfDestructed (a : Address) : sdbE bool
  | SelfDestruct6780 (a : Address) : sdbE (word * bool)
  | Exist (a : Address) : sdbE bool
  | Empty (a : Address) : sdbE bool
  | AddressInAccessList (a : Address) : sdbE bool
  | SlotInAccessList (a : Address) (slot : Hash) : sdbE (bool * bool)
  | AddAddressToAccessList (a : Address) : sdbE unit
  | AddSlotToAccessList (a : Address) (slot : Hash) : sdbE unit
  | Prepare (rules : Rules) (sender coinbase : Address) (dest : option Address)
      (precompiles : list Address) (txAccesses : AccessList) : sdbE unit
  | RevertToSnapshot (id : Z) : sdbE unit
  | Snapshot : sdbE Z
  | AddLog (l : Log) : sdbE unit
  | AddPreimage (h : Hash) (preimage : bytes) : sdbE unit
  | Finalise (deleteEmptyObjects : bool) : sdbE unit.

Class StateDB (S : Type) := { sdb : forall {A}, sdbE A -> ST S A }.

(** ** Contexts ([evm.go]) *)

(** [type PrecompiledContract interface] *)
Record PrecompiledContract := mkPrecompile {
  RequiredGas : bytes -> Z;
  Precompile_Run : bytes -> bytes * error;
}.

(** [BlockContext], [TxContext], the rule set and the configuration: what does not change
    while the EVM runs.  A nil pointer is [None]: [Random] before the merge, [BaseFee] before London,
    [BlobBaseFee] before Cancun. *)
Record Env := mkEnv {
  GetHash : Z -> Outcome Hash;
  Coinbase : Address; GasLimit : Z; BlockNumber : Z; Time : Z; Difficulty : Z;
  BaseFee : option Z; BlobBaseFee : option Z; Random : option Hash;
  Origin : Address; GasPrice : Z; BlobHashes : list Hash;
  config_ChainID : option Z;
  chainRules : Rules;
  EnablePreimageRecording : bool;
  precompiles : gmap Z PrecompiledContract;
}.

(** The mutable fields of [EVM] and of its [EVMInterpreter].  [abortLoads] lists the results
    of the coming reads of the atomic [abort] flag, which another goroutine may set at any
    time; when it is exhausted the flag reads false. *)
Record VM (S : Type) := mkVM {
  statedb : S;
  depth : Z;
  callGasTemp : Z;
  jumpDests : gmap Z bitvec;
  abortLoads : list bool;
  readOnly : bool;
  returnData : bytes;
}.
Arguments mkVM {S}.
Arguments statedb {S}.
Arguments depth {S}.
Arguments callGasTemp {S}.
Arguments jumpDests {S}.
Arguments abortLoads {S}.
Arguments readOnly {S}.
Arguments returnData {S}.

(** ** [type Contract struct] ([contract.go]); the shared [jumpdests] map is
    [jumpDests] of the EVM, which every caller of [NewContract] passes. *)
Record Contract := mkContract {
  c_caller : Address; c_address : Address;
  analysis : option bitvec;
  Code : bytes; CodeHash : Hash; Input : bytes;
  IsDeployment : bool; IsSystemCall : bool;
  Gas : Z; c_value : word;
}.

Definition NewContract (caller address : Address) (value : word) (gas : Z) : Contract :=
  mkContract caller address None [] 0 [] false false gas value.

Definition SetCallCode (c : Contract) (hash : Hash) (code : bytes) : Contract :=
  mkContract (c_caller c) (c_address c) (analysis c) code hash (Input c)
    (IsDeployment c) (IsSystemCall c) (Gas c) (c_value c).
Definition set_Gas (g : Z) (c : Contract) : Contract :=
  mkContract (c_caller c) (c_address c) (analysis c) (Code c) (CodeHash c) (Input c)
    (IsDeployment c) (IsSystemCall c) g (c_value c).
Definition set_Input (i : bytes) (c : Contract) : Contract :=
  mkContract (c_caller c) (c_address c) (analysis c) (Code c) (CodeHash c) i
    (IsDeployment c) (IsSystemCall c) (Gas c) (c_value c).
Definition set_analysis (a : bitvec) (c : Contract) : Contract :=
  mkContract (c_caller c) (c_address c) (Some a) (Code c) (CodeHash c) (Input c)
    (IsDeployment c) (IsSystemCall c) (Gas c) (c_value c).
Definition set_IsDeployment (b : bool) (c : Contract) : Contract :=
  mkContract (c_caller c) (c_address c) (analysis c) (Code c) (CodeHash c) (Input c)
    b (IsSystemCall c) (Gas c) (c_value c).
Definition set_IsSystemCall (b : bool) (c : Contract) : Contract :=
  mkContract (c_caller c) (c_address c) (analysis c) (Code c) (CodeHash c) (Input c)
    (IsDeployment c) b (Gas c) (c_value c).

(** [GetOp]: STOP past the end of the code. *)
Definition GetOp (c : Contract) (n : Z) : OpCode :=
  if n <? len (Code c)
  then match Code c !! Z.to_nat n with Some op => op | None => STOP end
  else STOP.

Definition UseGas (c : Contract) (gas : Z) : bool * Contract :=
  if Gas c <? gas then (false, c) else (true, set_Gas (Gas c -! gas) c).

Definition RefundGas (c : Contract) (gas : Z) : Contract :=
  if gas =? 0 then c else set_Gas (Gas c +! gas) c.

(** [isCode]: the analysis is taken from the contract, else from the shared cache when the
    code has a hash, else computed; the two caches are updated. *)
Definition isCode (c : Contract) (cache : gmap Z bitvec) (udest : Z)
    : Outcome (bool * Contract * gmap Z bitvec) :=
  match analysis c with
  | Some a => b ← codeSegment a udest; Ret (b, c, cache)
  | None =>
      if negb (CodeHash c =? 0) then
        match cache !! CodeHash c with
        | Some a =>
            b ← codeSegment a udest; Ret (b, set_analysis a c, cache)
        | None =>
            a ← codeBitmap (Code c);
            b ← codeSegment a udest;
            Ret (b, set_analysis a c, <[CodeHash c := a]> cache)
        end
      else
        a ← codeBitmap (Code c);
        b ← codeSegment a udest;
        Ret (b, set_analysis a c, cache)
  end.

Definition validJumpdest (c : Contract) (cache : gmap Z bitvec) (dest : word)
    : Outcome (bool * Contract * gmap Z bitvec) :=
  let '(udest, overflow) := Uint64WithOverflow dest in
  if overflow || (len (Code c) <=? udest) then Ret (false, c, cache)
  else
    op ← index (Code c) udest;
    if negb (op =? JUMPDEST) then Ret (false, c, cache)
    else isCode c cache udest.

(** ** Precompiles, delegations and addresses *)

Definition RunPrecompiledContract (p : PrecompiledContract) (input : bytes) (suppliedGas : Z)
    : bytes * Z * error :=
  let gasCost := RequiredGas p input in
  if suppliedGas <? gasCost then ([], 0, Some ErrOutOfGas)
  else
    let suppliedGas := suppliedGas -! gasCost in
    let '(output, err) := Precompile_Run p input in
    (output, suppliedGas, err).

(** [types.DelegationPrefix], [types.ParseDelegation] *)
Definition DelegationPrefix : bytes := [239; 1; 0].

Definition ParseDelegation (b : bytes) : option Address :=
  if negb (len b =? 23) || negb (bool_decide (take 3 b = DelegationPrefix)) then None
  else Some (be_val (drop 3 b)).

(** [types.AddressToDelegation] *)
Definition AddressToDelegation (a : Address) : bytes := DelegationPrefix ++ Address_Bytes a.

(** [crypto.CreateAddress]: the low 20 bytes of the hash of the RLP list [addr, nonce]. *)
Definition CreateAddress (b : Address) (nonce : Z) : Outcome Address :=
  let '(i, buf) := buf_list emptyBuf in
  buf ← listEnd (writeUint64 (writeBytes buf (Address_Bytes b)) nonce) i;
  Ret (Keccak256 (makeBytes buf) mod 2 ^ 160).

(** [crypto.CreateAddress2] *)
Definition CreateAddress2 (b : Address) (salt : Hash) (inithash : bytes) : Address :=
  Keccak256 ([255] ++ Address_Bytes b ++ Hash_Bytes salt ++ inithash) mod 2 ^ 160.
End vm.

Arguments mkVM {S}.
Arguments statedb {S}.
Arguments depth {S}.
Arguments callGasTemp {S}.
Arguments jumpDests {S}.
Arguments abortLoads {S}.
Arguments readOnly {S}.
Arguments returnData {S}.
