(* ===== verification/Lru.v ===== *)
(** * The LRU cache ([common/lru/basiclru.go], [lru.go])

    The cache keeps its values in a map and the order of their use in a doubly linked ring of keys.
    The ring is a list of keys, the most recently used first; an element of the ring is identified
    by its key, which occurs once ([lru_ok]).  The mutex of [lru.go] is not modelled. *)

From S2P Require Import Prelude.

Module LRU.
Section lru.
Context {K : Type} `{Countable K} {V : Type}.

Record BasicLRU := mkLRU { lru_list : list K; lru_items : gmap K V; lru_cap : Z }.

Definition NewBasicLRU (capacity : Z) : BasicLRU :=
  mkLRU [] ∅ (if capacity <=? 0 then 1 else capacity).

(** [moveToFront] of the element of [key]: unlinked and pushed. *)
Definition moveToFront (key : K) (l : list K) : list K := key :: filter (fun k => k <> key) l.

(** [removeLast]: the last key of the ring, and the others. *)
Definition removeLast (l : list K) : option (K * list K) :=
  match last l with
  | Some k => Some (k, take (length l - 1) l)
  | None => None
  end.

Definition Len (c : BasicLRU) : Z := Z.of_nat (size (lru_items c)).

(** [removeLast] of an empty list is the nil element, whose key is then read. *)
Definition Add (key : K) (value : V) (c : BasicLRU) : Outcome (bool * BasicLRU) :=
  match lru_items c !! key with
  | Some _ =>
      Ret (false, mkLRU (moveToFront key (lru_list c)) (<[key := value]> (lru_items c)) (lru_cap c))
  | None =>
      if lru_cap c <=? Len c then
        match removeLast (lru_list c) with
        | None => Fail PanicNil
        | Some (old, rest) =>
            Ret (true, mkLRU (key :: rest) (<[key := value]> (delete old (lru_items c))) (lru_cap c))
        end
      else Ret (false, mkLRU (key :: lru_list c) (<[key := value]> (lru_items c)) (lru_cap c))
  end.

Definition Contains (key : K) (c : BasicLRU) : bool := bool_decide (is_Some (lru_items c !! key)).

Definition Get (key : K) (c : BasicLRU) : option V * BasicLRU :=
  match lru_items c !! key with
  | None => (None, c)
  | Some v => (Some v, mkLRU (moveToFront key (lru_list c)) (lru_items c) (lru_cap c))
  end.

Definition GetOldest (c : BasicLRU) : option (K * option V) :=
  match last (lru_list c) with
  | None => None
  | Some k => Some (k, lru_items c !! k)
  end.

Definition Peek (key : K) (c : BasicLRU) : option V := lru_items c !! key.

Definition Purge (c : BasicLRU) : BasicLRU := mkLRU [] ∅ (lru_cap c).

Definition Remove (key : K) (c : BasicLRU) : bool * BasicLRU :=
  match lru_items c !! key with
  | None => (false, c)
  | Some _ => (true, mkLRU (filter (fun k => k <> key) (lru_list c)) (delete key (lru_items c)) (lru_cap c))
  end.

Definition RemoveOldest (c : BasicLRU) : option (K * option V) * BasicLRU :=
  match last (lru_list c) with
  | None => (None, c)
  | Some key =>
      (Some (key, lru_items c !! key),
       mkLRU (filter (fun k => k <> key) (lru_list c)) (delete key (lru_items c)) (lru_cap c))
  end.

(** [appendTo] walks the ring backwards, from the least recently used key. *)
Definition Keys (c : BasicLRU) : list K := rev (lru_list c).

(** ** Invariant *)

(** The ring holds the keys of the map, each once, and not more than the capacity. *)
Record lru_ok (c : BasicLRU) : Prop := {
  lru_nodup : NoDup (lru_list c);
  lru_keys : forall k, k ∈ lru_list c <-> is_Some (lru_items c !! k);
  lru_bound : Len c <= lru_cap c;
  lru_pos : 1 <= lru_cap c;
}.

Lemma Len_list c : lru_ok c -> Len c = len (lru_list c).
Proof.
  intros [Hn Hk _ _]. unfold Len, len. rewrite <- size_dom.
  replace (dom (lru_items c)) with (list_to_set (C := gset K) (lru_list c)).
  - by rewrite size_list_to_set.
  - apply set_eq. intros k. by rewrite elem_of_list_to_set, elem_of_dom.
Qed.

Lemma NewBasicLRU_ok n : lru_ok (NewBasicLRU n).
Proof.
  unfold NewBasicLRU. split; cbn.
  - constructor.
  - intros k. rewrite lookup_empty. split; [by intros ?%elem_of_nil|by intros [? ?]].
  - unfold Len. cbn. rewrite map_size_empty. case_if; bool_to_Z; lia.
  - case_if; bool_to_Z; lia.
Qed.

Lemma moveToFront_spec key l : NoDup l -> key ∈ l ->
  NoDup (moveToFront key l) /\ forall k, k ∈ moveToFront key l <-> k ∈ l.
Proof.
  intros Hn Hk. unfold moveToFront. split.
  - constructor; [|by apply NoDup_filter]. rewrite list_elem_of_filter. tauto.
  - intros k. rewrite elem_of_cons, list_elem_of_filter. destruct (decide (k = key)) as [->|]; tauto.
Qed.

Lemma removeLast_snoc k l : removeLast (l ++ [k]) = Some (k, l).
Proof.
  unfold removeLast. rewrite last_snoc, length_app. cbn.
  by replace (length l + 1 - 1)%nat with (length l) by lia; rewrite take_app_length.
Qed.

Lemma Get_ok key c : lru_ok c -> lru_ok (Get key c).2.
Proof.
  intros Hc. unfold Get. destruct (lru_items c !! key) eqn:E; [|done]. destruct Hc as [Hn Hk Hb Hp].
  destruct (moveToFront_spec key (lru_list c)) as [Hn' Hk']; [done|by apply Hk; eauto|].
  split; cbn; try done. intros k. by rewrite Hk', Hk.
Qed.

Lemma Remove_ok key c : lru_ok c -> lru_ok (Remove key c).2.
Proof.
  intros Hc. unfold Remove. destruct (lru_items c !! key) eqn:E; [|done]. destruct Hc as [Hn Hk Hb Hp].
  split; cbn; [by apply NoDup_filter| | |done].
  - intros k. rewrite list_elem_of_filter, Hk, lookup_delete_is_Some. naive_solver.
  - unfold Len in *. cbn. rewrite map_size_delete_Some by eauto. lia.
Qed.

(** What [Add] leaves: the value is in front, and if the cache was full exactly the least recently
    used entry is gone. *)
Record added (key : K) (value : V) (c : BasicLRU) (evicted : bool) (c' : BasicLRU) : Prop := {
  a_ok : lru_ok c';
  a_value : Peek key c' = Some value;
  a_front : head (lru_list c') = Some key;
  a_full : evicted = true <-> Peek key c = None /\ Len c = lru_cap c;
  a_others : forall k, k <> key -> Peek k c' = Peek k c \/
    (evicted = true /\ last (lru_list c) = Some k /\ Peek k c' = None);
}.

Lemma added_hit key value c v : lru_ok c -> lru_items c !! key = Some v ->
  added key value c false (mkLRU (moveToFront key (lru_list c)) (<[key := value]> (lru_items c)) (lru_cap c)).
Proof.
  intros [Hn Hk Hb Hp] E.
  destruct (moveToFront_spec key (lru_list c)) as [Hn' Hk']; [done|by apply Hk; eauto|].
  split; unfold Peek; cbn.
  - split; cbn; [done| | |done].
    + intros k. rewrite Hk', Hk. destruct (decide (k = key)) as [->|].
      * rewrite lookup_insert_eq, E. split; eauto.
      * by rewrite lookup_insert_ne.
    + unfold Len in *. cbn. rewrite map_size_insert_Some by eauto. lia.
  - apply lookup_insert_eq.
  - done.
  - split; [done|]. intros [? _]. congruence.
  - intros k Hne. left. by rewrite lookup_insert_ne.
Qed.

Lemma added_room key value c : lru_ok c -> lru_items c !! key = None -> Len c < lru_cap c ->
  added key value c false (mkLRU (key :: lru_list c) (<[key := value]> (lru_items c)) (lru_cap c)).
Proof.
  intros [Hn Hk Hb Hp] E Hroom. assert (Hkey : key ∉ lru_list c) by (rewrite Hk, E; by intros [? ?]).
  split; unfold Peek; cbn.
  - split; cbn; [by constructor| | |done].
    + intros k. rewrite elem_of_cons, Hk. destruct (decide (k = key)) as [->|].
      * rewrite lookup_insert_eq. split; eauto.
      * rewrite lookup_insert_ne by done. naive_solver.
    + unfold Len in *. cbn. rewrite map_size_insert_None by done. lia.
  - apply lookup_insert_eq.
  - done.
  - split; [done|]. intros [_ ?]. lia.
  - intros k Hne. left. by rewrite lookup_insert_ne.
Qed.

Lemma added_evict key value c old rest : lru_ok c -> lru_items c !! key = None -> Len c = lru_cap c ->
  lru_list c = rest ++ [old] ->
  added key value c true (mkLRU (key :: rest) (<[key := value]> (delete old (lru_items c))) (lru_cap c)).
Proof.
  intros [Hn Hk Hb Hp] E Hfull El. rewrite El in *. apply NoDup_app in Hn as (Hnl & Hx & _).
  assert (Hin : forall k, k ∈ rest ++ [old] <-> k ∈ rest \/ k = old).
  { intros k. by rewrite elem_of_app, list_elem_of_singleton. }
  assert (Hkey : key ∉ rest).
  { intros Hr. assert (is_Some (lru_items c !! key)) as [? ?]; [apply Hk, Hin; by left|congruence]. }
  assert (Hold : is_Some (lru_items c !! old)) by (apply Hk, Hin; by right).
  assert (Hne : old <> key) by (intros ->; destruct Hold; congruence).
  assert (Hor : old ∉ rest) by (intros Hr; apply (Hx _ Hr); by apply list_elem_of_singleton).
  split; unfold Peek; cbn.
  - split; cbn; [by constructor| | |done].
    + intros k. rewrite elem_of_cons. destruct (decide (k = key)) as [->|].
      * rewrite lookup_insert_eq. split; eauto.
      * rewrite lookup_insert_ne, lookup_delete_is_Some, <- Hk, Hin by done. naive_solver.
    + unfold Len in *. cbn. rewrite map_size_insert_None by (by rewrite lookup_delete_ne).
      rewrite map_size_delete_Some by done. pose proof (map_size_ne_0_lookup_2 _ _ Hold). lia.
  - apply lookup_insert_eq.
  - done.
  - by split.
  - intros k Hk'. rewrite lookup_insert_ne by done. destruct (decide (k = old)) as [->|].
    + right. by rewrite El, last_snoc, lookup_delete_eq.
    + left. by rewrite lookup_delete_ne.
Qed.

Lemma Add_ok key value c : lru_ok c -> exists evicted c', Add key value c = Ret (evicted, c') /\
  added key value c evicted c'.
Proof.
  intros Hc. pose proof (Len_list c Hc) as Hlen. pose proof (lru_bound c Hc). pose proof (lru_pos c Hc).
  unfold Add. destruct (lru_items c !! key) as [v|] eqn:E.
  { eexists _, _. split; [done|]. by eapply added_hit. }
  destruct (Z.leb_spec (lru_cap c) (Len c)).
  - destruct (lru_list c) as [|x l _] eqn:El using rev_ind; [rewrite len_nil in Hlen; lia|].
    rewrite removeLast_snoc. eexists _, _. split; [done|]. apply added_evict; [done|done|lia|done].
  - eexists _, _. split; [done|]. by apply added_room.
Qed.
End lru.
Arguments BasicLRU K {_ _} V : assert.

(** The cache keeps its invariant (every cached key once in the order of use, at most as many as
    its capacity) and evicts only the least recently used entry, only when a new key does not fit:
    after [Add] the value is found, all other values are as before but for the evicted one, and a
    [Get] or [Remove] changes no other value. *)
Theorem lru_evicts_oldest {K : Type} `{Countable K} {V : Type} (key : K) (value : V) (c : BasicLRU K V) :
  lru_ok c ->
  (exists evicted c', Add key value c = Ret (evicted, c') /\ lru_ok c' /\
     (Get key c').1 = Some value /\
     (evicted = true <-> Peek key c = None /\ Len c = lru_cap c) /\
     forall k, k <> key -> Peek k c' = Peek k c \/
       (evicted = true /\ (exists v, GetOldest c = Some (k, v)) /\ Peek k c' = None)) /\
  lru_ok (Get key c).2 /\ (forall k, Peek k (Get key c).2 = Peek k c) /\
  lru_ok (Remove key c).2 /\ Peek key (Remove key c).2 = None.
Proof.
  intros Hc. split_and!; [|by apply Get_ok| |by apply Remove_ok|].
  - destruct (Add_ok key value c Hc) as (ev & c' & E & [Hok Hv _ Hf Ho]). exists ev, c'.
    split_and!; try done.
    + unfold Get. unfold Peek in Hv. by rewrite Hv.
    + intros k Hk. destruct (Ho k Hk) as [?|(? & Hl & ?)]; [by left|right]. unfold GetOldest. rewrite Hl. eauto.
  - intros k. unfold Get. by destruct (lru_items c !! key).
  - unfold Remove, Peek. destruct (lru_items c !! key) eqn:E; [apply lookup_delete_eq|done].
Qed.

Lemma lru_evicts_oldest_witness :
  exists evicted c', Add 7 true (NewBasicLRU (K := Z) 1) = Ret (evicted, c') /\ lru_ok c'.
Proof.
  destruct (proj1 (lru_evicts_oldest 7 true (NewBasicLRU (K := Z) 1) (NewBasicLRU_ok 1)))
    as (ev & c' & E & Hok & _).
  exists ev, c'. split; [exact E|exact Hok].
Defined.

(** ** Refinement: the cache is a list of entries in the order of their last use *)

Section refinement.
Context {K : Type} `{Countable K} {V : Type}.

(** The methods of the cache and their results *)
Inductive lru_call :=
  | CAdd (key : K) (value : V) | CContains (key : K) | CGet (key : K) | CGetOldest | CLen
  | CPeek (key : K) | CPurge | CRemove (key : K) | CRemoveOldest | CKeys.
Inductive lru_result :=
  | RFlag (b : bool) | RValue (v : option V) | REntry (e : option (K * option V)) | RNum (n : Z) | RKeys (l : list K) | RUnit.

Definition lru_exec (m : lru_call) (c : BasicLRU K V) : Outcome (lru_result * BasicLRU K V) :=
  match m with
  | CAdd key value => '(b, c) ← Add key value c; Ret (RFlag b, c)
  | CContains key => Ret (RFlag (Contains key c), c)
  | CGet key => let '(v, c) := Get key c in Ret (RValue v, c)
  | CGetOldest => Ret (REntry (GetOldest c), c)
  | CLen => Ret (RNum (Len c), c)
  | CPeek key => Ret (RValue (Peek key c), c)
  | CPurge => Ret (RUnit, Purge c)
  | CRemove key => let '(b, c) := Remove key c in Ret (RFlag b, c)
  | CRemoveOldest => let '(e, c) := RemoveOldest c in Ret (REntry e, c)
  | CKeys => Ret (RKeys (Keys c), c)
  end.

Fixpoint lru_run (ms : list lru_call) (c : BasicLRU K V) : Outcome (list lru_result * BasicLRU K V) :=
  match ms with
  | [] => Ret ([], c)
  | m :: ms => '(r, c) ← lru_exec m c; '(rs, c) ← lru_run ms c; Ret (r :: rs, c)
  end.

(** The specification: entries with their values, the most recently used first; adding moves the entry to the front
    and keeps the first [cap] entries. *)
Fixpoint assoc (key : K) (l : list (K * V)) : option V :=
  match l with
  | [] => None
  | (k, v) :: l => if decide (key = k) then Some v else assoc key l
  end.
Definition others (key : K) (l : list (K * V)) : list (K * V) := filter (fun p => p.1 <> key) l.
Definition oldest (l : list (K * V)) : option (K * option V) := (fun p => (p.1, Some p.2)) <$> last l.

Definition spec_exec (cap : nat) (m : lru_call) (l : list (K * V)) : lru_result * list (K * V) :=
  match m with
  | CAdd key value => (RFlag (bool_decide (assoc key l = None) && (cap <=? length l)%nat), take cap ((key, value) :: others key l))
  | CContains key => (RFlag (bool_decide (is_Some (assoc key l))), l)
  | CGet key => (RValue (assoc key l), match assoc key l with Some v => (key, v) :: others key l | None => l end)
  | CGetOldest => (REntry (oldest l), l)
  | CLen => (RNum (len l), l)
  | CPeek key => (RValue (assoc key l), l)
  | CPurge => (RUnit, [])
  | CRemove key => (RFlag (bool_decide (is_Some (assoc key l))), others key l)
  | CRemoveOldest => (REntry (oldest l), take (length l - 1) l)
  | CKeys => (RKeys (rev l.*1), l)
  end.

Fixpoint spec_run (cap : nat) (ms : list lru_call) (l : list (K * V)) : list lru_result * list (K * V) :=
  match ms with
  | [] => ([], l)
  | m :: ms => let '(r, l) := spec_exec cap m l in let '(rs, l) := spec_run cap ms l in (r :: rs, l)
  end.

(** The cache holds the entries of the list. *)
Record holds (cap : nat) (c : BasicLRU K V) (l : list (K * V)) : Prop := {
  ho_list : lru_list c = l.*1;
  ho_items : lru_items c = list_to_map l;
  ho_nodup : NoDup l.*1;
  ho_cap : lru_cap c = Z.of_nat cap /\ (1 <= cap)%nat;
  ho_len : (length l <= cap)%nat;
}.

Lemma assoc_map key l : (list_to_map l : gmap K V) !! key = assoc key l.
Proof.
  induction l as [|[k v] l IH]; [apply lookup_empty|]. cbn. case_decide as E; [subst; apply lookup_insert_eq|].
  by rewrite lookup_insert_ne.
Qed.

Lemma assoc_None key l : assoc key l = None <-> key ∉ l.*1.
Proof. rewrite <- assoc_map. symmetry. apply not_elem_of_list_to_map. Qed.

Lemma others_keys key l : (others key l).*1 = filter (fun k => k <> key) l.*1.
Proof.
  unfold others. induction l as [|[k v] l IH]; [done|]. rewrite fmap_cons, !filter_cons. cbn [fst].
  case_decide; [rewrite fmap_cons; cbn; by rewrite IH|done].
Qed.

Lemma others_assoc key k l : assoc k (others key l) = if decide (k = key) then None else assoc k l.
Proof.
  unfold others. induction l as [|[k' v] l IH]; [by destruct (decide (k = key))|]. rewrite filter_cons. cbn [fst assoc].
  destruct (decide (k' = key)) as [->|Hne].
  - rewrite decide_False by tauto. rewrite IH. by destruct (decide (k = key)).
  - rewrite decide_True by done. cbn [assoc]. rewrite IH. destruct (decide (k = k')) as [->|]; [by rewrite decide_False|done].
Qed.

Lemma others_fresh key l : assoc key l = None -> others key l = l.
Proof.
  intros Hn%assoc_None. unfold others. induction l as [|[k v] l IH]; [done|]. rewrite fmap_cons, not_elem_of_cons in Hn. destruct Hn as [Hk Hn].
  rewrite filter_cons_True by congruence. f_equal. by apply IH.
Qed.

Lemma others_delete key l : (list_to_map (others key l) : gmap K V) = delete key (list_to_map l).
Proof.
  apply map_eq. intros k. rewrite assoc_map, others_assoc. case_decide; [subst; by rewrite lookup_delete_eq|].
  by rewrite lookup_delete_ne, assoc_map.
Qed.

Lemma others_length key l : (length (others key l) <= length l)%nat.
Proof. apply length_filter. Qed.

Lemma others_shorter key l : is_Some (assoc key l) -> (S (length (others key l)) <= length l)%nat.
Proof.
  induction l as [|[k v] l IH]; [by intros [? ?]|]. cbn [assoc]. unfold others in *. rewrite filter_cons. cbn [fst length].
  destruct (decide (key = k)) as [->|Hne].
  - rewrite decide_False by tauto. intros _. pose proof (length_filter (fun p : K * V => p.1 <> k) l). lia.
  - rewrite decide_True by congruence. cbn [length]. intros Hs. specialize (IH Hs). lia.
Qed.

Lemma others_last l k v : NoDup (l ++ [(k, v)]).*1 -> others k (l ++ [(k, v)]) = l.
Proof.
  rewrite fmap_app. intros (_ & Hd & _)%NoDup_app. unfold others. rewrite filter_app, filter_cons_False by (cbn; tauto).
  rewrite filter_nil, app_nil_r. apply others_fresh, assoc_None. intros Hin. apply (Hd _ Hin), list_elem_of_singleton. done.
Qed.

Lemma holds_others key cap c l : holds cap c l ->
  holds cap (mkLRU (filter (fun k => k <> key) (lru_list c)) (delete key (lru_items c)) (lru_cap c)) (others key l).
Proof.
  intros [Hl Hi Hn Hc Hb]. split; cbn.
  - by rewrite Hl, others_keys.
  - by rewrite Hi, others_delete.
  - rewrite others_keys. by apply NoDup_filter.
  - done.
  - pose proof (others_length key l). lia.
Qed.

Lemma holds_front key v cap c l : holds cap c l -> (S (length (others key l)) <= cap)%nat ->
  holds cap (mkLRU (key :: (others key l).*1) (<[key := v]> (list_to_map (others key l))) (lru_cap c)) ((key, v) :: others key l).
Proof.
  intros [Hl Hi Hn Hc Hb] Hle. split; cbn; try done. constructor.
  - apply assoc_None. rewrite others_assoc. by case_decide.
  - rewrite others_keys. by apply NoDup_filter.
Qed.

Lemma insert_others key v l : <[key := v]> (list_to_map (others key l) : gmap K V) = <[key := v]> (list_to_map l).
Proof. by rewrite others_delete, insert_delete_eq. Qed.

Lemma holds_Add key v cap c l : holds cap c l -> exists b c', Add key v c = Ret (b, c') /\
  spec_exec cap (CAdd key v) l = (RFlag b, take cap ((key, v) :: others key l)) /\ holds cap c' (take cap ((key, v) :: others key l)).
Proof.
  intros Hh. pose proof Hh as [Hl Hi Hn [Hc H1] Hb]. unfold Add. cbn [spec_exec]. rewrite Hi, assoc_map. destruct (assoc key l) as [w|] eqn:E.
  - pose proof (others_shorter key l ltac:(by eexists)). eexists _, _. split; [done|]. split; [done|]. rewrite take_ge by (cbn; lia).
    pose proof (holds_front key v cap c l Hh ltac:(lia)) as Hf. unfold moveToFront. by rewrite Hl, <- others_keys, <- insert_others.
  - unfold Len. rewrite Hi, map_size_list_to_map by done. rewrite (others_fresh key l E), Hc. destruct (Z.leb_spec (Z.of_nat cap) (Z.of_nat (length l))).
    + destruct l as [|[k0 v0] l _] using rev_ind; [cbn in *; lia|]. rewrite Hl, fmap_app. cbn [fmap list_fmap]. rewrite removeLast_snoc.
      rewrite length_app in *. cbn [length fst] in *. eexists _, _. split; [done|]. rewrite bool_decide_true by done.
      replace (cap <=? length l + 1)%nat with true by (symmetry; apply Nat.leb_le; lia). split; [done|].
      assert (take cap ((key, v) :: l ++ [(k0, v0)]) = (key, v) :: l) as ->.
      { destruct cap as [|cap]; [lia|]. cbn. rewrite take_app_le by lia. rewrite take_ge by lia. done. }
      assert (Ek : assoc key l = None).
      { apply assoc_None. apply assoc_None in E. rewrite fmap_app, not_elem_of_app in E. tauto. }
      split; cbn; try done; try lia.
      * f_equal. rewrite <- others_delete. by rewrite others_last.
      * constructor; [by apply assoc_None|]. rewrite fmap_app in Hn. by apply NoDup_app in Hn as (? & _).
    + eexists _, _. split; [done|]. rewrite bool_decide_true by done. replace (cap <=? length l)%nat with false by (symmetry; apply Nat.leb_gt; lia).
      split; [done|]. rewrite take_ge by (cbn; lia). split; cbn; try done; try lia; [by rewrite Hl|]. constructor; [by apply assoc_None|done].
Qed.

Lemma last_others l k v : NoDup l.*1 -> last l = Some (k, v) -> take (length l - 1) l = others k l.
Proof.
  destruct l as [|[k0 v0] l _] using rev_ind; [done|]. rewrite last_snoc. intros Hn [= -> ->]. rewrite others_last by done.
  rewrite length_app. cbn. replace (length l + 1 - 1)%nat with (length l) by lia. apply take_app_length.
Qed.

Lemma last_assoc l k v : NoDup l.*1 -> last l = Some (k, v) -> assoc k l = Some v.
Proof. intros Hn Hl. rewrite <- assoc_map. apply elem_of_list_to_map; [done|]. by apply last_Some_elem_of. Qed.

Lemma holds_exec cap m c l : holds cap c l -> exists c', lru_exec m c = Ret ((spec_exec cap m l).1, c') /\ holds cap c' (spec_exec cap m l).2.
Proof.
  intros Hh. pose proof Hh as [Hl Hi Hn [Hc H1] Hb].
  assert (Ho : GetOldest c = oldest l /\ forall k, last (lru_list c) = Some k -> exists v, last l = Some (k, v) /\ lru_items c !! k = Some v).
  { unfold GetOldest, oldest. rewrite Hl, Hi, fmap_last. destruct (last l) as [[k v]|] eqn:El; cbn; [|done].
    rewrite assoc_map, (last_assoc l k v Hn El). split; [done|]. intros ? [= <-]. exists v. by rewrite assoc_map, (last_assoc l k v Hn El). }
  destruct Ho as [Ho Hlast]. destruct m as [key v|key|key| | |key| |key| |]; cbn [lru_exec].
  - destruct (holds_Add key v cap c l Hh) as (b & c' & -> & -> & Hh'). by exists c'.
  - exists c. unfold Contains. by rewrite Hi, assoc_map.
  - unfold Get. rewrite Hi, assoc_map. cbn [spec_exec fst snd]. destruct (assoc key l) as [v|] eqn:E; [|by exists c].
    eexists. split; [done|]. pose proof (others_shorter key l ltac:(by eexists)).
    pose proof (holds_front key v cap c l Hh ltac:(lia)) as Hf. unfold moveToFront. rewrite Hl, <- others_keys.
    rewrite insert_others in Hf. rewrite insert_id in Hf by (by rewrite assoc_map). done.
  - exists c. by rewrite Ho.
  - exists c. unfold Len. by rewrite Hi, map_size_list_to_map.
  - exists c. unfold Peek. by rewrite Hi, assoc_map.
  - eexists. split; [done|]. split; cbn; try done; [constructor|lia].
  - unfold Remove. rewrite Hi, assoc_map. cbn [spec_exec fst snd]. destruct (assoc key l) as [v|] eqn:E.
    + eexists. split; [done|]. rewrite <- Hi. by apply holds_others.
    + exists c. split; [done|]. by rewrite others_fresh.
  - unfold RemoveOldest. unfold GetOldest in Ho. destruct (last (lru_list c)) as [k|] eqn:El.
    + destruct (Hlast k eq_refl) as (v & Hv & _). eexists. split; [by rewrite Ho|]. cbn [spec_exec snd]. rewrite (last_others l k v) by done. by apply holds_others.
    + exists c. rewrite Ho. split; [done|]. cbn [spec_exec snd]. rewrite Hl, fmap_last in El. destruct (last l) eqn:El'; [done|]. by apply last_None in El' as ->.
  - exists c. unfold Keys. by rewrite Hl.
Qed.

Lemma holds_run cap ms : forall c l, holds cap c l -> exists c', lru_run ms c = Ret ((spec_run cap ms l).1, c') /\ holds cap c' (spec_run cap ms l).2.
Proof.
  induction ms as [|m ms IH]; intros c l Hh; [by exists c|]. cbn [lru_run spec_run].
  destruct (holds_exec cap m c l Hh) as (c1 & -> & H1). cbn [mbind outcome_bind]. destruct (spec_exec cap m l) as [r l1]. cbn [fst snd] in *.
  destruct (IH c1 l1 H1) as (c2 & -> & H2). cbn [mbind outcome_bind]. destruct (spec_run cap ms l1) as [rs l2]. by exists c2.
Qed.
End refinement.

(** C40 The cache refines a list of entries ordered by their last use: for every capacity and every sequence of calls of
    its methods on a new cache nothing panics, every result is the one that the list gives, and the cache ends with the
    entries of the list in their order.  In the list, adding puts the entry in front and cuts the list at the capacity,
    so that exactly the least recently added, updated or read entry is lost, and only when a new key does not fit. *)
Theorem lru_refines_recency {K : Type} `{Countable K} {V : Type} (capacity : Z) (calls : list (@lru_call K V)) :
  let cap := Z.to_nat (Z.max 1 capacity) in
  let '(results, entries) := spec_run cap calls [] in
  exists c, lru_run calls (NewBasicLRU capacity) = Ret (results, c) /\ lru_list c = entries.*1 /\ (forall k, Peek k c = assoc k entries) /\
    Len c = len entries /\ Len c <= Z.max 1 capacity.
Proof.
  intros cap. destruct (holds_run cap calls (NewBasicLRU capacity) []) as (c & E & [Hl Hi Hn [Hc H1] Hb]).
  { split; cbn; [done|done|constructor| |lia]. subst cap. destruct (Z.leb_spec capacity 0); lia. }
  destruct (spec_run cap calls []) as [rs es]. cbn [fst snd] in *. exists c. split; [done|]. split; [done|].
  split; [intros k; unfold Peek; by rewrite Hi, assoc_map|]. unfold Len, len. rewrite Hi, map_size_list_to_map by done. split; [done|]. subst cap. lia.
Qed.

(** Two entries fit; reading the older one saves it from eviction. *)
Example lru_run_demo :
  match lru_run [CAdd 1 10; CAdd 2 20; CGet 1; CAdd 3 30; CKeys; CPeek 2] (NewBasicLRU (K := Z) (V := Z) 2) with
  | Ret (rs, _) => rs
  | Fail _ => []
  end = [RFlag false; RFlag false; RValue (Some 10); RFlag true; RKeys [1; 3]; RValue None].
Proof. vm_compute. reflexivity. Qed.

End LRU.
