(* ===== verification/Headers.v ===== *)
(** * Block headers ([core/types/block.go], [core/types/gen_header_rlp.go])

    The header record, its RLP encoding and its hash.  A nil [*big.Int] or pointer is [None]; the
    eight bytes of the nonce are the integer they denote; the bloom filter is kept as its bytes. *)

From S2P Require Import Prelude Bytes Uint256 Params Rlp VM.

(** [type Header struct] *)
Record Header := mkHeader {
  hd_ParentHash : Hash;
  hd_UncleHash : Hash;
  hd_Coinbase : Address;
  hd_Root : Hash;
  hd_TxHash : Hash;
  hd_ReceiptHash : Hash;
  hd_Bloom : bytes;
  hd_Difficulty : option Z;
  hd_Number : option Z;
  hd_GasLimit : Z;
  hd_GasUsed : Z;
  hd_Time : Z;
  hd_Extra : bytes;
  hd_MixDigest : Hash;
  hd_Nonce : Z;
  hd_BaseFee : option Z;
  hd_WithdrawalsHash : option Hash;
  hd_BlobGasUsed : option Z;
  hd_ExcessBlobGas : option Z;
  hd_ParentBeaconRoot : option Hash;
  hd_RequestsHash : option Hash;
}.

(** The eight bytes of a [BlockNonce]. *)
Definition Nonce_Bytes (n : Z) : bytes := be_bytes 8 n.

Definition present {A} (o : option A) : bool := match o with Some _ => true | None => false end.

(** [if x == nil { w.Write(rlp.EmptyString) } else { if x.Sign() == -1 { return ErrNegativeBigInt };
    w.WriteBigInt(x) }]; [None] is the error. *)
Definition writeBigOpt (b : encBuffer) (x : option Z) : option encBuffer :=
  match x with
  | None => Some (append_str b [128])
  | Some z => if z <? 0 then None else Some (writeBigInt b z)
  end.

Definition writeHashOpt (b : encBuffer) (x : option Hash) : encBuffer :=
  match x with None => append_str b [128] | Some h => writeBytes b (Hash_Bytes h) end.

Definition writeUintOpt (b : encBuffer) (x : option Z) : encBuffer :=
  match x with None => append_str b [128] | Some n => writeUint64 b n end.

(** [func (obj *Header) EncodeRLP(_w io.Writer) error]: the encoding, or [None] for
    [ErrNegativeBigInt]. *)
Definition EncodeRLP (obj : Header) : Outcome (option bytes) :=
  let '(tmp0, w) := buf_list emptyBuf in
  let w := writeBytes w (Hash_Bytes (hd_ParentHash obj)) in
  let w := writeBytes w (Hash_Bytes (hd_UncleHash obj)) in
  let w := writeBytes w (Address_Bytes (hd_Coinbase obj)) in
  let w := writeBytes w (Hash_Bytes (hd_Root obj)) in
  let w := writeBytes w (Hash_Bytes (hd_TxHash obj)) in
  let w := writeBytes w (Hash_Bytes (hd_ReceiptHash obj)) in
  let w := writeBytes w (hd_Bloom obj) in
  match writeBigOpt w (hd_Difficulty obj) with
  | None => Ret None
  | Some w =>
    match writeBigOpt w (hd_Number obj) with
    | None => Ret None
    | Some w =>
      let w := writeUint64 w (hd_GasLimit obj) in
      let w := writeUint64 w (hd_GasUsed obj) in
      let w := writeUint64 w (hd_Time obj) in
      let w := writeBytes w (hd_Extra obj) in
      let w := writeBytes w (Hash_Bytes (hd_MixDigest obj)) in
      let w := writeBytes w (Nonce_Bytes (hd_Nonce obj)) in
      let tmp1 := present (hd_BaseFee obj) in
      let tmp2 := present (hd_WithdrawalsHash obj) in
      let tmp3 := present (hd_BlobGasUsed obj) in
      let tmp4 := present (hd_ExcessBlobGas obj) in
      let tmp5 := present (hd_ParentBeaconRoot obj) in
      let tmp6 := present (hd_RequestsHash obj) in
      match (if tmp1 || tmp2 || tmp3 || tmp4 || tmp5 || tmp6
             then writeBigOpt w (hd_BaseFee obj) else Some w) with
      | None => Ret None
      | Some w =>
        let w := if tmp2 || tmp3 || tmp4 || tmp5 || tmp6
                 then writeHashOpt w (hd_WithdrawalsHash obj) else w in
        let w := if tmp3 || tmp4 || tmp5 || tmp6 then writeUintOpt w (hd_BlobGasUsed obj) else w in
        let w := if tmp4 || tmp5 || tmp6 then writeUintOpt w (hd_ExcessBlobGas obj) else w in
        let w := if tmp5 || tmp6 then writeHashOpt w (hd_ParentBeaconRoot obj) else w in
        let w := if tmp6 then writeHashOpt w (hd_RequestsHash obj) else w in
        w ← listEnd w tmp0;
        Ret (Some (makeBytes w))
      end
    end
  end.

(** [func (h *Header) Hash() common.Hash], [rlpHash]: an encoding error is ignored, and nothing is
    hashed then. *)
Definition Header_Hash `{Crypto} (h : Header) : Outcome Hash :=
  enc ← EncodeRLP h; Ret (Keccak256 (default [] enc)).

(** [types.EmptyUncleHash], the value of [types.CalcUncleHash(nil)]: [Keccak256(RLP([]))]. *)
Definition EmptyUncleHash `{Crypto} : Hash := Keccak256 [192].
