(* ===== verification/HeaderRules.v ===== *)
(** * Rules between a header and its parent ([consensus/misc])

    The gas limit ([gaslimit.go]), the base fee of EIP-1559 ([eip1559/eip1559.go]) and the excess
    blob gas and blob fee of EIP-4844 ([eip4844/eip4844.go]).  A [big.Int] is an unbounded integer;
    [Div] rounds towards minus infinity for a positive divisor, as [Z.div] does, and panics on
    zero. *)

From S2P Require Import Prelude Bytes Uint256 Params ChainConfig Rlp VM Headers.
Import Config (IsLondon, IsCancun, IsPrague, IsOsaka, LatestFork, Fork, fork_Osaka, fork_Prague, fork_Cancun).

(** ** Gas limit *)

(** [int64(x)] of a [uint64], and wrapped [int64] results. *)
Definition int64 (z : Z) : Z := let w := wrap64 z in if w <? 2 ^ 63 then w else w - two64.

Inductive headererror :=
  | ErrInvalidGasLimit | ErrGasLimitTooLow
  | ErrMissingBaseFee | ErrInvalidBaseFee
  | ErrMissingExcessBlobGas | ErrMissingBlobGasUsed | ErrBlobGasTooHigh | ErrBlobGasMultiple
  | ErrInvalidExcessBlobGas.

#[global] Instance headererror_eq_dec : EqDecision headererror.
Proof. solve_decision. Defined.

Definition VerifyGaslimit (parentGasLimit headerGasLimit : Z) : option headererror :=
  let diff := int64 (int64 parentGasLimit - int64 headerGasLimit) in
  let diff := if diff <? 0 then int64 (diff * -1) else diff in
  let limit := parentGasLimit / GasLimitBoundDivisor in
  if limit <=? wrap64 diff then Some ErrInvalidGasLimit
  else if headerGasLimit <? MinGasLimit then Some ErrGasLimitTooLow
  else None.

(** ** EIP-1559 *)

Definition ElasticityMultiplier (config : ChainConfig) : Z := DefaultElasticityMultiplier.
Definition BaseFeeChangeDenominator (config : ChainConfig) : Z := DefaultBaseFeeChangeDenominator.

(** A method of a [*big.Int] that must not be nil. *)
Definition big (o : option Z) : Outcome Z := match o with Some z => Ret z | None => Fail PanicNil end.

(** [z.Div(x, y)] *)
Definition big_Div (x y : Z) : Outcome Z := if y =? 0 then Fail PanicDivide else Ret (x / y).

Definition CalcBaseFee (config : ChainConfig) (parent : Header) : Outcome Z :=
  if negb (IsLondon config (hd_Number parent)) then Ret InitialBaseFee
  else
    let parentGasTarget := hd_GasLimit parent / ElasticityMultiplier config in
    if hd_GasUsed parent =? parentGasTarget then big (hd_BaseFee parent)
    else if parentGasTarget <? hd_GasUsed parent then
      baseFee ← big (hd_BaseFee parent);
      num ← big_Div ((hd_GasUsed parent -! parentGasTarget) * baseFee) parentGasTarget;
      num ← big_Div num (BaseFeeChangeDenominator config);
      Ret (if num <? 1 then baseFee + 1 else baseFee + num)
    else
      baseFee ← big (hd_BaseFee parent);
      num ← big_Div ((parentGasTarget -! hd_GasUsed parent) * baseFee) parentGasTarget;
      num ← big_Div num (BaseFeeChangeDenominator config);
      Ret (if baseFee - num <? 0 then 0 else baseFee - num).

Definition VerifyEIP1559Header (config : ChainConfig) (parent header : Header)
    : Outcome (option headererror) :=
  let parentGasLimit :=
    if negb (IsLondon config (hd_Number parent))
    then hd_GasLimit parent *! ElasticityMultiplier config else hd_GasLimit parent in
  match VerifyGaslimit parentGasLimit (hd_GasLimit header) with
  | Some e => Ret (Some e)
  | None =>
      match hd_BaseFee header with
      | None => Ret (Some ErrMissingBaseFee)
      | Some baseFee =>
          expectedBaseFee ← CalcBaseFee config parent;
          Ret (if negb (baseFee =? expectedBaseFee) then Some ErrInvalidBaseFee else None)
      end
  end.

(** ** EIP-4844 *)

(** The cases of [MaxBlobsPerBlock] and [targetBlobsPerBlock]. *)
Definition blobConfigAt (cfg : ChainConfig) (time : Z) : option BlobConfig :=
  match BlobScheduleConfig_ cfg with
  | None => None
  | Some s =>
      let london := LondonBlock cfg in
      if IsOsaka cfg london time && present (Osaka s) then Osaka s
      else if IsPrague cfg london time && present (Prague s) then Prague s
      else if IsCancun cfg london time && present (Cancun s) then Cancun s
      else None
  end.

Definition MaxBlobsPerBlock (cfg : ChainConfig) (time : Z) : Z :=
  match blobConfigAt cfg time with Some c => Max c | None => 0 end.

Definition MaxBlobGasPerBlock (cfg : ChainConfig) (time : Z) : Z :=
  wrap64 (MaxBlobsPerBlock cfg time) *! BlobTxBlobGasPerBlob.

Definition LatestMaxBlobsPerBlock (cfg : ChainConfig) : Z :=
  match BlobScheduleConfig_ cfg with
  | None => 0
  | Some s =>
      match Osaka s, Prague s, Cancun s with
      | Some c, _, _ => Max c
      | None, Some c, _ => Max c
      | None, None, Some c => Max c
      | None, None, None => 0
      end
  end.

Definition targetBlobsPerBlock (cfg : ChainConfig) (time : Z) : Z :=
  match blobConfigAt cfg time with Some c => Target c | None => 0 end.

(** A pointer that must not be nil. *)
Definition ptr {A} (o : option A) : Outcome A := match o with Some a => Ret a | None => Fail PanicNil end.

Definition CalcExcessBlobGas (config : ChainConfig) (parent : Header) (headTimestamp : Z) : Outcome Z :=
  '(parentExcessBlobGas, parentBlobGasUsed) ←
    (match hd_ExcessBlobGas parent with
     | Some e => u ← ptr (hd_BlobGasUsed parent); Ret (e, u)
     | None => Ret (0, 0)
     end);
  let excessBlobGas := parentExcessBlobGas +! parentBlobGasUsed in
  let targetGas := wrap64 (targetBlobsPerBlock config headTimestamp) *! BlobTxBlobGasPerBlob in
  Ret (if excessBlobGas <? targetGas then 0 else excessBlobGas -! targetGas).

Definition VerifyEIP4844Header (config : ChainConfig) (parent header : Header)
    : Outcome (option headererror) :=
  hn ← big (hd_Number header);
  pn ← big (hd_Number parent);
  if negb (wrap64 hn =? wrap64 pn +! 1) then Fail PanicExplicit
  else
    match hd_ExcessBlobGas header, hd_BlobGasUsed header with
    | None, _ => Ret (Some ErrMissingExcessBlobGas)
    | Some _, None => Ret (Some ErrMissingBlobGasUsed)
    | Some excess, Some used =>
        let maxBlobGas := MaxBlobGasPerBlock config (hd_Time header) in
        if maxBlobGas <? used then Ret (Some ErrBlobGasTooHigh)
        else if negb (used mod BlobTxBlobGasPerBlob =? 0) then Ret (Some ErrBlobGasMultiple)
        else
          expected ← CalcExcessBlobGas config parent (hd_Time header);
          Ret (if negb (excess =? expected) then Some ErrInvalidExcessBlobGas else None)
    end.

(** [for i := 1; accum.Sign() > 0; i++]; the fuel bounds the number of turns. *)
Fixpoint fakeExponentialLoop (fuel : nat) (numerator denominator : Z) (i output accum : Z) : Outcome Z :=
  if 0 <? accum then
    match fuel with
    | O => Fail OutOfFuel
    | S f =>
        let output := output + accum in
        a ← big_Div (accum * numerator) denominator;
        a ← big_Div a i;
        fakeExponentialLoop f numerator denominator (i + 1) output a
    end
  else Ret output.

Definition fakeExponential (fuel : nat) (factor numerator denominator : Z) : Outcome Z :=
  output ← fakeExponentialLoop fuel numerator denominator 1 0 (factor * denominator);
  big_Div output denominator.

(** The [switch] of [CalcBlobFee]. *)
Definition blobUpdateFraction (config : ChainConfig) (time : Z) : Outcome Z :=
  match LatestFork config time with
  | fork_Osaka => s ← ptr (BlobScheduleConfig_ config); c ← ptr (Osaka s); Ret (UpdateFraction c)
  | fork_Prague => s ← ptr (BlobScheduleConfig_ config); c ← ptr (Prague s); Ret (UpdateFraction c)
  | fork_Cancun => s ← ptr (BlobScheduleConfig_ config); c ← ptr (Cancun s); Ret (UpdateFraction c)
  | _ => Fail PanicExplicit
  end.

Definition CalcBlobFee (fuel : nat) (config : ChainConfig) (header : Header) : Outcome Z :=
  frac ← blobUpdateFraction config (hd_Time header);
  excess ← ptr (hd_ExcessBlobGas header);
  fakeExponential fuel BlobTxMinBlobGasprice excess frac.
