(* ===== verification/Difficulty.v ===== *)
(** * Difficulty of proof-of-work blocks ([consensus/ethash])

    Two implementations of the same rules: the arbitrary-precision functions of [consensus.go] and
    the 256-bit functions of [difficulty.go]. *)

From S2P Require Import Prelude Bytes Uint256 Params ChainConfig Rlp VM Headers HeaderRules.

Section difficulty.
Context `{U : Uint256} `{C : Crypto}.

Definition expDiffPeriod : Z := 100000.

(** ** Arbitrary precision ([consensus.go]) *)

(** [if periodCount.Cmp(big1) > 0 { y := periodCount - 2; y.Exp(2, y); x += y }] *)
Definition addBomb (x periodCount : Z) : Z :=
  if 1 <? periodCount then x + 2 ^ (periodCount - 2) else x.

Definition makeDifficultyCalculator (bombDelay time : Z) (parent : Header) : Outcome Z :=
  let bombDelayFromParent := bombDelay - 1 in
  let x := (time - hd_Time parent) / 9 in
  let x := if hd_UncleHash parent =? EmptyUncleHash then 1 - x else 2 - x in
  let x := if x <? -99 then -99 else x in
  pdiff ← big (hd_Difficulty parent);
  let y := pdiff / DifficultyBoundDivisor in
  let x := pdiff + y * x in
  let x := if x <? MinimumDifficulty then MinimumDifficulty else x in
  number ← big (hd_Number parent);
  let fakeBlockNumber := if bombDelayFromParent <=? number then number - bombDelayFromParent else 0 in
  Ret (addBomb x (fakeBlockNumber / expDiffPeriod)).

Definition calcDifficultyHomestead (time : Z) (parent : Header) : Outcome Z :=
  let x := (time - hd_Time parent) / 10 in
  let x := 1 - x in
  let x := if x <? -99 then -99 else x in
  pdiff ← big (hd_Difficulty parent);
  let y := pdiff / DifficultyBoundDivisor in
  let x := pdiff + y * x in
  let x := if x <? MinimumDifficulty then MinimumDifficulty else x in
  number ← big (hd_Number parent);
  Ret (addBomb x ((number + 1) / expDiffPeriod)).

Definition calcDifficultyFrontier (time : Z) (parent : Header) : Outcome Z :=
  pdiff ← big (hd_Difficulty parent);
  let adjust := pdiff / DifficultyBoundDivisor in
  let diff := if time - hd_Time parent <? DurationLimit then pdiff + adjust else pdiff - adjust in
  let diff := if diff <? MinimumDifficulty then MinimumDifficulty else diff in
  number ← big (hd_Number parent);
  let periodCount := (number + 1) / expDiffPeriod in
  Ret (if 1 <? periodCount then
         let diff := diff + 2 ^ (periodCount - 2) in
         if diff <? MinimumDifficulty then MinimumDifficulty else diff
       else diff).

Definition calcDifficultyEip5133 := makeDifficultyCalculator 11400000.
Definition calcDifficultyEip4345 := makeDifficultyCalculator 10700000.
Definition calcDifficultyEip3554 := makeDifficultyCalculator 9700000.
Definition calcDifficultyEip2384 := makeDifficultyCalculator 9000000.
Definition calcDifficultyConstantinople := makeDifficultyCalculator 5000000.
Definition calcDifficultyByzantium := makeDifficultyCalculator 3000000.

Definition CalcDifficulty (config : ChainConfig) (time : Z) (parent : Header) : Outcome Z :=
  number ← big (hd_Number parent);
  let next := Some (number + 1) in
  if Config.IsGrayGlacier config next then calcDifficultyEip5133 time parent
  else if Config.IsArrowGlacier config next then calcDifficultyEip4345 time parent
  else if Config.IsLondon config next then calcDifficultyEip3554 time parent
  else if Config.IsMuirGlacier config next then calcDifficultyEip2384 time parent
  else if Config.IsConstantinople config next then calcDifficultyConstantinople time parent
  else if Config.IsByzantium config next then calcDifficultyByzantium time parent
  else if Config.IsHomestead config next then calcDifficultyHomestead time parent
  else calcDifficultyFrontier time parent.

(** ** 256-bit arithmetic ([difficulty.go]) *)

Definition frontierDurationLimit : Z := 13.
Definition minimumDifficulty : Z := 131072.
Definition expDiffPeriodUint : Z := 100000.
Definition difficultyBoundDivisor : Z := 11.

Definition CalcDifficultyFrontierU256 (time : Z) (parent : Header) : Outcome Z :=
  pdiff ← big (hd_Difficulty parent);
  let pDiff := FromBig pdiff in
  let adjust := Rsh pDiff difficultyBoundDivisor in
  let pDiff := if time -! hd_Time parent <? frontierDurationLimit then Add pDiff adjust
               else Sub pDiff adjust in
  let pDiff := if LtUint64 pDiff minimumDifficulty then SetUint64 minimumDifficulty else pDiff in
  number ← big (hd_Number parent);
  let periodCount := (wrap64 number +! 1) / expDiffPeriodUint in
  let pDiff := if 1 <? periodCount then Add pDiff (Lsh wone (periodCount -! 2)) else pDiff in
  Ret (uval pDiff).

Definition CalcDifficultyHomesteadU256 (time : Z) (parent : Header) : Outcome Z :=
  pdiff ← big (hd_Difficulty parent);
  let pDiff := FromBig pdiff in
  let adjust := Rsh pDiff difficultyBoundDivisor in
  let x := (time -! hd_Time parent) / 10 in
  let '(x, neg) :=
    if x =? 0 then (1, false) else if 100 <=? x then (99, true) else (x -! 1, true) in
  let adjust := Mul adjust (SetUint64 x) in
  let pDiff := if (neg : bool) then Sub pDiff adjust else Add pDiff adjust in
  let pDiff := if LtUint64 pDiff minimumDifficulty then SetUint64 minimumDifficulty else pDiff in
  number ← big (hd_Number parent);
  let periodCount := (1 +! wrap64 number) / expDiffPeriodUint in
  let pDiff := if 1 <? periodCount then Add pDiff (Lsh wone (periodCount -! 2)) else pDiff in
  Ret (uval pDiff).

Definition MakeDifficultyCalculatorU256 (bombDelay time : Z) (parent : Header) : Outcome Z :=
  let bombDelayFromParent := wrap64 bombDelay -! 1 in
  let x := (time -! hd_Time parent) / 9 in
  let c := if negb (hd_UncleHash parent =? EmptyUncleHash) then 2 else 1 in
  let xNeg := c <=? x in
  let x := if xNeg then x -! c else c -! x in
  let x := if 99 <? x then 99 else x in
  pdiff ← big (hd_Difficulty parent);
  let y := FromBig pdiff in
  let pDiff := y in
  let z := SetUint64 x in
  let y := Rsh y difficultyBoundDivisor in
  let z := Mul y z in
  let y := if xNeg then Sub pDiff z else Add pDiff z in
  let y := if LtUint64 y minimumDifficulty then SetUint64 minimumDifficulty else y in
  number ← big (hd_Number parent);
  let pNum := wrap64 number in
  let y :=
    if bombDelayFromParent <=? pNum then
      let fakeBlockNumber := pNum -! bombDelayFromParent in
      if 2 * expDiffPeriodUint <=? fakeBlockNumber
      then Add (Lsh wone (fakeBlockNumber / expDiffPeriodUint -! 2)) y else y
    else y in
  Ret (uval y).
End difficulty.
