(* ===== verification/Clique.v ===== *)
(** * The proof-of-authority engine ([consensus/clique])

    Models [snapshot.go] (voting), [clique.go] (header verification, snapshots, preparation and
    finalization of blocks) and [rewards.go], [reward_snapshot.go] (the distribution of block
    rewards, an addition of this repository).

    A map of the code is a [gmap], the set of signers a [gset].  Signature recovery
    ([crypto.Ecrecover]), the ABI decoder ([unpack]), the clock ([now]) and the random choice of
    a proposal ([pick]) are parameters.  The cache of recovered signers is keyed by the hash of the
    header, of which the signer is a function, and is left out; the JSON text of a stored snapshot
    is the snapshot itself.  A call that fails to write the database is not modelled. *)

From stdpp Require Import sorting.
From S2P Require Import Prelude Bytes Uint256 Params ChainConfig Rlp VM Lru Headers HeaderRules.
Import Config (IsLondon, IsShanghai, IsCancun).

Module Clique.

(** ** Parameters and errors *)

Definition checkpointInterval : Z := 1024.
Definition inmemorySnapshots : Z := 128.
Definition epochLength : Z := 30000.
Definition extraVanity : Z := 32.
Definition extraSeal : Z := 65.
Definition nonceAuthVote : Z := 0xffffffffffffffff.
Definition nonceDropVote : Z := 0.
Definition diffInTurn : Z := 2.
Definition diffNoTurn : Z := 1.
Definition AddressLength : Z := 20.

Inductive cliqueerror :=
  | errUnknownBlock | errInvalidCheckpointBeneficiary | errInvalidVote | errInvalidCheckpointVote
  | errMissingVanity | errMissingSignature | errExtraSigners | errInvalidCheckpointSigners
  | errMismatchingCheckpointSigners | errInvalidMixDigest | errInvalidUncleHash
  | errInvalidDifficulty | errWrongDifficulty | errInvalidTimestamp | errInvalidVotingChain
  | errUnauthorizedSigner | errRecentlySigned
  | errRecover                        (** an error of [crypto.Ecrecover] *)
  | errFutureBlock | errUnknownAncestor
  | errGasLimitTooHigh | errShanghai | errWithdrawalsHash | errCancun | errExcessBlobGas
  | errBlobGasUsed | errParentBeaconRoot
  | errGasUsedTooHigh | errBaseFeeBeforeFork | errUncles
  | errHeader (e : headererror).

#[global] Instance cliqueerror_eq_dec : EqDecision cliqueerror.
Proof. solve_decision. Defined.

Record CliqueConfig := mkCliqueConfig { Period : Z; Epoch : Z }.

(** ** Snapshots ([snapshot.go]) *)

Record Vote := mkVote { vote_Signer : Address; vote_Block : Z; vote_Address : Address; vote_Authorize : bool }.

Record Tally := mkTally { tally_Authorize : bool; tally_Votes : Z }.

Record Snapshot := mkSnapshot {
  snap_config : CliqueConfig;
  snap_Number : Z; snap_Hash : Hash;
  Signers : gset Address;
  Recents : gmap Z Address;
  Votes : list Vote;
  Tallies : gmap Z Tally;
}.

Definition with_Signers (x : gset Address) (s : Snapshot) : Snapshot :=
  mkSnapshot (snap_config s) (snap_Number s) (snap_Hash s) x (Recents s) (Votes s) (Tallies s).
Definition with_Recents (x : gmap Z Address) (s : Snapshot) : Snapshot :=
  mkSnapshot (snap_config s) (snap_Number s) (snap_Hash s) (Signers s) x (Votes s) (Tallies s).
Definition with_Votes (x : list Vote) (s : Snapshot) : Snapshot :=
  mkSnapshot (snap_config s) (snap_Number s) (snap_Hash s) (Signers s) (Recents s) x (Tallies s).
Definition with_Tallies (x : gmap Z Tally) (s : Snapshot) : Snapshot :=
  mkSnapshot (snap_config s) (snap_Number s) (snap_Hash s) (Signers s) (Recents s) (Votes s) x.
Definition with_Head (n : Z) (h : Hash) (s : Snapshot) : Snapshot :=
  mkSnapshot (snap_config s) n h (Signers s) (Recents s) (Votes s) (Tallies s).

Definition newSnapshot (config : CliqueConfig) (number : Z) (hash : Hash) (signers : list Address) : Snapshot :=
  mkSnapshot config number hash (list_to_set signers) ∅ [] ∅.

(** [len(s.Signers)] *)
Definition nSigners (s : Snapshot) : Z := Z.of_nat (base.size (Signers s)).

(** [uint64(len(snap.Signers)/2 + 1)] *)
Definition recentLimit (s : Snapshot) : Z := nSigners s / 2 + 1.

Definition validVote (s : Snapshot) (address : Address) (authorize : bool) : bool :=
  let signer := bool_decide (address ∈ Signers s) in
  (signer && negb authorize) || (negb signer && authorize).

Definition cast (address : Address) (authorize : bool) (s : Snapshot) : bool * Snapshot :=
  if negb (validVote s address authorize) then (false, s)
  else
    (true,
     match Tallies s !! address with
     | Some old => with_Tallies (<[address := mkTally (tally_Authorize old) (tally_Votes old + 1)]> (Tallies s)) s
     | None => with_Tallies (<[address := mkTally authorize 1]> (Tallies s)) s
     end).

Definition uncast (address : Address) (authorize : bool) (s : Snapshot) : bool * Snapshot :=
  match Tallies s !! address with
  | None => (false, s)
  | Some tally =>
      if negb (Bool.eqb (tally_Authorize tally) authorize) then (false, s)
      else
        (true,
         if 1 <? tally_Votes tally
         then with_Tallies (<[address := mkTally (tally_Authorize tally) (tally_Votes tally - 1)]> (Tallies s)) s
         else with_Tallies (delete address (Tallies s)) s)
  end.

(** The loop that discards the previous vote of [signer] on [address]: the first one that matches
    is uncast and removed. *)
Fixpoint discardPrevious (signer address : Address) (before votes : list Vote) (s : Snapshot) : Snapshot :=
  match votes with
  | [] => s
  | v :: rest =>
      if (vote_Signer v =? signer) && (vote_Address v =? address)
      then with_Votes (before ++ rest) (uncast (vote_Address v) (vote_Authorize v) s).2
      else discardPrevious signer address (before ++ [v]) rest s
  end.

(** The loop that discards the votes cast by [signer]: each is uncast and removed. *)
Fixpoint discardBySigner (signer : Address) (kept votes : list Vote) (s : Snapshot) : Snapshot :=
  match votes with
  | [] => with_Votes kept s
  | v :: rest =>
      if vote_Signer v =? signer
      then discardBySigner signer kept rest (uncast (vote_Address v) (vote_Authorize v) s).2
      else discardBySigner signer (kept ++ [v]) rest s
  end.

(** The loop that removes the votes on [address]. *)
Definition discardAbout (address : Address) (s : Snapshot) : Snapshot :=
  with_Votes (filter (fun v => vote_Address v <> address) (Votes s)) s.

(** [delete(snap.Recents, number-limit)] if [number >= limit]. *)
Definition forgetRecent (number : Z) (s : Snapshot) : Snapshot :=
  let limit := recentLimit s in
  if limit <=? number then with_Recents (delete (number -! limit) (Recents s)) s else s.

(** [header.Number.Uint64()] *)
Definition blockNumber (h : Header) : Outcome Z := n ← big (hd_Number h); Ret (wrap64 n).

(** [a % b] on [uint64] *)
Definition umod (a b : Z) : Outcome Z := if b =? 0 then Fail PanicDivide else Ret (a mod b).

Definition recentlySigned (signer : Address) (s : Snapshot) : bool :=
  bool_decide (signer ∈ (map_to_list (Recents s)).*2).

(** Clearing the votes at a checkpoint. *)
Definition resetVotes (s : Snapshot) : Snapshot := with_Tallies ∅ (with_Votes [] s).

Definition voteOf (h : Header) : option bool :=
  if hd_Nonce h =? nonceAuthVote then Some true
  else if hd_Nonce h =? nonceDropVote then Some false else None.

(** The end of an iteration of [apply]: if the vote passed, the signers are updated. *)
Definition settleVote (number : Z) (coinbase : Address) (s : Snapshot) : Snapshot :=
  match Tallies s !! coinbase with
  | Some tally =>
      if nSigners s / 2 <? tally_Votes tally then
        let s :=
          if tally_Authorize tally then with_Signers (Signers s ∪ {[coinbase]}) s
          else
            let s := with_Signers (Signers s ∖ {[coinbase]}) s in
            let s := forgetRecent number s in
            discardBySigner coinbase [] (Votes s) s in
        let s := discardAbout coinbase s in
        with_Tallies (delete coinbase (Tallies s)) s
      else s
  | None => s
  end.

(** The new vote of [signer]. *)
Definition countVote (number : Z) (signer coinbase : Address) (authorize : bool) (s : Snapshot) : Snapshot :=
  let s := discardPrevious signer coinbase [] (Votes s) s in
  let '(ok, s) := cast coinbase authorize s in
  let s := if (ok : bool) then with_Votes (Votes s ++ [mkVote signer number coinbase authorize]) s else s in
  settleVote number coinbase s.

Section engine.
Context `{U : Uint256} `{C : Crypto}.
Context (Ecrecover : Hash -> bytes -> option bytes).

(** ** Signatures *)

(** [encodeSigHeader]: [rlp.Encode] of the listed fields, without the seal. *)
Definition encodeSigHeader (h : Header) : Outcome bytes :=
  extra ← slice (hd_Extra h) 0 (len (hd_Extra h) - extraSeal);
  if present (hd_WithdrawalsHash h) || present (hd_ExcessBlobGas h) || present (hd_BlobGasUsed h)
     || present (hd_ParentBeaconRoot h)
  then Fail PanicExplicit
  else
    let '(i, w) := buf_list emptyBuf in
    let w := writeBytes w (Hash_Bytes (hd_ParentHash h)) in
    let w := writeBytes w (Hash_Bytes (hd_UncleHash h)) in
    let w := writeBytes w (Address_Bytes (hd_Coinbase h)) in
    let w := writeBytes w (Hash_Bytes (hd_Root h)) in
    let w := writeBytes w (Hash_Bytes (hd_TxHash h)) in
    let w := writeBytes w (Hash_Bytes (hd_ReceiptHash h)) in
    let w := writeBytes w (hd_Bloom h) in
    match writeBigOpt w (hd_Difficulty h) with
    | None => Fail PanicExplicit
    | Some w =>
        match writeBigOpt w (hd_Number h) with
        | None => Fail PanicExplicit
        | Some w =>
            let w := writeUint64 w (hd_GasLimit h) in
            let w := writeUint64 w (hd_GasUsed h) in
            let w := writeUint64 w (hd_Time h) in
            let w := writeBytes w extra in
            let w := writeBytes w (Hash_Bytes (hd_MixDigest h)) in
            let w := writeBytes w (Nonce_Bytes (hd_Nonce h)) in
            match (if present (hd_BaseFee h) then writeBigOpt w (hd_BaseFee h) else Some w) with
            | None => Fail PanicExplicit
            | Some w => w ← listEnd w i; Ret (makeBytes w)
            end
        end
    end.

Definition SealHash (h : Header) : Outcome Hash := enc ← encodeSigHeader h; Ret (Keccak256 enc).

Definition ecrecover (h : Header) : Outcome (Address + cliqueerror) :=
  if len (hd_Extra h) <? extraSeal then Ret (inr errMissingSignature)
  else
    signature ← slice (hd_Extra h) (len (hd_Extra h) - extraSeal) (len (hd_Extra h));
    hash ← SealHash h;
    match Ecrecover hash signature with
    | None => Ret (inr errRecover)
    | Some pubkey =>
        rest ← slice pubkey 1 (len pubkey);
        Ret (inl (Keccak256 rest mod 2 ^ 160))
    end.

(** ** Applying headers *)

(** One iteration of the loop of [apply]. *)
Definition applyHeader (epoch : Z) (h : Header) (s : Snapshot) : Outcome (Snapshot + cliqueerror) :=
  number ← blockNumber h;
  m ← umod number epoch;
  let s := if m =? 0 then resetVotes s else s in
  let s := forgetRecent number s in
  r ← ecrecover h;
  match r with
  | inr e => Ret (inr e)
  | inl signer =>
      if negb (bool_decide (signer ∈ Signers s)) then Ret (inr errUnauthorizedSigner)
      else if recentlySigned signer s then Ret (inr errRecentlySigned)
      else
        let s := with_Recents (<[number := signer]> (Recents s)) s in
        match voteOf h with
        | None => Ret (inr errInvalidVote)
        | Some authorize => Ret (inl (countVote number signer (hd_Coinbase h) authorize s))
        end
  end.

Fixpoint applyHeaders (epoch : Z) (headers : list Header) (s : Snapshot) : Outcome (Snapshot + cliqueerror) :=
  match headers with
  | [] => Ret (inl s)
  | h :: rest =>
      r ← applyHeader epoch h s;
      match r with inr e => Ret (inr e) | inl s => applyHeaders epoch rest s end
  end.

(** The sanity check of the numbers: are they consecutive? *)
Fixpoint consecutive (headers : list Header) : Outcome bool :=
  match headers with
  | h1 :: (h2 :: _) as rest =>
      n2 ← blockNumber h2;
      n1 ← blockNumber h1;
      if negb (n2 =? n1 +! 1) then Ret false else consecutive rest
  | _ => Ret true
  end.

Definition apply (s : Snapshot) (headers : list Header) : Outcome (Snapshot + cliqueerror) :=
  match headers with
  | [] => Ret (inl s)
  | h0 :: _ =>
      ok ← consecutive headers;
      if negb (ok : bool) then Ret (inr errInvalidVotingChain)
      else
        n0 ← blockNumber h0;
        if negb (n0 =? snap_Number s +! 1) then Ret (inr errInvalidVotingChain)
        else
          r ← applyHeaders (Epoch (snap_config s)) headers s;
          match r with
          | inr e => Ret (inr e)
          | inl snap =>
              hash ← Header_Hash (List.last headers h0);
              Ret (inl (with_Head (snap_Number s +! len headers) hash snap))
          end
  end.

(** ** Turns *)

(** [signers], in ascending order. *)
Definition signers (s : Snapshot) : list Address := merge_sort Z.le (elements (Signers s)).

(** [for offset < len(signers) && signers[offset] != signer { offset++ }] *)
Fixpoint offsetOf (signer : Address) (l : list Address) : Z :=
  match l with
  | [] => 0
  | a :: rest => if a =? signer then 0 else 1 + offsetOf signer rest
  end.

Definition inturn (s : Snapshot) (number : Z) (signer : Address) : Outcome bool :=
  m ← umod number (len (signers s));
  Ret (m =? offsetOf signer (signers s)).

Definition calcDifficulty (s : Snapshot) (signer : Address) : Outcome Z :=
  t ← inturn s (snap_Number s +! 1) signer;
  Ret (if (t : bool) then diffInTurn else diffNoTurn).

(** ** Verification ([clique.go]) *)

(** [chain consensus.ChainHeaderReader] *)
Record Chain := mkChain {
  chain_Config : ChainConfig;
  GetHeader : Hash -> Z -> option Header;
  GetHeaderByNumber : Z -> option Header;
}.

(** [type Clique struct].  The database holds the stored snapshots; [rewardSnapshots] is nil until
    somebody makes the map. *)
Record RewardSnapshot := mkReward { rs_Signer : Address; rs_Receivers : list Address; rs_Weights : list Z }.

Record Engine := mkEngine {
  config : CliqueConfig;
  db : gmap Z Snapshot;
  recents : LRU.BasicLRU Z Snapshot;
  proposals : gmap Z bool;
  signer_ : Address;
  fakeDiff : bool;
  rewardSnapshots : option (gmap Z RewardSnapshot);
}.

Definition New (conf : CliqueConfig) (database : gmap Z Snapshot) : Engine :=
  mkEngine (mkCliqueConfig (Period conf) (if Epoch conf =? 0 then epochLength else Epoch conf))
    database (LRU.NewBasicLRU inmemorySnapshots) ∅ 0 false None.

Definition with_db (x : gmap Z Snapshot) (c : Engine) : Engine :=
  mkEngine (config c) x (recents c) (proposals c) (signer_ c) (fakeDiff c) (rewardSnapshots c).
Definition with_recents (x : LRU.BasicLRU Z Snapshot) (c : Engine) : Engine :=
  mkEngine (config c) (db c) x (proposals c) (signer_ c) (fakeDiff c) (rewardSnapshots c).
Definition with_signer (x : Address) (c : Engine) : Engine :=
  mkEngine (config c) (db c) (recents c) (proposals c) x (fakeDiff c) (rewardSnapshots c).
Definition with_rewards (x : option (gmap Z RewardSnapshot)) (c : Engine) : Engine :=
  mkEngine (config c) (db c) (recents c) (proposals c) (signer_ c) (fakeDiff c) x.

Abbreviation E := (ST Engine).

(** [loadSnapshot]: what was stored, with the current configuration. *)
Definition loadSnapshot (c : Engine) (hash : Hash) : option Snapshot :=
  s ← db c !! hash;
  Some (mkSnapshot (config c) (snap_Number s) (snap_Hash s) (Signers s) (Recents s) (Votes s) (Tallies s)).

Definition store (s : Snapshot) : E unit := st_modify (fun c => with_db (<[snap_Hash s := s]> (db c)) c).

(** The signers in the extra-data of a checkpoint: [n] addresses of 20 bytes from [pos] on;
    [copy] stops at the end of the data. *)
Fixpoint readSigners (n : nat) (extra : bytes) (pos : Z) : list Address :=
  match n with
  | O => []
  | S n => be_val (RightPadBytes (zslice extra pos (pos + AddressLength)) AddressLength)
           :: readSigners n extra (pos + AddressLength)
  end.

(** [make([]common.Address, (len(checkpoint.Extra)-extraVanity-extraSeal)/common.AddressLength)]
    panics on a negative length; integer division rounds towards zero. *)
Definition checkpointSigners (extra : bytes) : Outcome (list Address) :=
  let n := (len extra - extraVanity - extraSeal) ÷ AddressLength in
  if n <? 0 then Fail PanicExplicit else Ret (readSigners (Z.to_nat n) extra extraVanity).

Definition useRecent (hash : Hash) : E (option Snapshot) := fun c =>
  let '(r, l) := LRU.Get hash (recents c) in Ret (r, with_recents l c).

Definition lastParent (parents : list Header) : option (Header * list Header) :=
  match last parents with
  | Some h => Some (h, take (length parents - 1) parents)
  | None => None
  end.

(** The search of [snapshot] for a snapshot to start from; [headers] are the headers passed on the
    way, the newest first. *)
Fixpoint findSnapshot (fuel : nat) (chain : Chain) (number : Z) (hash : Hash) (parents headers : list Header)
    : E ((Snapshot * list Header) + cliqueerror) :=
  cached ← useRecent hash;
  match cached with
  | Some s => mret (inl (s, headers))
  | None =>
    c ← st_get;
    match (if number mod checkpointInterval =? 0 then loadSnapshot c hash else None) with
    | Some s => mret (inl (s, headers))
    | None =>
      atEpoch ← st_lift (m ← umod number (Epoch (config c)); Ret (m =? 0));
      let trusted :=
        (number =? 0)
        || (atEpoch : bool)
           && ((FullImmutabilityThreshold <? len headers)
               || negb (present (GetHeaderByNumber chain (number -! 1)))) in
      match (if trusted then GetHeaderByNumber chain number else None) with
      | Some checkpoint =>
          hash ← st_lift (Header_Hash checkpoint);
          sgs ← st_lift (checkpointSigners (hd_Extra checkpoint));
          let snap := newSnapshot (config c) number hash sgs in
          store snap;;
          mret (inl (snap, headers))
      | None =>
          match fuel with
          | O => st_fail OutOfFuel
          | S fuel =>
              match lastParent parents with
              | Some (header, parents) =>
                  hh ← st_lift (Header_Hash header);
                  hn ← st_lift (blockNumber header);
                  if negb (hh =? hash) || negb (hn =? number) then mret (inr errUnknownAncestor)
                  else findSnapshot fuel chain (number -! 1) (hd_ParentHash header) parents (headers ++ [header])
              | None =>
                  match GetHeader chain hash number with
                  | None => mret (inr errUnknownAncestor)
                  | Some header =>
                      findSnapshot fuel chain (number -! 1) (hd_ParentHash header) [] (headers ++ [header])
                  end
              end
          end
      end
    end
  end.

Definition addRecent (s : Snapshot) : E unit := fun c =>
  match LRU.Add (snap_Hash s) s (recents c) with
  | Ret (_, l) => Ret (tt, with_recents l c)
  | Fail e => Fail e
  end.

Definition snapshot (fuel : nat) (chain : Chain) (number : Z) (hash : Hash) (parents : list Header)
    : E (Snapshot + cliqueerror) :=
  r ← findSnapshot fuel chain number hash parents [];
  match r with
  | inr e => mret (inr e)
  | inl (s, headers) =>
      r ← st_lift (apply s (rev headers));
      match r with
      | inr e => mret (inr e)
      | inl snap =>
          addRecent snap;;
          (if (snap_Number snap mod checkpointInterval =? 0) && (0 <? len headers) then store snap else mret tt);;
          mret (inl snap)
      end
  end.

(** ** Header verification *)

(** [verifySeal]: the signer is authorized, did not sign recently, and the difficulty tells
    whether it is in turn.  [number-limit] wraps around. *)
Definition verifySeal (snap : Snapshot) (header : Header) : E (option cliqueerror) :=
  number ← st_lift (blockNumber header);
  if number =? 0 then mret (Some errUnknownBlock)
  else
    r ← st_lift (ecrecover header);
    match r with
    | inr e => mret (Some e)
    | inl signer =>
        if negb (bool_decide (signer ∈ Signers snap)) then mret (Some errUnauthorizedSigner)
        else if existsb (fun '(seen, recent) => (recent =? signer) && (number -! recentLimit snap <? seen))
                  (map_to_list (Recents snap))
        then mret (Some errRecentlySigned)
        else
          c ← st_get;
          if fakeDiff c then mret None
          else
            turn ← st_lift (inturn snap number signer);
            difficulty ← st_lift (big (hd_Difficulty header));
            if (turn : bool) && negb (difficulty =? diffInTurn) then mret (Some errWrongDifficulty)
            else if negb turn && negb (difficulty =? diffNoTurn) then mret (Some errWrongDifficulty)
            else mret None
    end.

(** The bytes of the signers, in ascending order. *)
Definition signerBytes (l : list Address) : bytes := concat (map Address_Bytes l).

(** The rules on the gas limit and the base fee. *)
Definition verifyFees (cfg : ChainConfig) (parent header : Header) : Outcome (option cliqueerror) :=
  if negb (IsLondon cfg (hd_Number header)) then
    if present (hd_BaseFee header) then Ret (Some errBaseFeeBeforeFork)
    else Ret (option_map errHeader (VerifyGaslimit (hd_GasLimit parent) (hd_GasLimit header)))
  else
    r ← VerifyEIP1559Header cfg parent header;
    Ret (option_map errHeader r).

Definition verifyCascadingFields (fuel : nat) (chain : Chain) (header : Header) (parents : list Header)
    : E (option cliqueerror) :=
  number ← st_lift (blockNumber header);
  if number =? 0 then mret None
  else
    match (match last parents with
           | Some p => Some p
           | None => GetHeader chain (hd_ParentHash header) (number -! 1)
           end) with
    | None => mret (Some errUnknownAncestor)
    | Some parent =>
        pn ← st_lift (blockNumber parent);
        ph ← st_lift (Header_Hash parent);
        c ← st_get;
        if negb (pn =? number -! 1) || negb (ph =? hd_ParentHash header) then mret (Some errUnknownAncestor)
        else if hd_Time header <? hd_Time parent +! Period (config c) then mret (Some errInvalidTimestamp)
        else if hd_GasLimit header <? hd_GasUsed header then mret (Some errGasUsedTooHigh)
        else
          r ← st_lift (verifyFees (chain_Config chain) parent header);
          match r with
          | Some e => mret (Some e)
          | None =>
              r ← snapshot fuel chain (number -! 1) (hd_ParentHash header) parents;
              match r with
              | inr e => mret (Some e)
              | inl snap =>
                  m ← st_lift (umod number (Epoch (config c)));
                  matching ← st_lift
                    (if m =? 0 then
                       listed ← slice (hd_Extra header) extraVanity (len (hd_Extra header) - extraSeal);
                       Ret (bool_decide (listed = signerBytes (signers snap)))
                     else Ret true);
                  if negb (matching : bool) then mret (Some errMismatchingCheckpointSigners)
                  else verifySeal snap header
              end
          end
    end.

(** The checks of [verifyHeader] that look at the header alone; [now] is [time.Now().Unix()]. *)
Definition verifyStandalone (conf : CliqueConfig) (cfg : ChainConfig) (now : Z) (header : Header)
    : Outcome (option cliqueerror) :=
  match hd_Number header with
  | None => Ret (Some errUnknownBlock)
  | Some big_number =>
      let number := wrap64 big_number in
      if now <? hd_Time header then Ret (Some errFutureBlock)
      else
        m ← umod number (Epoch conf);
        let checkpoint := m =? 0 in
        let signersBytes := len (hd_Extra header) - extraVanity - extraSeal in
        Ret (
          if checkpoint && negb (hd_Coinbase header =? 0) then Some errInvalidCheckpointBeneficiary
          else if negb (hd_Nonce header =? nonceAuthVote) && negb (hd_Nonce header =? nonceDropVote)
          then Some errInvalidVote
          else if checkpoint && negb (hd_Nonce header =? nonceDropVote) then Some errInvalidCheckpointVote
          else if len (hd_Extra header) <? extraVanity then Some errMissingVanity
          else if len (hd_Extra header) <? extraVanity + extraSeal then Some errMissingSignature
          else if negb checkpoint && negb (signersBytes =? 0) then Some errExtraSigners
          else if checkpoint && negb (signersBytes mod AddressLength =? 0) then Some errInvalidCheckpointSigners
          else if negb (hd_MixDigest header =? 0) then Some errInvalidMixDigest
          else if negb (hd_UncleHash header =? EmptyUncleHash) then Some errInvalidUncleHash
          else if (0 <? number)
                  && match hd_Difficulty header with
                     | None => true
                     | Some d => negb (d =? diffInTurn) && negb (d =? diffNoTurn)
                     end
          then Some errInvalidDifficulty
          else if MaxGasLimit <? hd_GasLimit header then Some errGasLimitTooHigh
          else if IsShanghai cfg (hd_Number header) (hd_Time header) then Some errShanghai
          else if present (hd_WithdrawalsHash header) then Some errWithdrawalsHash
          else if IsCancun cfg (hd_Number header) (hd_Time header) then Some errCancun
          else if present (hd_ExcessBlobGas header) then Some errExcessBlobGas
          else if present (hd_BlobGasUsed header) then Some errBlobGasUsed
          else if present (hd_ParentBeaconRoot header) then Some errParentBeaconRoot
          else None)
  end.

Definition verifyHeader (fuel : nat) (now : Z) (chain : Chain) (header : Header) (parents : list Header)
    : E (option cliqueerror) :=
  c ← st_get;
  r ← st_lift (verifyStandalone (config c) (chain_Config chain) now header);
  match r with
  | Some e => mret (Some e)
  | None => verifyCascadingFields fuel chain header parents
  end.

Definition VerifyHeader (fuel : nat) (now : Z) (chain : Chain) (header : Header) : E (option cliqueerror) :=
  verifyHeader fuel now chain header [].

(** The goroutine of [VerifyHeaders]: the results sent so far; [abort] tells at which header the
    caller's abort is seen instead of sending the result, [nows] is the clock at each header. *)
Fixpoint verifyBatch (fuel : nat) (nows : list Z) (abort : option nat) (chain : Chain)
    (before headers : list Header) : E (list (option cliqueerror)) :=
  match headers with
  | [] => mret []
  | header :: rest =>
      r ← verifyHeader fuel (default 0 (head nows)) chain header before;
      match abort with
      | Some O => mret []
      | _ =>
          rs ← verifyBatch fuel (tail nows) (pred <$> abort) chain (before ++ [header]) rest;
          mret (r :: rs)
      end
  end.

Definition VerifyHeaders (fuel : nat) (nows : list Z) (abort : option nat) (chain : Chain)
    (headers : list Header) : E (list (option cliqueerror)) :=
  verifyBatch fuel nows abort chain [] headers.

Definition VerifyUncles (uncles : list Header) : option cliqueerror :=
  if 0 <? len uncles then Some errUncles else None.

Definition Author (header : Header) : Outcome (Address + cliqueerror) := ecrecover header.

(** ** Preparing blocks *)

Definition with_vote (coinbase : Address) (nonce : Z) (h : Header) : Header :=
  mkHeader (hd_ParentHash h) (hd_UncleHash h) coinbase (hd_Root h) (hd_TxHash h) (hd_ReceiptHash h)
    (hd_Bloom h) (hd_Difficulty h) (hd_Number h) (hd_GasLimit h) (hd_GasUsed h) (hd_Time h) (hd_Extra h)
    (hd_MixDigest h) nonce (hd_BaseFee h) (hd_WithdrawalsHash h) (hd_BlobGasUsed h) (hd_ExcessBlobGas h)
    (hd_ParentBeaconRoot h) (hd_RequestsHash h).
Definition with_seal (difficulty : Z) (extra : bytes) (mix : Hash) (h : Header) : Header :=
  mkHeader (hd_ParentHash h) (hd_UncleHash h) (hd_Coinbase h) (hd_Root h) (hd_TxHash h) (hd_ReceiptHash h)
    (hd_Bloom h) (Some difficulty) (hd_Number h) (hd_GasLimit h) (hd_GasUsed h) (hd_Time h) extra
    mix (hd_Nonce h) (hd_BaseFee h) (hd_WithdrawalsHash h) (hd_BlobGasUsed h) (hd_ExcessBlobGas h)
    (hd_ParentBeaconRoot h) (hd_RequestsHash h).
Definition with_time (time : Z) (h : Header) : Header :=
  mkHeader (hd_ParentHash h) (hd_UncleHash h) (hd_Coinbase h) (hd_Root h) (hd_TxHash h) (hd_ReceiptHash h)
    (hd_Bloom h) (hd_Difficulty h) (hd_Number h) (hd_GasLimit h) (hd_GasUsed h) time (hd_Extra h)
    (hd_MixDigest h) (hd_Nonce h) (hd_BaseFee h) (hd_WithdrawalsHash h) (hd_BlobGasUsed h)
    (hd_ExcessBlobGas h) (hd_ParentBeaconRoot h) (hd_RequestsHash h).

(** The vote: the proposals that make sense, one of them picked at random. *)
Definition pickVote (order : gmap Z bool -> list (Address * bool)) (Intn : Z -> Z) (snap : Snapshot)
    (props : gmap Z bool) (h : Header) : Outcome Header :=
  let addresses := map fst (List.filter (fun '(a, auth) => validVote snap a auth) (order props)) in
  if 0 <? len addresses then
    coinbase ← index addresses (Intn (len addresses));
    Ret (with_vote coinbase (if default false (props !! coinbase) then nonceAuthVote else nonceDropVote) h)
  else Ret h.

(** The extra-data: the vanity, the signers at a checkpoint, room for the seal. *)
Definition prepareExtra (extra : bytes) (checkpoint : bool) (sgs : list Address) : bytes :=
  let extra :=
    if len extra <? extraVanity then extra ++ zreplicate (extraVanity - len extra) 0 else extra in
  let extra := zslice extra 0 extraVanity in
  let extra := if checkpoint then extra ++ signerBytes sgs else extra in
  extra ++ zreplicate extraSeal 0.

(** [Prepare]: the header as the call leaves it, and the error.  [now1] and [now2] are the two
    readings of the clock. *)
Definition Prepare (fuel : nat) (order : gmap Z bool -> list (Address * bool)) (Intn : Z -> Z)
    (now1 now2 : Z) (chain : Chain) (header : Header) : E (Header * option cliqueerror) :=
  let header := with_vote 0 0 header in
  number ← st_lift (blockNumber header);
  r ← snapshot fuel chain (number -! 1) (hd_ParentHash header) [];
  match r with
  | inr e => mret (header, Some e)
  | inl snap =>
      c ← st_get;
      m ← st_lift (umod number (Epoch (config c)));
      header ← st_lift (if negb (m =? 0) then pickVote order Intn snap (proposals c) header else Ret header);
      difficulty ← st_lift (calcDifficulty snap (signer_ c));
      let header :=
        with_seal difficulty (prepareExtra (hd_Extra header) (m =? 0) (signers snap)) 0 header in
      match GetHeader chain (hd_ParentHash header) (number -! 1) with
      | None => mret (header, Some errUnknownAncestor)
      | Some parent =>
          let time := hd_Time parent +! Period (config c) in
          mret (with_time (if time <? now1 then now2 else time) header, None)
      end
  end.

Definition Authorize (signer : Address) : E unit := st_modify (with_signer signer).

(** [CalcDifficulty]; [None] is nil. *)
Definition CalcDifficulty (fuel : nat) (chain : Chain) (parent : Header) : E (option Z) :=
  number ← st_lift (blockNumber parent);
  hash ← st_lift (Header_Hash parent);
  r ← snapshot fuel chain number hash [];
  match r with
  | inr _ => mret None
  | inl snap =>
      c ← st_get;
      d ← st_lift (calcDifficulty snap (signer_ c));
      mret (Some d)
  end.

Definition Seal : E (option cliqueerror) := st_fail PanicExplicit.

(** ** Rewards *)

Section rewards.
Context {S : Type} `{DB : !StateDB S}.

Definition blockReward : Z := 1000000000000000000.

Definition weightSum (weights : list Z) : Z := fold_left (fun sum w => sum +! w) weights 0.

(** The loop over the receivers: each is paid its part, what remains is returned. *)
Fixpoint payReceivers (total : word) (sum : Z) (weights : list Z) (i : Z) (receivers : list Address)
    (remain : word) : ST S word :=
  match receivers with
  | [] => mret remain
  | r :: rest =>
      w ← st_lift (index weights i);
      let part := Div (Mul total (SetUint64 w)) (SetUint64 sum) in
      sdb (AddBalance r part);;
      payReceivers total sum weights (i + 1) rest (Sub remain part)
  end.

(** [snap, ok := c.rewardSnapshots[signer]]; reading a nil map finds nothing. *)
Definition registration (c : Engine) (signer : Address) : option RewardSnapshot :=
  match rewardSnapshots c with Some m => m !! signer | None => None end.

Definition Finalize (c : Engine) (header : Header) : ST S unit :=
  r ← st_lift (Author header);
  let signer := match r with inl a => a | inr _ => 0 end in
  let total := SetUint64 blockReward in
  match registration c signer with
  | None => sdb (AddBalance signer total);; mret tt
  | Some snap =>
      remain ← payReceivers total (weightSum (rs_Weights snap)) (rs_Weights snap) 0 (rs_Receivers snap) total;
      if negb (IsZero remain) then sdb (AddBalance signer remain);; mret tt else mret tt
  end.
End rewards.

(** [rewardSetUpdatedSig]: the Keccak-256 hash of the text of the event's signature. *)
Definition rewardSetUpdatedText : bytes :=
  [82; 101; 119; 97; 114; 100; 83; 101; 116; 85; 112; 100; 97; 116; 101; 100; 40;
   97; 100; 100; 114; 101; 115; 115; 44; 97; 100; 100; 114; 101; 115; 115; 91; 93; 44;
   117; 105; 110; 116; 50; 53; 54; 91; 93; 41].
Definition rewardSetUpdatedSig : Hash := Keccak256 rewardSetUpdatedText.

(** One log of [ProcessRewardEvents].  [unpack] is [rewardABI.UnpackIntoInterface]; [None] is its
    error. *)
Definition processRewardLog (unpack : bytes -> option (list Address * list Z)) (l : Log) : E unit :=
  match log_Topics l with
  | [] => mret tt
  | t0 :: _ =>
      if negb (t0 =? rewardSetUpdatedSig) then mret tt
      else
        t1 ← st_lift (index (log_Topics l) 1);
        let signer := t1 mod 2 ^ 160 in
        match unpack (log_Data l) with
        | None => mret tt
        | Some (receivers, weights) =>
            c ← st_get;
            match rewardSnapshots c with
            | None => st_fail PanicNil
            | Some m =>
                st_put (with_rewards (Some (<[signer := mkReward signer receivers (map wrap64 weights)]> m)) c)
            end
        end
  end.

Fixpoint processRewardLogs (unpack : bytes -> option (list Address * list Z)) (logs : list Log) : E unit :=
  match logs with
  | [] => mret tt
  | l :: rest => processRewardLog unpack l;; processRewardLogs unpack rest
  end.

(** [ProcessRewardEvents]; a receipt is the list of its logs. *)
Definition ProcessRewardEvents (unpack : bytes -> option (list Address * list Z)) (receipts : list (list Log))
    : E unit :=
  processRewardLogs unpack (concat receipts).
End engine.
End Clique.
