(* ===== verification/CliqueVoting.v ===== *)
(** * Voting in the proof-of-authority engine: the invariant of a snapshot

    Lemmas about the operations of [snapshot.go]: what each of them does to the votes, the tallies,
    the signers and the recent signers, and that one iteration of [apply] keeps the invariant
    [snap_ok].  The properties of the engine are in [CliqueTheorems.v]. *)

From S2P Require Import Prelude Bytes Uint256 Params ChainConfig Rlp VM Lru Headers HeaderRules Clique.
Import Clique.

(** ** The invariant *)

(** How many of the votes are about [a]. *)
Definition votesOn (a : Address) (vs : list Vote) : Z := len (filter (fun v => vote_Address v = a) vs).

(** What a vote on [a] proposes when the signers are [S]: to remove a signer, to add anybody else. *)
Definition proposal (S : gset Address) (a : Address) : bool := negb (bool_decide (a ∈ S)).

(** The tallies count the votes, and every vote proposes a change. *)
Record tally_ok (S : gset Address) (vs : list Vote) (ts : gmap Z Tally) : Prop := {
  tally_count a : ts !! a = if votesOn a vs =? 0 then None else Some (mkTally (proposal S a) (votesOn a vs));
  tally_dir v : v ∈ vs -> vote_Authorize v = proposal S (vote_Address v);
}.

(** Every vote was cast by a signer, who has one vote on an account. *)
Record votes_ok (S : gset Address) (vs : list Vote) : Prop := {
  votes_signer v : v ∈ vs -> vote_Signer v ∈ S;
  votes_once : NoDup (map (fun v => (vote_Signer v, vote_Address v)) vs);
}.

(** The recent signers at block [n]: blocks of the last [recentLimit] ones, signed by different
    signers. *)
Record recents_ok (n : Z) (limit : Z) (m : gmap Z Address) : Prop := {
  recents_window k a : m !! k = Some a -> 0 < k <= n /\ n < k + limit;
  recents_distinct k k' a : m !! k = Some a -> m !! k' = Some a -> k = k';
}.

Record snap_ok (n : Z) (s : Snapshot) : Prop := {
  ok_tally : tally_ok (Signers s) (Votes s) (Tallies s);
  ok_votes : votes_ok (Signers s) (Votes s);
  ok_recents : recents_ok n (recentLimit s) (Recents s);
}.

(** ** Votes and tallies *)

Lemma votesOn_app a l k : votesOn a (l ++ k) = votesOn a l + votesOn a k.
Proof. unfold votesOn. by rewrite filter_app, len_app. Qed.
Lemma votesOn_cons a v l : votesOn a (v :: l) = (if bool_decide (vote_Address v = a) then 1 else 0) + votesOn a l.
Proof.
  unfold votesOn. rewrite filter_cons. case_decide.
  - rewrite bool_decide_true by done. rewrite len_cons. lia.
  - by rewrite bool_decide_false.
Qed.
Lemma votesOn_nonneg a l : 0 <= votesOn a l.
Proof. apply len_nonneg. Qed.

Lemma votesOn_middle a l1 v l2 :
  votesOn a (l1 ++ v :: l2) = (if bool_decide (vote_Address v = a) then 1 else 0) + votesOn a (l1 ++ l2).
Proof. rewrite !votesOn_app, votesOn_cons. lia. Qed.

Lemma elem_middle {A} (l1 l2 : list A) v : v ∈ l1 ++ v :: l2.
Proof. apply elem_of_app. right. apply list_elem_of_here. Qed.
Lemma elem_middle_app {A} (l1 l2 : list A) v w : w ∈ l1 ++ l2 -> w ∈ l1 ++ v :: l2.
Proof. intros [?|?]%elem_of_app; apply elem_of_app; [by left|right]. by apply list_elem_of_further. Qed.

Lemma NoDup_middle {A} (l1 l2 : list A) x : NoDup (l1 ++ x :: l2) -> ~ (x ∈ l1 ++ l2) /\ NoDup (l1 ++ l2).
Proof. rewrite <- Permutation_middle. apply NoDup_cons. Qed.

Lemma uncast_frame a auth s :
  let s' := (uncast a auth s).2 in
  snap_config s' = snap_config s /\ snap_Number s' = snap_Number s /\ snap_Hash s' = snap_Hash s /\
  Signers s' = Signers s /\ Recents s' = Recents s /\ Votes s' = Votes s.
Proof. unfold uncast. destruct (Tallies s !! a); repeat case_if; done. Qed.

(** Uncasting a vote that is taken off the list keeps the tallies right. *)
Lemma uncast_tally S l1 v l2 s : tally_ok S (l1 ++ v :: l2) (Tallies s) ->
  tally_ok S (l1 ++ l2) (Tallies (uncast (vote_Address v) (vote_Authorize v) s).2).
Proof.
  intros [Hc Hd]. assert (Hv : vote_Authorize v = proposal S (vote_Address v)) by (apply Hd, elem_middle).
  pose proof (votesOn_nonneg (vote_Address v) (l1 ++ l2)) as Hn.
  assert (Hc' : forall a, a <> vote_Address v -> votesOn a (l1 ++ v :: l2) = votesOn a (l1 ++ l2)).
  { intros a Ha. rewrite votesOn_middle, bool_decide_false by congruence. lia. }
  pose proof (Hc (vote_Address v)) as Ht.
  rewrite votesOn_middle, bool_decide_true in Ht by done.
  replace (1 + votesOn (vote_Address v) (l1 ++ l2) =? 0) with false in Ht by lia.
  split; [|intros w Hw; by apply Hd, elem_middle_app].
  intros a. unfold uncast. rewrite Ht. cbn [tally_Authorize tally_Votes].
  rewrite Hv, eqb_reflx. cbn [negb snd].
  destruct (decide (a = vote_Address v)) as [->|Hne].
  - destruct (votesOn (vote_Address v) (l1 ++ l2) =? 0) eqn:E; bool_to_Z.
    + rewrite E. change (1 <? 1 + 0) with false. cbn. by rewrite lookup_delete_eq.
    + replace (1 <? 1 + votesOn (vote_Address v) (l1 ++ l2)) with true by lia. cbn.
      rewrite lookup_insert_eq. do 2 f_equal. lia.
  - rewrite <- (Hc' a Hne), <- Hc. case_if; cbn; [by rewrite lookup_insert_ne|by rewrite lookup_delete_ne].
Qed.

(** ** Discarding votes *)

(** The first vote of [signer] on [address] removed. *)
Lemma discardPrevious_ok signer address before votes s :
  Votes s = before ++ votes -> tally_ok (Signers s) (Votes s) (Tallies s) -> votes_ok (Signers s) (Votes s) ->
  (forall v, v ∈ before -> ~ (vote_Signer v = signer /\ vote_Address v = address)) ->
  let s' := discardPrevious signer address before votes s in
  tally_ok (Signers s) (Votes s') (Tallies s') /\ votes_ok (Signers s) (Votes s') /\
  (forall v, v ∈ Votes s' -> v ∈ Votes s /\ ~ (vote_Signer v = signer /\ vote_Address v = address)) /\
  snap_config s' = snap_config s /\ snap_Number s' = snap_Number s /\ snap_Hash s' = snap_Hash s /\
  Signers s' = Signers s /\ Recents s' = Recents s.
Proof.
  revert before. induction votes as [|v votes IH]; intros before Hv Ht Ho Hb; cbn.
  - rewrite app_nil_r in Hv. rewrite Hv in *. split_and!; try done. intros v Hin. split; [done|]. by apply Hb.
  - case_if; bool_to_Z.
    + rewrite Hv in *. destruct (uncast_frame (vote_Address v) (vote_Authorize v) s) as (?&?&?&?&?&?).
      split_and!; cbn; try done.
      * by apply uncast_tally.
      * destruct Ho as [Hs Hn]. split; [intros w Hw; by apply Hs, elem_middle_app|].
        rewrite map_app in Hn |- *. by apply NoDup_middle in Hn as [_ ?].
      * intros w Hw. split; [by apply elem_middle_app|]. intros [E1 E2].
        destruct Ho as [_ Hn]. rewrite map_app in Hn. apply NoDup_middle in Hn as [Hn _].
        apply Hn. rewrite <- map_app. apply list_elem_of_fmap. exists w. split; [congruence|done].
    + apply IH; try done.
      * by rewrite <- app_assoc.
      * intros w [Hw|Hw%list_elem_of_singleton]%elem_of_app; [by apply Hb|]. subst w. lia.
Qed.

(** The votes of [signer] removed, the tallies following. *)
Lemma discardBySigner_ok S signer kept votes s :
  tally_ok S (kept ++ votes) (Tallies s) ->
  let s' := discardBySigner signer kept votes s in
  tally_ok S (Votes s') (Tallies s') /\ Votes s' = kept ++ filter (fun v => vote_Signer v <> signer) votes /\
  snap_config s' = snap_config s /\ snap_Number s' = snap_Number s /\ snap_Hash s' = snap_Hash s /\
  Signers s' = Signers s /\ Recents s' = Recents s.
Proof.
  revert kept s. induction votes as [|v votes IH]; intros kept s Ht; cbn [discardBySigner].
  - rewrite filter_nil, !app_nil_r in *. by split_and!.
  - rewrite filter_cons. case_if; bool_to_Z.
    + destruct (uncast_frame (vote_Address v) (vote_Authorize v) s) as (<-&<-&<-&<-&<-&_).
      rewrite decide_False by (intros H; by apply H). apply IH. by apply uncast_tally.
    + rewrite decide_True by done.
      destruct (IH (kept ++ [v]) s) as (? & E & F); [by rewrite <- app_assoc|].
      split_and!; [done| |apply F..]. by rewrite E, <- app_assoc.
Qed.

(** ** Casting a vote *)

Lemma validVote_spec s a auth : validVote s a auth = Bool.eqb auth (proposal (Signers s) a).
Proof. unfold validVote, proposal. by case_bool_decide; destruct auth. Qed.

Lemma cast_ok a auth s : tally_ok (Signers s) (Votes s) (Tallies s) ->
  exists ts, cast a auth s = (Bool.eqb auth (proposal (Signers s) a), with_Tallies ts s) /\
  tally_ok (Signers s)
    (Votes s ++ (if Bool.eqb auth (proposal (Signers s) a) then [mkVote 0 0 a auth] else [])) ts.
Proof.
  intros [Hc Hd]. unfold cast. rewrite validVote_spec. destruct (Bool.eqb auth _) eqn:Heqb; cbn [negb].
  2: { exists (Tallies s). rewrite app_nil_r. destruct s; done. }
  apply eqb_prop in Heqb. subst auth.
  pose proof (Hc a) as Ha. pose proof (votesOn_nonneg a (Votes s)).
  assert (Hn : votesOn a (Votes s ++ [mkVote 0 0 a (proposal (Signers s) a)]) = votesOn a (Votes s) + 1).
  { rewrite votesOn_app, votesOn_cons. cbn. by rewrite bool_decide_true. }
  eexists. split.
  { instantiate (1 := <[a := mkTally (proposal (Signers s) a) (votesOn a (Votes s) + 1)]> (Tallies s)).
    destruct (Z.eqb_spec (votesOn a (Votes s)) 0) as [E|E]; rewrite Ha; [by rewrite E|done]. }
  split.
  - intros b. destruct (decide (b = a)) as [->|Hb].
    + rewrite lookup_insert_eq, Hn. by replace (votesOn a (Votes s) + 1 =? 0) with false by lia.
    + rewrite lookup_insert_ne, Hc, votesOn_app, votesOn_cons by done. cbn.
      rewrite bool_decide_false by done. by rewrite !Z.add_0_r.
  - intros v [Hv|Hv%list_elem_of_singleton]%elem_of_app; [by apply Hd|by subst v].
Qed.

(** The tallies do not depend on who voted, nor when. *)
Lemma tally_ok_relabel S vs v v' ts : vote_Address v = vote_Address v' -> vote_Authorize v = vote_Authorize v' ->
  tally_ok S (vs ++ [v]) ts -> tally_ok S (vs ++ [v']) ts.
Proof.
  intros Ea Eu [Hc Hd]. split.
  - intros a. rewrite Hc, !votesOn_app, !votesOn_cons, Ea. done.
  - intros w [Hw|Hw%list_elem_of_singleton]%elem_of_app.
    + apply Hd, elem_of_app. by left.
    + subst w. rewrite <- Ea, <- Eu. apply Hd, elem_of_app. right. by apply list_elem_of_singleton.
Qed.

(** ** Recent signers *)

(** Forgetting the block that leaves the window. *)
Lemma forget_ok n limit (m : gmap Z Address) : is_u64 n -> 0 < limit ->
  (forall k a, m !! k = Some a -> 0 < k <= n /\ n <= k + limit) ->
  (forall k k' a, m !! k = Some a -> m !! k' = Some a -> k = k') ->
  recents_ok n limit (if limit <=? n then delete (n -! limit) m else m).
Proof.
  intros Hn Hl Hw Hd. case_if; bool_to_Z.
  - rewrite wrap64_small by (unfold_u64; lia). split.
    + intros k a [Hk Ha]%lookup_delete_Some. destruct (Hw k a Ha). lia.
    + intros k k' a [_ Ha]%lookup_delete_Some [_ Ha']%lookup_delete_Some. by eapply Hd.
  - split; [|done]. intros k a Ha. destruct (Hw k a Ha). lia.
Qed.

Lemma recentlySigned_false a s : recentlySigned a s = false -> forall k, Recents s !! k <> Some a.
Proof.
  unfold recentlySigned. intros H%bool_decide_eq_false k E. apply H.
  apply list_elem_of_fmap. exists (k, a). split; [done|]. by apply elem_of_map_to_list.
Qed.

Lemma recentlySigned_true a s : recentlySigned a s = true -> exists k, Recents s !! k = Some a.
Proof.
  unfold recentlySigned. intros H%bool_decide_eq_true.
  apply list_elem_of_fmap in H as ([k b] & -> & H). exists k. by apply elem_of_map_to_list in H.
Qed.

Lemma recents_insert n limit m a : 0 < n -> 0 < limit -> recents_ok n limit m -> (forall k, m !! k <> Some a) ->
  recents_ok n limit (<[n := a]> m).
Proof.
  intros Hn Hl [Hw Hd] Ha. split.
  - intros k b [[-> ->]|[Hk Hb]]%lookup_insert_Some; [lia|by apply (Hw k b)].
  - intros k k' b [[-> <-]|[Hk Hb]]%lookup_insert_Some [[-> E]|[Hk' Hb']]%lookup_insert_Some.
    + done.
    + by destruct (Ha k').
    + subst b. by destruct (Ha k).
    + by eapply Hd.
Qed.

Lemma recentLimit_pos s : 0 < recentLimit s.
Proof. unfold recentLimit, nSigners. pose proof (Z.div_pos (Z.of_nat (base.size (Signers s))) 2). lia. Qed.

(** ** A vote that passed *)

Lemma votesOn_about a c vs :
  votesOn a (filter (fun v => vote_Address v <> c) vs) = if bool_decide (a = c) then 0 else votesOn a vs.
Proof.
  induction vs as [|v vs IH]; [by case_bool_decide|].
  rewrite filter_cons, votesOn_cons. destruct (decide (vote_Address v <> c)) as [E|E].
  - rewrite votesOn_cons, IH. destruct (decide (a = c)) as [->|Ha].
    + by rewrite !(bool_decide_true (c = c)), bool_decide_false.
    + by rewrite !(bool_decide_false (a = c)).
  - rewrite IH. destruct (decide (a = c)) as [->|Ha]; [by rewrite !bool_decide_true|].
    rewrite !(bool_decide_false (a = c)) by done. rewrite bool_decide_false; [done|]. intros E'. apply E. congruence.
Qed.

Lemma settle_tally S S' c vs ts : tally_ok S vs ts -> (forall a, a <> c -> a ∈ S <-> a ∈ S') ->
  tally_ok S' (filter (fun v => vote_Address v <> c) vs) (delete c ts).
Proof.
  intros [Hc Hd] HS.
  assert (Hp : forall a, a <> c -> proposal S a = proposal S' a).
  { intros a Ha. unfold proposal. f_equal. apply bool_decide_ext. by apply HS. }
  split.
  - intros a. rewrite votesOn_about. case_bool_decide as E.
    + subst a. by rewrite lookup_delete_eq.
    + rewrite lookup_delete_ne, Hc by done. by rewrite Hp.
  - intros v [Hv Hin]%list_elem_of_filter. rewrite <- Hp by done. by apply Hd.
Qed.

Lemma votes_ok_filter S S' (P : Vote -> Prop) `{!forall v, Decision (P v)} vs : votes_ok S vs ->
  (forall v, P v -> vote_Signer v ∈ S -> vote_Signer v ∈ S') -> votes_ok S' (filter P vs).
Proof.
  intros [Hs Hn] HP. split.
  - intros v [Hv Hin]%list_elem_of_filter. by apply HP, Hs.
  - eapply sublist_NoDup; [exact Hn|]. apply fmap_sublist, sublist_filter.
Qed.

Lemma recents_weaken n limit limit' m : limit <= limit' -> recents_ok n limit m -> recents_ok n limit' m.
Proof. intros Hl [Hw Hd]. split; [|done]. intros k a Ha. destruct (Hw k a Ha). lia. Qed.

Lemma nSigners_add c s : c ∉ Signers s -> nSigners (with_Signers (Signers s ∪ {[c]}) s) = nSigners s + 1.
Proof. intros H. unfold nSigners. cbn. rewrite size_union, size_singleton by set_solver. lia. Qed.

Lemma nSigners_remove c s : c ∈ Signers s -> nSigners (with_Signers (Signers s ∖ {[c]}) s) = nSigners s - 1.
Proof.
  intros H. unfold nSigners. cbn. rewrite size_difference, size_singleton by set_solver.
  assert (base.size ({[c]} : gset Z) <= base.size (Signers s))%nat as Hle by (apply subseteq_size; set_solver).
  rewrite size_singleton in Hle. lia.
Qed.

(** Everything but the set of signers. *)
Definition same_head (s s' : Snapshot) : Prop :=
  snap_config s' = snap_config s /\ snap_Number s' = snap_Number s /\ snap_Hash s' = snap_Hash s.

Lemma forgetRecent_frame n s :
  let s' := forgetRecent n s in
  same_head s s' /\ Signers s' = Signers s /\ Votes s' = Votes s /\ Tallies s' = Tallies s /\
  Recents s' = if recentLimit s <=? n then delete (n -! recentLimit s) (Recents s) else Recents s.
Proof. unfold forgetRecent. case_if; done. Qed.

Lemma settle_add_ok n c s : snap_ok n s -> c ∉ Signers s ->
  let s1 := discardAbout c (with_Signers (Signers s ∪ {[c]}) s) in
  snap_ok n (with_Tallies (delete c (Tallies s1)) s1).
Proof.
  intros [Ht Hv Hr] Hc. split; cbn.
  - eapply settle_tally; [exact Ht|]. set_solver.
  - eapply votes_ok_filter; [exact Hv|]. set_solver.
  - eapply recents_weaken; [|exact Hr]. unfold recentLimit at 2. change (nSigners _) with (nSigners (with_Signers (Signers s ∪ {[c]}) s)).
    rewrite nSigners_add by done. unfold recentLimit. pose proof (Z.div_le_mono (nSigners s) (nSigners s + 1) 2). lia.
Qed.

Lemma settle_remove_ok n c s : is_u64 n -> snap_ok n s -> c ∈ Signers s ->
  let s1 := forgetRecent n (with_Signers (Signers s ∖ {[c]}) s) in
  let s2 := discardAbout c (discardBySigner c [] (Votes s1) s1) in
  let s' := with_Tallies (delete c (Tallies s2)) s2 in
  snap_ok n s' /\ same_head s s' /\ Signers s' = Signers s ∖ {[c]}.
Proof.
  intros Hn [Ht Hv Hr] Hc s1 s2 s'. pose proof (nSigners_remove c s Hc) as Hsz.
  destruct (forgetRecent_frame n (with_Signers (Signers s ∖ {[c]}) s)) as (Hh1 & Hs1 & Hv1 & Ht1 & Hr1).
  fold s1 in Hh1, Hs1, Hv1, Ht1, Hr1. cbn in Hs1, Hv1, Ht1.
  destruct (discardBySigner_ok (Signers s) c [] (Votes s1) s1) as (Ht2 & Hv2 & Hc2 & Hn2 & Hh2 & Hs2 & Hr2).
  { cbn. by rewrite Hv1, Ht1. }
  assert (Hsig : Signers s' = Signers s ∖ {[c]}) by (unfold s', s2; cbn; by rewrite Hs2, Hs1).
  split; [|split; [|done]].
  2: { unfold same_head, s', s2. cbn. rewrite Hc2, Hn2, Hh2. exact Hh1. }
  split.
  - rewrite Hsig. unfold s', s2. cbn. eapply settle_tally; [exact Ht2|]. set_solver.
  - rewrite Hsig. unfold s', s2. cbn. rewrite Hv2, Hv1. cbn.
    eapply votes_ok_filter; [eapply (votes_ok_filter _ (Signers s ∖ {[c]})); [exact Hv|]|]; set_solver.
  - assert (El : recentLimit s' = recentLimit (with_Signers (Signers s ∖ {[c]}) s)).
    { unfold recentLimit, nSigners. by rewrite Hsig. }
    rewrite El. replace (Recents s') with (Recents s1) by (unfold s', s2; cbn; by rewrite Hr2).
    rewrite Hr1. apply forget_ok; [done|apply recentLimit_pos| |apply Hr].
    intros k a Ha. cbn in Ha. destruct Hr as [Hw _]. destruct (Hw k a Ha) as [? ?]. split; [done|].
    unfold recentLimit in *. rewrite Hsz.
    pose proof (Z.div_le_mono (nSigners s) ((nSigners s - 1) + 1 * 2) 2).
    rewrite Z.div_add in H1 by lia. lia.
Qed.

(** What the signers become when the account [c] changes sides. *)
Definition toggled (S : gset Address) (c : Address) : gset Address :=
  if proposal S c then S ∪ {[c]} else S ∖ {[c]}.

Lemma settleVote_ok n c s : is_u64 n -> snap_ok n s ->
  let s' := settleVote n c s in
  snap_ok n s' /\ same_head s s' /\
  (Signers s' = Signers s \/ nSigners s / 2 < votesOn c (Votes s) /\ Signers s' = toggled (Signers s) c).
Proof.
  intros Hn Hs. pose proof Hs as [[Hc _] _ _]. specialize (Hc c). unfold settleVote.
  destruct (Tallies s !! c) as [tally|] eqn:E; [|by split; [|split; [|left]]].
  destruct (votesOn c (Votes s) =? 0); [done|]. injection Hc as ->. cbn [tally_Votes tally_Authorize].
  destruct (Z.ltb_spec (nSigners s / 2) (votesOn c (Votes s))); [|by split; [|split; [|left]]].
  unfold toggled. destruct (proposal (Signers s) c) eqn:Hp; unfold proposal in Hp.
  - apply negb_true_iff, bool_decide_eq_false in Hp.
    split; [by apply settle_add_ok|]. split; [done|]. right. by split.
  - apply negb_false_iff, bool_decide_eq_true in Hp.
    destruct (settle_remove_ok n c s Hn Hs Hp) as (? & ? & ?). split; [done|]. split; [done|]. right. by split.
Qed.

(** ** One header *)

Lemma addVote_ok n signer c auth s : snap_ok n s -> signer ∈ Signers s ->
  let s1 := discardPrevious signer c [] (Votes s) s in
  let '(ok, s2) := cast c auth s1 in
  let s3 := if ok : bool then with_Votes (Votes s2 ++ [mkVote signer n c auth]) s2 else s2 in
  snap_ok n s3 /\ same_head s s3 /\ Signers s3 = Signers s /\
  (forall v, v ∈ Votes s3 -> v ∈ Votes s \/ v = mkVote signer n c auth).
Proof.
  intros [Ht Hv Hr] Hin.
  destruct (discardPrevious_ok signer c [] (Votes s) s) as (Ht1 & Hv1 & Ho1 & Hc1 & Hn1 & Hh1 & Hs1 & Hr1);
    [done..|set_solver|].
  set (s1 := discardPrevious signer c [] (Votes s) s) in *. cbn zeta.
  destruct (cast_ok c auth s1) as (ts & -> & Ht2); [by rewrite Hs1|]. rewrite Hs1 in Ht2 |- *.
  assert (Hl : recentLimit s1 = recentLimit s) by (unfold recentLimit, nSigners; by rewrite Hs1).
  destruct (Bool.eqb auth (proposal (Signers s) c)).
  - split_and!; [|done| |].
    + split; cbn; rewrite ?Hs1.
      * eapply tally_ok_relabel; [..|exact Ht2]; done.
      * destruct Hv1 as [Ha Hb]. split.
        -- intros v [Hw|Hw%list_elem_of_singleton]%elem_of_app; [by apply Ha|by subst v].
        -- rewrite map_app. apply NoDup_app. split; [done|]. split; [|apply NoDup_singleton].
           intros x Hx Hy%list_elem_of_singleton. subst x.
           apply list_elem_of_fmap in Hx as (v & E & Hw). destruct (Ho1 v Hw) as [_ Hno].
           apply Hno. injection E. done.
      * change (recents_ok n (recentLimit s1) (Recents s1)). by rewrite Hl, Hr1.
    + done.
    + intros v [Hw|Hw%list_elem_of_singleton]%elem_of_app; [left; by apply Ho1|by right].
  - rewrite app_nil_r in Ht2. split_and!; [|done|done|intros v Hw; left; by apply Ho1].
    split; cbn; rewrite ?Hs1; try done.
    change (recents_ok n (recentLimit s1) (Recents s1)). by rewrite Hl, Hr1.
Qed.

(** The signers that vote on [c]. *)
Definition votersOn (c : Address) (vs : list Vote) : gset Address :=
  list_to_set (map vote_Signer (filter (fun v => vote_Address v = c) vs)).

Lemma votersOn_elem c vs a :
  a ∈ votersOn c vs <-> exists v, v ∈ vs /\ vote_Signer v = a /\ vote_Address v = c.
Proof.
  unfold votersOn. rewrite elem_of_list_to_set. split.
  - intros (v & -> & [? ?]%list_elem_of_filter)%list_elem_of_fmap. by exists v.
  - intros (v & Hin & <- & Hc). apply list_elem_of_fmap. exists v. split; [done|]. by apply list_elem_of_filter.
Qed.

(** A signer has one vote: the votes count signers. *)
Lemma votersOn_size S c vs : votes_ok S vs -> Z.of_nat (base.size (votersOn c vs)) = votesOn c vs.
Proof.
  intros [_ Hn]. unfold votersOn. rewrite size_list_to_set.
  - unfold votesOn, len. by rewrite length_map.
  - assert (Hf : NoDup (map (fun v => (vote_Signer v, vote_Address v)) (filter (fun v => vote_Address v = c) vs))).
    { eapply sublist_NoDup; [exact Hn|]. apply fmap_sublist, sublist_filter. }
    clear Hn. induction vs as [|v vs IH]; [constructor|]. revert Hf. rewrite filter_cons.
    destruct (decide (vote_Address v = c)) as [Hc|Hc]; [|exact IH].
    cbn. intros [H1 H2]%NoDup_cons. apply NoDup_cons. split; [|by apply IH].
    intros (w & E & Hw)%list_elem_of_fmap. apply H1. apply list_elem_of_fmap. exists w.
    apply list_elem_of_filter in Hw as Hw'. split; [|done]. destruct Hw' as [Hw' _]. congruence.
Qed.

Section headers.
Context `{U : Uint256} `{C : Crypto}.
Context (Ecrecover : Hash -> bytes -> option bytes).

(** Who stands behind a change of the signers: voters on record, and the signer of the header
    if its vote goes the same way. *)
Definition backs (h : Header) (s : Snapshot) (a : Address) : Prop :=
  ecrecover Ecrecover h = Ret (inl a) /\ voteOf h = Some (proposal (Signers s) (hd_Coinbase h)) \/
  exists v, v ∈ Votes s /\ vote_Signer v = a /\ vote_Address v = hd_Coinbase h /\
    vote_Authorize v = proposal (Signers s) (hd_Coinbase h).

Definition changed_by_majority (h : Header) (s s' : Snapshot) : Prop :=
  exists voters : gset Address,
    voters ⊆ Signers s /\ nSigners s / 2 < Z.of_nat (base.size voters) /\
    (forall a, a ∈ voters -> backs h s a) /\ Signers s' = toggled (Signers s) (hd_Coinbase h).

Lemma resetVotes_ok n (b : bool) s : snap_ok n s ->
  let s' := if b then resetVotes s else s in
  snap_ok n s' /\ same_head s s' /\ Signers s' = Signers s /\ Recents s' = Recents s /\
  (forall v, v ∈ Votes s' -> v ∈ Votes s).
Proof.
  intros Hs. destruct b; [|by split_and!]. cbn. split_and!; [|done..|by intros v ?%elem_of_nil].
  destruct Hs as [_ _ Hr]. split; cbn; [split|split|done].
  - intros a. by rewrite lookup_empty.
  - by intros v ?%elem_of_nil.
  - by intros v ?%elem_of_nil.
  - constructor.
Qed.

Lemma forgetRecent_ok n s : 0 <= n -> n + 1 < two64 -> snap_ok n s -> snap_ok (n + 1) (forgetRecent (n + 1) s).
Proof.
  intros H0 Hn [Ht Hv Hr].
  destruct (forgetRecent_frame (n + 1) s) as (_ & Hs1 & Hv1 & Ht1 & Hr1).
  split; rewrite ?Hs1, ?Hv1, ?Ht1; try done.
  replace (recentLimit (forgetRecent (n + 1) s)) with (recentLimit s) by (unfold recentLimit, nSigners; by rewrite Hs1).
  rewrite Hr1. apply forget_ok; [unfold_u64; lia|apply recentLimit_pos| |apply Hr].
  intros k a Ha. destruct Hr as [Hw _]. destruct (Hw k a Ha). lia.
Qed.

Lemma countVote_ok n h signer auth s : is_u64 n -> snap_ok n s -> signer ∈ Signers s ->
  ecrecover Ecrecover h = Ret (inl signer) -> voteOf h = Some auth ->
  let s' := countVote n signer (hd_Coinbase h) auth s in
  snap_ok n s' /\ same_head s s' /\ (Signers s' = Signers s \/ changed_by_majority h s s').
Proof.
  intros Hn Hs Hin He Hvo. unfold countVote.
  pose proof (addVote_ok n signer (hd_Coinbase h) auth s Hs Hin) as Ha. cbn zeta in Ha.
  destruct (cast (hd_Coinbase h) auth (discardPrevious signer (hd_Coinbase h) [] (Votes s) s)) as [ok s2].
  set (s3 := if ok then _ else s2) in *. cbn zeta in Ha |- *.
  destruct Ha as (Hs3 & (Hc3 & Hn3 & Hh3) & Hsig & Hvs).
  destruct (settleVote_ok n (hd_Coinbase h) s3 Hn Hs3) as (Hs' & (Hc' & Hn' & Hh') & Hm).
  split; [done|]. split; [unfold same_head; by rewrite Hc', Hn', Hh'|].
  destruct Hm as [Hm|[Hm1 Hm2]]; [left; by rewrite Hm|right].
  destruct Hs3 as [Ht Hv _]. rewrite Hsig in Ht, Hv, Hm2.
  exists (votersOn (hd_Coinbase h) (Votes s3)). split_and!; [..|done].
  - intros a (v & Hw & <- & _)%votersOn_elem. by apply Hv.
  - rewrite (votersOn_size (Signers s)) by done. unfold nSigners in *. by rewrite Hsig in Hm1.
  - intros a (v & Hw & Es & Ea)%votersOn_elem.
    pose proof (tally_dir _ _ _ Ht v Hw) as Hd. destruct (Hvs v Hw) as [Hold|Hnew].
    + right. exists v. rewrite Ea in Hd. done.
    + left. subst v. cbn in Es, Hd. rewrite Hd in Hvo. by rewrite <- Es.
Qed.

(** One iteration of [apply] keeps the invariant, and changes the signers only by majority. *)
Lemma applyHeader_ok epoch n h s s' : 0 <= n -> n + 1 < two64 -> snap_ok n s ->
  blockNumber h = Ret (n + 1) -> applyHeader Ecrecover epoch h s = Ret (inl s') ->
  snap_ok (n + 1) s' /\ same_head s s' /\ (Signers s' = Signers s \/ changed_by_majority h s s').
Proof.
  intros H0 Hn Hs Hb. unfold applyHeader. rewrite Hb. cbn [mbind outcome_bind].
  destruct (umod (n + 1) epoch) as [m|]; [|done]. cbn.
  destruct (resetVotes_ok n (m =? 0) s Hs) as (Hs0 & Hh0 & Hsig0 & _ & Hv0).
  set (s0 := if m =? 0 then resetVotes s else s) in *.
  pose proof (forgetRecent_ok n s0 H0 Hn Hs0) as Hs1.
  destruct (forgetRecent_frame (n + 1) s0) as (Hh1 & Hsig1 & Hv1 & _).
  set (s1 := forgetRecent (n + 1) s0) in *.
  destruct (ecrecover Ecrecover h) as [[signer|]|] eqn:He; try done. cbn.
  case_bool_decide as Hin; [|done]. cbn. destruct (recentlySigned signer s1) eqn:Hrec; [done|].
  destruct (voteOf h) as [auth|] eqn:Hvo; [|done]. intros E. injection E as <-.
  set (s2 := with_Recents (<[n + 1:=signer]> (Recents s1)) s1).
  assert (Hs2 : snap_ok (n + 1) s2).
  { destruct Hs1 as [Ht Hv Hr]. split; [done..|].
    apply recents_insert; [lia|apply recentLimit_pos|done|]. by apply recentlySigned_false. }
  destruct (countVote_ok (n + 1) h signer auth s2) as (Hs' & (Hc' & Hn' & Hh') & Hm);
    [unfold_u64; lia|done..|]. cbn in Hc', Hn', Hh'.
  split; [done|]. split.
  { destruct Hh0 as (?&?&?), Hh1 as (?&?&?). unfold same_head. rewrite Hc', Hn', Hh'. by split_and!; etrans. }
  assert (Hsig2 : Signers s2 = Signers s) by (cbn; by rewrite Hsig1, Hsig0).
  destruct Hm as [Hm|(voters & Hsub & Hsz & Hback & Htog)]; [left; by rewrite Hm|right].
  rewrite Hsig2 in Hsub, Htog. unfold nSigners in Hsz. rewrite Hsig2 in Hsz.
  exists voters. split_and!; try done.
  intros a Ha. destruct (Hback a Ha) as [Hb1|(v & Hw & Hb2)]; unfold backs; rewrite Hsig2 in *; [by left|right].
  exists v. split; [|done]. cbn in Hw. rewrite Hv1 in Hw. by apply Hv0.
Qed.
End headers.
