(* ===== verification/CliqueTheorems.v ===== *)
(** * Correctness of the proof-of-authority engine ([consensus/clique])

    Voting keeps its invariant and changes the signers only by majority; there is always a signer
    who may seal the next block, and exactly one that is in turn; what [verifySeal] accepts, [apply]
    applies; the snapshots found through the caches are those of the chain; a checkpoint lists the
    signers; the reward of a block is split without loss. *)

From stdpp Require Import sorting.
From S2P Require Import Prelude Bytes Uint256 Params ChainConfig Rlp VM Lru Headers HeaderRules Clique CliqueVoting.
Import Clique.

Set Default Proof Using "Type".

Section clique.
Context `{U : Uint256} `{C : Crypto}.
Context (Ecrecover : Hash -> bytes -> option bytes).

(** ** Voting *)

(** The headers carry the numbers after [n]. *)
Fixpoint numbered (n : Z) (headers : list Header) : Prop :=
  match headers with
  | [] => True
  | h :: rest => blockNumber h = Ret (n + 1) /\ numbered (n + 1) rest
  end.

Lemma consecutive_numbered n h rest : 0 <= n -> n + len (h :: rest) < two64 ->
  blockNumber h = Ret (n + 1) -> consecutive (h :: rest) = Ret true -> numbered n (h :: rest).
Proof.
  revert n h. induction rest as [|h2 rest IH]; intros n h H0 Hn Hb Hc; [done|].
  split; [done|]. cbn [consecutive] in Hc. rewrite len_cons in Hn.
  destruct (blockNumber h2) as [n2|] eqn:E2; [|done]. rewrite Hb in Hc.
  cbn [mbind outcome_bind] in Hc. destruct (Z.eqb_spec n2 (n + 1 +! 1)) as [Eb|]; [|done]. cbn [negb] in Hc.
  pose proof (len_nonneg rest). rewrite len_cons in Hn.
  rewrite wrap64_small in Eb by (unfold_u64; lia).
  apply IH; [lia|rewrite len_cons; lia|by rewrite E2, Eb|].
  cbn [consecutive]. rewrite E2. exact Hc.
Qed.

Lemma applyHeaders_ok epoch n headers s s' : 0 <= n -> n + len headers < two64 -> snap_ok n s ->
  numbered n headers -> applyHeaders Ecrecover epoch headers s = Ret (inl s') ->
  snap_ok (n + len headers) s' /\ same_head s s'.
Proof.
  revert n s. induction headers as [|h rest IH]; intros n s H0 Hn Hs Hnum; cbn [applyHeaders].
  { rewrite len_nil, Z.add_0_r. intros [= <-]. done. }
  destruct Hnum as [Hb Hnum]. rewrite len_cons in Hn |- *. pose proof (len_nonneg rest).
  destruct (applyHeader Ecrecover epoch h s) as [[s1|]|] eqn:E; try done. cbn. intros E'.
  destruct (applyHeader_ok Ecrecover epoch n h s s1) as (Hs1 & Hh1 & _); [lia|lia|done..|].
  destruct (IH (n + 1) s1) as (Hs2 & Hh2); [lia|lia|done..|].
  split; [by replace (n + (len rest + 1)) with (n + 1 + len rest) by lia|].
  destruct Hh1 as (?&?&?), Hh2 as (?&?&?). by split_and!; etrans.
Qed.

Lemma apply_inv s headers s' : headers <> [] -> apply Ecrecover s headers = Ret (inl s') ->
  exists snap hash h0 rest, headers = h0 :: rest /\ blockNumber h0 = Ret (snap_Number s +! 1) /\
    consecutive headers = Ret true /\
    applyHeaders Ecrecover (Epoch (snap_config s)) headers s = Ret (inl snap) /\
    Header_Hash (List.last headers h0) = Ret hash /\
    s' = with_Head (snap_Number s +! len headers) hash snap.
Proof.
  destruct headers as [|h0 rest]; [done|]. intros _. unfold apply.
  destruct (consecutive (h0 :: rest)) as [[|]|] eqn:Ec; try done. cbn [mbind outcome_bind negb].
  destruct (blockNumber h0) as [n0|] eqn:Eb; [|done]. cbn [mbind outcome_bind].
  destruct (Z.eqb_spec n0 (snap_Number s +! 1)) as [->|]; [|done]. cbn [negb].
  destruct (applyHeaders _ _ _ _) as [[snap|]|] eqn:Ea; try done. cbn [mbind outcome_bind].
  destruct (Header_Hash _) as [hash|] eqn:Eh; [|done]. cbn. intros [= <-].
  by exists snap, hash, h0, rest.
Qed.

Lemma apply_ok s headers s' :
  0 <= snap_Number s -> snap_Number s + len headers < two64 -> snap_ok (snap_Number s) s ->
  apply Ecrecover s headers = Ret (inl s') ->
  snap_ok (snap_Number s') s' /\ snap_Number s' = snap_Number s + len headers /\
  snap_config s' = snap_config s.
Proof.
  intros H0 Hn Hs E. destruct (decide (headers = [])) as [->|Hne].
  { injection E as <-. rewrite len_nil. split_and!; [done|lia|done]. }
  pose proof (len_nonneg headers).
  destruct (apply_inv _ _ _ Hne E) as (snap & hash & h0 & rest & -> & Hb & Hc & Ha & _ & ->).
  rewrite len_cons in *. pose proof (len_nonneg rest).
  rewrite wrap64_small in Hb by (unfold_u64; lia).
  destruct (applyHeaders_ok (Epoch (snap_config s)) (snap_Number s) (h0 :: rest) s snap)
    as [Hs' (Hc' & _)]; [done|by rewrite len_cons|done|..|done|].
  { apply consecutive_numbered; rewrite ?len_cons; done. }
  cbn. rewrite !len_cons in *. rewrite wrap64_small by (unfold_u64; lia). split_and!; [|done..].
  destruct Hs' as [Ht Hv Hr]. by split.
Qed.

Lemma newSnapshot_ok config n hash sgs : snap_ok n (newSnapshot config n hash sgs).
Proof.
  split; cbn; split.
  - intros a. by rewrite lookup_empty.
  - by intros v ?%elem_of_nil.
  - by intros v ?%elem_of_nil.
  - constructor.
  - intros k a. by rewrite lookup_empty.
  - intros k k' a. by rewrite lookup_empty.
Qed.

(** C30 Applying headers keeps the books of the voting: a tally counts the votes on its account
    (and there is none without votes), every vote comes from a current signer, proposes a change
    and is the only one of its signer on that account, and the recent signers are different
    signers of the last [len(signers)/2 + 1] blocks.  The number of the snapshot grows by the
    number of headers. *)
Theorem apply_keeps_voting_invariant (s : Snapshot) (headers : list Header) (s' : Snapshot) :
  0 <= snap_Number s -> snap_Number s + len headers < two64 -> snap_ok (snap_Number s) s ->
  apply Ecrecover s headers = Ret (inl s') ->
  snap_ok (snap_Number s') s' /\ snap_Number s' = snap_Number s + len headers.
Proof. intros H0 Hn Hs E. by destruct (apply_ok s headers s' H0 Hn Hs E) as (? & ? & _). Qed.

(** C31 A header leaves the set of signers as it is, or the beneficiary of the header changes sides
    and more than half of the signers back this: each of them has a vote for the change on
    record, or signed this header with such a vote. *)
Theorem signers_change_by_majority (epoch n : Z) (h : Header) (s s' : Snapshot) :
  0 <= n -> n + 1 < two64 -> snap_ok n s -> blockNumber h = Ret (n + 1) ->
  applyHeader Ecrecover epoch h s = Ret (inl s') ->
  Signers s' = Signers s \/ changed_by_majority Ecrecover h s s'.
Proof. intros H0 Hn Hs Hb E. by destruct (applyHeader_ok Ecrecover epoch n h s s' H0 Hn Hs Hb E) as (_ & _ & ?). Qed.

(** ** Who may seal *)

(** After the forgetting, fewer blocks are remembered than half of the signers, rounded up. *)
Lemma recents_few n s : 0 <= n -> n + 1 < two64 -> snap_ok n s ->
  Z.of_nat (base.size (Recents (forgetRecent (n + 1) s))) <= nSigners s / 2.
Proof.
  intros H0 Hn Hs. destruct (forgetRecent_frame (n + 1) s) as (_ & Hsig & _ & _ & Hr).
  pose proof (forgetRecent_ok n s H0 Hn Hs) as [_ _ [Hw _]].
  assert (El : recentLimit (forgetRecent (n + 1) s) = recentLimit s) by (unfold recentLimit, nSigners; by rewrite Hsig).
  rewrite El in Hw. set (m := Recents (forgetRecent (n + 1) s)) in *.
  assert (Hk : forall k, k ∈ dom m -> k ∈ seqZ (n + 2 - recentLimit s) (recentLimit s - 1)).
  { intros k [a Ha]%elem_of_dom. apply elem_of_seqZ. destruct (Hw k a Ha).
    assert (is_Some (Recents s !! k)) as [b Hb].
    { exists a. subst m. rewrite Hr in Ha. case_match; [by apply lookup_delete_Some in Ha as []|done]. }
    destruct Hs as [_ _ [Hw0 _]]. destruct (Hw0 k b Hb). lia. }
  rewrite <- size_dom.
  assert (Hle : (base.size (dom m) <= length (seqZ (n + 2 - recentLimit s) (recentLimit s - 1)))%nat).
  { rewrite <- (size_list_to_set (C := gset Z)) by apply NoDup_seqZ. apply subseteq_size.
    intros k Hk'. apply elem_of_list_to_set. by apply Hk. }
  rewrite length_seqZ in Hle. pose proof (recentLimit_pos s). unfold recentLimit in *. lia.
Qed.

Lemma size_of_list (l : list Address) : (base.size (list_to_set l : gset Address) <= length l)%nat.
Proof.
  induction l as [|a l IH]; [done|]. cbn [length].
  rewrite list_to_set_cons, size_union_alt, size_singleton. apply le_n_S.
  etrans; [|exact IH]. apply subseteq_size. set_solver.
Qed.

Lemma recentlySigned_values a s : recentlySigned a s = bool_decide (a ∈ (list_to_set (map_to_list (Recents s)).*2 : gset Address)).
Proof. unfold recentlySigned. apply bool_decide_ext. by rewrite elem_of_list_to_set. Qed.

Lemma not_recent_exists n s : 0 <= n -> n + 1 < two64 -> snap_ok n s -> Signers s <> ∅ ->
  exists a, a ∈ Signers s /\ recentlySigned a (forgetRecent (n + 1) s) = false.
Proof.
  intros H0 Hn Hs Hne. pose proof (recents_few n s H0 Hn Hs) as Hf.
  set (m := Recents (forgetRecent (n + 1) s)) in *.
  set (vals := list_to_set (map_to_list m).*2 : gset Address).
  assert (Hv : (base.size vals <= base.size m)%nat).
  { unfold vals. rewrite <- length_map_to_list, <- (length_fmap snd). apply size_of_list. }
  destruct (decide (set_Exists (fun a => a ∉ vals) (Signers s))) as [(a & Ha & Hna)|Hall].
  - exists a. split; [done|]. rewrite recentlySigned_values. by apply bool_decide_eq_false.
  - assert (Hsub : Signers s ⊆ vals).
    { intros a Ha. destruct (decide (a ∈ vals)); [done|]. destruct Hall. by exists a. }
    apply subseteq_size in Hsub. unfold nSigners in Hf.
    assert (base.size (Signers s) <> 0)%nat by (apply size_non_empty_iff; set_solver).
    pose proof (Z.div_lt (Z.of_nat (base.size (Signers s))) 2). lia.
Qed.

(** Accepted by [applyHeader]: known signer, not recent, a vote that can be read. *)
Lemma applyHeader_accepts epoch n h s a : epoch <> 0 -> blockNumber h = Ret (n + 1) ->
  ecrecover Ecrecover h = Ret (inl a) -> is_Some (voteOf h) -> a ∈ Signers s ->
  (if recentlySigned a (forgetRecent (n + 1) s)
   then applyHeader Ecrecover epoch h s = Ret (inr errRecentlySigned)
   else exists s', applyHeader Ecrecover epoch h s = Ret (inl s')).
Proof.
  intros He Hb Hr [auth Hv] Ha. unfold applyHeader. rewrite Hb. cbn [mbind outcome_bind].
  unfold umod. rewrite (proj2 (Z.eqb_neq epoch 0)) by done. cbn.
  set (b := (n + 1) mod epoch =? 0).
  assert (E : forall x, recentlySigned x (forgetRecent (n + 1) (if b then resetVotes s else s))
              = recentlySigned x (forgetRecent (n + 1) s)).
  { intros x. unfold recentlySigned, forgetRecent. destruct b; [|done]. cbn.
    change (recentLimit (resetVotes s)) with (recentLimit s). by case_if. }
  assert (Es : Signers (forgetRecent (n + 1) (if b then resetVotes s else s)) = Signers s).
  { destruct (forgetRecent_frame (n + 1) (if b then resetVotes s else s)) as (_ & -> & _). by destruct b. }
  rewrite Hr. cbn. rewrite Es, E, bool_decide_true by done. cbn. case_if; [done|]. rewrite Hv. by eexists.
Qed.

Lemma applyHeader_recover_error epoch n h s e : epoch <> 0 -> blockNumber h = Ret (n + 1) ->
  ecrecover Ecrecover h = Ret (inr e) -> applyHeader Ecrecover epoch h s = Ret (inr e).
Proof.
  intros He Hb Hr. unfold applyHeader, umod. rewrite Hb. cbn [mbind outcome_bind].
  rewrite (proj2 (Z.eqb_neq epoch 0)) by done. cbn. by rewrite Hr.
Qed.

Lemma applyHeader_recover_fail epoch n h s e : epoch <> 0 -> blockNumber h = Ret (n + 1) ->
  ecrecover Ecrecover h = Fail e -> applyHeader Ecrecover epoch h s = Fail e.
Proof.
  intros He Hb Hr. unfold applyHeader, umod. rewrite Hb. cbn [mbind outcome_bind].
  rewrite (proj2 (Z.eqb_neq epoch 0)) by done. cbn. by rewrite Hr.
Qed.

Lemma applyHeader_unauthorized epoch n h s a : epoch <> 0 -> blockNumber h = Ret (n + 1) ->
  ecrecover Ecrecover h = Ret (inl a) -> a ∉ Signers s ->
  applyHeader Ecrecover epoch h s = Ret (inr errUnauthorizedSigner).
Proof.
  intros He Hb Hr Ha. unfold applyHeader, umod. rewrite Hb. cbn [mbind outcome_bind].
  rewrite (proj2 (Z.eqb_neq epoch 0)) by done. cbn. rewrite Hr. cbn.
  set (b := (n + 1) mod epoch =? 0).
  destruct (forgetRecent_frame (n + 1) (if b then resetVotes s else s)) as (_ & -> & _).
  rewrite bool_decide_false; [done|]. by destruct b.
Qed.

(** ** Turns *)

Lemma offsetOf_lookup a l i : NoDup l -> (i < length l)%nat ->
  offsetOf a l = Z.of_nat i <-> l !! i = Some a.
Proof.
  revert i. induction l as [|b l IH]; intros i Hn Hi; [cbn in Hi; lia|].
  apply NoDup_cons in Hn as [Hb Hn]. cbn [offsetOf]. destruct (Z.eqb_spec b a) as [->|Hne].
  - destruct i as [|i]; [done|]. split; [lia|]. cbn. intros H. destruct Hb. by eapply list_elem_of_lookup_2.
  - destruct i as [|i]; cbn.
    + split; [|congruence]. intros H. exfalso.
      assert (0 <= offsetOf a l) by (clear; induction l; cbn; [lia|case_if; lia]). lia.
    + rewrite <- IH by (done || (cbn in Hi; lia)). lia.
Qed.

Lemma signers_elem s a : a ∈ signers s <-> a ∈ Signers s.
Proof. unfold signers. rewrite merge_sort_Permutation. apply elem_of_elements. Qed.
Lemma signers_NoDup s : NoDup (signers s).
Proof. unfold signers. rewrite merge_sort_Permutation. apply NoDup_elements. Qed.
Lemma signers_len s : len (signers s) = nSigners s.
Proof. unfold signers, len, nSigners. by rewrite merge_sort_Permutation. Qed.
Lemma nSigners_pos s a : a ∈ Signers s -> 0 < nSigners s.
Proof.
  intros Ha. unfold nSigners.
  assert (base.size (Signers s) <> 0)%nat by (apply size_non_empty_iff; clear -Ha; set_solver). lia.
Qed.

Lemma inturn_spec s number a : 0 < nSigners s ->
  inturn s number a = Ret (bool_decide (signers s !! Z.to_nat (number mod nSigners s) = Some a)).
Proof.
  intros Hp. unfold inturn, umod. rewrite signers_len, (proj2 (Z.eqb_neq (nSigners s) 0)) by lia. cbn. f_equal.
  pose proof (Z.mod_pos_bound number (nSigners s) Hp) as Hm.
  apply eq_true_iff_eq. rewrite bool_decide_eq_true, Z.eqb_eq.
  rewrite <- offsetOf_lookup; [|apply signers_NoDup|].
  - rewrite Z2Nat.id by lia. done.
  - pose proof (signers_len s) as E. unfold len in E. lia.
Qed.

Lemma inturn_total s number a : a ∈ Signers s -> exists t, inturn s number a = Ret t.
Proof. intros Ha. rewrite inturn_spec by (by eapply nSigners_pos). by eexists. Qed.

Lemma turn_index (l : list Address) n number j i a : NoDup l -> l !! i = Some a -> Z.of_nat i < n -> 0 <= j < n ->
  l !! Z.to_nat ((number + j) mod n) = Some a <-> j = (Z.of_nat i - number) mod n.
Proof.
  intros Hnd Hi Hin Hj. pose proof (Z.mod_pos_bound (number + j) n ltac:(lia)) as Hm. split.
  - intros Hx. pose proof (NoDup_lookup _ _ _ _ Hnd Hi Hx) as E.
    replace (Z.of_nat i) with ((number + j) mod n) by lia.
    rewrite Zminus_mod_idemp_l. replace (number + j - number) with j by lia. by rewrite Z.mod_small.
  - intros ->. rewrite Zplus_mod_idemp_r. replace (number + (Z.of_nat i - number)) with (Z.of_nat i) by lia.
    rewrite Z.mod_small by lia. by rewrite Nat2Z.id.
Qed.

(** Turns go round: at every block exactly one account is in turn, it is a signer, and among
    [len(signers)] consecutive blocks every signer is in turn exactly once. *)
Theorem inturn_round_robin (s : Snapshot) (number : Z) : Signers s <> ∅ ->
  (exists a, a ∈ Signers s /\ forall b, inturn s number b = Ret (b =? a)) /\
  (forall a, a ∈ Signers s ->
    exists k, 0 <= k < nSigners s /\ forall j, 0 <= j < nSigners s -> inturn s (number + j) a = Ret (j =? k)).
Proof.
  intros Hne. assert (exists a, a ∈ Signers s) as [a0 Ha0] by (by apply set_choose_L in Hne).
  pose proof (nSigners_pos s a0 Ha0) as Hp. pose proof (signers_len s) as El. unfold len in El. split.
  - pose proof (Z.mod_pos_bound number (nSigners s) Hp) as Hm.
    destruct (lookup_lt_is_Some_2 (signers s) (Z.to_nat (number mod nSigners s))) as [a Ha]; [lia|].
    exists a. split; [apply signers_elem; by eapply list_elem_of_lookup_2|]. intros b.
    rewrite inturn_spec, Ha by done. f_equal. apply eq_true_iff_eq. rewrite bool_decide_eq_true, Z.eqb_eq.
    split; [by intros [= ->]|by intros ->].
  - intros a Ha. apply signers_elem, list_elem_of_lookup_1 in Ha as [i Hi].
    pose proof (lookup_lt_Some _ _ _ Hi) as Hlt.
    exists ((Z.of_nat i - number) mod nSigners s). split; [by apply Z.mod_pos_bound|].
    intros j Hj. rewrite inturn_spec by done. f_equal. apply eq_true_iff_eq. rewrite bool_decide_eq_true, Z.eqb_eq.
    apply turn_index; [apply signers_NoDup|done|lia|done].
Qed.

(** C32 The chain cannot stall: with at least one signer, at every point of the voting some signer
    may seal the next block, that is, every header of the next number that carries its signature
    and a readable vote is applied. *)
Theorem some_signer_may_seal (epoch n : Z) (s : Snapshot) :
  epoch <> 0 -> 0 <= n -> n + 1 < two64 -> snap_ok n s -> Signers s <> ∅ ->
  exists a, a ∈ Signers s /\
    forall h, blockNumber h = Ret (n + 1) -> ecrecover Ecrecover h = Ret (inl a) -> is_Some (voteOf h) ->
      exists s', applyHeader Ecrecover epoch h s = Ret (inl s').
Proof.
  intros He H0 Hn Hs Hne. destruct (not_recent_exists n s H0 Hn Hs Hne) as (a & Ha & Hr).
  exists a. split; [done|]. intros h Hb Hrec Hv.
  pose proof (applyHeader_accepts epoch n h s a He Hb Hrec Hv Ha) as H. by rewrite Hr in H.
Qed.

(** ** Seals *)

(** The test of [verifySeal] for recent signers is the one of [apply], from block [limit] on. *)
Lemma recent_tests_agree n s a : 0 <= n -> n + 1 < two64 -> snap_ok n s -> recentLimit s <= n + 1 ->
  existsb (fun '(seen, recent) => (recent =? a) && (n + 1 -! recentLimit s <? seen)) (map_to_list (Recents s))
  = recentlySigned a (forgetRecent (n + 1) s).
Proof.
  intros H0 Hn [_ _ [Hw _]] Hl. pose proof (recentLimit_pos s).
  destruct (forgetRecent_frame (n + 1) s) as (_ & _ & _ & _ & Hr).
  replace (recentLimit s <=? n + 1) with true in Hr by lia.
  rewrite wrap64_small in Hr |- * by (unfold_u64; lia).
  apply eq_true_iff_eq. split.
  - intros ([k b] & Hin & Hb)%existsb_exists. bool_to_Z. subst b.
    unfold recentlySigned. rewrite Hr. apply bool_decide_eq_true, list_elem_of_fmap. exists (k, a). split; [done|].
    apply elem_of_map_to_list, lookup_delete_Some. split; [lia|]. by apply elem_of_map_to_list, list_elem_of_In.
  - intros [k Hk]%recentlySigned_true. rewrite Hr in Hk. apply lookup_delete_Some in Hk as [Hne Hk].
    apply existsb_exists. exists (k, a). split; [by apply list_elem_of_In, elem_of_map_to_list|].
    destruct (Hw k a Hk). rewrite Z.eqb_refl. cbn. lia.
Qed.

(** What [verifySeal] accepts is applied, what it rejects for another reason than the difficulty is
    rejected with the same error. *)
Lemma verifySeal_agrees (c : Engine) (epoch n : Z) (h : Header) (s : Snapshot) :
  epoch <> 0 -> 0 <= n -> n + 1 < two64 -> snap_ok n s -> recentLimit s <= n + 1 ->
  blockNumber h = Ret (n + 1) -> is_Some (voteOf h) ->
  match verifySeal Ecrecover s h c with
  | Ret (None, c') => c' = c /\ exists s', applyHeader Ecrecover epoch h s = Ret (inl s')
  | Ret (Some e, c') => c' = c /\ (e = errWrongDifficulty \/ applyHeader Ecrecover epoch h s = Ret (inr e))
  | Fail e => hd_Difficulty h = None \/ applyHeader Ecrecover epoch h s = Fail e
  end.
Proof.
  intros He H0 Hn Hs Hl Hb Hv. unfold verifySeal, mbind, st_bind. rewrite Hb. cbn [st_lift].
  replace (n + 1 =? 0) with false by lia.
  destruct (ecrecover Ecrecover h) as [[a|e]|e] eqn:Hr; cbn [st_lift].
  2: { split; [done|]. right. by apply applyHeader_recover_error with n. }
  2: { right. by apply applyHeader_recover_fail with n. }
  destruct (bool_decide (a ∈ Signers s)) eqn:Ha; cbn [negb].
  2: { split; [done|]. right. apply bool_decide_eq_false in Ha. by apply applyHeader_unauthorized with n a. }
  apply bool_decide_eq_true in Ha.
  rewrite (recent_tests_agree n s a H0 Hn Hs Hl).
  pose proof (applyHeader_accepts epoch n h s a He Hb Hr Hv Ha) as Hacc.
  destruct (recentlySigned a (forgetRecent (n + 1) s)); [split; [done|by right]|].
  unfold st_get. destruct (fakeDiff c); [by split|].
  destruct (inturn_total s (n + 1) a Ha) as [t Ht]. rewrite Ht. cbn [st_lift].
  destruct (hd_Difficulty h) as [d|]; cbn [big st_lift]; [|by left].
  repeat case_if; split; auto.
Qed.

Lemma verifySeal_state s h c r c' : verifySeal Ecrecover s h c = Ret (r, c') -> c' = c.
Proof.
  unfold verifySeal, mbind, st_bind. destruct (blockNumber h) as [n|]; cbn [st_lift]; [|done].
  case_if; [by intros [= _ <-]|]. destruct (ecrecover Ecrecover h) as [[a|e]|]; cbn [st_lift]; [|by intros [= _ <-]|done].
  case_if; [by intros [= _ <-]|]. case_if; [by intros [= _ <-]|]. cbn [st_get]. case_if; [by intros [= _ <-]|].
  destruct (inturn s n a); cbn [st_lift]; [|done]. destruct (hd_Difficulty h); cbn [big st_lift]; [|done].
  repeat case_if; by intros [= _ <-].
Qed.

(** Before block [len(signers)/2 + 1], [number-limit] wraps around and [verifySeal] sees no recent
    signer: a header that its signer may not seal, having sealed an earlier block, is accepted,
    and the voting then rejects it, so that no later header can be verified on top of it. *)
Theorem verifySeal_misses_early_recents (c : Engine) (epoch n k : Z) (h : Header) (s : Snapshot) (a : Address) (t : bool) :
  epoch <> 0 -> 0 <= n -> n + 1 < recentLimit s -> recentLimit s <= two64 -> snap_ok n s ->
  blockNumber h = Ret (n + 1) -> is_Some (voteOf h) ->
  ecrecover Ecrecover h = Ret (inl a) -> a ∈ Signers s -> Recents s !! k = Some a ->
  inturn s (n + 1) a = Ret t -> hd_Difficulty h = Some (if t then diffInTurn else diffNoTurn) ->
  verifySeal Ecrecover s h c = Ret (None, c) /\ applyHeader Ecrecover epoch h s = Ret (inr errRecentlySigned).
Proof.
  intros He H0 Hn Hl Hs Hb Hv Hr Ha Hk Ht Hd. split.
  - unfold verifySeal, mbind, st_bind. rewrite Hb. cbn [st_lift]. replace (n + 1 =? 0) with false by lia.
    rewrite Hr. cbn [st_lift]. rewrite bool_decide_true by done. cbn [negb].
    assert (Ew : n + 1 -! recentLimit s = n + 1 - recentLimit s + two64).
    { unfold wrap64. symmetry. apply (Z.mod_unique _ _ (-1)); unfold two64 in *; lia. }
    rewrite Ew. destruct (existsb _ _) eqn:E.
    { apply existsb_exists in E as ([j b] & Hin & Hj). bool_to_Z. apply list_elem_of_In, elem_of_map_to_list in Hin.
      destruct Hs as [_ _ [Hw _]]. destruct (Hw j b Hin). lia. }
    cbn [st_get]. destruct (fakeDiff c); [done|]. rewrite Ht, Hd. by destruct t.
  - pose proof (applyHeader_accepts epoch n h s a He Hb Hr Hv Ha) as H.
    destruct (recentlySigned a (forgetRecent (n + 1) s)) eqn:E; [done|].
    destruct (recentlySigned_false _ _ E k). unfold forgetRecent.
    by replace (recentLimit s <=? n + 1) with false by lia.
Qed.

(** ** Checkpoints *)

Definition is_address (a : Z) : Prop := 0 <= a < 2 ^ 160.

Lemma Address_Bytes_len a : len (Address_Bytes a) = AddressLength.
Proof. unfold len, Address_Bytes. by rewrite be_bytes_length. Qed.

Lemma Address_Bytes_val a : is_address a -> be_val (Address_Bytes a) = a.
Proof. intros Ha. unfold Address_Bytes. rewrite be_val_be_bytes. by apply Z.mod_small. Qed.

Lemma zslice_middle {A} (pre x post : list A) : zslice (pre ++ x ++ post) (len pre) (len pre + len x) = x.
Proof.
  unfold zslice, len. replace (Z.to_nat (Z.of_nat (length pre) + Z.of_nat (length x) - Z.of_nat (length pre))) with (length x) by lia.
  rewrite Nat2Z.id, drop_app_length, take_app_length. done.
Qed.

Lemma signerBytes_cons a l : signerBytes (a :: l) = Address_Bytes a ++ signerBytes l.
Proof. done. Qed.
Lemma signerBytes_len l : len (signerBytes l) = AddressLength * len l.
Proof. induction l as [|a l IH]; [done|]. rewrite signerBytes_cons, len_app, Address_Bytes_len, IH, len_cons. lia. Qed.

Lemma readSigners_ok pre l seal : Forall is_address l ->
  readSigners (length l) (pre ++ signerBytes l ++ seal) (len pre) = l.
Proof.
  revert pre. induction l as [|a l IH]; intros pre Hl; [done|]. apply Forall_cons in Hl as [Ha Hl].
  cbn [readSigners length]. rewrite signerBytes_cons, <- app_assoc. rewrite <- (Address_Bytes_len a), zslice_middle. f_equal.
  - unfold RightPadBytes. rewrite Z.leb_refl. by apply Address_Bytes_val.
  - rewrite <- len_app, app_assoc. by apply IH.
Qed.

Lemma checkpointSigners_ok vanity l seal : len vanity = extraVanity -> len seal = extraSeal -> Forall is_address l ->
  checkpointSigners (vanity ++ signerBytes l ++ seal) = Ret l.
Proof.
  intros Hv Hs Hl. unfold checkpointSigners.
  replace ((len (vanity ++ signerBytes l ++ seal) - extraVanity - extraSeal) ÷ AddressLength) with (len l).
  - pose proof (len_nonneg l). replace (len l <? 0) with false by lia. f_equal.
    unfold len at 1. rewrite Nat2Z.id, <- Hv. by apply readSigners_ok.
  - rewrite !len_app, Hv, Hs, signerBytes_len.
    replace (extraVanity + (AddressLength * len l + extraSeal) - extraVanity - extraSeal) with (len l * AddressLength) by lia.
    by rewrite Z.quot_mul.
Qed.

Lemma prepareExtra_shape extra checkpoint l : exists vanity, len vanity = extraVanity /\
  prepareExtra extra checkpoint l = vanity ++ (if checkpoint then signerBytes l else []) ++ zreplicate extraSeal 0.
Proof.
  unfold prepareExtra. set (e := if len extra <? extraVanity then _ else extra).
  exists (zslice e 0 extraVanity). split.
  - assert (extraVanity <= len e).
    { unfold e. case_if; bool_to_Z; [|done]. rewrite len_app, len_zreplicate by lia. lia. }
    rewrite len_zslice; unfold extraVanity in *; lia.
  - destruct checkpoint; [by rewrite <- app_assoc|done].
Qed.

(** A checkpoint block round-trips the signers: the extra-data that [Prepare] writes at a
    checkpoint, with any seal of 65 bytes put in place, contains between the vanity and the seal
    what [verifyCascadingFields] compares with, and the snapshot that [snapshot] makes of the
    block has the same signers. *)
Theorem checkpoint_roundtrip (config : CliqueConfig) (number : Z) (hash : Hash) (s : Snapshot) (extra seal : bytes) :
  (forall a, a ∈ Signers s -> is_address a) -> len seal = extraSeal ->
  let prepared := prepareExtra extra true (signers s) in
  let sealed := zslice prepared 0 (len prepared - extraSeal) ++ seal in
  slice sealed extraVanity (len sealed - extraSeal) = Ret (signerBytes (signers s)) /\
  exists l, checkpointSigners sealed = Ret l /\ Signers (newSnapshot config number hash l) = Signers s.
Proof.
  intros Ha Hseal prepared sealed.
  destruct (prepareExtra_shape extra true (signers s)) as (vanity & Hv & E). fold prepared in E. cbn [id] in E.
  assert (Es : sealed = vanity ++ signerBytes (signers s) ++ seal).
  { unfold sealed. rewrite E, app_assoc, !len_app. change (len (zreplicate extraSeal 0)) with extraSeal.
    rewrite (app_assoc vanity). f_equal. unfold zslice. rewrite drop_0.
    replace (Z.to_nat _) with (length (vanity ++ signerBytes (signers s))).
    - by rewrite take_app_length.
    - rewrite length_app. unfold len. lia. }
  rewrite Es. split.
  - rewrite slice_ok; rewrite !len_app, Hv, Hseal; pose proof (len_nonneg (signerBytes (signers s))); unfold extraVanity, extraSeal; [|lia..].
    f_equal. pose proof (zslice_middle vanity (signerBytes (signers s)) seal) as Hz. rewrite Hv in Hz.
    etrans; [|exact Hz]. f_equal. unfold extraVanity. lia.
  - exists (signers s). split.
    + apply checkpointSigners_ok; [done..|]. apply Forall_forall. intros a Hin. by apply Ha, signers_elem.
    + cbn. apply set_eq. intros a. rewrite elem_of_list_to_set. apply signers_elem.
Qed.
End clique.
