(* ===== verification/CliqueChain.v ===== *)
(** * Snapshots of a chain: caches and the walk back ([snapshot] of [consensus/clique/clique.go])

    What a snapshot at a block means is [snapAt]: the signers of the genesis block and all headers
    up to the block applied to them.  [snapshot] looks for an earlier snapshot in the cache, in the
    database or at the genesis block and applies only the headers since; the lemmas here say that
    this is the same thing, whatever the caches hold. *)

From S2P Require Import Prelude Bytes Uint256 Params ChainConfig Rlp VM Lru Headers HeaderRules Clique CliqueVoting CliqueTheorems.
Import Clique.

(** ** The result of [applyHeader] does not depend on the number and the hash *)

Definition reheaded (n : Z) (x : Hash) (r : Outcome (Snapshot + cliqueerror)) : Outcome (Snapshot + cliqueerror) :=
  match r with Ret (inl s) => Ret (inl (with_Head n x s)) | _ => r end.

Lemma uncast_reheaded n x a auth s : (uncast a auth (with_Head n x s)).2 = with_Head n x (uncast a auth s).2.
Proof. unfold uncast. cbn. destruct (Tallies s !! a); [|done]. repeat case_if; done. Qed.

Lemma discardPrevious_reheaded n x signer a before votes s :
  discardPrevious signer a before votes (with_Head n x s) = with_Head n x (discardPrevious signer a before votes s).
Proof.
  revert before. induction votes as [|v votes IH]; intros before; [done|]. cbn [discardPrevious].
  case_if; [by rewrite uncast_reheaded|apply IH].
Qed.

Lemma discardBySigner_reheaded n x signer kept votes s :
  discardBySigner signer kept votes (with_Head n x s) = with_Head n x (discardBySigner signer kept votes s).
Proof.
  revert kept s. induction votes as [|v votes IH]; intros kept s; [done|]. cbn [discardBySigner].
  case_if; [by rewrite uncast_reheaded, IH|apply IH].
Qed.

Lemma forgetRecent_reheaded n x number s : forgetRecent number (with_Head n x s) = with_Head n x (forgetRecent number s).
Proof. unfold forgetRecent. change (recentLimit (with_Head n x s)) with (recentLimit s). by case_if. Qed.

Lemma settleVote_reheaded n x number c s : settleVote number c (with_Head n x s) = with_Head n x (settleVote number c s).
Proof.
  unfold settleVote. change (Tallies (with_Head n x s)) with (Tallies s).
  change (nSigners (with_Head n x s)) with (nSigners s). destruct (Tallies s !! c) as [t|]; [|done].
  case_if; [|done]. destruct (tally_Authorize t); [done|].
  change (with_Signers (Signers (with_Head n x s) ∖ {[c]}) (with_Head n x s))
    with (with_Head n x (with_Signers (Signers s ∖ {[c]}) s)).
  rewrite forgetRecent_reheaded. set (s1 := forgetRecent number _).
  change (Votes (with_Head n x s1)) with (Votes s1). by rewrite discardBySigner_reheaded.
Qed.

Lemma countVote_reheaded n x number signer c auth s :
  countVote number signer c auth (with_Head n x s) = with_Head n x (countVote number signer c auth s).
Proof.
  unfold countVote. change (Votes (with_Head n x s)) with (Votes s). rewrite discardPrevious_reheaded.
  set (s1 := discardPrevious _ _ _ _ _). unfold cast.
  change (validVote (with_Head n x s1) c auth) with (validVote s1 c auth).
  change (Tallies (with_Head n x s1)) with (Tallies s1).
  destruct (validVote s1 c auth); cbn [negb]; [|apply settleVote_reheaded].
  destruct (Tallies s1 !! c) as [t|]; rewrite <- settleVote_reheaded; done.
Qed.

Section chain.
Context `{U : Uint256} `{C : Crypto}.
Context (Ecrecover : Hash -> bytes -> option bytes).

Lemma applyHeader_reheaded n x epoch h s :
  applyHeader Ecrecover epoch h (with_Head n x s) = reheaded n x (applyHeader Ecrecover epoch h s).
Proof.
  unfold applyHeader. destruct (blockNumber h) as [number|]; [|done]. cbn [mbind outcome_bind].
  destruct (umod number epoch) as [m|]; [|done]. cbn [mbind outcome_bind].
  replace (if m =? 0 then resetVotes (with_Head n x s) else with_Head n x s)
    with (with_Head n x (if m =? 0 then resetVotes s else s)) by (by case_if).
  rewrite forgetRecent_reheaded. set (s1 := forgetRecent number _).
  destruct (ecrecover Ecrecover h) as [[signer|]|]; [|done..]. cbn [mbind outcome_bind].
  change (Signers (with_Head n x s1)) with (Signers s1).
  change (recentlySigned signer (with_Head n x s1)) with (recentlySigned signer s1).
  case_if; [done|]. case_if; [done|]. destruct (voteOf h); [|done]. cbn [reheaded].
  change (with_Recents (<[number := signer]> (Recents (with_Head n x s1))) (with_Head n x s1))
    with (with_Head n x (with_Recents (<[number := signer]> (Recents s1)) s1)).
  by rewrite countVote_reheaded.
Qed.

Lemma applyHeaders_reheaded n x epoch headers s :
  applyHeaders Ecrecover epoch headers (with_Head n x s) = reheaded n x (applyHeaders Ecrecover epoch headers s).
Proof.
  revert s. induction headers as [|h rest IH]; intros s; [done|]. cbn [applyHeaders].
  rewrite applyHeader_reheaded. destruct (applyHeader Ecrecover epoch h s) as [[s1|]|]; [|done..]. apply IH.
Qed.

Lemma applyHeaders_app epoch h1 h2 s :
  applyHeaders Ecrecover epoch (h1 ++ h2) s =
  match applyHeaders Ecrecover epoch h1 s with
  | Ret (inl s1) => applyHeaders Ecrecover epoch h2 s1
  | r => r
  end.
Proof.
  revert s. induction h1 as [|h rest IH]; intros s; [done|]. cbn [applyHeaders app].
  destruct (applyHeader Ecrecover epoch h s) as [[s1|]|]; [|done..]. apply IH.
Qed.

(** ** Applying headers in parts *)

Lemma numbered_consecutive n headers : 0 <= n -> n + len headers < two64 -> numbered n headers ->
  consecutive headers = Ret true.
Proof.
  revert n. induction headers as [|h1 [|h2 rest] IH]; intros n H0 Hn Hnum; [done..|].
  destruct Hnum as [E1 Hnum]. rewrite len_cons in Hn. pose proof (len_nonneg (h2 :: rest)).
  assert (Hc : consecutive (h2 :: rest) = Ret true) by (apply (IH (n + 1)); [lia..|done]).
  destruct Hnum as [E2 _].
  change (consecutive (h1 :: h2 :: rest)) with
    (n2 ← blockNumber h2; n1 ← blockNumber h1;
     if negb (n2 =? n1 +! 1) then Ret false else consecutive (h2 :: rest)).
  rewrite Hc, E1, E2. cbn [mbind outcome_bind].
  rewrite len_cons in Hn. pose proof (len_nonneg rest). rewrite wrap64_small by (unfold_u64; lia).
  by rewrite Z.eqb_refl.
Qed.

(** [apply] of numbered headers is the loop, and the head set. *)
Lemma apply_numbered s h0 rest hash : 0 <= snap_Number s -> snap_Number s + len (h0 :: rest) < two64 ->
  numbered (snap_Number s) (h0 :: rest) -> Header_Hash (List.last (h0 :: rest) h0) = Ret hash ->
  apply Ecrecover s (h0 :: rest) =
  reheaded (snap_Number s + len (h0 :: rest)) hash (applyHeaders Ecrecover (Epoch (snap_config s)) (h0 :: rest) s).
Proof.
  intros H0 Hn Hnum Hh. unfold apply. rewrite (numbered_consecutive (snap_Number s)) by done.
  cbn [mbind outcome_bind negb]. destruct Hnum as [-> _]. cbn [mbind outcome_bind].
  rewrite len_cons in Hn. pose proof (len_nonneg rest).
  rewrite (wrap64_small (snap_Number s + 1)) by (unfold_u64; lia). rewrite Z.eqb_refl. cbn [negb].
  destruct (applyHeaders _ _ _ _) as [[snap|]|]; [|done..]. cbn [mbind outcome_bind]. rewrite Hh.
  cbn [mbind outcome_bind reheaded]. rewrite wrap64_small; [done|]. rewrite len_cons. unfold_u64; lia.
Qed.

Lemma numbered_app n h1 h2 : numbered n (h1 ++ h2) <-> numbered n h1 /\ numbered (n + len h1) h2.
Proof.
  revert n. induction h1 as [|h rest IH]; intros n; cbn [app numbered].
  - rewrite len_nil, Z.add_0_r. tauto.
  - rewrite IH, len_cons. replace (n + 1 + len rest) with (n + (len rest + 1)) by lia. tauto.
Qed.

Lemma applyHeaders_head epoch n headers s s' : 0 <= n -> n + len headers < two64 -> snap_ok n s ->
  numbered n headers -> applyHeaders Ecrecover epoch headers s = Ret (inl s') -> same_head s s'.
Proof. intros H0 Hn Hs Hnum E. by destruct (applyHeaders_ok Ecrecover epoch n headers s s' H0 Hn Hs Hnum E). Qed.

Lemma last_app_cons {A} (l : list A) x r d d' : List.last (l ++ x :: r) d = List.last (x :: r) d'.
Proof.
  induction l as [|y l IH]; cbn [app].
  - revert x. induction r as [|z r IH]; intros x; [done|]. apply (IH z).
  - rewrite <- IH. by destruct l.
Qed.

(** Applying some headers and then the others is applying them all. *)
Lemma apply_app s h1 h2 : 0 <= snap_Number s -> snap_Number s + len (h1 ++ h2) < two64 ->
  snap_ok (snap_Number s) s -> numbered (snap_Number s) (h1 ++ h2) ->
  Forall (fun h => exists x, Header_Hash h = Ret x) (h1 ++ h2) ->
  apply Ecrecover s (h1 ++ h2) =
  match apply Ecrecover s h1 with Ret (inl s1) => apply Ecrecover s1 h2 | r => r end.
Proof.
  intros H0 Hn Hs Hnum Hh. destruct h2 as [|b h2].
  { rewrite app_nil_r. destruct (apply Ecrecover s h1) as [[|]|]; done. }
  destruct h1 as [|a h1]; [done|].
  pose proof Hnum as Hnum'. apply numbered_app in Hnum' as [Hnum1 Hnum2]. rewrite len_app in Hn.
  pose proof (len_nonneg (a :: h1)). pose proof (len_nonneg (b :: h2)).
  assert (Hlast : forall l, l <> [] -> (forall h, h ∈ l -> h ∈ (a :: h1) ++ b :: h2) -> exists x, Header_Hash (List.last l a) = Ret x).
  { intros l Hl Hin. rewrite Forall_forall in Hh. apply Hh, Hin.
    destruct l as [|y l]; [done|]. apply list_elem_of_In. destruct (exists_last Hl) as (l' & z & E).
    rewrite E, last_last. apply in_app_iff. right. by left. }
  destruct (Hlast (a :: h1)) as [x1 Hx1]; [done|intros h Hin; apply elem_of_app; by left|].
  destruct (Hlast ((a :: h1) ++ b :: h2)) as [x2 Hx2]; [done|done|].
  cbn [app] in Hnum, Hx2 |- *. rewrite (apply_numbered s a (h1 ++ b :: h2) x2); [|done| |done|done].
  2: { change (a :: h1 ++ b :: h2) with ((a :: h1) ++ b :: h2). rewrite len_app. lia. }
  rewrite (apply_numbered s a h1 x1) by (done || lia).
  change (a :: h1 ++ b :: h2) with ((a :: h1) ++ b :: h2). rewrite applyHeaders_app.
  destruct (applyHeaders Ecrecover (Epoch (snap_config s)) (a :: h1) s) as [[s1|]|] eqn:E1; [|done..].
  cbn [reheaded].
  assert (Hc1 : same_head s s1) by (apply (applyHeaders_head _ (snap_Number s) _ s s1) in E1; [done..|lia|done|done]).
  destruct Hc1 as (Hc1 & _).
  rewrite (apply_numbered (with_Head (snap_Number s + len (a :: h1)) x1 s1) b h2 x2); cbn [snap_Number with_Head].
  - rewrite applyHeaders_reheaded. cbn [snap_config with_Head]. rewrite Hc1, len_app.
    destruct (applyHeaders _ _ (b :: h2) s1) as [[s2|]|]; [|done..]. cbn [reheaded]. by rewrite Z.add_assoc.
  - lia.
  - lia.
  - done.
  - rewrite <- Hx2. f_equal. symmetry. apply (last_app_cons (a :: h1)).
Qed.

(** ** A chain and its snapshots *)

(** The headers [i], ..., [k-1]. *)
Definition seg (hs : list Header) (i k : nat) : list Header := take (k - i) (drop i hs).

Lemma seg_nil hs i k : (k <= i)%nat -> seg hs i k = [].
Proof. intros. unfold seg. by replace (k - i)%nat with 0%nat by lia. Qed.
Lemma seg_cons hs i k h : hs !! i = Some h -> (i < k)%nat -> seg hs i k = h :: seg hs (S i) k.
Proof.
  intros Hi Hk. unfold seg. rewrite (drop_S _ _ _ Hi). by replace (k - i)%nat with (S (k - S i)) by lia.
Qed.
Lemma seg_snoc hs i k h : hs !! k = Some h -> (i <= k)%nat -> seg hs i (S k) = seg hs i k ++ [h].
Proof.
  intros Hk Hi. unfold seg. replace (S k - i)%nat with (S (k - i)) by lia.
  erewrite take_S_r; [done|]. rewrite lookup_drop. by replace (i + (k - i))%nat with k by lia.
Qed.
Lemma seg_app hs i j k : (i <= j <= k)%nat -> (k <= length hs)%nat -> seg hs i k = seg hs i j ++ seg hs j k.
Proof.
  intros Hij Hk. unfold seg. replace (k - i)%nat with (j - i + (k - j))%nat by lia.
  rewrite <- take_take_drop, drop_drop. by replace (i + (j - i))%nat with j by lia.
Qed.
Lemma seg_len hs i k : (i <= k <= length hs)%nat -> len (seg hs i k) = Z.of_nat (k - i).
Proof. intros. unfold len, seg. rewrite length_take, length_drop. lia. Qed.
Lemma seg_elem hs i k h : h ∈ seg hs i k -> exists j, (i <= j < k)%nat /\ hs !! j = Some h.
Proof.
  intros [j Hj]%list_elem_of_lookup_1. unfold seg in Hj. apply lookup_take_Some in Hj as [Hj Hlt].
  rewrite lookup_drop in Hj. exists (i + j)%nat. split; [lia|done].
Qed.

Context (chain : Chain) (conf : CliqueConfig) (hs : list Header) (hash : nat -> Hash) (base : nat) (sgs : list Address).

(** [hs] are the headers of a chain, the genesis block first, that is not longer than the blocks a
    reorganisation may reach; the first [base] of them are in the database, [hash] are their
    hashes, which are different. *)
Record chain_ok : Prop := {
  ch_len : Z.of_nat (length hs) <= FullImmutabilityThreshold + 1;
  ch_base : (1 <= base <= length hs)%nat;
  ch_number k h : hs !! k = Some h -> blockNumber h = Ret (Z.of_nat k);
  ch_hash k h : hs !! k = Some h -> Header_Hash h = Ret (hash k);
  ch_parent k h : hs !! S k = Some h -> hd_ParentHash h = hash k;
  ch_inj j k : (j < length hs)%nat -> (k < length hs)%nat -> hash j = hash k -> j = k;
  ch_get k h : hs !! k = Some h -> (k < base)%nat -> GetHeader chain (hash k) (Z.of_nat k) = Some h;
  ch_byNumber k h : hs !! k = Some h ->
    GetHeaderByNumber chain (Z.of_nat k) = if (k <? base)%nat then Some h else None;
  ch_genesis h : hs !! 0%nat = Some h -> checkpointSigners (hd_Extra h) = Ret sgs;
  ch_epoch : Epoch conf <> 0;
}.

(** The snapshot of the genesis block, and of block [k]. *)
Definition genesisSnapshot : Snapshot := newSnapshot conf 0 (hash 0) sgs.
Definition snapAt (k : nat) : Outcome (Snapshot + cliqueerror) :=
  apply Ecrecover genesisSnapshot (seg hs 1 (S k)).

(** The caches hold snapshots of the chain. *)
Record engine_ok (c : Engine) : Prop := {
  eng_config : config c = conf;
  eng_lru : LRU.lru_ok (recents c);
  eng_recents k s : (k < length hs)%nat -> LRU.Peek (hash k) (recents c) = Some s -> snapAt k = Ret (inl s);
  eng_db k s : (k < length hs)%nat -> db c !! hash k = Some s -> snapAt k = Ret (inl s);
}.

Section facts.
Context (Hc : chain_ok).

Lemma numbered_seg i k : (i <= k <= length hs)%nat -> (0 < i)%nat -> numbered (Z.of_nat i - 1) (seg hs i k).
Proof using Hc.
  intros Hik Hi. remember (k - i)%nat as d eqn:Ed. revert i Hik Hi Ed. induction d as [|d IH]; intros i Hik Hi Ed.
  - rewrite seg_nil by lia. done.
  - destruct (lookup_lt_is_Some_2 hs i) as [h Hh]; [lia|]. rewrite (seg_cons _ _ _ h) by (done || lia).
    cbn [numbered]. rewrite (ch_number Hc i h Hh). split; [f_equal; lia|].
    replace (Z.of_nat i - 1 + 1) with (Z.of_nat (S i) - 1) by lia. apply IH; lia.
Qed.

Lemma hashed_seg i k : Forall (fun h => exists x, Header_Hash h = Ret x) (seg hs i k).
Proof using Hc.
  apply Forall_forall. intros h (j & _ & Hj)%seg_elem. exists (hash j). by apply (ch_hash Hc).
Qed.

Lemma small : forall k, (k <= length hs)%nat -> 0 + Z.of_nat k < two64.
Proof using Hc. intros k Hk. pose proof (ch_len Hc). unfold FullImmutabilityThreshold, two64 in *. lia. Qed.

Lemma last_seg i k h : (i <= k)%nat -> hs !! k = Some h -> List.last (seg hs i (S k)) h = h.
Proof. intros Hi Hk. rewrite (seg_snoc _ _ _ h) by done. apply last_last. Qed.

Lemma snapAt_head k s : (k < length hs)%nat -> snapAt k = Ret (inl s) ->
  snap_ok (Z.of_nat k) s /\ snap_Number s = Z.of_nat k /\ snap_Hash s = hash k /\ snap_config s = conf.
Proof using Hc.
  intros Hk E. unfold snapAt in E. pose proof (small (S k) Hk).
  destruct (apply_ok Ecrecover genesisSnapshot (seg hs 1 (S k)) s) as (Hs & Hn & Hcf);
    [done|rewrite seg_len by lia; cbn; lia|apply newSnapshot_ok|done|].
  rewrite seg_len in Hn by lia. cbn in Hn. replace (k - 0)%nat with k in Hn by lia. rewrite Hn in Hs.
  split_and!; [done|done| |done].
  destruct k as [|k].
  - rewrite seg_nil in E by lia. injection E as <-. done.
  - destruct (lookup_lt_is_Some_2 hs (S k)) as [h Hh]; [lia|].
    assert (Hne : seg hs 1 (S (S k)) <> []).
    { rewrite (seg_snoc _ _ _ h) by (done || lia). by destruct (seg hs 1 (S k)). }
    destruct (apply_inv Ecrecover _ _ _ Hne E) as (snap & x & h0 & rest & El & _ & _ & _ & Hx & ->).
    assert (El' : List.last (seg hs 1 (S (S k))) h0 = h).
    { rewrite (seg_snoc _ _ _ h) by (done || lia). apply last_last. }
    rewrite El', (ch_hash Hc _ _ Hh) in Hx. by injection Hx as ->.
Qed.

(** From the snapshot of block [i], the headers up to [k] lead to that of block [k]. *)
Lemma snapAt_from i k s : (i <= k < length hs)%nat -> snapAt i = Ret (inl s) ->
  apply Ecrecover s (seg hs (S i) (S k)) = snapAt k.
Proof using Hc.
  intros Hik E. unfold snapAt in *. pose proof (small (S k) ltac:(lia)).
  rewrite (seg_app hs 1 (S i) (S k)) by lia. rewrite apply_app.
  - by rewrite E.
  - done.
  - rewrite <- seg_app, seg_len by lia. cbn. lia.
  - apply newSnapshot_ok.
  - rewrite <- seg_app by lia. apply (numbered_seg 1); lia.
  - rewrite <- seg_app by lia. apply hashed_seg.
Qed.

(** ** The search *)

Lemma lastParent_seg k h : hs !! k = Some h -> (base <= k)%nat ->
  lastParent (seg hs base (S k)) = Some (h, seg hs base k).
Proof.
  intros Hh Hk. rewrite (seg_snoc _ _ _ h) by done. unfold lastParent.
  rewrite last_snoc, length_app. cbn [length].
  replace (length (seg hs base k) + 1 - 1)%nat with (length (seg hs base k)) by lia.
  by rewrite take_app_length.
Qed.

(** Where the walk goes on: the header of block [k], from the parents given or from the database. *)
Lemma next_header k h : hs !! k = Some h ->
  match lastParent (seg hs base (S k)) with
  | Some (h', parents) => h' = h /\ parents = seg hs base k
  | None => GetHeader chain (hash k) (Z.of_nat k) = Some h /\ [] = seg hs base k
  end.
Proof using Hc.
  intros Hh. destruct (decide (base <= k)%nat) as [Hk|Hk].
  - by rewrite (lastParent_seg k h).
  - rewrite seg_nil by lia. cbn. rewrite seg_nil by lia. split; [|done]. apply (ch_get Hc); [done|lia].
Qed.

(** No checkpoint but the genesis block is trusted. *)
Lemma untrusted k h (atEpoch : bool) (acc : list Header) : hs !! S k = Some h -> len acc <= FullImmutabilityThreshold ->
  (if (Z.of_nat (S k) =? 0) || atEpoch && ((FullImmutabilityThreshold <? len acc)
        || negb (present (GetHeaderByNumber chain (Z.of_nat (S k) -! 1))))
   then GetHeaderByNumber chain (Z.of_nat (S k)) else None) = None.
Proof using Hc.
  intros Hh Ha. rewrite (proj2 (Z.eqb_neq (Z.of_nat (S k)) 0)) by lia. rewrite (proj2 (Z.ltb_ge _ _) Ha).
  pose proof (lookup_lt_Some _ _ _ Hh). pose proof (small (S k) ltac:(lia)).
  rewrite wrap64_small by (unfold_u64; lia). replace (Z.of_nat (S k) - 1) with (Z.of_nat k) by lia.
  destruct (lookup_lt_is_Some_2 hs k) as [h' Hh']; [lia|].
  rewrite (ch_byNumber Hc k h' Hh'), (ch_byNumber Hc (S k) h Hh).
  destruct (Nat.ltb_spec k base), (Nat.ltb_spec (S k) base); try lia; by destruct atEpoch.
Qed.

Lemma snapAt_0 : snapAt 0 = Ret (inl genesisSnapshot).
Proof. unfold snapAt. by rewrite seg_nil. Qed.

Lemma with_recents_same c : with_recents (recents c) c = c.
Proof. by destruct c. Qed.

Lemma engine_ok_recents c l : engine_ok c -> LRU.lru_ok l ->
  (forall k s, (k < length hs)%nat -> LRU.Peek (hash k) l = Some s -> snapAt k = Ret (inl s)) ->
  engine_ok (with_recents l c).
Proof. intros [H1 H2 H3 H4] Hl Hp. by split. Qed.

Lemma engine_ok_store c k s : engine_ok c -> (k < length hs)%nat -> snapAt k = Ret (inl s) ->
  engine_ok (with_db (<[snap_Hash s := s]> (db c)) c).
Proof using Hc.
  intros [H1 H2 H3 H4] Hk Hs. split; [done..|]. cbn. intros j s' Hj.
  destruct (snapAt_head k s Hk Hs) as (_ & _ & -> & _).
  intros [[E <-]|[Hne Hl]]%lookup_insert_Some.
  - by rewrite <- (ch_inj Hc k j Hk Hj E).
  - by apply H4.
Qed.

Lemma loadSnapshot_ok c k s : engine_ok c -> (k < length hs)%nat -> loadSnapshot c (hash k) = Some s ->
  snapAt k = Ret (inl s).
Proof using Hc.
  intros [H1 _ _ H4] Hk E. unfold loadSnapshot in E. destruct (db c !! hash k) as [s0|] eqn:Ed; [|done].
  cbn in E. injection E as <-. pose proof (H4 k s0 Hk Ed) as Hs.
  destruct (snapAt_head k s0 Hk Hs) as (_ & _ & _ & Hcf). rewrite H1, <- Hcf. rewrite Hs. by destruct s0.
Qed.

(** What the search finds for block [k]: the snapshot of a block [i] before it, the headers in
    between added to [acc]. *)
Definition found (n k : nat) (r : Outcome (((Snapshot * list Header) + cliqueerror) * Engine)) : Prop :=
  exists i s headers c', (i <= k)%nat /\ r = Ret (inl (s, headers), c') /\ snapAt i = Ret (inl s) /\
    rev headers = seg hs (S i) (S n) /\ engine_ok c'.

Lemma useRecent_ok c k : engine_ok c -> (k < length hs)%nat ->
  exists r c', useRecent (hash k) c = Ret (r, c') /\ engine_ok c' /\
    match r with Some s => snapAt k = Ret (inl s) | None => True end.
Proof.
  intros Hok Hk. unfold useRecent. pose proof (LRU.Get_ok (hash k) (recents c) (eng_lru c Hok)) as Hg.
  destruct (LRU.Get (hash k) (recents c)) as [r l] eqn:E. cbn in Hg. exists r, (with_recents l c).
  assert (Hp : forall x, LRU.Peek x l = LRU.Peek x (recents c)).
  { intros x. unfold LRU.Get in E. unfold LRU.Peek. destruct (LRU.lru_items (recents c) !! hash k); by injection E as <- <-. }
  split; [done|]. split.
  - apply engine_ok_recents; [done..|]. intros j s Hj. rewrite Hp. by apply (eng_recents c Hok).
  - destruct r as [s|]; [|done]. apply (eng_recents c Hok k s Hk). unfold LRU.Get in E. unfold LRU.Peek.
    destruct (LRU.lru_items (recents c) !! hash k); [|done]. by injection E as ->.
Qed.

(** The genesis block is always found. *)
Lemma find_genesis n fuel acc c : (n < length hs)%nat -> rev acc = seg hs 1 (S n) -> engine_ok c ->
  found n 0 (findSnapshot fuel chain 0 (hash 0) (seg hs base 1) acc c).
Proof using Hc.
  intros Hn Hacc Hok. assert (Hlen : (0 < length hs)%nat) by lia.
  destruct (useRecent_ok c 0 Hok Hlen) as (r & c1 & E1 & Hok1 & Hr).
  assert (Hdone : forall s, snapAt 0 = Ret (inl s) -> found n 0 (Ret (inl (s, acc), c1))).
  { intros s Hs. by exists 0%nat, s, acc, c1. }
  assert (Ef : findSnapshot fuel chain 0 (hash 0) (seg hs base 1) acc c =
    match r with Some s => Ret (inl (s, acc), c1) | None =>
      match loadSnapshot c1 (hash 0) with Some s => Ret (inl (s, acc), c1) | None =>
        Ret (inl (genesisSnapshot, acc), with_db (<[hash 0 := genesisSnapshot]> (db c1)) c1) end end).
  { destruct (lookup_lt_is_Some_2 hs 0) as [h0 Hh0]; [done|].
    assert (Eg : GetHeaderByNumber chain 0 = Some h0).
    { pose proof (ch_byNumber Hc 0 h0 Hh0) as E. pose proof (ch_base Hc).
      by rewrite (proj2 (Nat.ltb_lt 0 base)) in E by lia. }
    destruct fuel; cbn [findSnapshot]; unfold mbind, st_bind; rewrite E1; (destruct r as [s|]; [done|]);
      cbn [st_get Z.modulo Z.div_eucl]; (destruct (loadSnapshot c1 (hash 0)) as [s|]; [done|]);
      unfold umod, st_lift; rewrite (eng_config c1 Hok1), (proj2 (Z.eqb_neq _ _) (ch_epoch Hc));
      cbn [mbind outcome_bind orb Z.eqb]; rewrite Eg; cbv beta iota;
      rewrite (ch_hash Hc 0 h0 Hh0), (ch_genesis Hc h0 Hh0); done. }
  rewrite Ef. destruct r as [s|]; [by apply Hdone|].
  destruct (loadSnapshot c1 (hash 0)) as [s|] eqn:El; [by apply Hdone, (loadSnapshot_ok c1)|].
  eexists 0%nat, genesisSnapshot, acc, _. split_and!; [done|done|apply snapAt_0|done|].
  apply (engine_ok_store c1 0 genesisSnapshot); [done..|apply snapAt_0].
Qed.

(** One step of the walk back. *)
Lemma find_step n k fuel acc c h : (n < length hs)%nat -> (S k <= n)%nat -> hs !! S k = Some h ->
  rev acc = seg hs (S (S k)) (S n) -> engine_ok c ->
  (forall c', engine_ok c' ->
    found n k (findSnapshot fuel chain (Z.of_nat k) (hash k) (seg hs base (S k)) (acc ++ [h]) c')) ->
  found n (S k) (findSnapshot (S fuel) chain (Z.of_nat (S k)) (hash (S k)) (seg hs base (S (S k))) acc c).
Proof using Hc.
  intros Hn Hk Hh Hacc Hok IH. pose proof (lookup_lt_Some _ _ _ Hh) as Hlt. pose proof (small (S k) ltac:(lia)).
  destruct (useRecent_ok c (S k) Hok Hlt) as (r & c1 & E1 & Hok1 & Hr).
  assert (Hdone : forall s, snapAt (S k) = Ret (inl s) -> found n (S k) (Ret (inl (s, acc), c1))).
  { intros s Hs. by exists (S k), s, acc, c1. }
  assert (Hacc' : len acc <= FullImmutabilityThreshold).
  { pose proof (ch_len Hc). replace (len acc) with (len (rev acc)) by (unfold len; by rewrite length_rev).
    rewrite Hacc, seg_len by lia. lia. }
  cbn [findSnapshot]. unfold mbind, st_bind. rewrite E1. destruct r as [s|]; [by apply Hdone|]. cbn [st_get].
  destruct (if Z.of_nat (S k) mod checkpointInterval =? 0 then loadSnapshot c1 (hash (S k)) else None) as [s|] eqn:El.
  { apply Hdone. apply (loadSnapshot_ok c1); [done|lia|]. by destruct (Z.of_nat (S k) mod checkpointInterval =? 0). }
  unfold umod, st_lift. rewrite (eng_config c1 Hok1), (proj2 (Z.eqb_neq _ _) (ch_epoch Hc)).
  cbn [mbind outcome_bind]. rewrite (untrusted k h) by done.
  assert (Hnext : found n (S k) (findSnapshot fuel chain (Z.of_nat (S k) -! 1) (hash k) (seg hs base (S k)) (acc ++ [h]) c1)).
  { rewrite wrap64_small by (unfold_u64; lia). replace (Z.of_nat (S k) - 1) with (Z.of_nat k) by lia.
    destruct (IH c1 Hok1) as (i & s & headers & c' & Hi & Hf). exists i, s, headers, c'. split; [lia|done]. }
  pose proof (next_header (S k) h Hh) as Hnx. destruct (lastParent (seg hs base (S (S k)))) as [[h' parents]|].
  - destruct Hnx as [-> ->]. rewrite (ch_hash Hc _ _ Hh), (ch_number Hc _ _ Hh), !Z.eqb_refl. cbn [negb orb].
    by rewrite (ch_parent Hc k h Hh).
  - destruct Hnx as [-> Hp]. rewrite (ch_parent Hc k h Hh). by rewrite <- Hp in Hnext.
Qed.

Lemma findSnapshot_ok n k fuel acc c : (n < length hs)%nat -> (k <= n)%nat -> (k <= fuel)%nat ->
  rev acc = seg hs (S k) (S n) -> engine_ok c ->
  found n k (findSnapshot fuel chain (Z.of_nat k) (hash k) (seg hs base (S k)) acc c).
Proof using Hc.
  intros Hn. revert fuel acc c. induction k as [|k IH]; intros fuel acc c Hk Hf Hacc Hok.
  { by apply find_genesis. }
  destruct fuel as [|fuel]; [lia|]. destruct (lookup_lt_is_Some_2 hs (S k)) as [h Hh]; [lia|].
  apply (find_step n k fuel acc c h); try done. intros c' Hok'. apply IH; [lia|lia| |done].
  rewrite rev_app_distr. cbn [rev app]. rewrite Hacc. symmetry. apply seg_cons; [done|lia].
Qed.

(** ** The snapshot *)

Lemma addRecent_ok c k s : engine_ok c -> (k < length hs)%nat -> snapAt k = Ret (inl s) ->
  exists c', addRecent s c = Ret (tt, c') /\ engine_ok c'.
Proof using Hc.
  intros Hok Hk Hs. unfold addRecent.
  destruct (LRU.Add_ok (snap_Hash s) s (recents c) (eng_lru c Hok)) as (ev & l & -> & [Hl Hv _ _ Ho]).
  exists (with_recents l c). split; [done|]. apply engine_ok_recents; [done..|].
  destruct (snapAt_head k s Hk Hs) as (_ & _ & Hh & _). rewrite Hh in *.
  intros j s' Hj Hp. destruct (decide (j = k)) as [->|Hne].
  - rewrite Hv in Hp. by injection Hp as ->.
  - destruct (Ho (hash j)) as [E|(_ & _ & E)].
    + intros E. by apply Hne, (ch_inj Hc).
    + rewrite E in Hp. by apply (eng_recents c Hok).
    + by rewrite E in Hp.
Qed.

Lemma snapshot_ok k fuel c : (k < length hs)%nat -> (k <= fuel)%nat -> engine_ok c ->
  match snapAt k with
  | Ret r => exists c', snapshot Ecrecover fuel chain (Z.of_nat k) (hash k) (seg hs base (S k)) c = Ret (r, c') /\ engine_ok c'
  | Fail e => snapshot Ecrecover fuel chain (Z.of_nat k) (hash k) (seg hs base (S k)) c = Fail e
  end.
Proof using Hc.
  intros Hk Hf Hok.
  destruct (findSnapshot_ok k k fuel [] c) as (i & s & headers & c1 & Hi & Ef & Hs & Hrev & Hok1); [done..| |done|].
  { rewrite seg_nil by lia. done. }
  set (run := snapshot _ _ _ _ _ _ c).
  assert (Erun : run = match snapAt k with
    | Ret (inl snap) =>
        (addRecent snap;;
         (if (snap_Number snap mod checkpointInterval =? 0) && (0 <? len headers) then store snap else mret tt);;
         mret (inl snap)) c1
    | Ret (inr e) => Ret (inr e, c1)
    | Fail e => Fail e
    end).
  { unfold run, snapshot, mbind at 1, st_bind at 1. rewrite Ef. unfold mbind at 1, st_bind at 1.
    rewrite Hrev, (snapAt_from i k s) by (done || lia). by destruct (snapAt k) as [[snap|e]|e]. }
  rewrite Erun. destruct (snapAt k) as [[snap|e]|e] eqn:E; [|by exists c1|done].
  destruct (addRecent_ok c1 k snap Hok1 Hk E) as (c2 & E2 & Hok2).
  unfold mbind, st_bind. rewrite E2. unfold store, st_modify.
  case_if; [|by exists c2]. eexists. split; [done|]. by apply (engine_ok_store c2 k).
Qed.
End facts.

(** C28 Snapshots refine the chain: for every block of a chain, [snapshot] returns what applying all
    the headers since the genesis block gives (the snapshot, or the error), whether it starts from
    the memory cache, from the database or from the genesis block, and whether the newest headers
    are passed along or stored; the caches it leaves hold snapshots of the chain again.  As many
    turns as the number of the block are enough. *)
Theorem snapshot_refines_chain (k fuel : nat) (c : Engine) :
  chain_ok -> (k < length hs)%nat -> (k <= fuel)%nat -> engine_ok c ->
  match snapAt k with
  | Ret r => exists c',
      snapshot Ecrecover fuel chain (Z.of_nat k) (hash k) (seg hs base (S k)) c = Ret (r, c') /\ engine_ok c'
  | Fail e => snapshot Ecrecover fuel chain (Z.of_nat k) (hash k) (seg hs base (S k)) c = Fail e
  end.
Proof. intros Hc. by apply snapshot_ok. Qed.

(** ** Verified headers *)

Lemma verifyStandalone_vote conf' cfg now h : verifyStandalone conf' cfg now h = Ret None -> is_Some (voteOf h).
Proof.
  unfold verifyStandalone, voteOf. destruct (hd_Number h); [|done]. case_if; [done|].
  destruct (umod _ _); [|done]. cbn [mbind outcome_bind]. intros [= E].
  destruct (hd_Nonce h =? nonceAuthVote); [by eexists|]. destruct (hd_Nonce h =? nonceDropVote); [by eexists|].
  destruct (_ && negb (hd_Coinbase h =? 0)); discriminate E.
Qed.

(** A header that [verifyCascadingFields] accepts on top of the chain passed [verifySeal] with the
    snapshot of the last block. *)
Lemma verifyCascadingFields_inv n fuel h c c' : chain_ok -> base = length hs -> length hs = S n -> (n <= fuel)%nat ->
  engine_ok c -> blockNumber h = Ret (Z.of_nat (S n)) -> hd_ParentHash h = hash n ->
  verifyCascadingFields Ecrecover fuel chain h [] c = Ret (None, c') ->
  exists s c1, snapAt n = Ret (inl s) /\ engine_ok c1 /\ verifySeal Ecrecover s h c1 = Ret (None, c').
Proof.
  intros Hc Hbase Hlen Hf Hok Hb Hp. unfold verifyCascadingFields, mbind, st_bind. rewrite Hb. cbn [st_lift last].
  pose proof (small Hc (S n) ltac:(lia)).
  rewrite (proj2 (Z.eqb_neq (Z.of_nat (S n)) 0)) by lia. rewrite wrap64_small by (unfold_u64; lia).
  replace (Z.of_nat (S n) - 1) with (Z.of_nat n) by lia. rewrite Hp.
  destruct (lookup_lt_is_Some_2 hs n) as [parent Hpar]; [lia|].
  rewrite (ch_get Hc n parent Hpar), (ch_number Hc n parent Hpar), (ch_hash Hc n parent Hpar) by lia.
  cbn [st_lift st_get]. rewrite !Z.eqb_refl. cbn [negb orb]. case_if; [done|]. case_if; [done|].
  destruct (verifyFees _ _ _) as [[e|]|]; cbn [st_lift]; [done| |done].
  pose proof (snapshot_ok Hc n fuel c ltac:(lia) Hf Hok) as Hs. rewrite seg_nil in Hs by lia.
  destruct (snapAt n) as [[s|e]|e]; [|by destruct Hs as (c1 & -> & _)|by rewrite Hs].
  destruct Hs as (c1 & -> & Hok1). unfold st_lift.
  destruct (umod _ _) as [m|]; [|done]. destruct (m =? 0).
  - destruct (slice _ _ _) as [l|]; [|done]. unfold outcome_bind. case_bool_decide; [|done]. cbn [negb].
    intros E. by exists s, c1.
  - cbn [negb]. intros E. by exists s, c1.
Qed.

(** C29 A verified header extends the chain: if [VerifyHeader] accepts a header on top of a chain the
    database holds, then, from block [len(signers)/2 + 1] on, the voting accepts it too: the chain
    with this header has a snapshot.  Only the caches of the engine change, and they still hold
    snapshots of the chain. *)
Theorem verified_header_extends_chain (n fuel : nat) (now : Z) (h : Header) (x : Hash) (c c' : Engine) :
  chain_ok -> base = length hs -> length hs = S n -> (n <= fuel)%nat -> engine_ok c ->
  blockNumber h = Ret (Z.of_nat (S n)) -> hd_ParentHash h = hash n -> Header_Hash h = Ret x ->
  VerifyHeader Ecrecover fuel now chain h c = Ret (None, c') ->
  engine_ok c' /\
  exists s, snapAt n = Ret (inl s) /\
    (recentLimit s <= Z.of_nat (S n) -> exists s', apply Ecrecover s [h] = Ret (inl s')).
Proof.
  intros Hc Hbase Hlen Hf Hok Hb Hp Hx. unfold VerifyHeader, verifyHeader, mbind, st_bind. cbn [st_get].
  destruct (verifyStandalone _ _ _ _) as [[e|]|] eqn:Est; cbn [st_lift]; [done| |done]. intros E.
  destruct (verifyCascadingFields_inv n fuel h c c') as (s & c1 & Hs & Hok1 & Hseal); [done..|].
  destruct (snapAt_head Hc n s ltac:(lia) Hs) as (Hsok & Hnum & _ & Hcf).
  pose proof (small Hc (S n) ltac:(lia)).
  assert (Hagree := verifySeal_agrees Ecrecover c1 (Epoch conf) (Z.of_nat n) h s).
  rewrite Hseal in Hagree. replace (Z.of_nat n + 1) with (Z.of_nat (S n)) in Hagree by lia.
  split; [by rewrite (verifySeal_state Ecrecover s h c1 _ c' Hseal)|]. exists s. split; [done|]. intros Hl.
  destruct Hagree as (_ & s' & Ha); [by apply ch_epoch|lia|lia|done..|by eapply verifyStandalone_vote|].
  exists (with_Head (Z.of_nat (S n)) x s'). rewrite (apply_numbered s h [] x); rewrite ?Hnum, ?Hcf.
  - cbn [applyHeaders]. rewrite Ha. cbn [mbind outcome_bind reheaded]. do 3 f_equal. change (len [h]) with 1. lia.
  - lia.
  - change (len [h]) with 1. lia.
  - split; [|done]. rewrite Hb. f_equal. lia.
  - done.
Qed.
End chain.
