(* ===== verification/State.v ===== *)
(** * The state database ([core/state])

    Models [statedb.go] (the methods of the EVM's [StateDB] interface, [Prepare] and [Finalise]),
    [state_object.go], [journal.go], [access_list.go] and [transient_storage.go].

    Account and storage tries, snapshots and the code store are behind the [Reader] interface of
    [reader.go], a parameter here: [None] is a read error, which the code memorizes in [dbErr]
    and answers with a nil account or a zero value.  Hashing, committing, the prefetcher, the
    witness and the metrics are not modelled.

    The code keeps pointers to state objects in [stateObjects]; no two addresses share an
    object, so a map of values with explicit write-back is the same. *)

From S2P Require Import Prelude Bytes Uint256 Params Machine VM.

(** [func Search(n int, f func(int) bool) int] of package [sort]: binary search. *)
Fixpoint sort_Search_loop (fuel : nat) (f : Z -> bool) (i j : Z) : Z :=
  match fuel with
  | O => i
  | S fuel =>
      if i <? j then
        let h := (i + j) / 2 in
        if negb (f h) then sort_Search_loop fuel f (h + 1) j else sort_Search_loop fuel f i h
      else i
  end.
Definition sort_Search (n : Z) (f : Z -> bool) : Z := sort_Search_loop (Z.to_nat n) f 0 n.

Section state.
Context `{U : Uint256} `{C : Crypto}.

(** [types.StateAccount] *)
Record StateAccount := mkAccount { Nonce : Z; Balance : word; Root : Hash; acc_CodeHash : Hash }.

Definition NewEmptyStateAccount : StateAccount :=
  mkAccount 0 wzero EmptyRootHash EmptyCodeHash.

(** The [Reader] interface. *)
Record Reader := mkReader {
  rd_Account : Address -> option (option StateAccount);
  rd_Storage : Address -> Hash -> option Hash;
  rd_Code : Address -> Hash -> option bytes;
  rd_CodeSize : Address -> Hash -> option Z;
}.

(** ** State objects ([state_object.go]) *)

Abbreviation Storage := (gmap Z Z).

Record stateObject := mkObject {
  origin : option StateAccount;
  data : StateAccount;
  code : bytes;
  originStorage : Storage;
  dirtyStorage : Storage;
  pendingStorage : Storage;
  uncommittedStorage : Storage;
  dirtyCode : bool;
  selfDestructed : bool;
  newContract : bool;
}.

Definition empty (o : stateObject) : bool :=
  (Nonce (data o) =? 0) && IsZero (Balance (data o)) && (acc_CodeHash (data o) =? EmptyCodeHash).

Definition newObject (acct : option StateAccount) : stateObject :=
  mkObject acct (default NewEmptyStateAccount acct) [] ∅ ∅ ∅ ∅ false false false.

(** Field updates. *)
Definition set_data (d : StateAccount) (o : stateObject) : stateObject :=
  mkObject (origin o) d (code o) (originStorage o) (dirtyStorage o) (pendingStorage o)
    (uncommittedStorage o) (dirtyCode o) (selfDestructed o) (newContract o).
Definition set_codeCache (c : bytes) (o : stateObject) : stateObject :=
  mkObject (origin o) (data o) c (originStorage o) (dirtyStorage o) (pendingStorage o)
    (uncommittedStorage o) (dirtyCode o) (selfDestructed o) (newContract o).
Definition set_originStorage (m : Storage) (o : stateObject) : stateObject :=
  mkObject (origin o) (data o) (code o) m (dirtyStorage o) (pendingStorage o)
    (uncommittedStorage o) (dirtyCode o) (selfDestructed o) (newContract o).
Definition set_dirtyStorage (m : Storage) (o : stateObject) : stateObject :=
  mkObject (origin o) (data o) (code o) (originStorage o) m (pendingStorage o)
    (uncommittedStorage o) (dirtyCode o) (selfDestructed o) (newContract o).
Definition set_dirtyCode (b : bool) (o : stateObject) : stateObject :=
  mkObject (origin o) (data o) (code o) (originStorage o) (dirtyStorage o) (pendingStorage o)
    (uncommittedStorage o) b (selfDestructed o) (newContract o).
Definition set_selfDestructed (b : bool) (o : stateObject) : stateObject :=
  mkObject (origin o) (data o) (code o) (originStorage o) (dirtyStorage o) (pendingStorage o)
    (uncommittedStorage o) (dirtyCode o) b (newContract o).
Definition set_newContract (b : bool) (o : stateObject) : stateObject :=
  mkObject (origin o) (data o) (code o) (originStorage o) (dirtyStorage o) (pendingStorage o)
    (uncommittedStorage o) (dirtyCode o) (selfDestructed o) b.

(** The unjournalled setters. *)
Definition setBalance (amount : word) (o : stateObject) : stateObject :=
  set_data (mkAccount (Nonce (data o)) amount (Root (data o)) (acc_CodeHash (data o))) o.
Definition setNonce (nonce : Z) (o : stateObject) : stateObject :=
  set_data (mkAccount nonce (Balance (data o)) (Root (data o)) (acc_CodeHash (data o))) o.
Definition setCode (codeHash : Hash) (c : bytes) (o : stateObject) : stateObject :=
  set_dirtyCode true (set_codeCache c
    (set_data (mkAccount (Nonce (data o)) (Balance (data o)) (Root (data o)) codeHash) o)).
Definition setState (key value origin : Hash) (o : stateObject) : stateObject :=
  if value =? origin then set_dirtyStorage (delete key (dirtyStorage o)) o
  else set_dirtyStorage (<[key := value]> (dirtyStorage o)) o.
Definition markSelfdestructed (o : stateObject) : stateObject := set_selfDestructed true o.

(** ** The access list ([access_list.go]) *)

Record accessList := mkAccessList { addresses : gmap Z Z; slots : list (gset Z) }.

Definition newAccessList : accessList := mkAccessList ∅ [].

Definition ContainsAddress (al : accessList) (address : Address) : bool :=
  bool_decide (is_Some (addresses al !! address)).

Definition Contains (al : accessList) (address : Address) (slot : Hash) : Outcome (bool * bool) :=
  match addresses al !! address with
  | None => Ret (false, false)
  | Some idx =>
      if idx =? -1 then Ret (true, false)
      else m ← index (slots al) idx; Ret (true, bool_decide (slot ∈ m))
  end.

Definition AddAddress (al : accessList) (address : Address) : bool * accessList :=
  match addresses al !! address with
  | Some _ => (false, al)
  | None => (true, mkAccessList (<[address := -1]> (addresses al)) (slots al))
  end.

Definition AddSlot (al : accessList) (address : Address) (slot : Hash)
    : Outcome (bool * bool * accessList) :=
  let fresh addrPresent :=
    Ret (negb addrPresent, true,
         mkAccessList (<[address := len (slots al)]> (addresses al)) (slots al ++ [{[slot]}])) in
  match addresses al !! address with
  | None => fresh false
  | Some idx =>
      if idx =? -1 then fresh true
      else
        slotmap ← index (slots al) idx;
        if bool_decide (slot ∈ slotmap) then Ret (false, false, al)
        else Ret (false, true,
               mkAccessList (addresses al) (<[Z.to_nat idx := {[slot]} ∪ slotmap]> (slots al)))
  end.

Definition DeleteSlot (al : accessList) (address : Address) (slot : Hash) : Outcome accessList :=
  match addresses al !! address with
  | None => Fail PanicExplicit
  | Some idx =>
      slotmap ← index (slots al) idx;
      let slotmap := slotmap ∖ {[slot]} in
      let slots' := <[Z.to_nat idx := slotmap]> (slots al) in
      if bool_decide (slotmap = ∅)
      then Ret (mkAccessList (<[address := -1]> (addresses al)) (take (Z.to_nat idx) slots'))
      else Ret (mkAccessList (addresses al) slots')
  end.

Definition DeleteAddress (al : accessList) (address : Address) : accessList :=
  mkAccessList (delete address (addresses al)) (slots al).

(** ** Transient storage ([transient_storage.go]) *)

Abbreviation transientStorage := (gmap Z Storage).

Definition transient_Set (t : transientStorage) (addr : Address) (key value : Hash)
    : transientStorage :=
  if value =? 0 then
    match t !! addr with
    | Some m =>
        let m := delete key m in
        if bool_decide (m = ∅) then delete addr t else <[addr := m]> t
    | None => t
    end
  else <[addr := <[key := value]> (default ∅ (t !! addr))]> t.

Definition transient_Get (t : transientStorage) (addr : Address) (key : Hash) : Hash :=
  match t !! addr with
  | None => 0
  | Some m => default 0 (m !! key)
  end.

(** ** The journal ([journal.go]) *)

Inductive journalEntry :=
  | createObjectChange (account : Address)
  | createContractChange (account : Address)
  | selfDestructChange (account : Address)
  | balanceChange (account : Address) (prev : word)
  | nonceChange (account : Address) (prev : Z)
  | storageChange (account : Address) (key prevvalue origvalue : Hash)
  | codeChange (account : Address) (prevCode : bytes)
  | refundChange (prev : Z)
  | addLogChange (txhash : Hash)
  | touchChange (account : Address)
  | accessListAddAccountChange (address : Address)
  | accessListAddSlotChange (address : Address) (slot : Hash)
  | transientStorageChange (account : Address) (key prevalue : Hash).

Definition dirtied (e : journalEntry) : option Address :=
  match e with
  | createObjectChange a | selfDestructChange a | touchChange a | balanceChange a _
  | nonceChange a _ | codeChange a _ | storageChange a _ _ _ => Some a
  | createContractChange _ | transientStorageChange _ _ _ | refundChange _ | addLogChange _
  | accessListAddAccountChange _ | accessListAddSlotChange _ _ => None
  end.

Record journal := mkJournal {
  entries : list journalEntry;
  dirties : gmap Z Z;
  validRevisions : list (Z * Z);     (** [revision{id, journalIndex}] *)
  nextRevisionId : Z;
}.

Definition newJournal : journal := mkJournal [] ∅ [] 0.

(** A log with the fields that [AddLog] fills in. *)
Record TxLog := mkTxLog { tl_log : Log; TxHash : Hash; TxIndex : Z; Index : Z }.

(** [mutation] of the account since the last commit: is it a deletion?  ([applied] is only
    used while committing.) *)
Abbreviation mutations_map := (gmap Z bool).

Record state := mkState {
  stateObjects : gmap Z stateObject;
  stateObjectsDestruct : gmap Z stateObject;
  mutations : mutations_map;
  dbErr : bool;
  refund : Z;
  thash : Hash;
  txIndex : Z;
  logs : gmap Z (list TxLog);
  logSize : Z;
  preimages : gmap Z bytes;
  access : accessList;
  transient : transientStorage;
  jrnl : journal;
}.

(** [New]: the state at the start of a block. *)
Definition New : state :=
  mkState ∅ ∅ ∅ false 0 0 0 ∅ 0 ∅ newAccessList ∅ newJournal.

Definition with_stateObjects (m : gmap Z stateObject) (s : state) : state :=
  mkState m (stateObjectsDestruct s) (mutations s) (dbErr s) (refund s) (thash s) (txIndex s)
    (logs s) (logSize s) (preimages s) (access s) (transient s) (jrnl s).
Definition with_stateObjectsDestruct (m : gmap Z stateObject) (s : state) : state :=
  mkState (stateObjects s) m (mutations s) (dbErr s) (refund s) (thash s) (txIndex s)
    (logs s) (logSize s) (preimages s) (access s) (transient s) (jrnl s).
Definition with_mutations (m : mutations_map) (s : state) : state :=
  mkState (stateObjects s) (stateObjectsDestruct s) m (dbErr s) (refund s) (thash s) (txIndex s)
    (logs s) (logSize s) (preimages s) (access s) (transient s) (jrnl s).
Definition with_dbErr (b : bool) (s : state) : state :=
  mkState (stateObjects s) (stateObjectsDestruct s) (mutations s) b (refund s) (thash s)
    (txIndex s) (logs s) (logSize s) (preimages s) (access s) (transient s) (jrnl s).
Definition with_refund (r : Z) (s : state) : state :=
  mkState (stateObjects s) (stateObjectsDestruct s) (mutations s) (dbErr s) r (thash s)
    (txIndex s) (logs s) (logSize s) (preimages s) (access s) (transient s) (jrnl s).
Definition with_tx (h : Hash) (i : Z) (s : state) : state :=
  mkState (stateObjects s) (stateObjectsDestruct s) (mutations s) (dbErr s) (refund s) h i
    (logs s) (logSize s) (preimages s) (access s) (transient s) (jrnl s).
Definition with_logs (l : gmap Z (list TxLog)) (n : Z) (s : state) : state :=
  mkState (stateObjects s) (stateObjectsDestruct s) (mutations s) (dbErr s) (refund s) (thash s)
    (txIndex s) l n (preimages s) (access s) (transient s) (jrnl s).
Definition with_preimages (p : gmap Z bytes) (s : state) : state :=
  mkState (stateObjects s) (stateObjectsDestruct s) (mutations s) (dbErr s) (refund s) (thash s)
    (txIndex s) (logs s) (logSize s) p (access s) (transient s) (jrnl s).
Definition with_access (al : accessList) (s : state) : state :=
  mkState (stateObjects s) (stateObjectsDestruct s) (mutations s) (dbErr s) (refund s) (thash s)
    (txIndex s) (logs s) (logSize s) (preimages s) al (transient s) (jrnl s).
Definition with_transient (t : transientStorage) (s : state) : state :=
  mkState (stateObjects s) (stateObjectsDestruct s) (mutations s) (dbErr s) (refund s) (thash s)
    (txIndex s) (logs s) (logSize s) (preimages s) (access s) t (jrnl s).
Definition with_jrnl (j : journal) (s : state) : state :=
  mkState (stateObjects s) (stateObjectsDestruct s) (mutations s) (dbErr s) (refund s) (thash s)
    (txIndex s) (logs s) (logSize s) (preimages s) (access s) (transient s) j.
End state.

(** ** Methods of [StateDB] *)

Module StateDB.
Section statedb.
Context `{U : Uint256} `{C : Crypto} (reader : Reader).

Abbreviation M := (ST state).

Definition setError : M unit := st_modify (with_dbErr true).

(** *** The journal *)

Definition incr (m : gmap Z Z) (a : Address) : gmap Z Z := <[a := default 0 (m !! a) + 1]> m.

(** [journal.append] *)
Definition append (e : journalEntry) : M unit := st_modify (fun s =>
  let j := jrnl s in
  with_jrnl (mkJournal (entries j ++ [e])
    (match dirtied e with Some a => incr (dirties j) a | None => dirties j end)
    (validRevisions j) (nextRevisionId j)) s).

(** [journal.dirty] *)
Definition dirty (a : Address) : M unit := st_modify (fun s =>
  let j := jrnl s in
  with_jrnl (mkJournal (entries j) (incr (dirties j) a) (validRevisions j) (nextRevisionId j)) s).

Definition ripemd : Address := 3.

(** [journal.touchChange] *)
Definition journal_touchChange (a : Address) : M unit :=
  append (touchChange a);;
  if a =? ripemd then dirty a else mret tt.

Definition Snapshot : M Z := fun s =>
  let j := jrnl s in
  let id := nextRevisionId j in
  Ret (id, with_jrnl (mkJournal (entries j) (dirties j)
    (validRevisions j ++ [(id, len (entries j))]) (id + 1)) s).

(** *** Objects *)

Definition setStateObject (a : Address) (o : stateObject) : M unit :=
  st_modify (fun s => with_stateObjects (<[a := o]> (stateObjects s)) s).

Definition getStateObject (a : Address) : M (option stateObject) :=
  s ← st_get;
  match stateObjects s !! a with
  | Some o => mret (Some o)
  | None =>
      match stateObjectsDestruct s !! a with
      | Some _ => mret None
      | None =>
          match rd_Account reader a with
          | None => setError;; mret None
          | Some None => mret None
          | Some (Some acct) =>
              let o := newObject (Some acct) in
              setStateObject a o;; mret (Some o)
          end
      end
  end.

Definition createObject (a : Address) : M stateObject :=
  let o := newObject None in
  append (createObjectChange a);;
  setStateObject a o;;
  mret o.

Definition getOrNewStateObject (a : Address) : M stateObject :=
  o ← getStateObject a;
  match o with Some o => mret o | None => createObject a end.

(** *** Methods of [stateObject] on the object at [a] *)

Definition obj_Code (a : Address) (o : stateObject) : M bytes :=
  if negb (len (code o) =? 0) then mret (code o)
  else if acc_CodeHash (data o) =? EmptyCodeHash then mret []
  else
    let r := rd_Code reader a (acc_CodeHash (data o)) in
    (match r with None => setError | Some _ => mret tt end);;
    let c := default [] r in
    (if len c =? 0 then setError else mret tt);;
    setStateObject a (set_codeCache c o);;
    mret c.

Definition obj_CodeSize (a : Address) (o : stateObject) : M Z :=
  if negb (len (code o) =? 0) then mret (len (code o))
  else if acc_CodeHash (data o) =? EmptyCodeHash then mret 0
  else
    let r := rd_CodeSize reader a (acc_CodeHash (data o)) in
    (match r with None => setError | Some _ => mret tt end);;
    let size := default 0 r in
    (if size =? 0 then setError else mret tt);;
    mret size.

(** The result carries the object, whose clean-storage cache may have grown. *)
Definition obj_GetCommittedState (a : Address) (o : stateObject) (key : Hash)
    : M (Hash * stateObject) :=
  match pendingStorage o !! key with
  | Some v => mret (v, o)
  | None =>
      match originStorage o !! key with
      | Some v => mret (v, o)
      | None =>
          s ← st_get;
          match stateObjectsDestruct s !! a with
          | Some _ =>
              let o := set_originStorage (<[key := 0]> (originStorage o)) o in
              setStateObject a o;; mret (0, o)
          | None =>
              match rd_Storage reader a key with
              | None => setError;; mret (0, o)
              | Some v =>
                  let o := set_originStorage (<[key := v]> (originStorage o)) o in
                  setStateObject a o;; mret (v, o)
              end
          end
      end
  end.

Definition obj_getState (a : Address) (o : stateObject) (key : Hash)
    : M (Hash * Hash * stateObject) :=
  '(origin, o) ← obj_GetCommittedState a o key;
  match dirtyStorage o !! key with
  | Some value => mret (value, origin, o)
  | None => mret (origin, origin, o)
  end.

Definition obj_SetState (a : Address) (o : stateObject) (key value : Hash) : M Hash :=
  '(prev, origin, o) ← obj_getState a o key;
  if prev =? value then mret prev
  else
    append (storageChange a key prev origin);;
    setStateObject a (setState key value origin o);;
    mret prev.

Definition obj_SetBalance (a : Address) (o : stateObject) (amount : word) : M word :=
  let prev := Balance (data o) in
  append (balanceChange a prev);;
  setStateObject a (setBalance amount o);;
  mret prev.

Definition obj_AddBalance (a : Address) (o : stateObject) (amount : word) : M word :=
  if IsZero amount then
    (if empty o then journal_touchChange a else mret tt);;
    mret (Balance (data o))
  else obj_SetBalance a o (Add (Balance (data o)) amount).

(** [prev = slices.Clone(s.code)]: the cached code, not the one [Code] would load. *)
Definition obj_SetCode (a : Address) (o : stateObject) (codeHash : Hash) (c : bytes) : M bytes :=
  let prev := code o in
  append (codeChange a prev);;
  setStateObject a (setCode codeHash c o);;
  mret prev.

Definition obj_SetNonce (a : Address) (o : stateObject) (nonce : Z) : M unit :=
  append (nonceChange a (Nonce (data o)));;
  setStateObject a (setNonce nonce o).

(** *** Getters *)

Definition Exist (a : Address) : M bool :=
  o ← getStateObject a; mret (bool_decide (is_Some o)).
Definition Empty (a : Address) : M bool :=
  o ← getStateObject a; mret (match o with None => true | Some o => empty o end).
Definition GetBalance (a : Address) : M word :=
  o ← getStateObject a; mret (match o with Some o => Balance (data o) | None => wzero end).
Definition GetNonce (a : Address) : M Z :=
  o ← getStateObject a; mret (match o with Some o => Nonce (data o) | None => 0 end).
Definition GetStorageRoot (a : Address) : M Hash :=
  o ← getStateObject a; mret (match o with Some o => Root (data o) | None => 0 end).
Definition GetCode (a : Address) : M bytes :=
  o ← getStateObject a; match o with Some o => obj_Code a o | None => mret [] end.
Definition GetCodeSize (a : Address) : M Z :=
  o ← getStateObject a; match o with Some o => obj_CodeSize a o | None => mret 0 end.
Definition GetCodeHash (a : Address) : M Hash :=
  o ← getStateObject a; mret (match o with Some o => acc_CodeHash (data o) | None => 0 end).
Definition GetState (a : Address) (key : Hash) : M Hash :=
  o ← getStateObject a;
  match o with
  | Some o => '(value, _, _) ← obj_getState a o key; mret value
  | None => mret 0
  end.
Definition GetCommittedState (a : Address) (key : Hash) : M Hash :=
  o ← getStateObject a;
  match o with
  | Some o => '(value, _) ← obj_GetCommittedState a o key; mret value
  | None => mret 0
  end.
Definition HasSelfDestructed (a : Address) : M bool :=
  o ← getStateObject a; mret (match o with Some o => selfDestructed o | None => false end).
Definition GetRefund : M Z := st_gets refund.
Definition GetTransientState (a : Address) (key : Hash) : M Hash :=
  st_gets (fun s => transient_Get (transient s) a key).
Definition AddressInAccessList (a : Address) : M bool :=
  st_gets (fun s => ContainsAddress (access s) a).
Definition SlotInAccessList (a : Address) (slot : Hash) : M (bool * bool) :=
  s ← st_get; st_lift (Contains (access s) a slot).

(** *** Setters *)

Definition AddLog (l : Log) : M unit :=
  h ← st_gets thash;
  append (addLogChange h);;
  st_modify (fun s =>
    with_logs (<[h := default [] (logs s !! h) ++ [mkTxLog l h (wrap64 (txIndex s)) (logSize s)]]>
      (logs s)) (logSize s +! 1) s).
Definition AddPreimage (h : Hash) (preimage : bytes) : M unit := st_modify (fun s =>
  match preimages s !! h with
  | Some _ => s
  | None => with_preimages (<[h := preimage]> (preimages s)) s
  end).
Definition AddRefund (gas : Z) : M unit :=
  r ← st_gets refund;
  append (refundChange r);;
  st_modify (with_refund (r +! gas)).
Definition SubRefund (gas : Z) : M unit :=
  r ← st_gets refund;
  append (refundChange r);;
  if r <? gas then st_fail PanicRefund
  else st_modify (with_refund (r -! gas)).
Definition AddBalance (a : Address) (amount : word) : M word :=
  o ← getOrNewStateObject a; obj_AddBalance a o amount.
Definition SubBalance (a : Address) (amount : word) : M word :=
  o ← getOrNewStateObject a;
  if IsZero amount then mret (Balance (data o))
  else obj_SetBalance a o (Sub (Balance (data o)) amount).
Definition SetNonce (a : Address) (nonce : Z) : M unit :=
  o ← getOrNewStateObject a; obj_SetNonce a o nonce.
Definition SetCode (a : Address) (c : bytes) : M bytes :=
  o ← getOrNewStateObject a; obj_SetCode a o (Keccak256 c) c.
Definition SetState (a : Address) (key value : Hash) : M Hash :=
  o ← getOrNewStateObject a; obj_SetState a o key value.
Definition CreateAccount (a : Address) : M unit := createObject a;; mret tt.
(** [obj.newContract] dereferences the object. *)
Definition CreateContract (a : Address) : M unit :=
  o ← getStateObject a;
  match o with
  | None => st_fail PanicNil
  | Some o =>
      if negb (newContract o) then
        setStateObject a (set_newContract true o);;
        append (createContractChange a)
      else mret tt
  end.
Definition SelfDestruct (a : Address) : M word :=
  o ← getStateObject a;
  match o with
  | None => mret wzero
  | Some o =>
      let prevBalance := Balance (data o) in
      (if negb (IsZero (Balance (data o))) then obj_SetBalance a o wzero;; mret tt else mret tt);;
      (if negb (selfDestructed o) then
         append (selfDestructChange a);;
         st_modify (fun s => with_stateObjects (alter markSelfdestructed a (stateObjects s)) s)
       else mret tt);;
      mret prevBalance
  end.
Definition SelfDestruct6780 (a : Address) : M (word * bool) :=
  o ← getStateObject a;
  match o with
  | None => mret (wzero, false)
  | Some o =>
      if newContract o then b ← SelfDestruct a; mret (b, true)
      else mret (Balance (data o), false)
  end.
Definition setTransientState (a : Address) (key value : Hash) : M unit :=
  st_modify (fun s => with_transient (transient_Set (transient s) a key value) s).
Definition SetTransientState (a : Address) (key value : Hash) : M unit :=
  prev ← GetTransientState a key;
  if prev =? value then mret tt
  else
    append (transientStorageChange a key prev);;
    setTransientState a key value.
Definition AddAddressToAccessList (a : Address) : M unit :=
  s ← st_get;
  let '(added, al) := AddAddress (access s) a in
  st_modify (with_access al);;
  if (added : bool) then append (accessListAddAccountChange a) else mret tt.
Definition AddSlotToAccessList (a : Address) (slot : Hash) : M unit :=
  s ← st_get;
  '(addrMod, slotMod, al) ← st_lift (AddSlot (access s) a slot);
  st_modify (with_access al);;
  (if (addrMod : bool) then append (accessListAddAccountChange a) else mret tt);;
  if (slotMod : bool) then append (accessListAddSlotChange a slot) else mret tt.

(** *** Reverting *)

(** [s.getStateObject(account).setX(...)]: a nil object would be dereferenced. *)
Definition onObject (a : Address) (f : stateObject -> stateObject) : M unit :=
  o ← getStateObject a;
  match o with None => st_fail PanicNil | Some o => setStateObject a (f o) end.

(** [journalEntry.revert] *)
Definition revertEntry (e : journalEntry) : M unit :=
  match e with
  | createObjectChange a => st_modify (fun s => with_stateObjects (delete a (stateObjects s)) s)
  | createContractChange a => onObject a (set_newContract false)
  | selfDestructChange a =>
      o ← getStateObject a;
      match o with None => mret tt | Some o => setStateObject a (set_selfDestructed false o) end
  | touchChange _ => mret tt
  | balanceChange a prev => onObject a (setBalance prev)
  | nonceChange a prev => onObject a (setNonce prev)
  | codeChange a prevCode => onObject a (setCode (Keccak256 prevCode) prevCode)
  | storageChange a key prev orig => onObject a (setState key prev orig)
  | transientStorageChange a key prev => setTransientState a key prev
  | refundChange prev => st_modify (with_refund prev)
  | addLogChange h => fun s =>
      let l := default [] (logs s !! h) in
      if len l =? 1 then Ret (tt, with_logs (delete h (logs s)) (logSize s -! 1) s)
      else
        match slice l 0 (len l - 1) with
        | Ret l' => Ret (tt, with_logs (<[h := l']> (logs s)) (logSize s -! 1) s)
        | Fail e => Fail e
        end
  | accessListAddAccountChange a =>
      st_modify (fun s => with_access (DeleteAddress (access s) a) s)
  | accessListAddSlotChange a slot => fun s =>
      match DeleteSlot (access s) a slot with
      | Ret al => Ret (tt, with_access al s)
      | Fail e => Fail e
      end
  end.

(** [if j.dirties[*addr]--; j.dirties[*addr] == 0 { delete(j.dirties, *addr) }] *)
Definition undirty (e : journalEntry) : M unit := st_modify (fun s =>
  match dirtied e with
  | None => s
  | Some a =>
      let j := jrnl s in
      let n := default 0 (dirties j !! a) - 1 in
      with_jrnl (mkJournal (entries j)
        (if n =? 0 then delete a (dirties j) else <[a := n]> (dirties j))
        (validRevisions j) (nextRevisionId j)) s
  end).

(** The loop of [journal.revert]: the entries are given last first. *)
Fixpoint revertEntries (es : list journalEntry) : M unit :=
  match es with
  | [] => mret tt
  | e :: es => revertEntry e;; undirty e;; revertEntries es
  end.

Definition journal_revert (snapshot : Z) : M unit :=
  j ← st_gets jrnl;
  revertEntries (rev (drop (Z.to_nat snapshot) (entries j)));;
  st_modify (fun s => let j := jrnl s in
    with_jrnl (mkJournal (take (Z.to_nat snapshot) (entries j)) (dirties j)
      (validRevisions j) (nextRevisionId j)) s).

Definition RevertToSnapshot (revid : Z) : M unit :=
  j ← st_gets jrnl;
  let revs := validRevisions j in
  let idx := sort_Search (len revs) (fun i =>
    match revs !! Z.to_nat i with Some r => revid <=? r.1 | None => true end) in
  if idx =? len revs then st_fail PanicRevision
  else
    r ← st_lift (index revs idx);
    if negb (r.1 =? revid) then st_fail PanicRevision
    else
      journal_revert r.2;;
      st_modify (fun s => let j := jrnl s in
        with_jrnl (mkJournal (entries j) (dirties j)
          (take (Z.to_nat idx) (validRevisions j)) (nextRevisionId j)) s).

(** *** Transaction boundaries *)

Definition addAccessTuple (al : accessList) (el : Address * list Hash) : Outcome accessList :=
  foldl (fun al key => al ← al; '(_, _, al) ← AddSlot al el.1 key; Ret al)
    (Ret (AddAddress al el.1).2) el.2.

Definition Prepare (rules : Rules) (sender coinbase : Address) (dst : option Address)
    (precompiles : list Address) (list : AccessList) : M unit :=
  if IsEIP2929 rules && IsEIP4762 rules then st_fail PanicExplicit
  else
    (if IsEIP2929 rules then
       let al := newAccessList in
       let al := (AddAddress al sender).2 in
       let al := match dst with Some d => (AddAddress al d).2 | None => al end in
       let al := foldl (fun al a => (AddAddress al a).2) al precompiles in
       al ← st_lift (foldl (fun al el => al ← al; addAccessTuple al el) (Ret al) list);
       let al := if IsShanghai rules then (AddAddress al coinbase).2 else al in
       st_modify (with_access al)
     else mret tt);;
    st_modify (with_transient ∅).

(** [stateObject.finalise]: the loop body for one dirty slot; the object and the caches it
    reads are those of the address [a]. *)
Definition finaliseSlot (a : Address) (o : stateObject) (kv : Hash * Hash) : M stateObject :=
  let '(key, value) := kv in
  o ← (match uncommittedStorage o !! key with
       | Some orig =>
           if orig =? value
           then mret (mkObject (origin o) (data o) (code o) (originStorage o) (dirtyStorage o)
                  (pendingStorage o) (delete key (uncommittedStorage o)) (dirtyCode o)
                  (selfDestructed o) (newContract o))
           else mret o
       | None =>
           '(v, o) ← obj_GetCommittedState a o key;
           mret (mkObject (origin o) (data o) (code o) (originStorage o) (dirtyStorage o)
                  (pendingStorage o) (<[key := v]> (uncommittedStorage o)) (dirtyCode o)
                  (selfDestructed o) (newContract o))
       end);
  mret (mkObject (origin o) (data o) (code o) (originStorage o) (dirtyStorage o)
         (<[key := value]> (pendingStorage o)) (uncommittedStorage o) (dirtyCode o)
         (selfDestructed o) (newContract o)).

Fixpoint finaliseSlots (a : Address) (o : stateObject) (kvs : list (Hash * Hash)) : M stateObject :=
  match kvs with
  | [] => mret o
  | kv :: kvs => o ← finaliseSlot a o kv; finaliseSlots a o kvs
  end.

Definition obj_finalise (a : Address) (o : stateObject) : M unit :=
  o ← finaliseSlots a o (map_to_list (dirtyStorage o));
  setStateObject a (set_newContract false (set_dirtyStorage ∅ o)).

Definition markDelete (a : Address) : M unit :=
  st_modify (fun s => with_mutations (<[a := true]> (mutations s)) s).
Definition markUpdate (a : Address) : M unit :=
  st_modify (fun s => with_mutations (<[a := false]> (mutations s)) s).

Definition finaliseOne (deleteEmptyObjects : bool) (a : Address) : M unit :=
  s ← st_get;
  match stateObjects s !! a with
  | None => mret tt
  | Some o =>
      if selfDestructed o || (deleteEmptyObjects && empty o) then
        st_modify (fun s => with_stateObjects (delete a (stateObjects s)) s);;
        markDelete a;;
        st_modify (fun s => match stateObjectsDestruct s !! a with
          | Some _ => s
          | None => with_stateObjectsDestruct (<[a := o]> (stateObjectsDestruct s)) s
          end)
      else obj_finalise a o;; markUpdate a
  end.

Definition clearJournalAndRefund : M unit :=
  st_modify (fun s => with_refund 0 (with_jrnl newJournal s)).

(** The loop over [journal.dirties]; Go's map order is unspecified, the model uses the order
    of the keys of the finite map. *)
Definition Finalise (deleteEmptyObjects : bool) : M unit :=
  s ← st_get;
  foldr (fun kv m => finaliseOne deleteEmptyObjects kv.1;; m) (mret tt)
    (map_to_list (dirties (jrnl s)));;
  clearJournalAndRefund.

(** ** [StateDB] as an implementation of the EVM's interface *)
Definition run {A} (r : sdbE A) : M A :=
  match r in sdbE A return M A with
  | VM.CreateAccount a => CreateAccount a
  | VM.CreateContract a => CreateContract a
  | VM.SubBalance a w => SubBalance a w
  | VM.AddBalance a w => AddBalance a w
  | VM.GetBalance a => GetBalance a
  | VM.GetNonce a => GetNonce a
  | VM.SetNonce a n => SetNonce a n
  | VM.GetCodeHash a => GetCodeHash a
  | VM.GetCode a => GetCode a
  | VM.SetCode a c => SetCode a c
  | VM.GetCodeSize a => GetCodeSize a
  | VM.AddRefund g => AddRefund g
  | VM.SubRefund g => SubRefund g
  | VM.GetRefund => GetRefund
  | VM.GetCommittedState a k => GetCommittedState a k
  | VM.GetState a k => GetState a k
  | VM.SetState a k v => SetState a k v
  | VM.GetStorageRoot a => GetStorageRoot a
  | VM.GetTransientState a k => GetTransientState a k
  | VM.SetTransientState a k v => SetTransientState a k v
  | VM.SelfDestruct a => SelfDestruct a
  | VM.HasSelfDestructed a => HasSelfDestructed a
  | VM.SelfDestruct6780 a => SelfDestruct6780 a
  | VM.Exist a => Exist a
  | VM.Empty a => Empty a
  | VM.AddressInAccessList a => AddressInAccessList a
  | VM.SlotInAccessList a k => SlotInAccessList a k
  | VM.AddAddressToAccessList a => AddAddressToAccessList a
  | VM.AddSlotToAccessList a k => AddSlotToAccessList a k
  | VM.Prepare r sd cb d ps l => Prepare r sd cb d ps l
  | VM.RevertToSnapshot id => RevertToSnapshot id
  | VM.Snapshot => Snapshot
  | VM.AddLog l => AddLog l
  | VM.AddPreimage h p => AddPreimage h p
  | VM.Finalise b => Finalise b
  end.
End statedb.
End StateDB.

(** The implementation of the EVM's interface over a given reader. *)
#[global] Instance state_StateDB `{U : Uint256} `{C : Crypto} (reader : Reader) : VM.StateDB state | 10 :=
  { sdb := @StateDB.run U C reader }.
