(* ===== verification/GasTable.v ===== *)
(** * Dynamic gas ([core/vm/gas_table.go], [core/vm/operations_acl.go])

    A gas function reads the stack, may expand the recorded memory cost, may touch the access
    list and the refund counter of the state, and may set [evm.callGasTemp]; all of these live
    in the [Frame] below.  [gas_fn] gives the meaning of the tags of a jump table. *)

From S2P Require Import Prelude Bytes Uint256 Params Machine Opcodes Analysis JumpTable VM.

Section frame.
Context `{U : Uint256}.

(** What a running frame can change: [pc], the [ScopeContext] and the EVM. *)
Record Frame (S : Type) := mkFrame {
  pc : Z;
  stack : Stack;
  mem : Memory;
  contract : Contract;
  vm : VM S;
}.
End frame.
Arguments mkFrame {U S}.
Arguments pc {U S}.
Arguments stack {U S}.
Arguments mem {U S}.
Arguments contract {U S}.
Arguments vm {U S}.

Section gas.
Context `{U : Uint256} `{C : Crypto} {S : Type} `{DB : !StateDB S}.
Context (env : Env).

Abbreviation F := (ST (Frame S)).

(** ** Field updates *)
Definition set_pc (p : Z) (f : Frame S) : Frame S :=
  mkFrame p (stack f) (mem f) (contract f) (vm f).
Definition set_stack (st : Stack) (f : Frame S) : Frame S :=
  mkFrame (pc f) st (mem f) (contract f) (vm f).
Definition set_mem (m : Memory) (f : Frame S) : Frame S :=
  mkFrame (pc f) (stack f) m (contract f) (vm f).
Definition set_contract (c : Contract) (f : Frame S) : Frame S :=
  mkFrame (pc f) (stack f) (mem f) c (vm f).
Definition set_vm (v : VM S) (f : Frame S) : Frame S :=
  mkFrame (pc f) (stack f) (mem f) (contract f) v.

Definition vm_set_db (s : S) (v : VM S) : VM S :=
  mkVM s (depth v) (callGasTemp v) (jumpDests v) (abortLoads v) (readOnly v) (returnData v).
Definition vm_set_depth (d : Z) (v : VM S) : VM S :=
  mkVM (statedb v) d (callGasTemp v) (jumpDests v) (abortLoads v) (readOnly v) (returnData v).
Definition vm_set_callGasTemp (g : Z) (v : VM S) : VM S :=
  mkVM (statedb v) (depth v) g (jumpDests v) (abortLoads v) (readOnly v) (returnData v).
Definition vm_set_jumpDests (j : gmap Z bitvec) (v : VM S) : VM S :=
  mkVM (statedb v) (depth v) (callGasTemp v) j (abortLoads v) (readOnly v) (returnData v).
Definition vm_set_abortLoads (l : list bool) (v : VM S) : VM S :=
  mkVM (statedb v) (depth v) (callGasTemp v) (jumpDests v) l (readOnly v) (returnData v).
Definition vm_set_readOnly (b : bool) (v : VM S) : VM S :=
  mkVM (statedb v) (depth v) (callGasTemp v) (jumpDests v) (abortLoads v) b (returnData v).
Definition vm_set_returnData (d : bytes) (v : VM S) : VM S :=
  mkVM (statedb v) (depth v) (callGasTemp v) (jumpDests v) (abortLoads v) (readOnly v) d.

(** A method call on [evm.StateDB], on the EVM and on a frame. *)
Definition vm_db {A} (r : sdbE A) : ST (VM S) A := fun v =>
  match sdb r (statedb v) with
  | Ret (a, s) => Ret (a, vm_set_db s v)
  | Fail f => Fail f
  end.
Definition on_vm {A} (m : ST (VM S) A) : F A := fun f =>
  match m (vm f) with
  | Ret (a, v) => Ret (a, set_vm v f)
  | Fail e => Fail e
  end.
Definition db {A} (r : sdbE A) : F A := on_vm (vm_db r).

Definition back (n : Z) : F word := fun f =>
  match Back (stack f) n with Ret w => Ret (w, f) | Fail e => Fail e end.

Definition rules : Rules := chainRules env.

(** ** Early returns *)

(** [if err != nil { return 0, err }] *)
Definition ifErr (r : Z * error) (k : Z -> F (Z * error)) : F (Z * error) :=
  match r.2 with Some e => mret (0, Some e) | None => k r.1 end.
(** [if overflow { return 0, ErrGasUintOverflow }] *)
Definition ifOverflow (r : Z * bool) (k : Z -> F (Z * error)) : F (Z * error) :=
  if r.2 then mret (0, Some ErrGasUintOverflow) else k r.1.

Definition ok (g : Z) : F (Z * error) := mret (g, None).

Definition memGas (memorySize : Z) : F (Z * error) := fun f =>
  let '(r, m) := memoryGasCost (mem f) memorySize in Ret (r, set_mem m f).

(** ** [gas_table.go] *)

Definition memoryCopierGas (stackpos : Z) (memorySize : Z) : F (Z * error) :=
  r ← memGas memorySize;
  ifErr r (fun gas =>
  w ← back stackpos;
  ifOverflow (Uint64WithOverflow w) (fun words =>
  ifOverflow (SafeMul (toWordSize words) CopyGas) (fun words =>
  ifOverflow (SafeAdd gas words) ok))).

Definition gasCallDataCopy := memoryCopierGas 2.
Definition gasCodeCopy := memoryCopierGas 2.
Definition gasMcopy := memoryCopierGas 2.
Definition gasExtCodeCopy := memoryCopierGas 3.
Definition gasReturnDataCopy := memoryCopierGas 2.

Definition contractAddress : F Address := st_gets (fun f => c_address (contract f)).
Definition contractGas : F Z := st_gets (fun f => Gas (contract f)).

Definition gasSStore (memorySize : Z) : F (Z * error) :=
  y ← back 1; x ← back 0;
  addr ← contractAddress;
  current ← db (GetState addr (Bytes32 x));
  if IsPetersburg rules || negb (IsConstantinople rules) then
    if (current =? 0) && negb (Sign y =? 0) then ok SstoreSetGas
    else if negb (current =? 0) && (Sign y =? 0) then
      db (AddRefund SstoreRefundGas);; ok SstoreClearGas
    else ok SstoreResetGas
  else
    let value := Bytes32 y in
    if current =? value then ok NetSstoreNoopGas
    else
      original ← db (GetCommittedState addr (Bytes32 x));
      if original =? current then
        if original =? 0 then ok NetSstoreInitGas
        else
          (if value =? 0 then db (AddRefund NetSstoreClearRefund) else mret tt);;
          ok NetSstoreCleanGas
      else
        (if negb (original =? 0) then
           if current =? 0 then db (SubRefund NetSstoreClearRefund)
           else if value =? 0 then db (AddRefund NetSstoreClearRefund)
           else mret tt
         else mret tt);;
        (if original =? value then
           if original =? 0 then db (AddRefund NetSstoreResetClearRefund)
           else db (AddRefund NetSstoreResetRefund)
         else mret tt);;
        ok NetSstoreDirtyGas.

Definition gasSStoreEIP2200 (memorySize : Z) : F (Z * error) :=
  gas ← contractGas;
  if gas <=? SstoreSentryGasEIP2200 then mret (0, Some ErrReentrancySentry)
  else
    y ← back 1; x ← back 0;
    addr ← contractAddress;
    current ← db (GetState addr (Bytes32 x));
    let value := Bytes32 y in
    if current =? value then ok SloadGasEIP2200
    else
      original ← db (GetCommittedState addr (Bytes32 x));
      if original =? current then
        if original =? 0 then ok SstoreSetGasEIP2200
        else
          (if value =? 0 then db (AddRefund SstoreClearsScheduleRefundEIP2200) else mret tt);;
          ok SstoreResetGasEIP2200
      else
        (if negb (original =? 0) then
           if current =? 0 then db (SubRefund SstoreClearsScheduleRefundEIP2200)
           else if value =? 0 then db (AddRefund SstoreClearsScheduleRefundEIP2200)
           else mret tt
         else mret tt);;
        (if original =? value then
           if original =? 0 then db (AddRefund (SstoreSetGasEIP2200 - SloadGasEIP2200))
           else db (AddRefund (SstoreResetGasEIP2200 - SloadGasEIP2200))
         else mret tt);;
        ok SloadGasEIP2200.

Definition makeGasLog (n : Z) (memorySize : Z) : F (Z * error) :=
  w ← back 1;
  ifOverflow (Uint64WithOverflow w) (fun requestedSize =>
  r ← memGas memorySize;
  ifErr r (fun gas =>
  ifOverflow (SafeAdd gas LogGas) (fun gas =>
  ifOverflow (SafeAdd gas (n *! LogTopicGas)) (fun gas =>
  ifOverflow (SafeMul requestedSize LogDataGas) (fun memorySizeGas =>
  ifOverflow (SafeAdd gas memorySizeGas) ok))))).

Definition gasKeccak256 (memorySize : Z) : F (Z * error) :=
  r ← memGas memorySize;
  ifErr r (fun gas =>
  w ← back 1;
  ifOverflow (Uint64WithOverflow w) (fun wordGas =>
  ifOverflow (SafeMul (toWordSize wordGas) Keccak256WordGas) (fun wordGas =>
  ifOverflow (SafeAdd gas wordGas) ok))).

Definition pureMemoryGascost (memorySize : Z) : F (Z * error) := memGas memorySize.

Definition gasCreate2 (memorySize : Z) : F (Z * error) :=
  r ← memGas memorySize;
  ifErr r (fun gas =>
  w ← back 2;
  ifOverflow (Uint64WithOverflow w) (fun wordGas =>
  ifOverflow (SafeMul (toWordSize wordGas) Keccak256WordGas) (fun wordGas =>
  ifOverflow (SafeAdd gas wordGas) ok))).

Definition gasCreateEip3860 (memorySize : Z) : F (Z * error) :=
  r ← memGas memorySize;
  ifErr r (fun gas =>
  w ← back 2;
  ifOverflow (Uint64WithOverflow w) (fun size =>
  if MaxInitCodeSize <? size then mret (0, Some (ErrMaxInitCodeSizeExceeded size))
  else
    let moreGas := InitCodeWordGas *! ((size +! 31) / 32) in
    ifOverflow (SafeAdd gas moreGas) ok)).

Definition gasCreate2Eip3860 (memorySize : Z) : F (Z * error) :=
  r ← memGas memorySize;
  ifErr r (fun gas =>
  w ← back 2;
  ifOverflow (Uint64WithOverflow w) (fun size =>
  if MaxInitCodeSize <? size then mret (0, Some (ErrMaxInitCodeSizeExceeded size))
  else
    let moreGas := (InitCodeWordGas + Keccak256WordGas) *! ((size +! 31) / 32) in
    ifOverflow (SafeAdd gas moreGas) ok)).

Definition gasExpFrontier (memorySize : Z) : F (Z * error) :=
  e ← back 1;
  let expByteLen := (BitLen e + 7) / 8 in
  let gas := expByteLen *! ExpByteFrontier in
  ifOverflow (SafeAdd gas ExpGas) ok.

Definition gasExpEIP158 (memorySize : Z) : F (Z * error) :=
  e ← back 1;
  let expByteLen := (BitLen e + 7) / 8 in
  let gas := expByteLen *! ExpByteEIP158 in
  ifOverflow (SafeAdd gas ExpGas) ok.

(** [evm.callGasTemp, err = callGas(evm.chainRules.IsEIP150, contract.Gas, gas, stack.Back(0))] *)
Definition setCallGasTemp (gas : Z) : F (Z * error) :=
  available ← contractGas;
  w ← back 0;
  let '(temp, err) := callGas (IsEIP150 rules) available gas w in
  st_modify (fun f => set_vm (vm_set_callGasTemp temp (vm f)) f);;
  mret (temp, err).

Definition gasCall (memorySize : Z) : F (Z * error) :=
  v ← back 2; a ← back 1;
  let transfersValue := negb (IsZero v) in
  let address := Bytes20 a in
  gas ← (if IsEIP158 rules then
           if transfersValue then
             e ← db (Empty address);
             mret (if (e : bool) then 0 +! CallNewAccountGas else 0)
           else mret 0
         else
           e ← db (Exist address);
           mret (if (e : bool) then 0 else 0 +! CallNewAccountGas));
  let gas := if transfersValue && negb (IsEIP4762 rules)
             then gas +! CallValueTransferGas else gas in
  r ← memGas memorySize;
  ifErr r (fun memoryGas =>
  ifOverflow (SafeAdd gas memoryGas) (fun gas =>
  t ← setCallGasTemp gas;
  ifErr t (fun temp =>
  ifOverflow (SafeAdd gas temp) ok))).

Definition gasCallCode (memorySize : Z) : F (Z * error) :=
  r ← memGas memorySize;
  ifErr r (fun memoryGas =>
  v ← back 2;
  let gas := if negb (Sign v =? 0) && negb (IsEIP4762 rules)
             then 0 +! CallValueTransferGas else 0 in
  ifOverflow (SafeAdd gas memoryGas) (fun gas =>
  t ← setCallGasTemp gas;
  ifErr t (fun temp =>
  ifOverflow (SafeAdd gas temp) ok))).

Definition gasDelegateCall (memorySize : Z) : F (Z * error) :=
  r ← memGas memorySize;
  ifErr r (fun gas =>
  t ← setCallGasTemp gas;
  ifErr t (fun temp =>
  ifOverflow (SafeAdd gas temp) ok)).

Definition gasStaticCall (memorySize : Z) : F (Z * error) :=
  r ← memGas memorySize;
  ifErr r (fun gas =>
  t ← setCallGasTemp gas;
  ifErr t (fun temp =>
  ifOverflow (SafeAdd gas temp) ok)).

Definition gasSelfdestruct (memorySize : Z) : F (Z * error) :=
  self ← contractAddress;
  gas ← (if IsEIP150 rules then
           a ← back 0;
           let address := Bytes20 a in
           if IsEIP158 rules then
             e ← db (Empty address);
             if (e : bool) then
               b ← db (GetBalance self);
               mret (if negb (Sign b =? 0)
                     then SelfdestructGasEIP150 +! CreateBySelfdestructGas
                     else SelfdestructGasEIP150)
             else mret SelfdestructGasEIP150
           else
             e ← db (Exist address);
             mret (if negb (e : bool) then SelfdestructGasEIP150 +! CreateBySelfdestructGas
                   else SelfdestructGasEIP150)
         else mret 0);
  d ← db (HasSelfDestructed self);
  (if negb (d : bool) then db (AddRefund SelfdestructRefundGas) else mret tt);;
  ok gas.

(** ** [operations_acl.go] *)

Definition makeGasSStoreFunc (clearingRefund : Z) (memorySize : Z) : F (Z * error) :=
  gas ← contractGas;
  if gas <=? SstoreSentryGasEIP2200 then mret (0, Some ErrReentrancySentry)
  else
    y ← back 1; x ← back 0;
    let slot := Bytes32 x in
    addr ← contractAddress;
    current ← db (GetState addr slot);
    '(_, slotPresent) ← db (SlotInAccessList addr slot);
    cost ← (if negb (slotPresent : bool) then
              db (AddSlotToAccessList addr slot);; mret ColdSloadCostEIP2929
            else mret 0);
    let value := Bytes32 y in
    if current =? value then ok (cost +! WarmStorageReadCostEIP2929)
    else
      original ← db (GetCommittedState addr (Bytes32 x));
      if original =? current then
        if original =? 0 then ok (cost +! SstoreSetGasEIP2200)
        else
          (if value =? 0 then db (AddRefund clearingRefund) else mret tt);;
          ok (cost +! (SstoreResetGasEIP2200 - ColdSloadCostEIP2929))
      else
        (if negb (original =? 0) then
           if current =? 0 then db (SubRefund clearingRefund)
           else if value =? 0 then db (AddRefund clearingRefund)
           else mret tt
         else mret tt);;
        (if original =? value then
           if original =? 0 then
             db (AddRefund (SstoreSetGasEIP2200 - WarmStorageReadCostEIP2929))
           else
             db (AddRefund ((SstoreResetGasEIP2200 - ColdSloadCostEIP2929)
                            - WarmStorageReadCostEIP2929))
         else mret tt);;
        ok (cost +! WarmStorageReadCostEIP2929).

Definition gasSStoreEIP2929 := makeGasSStoreFunc SstoreClearsScheduleRefundEIP2200.
Definition gasSStoreEIP3529 := makeGasSStoreFunc SstoreClearsScheduleRefundEIP3529.

Definition gasSLoadEIP2929 (memorySize : Z) : F (Z * error) :=
  loc ← back 0;
  let slot := Bytes32 loc in
  addr ← contractAddress;
  '(_, slotPresent) ← db (SlotInAccessList addr slot);
  if negb (slotPresent : bool) then
    db (AddSlotToAccessList addr slot);; ok ColdSloadCostEIP2929
  else ok WarmStorageReadCostEIP2929.

Definition gasExtCodeCopyEIP2929 (memorySize : Z) : F (Z * error) :=
  r ← gasExtCodeCopy memorySize;
  ifErr r (fun gas =>
  a ← back 0;
  let addr := Bytes20 a in
  present ← db (AddressInAccessList addr);
  if negb (present : bool) then
    db (AddAddressToAccessList addr);;
    ifOverflow (SafeAdd gas (ColdAccountAccessCostEIP2929 - WarmStorageReadCostEIP2929)) ok
  else ok gas).

Definition gasEip2929AccountCheck (memorySize : Z) : F (Z * error) :=
  a ← back 0;
  let addr := Bytes20 a in
  present ← db (AddressInAccessList addr);
  if negb (present : bool) then
    db (AddAddressToAccessList addr);;
    ok (ColdAccountAccessCostEIP2929 - WarmStorageReadCostEIP2929)
  else ok 0.

(** [contract.UseGas] on the frame's contract, and [contract.Gas += g]. *)
Definition useGas (g : Z) : F bool := fun f =>
  let '(b, c) := UseGas (contract f) g in Ret (b, set_contract c f).
Definition addGas (g : Z) : F unit :=
  st_modify (fun f => set_contract (set_Gas (Gas (contract f) +! g) (contract f)) f).

Definition makeCallVariantGasCallEIP2929 (oldCalculator : Z -> F (Z * error))
    (addressPosition : Z) (memorySize : Z) : F (Z * error) :=
  a ← back addressPosition;
  let addr := Bytes20 a in
  warmAccess ← db (AddressInAccessList addr);
  let coldCost := ColdAccountAccessCostEIP2929 - WarmStorageReadCostEIP2929 in
  paid ← (if negb (warmAccess : bool) then
            db (AddAddressToAccessList addr);; useGas coldCost
          else mret true);
  if negb paid then mret (0, Some ErrOutOfGas)
  else
    r ← oldCalculator memorySize;
    if warmAccess || bool_decide (is_Some r.2) then mret r
    else
      addGas coldCost;;
      ifOverflow (SafeAdd r.1 coldCost) ok.

Definition gasCallEIP2929 := makeCallVariantGasCallEIP2929 gasCall 1.
Definition gasDelegateCallEIP2929 := makeCallVariantGasCallEIP2929 gasDelegateCall 1.
Definition gasStaticCallEIP2929 := makeCallVariantGasCallEIP2929 gasStaticCall 1.
Definition gasCallCodeEIP2929 := makeCallVariantGasCallEIP2929 gasCallCode 1.

Definition makeSelfdestructGasFn (refundsEnabled : bool) (memorySize : Z) : F (Z * error) :=
  a ← back 0;
  let address := Bytes20 a in
  self ← contractAddress;
  present ← db (AddressInAccessList address);
  gas ← (if negb (present : bool) then
           db (AddAddressToAccessList address);; mret ColdAccountAccessCostEIP2929
         else mret 0);
  e ← db (Empty address);
  gas ← (if (e : bool) then
           b ← db (GetBalance self);
           mret (if negb (Sign b =? 0) then gas +! CreateBySelfdestructGas else gas)
         else mret gas);
  (if refundsEnabled then
     d ← db (HasSelfDestructed self);
     if negb (d : bool) then db (AddRefund SelfdestructRefundGas) else mret tt
   else mret tt);;
  ok gas.

Definition gasSelfdestructEIP2929 := makeSelfdestructGasFn true.
Definition gasSelfdestructEIP3529 := makeSelfdestructGasFn false.

Definition makeCallVariantGasCallEIP7702 (oldCalculator : Z -> F (Z * error))
    (memorySize : Z) : F (Z * error) :=
  a ← back 1;
  let addr := Bytes20 a in
  present ← db (AddressInAccessList addr);
  cold ← (if negb (present : bool) then
            db (AddAddressToAccessList addr);;
            let coldCost := ColdAccountAccessCostEIP2929 - WarmStorageReadCostEIP2929 in
            paid ← useGas coldCost;
            mret (if (paid : bool) then Some coldCost else None)
          else mret (Some 0));
  match cold with
  | None => mret (0, Some ErrOutOfGas)
  | Some total =>
      code ← db (GetCode addr);
      total ← (match ParseDelegation code with
               | Some target =>
                   warm ← db (AddressInAccessList target);
                   cost ← (if (warm : bool) then mret WarmStorageReadCostEIP2929
                           else db (AddAddressToAccessList target);;
                                mret ColdAccountAccessCostEIP2929);
                   paid ← useGas cost;
                   mret (if (paid : bool) then Some (total +! cost) else None)
               | None => mret (Some total)
               end);
      match total with
      | None => mret (0, Some ErrOutOfGas)
      | Some total =>
          r ← oldCalculator memorySize;
          match r.2 with
          | Some e => mret r
          | None =>
              addGas total;;
              ifOverflow (SafeAdd r.1 total) ok
          end
      end
  end.

Definition gasCallEIP7702 := makeCallVariantGasCallEIP7702 gasCall.
Definition gasDelegateCallEIP7702 := makeCallVariantGasCallEIP7702 gasDelegateCall.
Definition gasStaticCallEIP7702 := makeCallVariantGasCallEIP7702 gasStaticCall.
Definition gasCallCodeEIP7702 := makeCallVariantGasCallEIP7702 gasCallCode.

(** ** Meaning of the tags *)
Definition gas_fn (t : gasTag) : Z -> F (Z * error) :=
  match t with
  | GasCallDataCopy => gasCallDataCopy
  | GasCodeCopy => gasCodeCopy
  | GasMcopy => gasMcopy
  | GasExtCodeCopy => gasExtCodeCopy
  | GasReturnDataCopy => gasReturnDataCopy
  | GasSStore => gasSStore
  | GasSStoreEIP2200 => gasSStoreEIP2200
  | GasSStoreEIP2929 => gasSStoreEIP2929
  | GasSStoreEIP3529 => gasSStoreEIP3529
  | MakeGasLog n => makeGasLog n
  | GasKeccak256 => gasKeccak256
  | GasReturn | GasRevert | GasMLoad | GasMStore8 | GasMStore | GasCreate => pureMemoryGascost
  | GasCreate2 => gasCreate2
  | GasCreateEip3860 => gasCreateEip3860
  | GasCreate2Eip3860 => gasCreate2Eip3860
  | GasExpFrontier => gasExpFrontier
  | GasExpEIP158 => gasExpEIP158
  | GasCall => gasCall
  | GasCallCode => gasCallCode
  | GasDelegateCall => gasDelegateCall
  | GasStaticCall => gasStaticCall
  | GasSelfdestruct => gasSelfdestruct
  | GasSLoadEIP2929 => gasSLoadEIP2929
  | GasExtCodeCopyEIP2929 => gasExtCodeCopyEIP2929
  | GasEip2929AccountCheck => gasEip2929AccountCheck
  | GasCallEIP2929 => gasCallEIP2929
  | GasDelegateCallEIP2929 => gasDelegateCallEIP2929
  | GasStaticCallEIP2929 => gasStaticCallEIP2929
  | GasCallCodeEIP2929 => gasCallCodeEIP2929
  | GasSelfdestructEIP2929 => gasSelfdestructEIP2929
  | GasSelfdestructEIP3529 => gasSelfdestructEIP3529
  | GasCallEIP7702 => gasCallEIP7702
  | GasDelegateCallEIP7702 => gasDelegateCallEIP7702
  | GasStaticCallEIP7702 => gasStaticCallEIP7702
  | GasCallCodeEIP7702 => gasCallCodeEIP7702
  end.
End gas.
