(* ===== verification/Instructions.v ===== *)
(** * Instructions ([core/vm/instructions.go], the [opXxx] functions of [core/vm/eips.go])

    An instruction is a state transformer on the frame that returns the result bytes and the
    error of the Go function.  The instructions that start another frame call back into the
    EVM; they take the entry points as the record [Calls], which Evm instantiates.

    [exec_fn] gives the meaning of the tags of a jump table.  Tracer hooks, the state witness
    and the Verkle variants of the instructions are not modelled. *)

From S2P Require Import Prelude Bytes Uint256 Params Machine Opcodes Analysis JumpTable VM GasTable.

Section instructions.
Context `{U : Uint256} `{C : Crypto} {S : Type} `{DB : !StateDB S}.
Context (env : Env).

Abbreviation F := (ST (Frame S)).
Abbreviation result := (bytes * option vmerror)%type.

(** The entry points of [evm.go] an instruction calls. *)
Record Calls := mkCalls {
  do_Call : forall (caller addr : Address) (input : bytes) (gas : Z) (value : word),
    ST (VM S) (bytes * Z * error);
  do_CallCode : forall (caller addr : Address) (input : bytes) (gas : Z) (value : word),
    ST (VM S) (bytes * Z * error);
  do_DelegateCall : forall (originCaller caller addr : Address) (input : bytes) (gas : Z)
    (value : word), ST (VM S) (bytes * Z * error);
  do_StaticCall : forall (caller addr : Address) (input : bytes) (gas : Z),
    ST (VM S) (bytes * Z * error);
  do_Create : forall (caller : Address) (code : bytes) (gas : Z) (value : word),
    ST (VM S) (bytes * Address * Z * error);
  do_Create2 : forall (caller : Address) (code : bytes) (gas : Z) (endowment salt : word),
    ST (VM S) (bytes * Address * Z * error);
}.
Context (calls : Calls).

(** ** Access to the frame *)

Definition onStack {A} (m : Stack -> Outcome (A * Stack)) : F A := fun f =>
  match m (stack f) with Ret (a, st) => Ret (a, set_stack st f) | Fail e => Fail e end.
Definition popF : F word := onStack pop.
Definition peekF : F word := back 0.
Definition pushF (w : word) : F unit := st_modify (fun f => set_stack (push w (stack f)) f).
(** A write through the pointer that [peek] returned. *)
Definition setTop (w : word) : F unit :=
  onStack (fun st => st' ← set_top w st; Ret (tt, st')).
Definition onMemory (m : Memory -> Outcome Memory) : F unit := fun f =>
  match m (mem f) with Ret m' => Ret (tt, set_mem m' f) | Fail e => Fail e end.
Definition readMemory {A} (m : Memory -> Outcome A) : F A := fun f =>
  match m (mem f) with Ret a => Ret (a, f) | Fail e => Fail e end.
Definition readOnlyF : F bool := st_gets (fun f => readOnly (vm f)).
Definition returnDataF : F bytes := st_gets (fun f => returnData (vm f)).
Definition setReturnData (d : bytes) : F unit :=
  st_modify (fun f => set_vm (vm_set_returnData d (vm f)) f).
Definition codeF : F bytes := st_gets (fun f => Code (contract f)).
Definition refundGas (g : Z) : F unit :=
  st_modify (fun f => set_contract (RefundGas (contract f) g) f).

(** [return nil, nil] and [return nil, err] *)
Definition done_ : F result := mret ([], None).
Definition raise (e : vmerror) : F result := mret ([], Some e).

(** [x, y := pop(), peek(); y.Op(&x, y)] *)
Definition binop (op : word -> word -> word) : F result :=
  x ← popF; y ← peekF; setTop (op x y);; done_.
Definition cmpop (op : word -> word -> bool) : F result :=
  x ← popF; y ← peekF; setTop (bool_word (op x y));; done_.
Definition pushop (w : word) : F result := pushF w;; done_.

(** ** Arithmetic, comparison and bits *)

Definition opAdd : F result := binop Add.
Definition opSub : F result := binop Sub.
Definition opMul : F result := binop Mul.
Definition opDiv : F result := binop Div.
Definition opSdiv : F result := binop SDiv.
Definition opMod : F result := binop Mod.
Definition opSmod : F result := binop SMod.
Definition opExp : F result := binop Exp.
Definition opSignExtend : F result := binop (fun back num => ExtendSign num back).
Definition opNot : F result := x ← peekF; setTop (Not x);; done_.
Definition opLt : F result := cmpop Lt.
Definition opGt : F result := cmpop Gt.
Definition opSlt : F result := cmpop Slt.
Definition opSgt : F result := cmpop Sgt.
Definition opEq : F result := cmpop Eq.
Definition opIszero : F result := x ← peekF; setTop (bool_word (IsZero x));; done_.
Definition opAnd : F result := binop And.
Definition opOr : F result := binop Or.
Definition opXor : F result := binop Xor.
Definition opByte : F result := binop (fun th val => Byte val th).
Definition opAddmod : F result :=
  x ← popF; y ← popF; z ← peekF; setTop (AddMod x y z);; done_.
Definition opMulmod : F result :=
  x ← popF; y ← popF; z ← peekF; setTop (MulMod x y z);; done_.
Definition opSHL : F result :=
  shift ← popF; value ← peekF;
  setTop (if LtUint64 shift 256 then Lsh value (Uint64 shift) else wzero);; done_.
Definition opSHR : F result :=
  shift ← popF; value ← peekF;
  setTop (if LtUint64 shift 256 then Rsh value (Uint64 shift) else wzero);; done_.
Definition opSAR : F result :=
  shift ← popF; value ← peekF;
  if GtUint64 shift 256 then
    setTop (if 0 <=? Sign value then wzero else wallone);; done_
  else setTop (SRsh value (Uint64 shift));; done_.

Definition opKeccak256 : F result :=
  offset ← popF; size ← peekF;
  data ← readMemory (fun m => Memory_GetPtr m (Uint64 offset) (Uint64 size));
  let hash := Keccak256 data in
  (if EnablePreimageRecording env then db (AddPreimage hash data) else mret tt);;
  setTop (SetBytes (Hash_Bytes hash));; done_.

(** ** Environment *)

Definition opAddress : F result :=
  a ← contractAddress; pushop (SetBytes (Address_Bytes a)).
Definition opBalance : F result :=
  slot ← peekF; b ← db (GetBalance (Bytes20 slot)); setTop b;; done_.
Definition opOrigin : F result := pushop (SetBytes (Address_Bytes (Origin env))).
Definition opCaller : F result :=
  c ← st_gets (fun f => c_caller (contract f)); pushop (SetBytes (Address_Bytes c)).
Definition opCallValue : F result :=
  v ← st_gets (fun f => c_value (contract f)); pushop v.
Definition opCallDataLoad : F result :=
  x ← peekF;
  let '(offset, overflow) := Uint64WithOverflow x in
  if negb overflow then
    input ← st_gets (fun f => Input (contract f));
    data ← st_lift (getData input offset 32);
    setTop (SetBytes data);; done_
  else setTop wzero;; done_.
Definition opCallDataSize : F result :=
  input ← st_gets (fun f => Input (contract f)); pushop (SetUint64 (len input)).
Definition opCallDataCopy : F result :=
  memOffset ← popF; dataOffset ← popF; length ← popF;
  let '(dataOffset64, overflow) := Uint64WithOverflow dataOffset in
  let dataOffset64 := if (overflow : bool) then MaxUint64 else dataOffset64 in
  let memOffset64 := Uint64 memOffset in
  let length64 := Uint64 length in
  input ← st_gets (fun f => Input (contract f));
  data ← st_lift (getData input dataOffset64 length64);
  onMemory (fun m => Memory_Set m memOffset64 length64 data);; done_.
Definition opReturnDataSize : F result :=
  d ← returnDataF; pushop (SetUint64 (len d)).
Definition opReturnDataCopy : F result :=
  memOffset ← popF; dataOffset ← popF; length ← popF;
  let '(offset64, overflow) := Uint64WithOverflow dataOffset in
  if (overflow : bool) then raise ErrReturnDataOutOfBounds
  else
    let '(end64, overflow) := Uint64WithOverflow (Add dataOffset length) in
    d ← returnDataF;
    if (overflow : bool) || (len d <? end64) then raise ErrReturnDataOutOfBounds
    else
      data ← st_lift (slice d offset64 end64);
      onMemory (fun m => Memory_Set m (Uint64 memOffset) (Uint64 length) data);; done_.
Definition opExtCodeSize : F result :=
  slot ← peekF; n ← db (GetCodeSize (Bytes20 slot)); setTop (SetUint64 n);; done_.
Definition opCodeSize : F result := c ← codeF; pushop (SetUint64 (len c)).
Definition opCodeCopy : F result :=
  memOffset ← popF; codeOffset ← popF; length ← popF;
  let '(uint64CodeOffset, overflow) := Uint64WithOverflow codeOffset in
  let uint64CodeOffset := if (overflow : bool) then MaxUint64 else uint64CodeOffset in
  code ← codeF;
  codeCopy ← st_lift (getData code uint64CodeOffset (Uint64 length));
  onMemory (fun m => Memory_Set m (Uint64 memOffset) (Uint64 length) codeCopy);; done_.
Definition opExtCodeCopy : F result :=
  a ← popF; memOffset ← popF; codeOffset ← popF; length ← popF;
  let '(uint64CodeOffset, overflow) := Uint64WithOverflow codeOffset in
  let uint64CodeOffset := if (overflow : bool) then MaxUint64 else uint64CodeOffset in
  code ← db (GetCode (Bytes20 a));
  codeCopy ← st_lift (getData code uint64CodeOffset (Uint64 length));
  onMemory (fun m => Memory_Set m (Uint64 memOffset) (Uint64 length) codeCopy);; done_.
Definition opExtCodeHash : F result :=
  slot ← peekF;
  let address := Bytes20 slot in
  e ← db (Empty address);
  if (e : bool) then setTop wzero;; done_
  else h ← db (GetCodeHash address); setTop (SetBytes (Hash_Bytes h));; done_.
Definition opGasprice : F result := pushop (FromBig (GasPrice env)).
Definition opBlockhash : F result :=
  num ← peekF;
  let '(num64, overflow) := Uint64WithOverflow num in
  if (overflow : bool) then setTop wzero;; done_
  else
    let upper := wrap64 (BlockNumber env) in
    let lower := if upper <? 257 then 0 else upper -! 256 in
    if (lower <=? num64) && (num64 <? upper) then
      res ← st_lift (GetHash env num64);
      setTop (SetBytes (Hash_Bytes res));; done_
    else setTop wzero;; done_.
Definition opCoinbase : F result := pushop (SetBytes (Address_Bytes (Coinbase env))).
Definition opTimestamp : F result := pushop (SetUint64 (Time env)).
Definition opNumber : F result := pushop (FromBig (BlockNumber env)).
Definition opDifficulty : F result := pushop (FromBig (Difficulty env)).
(** [Random.Bytes()] dereferences the pointer. *)
Definition opRandom : F result :=
  match Random env with
  | Some r => pushop (SetBytes (Hash_Bytes r))
  | None => st_fail PanicNil
  end.
Definition opGasLimit : F result := pushop (SetUint64 (GasLimit env)).
Definition opSelfBalance : F result :=
  a ← contractAddress; b ← db (GetBalance a); pushop b.
(** [uint256.FromBig] of a nil pointer is nil, which [push] dereferences. *)
Definition pushBig (o : option Z) : F result :=
  match o with
  | Some z => pushop (FromBig z)
  | None => st_fail PanicNil
  end.
Definition opChainID : F result := pushBig (config_ChainID env).
Definition opBaseFee : F result := pushBig (BaseFee env).
Definition opBlobHash : F result :=
  i ← peekF;
  if LtUint64 i (len (BlobHashes env)) then
    blobHash ← st_lift (index (BlobHashes env) (Uint64 i));
    setTop (SetBytes (Hash_Bytes blobHash));; done_
  else setTop wzero;; done_.
Definition opBlobBaseFee : F result := pushBig (BlobBaseFee env).

(** ** Stack, memory, storage and control flow *)

Definition opPop : F result := popF;; done_.
Definition opMload : F result :=
  v ← peekF;
  d ← readMemory (fun m => Memory_GetPtr m (Uint64 v) 32);
  setTop (SetBytes d);; done_.
Definition opMstore : F result :=
  mStart ← popF; val ← popF;
  onMemory (fun m => Memory_Set32 m (Uint64 mStart) val);; done_.
Definition opMstore8 : F result :=
  off ← popF; val ← popF;
  onMemory (fun m => Memory_SetByte m (Uint64 off) (Uint64 val mod 256));; done_.
Definition opMcopy : F result :=
  dst ← popF; src ← popF; length ← popF;
  onMemory (fun m => Memory_Copy m (Uint64 dst) (Uint64 src) (Uint64 length));; done_.
Definition opSload : F result :=
  loc ← peekF; a ← contractAddress;
  val ← db (GetState a (Bytes32 loc));
  setTop (SetBytes (Hash_Bytes val));; done_.
Definition opSstore : F result :=
  ro ← readOnlyF;
  if (ro : bool) then raise ErrWriteProtection
  else
    loc ← popF; val ← popF; a ← contractAddress;
    db (SetState a (Bytes32 loc) (Bytes32 val));; done_.
Definition opTload : F result :=
  loc ← peekF; a ← contractAddress;
  val ← db (GetTransientState a (Bytes32 loc));
  setTop (SetBytes (Hash_Bytes val));; done_.
Definition opTstore : F result :=
  ro ← readOnlyF;
  if (ro : bool) then raise ErrWriteProtection
  else
    loc ← popF; val ← popF; a ← contractAddress;
    db (SetTransientState a (Bytes32 loc) (Bytes32 val));; done_.

(** [evm.abort.Load()] *)
Definition abortLoad : F bool := fun f =>
  match abortLoads (vm f) with
  | b :: r => Ret (b, set_vm (vm_set_abortLoads r (vm f)) f)
  | [] => Ret (false, f)
  end.

(** [scope.Contract.validJumpdest], which updates the analysis caches. *)
Definition validJumpdestF (pos : word) : F bool := fun f =>
  match validJumpdest (contract f) (jumpDests (vm f)) pos with
  | Ret (b, c, j) => Ret (b, set_vm (vm_set_jumpDests j (vm f)) (set_contract c f))
  | Fail e => Fail e
  end.

(** [if !validJumpdest(&pos) { return nil, ErrInvalidJump }; *pc = pos.Uint64() - 1] *)
Definition jumpTo (pos : word) : F result :=
  valid ← validJumpdestF pos;
  if negb (valid : bool) then raise ErrInvalidJump
  else st_modify (set_pc (Uint64 pos -! 1));; done_.

Definition opJump : F result :=
  abort ← abortLoad;
  if (abort : bool) then raise errStopToken
  else pos ← popF; jumpTo pos.
Definition opJumpi : F result :=
  abort ← abortLoad;
  if (abort : bool) then raise errStopToken
  else
    pos ← popF; cond ← popF;
    if negb (IsZero cond) then jumpTo pos else done_.
Definition opJumpdest : F result := done_.
Definition opPc : F result := p ← st_gets pc; pushop (SetUint64 p).
Definition opMsize : F result :=
  n ← st_gets (fun f => len (store (mem f))); pushop (SetUint64 n).
Definition opGas : F result := g ← contractGas; pushop (SetUint64 g).

(** [opSwap1] ... [opSwap16] and [makeDup] *)
Definition opSwap (n : Z) : F result :=
  onStack (fun st => st' ← swap n st; Ret (tt, st'));; done_.
Definition makeDup (n : Z) : F result :=
  onStack (fun st => st' ← dup n st; Ret (tt, st'));; done_.

Definition opPush0 : F result := pushop wzero.
Definition opPush1 : F result :=
  code ← codeF;
  st_modify (fun f => set_pc (pc f +! 1) f);;
  p ← st_gets pc;
  if p <? len code then
    b ← st_lift (index code p); pushF (SetUint64 b);; done_
  else pushF wzero;; done_.
Definition opPush2 : F result :=
  code ← codeF;
  p ← st_gets pc;
  (if p +! 2 <? len code then
     b ← st_lift (slice code (p +! 1) (p +! 3)); pushF (SetBytes b)
   else if p +! 1 <? len code then
     b ← st_lift (index code (p +! 1)); pushF (SetUint64 (b *! 256))
   else pushF wzero);;
  st_modify (fun f => set_pc (pc f +! 2) f);; done_.
Definition makePush (size pushByteSize : Z) : F result :=
  code ← codeF;
  p ← st_gets pc;
  let codeLen := len code in
  let start := Z.min codeLen (to_int (p +! 1)) in
  let end_ := Z.min codeLen (start + pushByteSize) in
  b ← st_lift (slice code start end_);
  let a := SetBytes b in
  let missing := pushByteSize - (end_ - start) in
  let a := if 0 <? missing then Lsh a (8 * missing) else a in
  pushF a;;
  st_modify (fun f => set_pc (pc f +! size) f);; done_.

(** [for i := 0; i < size; i++ { topics[i] = stack.pop() }] *)
Fixpoint popTopics (n : nat) : F (list Hash) :=
  match n with
  | O => mret []
  | Datatypes.S n => addr ← popF; r ← popTopics n; mret (Bytes32 addr :: r)
  end.

Definition makeLog (size : Z) : F result :=
  ro ← readOnlyF;
  if (ro : bool) then raise ErrWriteProtection
  else
    mStart ← popF; mSize ← popF;
    topics ← popTopics (Z.to_nat size);
    d ← readMemory (fun m => Memory_GetCopy m (Uint64 mStart) (Uint64 mSize));
    a ← contractAddress;
    db (AddLog (mkLog a topics d (wrap64 (BlockNumber env))));; done_.

(** ** Calls and creation *)

(** The common tail of [opCall], [opCallCode], [opDelegateCall] and [opStaticCall]. *)
Definition afterCall (retOffset retSize : word) (r : bytes * Z * error) : F result :=
  let '(ret, returnGas, err) := r in
  pushF (bool_word (bool_decide (err = None)));;
  (if bool_decide (err = None) || bool_decide (err = Some ErrExecutionReverted) then
     onMemory (fun m => Memory_Set m (Uint64 retOffset) (Uint64 retSize) ret)
   else mret tt);;
  refundGas returnGas;;
  setReturnData ret;;
  mret (ret, None).

Definition callGasTempF : F Z := st_gets (fun f => callGasTemp (vm f)).

Definition opCall : F result :=
  temp ← popF;
  gas ← callGasTempF;
  addr ← popF; value ← popF; inOffset ← popF; inSize ← popF; retOffset ← popF; retSize ← popF;
  let toAddr := Bytes20 addr in
  args ← readMemory (fun m => Memory_GetPtr m (Uint64 inOffset) (Uint64 inSize));
  ro ← readOnlyF;
  if (ro : bool) && negb (IsZero value) then raise ErrWriteProtection
  else
    let gas := if negb (IsZero value) then gas +! CallStipend else gas in
    self ← contractAddress;
    r ← on_vm (do_Call calls self toAddr args gas value);
    afterCall retOffset retSize r.

Definition opCallCode : F result :=
  temp ← popF;
  gas ← callGasTempF;
  addr ← popF; value ← popF; inOffset ← popF; inSize ← popF; retOffset ← popF; retSize ← popF;
  let toAddr := Bytes20 addr in
  args ← readMemory (fun m => Memory_GetPtr m (Uint64 inOffset) (Uint64 inSize));
  let gas := if negb (IsZero value) then gas +! CallStipend else gas in
  self ← contractAddress;
  r ← on_vm (do_CallCode calls self toAddr args gas value);
  afterCall retOffset retSize r.

Definition opDelegateCall : F result :=
  temp ← popF;
  gas ← callGasTempF;
  addr ← popF; inOffset ← popF; inSize ← popF; retOffset ← popF; retSize ← popF;
  let toAddr := Bytes20 addr in
  args ← readMemory (fun m => Memory_GetPtr m (Uint64 inOffset) (Uint64 inSize));
  c ← st_gets contract;
  r ← on_vm (do_DelegateCall calls (c_caller c) (c_address c) toAddr args gas (c_value c));
  afterCall retOffset retSize r.

Definition opStaticCall : F result :=
  temp ← popF;
  gas ← callGasTempF;
  addr ← popF; inOffset ← popF; inSize ← popF; retOffset ← popF; retSize ← popF;
  let toAddr := Bytes20 addr in
  args ← readMemory (fun m => Memory_GetPtr m (Uint64 inOffset) (Uint64 inSize));
  self ← contractAddress;
  r ← on_vm (do_StaticCall calls self toAddr args gas);
  afterCall retOffset retSize r.

(** The common tail of [opCreate] and [opCreate2]. *)
Definition afterCreate (w : word) (res : bytes) (returnGas : Z) (suberr : error) : F result :=
  pushF w;;
  refundGas returnGas;;
  if bool_decide (suberr = Some ErrExecutionReverted) then
    setReturnData res;; mret (res, None)
  else setReturnData [];; done_.

Definition opCreate : F result :=
  ro ← readOnlyF;
  if (ro : bool) then raise ErrWriteProtection
  else
    value ← popF; offset ← popF; size ← popF;
    input ← readMemory (fun m => Memory_GetCopy m (Uint64 offset) (Uint64 size));
    gas ← contractGas;
    let gas := if IsEIP150 (chainRules env) then gas -! gas / 64 else gas in
    useGas gas;;
    self ← contractAddress;
    '(res, addr, returnGas, suberr) ← on_vm (do_Create calls self input gas value);
    let stackvalue :=
      if IsHomestead (chainRules env) && bool_decide (suberr = Some ErrCodeStoreOutOfGas)
      then wzero
      else if negb (bool_decide (suberr = None)) &&
              negb (bool_decide (suberr = Some ErrCodeStoreOutOfGas)) then wzero
      else SetBytes (Address_Bytes addr) in
    afterCreate stackvalue res returnGas suberr.

Definition opCreate2 : F result :=
  ro ← readOnlyF;
  if (ro : bool) then raise ErrWriteProtection
  else
    endowment ← popF; offset ← popF; size ← popF; salt ← popF;
    input ← readMemory (fun m => Memory_GetCopy m (Uint64 offset) (Uint64 size));
    gas ← contractGas;
    let gas := gas -! gas / 64 in
    useGas gas;;
    self ← contractAddress;
    '(res, addr, returnGas, suberr) ← on_vm (do_Create2 calls self input gas endowment salt);
    let stackvalue := if negb (bool_decide (suberr = None)) then wzero
                      else SetBytes (Address_Bytes addr) in
    afterCreate stackvalue res returnGas suberr.

(** ** Halting *)

Definition opReturn : F result :=
  offset ← popF; size ← popF;
  ret ← readMemory (fun m => Memory_GetCopy m (Uint64 offset) (Uint64 size));
  mret (ret, Some errStopToken).
Definition opRevert : F result :=
  offset ← popF; size ← popF;
  ret ← readMemory (fun m => Memory_GetCopy m (Uint64 offset) (Uint64 size));
  setReturnData ret;;
  mret (ret, Some ErrExecutionReverted).
Definition opUndefined : F result :=
  code ← codeF; p ← st_gets pc;
  op ← st_lift (index code p);
  raise (ErrInvalidOpCode op).
Definition opStop : F result := raise errStopToken.
Definition opSelfdestruct : F result :=
  ro ← readOnlyF;
  if (ro : bool) then raise ErrWriteProtection
  else
    beneficiary ← popF; self ← contractAddress;
    balance ← db (GetBalance self);
    db (AddBalance (Bytes20 beneficiary) balance);;
    db (SelfDestruct self);;
    raise errStopToken.
Definition opSelfdestruct6780 : F result :=
  ro ← readOnlyF;
  if (ro : bool) then raise ErrWriteProtection
  else
    beneficiary ← popF; self ← contractAddress;
    balance ← db (GetBalance self);
    db (SubBalance self balance);;
    db (AddBalance (Bytes20 beneficiary) balance);;
    db (SelfDestruct6780 self);;
    raise errStopToken.

(** ** Meaning of the tags *)
Definition exec_fn (t : execTag) : F result :=
  match t with
  | OpAdd => opAdd
  | OpSub => opSub
  | OpMul => opMul
  | OpDiv => opDiv
  | OpSdiv => opSdiv
  | OpMod => opMod
  | OpSmod => opSmod
  | OpExp => opExp
  | OpSignExtend => opSignExtend
  | OpNot => opNot
  | OpLt => opLt
  | OpGt => opGt
  | OpSlt => opSlt
  | OpSgt => opSgt
  | OpEq => opEq
  | OpIszero => opIszero
  | OpAnd => opAnd
  | OpOr => opOr
  | OpXor => opXor
  | OpByte => opByte
  | OpAddmod => opAddmod
  | OpMulmod => opMulmod
  | OpSHL => opSHL
  | OpSHR => opSHR
  | OpSAR => opSAR
  | OpKeccak256 => opKeccak256
  | OpAddress => opAddress
  | OpBalance => opBalance
  | OpOrigin => opOrigin
  | OpCaller => opCaller
  | OpCallValue => opCallValue
  | OpCallDataLoad => opCallDataLoad
  | OpCallDataSize => opCallDataSize
  | OpCallDataCopy => opCallDataCopy
  | OpReturnDataSize => opReturnDataSize
  | OpReturnDataCopy => opReturnDataCopy
  | OpExtCodeSize => opExtCodeSize
  | OpCodeSize => opCodeSize
  | OpCodeCopy => opCodeCopy
  | OpExtCodeCopy => opExtCodeCopy
  | OpExtCodeHash => opExtCodeHash
  | OpGasprice => opGasprice
  | OpBlockhash => opBlockhash
  | OpCoinbase => opCoinbase
  | OpTimestamp => opTimestamp
  | OpNumber => opNumber
  | OpDifficulty => opDifficulty
  | OpRandom => opRandom
  | OpGasLimit => opGasLimit
  | OpPop => opPop
  | OpMload => opMload
  | OpMstore => opMstore
  | OpMstore8 => opMstore8
  | OpSload => opSload
  | OpSstore => opSstore
  | OpJump => opJump
  | OpJumpi => opJumpi
  | OpJumpdest => opJumpdest
  | OpPc => opPc
  | OpMsize => opMsize
  | OpGas => opGas
  | OpPush1 => opPush1
  | OpPush2 => opPush2
  | OpPush0 => opPush0
  | OpCreate => opCreate
  | OpCreate2 => opCreate2
  | OpCall => opCall
  | OpCallCode => opCallCode
  | OpDelegateCall => opDelegateCall
  | OpStaticCall => opStaticCall
  | OpReturn => opReturn
  | OpRevert => opRevert
  | OpUndefined => opUndefined
  | OpStop => opStop
  | OpSelfdestruct => opSelfdestruct
  | OpSelfdestruct6780 => opSelfdestruct6780
  | OpSelfBalance => opSelfBalance
  | OpChainID => opChainID
  | OpBaseFee => opBaseFee
  | OpTload => opTload
  | OpTstore => opTstore
  | OpMcopy => opMcopy
  | OpBlobHash => opBlobHash
  | OpBlobBaseFee => opBlobBaseFee
  | OpSwap n => opSwap n
  | MakeDup n => makeDup n
  | MakePush size n => makePush size n
  | MakeLog n => makeLog n
  end.
End instructions.
