(* ===== verification/Evm.v ===== *)
(** * The interpreter loop and the EVM's entry points

    Models [core/vm/interpreter.go] ([Run]), [core/vm/evm.go] ([Call], [CallCode],
    [DelegateCall], [StaticCall], [create], [initNewContract], [Create], [Create2],
    [resolveCode], [resolveCodeHash]) and the transfer functions of [core/evm.go].

    A frame runs instructions, and an instruction may start another frame: the recursion is cut
    by one fuel counter, spent once per executed instruction.  [loop (S n)] executes one
    instruction whose calls run on [loop n].  EvmSafe shows that fuel above the gas supplied is
    always enough.

    The tracer is nil, and the branches of EIP-4762 (Verkle) end in [Unmodelled]. *)

From S2P Require Import Prelude Bytes Uint256 Params Machine Opcodes Analysis JumpTable VM GasTable Instructions.

Section evm.
Context `{U : Uint256} `{C : Crypto} {S : Type} `{DB : !StateDB S}.
Context (env : Env) (table : JumpTable).

Abbreviation F := (ST (Frame S)).
Abbreviation V := (ST (VM S)).
Abbreviation result := (bytes * option vmerror)%type.

(** ** Transfers ([core/evm.go]) *)

(** [db.GetBalance(addr).Cmp(amount) >= 0] *)
Definition CanTransfer (addr : Address) (amount : word) : V bool :=
  b ← vm_db (GetBalance addr); mret (negb (Lt b amount)).

Definition Transfer (sender recipient : Address) (amount : word) : V unit :=
  vm_db (SubBalance sender amount);; vm_db (AddBalance recipient amount);; mret tt.

(** ** Code lookup *)

Definition resolveCode (addr : Address) : V bytes :=
  code ← vm_db (GetCode addr);
  if negb (IsPrague (chainRules env)) then mret code
  else match ParseDelegation code with
       | Some target => vm_db (GetCode target)
       | None => mret code
       end.

Definition resolveCodeHash (addr : Address) : V Hash :=
  if IsPrague (chainRules env) then
    code ← vm_db (GetCode addr);
    match ParseDelegation code with
    | Some target => vm_db (GetCodeHash target)
    | None => vm_db (GetCodeHash addr)
    end
  else vm_db (GetCodeHash addr).

Definition isSystemCall (caller : Address) : bool := caller =? SystemAddress.

Definition precompile (addr : Address) : option PrecompiledContract := precompiles env !! addr.

(** [if evm.chainRules.IsEIP4762 { ... }] *)
Definition eip4762 : V unit :=
  if IsEIP4762 (chainRules env) then st_fail Unmodelled else mret tt.

(** ** Calls *)
Section calls.
(** [interpreter.Run]; the contract is mutated by the run, so it is also a result. *)
Context (run : Contract -> bytes -> bool -> V (Contract * bytes * error)).

(** The end of [Call] and its variants: revert, and consume the gas unless the code asked
    for the revert. *)
Definition finishCall (snapshot : Z) (r : bytes * Z * error) : V (bytes * Z * error) :=
  let '(ret, gas, err) := r in
  match err with
  | None => mret (ret, gas, None)
  | Some e =>
      vm_db (RevertToSnapshot snapshot);;
      mret (ret, (if bool_decide (e = ErrExecutionReverted) then gas else 0), Some e)
  end.

Definition runContract (contract : Contract) (input : bytes) (readOnly : bool)
    : V (bytes * Z * error) :=
  '(contract, ret, err) ← run contract input readOnly;
  mret (ret, Gas contract, err).

Definition Call (caller addr : Address) (input : bytes) (gas : Z) (value : word)
    : V (bytes * Z * error) :=
  d ← st_gets depth;
  if CallCreateDepth <? d then mret ([], gas, Some ErrDepth)
  else
    can ← (if negb (IsZero value) then CanTransfer caller value else mret true);
    if negb (can : bool) then mret ([], gas, Some ErrInsufficientBalance)
    else
      snapshot ← vm_db Snapshot;
      let p := precompile addr in
      exist ← vm_db (Exist addr);
      (if negb (exist : bool) && bool_decide (p = None) && negb (isSystemCall caller)
       then eip4762 else mret tt);;
      if negb exist && bool_decide (p = None) && IsEIP158 (chainRules env) && IsZero value
      then mret ([], gas, None)
      else
        (if negb exist then vm_db (CreateAccount addr) else mret tt);;
        Transfer caller addr value;;
        r ← (match p with
             | Some p => mret (RunPrecompiledContract p input gas)
             | None =>
                 code ← resolveCode addr;
                 if len code =? 0 then mret ([], gas, None)
                 else
                   hash ← resolveCodeHash addr;
                   let contract := set_IsSystemCall (isSystemCall caller)
                                     (NewContract caller addr value gas) in
                   runContract (SetCallCode contract hash code) input false
             end);
        finishCall snapshot r.

Definition CallCode (caller addr : Address) (input : bytes) (gas : Z) (value : word)
    : V (bytes * Z * error) :=
  d ← st_gets depth;
  if CallCreateDepth <? d then mret ([], gas, Some ErrDepth)
  else
    can ← CanTransfer caller value;
    if negb (can : bool) then mret ([], gas, Some ErrInsufficientBalance)
    else
      snapshot ← vm_db Snapshot;
      r ← (match precompile addr with
           | Some p => mret (RunPrecompiledContract p input gas)
           | None =>
               let contract := NewContract caller caller value gas in
               hash ← resolveCodeHash addr;
               code ← resolveCode addr;
               runContract (SetCallCode contract hash code) input false
           end);
      finishCall snapshot r.

Definition DelegateCall (originCaller caller addr : Address) (input : bytes) (gas : Z)
    (value : word) : V (bytes * Z * error) :=
  d ← st_gets depth;
  if CallCreateDepth <? d then mret ([], gas, Some ErrDepth)
  else
    snapshot ← vm_db Snapshot;
    r ← (match precompile addr with
         | Some p => mret (RunPrecompiledContract p input gas)
         | None =>
             let contract := NewContract originCaller caller value gas in
             hash ← resolveCodeHash addr;
             code ← resolveCode addr;
             runContract (SetCallCode contract hash code) input false
         end);
    finishCall snapshot r.

Definition StaticCall (caller addr : Address) (input : bytes) (gas : Z)
    : V (bytes * Z * error) :=
  d ← st_gets depth;
  if CallCreateDepth <? d then mret ([], gas, Some ErrDepth)
  else
    snapshot ← vm_db Snapshot;
    vm_db (AddBalance addr wzero);;
    r ← (match precompile addr with
         | Some p => mret (RunPrecompiledContract p input gas)
         | None =>
             let contract := NewContract caller addr wzero gas in
             hash ← resolveCodeHash addr;
             code ← resolveCode addr;
             runContract (SetCallCode contract hash code) input true
         end);
    finishCall snapshot r.

(** ** Creation *)

Definition initNewContract (contract : Contract) (address : Address)
    : V (Contract * bytes * error) :=
  '(contract, ret, err) ← run contract [] false;
  if negb (bool_decide (err = None)) then mret (contract, ret, err)
  else if IsEIP158 (chainRules env) && (MaxCodeSize <? len ret)
  then mret (contract, ret, Some ErrMaxCodeSizeExceeded)
  else if bool_decide (head ret = Some 239) && IsLondon (chainRules env)
  then mret (contract, ret, Some ErrInvalidCode)
  else
    eip4762;;
    let createDataGas := len ret *! CreateDataGas in
    let '(paid, contract) := UseGas contract createDataGas in
    if negb paid then mret (contract, ret, Some ErrCodeStoreOutOfGas)
    else
      vm_db (SetCode address ret);;
      mret (contract, ret, None).

Definition create (caller : Address) (code : bytes) (gas : Z) (value : word)
    (address : Address) : V (bytes * Address * Z * error) :=
  d ← st_gets depth;
  if CallCreateDepth <? d then mret ([], 0, gas, Some ErrDepth)
  else
    can ← CanTransfer caller value;
    if negb (can : bool) then mret ([], 0, gas, Some ErrInsufficientBalance)
    else
      nonce ← vm_db (GetNonce caller);
      if nonce +! 1 <? nonce then mret ([], 0, gas, Some ErrNonceUintOverflow)
      else
        vm_db (SetNonce caller (nonce +! 1));;
        eip4762;;
        (if IsEIP2929 (chainRules env) then vm_db (AddAddressToAccessList address)
         else mret tt);;
        contractHash ← vm_db (GetCodeHash address);
        storageRoot ← vm_db (GetStorageRoot address);
        n ← vm_db (GetNonce address);
        if negb (n =? 0)
           || (negb (contractHash =? 0) && negb (contractHash =? EmptyCodeHash))
           || (negb (storageRoot =? 0) && negb (storageRoot =? EmptyRootHash))
        then mret ([], 0, 0, Some ErrContractAddressCollision)
        else
          snapshot ← vm_db Snapshot;
          exist ← vm_db (Exist address);
          (if negb (exist : bool) then vm_db (CreateAccount address) else mret tt);;
          vm_db (CreateContract address);;
          (if IsEIP158 (chainRules env) then vm_db (SetNonce address 1) else mret tt);;
          eip4762;;
          Transfer caller address value;;
          let contract := set_IsDeployment true
            (SetCallCode (NewContract caller address value gas) 0 code) in
          '(contract, ret, err) ← initNewContract contract address;
          contract ←
            (if negb (bool_decide (err = None)) &&
                (IsHomestead (chainRules env)
                 || negb (bool_decide (err = Some ErrCodeStoreOutOfGas)))
             then
               vm_db (RevertToSnapshot snapshot);;
               mret (if negb (bool_decide (err = Some ErrExecutionReverted))
                     then (UseGas contract (Gas contract)).2 else contract)
             else mret contract);
          mret (ret, address, Gas contract, err).

Definition Create (caller : Address) (code : bytes) (gas : Z) (value : word)
    : V (bytes * Address * Z * error) :=
  nonce ← vm_db (GetNonce caller);
  contractAddr ← st_lift (CreateAddress caller nonce);
  create caller code gas value contractAddr.

Definition Create2 (caller : Address) (code : bytes) (gas : Z) (endowment salt : word)
    : V (bytes * Address * Z * error) :=
  let inithash := Hash_Bytes (Keccak256 code) in
  create caller code gas endowment (CreateAddress2 caller (Bytes32 salt) inithash).

Definition evmCalls : Calls :=
  mkCalls Call CallCode DelegateCall StaticCall Create Create2.
End calls.

(** ** The interpreter *)

(** The body of [Run] around its loop.  [depth] and [readOnly] are restored by deferred
    functions. *)
Definition runWith (loop : F result) (contract : Contract) (input : bytes) (readOnly_ : bool)
    : V (Contract * bytes * error) := fun v =>
  let v := vm_set_depth (depth v + 1) v in
  let setRO := readOnly_ && negb (readOnly v) in
  let v := if setRO then vm_set_readOnly true v else v in
  let v := vm_set_returnData [] v in
  let leave (v : VM S) : VM S :=
    let v := if setRO then vm_set_readOnly false v else v in
    vm_set_depth (depth v - 1) v in
  if len (Code contract) =? 0 then Ret ((contract, [], None), leave v)
  else
    match loop (mkFrame 0 [] NewMemory (set_Input input contract) v) with
    | Ret ((res, err), f) =>
        let err := if bool_decide (err = Some errStopToken) then None else err in
        Ret ((GasTable.contract f, res, err), leave (vm f))
    | Fail e => Fail e
    end.

(** [if contract.Gas < cost { return nil, ErrOutOfGas } else { contract.Gas -= cost }] *)
Definition charge (cost : Z) : F bool := fun f =>
  let c := GasTable.contract f in
  if Gas c <? cost then Ret (false, f)
  else Ret (true, set_contract (set_Gas (Gas c -! cost) c) f).

(** The requested memory size in bytes, rounded up to words. *)
Definition memSize (o : operation) (st : Stack) : Outcome (Z * bool) :=
  match memorySize o with
  | None => Ret (0, false)
  | Some t =>
      '(memSize, overflow) ← mem_fn t st;
      Ret (if (overflow : bool) then (0, true) else SafeMul (toWordSize memSize) 32)
  end.

(** One iteration of the loop up to the end of [execute]: [inr] is the result of an early
    return of the loop, [inl] that of the executed instruction. *)
Definition step (calls : Calls) : F (result + result) :=
  c ← st_gets GasTable.contract;
  if IsEIP4762 (chainRules env) && negb (IsDeployment c) && negb (IsSystemCall c)
  then st_fail Unmodelled
  else
    f ← st_get;
    let op := GetOp c (pc f) in
    match table !! op with
    | None => st_fail PanicNil
    | Some operation =>
        let sLen := len (stack f) in
        if sLen <? op_minStack operation
        then mret (inr ([], Some (ErrStackUnderflow sLen (op_minStack operation))))
        else if op_maxStack operation <? sLen
        then mret (inr ([], Some (ErrStackOverflow sLen (op_maxStack operation))))
        else
          paid ← charge (constantGas operation);
          if negb (paid : bool) then mret (inr ([], Some ErrOutOfGas))
          else
            r ← (match dynamicGas operation with
                 | None => mret (inl 0)
                 | Some t =>
                     '(memorySize, overflow) ← st_lift (memSize operation (stack f));
                     if (overflow : bool) then mret (inr ErrGasUintOverflow)
                     else
                       '(dynamicCost, err) ← gas_fn env t memorySize;
                       match err with
                       | Some e => mret (inr (ErrDynamicGas e))
                       | None =>
                           paid ← charge dynamicCost;
                           mret (if (paid : bool) then inl memorySize else inr ErrOutOfGas)
                       end
                 end);
            match r with
            | inr e => mret (inr ([], Some e))
            | inl memorySize =>
                (if 0 <? memorySize
                 then st_modify (fun f => set_mem (Memory_Resize (mem f) memorySize) f)
                 else mret tt);;
                res ← exec_fn env calls (execute operation);
                mret (inl res)
            end
    end.

Fixpoint loop (fuel : nat) : F result :=
  match fuel with
  | O => st_fail OutOfFuel
  | Datatypes.S fuel =>
      r ← step (evmCalls (runWith (loop fuel)));
      match r with
      | inr res => mret res
      | inl (res, Some e) => mret (res, Some e)
      | inl (res, None) =>
          st_modify (fun f => set_pc (pc f +! 1) f);;
          loop fuel
      end
  end.

Definition Run (fuel : nat) := runWith (loop fuel).

(** The entry points with the interpreter tied in. *)
Definition evm_Call (fuel : nat) := Call (Run fuel).
Definition evm_CallCode (fuel : nat) := CallCode (Run fuel).
Definition evm_DelegateCall (fuel : nat) := DelegateCall (Run fuel).
Definition evm_StaticCall (fuel : nat) := StaticCall (Run fuel).
Definition evm_Create (fuel : nat) := Create (Run fuel).
Definition evm_Create2 (fuel : nat) := Create2 (Run fuel).
End evm.
