(* ===== verification/StateSpec.v ===== *)
(** * The contract of the [StateDB] interface

    The EVM relies on its state database only through the methods of [StateDB]
    ([core/vm/interface.go]).  [StateDBSpec] states what it relies on: the methods do not panic,
    a snapshot stays usable until the state is reverted past it, reverting restores the state
    seen at the snapshot, and a code hash belongs to the code reported for the same account.
    The theorems about the EVM are proved for any implementation of this class. *)

From S2P Require Import Prelude Bytes Uint256 Params Machine VM.

Section requests.
Context `{U : Uint256}.

(** The requests an implementation must always serve.  [SetCode], [CreateAccount],
    [CreateContract] and [RevertToSnapshot] have laws of their own; [Prepare] and [Finalise]
    delimit transactions and are not called by the EVM. *)
Definition req_ok {A} (r : sdbE A) : Prop :=
  match r with
  | SetCode _ _ | CreateAccount _ | CreateContract _
  | RevertToSnapshot _ | Prepare _ _ _ _ _ _ | Finalise _ => False
  | _ => True
  end.

(** The methods that only read. *)
Definition is_read {A} (r : sdbE A) : bool :=
  match r with
  | GetBalance _ | GetNonce _ | GetCodeHash _ | GetCode _ | GetCodeSize _ | GetRefund
  | GetCommittedState _ _ | GetState _ _ | GetStorageRoot _ | GetTransientState _ _
  | HasSelfDestructed _ | Exist _ | Empty _ | AddressInAccessList _ | SlotInAccessList _ _
  | Snapshot => true
  | _ => false
  end.

(** The methods that leave balances, nonces, codes, storage and logs alone. *)
Definition neutral {A} (r : sdbE A) : bool :=
  match r with
  | AddRefund _ | SubRefund _ | AddAddressToAccessList _ | AddSlotToAccessList _ _
  | AddPreimage _ _ => true
  | AddBalance _ amount | SubBalance _ amount => IsZero amount
  | _ => is_read r
  end.

(** [SubRefund] panics when the counter would go below zero. *)
Definition is_SubRefund {A} (r : sdbE A) : bool :=
  match r with SubRefund _ => true | _ => false end.
End requests.

(** Every snapshot that is live in [s] is live in [s'], and a fresh account stays fresh. *)
Definition keeps_with {S : Type} (reverts_to : Z -> S -> S -> Prop) (fresh : S -> Address -> Prop)
    (s s' : S) : Prop :=
  (forall id s0, reverts_to id s s0 -> reverts_to id s' s0) /\
  (forall a, fresh s a -> fresh s' a).

Class StateDBSpec `{U : Uint256} `{C : Crypto} (S : Type) `{DB : !StateDB S} := {
  (** the representation invariant of the implementation *)
  db_ok : S -> Prop;
  (** the code the state reports for an account *)
  codes : S -> Address -> bytes;
  (** the accounts that exist *)
  existing : S -> Address -> Prop;
  (** the accounts whose code may be replaced *)
  fresh : S -> Address -> Prop;
  (** equality of everything the interface can observe *)
  same_state : relation S;
  (** equality of balances, nonces, codes, storage, transient storage and logs *)
  same_world : relation S;
  (** [reverts_to id s s0]: [s0] is the state that was current when snapshot [id] was taken,
      and [s] can still be reverted to it *)
  reverts_to : Z -> S -> S -> Prop;

  same_state_equiv :: Equivalence same_state;
  same_world_equiv :: Equivalence same_world;
  same_state_world : forall s s', same_state s s' -> same_world s s';
  sdb_world : forall A (r : sdbE A) s a s',
    db_ok s -> neutral r = true -> sdb r s = Ret (a, s') -> same_world s s';
  sdb_step : forall A (r : sdbE A) s, db_ok s -> req_ok r ->
    match sdb r s with
    | Ret (_, s') => db_ok s' /\ keeps_with reverts_to fresh s s'
    | Fail e => e = PanicRefund /\ is_SubRefund r = true
    end;
  sdb_read : forall A (r : sdbE A) s a s',
    db_ok s -> is_read r = true -> sdb r s = Ret (a, s') ->
    same_state s s' /\ forall x, codes s' x = codes s x;
  sdb_snapshot : forall s id s', db_ok s -> sdb Snapshot s = Ret (id, s') -> reverts_to id s' s;
  sdb_revert : forall id s s0, db_ok s -> reverts_to id s s0 ->
    exists s', sdb (RevertToSnapshot id) s = Ret (tt, s') /\ db_ok s' /\ same_state s0 s' /\
      keeps_with reverts_to fresh s0 s';
  sdb_code : forall a s c s', db_ok s -> sdb (GetCode a) s = Ret (c, s') ->
    c = codes s a /\ data_ok c /\ fresh s' a;
  sdb_codehash : forall a s h s', db_ok s -> sdb (GetCodeHash a) s = Ret (h, s') ->
    (h = 0 \/ h = Keccak256 (codes s a)) /\ (h = 0 \/ h = EmptyCodeHash -> fresh s' a);
  sdb_refund : forall s r s', db_ok s -> sdb GetRefund s = Ret (r, s') -> is_u64 r /\ s' = s;
  sdb_exist : forall a s b s', db_ok s -> sdb (Exist a) s = Ret (b, s') ->
    existing s' a <-> b = true;
  sdb_createAccount : forall a s, db_ok s -> ~ existing s a ->
    exists s', sdb (CreateAccount a) s = Ret (tt, s') /\ db_ok s' /\
      keeps_with reverts_to fresh s s' /\ existing s' a /\ same_world s s';
  sdb_createContract : forall a s, db_ok s -> existing s a ->
    exists s', sdb (CreateContract a) s = Ret (tt, s') /\ db_ok s' /\
      keeps_with reverts_to fresh s s';
  sdb_prepare : forall rules sender coinbase dst precompiles list s, db_ok s ->
    IsEIP2929 rules && IsEIP4762 rules = false ->
    exists s', sdb (Prepare rules sender coinbase dst precompiles list) s = Ret (tt, s') /\ db_ok s';
  sdb_setCode : forall a code s, db_ok s -> fresh s a -> data_ok code ->
    exists prev s', sdb (SetCode a code) s = Ret (prev, s') /\ db_ok s' /\
      keeps_with reverts_to fresh s s';
}.

Section keeps.
Context `{U : Uint256} `{C : Crypto} {S : Type} `{DB : !StateDB S} `{SP : !StateDBSpec S}.

Definition keeps : relation S := keeps_with reverts_to fresh.

(** What a piece of code that runs with the read-only flag [ro] does to the state. *)
Definition rel (ro : bool) (s s' : S) : Prop :=
  keeps s s' /\ (ro = true -> same_world s s').

Lemma rel_refl ro s : rel ro s s.
Proof. by repeat split. Qed.
Lemma rel_trans ro s1 s2 s3 : rel ro s1 s2 -> rel ro s2 s3 -> rel ro s1 s3.
Proof. intros [[K1 F1] W1] [[K2 F2] W2]. split; [split; eauto|]. intros Hro. etrans; eauto. Qed.

#[global] Instance rel_preorder ro : PreOrder (rel ro).
Proof. split; [exact (rel_refl ro)|exact (rel_trans ro)]. Qed.

Lemma rel_live ro s s' id s0 : rel ro s s' -> reverts_to id s s0 -> reverts_to id s' s0.
Proof. intros [[H _] _]. apply H. Qed.
Lemma rel_fresh ro s s' a : rel ro s s' -> fresh s a -> fresh s' a.
Proof. intros [[_ H] _]. apply H. Qed.
Lemma rel_weaken (w ro : bool) s s' : (ro = true -> w = true) -> rel w s s' -> rel ro s s'.
Proof. intros H [? ?]. split; auto. Qed.
Lemma rel_same ro s s' : keeps s s' -> same_state s s' -> rel ro s s'.
Proof. intros ? ?. split; [done|]. intros _. by apply same_state_world. Qed.
End keeps.

(** ** Sessions

    What happens to a state between two points of an execution: admissible method calls, and
    scopes that take a snapshot, go on, and revert to it. *)
Section session.
Context `{U : Uint256} `{C : Crypto} {S : Type} `{DB : !StateDB S} `{SP : !StateDBSpec S}.

(** An account is created only if it does not exist, and code is set only on a fresh one;
    transaction boundaries are not crossed. *)
Definition admissible {A} (r : sdbE A) (s : S) : Prop :=
  match r with
  | SetCode a c => fresh s a /\ data_ok c
  | CreateAccount a => ~ existing s a
  | CreateContract a => existing s a
  | RevertToSnapshot _ | Prepare _ _ _ _ _ _ | Finalise _ => False
  | _ => True
  end.

Inductive session : S -> S -> Prop :=
  | session_done s : session s s
  | session_call A (r : sdbE A) a s s1 s2 :
      admissible r s -> sdb r s = Ret (a, s1) -> session s1 s2 -> session s s2
  | session_scope id s s1 s2 s3 s4 :
      sdb Snapshot s = Ret (id, s1) -> session s1 s2 ->
      sdb (RevertToSnapshot id) s2 = Ret (tt, s3) -> session s3 s4 -> session s s4.

Lemma admissible_step A (r : sdbE A) s : db_ok s -> admissible r s ->
  match sdb r s with
  | Ret (_, s') => db_ok s' /\ keeps s s'
  | Fail e => e = PanicRefund /\ is_SubRefund r = true
  end.
Proof.
  intros Hs Hr. destruct r; cbn in Hr; try done; try (apply sdb_step; done).
  - by destruct (sdb_createAccount a s Hs Hr) as (s' & -> & ? & ? & _).
  - by destruct (sdb_createContract a s Hs Hr) as (s' & -> & ? & ?).
  - destruct Hr as [Hf Hc]. by destruct (sdb_setCode a code s Hs Hf Hc) as (p & s' & -> & ? & ?).
Qed.

Lemma keeps_trans s1 s2 s3 : keeps s1 s2 -> keeps s2 s3 -> keeps s1 s3.
Proof. intros [K1 F1] [K2 F2]. split; eauto. Qed.

Lemma session_keeps s s' : session s s' -> db_ok s -> db_ok s' /\ keeps s s'.
Proof.
  induction 1 as [s|A r a s s1 s2 Hr E _ IH|id s s1 s2 s3 s4 Esn _ IH1 Erv _ IH2]; intros Hs.
  - by repeat split.
  - pose proof (admissible_step A r s Hs Hr) as H. rewrite E in H. destruct H as [Hs1 K1].
    destruct (IH Hs1) as [Hs2 K2]. split; [done|]. by eapply keeps_trans.
  - pose proof (sdb_step _ Snapshot s Hs I) as H. rewrite Esn in H. destruct H as [Hs1 _].
    destruct (IH1 Hs1) as [Hs2 [K12 _]].
    destruct (sdb_revert id s2 s Hs2) as (s3' & E & Hs3 & _ & K3).
    { apply K12. by apply sdb_snapshot. }
    rewrite E in Erv. injection Erv as ->. destruct (IH2 Hs3) as [Hs4 K4].
    split; [done|]. by eapply keeps_trans.
Qed.

(** A method other than [SubRefund] answers, and the session goes on. *)
Lemma session_next A (r : sdbE A) s (P : S -> Prop) :
  db_ok s -> admissible r s -> is_SubRefund r = false ->
  (forall s1, db_ok s1 -> exists s2, session s1 s2 /\ P s2) -> exists s2, session s s2 /\ P s2.
Proof.
  intros Hs Hr Hn Hk. pose proof (admissible_step A r s Hs Hr) as H.
  destruct (sdb r s) as [[a s1]|e] eqn:E; [|destruct H; congruence].
  destruct (Hk s1) as (s2 & H2 & HP); [apply H|]. exists s2. split; [|done].
  by eapply session_call.
Qed.
End session.
