(* ===== verification/StateProofs.v ===== *)
(** * The state database keeps the promises of the [StateDB] interface

    [state_StateDBSpec]: the journalled state of [State.v] implements [StateDBSpec], for every
    reader that finds the code of the accounts it knows.  The core is a simulation argument:

    - [seq] is equality of everything the interface observes; the caches of loaded objects,
      storage slots and code are not part of it, nor is the set of pre-images;
    - [refines s s'] adds that a warm code cache stays warm, and every journal entry is reverted
      in the same way in two such states ([revertEntries_mono]);
    - [ext s s'] says that the journal of [s'] extends that of [s] by entries whose reverting
      restores [s]; it is a preorder, and every operation of the EVM stays in it ([run_ext]). *)

From stdpp Require Import sorting.
From S2P Require Import Prelude Bytes Uint256 Params Machine VM StateSpec State.
Import StateDB.

(** ** Binary search ([sort.Search]) *)

Lemma sort_Search_loop_spec fuel (f : Z -> bool) k i j :
  (forall x, i <= x < j -> f x = (k <=? x)) -> i <= k <= j -> j - i <= Z.of_nat fuel ->
  sort_Search_loop fuel f i j = k.
Proof.
  revert i j. induction fuel as [|fuel IH]; intros i j Hf Hk Hfuel; cbn [sort_Search_loop]; [lia|].
  destruct (Z.ltb_spec i j); [|lia].
  assert (Hh : i <= (i + j) / 2 < j).
  { split; [apply Z.div_le_lower_bound|apply Z.div_lt_upper_bound]; lia. }
  rewrite Hf by done. destruct (Z.leb_spec k ((i + j) / 2)); cbn [negb].
  - apply IH; [intros; apply Hf; lia|lia|lia].
  - apply IH; [intros; apply Hf; lia|lia|lia].
Qed.

(** [sort.Search] finds the least index from which the predicate holds. *)
Lemma sort_Search_spec n (f : Z -> bool) k :
  (forall x, 0 <= x < n -> f x = (k <=? x)) -> 0 <= k <= n -> sort_Search n f = k.
Proof. intros Hf Hk. apply sort_Search_loop_spec; [done|done|lia]. Qed.

Section state_proofs.
Context `{U : Uint256} `{C : Crypto} (reader : Reader).

(** ** What the interface observes *)

(** The object that [getStateObject] would return. *)
Definition objectAt (s : state) (a : Address) : option stateObject :=
  match stateObjects s !! a with
  | Some o => Some o
  | None =>
      match stateObjectsDestruct s !! a with
      | Some _ => None
      | None =>
          match rd_Account reader a with
          | Some (Some acct) => Some (newObject (Some acct))
          | _ => None
          end
      end
  end.

(** The code that [Code] would return. *)
Definition codeOf (a : Address) (o : stateObject) : bytes :=
  if negb (len (code o) =? 0) then code o
  else if acc_CodeHash (data o) =? EmptyCodeHash then []
  else default [] (rd_Code reader a (acc_CodeHash (data o))).

(** The values that [GetCommittedState] and [GetState] would return; [ds] are the accounts
    destructed in this block, whose storage in the database is dead. *)
Definition committed (ds : gmap Z stateObject) (a : Address) (o : stateObject) (k : Hash) : Hash :=
  match pendingStorage o !! k with
  | Some v => v
  | None =>
      match originStorage o !! k with
      | Some v => v
      | None =>
          match ds !! a with
          | Some _ => 0
          | None => default 0 (rd_Storage reader a k)
          end
      end
  end.

Definition current (ds : gmap Z stateObject) (a : Address) (o : stateObject) (k : Hash) : Hash :=
  match dirtyStorage o !! k with Some v => v | None => committed ds a o k end.

(** The code of the object is loaded, or it has none. *)
Definition warm (o : stateObject) : Prop :=
  code o <> [] \/ acc_CodeHash (data o) = EmptyCodeHash.

Record obj_eq (ds : gmap Z stateObject) (a : Address) (o o' : stateObject) : Prop := {
  oe_data : data o' = data o;
  oe_code : codeOf a o' = codeOf a o;
  oe_destructed : selfDestructed o' = selfDestructed o;
  oe_new : newContract o' = newContract o;
  oe_committed : forall k, committed ds a o' k = committed ds a o k;
  oe_current : forall k, current ds a o' k = current ds a o k;
}.

Record seq (s s' : state) : Prop := {
  se_objects : forall a, option_Forall2 (obj_eq (stateObjectsDestruct s) a) (objectAt s a) (objectAt s' a);
  se_destruct : stateObjectsDestruct s' = stateObjectsDestruct s;
  se_refund : refund s' = refund s;
  se_tx : thash s' = thash s /\ txIndex s' = txIndex s;
  se_logs : forall h, default [] (logs s' !! h) = default [] (logs s !! h);
  se_logSize : logSize s' = logSize s;
  se_access : access s' = access s;
  se_transient : forall a k, transient_Get (transient s') a k = transient_Get (transient s) a k;
}.

Definition db_fresh (s : state) (a : Address) : Prop :=
  match objectAt s a with Some o => warm o | None => True end.

Definition refines (s s' : state) : Prop :=
  seq s s' /\ forall a, db_fresh s a -> db_fresh s' a.

#[global] Instance obj_eq_equiv ds a : Equivalence (obj_eq ds a).
Proof.
  split.
  - by intros o.
  - intros o o' []. by split; symmetry.
  - intros o o' o'' [] []. split; etrans; eauto.
Qed.

#[global] Instance seq_equiv : Equivalence seq.
Proof.
  split.
  - by intros s; split.
  - intros s s' [Ho Hd ? [] ? ? ? ?]. split; try done. intros a. rewrite Hd.
    destruct (Ho a); by constructor.
  - intros s1 s2 s3 [Ho Hd ? [] ? ? ? ?] [Ho' Hd' ? [] ? ? ? ?].
    split; try (split; congruence); try congruence; [|intros; by etrans..].
    intros a. specialize (Ho a). specialize (Ho' a). rewrite Hd in Ho'.
    destruct Ho as [o1 o2 H12|]; inversion Ho' as [? o3 H23|]; constructor. by etrans.
Qed.

#[global] Instance refines_preorder : PreOrder refines.
Proof.
  split; [by intros s; split|].
  intros s1 s2 s3 [] []. split; [by etrans|eauto].
Qed.

(** States that differ in the journal, the memorized error and the pre-images only. *)
Lemma refines_eq s s' :
  stateObjects s' = stateObjects s -> stateObjectsDestruct s' = stateObjectsDestruct s ->
  refund s' = refund s -> thash s' = thash s -> txIndex s' = txIndex s -> logs s' = logs s ->
  logSize s' = logSize s -> access s' = access s -> transient s' = transient s -> refines s s'.
Proof.
  intros Ho Hd Hr Ht Hi Hl Hls Ha Htr.
  assert (Hp : forall a, objectAt s' a = objectAt s a) by (intros; unfold objectAt; by rewrite Ho, Hd).
  split; [|intros a; unfold db_fresh; by rewrite Hp].
  split; try done; [|intros; by rewrite ?Hl, ?Htr..].
  intros a. rewrite Hp. by destruct (objectAt s a); constructor.
Qed.

(** ** Loading and replacing objects *)

Definition put (a : Address) (o : stateObject) (s : state) : state :=
  with_stateObjects (<[a := o]> (stateObjects s)) s.

Lemma objectAt_put s a o b : objectAt (put a o s) b = if decide (b = a) then Some o else objectAt s b.
Proof.
  unfold objectAt, put. cbn. destruct (decide (b = a)) as [->|].
  - by rewrite lookup_insert_eq.
  - by rewrite lookup_insert_ne.
Qed.

Lemma db_fresh_put s a o b :
  db_fresh (put a o s) b <-> (if decide (b = a) then warm o else db_fresh s b).
Proof. unfold db_fresh. rewrite objectAt_put. by destruct (decide _). Qed.

Lemma refines_put s s' a o o' :
  refines s s' -> obj_eq (stateObjectsDestruct s) a o o' -> (warm o -> warm o') ->
  refines (put a o s) (put a o' s').
Proof.
  intros [Hs Hf] Ho Hw. split.
  - destruct Hs as [Hp ? ? [] ? ? ? ?]. split; try done. intros b. rewrite !objectAt_put. cbn.
    destruct (decide (b = a)) as [->|]; [by constructor|apply Hp].
  - intros b. rewrite !db_fresh_put. destruct (decide _); auto.
Qed.

(** Replacing an object by an equivalent one. *)
Lemma refines_put_same s a o o' :
  objectAt s a = Some o -> obj_eq (stateObjectsDestruct s) a o o' -> (warm o -> warm o') ->
  refines s (put a o' s).
Proof.
  intros Hp Ho Hw. split.
  - split; try done. intros b. rewrite objectAt_put. destruct (decide (b = a)) as [->|]; [|done].
    rewrite Hp. by constructor.
  - intros b. rewrite db_fresh_put. unfold db_fresh. destruct (decide (b = a)) as [->|]; [|done].
    by rewrite Hp.
Qed.

Lemma put_put s a o o' : put a o (put a o' s) = put a o s.
Proof. unfold put, with_stateObjects. cbn. by rewrite insert_insert_eq. Qed.

(** The state after [getStateObject]. *)
Definition load (s : state) (a : Address) : state :=
  match stateObjects s !! a, stateObjectsDestruct s !! a with
  | None, None =>
      match rd_Account reader a with
      | None => with_dbErr true s
      | Some None => s
      | Some (Some acct) => put a (newObject (Some acct)) s
      end
  | _, _ => s
  end.

Lemma getStateObject_eq s a : getStateObject reader a s = Ret (objectAt s a, load s a).
Proof.
  unfold getStateObject, load, objectAt, mbind, st_bind, st_get.
  destruct (stateObjects s !! a); [done|]. destruct (stateObjectsDestruct s !! a); [done|].
  by destruct (rd_Account reader a) as [[acct|]|].
Qed.

Lemma load_jrnl s a : jrnl (load s a) = jrnl s.
Proof. unfold load. by repeat case_match. Qed.

(** An object that exists is in the map after loading it. *)
Lemma load_Some s a o : objectAt s a = Some o -> load s a = s /\ stateObjects s !! a = Some o \/
  load s a = put a o s.
Proof. unfold objectAt, load. intros. repeat case_match; simplify_eq; auto. Qed.

Lemma load_None s a : objectAt s a = None -> stateObjects (load s a) !! a = None.
Proof. unfold objectAt, load. intros. repeat case_match; simplify_eq; done. Qed.

Lemma load_refines s a : refines s (load s a).
Proof.
  destruct (objectAt s a) as [o|] eqn:Hp.
  - destruct (load_Some _ _ _ Hp) as [[-> _]| ->]; [done|]. by apply (refines_put_same s a o).
  - unfold load. unfold objectAt in Hp. repeat case_match; simplify_eq; done.
Qed.

Lemma put_load s a o o' : objectAt s a = Some o -> put a o' (load s a) = put a o' s.
Proof. intros Hp. destruct (load_Some _ _ _ Hp) as [[-> _]| ->]; [done|apply put_put]. Qed.

Lemma onObject_eq s a f o :
  objectAt s a = Some o -> onObject reader a f s = Ret (tt, put a (f o) s).
Proof.
  intros Hp. unfold onObject, mbind, st_bind. rewrite getStateObject_eq, Hp.
  change (Ret (tt, put a (f o) (load s a)) = Ret (tt, put a (f o) s)). by rewrite (put_load _ _ o).
Qed.

Lemma onObject_inv s a f s' : onObject reader a f s = Ret (tt, s') ->
  exists o, objectAt s a = Some o /\ s' = put a (f o) s.
Proof.
  intros H. destruct (objectAt s a) as [o|] eqn:Hp.
  - rewrite (onObject_eq _ _ _ o) in H by done. simplify_eq. eauto.
  - unfold onObject, mbind, st_bind in H. by rewrite getStateObject_eq, Hp in H.
Qed.

(** ** Reverting journal entries is compatible with [refines] *)

(** A field update that is compatible with the equivalence of objects. *)
Definition mono_fn (f : stateObject -> stateObject) : Prop := forall ds a o o',
  obj_eq ds a o o' -> (warm o -> warm o') -> obj_eq ds a (f o) (f o') /\ (warm (f o) -> warm (f o')).

Lemma setBalance_mono w : mono_fn (setBalance w).
Proof. intros ds a o o' [] Hw. split; [|done]. split; try done; cbn; congruence. Qed.
Lemma setNonce_mono w : mono_fn (setNonce w).
Proof. intros ds a o o' [] Hw. split; [|done]. split; try done; cbn; congruence. Qed.
Lemma set_newContract_mono b : mono_fn (set_newContract b).
Proof. intros ds a o o' [] Hw. by split; [split|]. Qed.
Lemma set_selfDestructed_mono b : mono_fn (set_selfDestructed b).
Proof. intros ds a o o' [] Hw. by split; [split|]. Qed.
Lemma setCode_mono h c : mono_fn (setCode h c).
Proof.
  intros ds a o o' [Hd] Hw. split; [|done].
  split; try done; unfold setCode, codeOf; cbn; congruence.
Qed.

Lemma current_setState ds a k v orig o x :
  current ds a (setState k v orig o) x =
    if decide (x = k) then (if v =? orig then committed ds a o k else v) else current ds a o x.
Proof.
  unfold current, setState. destruct (v =? orig); cbn; destruct (decide (x = k)) as [->|].
  - by rewrite lookup_delete_eq.
  - by rewrite lookup_delete_ne.
  - by rewrite lookup_insert_eq.
  - by rewrite lookup_insert_ne.
Qed.

Lemma setState_mono k v orig : mono_fn (setState k v orig).
Proof.
  intros ds a o o' [] Hw. split; [|unfold setState; by case_if].
  split; try (unfold setState; by case_if). intros x. rewrite !current_setState.
  destruct (decide _); [case_if; congruence|done].
Qed.

Lemma onObject_mono f a s1 s2 s1' :
  mono_fn f -> refines s1 s2 -> onObject reader a f s1 = Ret (tt, s1') ->
  exists s2', onObject reader a f s2 = Ret (tt, s2') /\ refines s1' s2'.
Proof.
  intros Hf Hr H. apply onObject_inv in H as (o & Hp & ->).
  pose proof (se_objects _ _ (proj1 Hr) a) as Ho. pose proof (proj2 Hr a) as Hw.
  unfold db_fresh in Hw. rewrite Hp in Ho, Hw. inversion Ho as [? o' Hoo Hx Hp'|].
  rewrite <- Hp' in Hw. rewrite (onObject_eq _ _ _ o') by done. eexists; split; [done|].
  destruct (Hf _ _ _ _ Hoo Hw). by apply refines_put.
Qed.

(** Changes of one component that does not belong to an account. *)
Lemma refines_jrnl s1 s2 j1 j2 : refines s1 s2 -> refines (with_jrnl j1 s1) (with_jrnl j2 s2).
Proof.
  intros H. trans s1; [by apply refines_eq|]. trans s2; [done|by apply refines_eq].
Qed.

Lemma transient_Get_Set t a k v a' k' :
  transient_Get (transient_Set t a k v) a' k' =
    if decide (a' = a /\ k' = k) then v else transient_Get t a' k'.
Proof.
  unfold transient_Get, transient_Set. destruct (Z.eqb_spec v 0) as [->|Hv].
  - destruct (t !! a) as [m|] eqn:E.
    + case_bool_decide as Hm; destruct (decide (a' = a)) as [->|Ha].
      * rewrite lookup_delete_eq, E. destruct (decide (_ /\ _)) as [|Hk]; [done|].
        assert (k' <> k) by intuition congruence. rewrite <- (lookup_delete_ne m k k'), Hm by done. done.
      * rewrite lookup_delete_ne, decide_False by (intuition congruence). done.
      * rewrite lookup_insert_eq, E. destruct (decide (k' = k)) as [->|].
        -- by rewrite lookup_delete_eq, decide_True.
        -- rewrite lookup_delete_ne, decide_False by (intuition congruence). done.
      * rewrite lookup_insert_ne, decide_False by (intuition congruence). done.
    + destruct (decide _) as [[-> ->]|]; [by rewrite E|done].
  - destruct (decide (a' = a)) as [->|Ha].
    + rewrite lookup_insert_eq. destruct (decide (k' = k)) as [->|].
      * by rewrite lookup_insert_eq, decide_True.
      * rewrite lookup_insert_ne, decide_False by (intuition congruence).
        destruct (t !! a); [done|]. cbn. by rewrite lookup_empty.
    + rewrite lookup_insert_ne, decide_False by (intuition congruence). done.
Qed.

Lemma default_insert {A} (m : gmap Z (list A)) h l x :
  default [] (<[h := l]> m !! x) = if decide (x = h) then l else default [] (m !! x).
Proof.
  destruct (decide _) as [->|]; [by rewrite lookup_insert_eq|by rewrite lookup_insert_ne].
Qed.
Lemma default_delete {A} (m : gmap Z (list A)) h x :
  default [] (delete h m !! x) = if decide (x = h) then [] else default [] (m !! x).
Proof.
  destruct (decide _) as [->|]; [by rewrite lookup_delete_eq|by rewrite lookup_delete_ne].
Qed.

(** Objects and the destruct set are all that [objectAt] and [db_fresh] look at. *)
Lemma refines_parts s1 s2 s1' s2' :
  refines s1 s2 ->
  stateObjects s1' = stateObjects s1 -> stateObjects s2' = stateObjects s2 ->
  stateObjectsDestruct s1' = stateObjectsDestruct s1 ->
  stateObjectsDestruct s2' = stateObjectsDestruct s2 ->
  (seq s1 s2 -> refund s2' = refund s1' /\ (thash s2' = thash s1' /\ txIndex s2' = txIndex s1') /\
    (forall h, default [] (logs s2' !! h) = default [] (logs s1' !! h)) /\
    logSize s2' = logSize s1' /\ access s2' = access s1' /\
    forall a k, transient_Get (transient s2') a k = transient_Get (transient s1') a k) ->
  refines s1' s2'.
Proof.
  intros [Hs Hf] O1 O2 D1 D2 H. destruct (H Hs) as (? & ? & ? & ? & ? & ?).
  assert (P1 : forall a, objectAt s1' a = objectAt s1 a) by (intros; unfold objectAt; by rewrite O1, D1).
  assert (P2 : forall a, objectAt s2' a = objectAt s2 a) by (intros; unfold objectAt; by rewrite O2, D2).
  split; [|intros a; unfold db_fresh; rewrite P1, P2; apply Hf].
  destruct Hs. split; try done; [|by rewrite D1, D2].
  intros a. by rewrite P1, P2, D1.
Qed.

Ltac parts H := apply (refines_parts _ _ _ _ H); [done..|];
  intros [? ? ? [? ?] ? ? ? ?]; cbn; split_and!; try done; try congruence.

Lemma refines_delete s1 s2 a : refines s1 s2 ->
  refines (with_stateObjects (delete a (stateObjects s1)) s1)
          (with_stateObjects (delete a (stateObjects s2)) s2).
Proof.
  intros [Hs Hf].
  assert (Hne : forall s b, b <> a ->
    objectAt (with_stateObjects (delete a (stateObjects s)) s) b = objectAt s b).
  { intros s b Hb. unfold objectAt. cbn. by rewrite lookup_delete_ne. }
  assert (Heq : objectAt (with_stateObjects (delete a (stateObjects s2)) s2) a =
                objectAt (with_stateObjects (delete a (stateObjects s1)) s1) a).
  { unfold objectAt. cbn. by rewrite !lookup_delete_eq, (se_destruct _ _ Hs). }
  split.
  - destruct Hs as [Ho ? ? [] ? ? ? ?]. split; try done. intros b.
    destruct (decide (b = a)) as [->|]; [by rewrite Heq|rewrite !Hne by done; apply Ho].
  - intros b. unfold db_fresh.
    destruct (decide (b = a)) as [->|]; [by rewrite Heq|rewrite !Hne by done; apply Hf].
Qed.

Lemma load_None_refines s a : objectAt s a = None -> refines (load s a) s.
Proof. unfold objectAt, load. intros. repeat case_match; simplify_eq; done. Qed.

Lemma selfDestructChange_eq s a o : objectAt s a = Some o ->
  revertEntry reader (selfDestructChange a) s = onObject reader a (set_selfDestructed false) s.
Proof.
  intros Hp. unfold onObject. cbn [revertEntry]. unfold mbind, st_bind.
  by rewrite getStateObject_eq, Hp.
Qed.
Lemma selfDestructChange_nil s a : objectAt s a = None ->
  revertEntry reader (selfDestructChange a) s = Ret (tt, load s a).
Proof.
  intros Hp. cbn [revertEntry]. unfold mbind, st_bind. by rewrite getStateObject_eq, Hp.
Qed.

Lemma revertEntry_mono e s1 s2 s1' :
  refines s1 s2 -> revertEntry reader e s1 = Ret (tt, s1') ->
  exists s2', revertEntry reader e s2 = Ret (tt, s2') /\ refines s1' s2'.
Proof.
  intros Hr H. destruct e as [a|a|a|a w|a w|a k v o|a c|r|h|a|a|a k|a k v];
    lazymatch goal with |- context [selfDestructChange] => idtac | _ => cbn [revertEntry] in *; unfold setTransientState, st_modify, mret, st_ret in * end.
  - simplify_eq. eexists; split; [done|]. by apply refines_delete.
  - eapply onObject_mono; [apply set_newContract_mono|done..].
  - destruct (objectAt s1 a) as [o|] eqn:Hp.
    + rewrite (selfDestructChange_eq s1 _ o) in H by done. 
      eapply onObject_mono in H as (s2' & H2 & ?); [|apply set_selfDestructed_mono|done].
      pose proof H2 as (o2 & Hp2 & _)%onObject_inv.
      exists s2'. by rewrite (selfDestructChange_eq s2 _ o2).
    + pose proof (se_objects _ _ (proj1 Hr) a) as Ho. rewrite Hp in Ho.
      inversion Ho as [|Hx Hp2]. symmetry in Hp2.
      rewrite selfDestructChange_nil in * by done. simplify_eq.
      eexists; split; [done|]. trans s1; [by apply load_None_refines|].
      trans s2; [done|apply load_refines].
  - eapply onObject_mono; [apply setBalance_mono|done..].
  - eapply onObject_mono; [apply setNonce_mono|done..].
  - eapply onObject_mono; [apply setState_mono|done..].
  - eapply onObject_mono; [apply setCode_mono|done..].
  - simplify_eq. eexists; split; [done|]. parts Hr.
  - rewrite (se_logs _ _ (proj1 Hr)). case_if; [|destruct (slice _ _ _); [|done]];
      simplify_eq; (eexists; split; [done|]); parts Hr; intros x.
    + rewrite !default_delete. by destruct (decide _).
    + rewrite !default_insert. by destruct (decide _).
  - simplify_eq. eauto.
  - simplify_eq. eexists; split; [done|]. parts Hr.
  - rewrite (se_access _ _ (proj1 Hr)). destruct (DeleteSlot _ _ _); [|done]. simplify_eq.
    eexists; split; [done|]. parts Hr.
  - simplify_eq. eexists; split; [done|]. parts Hr. intros. rewrite !transient_Get_Set.
    by destruct (decide _).
Qed.

Lemma undirty_eq e s : exists j, undirty e s = Ret (tt, with_jrnl j s) /\
  entries j = entries (jrnl s) /\ validRevisions j = validRevisions (jrnl s) /\
  nextRevisionId j = nextRevisionId (jrnl s).
Proof.
  unfold undirty, st_modify. destruct (dirtied e); [by eexists|].
  exists (jrnl s). by destruct s.
Qed.

Lemma revertEntries_cons e es s s' :
  revertEntries reader (e :: es) s = Ret (tt, s') <->
  exists s1 j, revertEntry reader e s = Ret (tt, s1) /\ undirty e s1 = Ret (tt, with_jrnl j s1) /\
    revertEntries reader es (with_jrnl j s1) = Ret (tt, s').
Proof.
  cbn [revertEntries]. unfold mbind, st_bind. split.
  - destruct (revertEntry reader e s) as [[[] s1]|] eqn:E; [|done].
    destruct (undirty_eq e s1) as (j & Hu & _). rewrite Hu. eauto.
  - intros (s1 & j & -> & -> & H). done.
Qed.

Lemma revertEntries_app es1 es2 s s' :
  revertEntries reader (es1 ++ es2) s = Ret (tt, s') <->
  exists s1, revertEntries reader es1 s = Ret (tt, s1) /\ revertEntries reader es2 s1 = Ret (tt, s').
Proof.
  revert s. induction es1 as [|e es1 IH]; intros s.
  - cbn. split; [eauto|]. by intros (s1 & [= ->] & ?).
  - change ((e :: es1) ++ es2) with (e :: (es1 ++ es2)). rewrite revertEntries_cons.
    setoid_rewrite IH. setoid_rewrite revertEntries_cons. split.
    + intros (s1 & j & H1 & H2 & s2 & H3 & H4). exists s2. split; [exists s1, j; done|done].
    + intros (s2 & (s1 & j & H1 & H2 & H3) & H4). exists s1, j. split_and!; eauto.
Qed.

(** Undoing the same entries in two states of which one refines the other. *)
Lemma revertEntries_mono es s1 s2 s1' :
  refines s1 s2 -> revertEntries reader es s1 = Ret (tt, s1') ->
  exists s2', revertEntries reader es s2 = Ret (tt, s2') /\ refines s1' s2'.
Proof.
  revert s1 s2. induction es as [|e es IH]; intros s1 s2 Hr.
  - cbn. intros [= ->]. eauto.
  - rewrite revertEntries_cons. intros (s3 & j & He & _ & Hes).
    destruct (revertEntry_mono _ _ _ _ Hr He) as (s4 & He' & Hr').
    destruct (undirty_eq e s4) as (j' & Hu & _).
    destruct (IH _ (with_jrnl j' s4) ltac:(by apply refines_jrnl) Hes) as (s2' & Hs2' & ?).
    exists s2'. split; [|done]. rewrite revertEntries_cons. eauto.
Qed.

(** ** The representation invariant *)

(** The cached code has the hash of the account, or the account has no code, or the reader
    has the code. *)
Definition code_at (a : Address) (h : Hash) : Prop :=
  exists c, rd_Code reader a h = Some c /\ c <> [] /\ Keccak256 c = h /\ data_ok c.

Definition obj_ok (a : Address) (o : stateObject) : Prop :=
  (code o <> [] /\ Keccak256 (code o) = acc_CodeHash (data o) /\ data_ok (code o)) \/
  (code o = [] /\ acc_CodeHash (data o) = EmptyCodeHash) \/
  (code o = [] /\ acc_CodeHash (data o) <> 0 /\ code_at a (acc_CodeHash (data o))).

(** What is assumed of the database: it has the code of every account it knows, and an account
    it does not know has no storage. *)
Record reader_ok : Prop := {
  rd_hasCode : forall a acct, rd_Account reader a = Some (Some acct) ->
    acc_CodeHash acct = EmptyCodeHash \/
    (acc_CodeHash acct <> 0 /\ code_at a (acc_CodeHash acct));
  rd_noStorage : forall a, (forall acct, rd_Account reader a <> Some (Some acct)) ->
    forall k, default 0 (rd_Storage reader a k) = 0;
}.

Definition objs_ok (s : state) : Prop :=
  forall a o, stateObjects s !! a = Some o -> obj_ok a o.

Definition entry_ok (e : journalEntry) : Prop :=
  match e with codeChange _ c => data_ok c | _ => True end.

Record access_ok (al : accessList) : Prop := {
  al_idx : forall a i, addresses al !! a = Some i -> i = -1 \/ 0 <= i < len (slots al);
  al_slots : Forall (fun m => m <> ∅) (slots al);
  al_inj : forall a b i, i <> -1 -> addresses al !! a = Some i -> addresses al !! b = Some i -> a = b;
}.

Record revs_ok (j : journal) : Prop := {
  rv_sorted : StronglySorted Z.lt (map fst (validRevisions j));
  rv_next : Forall (fun r => r.1 < nextRevisionId j) (validRevisions j);
}.

Record state_ok (s : state) : Prop := {
  ok_objects : objs_ok s;
  ok_entries : Forall entry_ok (entries (jrnl s));
  ok_access : access_ok (access s);
  ok_revs : revs_ok (jrnl s);
  ok_logs : is_u64 (logSize s);
  ok_refund : is_u64 (refund s);
}.

Hypothesis Hreader : reader_ok.

Lemma obj_ok_load a acct : rd_Account reader a = Some (Some acct) -> obj_ok a (newObject (Some acct)).
Proof.
  intros H. destruct (rd_hasCode Hreader _ _ H) as [He|[]]; [right; left; done|right; right; done].
Qed.

Lemma objs_ok_at s a o : objs_ok s -> objectAt s a = Some o -> obj_ok a o.
Proof.
  intros Ho. unfold objectAt. intros H. repeat case_match; simplify_eq; [by apply Ho|].
  by apply obj_ok_load.
Qed.

Lemma objs_ok_put s a o : objs_ok s -> obj_ok a o -> objs_ok (put a o s).
Proof.
  intros Hs Ho b o'. cbn. destruct (decide (b = a)) as [->|].
  - rewrite lookup_insert_eq. by intros [= <-].
  - rewrite lookup_insert_ne by done. apply Hs.
Qed.

Lemma objs_ok_load s a : objs_ok s -> objs_ok (load s a).
Proof.
  intros Hs. destruct (objectAt s a) as [o|] eqn:Hp.
  - destruct (load_Some _ _ _ Hp) as [[-> _]| ->]; [done|].
    apply objs_ok_put; [done|by eapply objs_ok_at].
  - unfold load. unfold objectAt in Hp. repeat case_match; simplify_eq; done.
Qed.

Lemma obj_ok_setCode a c o : data_ok c -> obj_ok a (setCode (Keccak256 c) c o).
Proof.
  intros Hc. destruct c as [|b c]; [by right; left|by left].
Qed.

Lemma obj_ok_setState a k v g o : obj_ok a o -> obj_ok a (setState k v g o).
Proof. unfold setState. by case_if. Qed.

Lemma revertEntry_inv e s s' :
  revertEntry reader e s = Ret (tt, s') ->
  jrnl s' = jrnl s /\ (objs_ok s -> entry_ok e -> objs_ok s').
Proof.
  assert (Hon : forall a f, (forall o, obj_ok a o -> obj_ok a (f o)) ->
    onObject reader a f s = Ret (tt, s') -> jrnl s' = jrnl s /\ (objs_ok s -> objs_ok s')).
  { intros a f Hf H. apply onObject_inv in H as (o & Hp & ->). split; [done|].
    intros Hs. apply objs_ok_put; [done|]. apply Hf. by eapply objs_ok_at. }
  destruct e as [a|a|a|a w|a w|a k v o|a c|r|h|a|a|a k|a k v]; intros H; cbn [entry_ok].
  3: { destruct (objectAt s a) as [o|] eqn:Hp.
       - rewrite (selfDestructChange_eq _ _ o) in H by done. apply Hon in H; tauto.
       - rewrite selfDestructChange_nil in H by done. simplify_eq.
         split; [apply load_jrnl|by intros ? _; apply objs_ok_load]. }
  all: cbn [revertEntry] in H; unfold setTransientState, st_modify, mret, st_ret in H.
  all: try (apply Hon in H; [tauto|done]).
  all: try (simplify_eq; by split; [|intros ? _]).
  - simplify_eq. split; [done|]. intros Hs _ b o. cbn. rewrite lookup_delete_Some.
    intros [_ Hb]. by apply Hs.
  - apply Hon in H; [tauto|apply obj_ok_setState].
  - apply onObject_inv in H as (o & Hp & ->). split; [done|]. intros Hs Hc.
    by apply objs_ok_put, obj_ok_setCode.
  - repeat case_match; simplify_eq; by split; [|intros ? _].
  - repeat case_match; simplify_eq; by split; [|intros ? _].
Qed.

Lemma revertEntries_inv es s s' :
  revertEntries reader es s = Ret (tt, s') ->
  entries (jrnl s') = entries (jrnl s) /\ validRevisions (jrnl s') = validRevisions (jrnl s) /\
  nextRevisionId (jrnl s') = nextRevisionId (jrnl s) /\
  (objs_ok s -> Forall entry_ok es -> objs_ok s').
Proof.
  revert s. induction es as [|e es IH]; intros s.
  - cbn. intros [= ->]. done.
  - rewrite revertEntries_cons. intros (s1 & j & He & Hu & Hes).
    destruct (undirty_eq e s1) as (j' & Hu' & E1 & E2 & E3). rewrite Hu in Hu'.
    injection Hu' as <-. apply revertEntry_inv in He as [Ej Hok]. rewrite Ej in *.
    apply IH in Hes as (F1 & F2 & F3 & Hok2). cbn in *. rewrite F1, F2, F3, E1, E2, E3.
    split_and!; try done. intros Hs [He Hf]%Forall_cons. apply Hok2; [|done]. by apply Hok.
Qed.

(** ** Steps that the journal can undo *)

Definition ext (s s' : state) : Prop := exists es rs s'',
  entries (jrnl s') = entries (jrnl s) ++ es /\
  validRevisions (jrnl s') = validRevisions (jrnl s) ++ rs /\
  (forall a, db_fresh s a -> db_fresh s' a) /\
  revertEntries reader (rev es) s' = Ret (tt, s'') /\ refines s s''.

Definition jstep (s s' : state) : Prop := state_ok s' /\ ext s s'.

(** A step that nothing can observe. *)
Definition quiet (s s' : state) : Prop :=
  state_ok s' /\ refines s s' /\ jrnl s' = jrnl s.

Lemma ext_trans s1 s2 s3 : ext s1 s2 -> ext s2 s3 -> ext s1 s3.
Proof.
  intros (e1 & r1 & u1 & E1 & R1 & F1 & U1 & H1) (e2 & r2 & u2 & E2 & R2 & F2 & U2 & H2).
  destruct (revertEntries_mono _ _ _ _ H2 U1) as (u & U3 & H3).
  exists (e1 ++ e2), (r1 ++ r2), u. rewrite E2, E1, R2, R1, !app_assoc, rev_app_distr.
  split_and!; auto; [|by etrans].
  apply revertEntries_app. eauto.
Qed.

Lemma step_trans s1 s2 s3 : jstep s1 s2 -> jstep s2 s3 -> jstep s1 s3.
Proof. intros [] []. split; [done|by eapply ext_trans]. Qed.

Lemma quiet_step s s' : quiet s s' -> jstep s s'.
Proof.
  intros (Hok & Hr & Hj). split; [done|]. exists [], [], s'. rewrite Hj, !app_nil_r.
  split_and!; try done. apply Hr.
Qed.

Lemma quiet_refl s : state_ok s -> quiet s s.
Proof. by split. Qed.
Lemma quiet_trans s1 s2 s3 : quiet s1 s2 -> quiet s2 s3 -> quiet s1 s3.
Proof. intros (? & ? & ?) (? & ? & ?). split; [done|]. split; [by etrans|congruence]. Qed.
Lemma step_refl s : state_ok s -> jstep s s.
Proof. intros. by apply quiet_step, quiet_refl. Qed.

(** The journal after [append]. *)
Definition pushed (e : journalEntry) (s : state) : state :=
  with_jrnl (mkJournal (entries (jrnl s) ++ [e])
    (match dirtied e with Some a => incr (dirties (jrnl s)) a | None => dirties (jrnl s) end)
    (validRevisions (jrnl s)) (nextRevisionId (jrnl s))) s.

Lemma push_refines e s : refines s (pushed e s).
Proof. by apply refines_eq. Qed.

Lemma step_push e s s1 s2 :
  state_ok s -> objs_ok s1 -> access_ok (access s1) -> is_u64 (logSize s1) -> is_u64 (refund s1) ->
  jrnl s1 = jrnl s -> entry_ok e ->
  (forall a, db_fresh s a -> db_fresh s1 a) ->
  revertEntry reader e (pushed e s1) = Ret (tt, s2) -> refines s s2 -> jstep s (pushed e s1).
Proof.
  intros Hs Ho Ha Hls Hrf Hj He Hf Hu Hr. split.
  - destruct Hs as [_ Hen _ [? ?] _ _]. split; [done| |done|by split; cbn; rewrite Hj|done..].
    cbn. rewrite Hj. apply Forall_app. by repeat constructor.
  - destruct (undirty_eq e s2) as (j & Hd & _).
    exists [e], [], (with_jrnl j s2). cbn [pushed with_jrnl jrnl entries validRevisions].
    rewrite Hj, app_nil_r. split_and!; [done|done|done| |].
    + apply (revertEntries_cons e []). eauto.
    + trans s2; [done|by apply refines_eq].
Qed.

(** The update of an existing object by [f], journalled by an entry that applies [g]. *)
Lemma step_update s a o f g e :
  state_ok s -> objectAt s a = Some o -> entry_ok e ->
  (forall s, revertEntry reader e s = onObject reader a g s) ->
  obj_ok a (f o) -> obj_eq (stateObjectsDestruct s) a o (g (f o)) ->
  (warm o -> warm (f o)) -> (warm o -> warm (g (f o))) ->
  jstep s (put a (f o) (pushed e s)).
Proof.
  intros Hs Hp He Hre Ho Heq Hw Hw'.
  change (put a (f o) (pushed e s)) with (pushed e (put a (f o) s)).
  eapply (step_push _ _ _ (put a (g (f o)) (pushed e s))); try done.
  - apply objs_ok_put; [apply Hs|done].
  - apply Hs.
  - apply Hs.
  - apply Hs.
  - intros b. rewrite db_fresh_put. unfold db_fresh. destruct (decide (b = a)) as [->|]; [|done].
    by rewrite Hp.
  - rewrite Hre, (onObject_eq _ _ _ (f o)).
    + change (pushed e (put a (f o) s)) with (put a (f o) (pushed e s)). by rewrite put_put.
    + change (objectAt (put a (f o) s) a = Some (f o)). by rewrite objectAt_put, decide_True.
  - trans (pushed e s); [apply push_refines|]. by apply (refines_put_same _ a o).
Qed.

(** ** Objects *)

Section wp_objects.
Context (Er : failure -> Prop).

Lemma quiet_load s a : state_ok s -> quiet s (load s a).
Proof.
  intros Hs. split; [|split; [apply load_refines|apply load_jrnl]].
  destruct Hs. destruct (load_refines s a) as [[] _].
  split; rewrite ?load_jrnl; [by apply objs_ok_load|done| |done| |]; congruence.
Qed.

Lemma objectAt_load s a : objectAt (load s a) a = objectAt s a.
Proof.
  destruct (objectAt s a) as [o|] eqn:Hp.
  - destruct (load_Some _ _ _ Hp) as [[-> _]| ->]; [done|]. by rewrite objectAt_put, decide_True.
  - pose proof (se_objects _ _ (proj1 (load_refines s a)) a) as H. rewrite Hp in H.
    by inversion H.
Qed.

Lemma wp_getStateObject a s (Q : option stateObject -> state -> Prop) :
  state_ok s -> (forall s1, quiet s s1 -> objectAt s1 a = objectAt s a ->
    stateObjects s1 !! a = objectAt s a -> Q (objectAt s a) s1) ->
  wp Er (getStateObject reader a) Q s.
Proof.
  intros Hs HQ. unfold wp. rewrite getStateObject_eq.
  apply HQ; [by apply quiet_load|apply objectAt_load|].
  destruct (objectAt s a) as [o|] eqn:Hp; [|by apply load_None].
  destruct (load_Some _ _ _ Hp) as [[-> ?]| ->]; [done|apply lookup_insert_eq].
Qed.

Lemma step_create s a : state_ok s -> stateObjects s !! a = None -> objectAt s a = None ->
  jstep s (put a (newObject None) (pushed (createObjectChange a) s)).
Proof.
  intros Hs Hn Hp. change (put ?a ?o (pushed ?e s)) with (pushed e (put a o s)).
  eapply step_push; try done.
  - apply objs_ok_put; [apply Hs|by right; left].
  - apply Hs.
  - apply Hs.
  - apply Hs.
  - intros b. rewrite db_fresh_put. destruct (decide _); [by right|done].
  - apply refines_eq; try done. cbn. by rewrite delete_insert_id.
Qed.

Lemma wp_createObject a s (Q : stateObject -> state -> Prop) :
  state_ok s -> stateObjects s !! a = None -> objectAt s a = None ->
  (forall o s1, jstep s s1 -> objectAt s1 a = Some o -> warm o -> Q o s1) ->
  wp Er (createObject a) Q s.
Proof.
  intros Hs Hn Hp HQ. unfold wp. cbn.
  apply HQ; [by apply step_create| |by right].
  change (objectAt (put a (newObject None) (pushed (createObjectChange a) s)) a = Some (newObject None)).
  by rewrite objectAt_put, decide_True.
Qed.

Lemma wp_getOrNewStateObject a s (Q : stateObject -> state -> Prop) :
  state_ok s -> (forall o s1, jstep s s1 -> objectAt s1 a = Some o ->
    (warm o \/ objectAt s a = Some o) -> Q o s1) ->
  wp Er (getOrNewStateObject reader a) Q s.
Proof.
  intros Hs HQ. unfold getOrNewStateObject. apply wp_bind, wp_getStateObject; [done|].
  intros s1 Hq Hp Hn. destruct (objectAt s a) as [o|].
  - apply wp_ret, HQ; [by apply quiet_step|done|by right].
  - apply wp_createObject; [apply Hq|done|done|]. intros o s2 Hs2 Hp2 Hw.
    apply HQ; [|done|by left]. eapply step_trans; [by apply quiet_step|done].
Qed.
End wp_objects.

Lemma objectAt_put_eq s a o : objectAt (put a o s) a = Some o.
Proof. by rewrite objectAt_put, decide_True. Qed.

Lemma quiet_dbErr s b : state_ok s -> quiet s (with_dbErr b s).
Proof. intros []. split; [by split|]. split; [by apply refines_eq|done]. Qed.

Lemma quiet_put s a o o' :
  state_ok s -> objectAt s a = Some o -> obj_ok a o' -> obj_eq (stateObjectsDestruct s) a o o' ->
  (warm o -> warm o') -> quiet s (put a o' s).
Proof.
  intros [] Hp Ho Heq Hw. split; [split; try done; by apply objs_ok_put|].
  split; [by apply (refines_put_same _ a o)|done].
Qed.

Lemma jstep_ok s s' : jstep s s' -> state_ok s'.
Proof. by intros []. Qed.
Lemma quiet_ok s s' : quiet s s' -> state_ok s'.
Proof. by intros []. Qed.
Lemma quiet_fresh s s' a : quiet s s' -> db_fresh s a -> db_fresh s' a.
Proof. intros (_ & [_ H] & _). apply H. Qed.

Section wp_methods.
Context (Er : failure -> Prop) (a : Address) (s : state) (o : stateObject).
Context (Hs : state_ok s) (Hp : objectAt s a = Some o).

Lemma wp_obj_Code (Q : bytes -> state -> Prop) :
  (forall s1, quiet s s1 -> db_fresh s1 a -> Q (codeOf a o) s1) -> wp Er (obj_Code reader a o) Q s.
Proof using All.
  intros HQ. pose proof (objs_ok_at _ _ _ (ok_objects _ Hs) Hp) as Hok.
  assert (Hwarm : warm o -> db_fresh s a) by (unfold db_fresh; by rewrite Hp).
  unfold obj_Code, codeOf in *. case_if.
  { apply wp_ret, HQ; [by apply quiet_refl|]. apply Hwarm. left. by destruct (code o). }
  case_if; bool_to_Z; [apply wp_ret, HQ; [by apply quiet_refl|]; apply Hwarm; by right|].
  destruct Hok as [(Hc & _)|[[_ ?]|(Hc & Hn & c & Hr & Hne & Hk & Hd)]]; [by destruct (code o)|done|].
  rewrite Hr in *. cbn. replace (len c =? 0) with false by (destruct c; done).
  apply HQ; [|refine (proj2 (db_fresh_put s a (set_codeCache c o) a) _); rewrite decide_True by done; by left].
  apply (quiet_put _ _ o); try done; [by left; cbn; split_and!| |by left].
  split; try done. unfold codeOf. cbn. rewrite Hr, Hc. cbn.
  rewrite (proj2 (Z.eqb_neq _ EmptyCodeHash)) by done. by destruct c.
Qed.

Lemma wp_obj_CodeSize (Q : Z -> state -> Prop) :
  (forall n s1, quiet s s1 -> Q n s1) -> wp Er (obj_CodeSize reader a o) Q s.
Proof using All.
  intros HQ. unfold obj_CodeSize. case_if; [by apply wp_ret, HQ, quiet_refl|].
  case_if; [by apply wp_ret, HQ, quiet_refl|].
  assert (Herr : forall s1, quiet s s1 -> quiet s (with_dbErr true s1)).
  { intros s1 H1. eapply quiet_trans; [done|]. apply quiet_dbErr, H1. }
  pose proof (quiet_refl _ Hs) as H.
  destruct (rd_CodeSize _ _ _); unfold wp; cbn; try case_if; cbn; apply HQ;
    first [exact H | exact (Herr _ H) | exact (Herr _ (Herr _ H))].
Qed.

Lemma wp_obj_GetCommittedState k (Q : Hash * stateObject -> state -> Prop) :
  (forall o1 s1, quiet s s1 -> objectAt s1 a = Some o1 -> obj_eq (stateObjectsDestruct s) a o o1 ->
     code o1 = code o -> Q (committed (stateObjectsDestruct s) a o k, o1) s1) ->
  wp Er (obj_GetCommittedState reader a o k) Q s.
Proof using All.
  intros HQ. pose proof (objs_ok_at _ _ _ (ok_objects _ Hs) Hp) as Hok.
  unfold obj_GetCommittedState, committed in *.
  destruct (pendingStorage o !! k) eqn:E1; [by apply wp_ret, HQ; [apply quiet_refl|..]|].
  destruct (originStorage o !! k) eqn:E2; [by apply wp_ret, HQ; [apply quiet_refl|..]|].
  apply wp_bind, wp_get.
  assert (Hcache : forall v, committed (stateObjectsDestruct s) a o k = v ->
    obj_eq (stateObjectsDestruct s) a o (set_originStorage (<[k := v]> (originStorage o)) o)).
  { intros v Hv.
    assert (Hc : forall x, committed (stateObjectsDestruct s) a
      (set_originStorage (<[k := v]> (originStorage o)) o) x =
      committed (stateObjectsDestruct s) a o x).
    { intros x. unfold committed. cbn. destruct (decide (x = k)) as [->|].
      - rewrite E1, E2, lookup_insert_eq, <- Hv. unfold committed. by rewrite E1, E2.
      - by rewrite lookup_insert_ne. }
    split; try done. intros x. unfold current. cbn. by rewrite Hc. }
  unfold committed in Hcache. rewrite E1, E2 in Hcache.
  destruct (stateObjectsDestruct s !! a); [|destruct (rd_Storage reader a k)];
    unfold wp; cbn; apply HQ; try done.
  all: first [ exact (objectAt_put_eq _ _ _) | by apply Hcache | by apply quiet_dbErr
             | apply (quiet_put _ _ o); [done..|by apply Hcache|done] ].
Qed.
End wp_methods.

(** ** The readers *)

Lemma Contains_total al a k : access_ok al -> exists b, Contains al a k = Ret b.
Proof.
  intros [Hi _ _]. unfold Contains. destruct (addresses al !! a) as [i|] eqn:E; [|eauto].
  case_if; [eauto|]. bool_to_Z. destruct (Hi _ _ E) as [?|Hr]; [done|].
  destruct (index_ok (slots al) i Hr) as (m & _ & ->). cbn. eauto.
Qed.

Lemma wp_GetCode Er a s (Q : bytes -> state -> Prop) : state_ok s ->
  (forall s1, quiet s s1 -> db_fresh s1 a ->
     Q (match objectAt s a with Some o => codeOf a o | None => [] end) s1) ->
  wp Er (GetCode reader a) Q s.
Proof.
  intros Hs HQ. apply wp_bind, wp_getStateObject; [done|]. intros s1 Hq Hp _.
  destruct (objectAt s a) as [o|] eqn:E; [|by apply wp_ret, HQ; [|unfold db_fresh; rewrite Hp]].
  apply wp_obj_Code; [by eapply quiet_ok|done|]. intros s2 H2 Hf. apply HQ; [by eapply quiet_trans|done].
Qed.

Definition is_quiet {A} (r : sdbE A) : bool :=
  is_read r && match r with VM.Snapshot => false | _ => true end.

Lemma run_quiet Er A (r : sdbE A) s :
  state_ok s -> is_quiet r = true -> wp Er (run reader r) (fun _ s' => quiet s s') s.
Proof.
  intros Hs Hr. pose proof (quiet_refl _ Hs) as Hrefl.
  destruct r; try discriminate Hr; cbn [run]; try exact Hrefl.
  all: try (apply wp_bind, wp_getStateObject; [done|]; intros s1 Hq Hp _; exact Hq).
  - by apply wp_GetCode.
  - apply wp_bind, wp_getStateObject; [done|]. intros s1 Hq Hp _.
    destruct (objectAt s a) as [o|]; [|exact Hq].
    apply wp_obj_CodeSize; [by eapply quiet_ok|done|]. intros. by eapply quiet_trans.
  - apply wp_bind, wp_getStateObject; [done|]. intros s1 Hq Hp _.
    destruct (objectAt s a) as [o|]; [|exact Hq]. apply wp_bind.
    apply wp_obj_GetCommittedState; [by eapply quiet_ok|done|]. intros.
    apply wp_ret. by eapply quiet_trans.
  - apply wp_bind, wp_getStateObject; [done|]. intros s1 Hq Hp _.
    destruct (objectAt s a) as [o|]; [|exact Hq]. apply wp_bind. unfold obj_getState. apply wp_bind.
    apply wp_obj_GetCommittedState; [by eapply quiet_ok|done|]. intros o1 s2 ? ? ? ?.
    assert (quiet s s2) by (by eapply quiet_trans).
    by destruct (dirtyStorage o1 !! k).
  - unfold SlotInAccessList. apply wp_bind, wp_get.
    destruct (Contains_total (access s) a slot) as [b Hb]; [apply Hs|].
    unfold wp, st_lift. by rewrite Hb.
Qed.

(** ** The writers *)

Lemma step_put_update s a o f g e (Q : unit -> state -> Prop) Er :
  state_ok s -> objectAt s a = Some o -> entry_ok e ->
  (forall s, revertEntry reader e s = onObject reader a g s) ->
  obj_ok a (f o) -> obj_eq (stateObjectsDestruct s) a o (g (f o)) ->
  (warm o -> warm (f o)) -> (warm o -> warm (g (f o))) ->
  (forall s1, jstep s s1 -> objectAt s1 a = Some (f o) -> stateObjects s1 !! a = Some (f o) -> Q tt s1) ->
  wp Er (append e;; setStateObject a (f o)) Q s.
Proof.
  intros ???????? HQ. apply (HQ (put a (f o) (pushed e s))).
  - by apply (step_update s a o f g e).
  - apply objectAt_put_eq.
  - apply lookup_insert_eq.
Qed.

Section writers.
Context (Er : failure -> Prop) (a : Address) (s : state) (o : stateObject).
Context (Hs : state_ok s) (Hp : objectAt s a = Some o).

Lemma wp_obj_SetBalance w (Q : word -> state -> Prop) :
  (forall x s1, jstep s s1 -> objectAt s1 a = Some (setBalance w o) ->
     stateObjects s1 !! a = Some (setBalance w o) -> Q x s1) ->
  wp Er (obj_SetBalance a o w) Q s.
Proof using All.
  intros HQ. pose proof (objs_ok_at _ _ _ (ok_objects _ Hs) Hp) as Hok.
  assert (Heq : setBalance (Balance (data o)) (setBalance w o) = o).
  { by destruct o as [? [] ? ? ? ? ? ? ? ?]. }
  unfold obj_SetBalance. 
  apply (step_put_update s a o (setBalance w) (setBalance (Balance (data o)))
    (balanceChange a (Balance (data o)))
    (fun _ s1 => Q (Balance (data o)) s1)); try done; [by rewrite Heq..|].
  intros. by apply HQ.
Qed.

Lemma wp_obj_SetNonce n (Q : unit -> state -> Prop) :
  (forall s1, jstep s s1 -> Q tt s1) -> wp Er (obj_SetNonce a o n) Q s.
Proof using All.
  intros HQ. pose proof (objs_ok_at _ _ _ (ok_objects _ Hs) Hp) as Hok.
  assert (Heq : setNonce (Nonce (data o)) (setNonce n o) = o).
  { by destruct o as [? [] ? ? ? ? ? ? ? ?]. }
  apply (step_put_update s a o (setNonce n) (setNonce (Nonce (data o)))); try done;
    [by rewrite Heq..|]. intros. by apply HQ.
Qed.

(** The journal records the cached code: reverting is right when the cache is warm. *)
Lemma wp_obj_SetCode c (Q : bytes -> state -> Prop) :
  warm o -> data_ok c -> (forall x s1, jstep s s1 -> Q x s1) ->
  wp Er (obj_SetCode a o (Keccak256 c) c) Q s.
Proof using All.
  intros Hw Hc HQ. pose proof (objs_ok_at _ _ _ (ok_objects _ Hs) Hp) as Hok.
  assert (Hh : Keccak256 (code o) = acc_CodeHash (data o) /\ data_ok (code o)).
  { destruct Hok as [(_ & ? & ?)|[[Hn ?]|(Hn & _)]]; [done|rewrite Hn; auto with geth..].
    destruct Hw as [?|Hw]; [done|]. rewrite Hw. auto with geth. }
  destruct Hh as [Hh Hd]. unfold obj_SetCode.
  apply (step_put_update s a o (setCode (Keccak256 c) c)
    (setCode (Keccak256 (code o)) (code o)) (codeChange a (code o))
    (fun _ s1 => Q (code o) s1)); try done.
  - by apply obj_ok_setCode.
  - split; try done; unfold setCode, codeOf; cbn; rewrite Hh; by destruct (data o).
  - intros _. destruct c; [by right|by left].
  - intros _. unfold warm. cbn. rewrite Hh. exact Hw.
  - intros. by apply HQ.
Qed.

Lemma wp_obj_SetState k v (Q : Hash -> state -> Prop) :
  (forall x s1, jstep s s1 -> Q x s1) -> wp Er (obj_SetState reader a o k v) Q s.
Proof using All.
  intros HQ. unfold obj_SetState, obj_getState. do 2 apply wp_bind.
  apply wp_obj_GetCommittedState; [done..|]. intros o1 s1 Hq1 Hp1 Heq _.
  set (ds := stateObjectsDestruct s) in *.
  pose proof (oe_committed _ _ _ _ Heq k) as Hcom. rewrite <- Hcom. clear Hcom.
  assert (Hds : stateObjectsDestruct s1 = ds) by apply Hq1.
  set (prev := current ds a o1 k).
  assert (Hk : wp Er (if prev =? v then mret prev
     else append (storageChange a k prev (committed ds a o1 k));;
          setStateObject a (setState k v (committed ds a o1 k) o1);; mret prev) Q s1).
  { case_if; [by apply wp_ret, HQ, quiet_step|].
    pose proof (objs_ok_at _ _ _ (ok_objects _ (quiet_ok _ _ Hq1)) Hp1) as Hok.
    apply (step_put_update s1 a o1 (setState k v (committed ds a o1 k))
      (setState k prev (committed ds a o1 k)) (storageChange a k prev (committed ds a o1 k))
      (fun _ s1 => Q prev s1)); try done.
    - by eapply quiet_ok.
    - by apply obj_ok_setState.
    - rewrite Hds. split; try (unfold setState; by repeat case_if).
      intros x. rewrite !current_setState. destruct (decide (x = k)) as [->|]; [|done].
      case_if; [|done]. bool_to_Z. fold prev. transitivity (committed ds a o1 k); [|done].
      unfold setState. by case_if.
    - unfold setState. by case_if.
    - unfold setState. by repeat case_if.
    - intros s2 H2 _ _. apply HQ. eapply step_trans; [by apply quiet_step|done]. }
  unfold prev, current in Hk. destruct (dirtyStorage o1 !! k); exact Hk.
Qed.
End writers.

Lemma wp_SelfDestruct Er a s (Q : word -> state -> Prop) :
  state_ok s -> (forall w s1, jstep s s1 -> Q w s1) -> wp Er (SelfDestruct reader a) Q s.
Proof.
  intros Hs HQ. apply wp_bind, wp_getStateObject; [done|]. intros s1 Hq Hp Hso.
  destruct (objectAt s a) as [o|]; [|by apply wp_ret, HQ, quiet_step].
  assert (Hmark : forall s2 o2, jstep s s2 -> objectAt s2 a = Some o2 -> stateObjects s2 !! a = Some o2 ->
    selfDestructed o2 = selfDestructed o ->
    wp Er ((if negb (selfDestructed o) then
         append (selfDestructChange a);;
         st_modify (fun s => with_stateObjects (alter markSelfdestructed a (stateObjects s)) s)
       else mret tt);; mret (Balance (data o))) Q s2).
  { intros s2 o2 H2 Hp2 Hso2 Heq. case_if; [|by apply HQ].
    pose proof (objs_ok_at _ _ _ (ok_objects _ (jstep_ok _ _ H2)) Hp2) as Hok.
    apply (HQ _ (with_stateObjects (alter markSelfdestructed a (stateObjects s2))
      (pushed (selfDestructChange a) s2))).
    assert (Halt : alter markSelfdestructed a (stateObjects s2) =
      <[a := markSelfdestructed o2]> (stateObjects s2)).
    { apply map_eq. intros b. destruct (decide (b = a)) as [->|].
      - by rewrite lookup_alter_eq, lookup_insert_eq, Hso2.
      - by rewrite lookup_alter_ne, lookup_insert_ne. }
    rewrite Halt. eapply step_trans; [exact H2|].
    change (jstep s2 (pushed (selfDestructChange a) (put a (markSelfdestructed o2) s2))).
    eapply (step_push _ _ _ (put a (set_selfDestructed false (markSelfdestructed o2))
      (pushed (selfDestructChange a) s2))); try apply (jstep_ok _ _ H2); try done.
    - apply objs_ok_put; [apply (jstep_ok _ _ H2)|done].
    - intros b. rewrite db_fresh_put. unfold db_fresh. destruct (decide (b = a)) as [->|]; [|done].
      by rewrite Hp2.
    - rewrite (selfDestructChange_eq _ _ (markSelfdestructed o2)) by exact (objectAt_put_eq s2 a _).
      rewrite (onObject_eq _ _ _ (markSelfdestructed o2)) by exact (objectAt_put_eq s2 a _).
      change (pushed ?e (put a ?o ?s)) with (put a o (pushed e s)). by rewrite put_put.
    - trans (pushed (selfDestructChange a) s2); [apply push_refines|].
      apply (refines_put_same _ a o2); [done| |done].
      apply negb_true_iff in Heqb. split; try done. cbn. congruence. }
  apply wp_bind. case_if.
  - apply wp_bind, wp_obj_SetBalance; [by eapply quiet_ok|done|]. intros w s2 H2 Hp2 Hso2.
    apply wp_ret. eapply Hmark; [|exact Hp2|done|done].
    eapply step_trans; [by apply quiet_step|done].
  - apply wp_ret. eapply Hmark; [by apply quiet_step|done..].
Qed.

(** *** Access list *)

Lemma access_ok_AddAddress al a : access_ok al -> access_ok (AddAddress al a).2.
Proof.
  intros [Hi Hs Hj]. unfold AddAddress. destruct (addresses al !! a); [done|]. split; [|done|]; cbn.
  - intros b i. rewrite lookup_insert_Some. intros [[_ <-]|[_ Hb]]; [by left|by eapply Hi].
  - intros b c i Hn. rewrite !lookup_insert_Some.
    intros [[_ <-]|[_ Hb]] [[_ E]|[_ Hc]]; [done..|by subst|by eapply Hj].
Qed.

Lemma access_ok_firstSlot al a k : access_ok al ->
  access_ok (mkAccessList (<[a := len (slots al)]> (addresses al)) (slots al ++ [{[k]}])).
Proof.
  intros [Hi Hne Hj]. pose proof (len_nonneg (slots al)). split; cbn.
  - intros b i. rewrite lookup_insert_Some, len_app. change (len [{[k]}]) with 1.
    intros [[_ <-]|[_ Hb]]; [right; lia|]. destruct (Hi _ _ Hb); [by left|right; lia].
  - apply Forall_app. split; [done|]. repeat constructor. set_solver.
  - assert (Hlt : forall b, addresses al !! b = Some (len (slots al)) -> False).
    { intros b Hb. destruct (Hi _ _ Hb); lia. }
    intros b c i Hn. rewrite !lookup_insert_Some.
    intros [[-> <-]|[_ Hb]] [[-> E]|[_ Hc]]; [done|by destruct (Hlt c)| |by eapply Hj].
    subst i. by destruct (Hlt b).
Qed.

Lemma access_ok_nextSlot al k n m : access_ok al -> slots al !! n = Some m ->
  access_ok (mkAccessList (addresses al) (<[n := {[k]} ∪ m]> (slots al))).
Proof.
  intros [Hi Hne Hj] Hm. split; cbn; [| |exact Hj].
  - intros b j Hb. unfold len. rewrite length_insert. by apply (Hi b).
  - apply Forall_insert; [done|set_solver].
Qed.

Lemma AddSlot_ok al a k : access_ok al ->
  exists addrMod slotMod al', AddSlot al a k = Ret (addrMod, slotMod, al') /\ access_ok al'.
Proof.
  intros Hok. unfold AddSlot.
  destruct (addresses al !! a) as [i|] eqn:E; [case_if; bool_to_Z|].
  - eexists _, _, _. split; [done|]. by apply access_ok_firstSlot.
  - destruct (al_idx _ Hok _ _ E) as [?|Hr]; [done|].
    destruct (index_ok (slots al) i Hr) as (m & Hm & ->). cbn.
    case_bool_decide; eexists _, _, _; (split; [done|]); [done|]. by apply access_ok_nextSlot.
  - eexists _, _, _. split; [done|]. by apply access_ok_firstSlot.
Qed.

Lemma addAccessTuple_ok al el : access_ok al ->
  exists al', addAccessTuple al el = Ret al' /\ access_ok al'.
Proof.
  intros Hok. unfold addAccessTuple. apply (access_ok_AddAddress al el.1) in Hok. revert Hok.
  generalize (AddAddress al el.1).2. induction el.2 as [|k ks IH]; intros al1 Hok; cbn; [by exists al1|].
  destruct (AddSlot_ok al1 el.1 k Hok) as (x & y & al2 & -> & Hok2). cbn. by apply IH.
Qed.

Lemma addAccessTuples_ok list : forall al, access_ok al ->
  exists al', foldl (fun al el => al ← al; addAccessTuple al el) (Ret al) list = Ret al' /\ access_ok al'.
Proof.
  induction list as [|el list IH]; intros al Hok; cbn; [by exists al|].
  destruct (addAccessTuple_ok al el Hok) as (al1 & -> & Hok1). by apply IH.
Qed.

Lemma access_ok_empty : access_ok newAccessList.
Proof.
  split; cbn; [|done|]; [intros a i|intros a b i _]; rewrite lookup_empty; discriminate.
Qed.

Lemma Prepare_ok rules sender coinbase dst pre list s : state_ok s ->
  IsEIP2929 rules && IsEIP4762 rules = false ->
  exists s', Prepare rules sender coinbase dst pre list s = Ret (tt, s') /\ state_ok s' /\
    refines (with_access (access s') (with_transient ∅ s)) s' /\
    stateObjects s' = stateObjects s /\ jrnl s' = jrnl s.
Proof.
  intros Hs Hr. unfold Prepare. rewrite Hr. unfold mbind, st_bind, st_modify, st_lift, mret, st_ret.
  destruct (IsEIP2929 rules); [|eexists; split; [done|]; split; [by destruct Hs|];
    by split_and!; [apply refines_eq|..]].
  set (al0 := foldl _ _ pre). destruct (addAccessTuples_ok list al0) as (al & Efold & Hal).
  { subst al0. assert (H0 : access_ok (match dst with
      | Some d => (AddAddress (AddAddress newAccessList sender).2 d).2
      | None => (AddAddress newAccessList sender).2 end)).
    { pose proof (access_ok_AddAddress _ sender access_ok_empty). destruct dst; by try apply access_ok_AddAddress. }
    revert H0. generalize (match dst with
      | Some d => (AddAddress (AddAddress newAccessList sender).2 d).2
      | None => (AddAddress newAccessList sender).2 end).
    induction pre as [|p pre IH]; intros al Hal; cbn; [done|]. by apply IH, access_ok_AddAddress. }
  unfold mbind in Efold. rewrite Efold. eexists. split; [done|].
  assert (access_ok (if IsShanghai rules then (AddAddress al coinbase).2 else al))
    by (case_if; by try apply access_ok_AddAddress).
  split; [by destruct Hs; split|]. by split_and!; [apply refines_eq|..].
Qed.

Lemma step_AddAddress s a : state_ok s -> addresses (access s) !! a = None ->
  jstep s (pushed (accessListAddAccountChange a)
    (with_access (mkAccessList (<[a := -1]> (addresses (access s))) (slots (access s))) s)).
Proof.
  intros Hs Hn. eapply step_push; try apply Hs; try done.
  - pose proof (access_ok_AddAddress (access s) a (ok_access _ Hs)) as H.
    unfold AddAddress in H. by rewrite Hn in H.
  - apply refines_eq; try done. cbn. unfold DeleteAddress. cbn. rewrite delete_insert_id by done.
    by destruct (access s).
Qed.

(** The first slot of an address. *)
Lemma step_firstSlot s a k : state_ok s -> addresses (access s) !! a = Some (-1) ->
  jstep s (pushed (accessListAddSlotChange a k)
    (with_access (mkAccessList (<[a := len (slots (access s))]> (addresses (access s)))
      (slots (access s) ++ [{[k]}])) s)).
Proof.
  intros Hs Ha. destruct (ok_access _ Hs) as [Hi Hne Hj].
  apply (step_push _ _ _ (with_access (access s) (pushed (accessListAddSlotChange a k) s)));
    try apply Hs; try done.
  - apply access_ok_firstSlot, Hs.
  - cbn [revertEntry]. unfold DeleteSlot. cbn. rewrite lookup_insert_eq.
    unfold index. replace (0 <=? len _) with true by (symmetry; apply Z.leb_le, len_nonneg).
    unfold len. rewrite Nat2Z.id, list_lookup_middle by done. cbn.
    rewrite bool_decide_eq_true_2 by (apply difference_diag_L).
    rewrite insert_insert_eq, insert_id, insert_app_r_alt, take_app_length by done.
    by destruct (access s).
Qed.

(** A further slot of an address. *)
Lemma step_nextSlot s a k i m : state_ok s -> addresses (access s) !! a = Some i -> i <> -1 ->
  slots (access s) !! Z.to_nat i = Some m -> k ∉ m ->
  jstep s (pushed (accessListAddSlotChange a k)
    (with_access (mkAccessList (addresses (access s))
      (<[Z.to_nat i := {[k]} ∪ m]> (slots (access s)))) s)).
Proof.
  intros Hs Ha Hn Hm Hk. destruct (ok_access _ Hs) as [Hi Hne Hj].
  destruct (Hi _ _ Ha) as [|Hr]; [done|].
  pose proof (Forall_lookup_1 _ _ _ _ Hne Hm) as Hm0. cbn in Hm0.
  assert (Hdel : ({[k]} ∪ m) ∖ {[k]} = m) by set_solver.
  pose proof (lookup_lt_Some _ _ _ Hm).
  apply (step_push _ _ _ (with_access (access s) (pushed (accessListAddSlotChange a k) s)));
    try apply Hs; try done.
  - apply access_ok_nextSlot; [apply Hs|done].
  - cbn [revertEntry]. unfold DeleteSlot. cbn. rewrite Ha. unfold index.
    rewrite (proj2 (Z.leb_le 0 i)), list_lookup_insert_eq by (done || lia). cbn.
    rewrite Hdel, bool_decide_eq_false_2, list_insert_insert_eq, list_insert_id by done.
    by destruct (access s).
Qed.

Lemma wp_AddAddressToAccessList Er a s (Q : unit -> state -> Prop) :
  state_ok s -> (forall s1, jstep s s1 -> Q tt s1) -> wp Er (AddAddressToAccessList a) Q s.
Proof.
  intros Hs HQ. unfold AddAddressToAccessList. apply wp_bind, wp_get. unfold AddAddress.
  destruct (addresses (access s) !! a) eqn:E; unfold wp; cbn; apply HQ.
  - replace (with_access (access s) s) with s by (by destruct s). by apply step_refl.
  - by apply step_AddAddress.
Qed.

Lemma wp_AddSlotToAccessList Er a k s (Q : unit -> state -> Prop) :
  state_ok s -> (forall s1, jstep s s1 -> Q tt s1) -> wp Er (AddSlotToAccessList a k) Q s.
Proof.
  intros Hs HQ. unfold AddSlotToAccessList. apply wp_bind, wp_get. unfold AddSlot.
  destruct (addresses (access s) !! a) as [i|] eqn:E; [case_if|].
  - bool_to_Z. subst i. apply HQ. by apply step_firstSlot.
  - bool_to_Z. destruct (al_idx _ (ok_access _ Hs) _ _ E) as [?|Hr]; [done|].
    destruct (index_ok (slots (access s)) i Hr) as (m & Hm & Hx). rewrite Hx.
    unfold wp. cbn. case_bool_decide; cbn; apply HQ.
    + replace (with_access (access s) s) with s by (by destruct s). by apply step_refl.
    + by apply step_nextSlot.
  - apply HQ. eapply step_trans; [by apply (step_AddAddress s a)|].
    pose proof (step_firstSlot (pushed (accessListAddAccountChange a) (with_access
      (mkAccessList (<[a := -1]> (addresses (access s))) (slots (access s))) s)) a k) as H.
    cbn in H. rewrite insert_insert_eq in H. apply H; [|apply lookup_insert_eq].
    eapply jstep_ok. by apply (step_AddAddress s a).
Qed.

(** *** Logs, refunds, transient storage *)

Lemma wp_AddLog Er l s (Q : unit -> state -> Prop) :
  state_ok s -> (forall s1, jstep s s1 -> Q tt s1) -> wp Er (AddLog l) Q s.
Proof.
  intros Hs HQ. pose proof (ok_logs _ Hs) as Hu.
  set (h := thash s). set (old := default [] (logs s !! h)).
  set (x := mkTxLog l h (wrap64 (txIndex s)) (logSize s)).
  set (s1 := pushed (addLogChange h) (with_logs (<[h := old ++ [x]]> (logs s)) (logSize s +! 1) s)).
  assert (E : AddLog l s = Ret (tt, s1)) by reflexivity.
  unfold wp. rewrite E. apply HQ. clear E.
  assert (Hback : (logSize s +! 1) -! 1 = logSize s).
  { unfold_u64. rewrite Zminus_mod_idemp_l, Z.add_simpl_r. by apply Z.mod_small. }
  assert (Hlen : len (old ++ [x]) = len old + 1) by apply len_app.
  set (s2 := with_logs (if len (old ++ [x]) =? 1 then delete h (<[h := old ++ [x]]> (logs s))
      else <[h := old]> (<[h := old ++ [x]]> (logs s))) ((logSize s +! 1) -! 1)
      (pushed (addLogChange h) s)).
  apply (step_push _ _ _ s2); try apply Hs; try done.
  - apply wrap64_range.
  - cbn [revertEntry]. cbn. rewrite lookup_insert_eq. cbn. unfold s2. case_if; [done|].
    rewrite slice_ok by (pose proof (len_nonneg old); lia).
    unfold zslice. rewrite Hlen. replace (Z.to_nat _) with (length old) by (unfold len; lia).
    by rewrite drop_0, take_app_length.
  - apply (refines_parts s s); try done. intros _. cbn. rewrite Hback. split_and!; try done.
    intros y. unfold s2. case_if; cbn.
    + rewrite default_delete. destruct (decide (y = h)) as [->|].
      * fold old. bool_to_Z. destruct old; [done|]. rewrite len_cons in *.
        pose proof (len_nonneg old). lia.
      * rewrite default_insert. by destruct (decide (y = h)).
    + rewrite insert_insert_eq, default_insert. by destruct (decide (y = h)) as [->|].
Qed.

Lemma step_refund s r : state_ok s -> is_u64 r -> jstep s (with_refund r (pushed (refundChange (refund s)) s)).
Proof.
  intros Hs Hr. change (jstep s (pushed (refundChange (refund s)) (with_refund r s))).
  by eapply step_push; try apply Hs.
Qed.

Lemma wp_SetTransientState Er a k v s (Q : unit -> state -> Prop) :
  state_ok s -> (forall s1, jstep s s1 -> Q tt s1) -> wp Er (SetTransientState a k v) Q s.
Proof.
  intros Hs HQ. unfold SetTransientState, GetTransientState. apply wp_bind, wp_gets.
  case_if; [by apply wp_ret, HQ, step_refl|].
  set (prev := transient_Get (transient s) a k).
  apply (HQ (pushed (transientStorageChange a k prev)
    (with_transient (transient_Set (transient s) a k v) s))).
  eapply step_push; try apply Hs; try done.
  apply (refines_parts s s); try done. intros _. cbn. split_and!; try done.
  intros b x. rewrite !transient_Get_Set. by destruct (decide _) as [[-> ->]|].
Qed.

(** *** Accounts *)

Lemma step_dirty s a : state_ok s -> jstep s (with_jrnl (mkJournal (entries (jrnl s))
  (incr (dirties (jrnl s)) a) (validRevisions (jrnl s)) (nextRevisionId (jrnl s))) s).
Proof.
  intros [? ? ? [] ?]. split; [by split; try done; split|]. eexists [], [], _. rewrite !app_nil_r.
  split_and!; [done|done|by intros|reflexivity|]. by apply refines_eq.
Qed.

Lemma step_touch s a : state_ok s -> jstep s (pushed (touchChange a) s).
Proof. intros Hs. by eapply step_push; try apply Hs. Qed.

Lemma wp_touchChange Er a s (Q : unit -> state -> Prop) :
  state_ok s -> (forall s1, jstep s s1 -> Q tt s1) -> wp Er (journal_touchChange a) Q s.
Proof.
  intros Hs HQ. unfold journal_touchChange. pose proof (step_touch s a Hs) as H1. unfold wp. cbn.
  case_if; [|by apply HQ]. apply HQ. eapply step_trans; [exact H1|].
  exact (step_dirty _ a (jstep_ok _ _ H1)).
Qed.

Lemma wp_AddBalance Er a w s (Q : word -> state -> Prop) :
  state_ok s -> (forall x s1, jstep s s1 -> Q x s1) -> wp Er (AddBalance reader a w) Q s.
Proof.
  intros Hs HQ. apply wp_bind, wp_getOrNewStateObject; [done|]. intros o s1 H1 Hp _.
  pose proof (jstep_ok _ _ H1). unfold obj_AddBalance. case_if.
  - apply wp_bind. case_if; [|by do 2 apply wp_ret; apply HQ].
    apply wp_touchChange; [done|]. intros s2 H2. apply wp_ret, HQ. by eapply step_trans.
  - apply wp_obj_SetBalance; [done..|]. intros. apply HQ. by eapply step_trans.
Qed.

Lemma wp_SubBalance Er a w s (Q : word -> state -> Prop) :
  state_ok s -> (forall x s1, jstep s s1 -> Q x s1) -> wp Er (SubBalance reader a w) Q s.
Proof.
  intros Hs HQ. apply wp_bind, wp_getOrNewStateObject; [done|]. intros o s1 H1 Hp _.
  case_if; [by apply HQ|]. pose proof (jstep_ok _ _ H1).
  apply wp_obj_SetBalance; [done..|]. intros. apply HQ. by eapply step_trans.
Qed.

Lemma wp_SelfDestruct6780 Er a s (Q : word * bool -> state -> Prop) :
  state_ok s -> (forall x s1, jstep s s1 -> Q x s1) -> wp Er (SelfDestruct6780 reader a) Q s.
Proof.
  intros Hs HQ. apply wp_bind, wp_getStateObject; [done|]. intros s1 H1 Hp _.
  apply quiet_step in H1. destruct (objectAt s a) as [o|]; [|by apply HQ].
  case_if; [|by apply HQ]. apply wp_bind, wp_SelfDestruct; [by eapply jstep_ok|].
  intros. apply wp_ret, HQ. by eapply step_trans.
Qed.

Lemma wp_SetCode Er a c s (Q : bytes -> state -> Prop) :
  state_ok s -> db_fresh s a -> data_ok c -> (forall x s1, jstep s s1 -> Q x s1) ->
  wp Er (SetCode reader a c) Q s.
Proof.
  intros Hs Hf Hc HQ. apply wp_bind, wp_getOrNewStateObject; [done|]. intros o s1 H1 Hp Hw.
  assert (warm o) by (destruct Hw as [|Hw]; [done|]; unfold db_fresh in Hf; by rewrite Hw in Hf).
  apply wp_obj_SetCode; [by eapply jstep_ok|done..|]. intros. apply HQ. by eapply step_trans.
Qed.

Lemma wp_CreateContract Er a s o (Q : unit -> state -> Prop) :
  state_ok s -> objectAt s a = Some o -> (forall s1, jstep s s1 -> Q tt s1) ->
  wp Er (CreateContract reader a) Q s.
Proof.
  intros Hs Hpo HQ. apply wp_bind, wp_getStateObject; [done|]. intros s1 H1 Hp _.
  rewrite Hpo in *. case_if; [|by apply HQ, quiet_step].
  pose proof (objs_ok_at _ _ _ (ok_objects _ (quiet_ok _ _ H1)) Hp) as Hok.
  apply (HQ (put a (set_newContract true o) (pushed (createContractChange a) s1))).
  eapply step_trans; [by apply quiet_step|].
  apply (step_update s1 a o (set_newContract true) (set_newContract false)); try done;
    [by eapply quiet_ok|]. apply negb_true_iff in Heqb. by split.
Qed.

(** Every request that the EVM may make at any time keeps the invariant and can be undone. *)
Lemma run_ext A (r : sdbE A) s :
  state_ok s -> req_ok r -> is_quiet r = false -> match r with VM.Snapshot => False | _ => True end ->
  wp (fun e => e = PanicRefund /\ is_SubRefund r = true) (run reader r) (fun _ s' => jstep s s') s.
Proof.
  intros Hs Hreq Hq Hsnap. destruct r; try discriminate Hq; try done; cbn [run].
  - by apply wp_SubBalance.
  - by apply wp_AddBalance.
  - apply wp_bind, wp_getOrNewStateObject; [done|]. intros o s1 H1 Hp _.
    apply wp_obj_SetNonce; [by eapply jstep_ok|done|]. intros. by eapply step_trans.
  - apply (step_refund s _ Hs), wrap64_range.
  - unfold SubRefund. apply wp_bind, wp_gets, wp_bind, wp_modify.
    case_if; [by apply wp_fail|]. apply wp_modify, (step_refund s _ Hs), wrap64_range.
  - apply wp_bind, wp_getOrNewStateObject; [done|]. intros o s1 H1 Hp _.
    apply wp_obj_SetState; [by eapply jstep_ok|done|]. intros. by eapply step_trans.
  - by apply wp_SetTransientState.
  - by apply wp_SelfDestruct.
  - by apply wp_SelfDestruct6780.
  - by apply wp_AddAddressToAccessList.
  - by apply wp_AddSlotToAccessList.
  - by apply wp_AddLog.
  - unfold AddPreimage. apply wp_modify. destruct (preimages s !! h); [by apply step_refl|].
    apply quiet_step. destruct Hs. split; [by split|]. split; [by apply refines_eq|done].
Qed.

(** ** Snapshots *)

Definition db_reverts (id : Z) (s s0 : state) : Prop := state_ok s0 /\ exists es rs s'',
  entries (jrnl s) = entries (jrnl s0) ++ es /\
  validRevisions (jrnl s) = validRevisions (jrnl s0) ++ (id, len (entries (jrnl s0))) :: rs /\
  revertEntries reader (rev es) s = Ret (tt, s'') /\ refines s0 s''.

Definition db_keeps : relation state := keeps_with db_reverts db_fresh.

Lemma ext_keeps s s' : ext s s' -> db_keeps s s'.
Proof.
  intros (e2 & r2 & u2 & E2 & R2 & F2 & U2 & H2). split; [|done].
  intros id s0 (H0 & e1 & r1 & u1 & E1 & R1 & U1 & H1). split; [done|].
  destruct (revertEntries_mono _ _ _ _ H2 U1) as (u & U3 & H3).
  exists (e1 ++ e2), (r1 ++ r2), u. rewrite E2, E1, R2, R1, rev_app_distr, <- !app_assoc.
  split_and!; [done|done| |by etrans]. apply revertEntries_app. eauto.
Qed.

Lemma Snapshot_spec s id s' : state_ok s -> Snapshot s = Ret (id, s') ->
  state_ok s' /\ ext s s' /\ refines s s' /\ db_reverts id s' s.
Proof.
  intros Hs [= <- <-]. destruct Hs as [Ho He Ha [Hrs Hrn] Hl].
  assert (Hr : refines s (with_jrnl (mkJournal (entries (jrnl s)) (dirties (jrnl s))
    (validRevisions (jrnl s) ++ [(nextRevisionId (jrnl s), len (entries (jrnl s)))])
    (nextRevisionId (jrnl s) + 1)) s)) by (by apply refines_eq).
  split; [|split; [|split; [done|]]].
  - split; try done. split; cbn.
    + rewrite map_app. apply StronglySorted_app_2; [|done|cbn; repeat constructor].
      intros x y Hx Hy. cbn in Hy. rewrite list_elem_of_singleton in Hy. subst y.
      apply list_elem_of_fmap in Hx as (r & -> & Hx).
      by apply (proj1 (Forall_forall _ _) Hrn).
    + apply Forall_app. split; [|by repeat constructor; cbn; lia].
      eapply Forall_impl; [exact Hrn|]. cbn. lia.
  - eexists [], [(nextRevisionId (jrnl s), len (entries (jrnl s)))], _. rewrite app_nil_r.
    split_and!; [done|done|by intros|reflexivity|done].
  - split; [by split; try done; split|]. eexists [], [], _. rewrite app_nil_r.
    split_and!; [done|done|reflexivity|done].
Qed.

(** The binary search finds the revision. *)
Lemma search_revision j id n rs0 rs :
  revs_ok j -> validRevisions j = rs0 ++ (id, n) :: rs ->
  sort_Search (len (validRevisions j)) (fun i =>
    match validRevisions j !! Z.to_nat i with Some r => id <=? r.1 | None => true end) = len rs0.
Proof.
  intros [Hsort _] Hj. rewrite Hj in *. rewrite map_app in Hsort. cbn in Hsort.
  apply StronglySorted_app in Hsort as (Hlt & _ & Hr). apply StronglySorted_cons in Hr as [Hgt _].
  pose proof (len_nonneg rs). pose proof (len_nonneg rs0).
  apply sort_Search_spec; rewrite len_app, len_cons; [|lia].
  intros x Hx. destruct (Z.leb_spec (len rs0) x) as [Hle|Hlt'].
  - rewrite lookup_app_r by (unfold len in *; lia).
    destruct (Z.to_nat x - length rs0)%nat as [|k]; cbn; [by rewrite Z.leb_refl|].
    destruct (rs !! k) as [r|] eqn:Hk; [|done]. apply Z.leb_le.
    rewrite Forall_forall in Hgt. apply Z.lt_le_incl, Hgt.
    apply list_elem_of_fmap. exists r. split; [done|]. by apply list_elem_of_lookup_2 in Hk.
  - destruct (lookup_lt_is_Some_2 rs0 (Z.to_nat x)) as [r Hr]; [unfold len in *; lia|].
    rewrite lookup_app_l, Hr by (unfold len in *; lia). apply Z.leb_gt. apply Hlt.
    + apply list_elem_of_fmap. exists r. split; [done|]. by apply list_elem_of_lookup_2 in Hr.
    + by left.
Qed.

(** What [RevertToSnapshot] does: the journal is rolled back to its state at the snapshot and
    everything the interface observes is restored. *)
Lemma RevertToSnapshot_spec id s s0 : state_ok s -> db_reverts id s s0 ->
  exists s', RevertToSnapshot reader id s = Ret (tt, s') /\ state_ok s' /\ refines s0 s' /\
    entries (jrnl s') = entries (jrnl s0) /\ validRevisions (jrnl s') = validRevisions (jrnl s0).
Proof.
  intros Hs (Hs0 & es & rs & u & Hes & Hrs & Hu & Hru).
  destruct (revertEntries_inv _ _ _ Hu) as (F1 & F2 & F3 & Hok).
  unfold RevertToSnapshot, mbind, st_bind, st_gets.
  rewrite (search_revision (jrnl s) id _ _ _ (ok_revs _ Hs) Hrs).
  pose proof (len_nonneg (validRevisions (jrnl s0))) as Hnn.
  rewrite (proj2 (Z.eqb_neq _ _)).
  2: { rewrite Hrs, len_app, len_cons. pose proof (len_nonneg rs). lia. }
  assert (Hix : index (validRevisions (jrnl s)) (len (validRevisions (jrnl s0))) =
    Ret (id, len (entries (jrnl s0)))).
  { unfold index. rewrite (proj2 (Z.leb_le _ _)) by lia. unfold len at 1.
    by rewrite Nat2Z.id, Hrs, list_lookup_middle. }
  unfold st_lift. rewrite Hix. cbn [fst snd]. rewrite Z.eqb_refl. cbn [negb].
  unfold journal_revert, mbind, st_bind, st_gets.
  assert (Hn : Z.to_nat (len (entries (jrnl s0))) = length (entries (jrnl s0)))
    by (unfold len; lia).
  rewrite Hn, Hes, drop_app_length, Hu. eexists. split; [reflexivity|].
  assert (He : take (length (entries (jrnl s0))) (entries (jrnl u)) = entries (jrnl s0)).
  { by rewrite F1, Hes, take_app_length. }
  assert (Hv : take (Z.to_nat (len (validRevisions (jrnl s0)))) (validRevisions (jrnl u)) =
    validRevisions (jrnl s0)).
  { unfold len. by rewrite Nat2Z.id, F2, Hrs, take_app_length. }
  assert (Hr : refines s0 u) by done. destruct Hr as [[? ? ? ? ? Hls Hacc ?] _].
  split; [|split; [|by split]].
  - destruct Hs as [Ho Hen _ [Hst Hnx] _ _]. destruct Hs0 as [_ He0 Ha0 _ Hl0 Hr0].
    rewrite Hes in Hen. apply Forall_app in Hen as [Hen0 Hen1].
    split; cbn; [apply Hok; [done|by apply Forall_rev]|by rewrite He|congruence| |congruence|congruence].
    rewrite Hrs in Hst, Hnx. rewrite map_app in Hst.
    split; cbn; rewrite Hv, ?F3; [by eapply StronglySorted_app_1_l|by apply Forall_app in Hnx as [? _]].
  - trans u; [done|by apply refines_eq].
Qed.

Lemma revert_keeps s0 s' : refines s0 s' -> entries (jrnl s') = entries (jrnl s0) ->
  validRevisions (jrnl s') = validRevisions (jrnl s0) -> db_keeps s0 s'.
Proof.
  intros Hr He Hv. apply ext_keeps. exists [], [], s'. rewrite He, Hv, !app_nil_r.
  split_and!; try done. apply Hr.
Qed.

(** ** The laws of the interface *)

Definition db_codes (s : state) (a : Address) : bytes :=
  match objectAt s a with Some o => codeOf a o | None => [] end.
Definition db_existing (s : state) (a : Address) : Prop := is_Some (objectAt s a).

Lemma refines_codes s s' a : refines s s' -> db_codes s' a = db_codes s a.
Proof.
  intros [[Ho _ _ _ _ _ _ _] _]. unfold db_codes. destruct (Ho a) as [o o' []|]; done.
Qed.

Lemma obj_ok_code a o : obj_ok a o ->
  acc_CodeHash (data o) = Keccak256 (codeOf a o) /\ data_ok (codeOf a o).
Proof.
  unfold codeOf. intros [(Hc & Hk & Hd)|[[Hc Hk]|(Hc & Hn & c & Hr & Hne & Hk & Hd)]].
  - replace (len (code o) =? 0) with false by (by destruct (code o)). done.
  - rewrite Hc, Hk. change (len [] =? 0) with true. cbn [negb]. rewrite Z.eqb_refl.
    split; [reflexivity|apply data_ok_nil].
  - rewrite Hc, Hr. cbn [negb default len length Z.of_nat Z.eqb].
    destruct (Z.eqb_spec (acc_CodeHash (data o)) EmptyCodeHash) as [He|].
    + split; [exact He|apply data_ok_nil].
    + split; [symmetry; exact Hk|exact Hd].
Qed.

Lemma wp_object_read {A} (f : option stateObject -> A) a s v s' : state_ok s ->
  (o ← getStateObject reader a; mret (f o)) s = Ret (v, s') ->
  v = f (objectAt s a) /\ quiet s s' /\ objectAt s' a = objectAt s a.
Proof.
  intros Hs. unfold mbind, st_bind. rewrite getStateObject_eq. intros [= <- <-].
  split_and!; [done|by apply quiet_load|apply objectAt_load].
Qed.

Lemma codehash_spec a s h s' : state_ok s -> GetCodeHash reader a s = Ret (h, s') ->
  (h = 0 \/ h = Keccak256 (db_codes s a)) /\ (h = 0 \/ h = EmptyCodeHash -> db_fresh s' a).
Proof.
  intros Hs H. apply wp_object_read in H as (-> & Hq & Hp); [|done].
  unfold db_codes, db_fresh. rewrite Hp. destruct (objectAt s a) as [o|] eqn:E; [|auto].
  pose proof (objs_ok_at _ _ _ (ok_objects _ Hs) E) as Hok.
  split; [right; by apply obj_ok_code|]. intros Hz. unfold warm.
  destruct Hok as [(? & _)|[[_ ?]|(_ & ? & _)]]; [by left|by right|]. destruct Hz; [done|by right].
Qed.

Lemma step_law s s' : jstep s s' -> state_ok s' /\ keeps_with db_reverts db_fresh s s'.
Proof. intros [? H]. split; [done|by apply ext_keeps]. Qed.

Lemma step_spec A (r : sdbE A) s : state_ok s -> req_ok r ->
  match run reader r s with
  | Ret (_, s') => state_ok s' /\ keeps_with db_reverts db_fresh s s'
  | Fail e => e = PanicRefund /\ is_SubRefund r = true
  end.
Proof.
  intros Hs Hr. destruct (is_quiet r) eqn:Hq.
  { pose proof (run_quiet (fun _ => False) A r s Hs Hq) as H. unfold wp in H.
    destruct (run reader r s) as [[x s']|]; [|done]. by apply step_law, quiet_step. }
  assert (Hd : match r with VM.Snapshot => False | _ => True end \/
    match r with VM.Snapshot => True | _ => False end) by (destruct r; auto).
  destruct Hd as [Hd|Hd].
  - pose proof (run_ext A r s Hs Hr Hq Hd) as H. unfold wp in H.
    destruct (run reader r s) as [[x s']|]; [by apply step_law|done].
  - destruct r; try done. cbn [run]. destruct (Snapshot s) as [[id s']|] eqn:E; [|done].
    destruct (Snapshot_spec _ _ _ Hs E) as (? & ? & _). by apply step_law.
Qed.

Lemma read_spec A (r : sdbE A) s a s' :
  state_ok s -> is_read r = true -> run reader r s = Ret (a, s') ->
  seq s s' /\ forall x, db_codes s' x = db_codes s x.
Proof.
  intros Hs Hr E. enough (refines s s') as H by (split; [apply H|intros; by apply refines_codes]).
  destruct (is_quiet r) eqn:Hq.
  - eapply (wp_Ret (fun _ => False)) in E; [|by apply run_quiet]. apply E.
  - destruct r; try done. by apply Snapshot_spec in E as (_ & _ & ? & _).
Qed.

(** ** The world: what a read-only call may not change *)

Definition w_account (s : state) (a : Address) : word * Z * bytes * bool :=
  match objectAt s a with
  | Some o => (Balance (data o), Nonce (data o), codeOf a o, selfDestructed o)
  | None => (wzero, 0, [], false)
  end.
Definition w_storage (s : state) (a : Address) (k : Hash) : Hash * Hash :=
  match objectAt s a with
  | Some o => (current (stateObjectsDestruct s) a o k, committed (stateObjectsDestruct s) a o k)
  | None => (0, 0)
  end.

Record world (s s' : state) : Prop := {
  w_accounts : forall a, w_account s' a = w_account s a;
  w_slots : forall a k, w_storage s' a k = w_storage s a k;
  w_logs : forall h, default [] (logs s' !! h) = default [] (logs s !! h);
  w_logSize : logSize s' = logSize s;
  w_transient : forall a k, transient_Get (transient s') a k = transient_Get (transient s) a k;
}.

#[global] Instance world_equiv : Equivalence world.
Proof.
  split.
  - by intros s.
  - intros s s' []. by split; intros; symmetry.
  - intros s1 s2 s3 [] []. split; intros; etrans; eauto.
Qed.

Lemma seq_world s s' : seq s s' -> world s s'.
Proof.
  intros [Ho Hd ? ? ? ? ? ?]. split; try done; intros a; unfold w_account, w_storage.
  - by destruct (Ho a) as [o o' [-> -> -> ? ? ?]|].
  - intros k. rewrite Hd. destruct (Ho a) as [o o' [? ? ? ? Hc Hcu]|]; [|done]. by rewrite Hc, Hcu.
Qed.

Lemma world_eq s s' :
  stateObjects s' = stateObjects s -> stateObjectsDestruct s' = stateObjectsDestruct s ->
  logs s' = logs s -> logSize s' = logSize s -> transient s' = transient s -> world s s'.
Proof.
  intros Ho Hd Hl Hls Ht.
  assert (Hp : forall a, objectAt s' a = objectAt s a) by (intros; unfold objectAt; by rewrite Ho, Hd).
  split; intros; unfold w_account, w_storage; by rewrite ?Hp, ?Hd, ?Hl, ?Ht.
Qed.

(** Creating an empty account changes nothing in the world. *)
Lemma world_create s a e : objectAt s a = None -> world s (put a (newObject None) (pushed e s)).
Proof.
  intros Hp. trans (pushed e s); [by apply world_eq|].
  assert (Hp' : objectAt (pushed e s) a = None) by done.
  assert (Hk : forall k, committed (stateObjectsDestruct s) a (newObject None) k = 0).
  { intros k. unfold committed. cbn. unfold objectAt in Hp.
    repeat case_match; try done; apply (rd_noStorage Hreader); intros; congruence. }
  assert (Hc : codeOf a (newObject None) = []).
  { change (codeOf a (newObject None)) with (if EmptyCodeHash =? EmptyCodeHash then []
      else default [] (rd_Code reader a EmptyCodeHash)). by rewrite Z.eqb_refl. }
  split; try done; intros b; unfold w_account, w_storage; rewrite objectAt_put;
    destruct (decide (b = a)) as [->|]; try done; rewrite Hp'.
  - by rewrite Hc.
  - intros k. unfold current. cbn. by rewrite Hk.
Qed.

Lemma wp_getOrNew_world Er a s (Q : stateObject -> state -> Prop) :
  state_ok s -> (forall o s1, world s s1 -> Q o s1) -> wp Er (getOrNewStateObject reader a) Q s.
Proof.
  intros Hs HQ. apply wp_bind, wp_getStateObject; [done|]. intros s1 (_ & [Hq _] & _) Hp Hn.
  apply seq_world in Hq. destruct (objectAt s a) as [o|]; [by apply wp_ret, HQ|].
  apply (HQ (newObject None) (put a (newObject None) (pushed (createObjectChange a) s1))).
  trans s1; [done|by apply world_create].
Qed.

Lemma run_world A (r : sdbE A) s :
  state_ok s -> neutral r = true -> wp (fun _ => True) (run reader r) (fun _ s' => world s s') s.
Proof.
  intros Hs Hn. destruct (is_read r) eqn:Hr.
  { unfold wp. destruct (run reader r s) as [[x s']|] eqn:E; [|done].
    apply seq_world. by eapply read_spec. }
  destruct r; try discriminate; cbn [run]; cbn in Hn.
  - apply wp_bind, wp_getOrNew_world; [done|]. intros o s1 H1. by rewrite Hn.
  - apply wp_bind, wp_getOrNew_world; [done|]. intros o s1 H1. unfold obj_AddBalance. rewrite Hn.
    apply wp_bind. case_if; [|done].
    unfold journal_touchChange. apply wp_bind, wp_modify.
    case_if; [apply wp_modify|apply wp_ret]; apply wp_ret; (etrans; [exact H1|by apply world_eq]).
  - by apply world_eq.
  - unfold SubRefund. apply wp_bind, wp_gets, wp_bind, wp_modify. case_if; [done|].
    by apply world_eq.
  - unfold AddAddressToAccessList. apply wp_bind, wp_get. destruct (AddAddress _ _) as [[] al];
      by apply world_eq.
  - unfold AddSlotToAccessList. apply wp_bind, wp_get. unfold wp, mbind, st_bind, st_lift.
    destruct (AddSlot _ _ _) as [[[[] []] al]|]; try done; by apply world_eq.
  - unfold AddPreimage. apply wp_modify. destruct (preimages s !! h); by apply world_eq.
Qed.

Lemma world_spec A (r : sdbE A) s a s' :
  state_ok s -> neutral r = true -> run reader r s = Ret (a, s') -> world s s'.
Proof. intros Hs Hn E. exact (wp_Ret _ _ _ _ _ _ (run_world A r s Hs Hn) E). Qed.

Definition state_StateDBSpec : @StateDBSpec U C state (state_StateDB reader).
Proof using All.
  refine {| db_ok := state_ok; codes := db_codes; existing := db_existing; fresh := db_fresh;
            same_state := seq; same_world := world; reverts_to := db_reverts |}.
  - exact seq_world.
  - exact world_spec.
  - exact step_spec.
  - exact read_spec.
  - intros s id s' Hs H. apply (Snapshot_spec _ _ _ Hs H).
  - intros id s s0 Hs H. destruct (RevertToSnapshot_spec _ _ _ Hs H) as (s' & E & ? & Hr & ? & ?).
    exists s'. split_and!; [exact E|done|apply Hr|by apply revert_keeps].
  - intros a s c s' Hs E.
    eapply (wp_Ret (fun _ => False) _ (fun c s' => c = db_codes s a /\ db_fresh s' a)) in E as [-> Hf];
      [|by apply wp_GetCode]. split; [done|]. split; [|done]. unfold db_codes.
    destruct (objectAt s a) as [o|] eqn:Ep; [|auto with geth].
    by apply obj_ok_code, (objs_ok_at s), Ep; destruct Hs.
  - exact codehash_spec.
  - intros s r s' Hs [= <- <-]. by destruct Hs.
  - intros a s b s' Hs E. apply (wp_object_read (fun o => bool_decide (is_Some o))) in E
      as (-> & _ & Hp); [|done]. unfold db_existing. by rewrite Hp, bool_decide_eq_true.
  - intros a s Hs Hn. apply eq_None_not_Some in Hn.
    exists (put a (newObject None) (pushed (createObjectChange a) s)). split; [done|].
    assert (H : jstep s (put a (newObject None) (pushed (createObjectChange a) s))).
    { apply step_create; [done| |done]. unfold objectAt in Hn. by repeat case_match. }
    destruct (step_law _ _ H). split_and!; [done|done| |by apply world_create].
    eexists. apply objectAt_put_eq.
  - intros a s Hs [o Ho].
    pose proof (wp_CreateContract (fun _ => False) a s o (fun _ s' => jstep s s') Hs Ho) as H.
    unfold wp in H. cbn [sdb state_StateDB run].
    destruct (CreateContract reader a s) as [[[] s']|]; [|by destruct H].
    exists s'. split; [done|]. by apply step_law, H.
  - intros rules sender coinbase dst pre list s Hs Hr.
    destruct (Prepare_ok rules sender coinbase dst pre list s Hs Hr) as (s' & E & ? & _).
    by exists s'.
  - intros a c s Hs Hf Hc.
    pose proof (wp_SetCode (fun _ => False) a c s (fun _ s' => jstep s s') Hs Hf Hc) as H.
    unfold wp in H. cbn [sdb state_StateDB run].
    destruct (SetCode reader a c s) as [[prev s']|]; [|by destruct H].
    exists prev, s'. split; [done|]. by apply step_law, H.
Defined.
End state_proofs.
