(* ===== verification/StateFinalise.v ===== *)
(** * The end of a transaction: [StateDB.Finalise] is total and keeps the invariant of the database *)

From S2P Require Import Prelude Bytes Uint256 Params Machine VM State StateSpec StateProofs.

Set Default Proof Using "Type*".

Section finalise.
Context `{U : Uint256} `{C : Crypto} (reader : Reader).
Import StateDB.

Definition fin_ok {A} (m : ST state A) : Prop := forall s, state_ok reader s -> exists a s', m s = Ret (a, s') /\ state_ok reader s'.

Lemma fin_bind {A B} (m : ST state A) (k : A -> ST state B) : fin_ok m -> (forall a, fin_ok (k a)) -> fin_ok (m ≫= k).
Proof. intros Hm Hk s Hs. destruct (Hm s Hs) as (a & s1 & E & H1). destruct (Hk a s1 H1) as (b & s2 & E2 & H2). exists b, s2. split; [|done]. unfold mbind, st_bind. by rewrite E. Qed.
Lemma fin_ret {A} (a : A) : fin_ok (mret a).
Proof. intros s Hs. by exists a, s. Qed.

(** Changes of fields that the invariant does not mention *)
Lemma fin_modify (f : state -> state) : (forall s, stateObjects (f s) = stateObjects s /\ jrnl (f s) = jrnl s /\ access (f s) = access s /\
  logSize (f s) = logSize s /\ refund (f s) = refund s) -> fin_ok (st_modify f).
Proof.
  intros Hf s [H1 H2 H3 H4 H5 H6]. exists tt, (f s). split; [done|]. destruct (Hf s) as (E1 & E2 & E3 & E4 & E5).
  split; rewrite ?E2, ?E3, ?E4, ?E5; try done. intros a o. rewrite E1. apply H1.
Qed.

Lemma fin_setStateObject a o : obj_ok reader a o -> fin_ok (setStateObject a o).
Proof.
  intros Ho s [H1 H2 H3 H4 H5 H6]. eexists tt, _. split; [done|]. split; try done.
  intros b o'. cbn. destruct (decide (b = a)) as [->|]; [rewrite lookup_insert_eq; by intros [= <-]|rewrite lookup_insert_ne by done; apply H1].
Qed.

(** A step on an object that keeps its account and code *)
Definition obj_step (a : Address) (m : stateObject -> ST state stateObject) : Prop :=
  forall o s, obj_ok reader a o -> state_ok reader s -> exists o' s', m o s = Ret (o', s') /\ obj_ok reader a o' /\ state_ok reader s'.

Lemma obj_GetCommittedState_step a k o s : obj_ok reader a o -> state_ok reader s ->
  exists v o' s', obj_GetCommittedState reader a o k s = Ret ((v, o'), s') /\ obj_ok reader a o' /\ state_ok reader s'.
Proof.
  intros Ho Hs. unfold obj_GetCommittedState. destruct (pendingStorage o !! k) as [v|]; [by exists v, o, s|].
  destruct (originStorage o !! k) as [v|]; [by exists v, o, s|]. unfold mbind, st_bind, st_get.
  assert (Hset : forall v, exists s', (setStateObject a (set_originStorage (<[k := v]> (originStorage o)) o);; mret (v, set_originStorage (<[k := v]> (originStorage o)) o)) s =
    Ret ((v, set_originStorage (<[k := v]> (originStorage o)) o), s') /\ state_ok reader s').
  { intros v. destruct (fin_setStateObject a (set_originStorage (<[k := v]> (originStorage o)) o) Ho s Hs) as (u & s' & E & Hs'). exists s'. split; [|done].
    unfold mbind, st_bind. by rewrite E. }
  destruct (stateObjectsDestruct s !! a); [destruct (Hset 0) as (s' & E & ?); by eexists _, _, s'|].
  destruct (rd_Storage reader a k) as [v|]; [destruct (Hset v) as (s' & E & ?); by eexists _, _, s'|].
  destruct (fin_modify (with_dbErr true) ltac:(done) s Hs) as (u & s' & E & Hs'). exists 0, o, s'. split; [|done].
  unfold setError. unfold mbind, st_bind. by rewrite E.
Qed.

Lemma finaliseSlot_step a kv : obj_step a (fun o => finaliseSlot reader a o kv).
Proof.
  intros o s Ho Hs. unfold finaliseSlot. destruct kv as [key value]. unfold mbind, st_bind.
  destruct (uncommittedStorage o !! key) as [orig|].
  - destruct (orig =? value); eexists _, s; (split; [done|]); by split.
  - destruct (obj_GetCommittedState_step a key o s Ho Hs) as (v & o' & s' & -> & Ho' & Hs'). eexists _, s'. split; [done|]. by split.
Qed.

Lemma finaliseSlots_step a kvs : obj_step a (fun o => finaliseSlots reader a o kvs).
Proof.
  induction kvs as [|kv kvs IH]; intros o s Ho Hs; [by exists o, s|]. cbn [finaliseSlots]. unfold mbind, st_bind.
  destruct (finaliseSlot_step a kv o s Ho Hs) as (o1 & s1 & -> & Ho1 & Hs1). by apply IH.
Qed.

Lemma finaliseOne_ok b a : fin_ok (finaliseOne reader b a).
Proof.
  intros s Hs. unfold finaliseOne. unfold mbind at 1, st_bind at 1, st_get. destruct (stateObjects s !! a) as [o|] eqn:E; [|by apply fin_ret].
  pose proof (ok_objects _ _ Hs a o E) as Ho. destruct (_ || _).
  - apply (fin_bind (A := unit)); [|intros _; apply fin_bind; [by apply fin_modify|intros _; apply fin_modify; intros s0; by destruct (stateObjectsDestruct s0 !! a)]|done].
    intros s0 [H1 H2 H3 H4 H5 H6]. eexists tt, _. split; [done|]. split; try done. intros c o'. cbn. rewrite lookup_delete_Some. intros [_ ?]. by apply H1.
  - unfold obj_finalise. unfold mbind at 2, st_bind at 2. destruct (finaliseSlots_step a (map_to_list (dirtyStorage o)) o s Ho Hs) as (o1 & s1 & E1 & Ho1 & Hs1).
    unfold mbind at 1, st_bind at 1. rewrite E1. apply (fin_bind (setStateObject a (set_newContract false (set_dirtyStorage ∅ o1)))); [by apply fin_setStateObject|intros _; by apply fin_modify|done].
Qed.

Lemma Finalise_ok b : fin_ok (Finalise reader b).
Proof.
  intros s Hs. unfold Finalise. unfold mbind at 1, st_bind at 1, st_get. apply (fin_bind (A := unit)); [|intros _|done].
  - induction (map_to_list (dirties (jrnl s))) as [|kv l IH]; [apply fin_ret|]. cbn [foldr]. apply (fin_bind (A := unit)); [apply finaliseOne_ok|done].
  - intros s0 [H1 H2 H3 H4 H5 H6]. eexists tt, _. split; [done|]. split; try done. split; constructor.
Qed.
End finalise.
