(* ===== verification/Frames.v ===== *)
(** * Frame invariants, and what the gas functions guarantee

    [frame_ok] is the invariant of a running frame; [gas_fn_ok] says that a dynamic gas function
    called on a deep enough stack does not panic, returns a [uint64], pays for the requested
    memory, and, for the call instructions, sets [callGasTemp] to an amount that its result
    covers together with the value-transfer charge. *)

From S2P Require Import Prelude Bytes Uint256 Params Machine Opcodes Analysis JumpTable VM GasTable Instructions Evm StateSpec.

(** Frames and EVMs whose fields are visible, for symbolic execution. *)
Ltac open_frame f :=
  let p := fresh "p" in let st := fresh "st" in let m := fresh "m" in
  let c := fresh "c" in let v := fresh "v" in
  destruct f as [p st m c v];
  let s := fresh "s" in let d := fresh "d" in let t := fresh "t" in let j := fresh "j" in
  let al := fresh "al" in let ro := fresh "ro" in let rd := fresh "rd" in
  destruct v as [s d t j al ro rd].

Section frames.
Context `{U : Uint256} {US : Uint256Spec U} `{C : Crypto}.
Context {S : Type} `{DB : !StateDB S} `{SP : !StateDBSpec S}.
Context (env : Env).

Abbreviation F := (ST (Frame S)).

(** Two codes with the same hash. *)
Definition collision : Prop := exists x y, x <> y /\ Keccak256 x = Keccak256 y.

(** The panics that are not excluded: [SubRefund] below zero, and an index out of range in the
    bitmap of another code with the same hash. *)
Definition tolerated (e : failure) : Prop :=
  e = PanicRefund \/ (e = PanicJumpdest /\ collision).

(** ** Invariants *)

(** Every bitmap of the cache is that of a code with the hash it is stored under. *)
Definition cache_ok (j : gmap Z bitvec) : Prop :=
  forall h a, j !! h = Some a -> exists code, Keccak256 code = h /\ codeBitmap code = Ret a.

(** The bitmap is that of the code, or of another code with the same hash. *)
Definition analysed (code : bytes) (a : bitvec) : Prop :=
  exists code', Keccak256 code' = Keccak256 code /\ codeBitmap code' = Ret a.

Record contract_ok (c : Contract) : Prop := {
  c_gas : is_u64 (Gas c);
  c_code : data_ok (Code c);
  c_input : data_ok (Input c);
  c_hash : CodeHash c = 0 \/ CodeHash c = Keccak256 (Code c);
  c_analysis : forall a, analysis c = Some a -> analysed (Code c) a;
}.

Record vm_ok (v : VM S) : Prop := {
  v_db : db_ok (statedb v);
  v_cache : cache_ok (jumpDests v);
  v_ret : data_ok (returnData v);
}.

(** What a frame, and everything it calls, leaves alone. *)
Record vm_rel (v v' : VM S) : Prop := {
  r_keeps : rel (readOnly v) (statedb v) (statedb v');
  r_depth : depth v' = depth v;
  r_ro : readOnly v' = readOnly v;
}.

Record frame_ok (f : Frame S) : Prop := {
  f_pc : 0 <= pc f;
  f_stack : len (stack f) <= StackLimit;
  f_mem : mem_ok (mem f);
  f_contract : contract_ok (contract f);
  f_vm : vm_ok (vm f);
}.

#[global] Instance vm_rel_preorder : PreOrder vm_rel.
Proof.
  split; [by intros v; split|].
  intros v1 v2 v3 [? ? E1] [H2 ? E2]. rewrite E1 in H2. split; [by etrans|congruence|congruence].
Qed.

Lemma set_Gas_id c : set_Gas (Gas c) c = c.
Proof. by destruct c. Qed.

Lemma contract_ok_gas c g : contract_ok c -> is_u64 g -> contract_ok (set_Gas g c).
Proof. intros [] ?. by split. Qed.

(** ** Symbolic execution of the primitives *)

Section rules.
Context (p : Z) (st : Stack) (m : Memory) (c : Contract).
Context (s : S) (d t : Z) (j : gmap Z bitvec) (al : list bool) (ro : bool) (rd : bytes).

Lemma wp_db {A} (r : sdbE A) (Q : A -> Frame S -> Prop) :
  db_ok s -> req_ok r -> (ro = true -> neutral r = true) ->
  (forall x s', sdb r s = Ret (x, s') -> db_ok s' -> rel ro s s' ->
     Q x (mkFrame p st m c (mkVM s' d t j al ro rd))) ->
  wp tolerated (db r) Q (mkFrame p st m c (mkVM s d t j al ro rd)).
Proof.
  intros Hs Hr Hro HQ. pose proof (sdb_step A r s Hs Hr) as H.
  unfold wp, db, on_vm, vm_db. cbn.
  destruct (sdb r s) as [[x s']|e] eqn:E; [|by left; destruct H].
  destruct H. apply HQ; [done|done|]. split; [done|].
  intros ?. eapply sdb_world; [done| |done]. by apply Hro.
Qed.

Lemma wp_back n (Q : word -> Frame S -> Prop) :
  0 <= n < len st ->
  (forall w, st !! Z.to_nat n = Some w -> Q w (mkFrame p st m c (mkVM s d t j al ro rd))) ->
  wp tolerated (back n) Q (mkFrame p st m c (mkVM s d t j al ro rd)).
Proof.
  intros Hn HQ. unfold wp, back, Back. cbn.
  destruct (index_ok st n Hn) as (w & Hw & ->). by apply HQ.
Qed.

Lemma wp_memGas n (Q : Z * option vmerror -> Frame S -> Prop) :
  mem_ok m -> 0 <= n -> n mod 32 = 0 ->
  (forall g m', mem_charged m n m' -> is_u64 g ->
     Q (g, None) (mkFrame p st m' c (mkVM s d t j al ro rd))) ->
  (forall g e, Q (g, Some e) (mkFrame p st m c (mkVM s d t j al ro rd))) ->
  wp tolerated (memGas n) Q (mkFrame p st m c (mkVM s d t j al ro rd)).
Proof.
  intros Hm Hn Hw HN HS. unfold wp, memGas. cbn.
  destruct (memoryGasCost m n) as [[g [e|]] m'] eqn:E.
  - enough (m' = m) as -> by apply HS.
    unfold memoryGasCost in E. repeat case_match; simplify_eq; done.
  - apply memoryGasCost_exact in E as (?&?&?); [|done..].
    apply HN; [done|]. unfold_u64. lia.
Qed.
End rules.

Lemma wp_ifErr r k (Q : Z * option vmerror -> Frame S -> Prop) f :
  match r.2 with Some e => Q (0, Some e) f | None => wp tolerated (k r.1) Q f end ->
  wp tolerated (ifErr r k) Q f.
Proof. unfold ifErr. by destruct (r.2). Qed.

Lemma wp_ifOverflow r k (Q : Z * option vmerror -> Frame S -> Prop) f :
  Q (0, Some ErrGasUintOverflow) f ->
  (forall z, r = (z, false) -> wp tolerated (k z) Q f) ->
  wp tolerated (ifOverflow r k) Q f.
Proof. unfold ifOverflow. destruct r as [z []]; cbn; [done|auto]. Qed.

(** ** Static description of the gas functions *)

(** The stack items a gas function reads. *)
Definition gas_depth (t : gasTag) : Z :=
  match t with
  | GasReturn | GasRevert | GasMLoad | GasMStore8 | GasMStore | GasCreate => 0
  | GasSelfdestruct | GasSLoadEIP2929 | GasEip2929AccountCheck
  | GasSelfdestructEIP2929 | GasSelfdestructEIP3529 | GasDelegateCall | GasStaticCall => 1
  | GasSStore | GasSStoreEIP2200 | GasSStoreEIP2929 | GasSStoreEIP3529
  | MakeGasLog _ | GasKeccak256 | GasExpFrontier | GasExpEIP158
  | GasDelegateCallEIP2929 | GasStaticCallEIP2929
  | GasDelegateCallEIP7702 | GasStaticCallEIP7702 => 2
  | GasExtCodeCopy | GasExtCodeCopyEIP2929 => 4
  | _ => 3
  end.

(** Does it charge for memory? *)
Definition gas_mem (t : gasTag) : bool :=
  match t with
  | GasSStore | GasSStoreEIP2200 | GasSStoreEIP2929 | GasSStoreEIP3529
  | GasExpFrontier | GasExpEIP158 | GasSelfdestruct | GasSLoadEIP2929
  | GasEip2929AccountCheck | GasSelfdestructEIP2929 | GasSelfdestructEIP3529 => false
  | _ => true
  end.

(** Is its result always positive? *)
Definition gas_pos (t : gasTag) : bool :=
  match t with
  | GasSStore | GasSStoreEIP2200 | GasSStoreEIP2929 | GasSStoreEIP3529
  | MakeGasLog _ | GasExpFrontier | GasExpEIP158 | GasSLoadEIP2929 => true
  | _ => false
  end.

(** Does it set [callGasTemp], and does it charge for a value transfer? *)
Definition gas_call (t : gasTag) : option bool :=
  match t with
  | GasCall | GasCallCode | GasCallEIP2929 | GasCallCodeEIP2929
  | GasCallEIP7702 | GasCallCodeEIP7702 => Some true
  | GasDelegateCall | GasStaticCall | GasDelegateCallEIP2929 | GasStaticCallEIP2929
  | GasDelegateCallEIP7702 | GasStaticCallEIP7702 => Some false
  | _ => None
  end.

(** The charge for the value that a call instruction transfers (stack item 2). *)
Definition valueCharge (valued : bool) (st : Stack) : Z :=
  if valued then
    match st !! 2%nat with
    | Some v => if IsZero v then 0 else CallValueTransferGas
    | None => 0
    end
  else 0.

(** What a gas function guarantees about a frame, whatever it returns ... *)
Record gas_frame (f f' : Frame S) : Prop := {
  g_pc : pc f' = pc f;
  g_stack : stack f' = stack f;
  g_vm : vm_ok (vm f');
  g_rel : vm_rel (vm f) (vm f');
  g_contract : exists g, contract f' = set_Gas g (contract f) /\ 0 <= g <= Gas (contract f);
}.

(** ... and when it returns a cost. *)
Record gas_ok (mem_ pos : bool) (call : option bool) (n cost : Z) (f f' : Frame S) : Prop := {
  g_cost : is_u64 cost;
  g_same : contract f' = contract f;
  g_mem : if mem_ then mem_charged (mem f) n (mem f') else mem f' = mem f;
  g_pos : pos = true -> 1 <= cost;
  g_call : forall valued, call = Some valued ->
    is_u64 (callGasTemp (vm f')) /\
    callGasTemp (vm f') + valueCharge valued (stack f) <= cost;
}.

Definition gas_post (mem_ pos : bool) (call : option bool) (n : Z) (f : Frame S)
    (r : Z * option vmerror) (f' : Frame S) : Prop :=
  gas_frame f f' /\
  match r.2 with None => gas_ok mem_ pos call n r.1 f f' | Some _ => True end.
End frames.

(** ** Automation for the gas functions *)

(** A chain of [rel] hypotheses. *)
Ltac solve_rel :=
  repeat (first [assumption | apply rel_refl | eapply rel_trans; [eassumption|]]).

(** A request that a read-only frame may make, or a path on which the frame may write. *)
Ltac neutral_req := intros ?; first [reflexivity | assumption | cbn [readOnly] in *; congruence].

Ltac wp_prim :=
  lazymatch goal with
  | |- wp _ (mbind _ _) _ _ => apply wp_bind
  | |- wp _ (mret _) _ _ => apply wp_ret
  | |- wp _ (db _) _ _ => apply wp_db; [assumption | exact I | neutral_req | intros ? ? _ ? ?]
  | |- wp _ (back _) _ _ => apply wp_back; [lia | intros ? ?]
  | |- wp _ (memGas _) _ _ => apply wp_memGas; [assumption.. | intros ? ? ? ? | intros ? ?]
  | |- wp _ (contractAddress) _ _ => apply wp_gets
  | |- wp _ (contractGas) _ _ => apply wp_gets
  | |- wp _ (st_gets _) _ _ => apply wp_gets
  | |- wp _ (st_modify _) _ _ => apply wp_modify
  | |- wp _ (ok _) _ _ => unfold ok
  | |- wp _ (ifErr _ _) _ _ => apply wp_ifErr
  | |- wp _ (ifOverflow _ _) _ _ => apply wp_ifOverflow; [|intros ? ?]
  | |- wp _ (if ?b then _ else _) _ _ => destruct b eqn:?
  | |- wp _ (let '(_, _) := ?x in _) _ _ => destruct x eqn:?
  | |- wp _ (match ?x with _ => _ end) _ _ => destruct x eqn:?
  end;
  cbv beta iota; cbn [fst snd pc stack mem contract vm].

Ltac wp_run := repeat wp_prim.

Ltac nonneg := first [lia | apply Z.mod_pos_bound; lia].

(** Turns the checked additions and multiplications of a path into equations. *)
Ltac safe_arith :=
  repeat match goal with
  | H : SafeAdd ?x ?y = (?z, false) |- _ =>
      pose proof (SafeAdd_u64 _ _ _ _ H); pose proof (SafeAdd_ok' _ _ _ H); clear H
  | H : SafeMul ?x ?y = (?z, false) |- _ =>
      pose proof (SafeMul_u64 _ _ _ _ H); clear H
  | H : Uint64WithOverflow ?w = (?z, _) |- _ =>
      let H1 := fresh in
      assert (is_u64 z) as H1 by
        (rewrite Uint64WithOverflow_spec in H; injection H as <- _; apply Z.mod_pos_bound; done);
      clear H
  end;
  autounfold with params in *; unfold_u64;
  repeat match goal with
  | H : 0 <= ?x -> 0 <= ?y -> _ = _ |- _ => 
      assert (0 <= x) by nonneg; assert (0 <= y) by nonneg; specialize (H ltac:(lia) ltac:(lia))
  end.

(** Closes the final states of a symbolic execution of a gas function. *)
Ltac gas_leaf :=
  split;
  [ split; cbn [pc stack mem contract vm];
    [ reflexivity | reflexivity
    | split; cbn; assumption
    | split; cbn; [solve_rel | reflexivity | reflexivity]
    | first [ eexists; split; [symmetry; apply set_Gas_id | unfold_u64; lia ] | idtac ] ]
  | cbn [fst snd];
    first
    [ exact I
    | split; cbn [pc stack mem contract vm];
      [ solve [auto with geth | safe_arith; lia] | reflexivity
      | solve [assumption | reflexivity]
      | intros ?; solve [discriminate | safe_arith; lia]
      | intros ? ?; try discriminate ] ] ].
Ltac gas_done := repeat case_if; gas_leaf.

Section gas_functions.
Context `{U : Uint256} {US : Uint256Spec U} `{C : Crypto}.
Context {S : Type} `{DB : !StateDB S} `{SP : !StateDBSpec S}.
Context (env : Env).

Definition gas_spec (depth : Z) (mem_ pos : bool) (call : option bool)
    (g : Z -> ST (Frame S) (Z * option vmerror)) : Prop :=
  forall n (f : Frame S),
    mem_ok (mem f) -> contract_ok (contract f) -> vm_ok (vm f) ->
    0 <= n -> n mod 32 = 0 -> depth <= len (stack f) ->
    wp tolerated (g n) (gas_post mem_ pos call n f) f.

Ltac gas_start :=
  intros n f Hm Hc [Hd Hj Hr] Hn H32 Hl; open_frame f; cbn in *;
  pose proof (c_gas _ Hc).

Lemma memoryCopierGas_ok i : 0 <= i ->
  gas_spec (i + 1) true false None (memoryCopierGas i).
Proof. intros Hi. gas_start. unfold memoryCopierGas. wp_run; gas_done. Qed.

Lemma gasKeccak256_ok : gas_spec 2 true false None gasKeccak256.
Proof. gas_start. unfold gasKeccak256. wp_run; gas_done. Qed.

Lemma pureMemoryGascost_ok : gas_spec 0 true false None pureMemoryGascost.
Proof. gas_start. unfold pureMemoryGascost. wp_run; gas_done. Qed.

Lemma gasSStore_ok : gas_spec 2 false true None (gasSStore env).
Proof. gas_start. unfold gasSStore. wp_run; gas_done. Qed.

Lemma gasSStoreEIP2200_ok : gas_spec 2 false true None gasSStoreEIP2200.
Proof. gas_start. unfold gasSStoreEIP2200. wp_run; gas_done. Qed.

Lemma makeGasSStoreFunc_ok r : gas_spec 2 false true None (makeGasSStoreFunc r).
Proof. gas_start. unfold makeGasSStoreFunc. wp_run; gas_done. Qed.

Lemma makeGasLog_ok k : gas_spec 2 true true None (makeGasLog k).
Proof. gas_start. unfold makeGasLog. wp_run; gas_done. Qed.

Lemma gasCreate2_ok : gas_spec 3 true false None gasCreate2.
Proof. gas_start. unfold gasCreate2. wp_run; gas_done. Qed.

Lemma gasCreateEip3860_ok : gas_spec 3 true false None gasCreateEip3860.
Proof. gas_start. unfold gasCreateEip3860. wp_run; gas_done. Qed.

Lemma gasCreate2Eip3860_ok : gas_spec 3 true false None gasCreate2Eip3860.
Proof. gas_start. unfold gasCreate2Eip3860. wp_run; gas_done. Qed.

Lemma gasExpFrontier_ok : gas_spec 2 false true None gasExpFrontier.
Proof. gas_start. unfold gasExpFrontier. wp_run; gas_done. Qed.

Lemma gasExpEIP158_ok : gas_spec 2 false true None gasExpEIP158.
Proof. gas_start. unfold gasExpEIP158. wp_run; gas_done. Qed.

Lemma gasSelfdestruct_ok : gas_spec 1 false false None (gasSelfdestruct env).
Proof. gas_start. unfold gasSelfdestruct. wp_run; gas_done. Qed.

Lemma gasSLoadEIP2929_ok : gas_spec 1 false true None gasSLoadEIP2929.
Proof. gas_start. unfold gasSLoadEIP2929. wp_run; gas_done. Qed.

Lemma gasEip2929AccountCheck_ok : gas_spec 1 false false None gasEip2929AccountCheck.
Proof. gas_start. unfold gasEip2929AccountCheck. wp_run; gas_done. Qed.

Lemma makeSelfdestructGasFn_ok b : gas_spec 1 false false None (makeSelfdestructGasFn b).
Proof. gas_start. unfold makeSelfdestructGasFn. wp_run; gas_done. Qed.

Lemma gasExtCodeCopyEIP2929_ok : gas_spec 4 true false None gasExtCodeCopyEIP2929.
Proof.
  gas_start. unfold gasExtCodeCopyEIP2929, gasExtCodeCopy, memoryCopierGas. wp_run; gas_done.
Qed.

(** *** The call instructions *)

Lemma callGas_u64 b av base w g e : callGas b av base w = (g, e) -> is_u64 g.
Proof.
  unfold callGas. intros H. repeat case_match; simplify_eq; auto using Uint64_u64 with geth.
  done.
Qed.

Lemma wp_setCallGasTemp gas p st m c s d t j al ro rd
    (Q : Z * option vmerror -> Frame S -> Prop) :
  0 < len st ->
  (forall g e, is_u64 g -> Q (g, e) (mkFrame p st m c (mkVM s d g j al ro rd))) ->
  wp tolerated (setCallGasTemp env gas) Q (mkFrame p st m c (mkVM s d t j al ro rd)).
Proof.
  intros Hl HQ. unfold setCallGasTemp. wp_run. apply HQ. by eapply callGas_u64.
Qed.

Hypothesis no4762 : IsEIP4762 (chainRules env) = false.

Lemma Sign_IsZero w : (Sign w =? 0) = IsZero w.
Proof.
  rewrite Sign_spec, IsZero_spec. unfold signed256. pose proof (uval_range w).
  unfold two256 in *. case_if; bool_to_Z; lia.
Qed.

(** [callGasTemp] plus the value charge is covered by the cost. *)
Ltac call_leaf :=
  repeat match goal with |- context [match ?e with None => _ | Some _ => _ end] =>
    is_var e; destruct e end;
  repeat case_if; gas_leaf;
  split; cbn [callGasTemp vm]; [assumption|];
  unfold valueCharge;
  repeat match goal with H : _ !! Z.to_nat 2 = Some _ |- _ =>
    change (Z.to_nat 2) with 2%nat in H; rewrite H end;
  repeat case_if; simplify_eq/=.

Lemma gasDelegateCall_ok : gas_spec 1 true false (Some false) (gasDelegateCall env).
Proof.
  gas_start. unfold gasDelegateCall. wp_run; try gas_done.
  apply wp_setCallGasTemp; [lia|]. intros g' [e|] Hg; wp_run; gas_leaf.
  simplify_eq/=. safe_arith. lia.
Qed.

Lemma gasCallCode_ok : gas_spec 3 true false (Some true) (gasCallCode env).
Proof.
  gas_start. unfold gasCallCode, rules. rewrite no4762. wp_run; try gas_done.
  apply wp_setCallGasTemp; [lia|]. intros g' [e|] Hg; wp_run; gas_leaf.
  simplify_eq/=. change (Z.to_nat 2) with 2%nat in *.
  match goal with H : _ !! 2%nat = Some _ |- _ => rewrite H end.
  rewrite Sign_IsZero, andb_true_r in *. change (0 +! CallValueTransferGas) with 9000 in *.
  case_if; cbn in *; safe_arith; lia.
Qed.

Lemma gasCall_ok : gas_spec 3 true false (Some true) (gasCall env).
Proof.
  gas_start. unfold gasCall, rules. rewrite no4762. wp_run; try gas_done.
  all: apply wp_setCallGasTemp; [lia|]; intros g' [e|] Hg; wp_run; gas_leaf.
  all: simplify_eq/=; change (Z.to_nat 2) with 2%nat in *.
  all: match goal with H : _ !! 2%nat = Some _ |- _ => rewrite H end.
  all: rewrite ?andb_true_r in *; change (0 +! CallNewAccountGas) with 25000 in *.
  all: repeat case_if; repeat match goal with x : bool |- _ => destruct x end; cbn in *.
  all: change (0 +! CallValueTransferGas) with 9000 in *;
       change (25000 +! CallValueTransferGas) with 34000 in *.
  all: try discriminate; safe_arith; lia.
Qed.

Lemma gasStaticCall_ok : gas_spec 1 true false (Some false) (gasStaticCall env).
Proof. exact gasDelegateCall_ok. Qed.

Lemma wp_useGas g p st m c (v : VM S) (Q : bool -> Frame S -> Prop) :
  is_u64 (Gas c) -> 0 <= g ->
  (g <= Gas c -> Q true (mkFrame p st m (set_Gas (Gas c - g) c) v)) ->
  (Gas c < g -> Q false (mkFrame p st m c v)) ->
  wp tolerated (useGas g) Q (mkFrame p st m c v).
Proof.
  intros Hc Hg HT HF. unfold wp, useGas, UseGas. cbn. case_if; bool_to_Z; [by apply HF|].
  rewrite wrap64_small by (unfold_u64; lia). by apply HT.
Qed.

(** A wrapper that charges [extra] before an old calculator and adds it to its result: the
    charge is given back, so that the contract's gas is untouched on success. *)
Definition giveBack (extra : Z) (f : Frame S) : Frame S :=
  set_contract (set_Gas (Gas (contract f) +! extra) (contract f)) f.

Lemma gas_ok_extra extra valued n f f1 f2 (r : Z * option vmerror) :
  0 <= extra <= Gas (contract f) -> is_u64 (Gas (contract f)) ->
  stack f1 = stack f -> mem f1 = mem f -> pc f1 = pc f -> vm_rel (vm f) (vm f1) ->
  contract f1 = set_Gas (Gas (contract f) - extra) (contract f) ->
  gas_post true false (Some valued) n f1 r f2 ->
  gas_frame f f2 /\
  (r.2 = None -> gas_frame f (giveBack extra f2) /\
     forall cost, SafeAdd r.1 extra = (cost, false) ->
       gas_ok true false (Some valued) n cost f (giveBack extra f2)).
Proof.
  intros Hx Hu Hst Hm Hp Hv Hc [[Gp Gs Gv Gr (g & Gc & Gg)] Ho].
  rewrite Hc in Gc, Gg. cbn in Gc, Gg.
  assert (Hfr : forall f', pc f' = pc f2 -> stack f' = stack f2 -> vm f' = vm f2 ->
    (exists g, contract f' = set_Gas g (contract f) /\ 0 <= g <= Gas (contract f)) ->
    gas_frame f f').
  { intros f' E1 E2 E3 E4. split; [congruence|congruence|by rewrite E3| |done].
    rewrite E3. by etrans. }
  split; [apply Hfr; [done..|]; exists g; split; [done|lia]|].
  intros Hn. rewrite Hn in Ho. destruct Ho as [O1 O2 O3 _ O5].
  assert (Hback : contract (giveBack extra f2) = contract f).
  { unfold giveBack. cbn. rewrite O2, Hc. cbn. rewrite wrap64_small by (unfold_u64; lia).
    destruct (contract f); cbn. unfold set_Gas; cbn. f_equal. lia. }
  split.
  - apply Hfr; [done..|]. exists (Gas (contract f)). rewrite Hback, set_Gas_id.
    unfold_u64. split; [done|lia].
  - intros cost Hcost. pose proof (SafeAdd_u64 _ _ _ _ Hcost).
    apply SafeAdd_ok in Hcost as [Hcost _]; [|unfold_u64; lia..].
    split; [done|done| |done|].
    { cbn. by rewrite <- Hm. }
    intros v' Hv'. destruct (O5 v' Hv') as [? ?]. rewrite <- Hst. split; [done|cbn; lia].
Qed.

Lemma makeCallVariantGasCallEIP2929_ok old pos dep valued :
  gas_spec dep true false (Some valued) old -> 0 <= pos < dep ->
  gas_spec dep true false (Some valued) (makeCallVariantGasCallEIP2929 old pos).
Proof.
  intros Hold Hpos n f Hm Hc Hv Hn H32 Hl. open_frame f. destruct Hv as [Hd Hj Hr]. cbn in *.
  pose proof (c_gas _ Hc) as Hg.
  unfold makeCallVariantGasCallEIP2929.
  change (ColdAccountAccessCostEIP2929 - WarmStorageReadCostEIP2929) with 2500. wp_run.
  - (* cold *)
    apply wp_useGas; [done|lia| |]; intros Hpay; cbn.
    2: { wp_run. gas_leaf. }
    apply wp_bind. eapply wp_mono; [apply Hold; cbn; try done|].
    { apply contract_ok_gas; [done|]. unfold_u64; lia. }
    intros [cost err] f2 Hpost.
    eapply (gas_ok_extra 2500 valued n (mkFrame p st m c (mkVM s d t j al ro rd)))
      in Hpost as [H1' H2']; cbn; try done; try lia;
      try (split; cbn; [solve_rel|done..]).
    bool_to_Z. simplify_eq/=. destruct err as [e|]; cbn [fst snd].
    + rewrite bool_decide_eq_true_2 by eauto. by split.
    + rewrite bool_decide_eq_false_2 by (intros [? ?]; done). cbn.
      destruct (H2' eq_refl) as [H3' H4'].
      unfold addGas. wp_run; [by split|]. split; [done|by apply H4'].
  - done.
  - (* warm *)
    eapply wp_mono; [by apply Hold|].
    intros r f2 [Hf Ho]. bool_to_Z. simplify_eq/=.
    split; [|by destruct (r.2); [|destruct Ho; split]].
    destruct Hf as [? ? ? Hrel ?]. split; try done. etrans; [|exact Hrel].
    split; cbn; [solve_rel|done..].
Qed.

Lemma makeCallVariantGasCallEIP7702_ok old dep valued :
  gas_spec dep true false (Some valued) old -> 2 <= dep ->
  gas_spec dep true false (Some valued) (makeCallVariantGasCallEIP7702 old).
Proof.
  intros Hold Hpos n f Hm Hc Hv Hn H32 Hl. open_frame f. destruct Hv as [Hd Hj Hr]. cbn in *.
  pose proof (c_gas _ Hc) as Hg.
  (* the tail, once [extra] has been charged *)
  assert (Htail : forall extra extra' c' s1,
    extra' = extra -> c' = set_Gas (Gas c - extra) c ->
    0 <= extra <= Gas c -> db_ok s1 -> rel ro s s1 ->
    wp tolerated (old n)
      (fun r f' => wp tolerated
        (match r.2 with
         | Some e => mret r
         | None => addGas extra';; ifOverflow (SafeAdd r.1 extra') ok
         end)
        (gas_post true false (Some valued) n (mkFrame p st m c (mkVM s d t j al ro rd))) f')
      (mkFrame p st m c' (mkVM s1 d t j al ro rd))).
  { intros extra ? ? s1 -> -> Hx Hd1 Hk.
    eapply wp_mono; [apply Hold; cbn; try done|].
    { apply contract_ok_gas; [done|]. unfold_u64; lia. }
    intros [cost err] f2 Hpost.
    eapply (gas_ok_extra extra valued n (mkFrame p st m c (mkVM s d t j al ro rd)))
      in Hpost as [H1' H2']; cbn; try done.
    simplify_eq/=. destruct err as [e|]; cbn [fst snd]; [by split|].
    destruct (H2' eq_refl) as [H3' H4'].
    unfold addGas. wp_run; [by split|]. split; [done|by apply H4']. }
  unfold makeCallVariantGasCallEIP7702.
  change (ColdAccountAccessCostEIP2929 - WarmStorageReadCostEIP2929) with 2500.
  repeat first
    [ wp_prim
    | apply wp_useGas; [cbn; unfold_u64; lia|vm_compute; discriminate| |]; intros ?; cbn ].
  all: try gas_leaf; try (eexists; split; [reflexivity|unfold_u64; lia]).
  all: first [ apply (Htail 2600); [reflexivity|..] | apply (Htail 5100); [reflexivity|..]
             | apply (Htail 2500); [reflexivity|..] | apply (Htail 100); [reflexivity|..]
             | apply (Htail 0); [reflexivity|..] ].
  all: try assumption; try solve_rel.
  all: autounfold with params in *; cbn in *; unfold_u64; try lia.
  all: destruct c; unfold set_Gas; cbn; f_equal; lia.
Qed.

Lemma gas_spec_depth d d' mem_ pos call g :
  gas_spec d mem_ pos call g -> d <= d' -> gas_spec d' mem_ pos call g.
Proof. intros H Hd n f ??????. apply H; [done..|lia]. Qed.

(** Every dynamic gas function meets its specification. *)
Lemma gas_fn_ok t :
  gas_spec (gas_depth t) (gas_mem t) (gas_pos t) (gas_call t) (gas_fn env t).
Proof.
  pose proof (gas_spec_depth _ 2 _ _ _ _ gasDelegateCall_ok ltac:(lia)) as HD.
  destruct t; cbn [gas_depth gas_mem gas_pos gas_call gas_fn].
  all: first
    [ apply (memoryCopierGas_ok 2); lia | apply (memoryCopierGas_ok 3); lia
    | apply gasSStore_ok | apply gasSStoreEIP2200_ok | apply makeGasSStoreFunc_ok
    | apply makeGasLog_ok | apply gasKeccak256_ok | apply pureMemoryGascost_ok
    | apply gasCreate2_ok | apply gasCreateEip3860_ok | apply gasCreate2Eip3860_ok
    | apply gasExpFrontier_ok | apply gasExpEIP158_ok
    | apply gasCall_ok | apply gasCallCode_ok | apply gasDelegateCall_ok
    | apply gasStaticCall_ok | apply gasSelfdestruct_ok | apply gasSLoadEIP2929_ok
    | apply gasExtCodeCopyEIP2929_ok | apply gasEip2929AccountCheck_ok
    | apply makeSelfdestructGasFn_ok
    | apply makeCallVariantGasCallEIP2929_ok;
      [first [apply gasCall_ok | apply gasCallCode_ok | exact HD]|lia]
    | apply makeCallVariantGasCallEIP7702_ok;
      [first [apply gasCall_ok | apply gasCallCode_ok | exact HD]|lia] ].
Qed.
End gas_functions.
