(* ===== verification/InstrSpec.v ===== *)
(** * What the instructions guarantee

    [exec_fn_ok]: an instruction executed on a deep enough stack, with its memory region paid
    for, does not panic; it keeps the frame invariant, leaves [depth] and [readOnly] alone,
    keeps every live snapshot, and a call gives back at most the gas it was handed. *)

From S2P Require Import Prelude Bytes Uint256 Params Machine Opcodes Analysis JumpTable VM GasTable Instructions Evm StateSpec Frames.

#[local] Arguments wp : simpl never.

(** ** Static description of the instructions *)

(** The stack items an instruction needs. *)
Definition exec_depth (t : execTag) : Z :=
  match t with
  | OpAdd | OpSub | OpMul | OpDiv | OpSdiv | OpMod | OpSmod | OpExp | OpSignExtend
  | OpLt | OpGt | OpSlt | OpSgt | OpEq | OpAnd | OpOr | OpXor | OpByte
  | OpSHL | OpSHR | OpSAR | OpKeccak256 | OpMstore | OpMstore8 | OpSstore | OpTstore
  | OpJumpi | OpReturn | OpRevert => 2
  | OpNot | OpIszero | OpBalance | OpCallDataLoad | OpExtCodeSize | OpExtCodeHash
  | OpBlockhash | OpPop | OpMload | OpSload | OpTload | OpJump | OpBlobHash
  | OpSelfdestruct | OpSelfdestruct6780 => 1
  | OpAddmod | OpMulmod | OpCallDataCopy | OpReturnDataCopy | OpCodeCopy | OpMcopy
  | OpCreate => 3
  | OpExtCodeCopy | OpCreate2 => 4
  | OpCall | OpCallCode => 7
  | OpDelegateCall | OpStaticCall => 6
  | OpSwap n => n + 1
  | MakeDup n => n
  | MakeLog n => n + 2
  | _ => 0
  end.

(** How much the stack can grow: items pushed minus items popped, [0] when it shrinks. *)
Definition exec_net (t : execTag) : Z :=
  match t with
  | OpAddress | OpOrigin | OpCaller | OpCallValue | OpCallDataSize | OpReturnDataSize
  | OpCodeSize | OpGasprice | OpCoinbase | OpTimestamp | OpNumber | OpDifficulty | OpRandom
  | OpGasLimit | OpPc | OpMsize | OpGas | MakeDup _ | OpPush0 | OpPush1 | OpPush2
  | MakePush _ _ | OpSelfBalance | OpChainID | OpBaseFee | OpBlobBaseFee => 1
  | _ => 0
  end.

(** The memory region an instruction touches. *)
Definition exec_mem (t : execTag) : option memTag :=
  match t with
  | OpKeccak256 => Some MemoryKeccak256
  | OpCallDataCopy => Some MemoryCallDataCopy
  | OpReturnDataCopy => Some MemoryReturnDataCopy
  | OpCodeCopy => Some MemoryCodeCopy
  | OpExtCodeCopy => Some MemoryExtCodeCopy
  | OpMload => Some MemoryMLoad
  | OpMstore => Some MemoryMStore
  | OpMstore8 => Some MemoryMStore8
  | OpMcopy => Some MemoryMcopy
  | OpCreate => Some MemoryCreate
  | OpCreate2 => Some MemoryCreate2
  | OpCall | OpCallCode => Some MemoryCall
  | OpDelegateCall => Some MemoryDelegateCall
  | OpStaticCall => Some MemoryStaticCall
  | OpReturn => Some MemoryReturn
  | OpRevert => Some MemoryRevert
  | MakeLog _ => Some MemoryLog
  | _ => None
  end.

(** Instructions that always end the frame. *)
Definition exec_halts (t : execTag) : bool :=
  match t with
  | OpStop | OpReturn | OpRevert | OpUndefined | OpSelfdestruct | OpSelfdestruct6780 => true
  | _ => false
  end.

(** Instructions that read the code at the program counter. *)
Definition exec_code (t : execTag) : bool :=
  match t with OpUndefined | MakePush _ _ | OpPush1 | OpPush2 => true | _ => false end.

(** Well-formed parameters of the instruction families. *)
Definition exec_wf (t : execTag) : bool :=
  match t with
  | OpSwap n | MakeDup n => (1 <=? n) && (n <=? 16)
  | MakeLog n => (0 <=? n) && (n <=? 4)
  | MakePush size n => (size =? n) && (1 <=? n) && (n <=? 32)
  | _ => true
  end.

(** Does the instruction start a call, and may it transfer value? *)
Definition exec_call (t : execTag) : option bool :=
  match t with
  | OpCall | OpCallCode => Some true
  | OpDelegateCall | OpStaticCall => Some false
  | _ => None
  end.

(** Instructions that create a contract. *)
Definition exec_creates (t : execTag) : bool :=
  match t with OpCreate | OpCreate2 => true | _ => false end.

Section instr.
Context `{U : Uint256} {US : Uint256Spec U} `{C : Crypto}.
Context {S : Type} `{DB : !StateDB S} `{SP : !StateDBSpec S}.
Context (env : Env).

(** The stipend that a call with value adds to the gas it forwards. *)
Definition stipend (valued : bool) (st : Stack) : Z :=
  if valued then
    match st !! 2%nat with
    | Some v => if IsZero v then 0 else CallStipend
    | None => 0
    end
  else 0.

(** The gas a call instruction hands to the callee, on top of the frame's own. *)
Definition handed (t : execTag) (f : Frame S) : Z :=
  match exec_call t with
  | Some valued => callGasTemp (vm f) + stipend valued (stack f)
  | None => 0
  end.

(** The pointers of the context that an instruction follows are set, and the chain answers the queries of
    [BLOCKHASH] for the blocks it may ask for. *)
Definition ctx_has (t : execTag) : Prop :=
  match t with
  | OpRandom => is_Some (Random env)
  | OpBaseFee => is_Some (BaseFee env)
  | OpBlobBaseFee => is_Some (BlobBaseFee env)
  | OpChainID => is_Some (config_ChainID env)
  | OpBlockhash => forall n, is_u64 n -> wrap64 (BlockNumber env) - 257 <= n < wrap64 (BlockNumber env) -> exists h, GetHash env n = Ret h
  | _ => True
  end.

(** ** What the entry points of the EVM guarantee to an instruction *)

Definition call_post (gas : Z) (v : VM S) (r : bytes * Z * option vmerror) (v' : VM S) : Prop :=
  vm_ok v' /\ vm_rel v v' /\ 0 <= r.1.2 <= gas /\ data_ok r.1.1.
Definition create_post (gas : Z) (v : VM S) (r : bytes * Address * Z * option vmerror)
    (v' : VM S) : Prop :=
  vm_ok v' /\ vm_rel v v' /\ 0 <= r.1.2 <= gas /\ data_ok r.1.1.1.

(** The calls are safe for gas up to [G]. *)
Record calls_ok (G : Z) (calls : Calls (S := S)) : Prop := {
  Call_ok caller addr input gas value v :
    is_u64 gas -> gas <= G -> data_ok input -> vm_ok v ->
    (readOnly v = true -> IsZero value = true) ->
    wp tolerated (do_Call calls caller addr input gas value) (call_post gas v) v;
  CallCode_ok caller addr input gas value v :
    is_u64 gas -> gas <= G -> data_ok input -> vm_ok v ->
    wp tolerated (do_CallCode calls caller addr input gas value) (call_post gas v) v;
  DelegateCall_ok origin caller addr input gas value v :
    is_u64 gas -> gas <= G -> data_ok input -> vm_ok v ->
    wp tolerated (do_DelegateCall calls origin caller addr input gas value) (call_post gas v) v;
  StaticCall_ok caller addr input gas v :
    is_u64 gas -> gas <= G -> data_ok input -> vm_ok v ->
    wp tolerated (do_StaticCall calls caller addr input gas) (call_post gas v) v;
  Create_ok caller code gas value v :
    is_u64 gas -> gas <= G -> data_ok code -> vm_ok v -> readOnly v = false ->
    wp tolerated (do_Create calls caller code gas value) (create_post gas v) v;
  Create2_ok caller code gas value salt v :
    is_u64 gas -> gas <= G -> data_ok code -> vm_ok v -> readOnly v = false ->
    wp tolerated (do_Create2 calls caller code gas value salt) (create_post gas v) v;
}.

(** ** The specification of an instruction *)

Record exec_pre (t : execTag) (G : Z) (f : Frame S) : Prop := {
  p_frame : frame_ok f;
  p_wf : exec_wf t = true;
  p_depth : exec_depth t <= len (stack f);
  p_room : len (stack f) + exec_net t <= StackLimit;
  p_mem : forall mt, exec_mem t = Some mt ->
    exists sz, mem_fn mt (stack f) = Ret (sz, false) /\ sz <= len (store (mem f));
  p_code : exec_code t = true -> pc f < len (Code (contract f));
  p_ctx : ctx_has t;
  p_handed : exec_call t <> None ->
    is_u64 (callGasTemp (vm f)) /\ Gas (contract f) + handed t f < two64 /\ handed t f <= G;
  p_gas : exec_creates t = true -> Gas (contract f) <= G;
}.

Record exec_post (t : execTag) (f : Frame S) (r : bytes * option vmerror) (f' : Frame S) : Prop := {
  q_frame : frame_ok f';
  q_rel : vm_rel (vm f) (vm f');
  q_data : data_ok r.1;
  q_gas : Gas (contract f') <= Gas (contract f) + handed t f;
  q_halts : exec_halts t = true -> r.2 <> None;
}.

Definition exec_spec (t : execTag) (m : Calls (S := S) -> ST (Frame S) (bytes * option vmerror)) :=
  forall G calls f, calls_ok G calls -> exec_pre t G f ->
  wp tolerated (m calls) (exec_post t f) f.

(** ** Symbolic execution of the primitives *)

Section rules.
Context (p : Z) (st : Stack) (m : Memory) (c : Contract) (v : VM S).
Context (s : S) (d t : Z) (j : gmap Z bitvec) (al : list bool) (ro : bool) (rd : bytes).

Lemma wp_popF w (Q : word -> Frame S -> Prop) :
  Q w (mkFrame p st m c v) -> wp tolerated popF Q (mkFrame p (w :: st) m c v).
Proof. done. Qed.
Lemma wp_peekF w (Q : word -> Frame S -> Prop) :
  Q w (mkFrame p (w :: st) m c v) -> wp tolerated peekF Q (mkFrame p (w :: st) m c v).
Proof. done. Qed.
Lemma wp_setTop w w' (Q : unit -> Frame S -> Prop) :
  Q tt (mkFrame p (w' :: st) m c v) -> wp tolerated (setTop w') Q (mkFrame p (w :: st) m c v).
Proof. done. Qed.
Lemma wp_pushF w (Q : unit -> Frame S -> Prop) :
  Q tt (mkFrame p (w :: st) m c v) -> wp tolerated (pushF w) Q (mkFrame p st m c v).
Proof. done. Qed.

Lemma wp_readMemory (k : Memory -> Outcome bytes) (Q : bytes -> Frame S -> Prop) :
  (exists r, k m = Ret r /\ data_ok r) ->
  (forall r, data_ok r -> Q r (mkFrame p st m c v)) ->
  wp tolerated (readMemory k) Q (mkFrame p st m c v).
Proof. intros (r & Hr & Hd) HQ. unfold wp, readMemory. cbn. rewrite Hr. by apply HQ. Qed.

Lemma wp_onMemory (k : Memory -> Outcome Memory) (Q : unit -> Frame S -> Prop) :
  (exists m', k m = Ret m' /\ mem_ok m' /\ len (store m') = len (store m)) ->
  (forall m', mem_ok m' -> len (store m') = len (store m) -> Q tt (mkFrame p st m' c v)) ->
  wp tolerated (onMemory k) Q (mkFrame p st m c v).
Proof. intros (m' & Hm & ? & ?) HQ. unfold wp, onMemory. cbn. rewrite Hm. by apply HQ. Qed.

Lemma wp_lift {A} (o : Outcome A) (P : A -> Prop) (Q : A -> Frame S -> Prop) f :
  (exists a, o = Ret a /\ P a) -> (forall a, P a -> Q a f) -> wp tolerated (st_lift o) Q f.
Proof. intros (a & -> & Ha) HQ. by apply HQ. Qed.

Lemma wp_abortLoad (Q : bool -> Frame S -> Prop) :
  (forall b al', Q b (mkFrame p st m c (mkVM s d t j al' ro rd))) ->
  wp tolerated abortLoad Q (mkFrame p st m c (mkVM s d t j al ro rd)).
Proof. intros HQ. unfold wp, abortLoad. cbn. destruct al; apply HQ. Qed.
End rules.
End instr.

(** ** Automation *)

(** Exposes as many stack items as the instruction needs. *)
Ltac expose_stack Hl :=
  repeat match type of Hl with
  | _ <= len ?l =>
      let rec tail l := lazymatch l with _ :: ?r => tail r | ?st => st end in
      let st := tail l in
      let w := fresh "w" in
      destruct st as [|w st]; [exfalso; revert Hl; clear; rewrite ?len_cons, len_nil; lia|]
  end.

Ltac instr_prim :=
  lazymatch goal with
  | |- wp _ popF _ _ => apply wp_popF
  | |- wp _ peekF _ _ => apply wp_peekF
  | |- wp _ (setTop _) _ _ => apply wp_setTop
  | |- wp _ (pushF _) _ _ => apply wp_pushF
  | |- wp _ (pushop _) _ _ => unfold pushop
  | |- wp _ done_ _ _ => apply wp_ret
  | |- wp _ (raise _) _ _ => apply wp_ret
  | |- wp _ abortLoad _ _ => apply wp_abortLoad; intros ? ?
  | |- wp _ codeF _ _ => apply wp_gets
  | |- wp _ readOnlyF _ _ => apply wp_gets
  | |- wp _ returnDataF _ _ => apply wp_gets
  | |- wp _ callGasTempF _ _ => apply wp_gets
  | |- wp _ (st_fail _) _ _ => fail
  | |- wp _ (setReturnData _) _ _ => apply wp_modify
  | _ => wp_prim
  end;
  cbv beta iota;
  cbn [fst snd pc stack mem contract vm set_pc set_stack set_mem set_contract set_vm].
Ltac instr_run := repeat instr_prim.

(** Closes the final states of the symbolic execution of an instruction. *)
Ltac instr_leaf :=
  split;
  [ split; cbn [pc stack mem contract vm set_pc set_stack set_mem set_contract set_vm];
    [ first [assumption | lia | exact (proj1 (wrap64_range _))]
    | autorewrite with zlen in *; cbn [exec_net] in *; lia
    | assumption | assumption
    | split; cbn; assumption ]
  | split; cbn; [solve_rel | reflexivity | reflexivity]
  | cbn; auto with geth
  | unfold handed; cbn; lia
  | cbn; intros ?; discriminate ].

Section instr_specs.
Context `{U : Uint256} {US : Uint256Spec U} `{C : Crypto}.
Context {S : Type} `{DB : !StateDB S} `{SP : !StateDBSpec S}.
Context (env : Env).

Ltac head_of m := lazymatch m with ?h _ => head_of h | _ => m end.
Ltac unfold_instr :=
  match goal with |- wp _ ?m _ _ => let h := head_of m in unfold h end.

Ltac instr_start :=
  intros G calls f HC [[Hpc Hst Hm Hc [Hd Hj Hr]] Hwf Hl Hroom Hmem Hcode Hrand Hhand Hgas];
  pose proof (c_gas _ Hc);
  open_frame f; cbn in *; expose_stack Hl; unfold_instr.
Ltac simple_instr := instr_start; unfold binop, cmpop; instr_run; instr_leaf.

(** The instructions that only compute on the stack or call the state database. *)
Definition simple (t : execTag) : bool :=
  match t with
  | OpKeccak256 | OpCallDataLoad | OpCallDataCopy | OpReturnDataCopy | OpCodeCopy
  | OpExtCodeCopy | OpRandom | OpBaseFee | OpBlobBaseFee | OpChainID | OpBlockhash | OpBlobHash | OpMload | OpMstore | OpMstore8 | OpMcopy
  | OpJump | OpJumpi | OpSwap _ | MakeDup _ | OpPush1 | OpPush2 | MakePush _ _ | MakeLog _
  | OpCreate | OpCreate2 | OpCall | OpCallCode | OpDelegateCall | OpStaticCall
  | OpReturn | OpRevert | OpUndefined => false
  | _ => true
  end.

Lemma simple_ok t : simple t = true -> exec_spec env t (fun calls => exec_fn env calls t).
Proof. destruct t; try discriminate; intros _; simple_instr. Qed.

(** *** Memory instructions *)

#[local] Arguments calcMemSize64 : simpl never.
#[local] Arguments calcMemSize64WithUint : simpl never.
#[local] Arguments memoryMax : simpl never.

Lemma calcMemSize64_region' o l sz m :
  Ret (calcMemSize64 o l) = Ret (sz, false) -> sz <= len (store m) ->
  region_ok m (Uint64 o) (Uint64 l) /\ 0 <= Uint64 l <= len (store m) /\ uval l < two64.
Proof.
  intros [= H] Hle. pose proof (Uint64_u64 l) as Hu.
  assert (uval l < two64).
  { unfold calcMemSize64 in H. rewrite IsUint64_spec in H. destruct (Z.ltb_spec (uval l) two64); done. }
  eapply calcMemSize64_region in H as (?&?&Hr). split; [by apply Hr|].
  unfold_u64. lia.
Qed.

Lemma mem_max_63 m : mem_ok m -> len (store m) < 2 ^ 63.
Proof. intros [? ? Hx ?]. unfold maxMemSize in Hx. lia. Qed.

(** The memory region of the instruction, from the size that was paid for. *)
Ltac region :=
  match goal with
  | H : forall mt, Some ?x = Some mt -> _ |- _ =>
      let sz := fresh "sz" in let Hsz := fresh "Hsz" in let Hle := fresh "Hle" in
      destruct (H x eq_refl) as (sz & Hsz & Hle); clear H; cbn in Hsz;
      first [eapply calcMemSize64_region' in Hsz as (? & ? & ?); [|exact Hle] | idtac]
  end;
  match goal with H : mem_ok ?m |- _ => pose proof (mem_max_63 m H) end.

Lemma opKeccak256_ok : exec_spec env OpKeccak256 (fun calls => exec_fn env calls OpKeccak256).
Proof.
  instr_start. region. instr_run; (apply wp_readMemory; [by apply GetPtr_ok|intros ? ?]);
    instr_run; instr_leaf.
Qed.

Lemma wp_getData d start size (Q : bytes -> Frame S -> Prop) f :
  data_ok d -> 0 <= start -> 0 <= size < 2 ^ 63 ->
  (forall r, Forall is_byte r -> Q r f) -> wp tolerated (st_lift (getData d start size)) Q f.
Proof.
  intros Hd H0 Hs HQ. destruct (getData_ok d start size) as (r & -> & Hr & _); [done..|].
  by apply HQ.
Qed.

Lemma Uint64WithOverflow_u64 w z b : Uint64WithOverflow w = (z, b) -> is_u64 z.
Proof. rewrite Uint64WithOverflow_spec. intros [= <- _]. apply Z.mod_pos_bound. done. Qed.

(** The data offset of a copy, [MaxUint64] when it does not fit. *)
Lemma offset_nonneg (b : bool) z : is_u64 z -> 0 <= (if b then MaxUint64 else z).
Proof. destruct b; unfold_u64; lia. Qed.

Ltac copy_offset :=
  match goal with H : Uint64WithOverflow _ = (_, _) |- _ =>
    first [apply offset_nonneg, (Uint64WithOverflow_u64 _ _ _ H)
          | apply (Uint64WithOverflow_u64 _ _ _ H)] end.

Ltac set_memory :=
  apply wp_onMemory; [apply Set_ok; try done|intros ? ? ?; instr_run; instr_leaf].

Lemma opCallDataLoad_ok : exec_spec env OpCallDataLoad (fun calls => exec_fn env calls OpCallDataLoad).
Proof.
  instr_start. instr_run; try instr_leaf.
  apply wp_getData; [apply Hc|copy_offset|lia|intros ? ?; instr_run; instr_leaf].
Qed.

Lemma opCallDataCopy_ok : exec_spec env OpCallDataCopy (fun calls => exec_fn env calls OpCallDataCopy).
Proof.
  instr_start. region. instr_run.
  apply wp_getData; [apply Hc|copy_offset|lia|intros ? ?; instr_run; set_memory].
Qed.

Lemma opCodeCopy_ok : exec_spec env OpCodeCopy (fun calls => exec_fn env calls OpCodeCopy).
Proof.
  instr_start. region. instr_run.
  apply wp_getData; [apply Hc|copy_offset|lia|intros ? ?; instr_run; set_memory].
Qed.

(** [GetCode] with the facts the specification of the state gives about the code. *)
Lemma wp_db_code a p st m c s d t j al ro rd (Q : bytes -> Frame S -> Prop) :
  db_ok s ->
  (forall x s', data_ok x -> db_ok s' -> rel ro s s' ->
     Q x (mkFrame p st m c (mkVM s' d t j al ro rd))) ->
  wp tolerated (db (GetCode a)) Q (mkFrame p st m c (mkVM s d t j al ro rd)).
Proof.
  intros Hs HQ. apply wp_db; [done|exact I|done|]. intros x s' Hx ??. apply HQ; [|done..].
  by eapply sdb_code in Hx as (_ & ? & _).
Qed.

Lemma opExtCodeCopy_ok : exec_spec env OpExtCodeCopy (fun calls => exec_fn env calls OpExtCodeCopy).
Proof.
  instr_start. region. do 9 instr_prim.
  apply wp_bind, wp_db_code; [done|]. intros code s' Hcode' ? ?. instr_run.
  apply wp_getData; [done|copy_offset|lia|intros ? ?; instr_run; set_memory].
Qed.

Lemma opReturnDataCopy_ok : exec_spec env OpReturnDataCopy (fun calls => exec_fn env calls OpReturnDataCopy).
Proof.
  instr_start. region. instr_run; try instr_leaf.
  rename select (Uint64WithOverflow w0 = _) into Ho.
  rename select (Uint64WithOverflow (Add _ _) = _) into He.
  bool_to_Z. subst. rewrite Uint64WithOverflow_spec in Ho, He. rewrite Add_spec in He.
  injection Ho as <- Ho. injection He as <- He. apply Z.leb_gt in Ho, He.
  pose proof (uval_range w0). pose proof (uval_range w1). unfold two256 in *. unfold_u64.
  rewrite (Z.mod_small (uval w0 + uval w1)) in * by lia.
  rewrite !Z.mod_small by lia. rewrite Z.mod_small in * by lia.
  rewrite slice_ok by (cbn in *; lia).
  apply wp_ret. instr_run. set_memory. by apply Forall_zslice, Hr.
Qed.

Lemma opReturn_ok : exec_spec env OpReturn (fun calls => exec_fn env calls OpReturn).
Proof.
  instr_start. region. instr_run.
  apply wp_readMemory; [by apply GetCopy_ok|intros ? ?]. instr_run. instr_leaf.
Qed.

Lemma opRevert_ok : exec_spec env OpRevert (fun calls => exec_fn env calls OpRevert).
Proof.
  instr_start. region. instr_run.
  apply wp_readMemory; [by apply GetCopy_ok|intros ? ?]. instr_run. instr_leaf.
Qed.

Lemma calcMemSize64WithUint_region' o n sz m :
  Ret (calcMemSize64WithUint o n) = Ret (sz, false) -> is_u64 n -> sz <= len (store m) ->
  region_ok m (Uint64 o) n.
Proof. intros [= H] Hn Hle. eapply calcMemSize64WithUint_region in H as (?&?&Hr); auto. Qed.

Lemma opMload_ok : exec_spec env OpMload (fun calls => exec_fn env calls OpMload).
Proof.
  instr_start. region. apply (calcMemSize64WithUint_region' _ _ _ m) in Hsz; [|done..].
  instr_run. apply wp_readMemory; [by apply GetPtr_ok|intros ? ?]. instr_run. instr_leaf.
Qed.

Lemma opMstore_ok : exec_spec env OpMstore (fun calls => exec_fn env calls OpMstore).
Proof.
  instr_start. region. apply (calcMemSize64WithUint_region' _ _ _ m) in Hsz; [|done..].
  instr_run. apply wp_onMemory; [by apply Set32_ok|intros ? ? ?]. instr_run. instr_leaf.
Qed.

Lemma opMstore8_ok : exec_spec env OpMstore8 (fun calls => exec_fn env calls OpMstore8).
Proof.
  instr_start. region. apply (calcMemSize64WithUint_region' _ _ _ m) in Hsz; [|done..].
  instr_run. apply wp_onMemory.
  - apply SetByte_ok; [done..|]. apply Z.mod_pos_bound. lia.
  - intros ? ? ?. instr_run. instr_leaf.
Qed.

Lemma calcMemSize64_smaller o o' l sz m :
  Ret (calcMemSize64 o l) = Ret (sz, false) -> sz <= len (store m) -> uval o' <= uval o ->
  region_ok m (Uint64 o') (Uint64 l).
Proof.
  intros [= H] Hle Ho. unfold calcMemSize64 in H. destruct (negb _); [done|].
  unfold calcMemSize64WithUint in H. destruct (Uint64 l =? 0) eqn:E; bool_to_Z; [by left|].
  rewrite Uint64WithOverflow_spec in H. destruct (two64 <=? uval o) eqn:E2; [done|].
  injection H as <- Hov. bool_to_Z. pose proof (uval_range o'). pose proof (uval_range o).
  pose proof (Uint64_u64 l) as Hl. rewrite Uint64_spec. unfold_u64.
  rewrite !(Z.mod_small (uval _)) in * by lia.
  right. split; [lia|]. split; [lia|].
  destruct (Z.lt_ge_cases (uval o + Uint64 l) 18446744073709551616).
  - rewrite Z.mod_small in Hle by lia. lia.
  - exfalso. apply Z.le_ngt in Hov. apply Hov.
    rewrite <- (Z.mod_add _ (-1)) by lia. rewrite Z.mod_small; lia.
Qed.

Lemma opMcopy_ok : exec_spec env OpMcopy (fun calls => exec_fn env calls OpMcopy).
Proof.
  instr_start. destruct (Hmem _ eq_refl) as (sz & Hsz & Hle).
  change (Ret (calcMemSize64 (if Gt w0 w then w0 else w) w1) = Ret (sz, false)) in Hsz.
  assert (region_ok m (Uint64 w) (Uint64 w1) /\ region_ok m (Uint64 w0) (Uint64 w1)) as [? ?].
  { rewrite Gt_spec in Hsz.
    split; (eapply calcMemSize64_smaller; [exact Hsz|done|]); case_if; bool_to_Z; lia. }
  instr_run. apply wp_onMemory; [by apply Copy_ok|intros ? ? ?]. instr_run. instr_leaf.
Qed.

(** *** Logs, stack shuffling and pushes *)

Lemma wp_popTopics n p st m c v (Q : list Hash -> Frame S -> Prop) :
  Z.of_nat n <= len st ->
  (forall l, Q l (mkFrame p (drop n st) m c v)) ->
  wp tolerated (popTopics n) Q (mkFrame p st m c v).
Proof.
  revert st Q. induction n as [|n IH]; intros st Q Hl HQ; cbn [popTopics]; [apply wp_ret, HQ|].
  destruct st as [|w st]; [rewrite len_nil in Hl; lia|]. rewrite len_cons in Hl.
  apply wp_bind, wp_popF, wp_bind. apply IH; [lia|]. intros l. apply wp_ret, HQ.
Qed.

Lemma makeLog_ok n : exec_spec env (MakeLog n) (fun calls => exec_fn env calls (MakeLog n)).
Proof.
  intros G calls f HC [[Hpc Hst Hm Hc [Hd Hj Hr]] Hwf Hl Hroom Hmem Hcode Hrand Hhand Hgas].
  pose proof (c_gas _ Hc). open_frame f. cbn in *. bool_to_Z.
  destruct st as [|w0 [|w1 st]]; [rewrite len_nil in Hl; lia|rewrite len_cons, len_nil in Hl; lia|].
  autorewrite with zlen in *. unfold makeLog. region. instr_run; [instr_leaf|].
  apply wp_popTopics; [lia|]. intros l. instr_run.
  apply wp_readMemory; [by apply GetCopy_ok|intros ? ?]. instr_run.
  assert (len (drop (Z.to_nat n) st) <= len st) by (unfold len; rewrite length_drop; lia).
  instr_leaf.
Qed.

Lemma wp_onStack_unit (k : Stack -> Outcome Stack) p st m c v (Q : unit -> Frame S -> Prop) st' :
  k st = Ret st' -> Q tt (mkFrame p st' m c v) ->
  wp tolerated (onStack (fun st => st' ← k st; Ret (tt, st'))) Q (mkFrame p st m c v).
Proof. intros Hk HQ. unfold wp, onStack. cbn. rewrite Hk. done. Qed.

Lemma opSwap_ok n : exec_spec env (OpSwap n) (fun calls => exec_fn env calls (OpSwap n)).
Proof.
  intros G calls f HC [[Hpc Hst Hm Hc [Hd Hj Hr]] Hwf Hl Hroom Hmem Hcode Hrand Hhand Hgas].
  pose proof (c_gas _ Hc). open_frame f. cbn in *. bool_to_Z.
  destruct (index_ok st 0) as (a & _ & Ha); [lia|].
  destruct (index_ok st n) as (b & _ & Hb); [lia|].
  unfold opSwap. apply wp_bind. eapply wp_onStack_unit.
  { unfold swap. rewrite Ha. cbn. rewrite Hb. reflexivity. }
  assert (len (<[0%nat:=b]> (<[Z.to_nat n:=a]> st)) = len st)
    by (etrans; apply len_insert).
  instr_run. instr_leaf.
Qed.

Lemma makeDup_ok n : exec_spec env (MakeDup n) (fun calls => exec_fn env calls (MakeDup n)).
Proof.
  intros G calls f HC [[Hpc Hst Hm Hc [Hd Hj Hr]] Hwf Hl Hroom Hmem Hcode Hrand Hhand Hgas].
  pose proof (c_gas _ Hc). open_frame f. cbn in *. bool_to_Z.
  destruct (index_ok st (n - 1)) as (a & _ & Ha); [lia|].
  unfold makeDup. apply wp_bind. eapply wp_onStack_unit.
  { unfold dup. rewrite Ha. reflexivity. }
  unfold push. instr_run. instr_leaf.
Qed.

Lemma opRandom_ok : exec_spec env OpRandom (fun calls => exec_fn env calls OpRandom).
Proof.
  instr_start. destruct Hrand as [r ->]. instr_run. instr_leaf.
Qed.

Lemma opBaseFee_ok : exec_spec env OpBaseFee (fun calls => exec_fn env calls OpBaseFee).
Proof. instr_start. destruct Hrand as [r ->]. unfold pushBig. instr_run. instr_leaf. Qed.
Lemma opBlobBaseFee_ok : exec_spec env OpBlobBaseFee (fun calls => exec_fn env calls OpBlobBaseFee).
Proof. instr_start. destruct Hrand as [r ->]. unfold pushBig. instr_run. instr_leaf. Qed.
Lemma opChainID_ok : exec_spec env OpChainID (fun calls => exec_fn env calls OpChainID).
Proof. instr_start. destruct Hrand as [r ->]. unfold pushBig. instr_run. instr_leaf. Qed.

Lemma opBlockhash_ok : exec_spec env OpBlockhash (fun calls => exec_fn env calls OpBlockhash).
Proof.
  instr_start. instr_run; try instr_leaf. bool_to_Z.
  pose proof (Uint64WithOverflow_u64 _ _ _ Heqp0) as Hz. pose proof (wrap64_range (BlockNumber env)).
  destruct (Hrand z Hz) as [h ->].
  { destruct (Z.ltb_spec (wrap64 (BlockNumber env)) 257); unfold is_u64 in *; [lia|].
    rewrite wrap64_small in * by (unfold is_u64; lia). lia. }
  apply wp_ret. instr_run. instr_leaf.
Qed.

Lemma opBlobHash_ok : exec_spec env OpBlobHash (fun calls => exec_fn env calls OpBlobHash).
Proof.
  instr_start. instr_run; try instr_leaf.
  rewrite LtUint64_spec in *. bool_to_Z. pose proof (uval_range w).
  destruct (index_ok (BlobHashes env) (Uint64 w)) as (h & _ & ->).
  { rewrite Uint64_spec. pose proof (Z.mod_le (uval w) two64). pose proof (Z.mod_pos_bound (uval w) two64).
    unfold two64 in *. lia. }
  apply wp_ret. instr_run. instr_leaf.
Qed.

Lemma opUndefined_ok : exec_spec env OpUndefined (fun calls => exec_fn env calls OpUndefined).
Proof.
  instr_start. instr_run. specialize (Hcode eq_refl).
  destruct (index_ok (Code c) p) as (op & _ & ->); [lia|]. apply wp_ret. instr_run. instr_leaf.
Qed.

Lemma pc_next c p k : contract_ok c -> 0 <= p < len (Code c) -> 0 <= k <= 32 -> p +! k = p + k.
Proof. intros [? [_ Hl] _ _ _] ??. apply wrap64_small. unfold_u64. lia. Qed.

Lemma wp_index (l : bytes) i (Q : Z -> Frame S -> Prop) f :
  0 <= i < len l -> (forall b, Q b f) -> wp tolerated (st_lift (index l i)) Q f.
Proof. intros Hi HQ. destruct (index_ok l i Hi) as (b & _ & ->). apply wp_ret, HQ. Qed.

Lemma wp_slice (l : bytes) lo hi (Q : bytes -> Frame S -> Prop) f :
  0 <= lo <= hi -> hi <= len l -> Q (zslice l lo hi) f ->
  wp tolerated (st_lift (slice l lo hi)) Q f.
Proof. intros ???. rewrite slice_ok by done. by apply wp_ret. Qed.

Lemma opPush1_ok : exec_spec env OpPush1 (fun calls => exec_fn env calls OpPush1).
Proof.
  instr_start. specialize (Hcode eq_refl). instr_run; try instr_leaf.
  rewrite (pc_next c) in * by (done || lia). bool_to_Z.
  apply wp_index; [lia|]. intros b. instr_run. instr_leaf.
Qed.

Lemma opPush2_ok : exec_spec env OpPush2 (fun calls => exec_fn env calls OpPush2).
Proof.
  instr_start. specialize (Hcode eq_refl). instr_run; try instr_leaf.
  - rewrite !(pc_next c) in * by (done || lia). bool_to_Z.
    apply wp_slice; [lia..|]. instr_run. instr_leaf.
  - rewrite !(pc_next c) in * by (done || lia). bool_to_Z.
    apply wp_index; [lia|]. intros b. instr_run. instr_leaf.
Qed.

Lemma makePush_ok a b : exec_spec env (MakePush a b) (fun calls => exec_fn env calls (MakePush a b)).
Proof.
  instr_start. specialize (Hcode eq_refl). bool_to_Z. subst. instr_run.
  rewrite (pc_next c) by (done || lia). pose proof (c_code _ Hc) as [_ ?].
  unfold to_int. replace (p + 1 <? 2 ^ 63) with true by lia.
  apply wp_slice; [lia..|]. instr_run. instr_leaf.
Qed.

(** *** Jumps *)

Lemma codeSegment_ok code a i :
  Forall is_byte code -> codeBitmap code = Ret a -> 0 <= i < len code ->
  exists b, codeSegment a i = Ret b.
Proof.
  intros Hb Ha Hi. destruct (codeBitmap_spec code Hb) as (bits & Hbits & Hl & _).
  rewrite Ha in Hbits. injection Hbits as <-. eexists.
  apply codeSegment_bitAt; [lia|]. rewrite Hl.
  pose proof (Z.div_le_mono i (len code) 8). lia.
Qed.

(** A lookup in a bitmap: it succeeds, unless the bitmap is that of another code. *)
Lemma codeSegment_cases code a i :
  Forall is_byte code -> analysed code a -> 0 <= i < len code ->
  (exists b, codeSegment a i = Ret b) \/ (codeSegment a i = Fail PanicJumpdest /\ collision).
Proof.
  intros Hb (code' & Hk & Ha) Hi. destruct (decide (code' = code)) as [->|Hne]; [left; by eapply codeSegment_ok|].
  assert (Hc : collision) by (by exists code', code).
  destruct (codeSegment a i) as [b|e] eqn:E; [by left; eauto|right]. split; [|done].
  unfold codeSegment, index in E. cbn in E. repeat case_match; simplify_eq; done.
Qed.

Lemma contract_ok_analysis c a :
  contract_ok c -> analysed (Code c) a -> contract_ok (set_analysis a c).
Proof.
  intros [] Ha. split; try done. cbn. by intros a' [= <-].
Qed.

Definition jump_ok (c : Contract) (o : Outcome (bool * Contract * gmap Z bitvec)) : Prop :=
  (exists b c' j', o = Ret (b, c', j') /\ contract_ok c' /\ Gas c' = Gas c /\ cache_ok j') \/
  (o = Fail PanicJumpdest /\ collision).

(** A lookup in [a], which is then recorded in the contract; the cache becomes [j]. *)
Lemma isCode_lookup c j a i :
  contract_ok c -> cache_ok j -> analysed (Code c) a -> 0 <= i < len (Code c) ->
  jump_ok c (b ← codeSegment a i; Ret (b, set_analysis a c, j)) /\
  (analysis c = Some a -> jump_ok c (b ← codeSegment a i; Ret (b, c, j))).
Proof.
  intros Hc Hj Ha Hi.
  destruct (codeSegment_cases (Code c) a i) as [[b Hb]|[Hb Hcol]]; [apply Hc|done|done| |];
    rewrite Hb; cbn; split; try (by right); intros; left.
  - eexists _, _, _. split; [done|]. split; [by apply contract_ok_analysis|done].
  - by eexists _, _, _.
Qed.

Lemma isCode_ok c j i :
  contract_ok c -> cache_ok j -> 0 <= i < len (Code c) -> jump_ok c (isCode c j i).
Proof.
  intros Hc Hj Hi. unfold isCode. destruct (analysis c) as [a|] eqn:Ea.
  { apply isCode_lookup; [done..| |done|done]. by apply (c_analysis _ Hc). }
  destruct (codeBitmap_spec (Code c)) as (bits & Hbits & _); [apply Hc|].
  destruct (CodeHash c =? 0) eqn:E0; bool_to_Z; cbn [negb].
  { rewrite Hbits. cbn [mbind outcome_bind]. apply isCode_lookup; auto. by exists (Code c). }
  destruct (c_hash _ Hc) as [?|Hh]; [done|].
  destruct (j !! CodeHash c) as [a|] eqn:Ej.
  - apply isCode_lookup; try done.
    destruct (Hj _ _ Ej) as (code & Hk & Hbm). rewrite Hh in Hk. by exists code.
  - rewrite Hbits. cbn [mbind outcome_bind]. apply isCode_lookup; auto; [|by exists (Code c)].
    intros h a Ha.
    destruct (decide (h = CodeHash c)) as [->|].
    + rewrite lookup_insert_eq in Ha. injection Ha as <-. by exists (Code c).
    + rewrite lookup_insert_ne in Ha by done. eauto.
Qed.

Lemma validJumpdest_ok c j pos :
  contract_ok c -> cache_ok j -> jump_ok c (validJumpdest c j pos).
Proof.
  intros Hc Hj. unfold validJumpdest. rewrite Uint64WithOverflow_spec.
  assert (Hn : jump_ok c (Ret (false, c, j))) by (left; by eexists _, _, _).
  destruct (_ || _) eqn:E; [done|]. bool_to_Z.
  pose proof (Z.mod_pos_bound (uval pos) two64 eq_refl).
  destruct (index_ok (Code c) (uval pos mod two64)) as (op & _ & ->); [lia|]. cbn.
  destruct (negb _); [done|]. apply isCode_ok; [done..|lia].
Qed.

Lemma wp_jumpTo t f pos :
  frame_ok f -> exec_halts t = false -> exec_call t = None ->
  forall f0, vm_rel (vm f0) (vm f) -> Gas (contract f) = Gas (contract f0) ->
  wp tolerated (jumpTo pos) (exec_post t f0) f.
Proof.
  intros [Hpc Hst Hm Hc [Hd Hj Hr]] Hh Hca f0 Hrel Hg. unfold jumpTo. apply wp_bind.
  unfold wp, validJumpdestF.
  destruct (validJumpdest_ok (contract f) (jumpDests (vm f)) pos Hc Hj)
    as [(b & c' & j' & -> & Hc' & Hg' & Hj')|[-> Hcol]]; [|by right].
  assert (Hgas : Gas c' <= Gas (contract f0) + handed t f0).
  { unfold handed. rewrite Hca. lia. }
  assert (Hrel' : vm_rel (vm f0) (vm_set_jumpDests j' (vm f))).
  { destruct Hrel. by split. }
  destruct b; cbn [negb].
  - apply wp_bind, wp_modify, wp_ret. split; cbn; auto with geth; [|by rewrite Hh].
    split; cbn; [exact (proj1 (wrap64_range _))|done..|by split].
  - apply wp_ret. split; cbn; auto with geth. split; cbn; [done..|by split].
Qed.

Lemma opJump_ok : exec_spec env OpJump (fun calls => exec_fn env calls OpJump).
Proof.
  instr_start. autorewrite with zlen in *. instr_run; try instr_leaf.
  apply wp_jumpTo; try done. split; cbn; try done; try lia; by split.
Qed.

Lemma opJumpi_ok : exec_spec env OpJumpi (fun calls => exec_fn env calls OpJumpi).
Proof.
  instr_start. autorewrite with zlen in *. instr_run; try instr_leaf.
  apply wp_jumpTo; try done. split; cbn; try done; try lia; by split.
Qed.

(** *** Calls *)

Lemma memoryMax_region o1 l1 o2 l2 sz m :
  Ret (memoryMax (calcMemSize64 o1 l1) (calcMemSize64 o2 l2)) = Ret (sz, false) ->
  sz <= len (store m) ->
  region_ok m (Uint64 o1) (Uint64 l1) /\ region_ok m (Uint64 o2) (Uint64 l2).
Proof.
  intros [= H] Hle. apply memoryMax_bound in H as (H1 & H2 & H3 & H4 & _).
  destruct (calcMemSize64 o1 l1) as [s1 ?] eqn:E1, (calcMemSize64 o2 l2) as [s2 ?] eqn:E2.
  cbn in *. subst.
  eapply (calcMemSize64_region _ _ _ m) in E1 as (_&_&R1).
  eapply (calcMemSize64_region _ _ _ m) in E2 as (_&_&R2).
  split; [apply R1|apply R2]; lia.
Qed.

Lemma wp_on_vm {A} (k : ST (VM S) A) p st m c v (Q : A -> Frame S -> Prop) :
  wp tolerated k (fun a v' => Q a (mkFrame p st m c v')) v ->
  wp tolerated (on_vm k) Q (mkFrame p st m c v).
Proof. unfold wp, on_vm. cbn. by destruct (k v) as [[a v']|e]. Qed.

Lemma RefundGas_ok c g :
  contract_ok c -> 0 <= g -> Gas c + g < two64 ->
  contract_ok (RefundGas c g) /\ Gas (RefundGas c g) = Gas c + g.
Proof.
  intros Hc Hg Hs. pose proof (c_gas _ Hc). unfold RefundGas. case_if; bool_to_Z; [by subst; split; [|lia]|].
  rewrite wrap64_small by (unfold_u64; lia).
  split; [|done]. apply contract_ok_gas; [done|]. unfold_u64; lia.
Qed.

(** The tail of a call instruction, entered with the callee's result. *)
Lemma wp_afterCall t p st m c v f0 ro rs gas r v' :
  frame_ok (mkFrame p st m c v) -> len st < StackLimit -> region_ok m (Uint64 ro) (Uint64 rs) ->
  call_post gas v r v' -> vm_rel (vm f0) v -> exec_halts t = false ->
  Gas c + gas < two64 -> Gas c + gas <= Gas (contract f0) + handed t f0 ->
  wp tolerated (afterCall ro rs r) (exec_post t f0) (mkFrame p st m c v').
Proof.
  intros [Hpc Hst Hm Hc Hv] Hl Hreg (Hv' & Hrel & Hleft & Hret) Hrel0 Hh Hs Hb. cbn in *.
  destruct r as [[ret left] err]. cbn in *. unfold afterCall.
  destruct (RefundGas_ok c left) as [Hc' Hg']; [done|lia|lia|].
  assert (Hpost : forall m', mem_ok m' -> len (store m') = len (store m) ->
    wp tolerated (refundGas left;; setReturnData ret;; mret (ret, None)) (exec_post t f0)
      (mkFrame p (bool_word (bool_decide (err = None)) :: st) m' c v')).
  { intros m' Hm' Hlen. apply wp_bind, wp_modify, wp_bind, wp_modify, wp_ret.
    destruct Hv' as [Hd' Hj' Hr'].
    split; cbn; [|etrans; [exact Hrel0|]; by destruct Hrel|done|lia|by rewrite Hh].
    split; cbn; [done|rewrite len_cons; lia|done|done|by split]. }
  apply wp_bind, wp_pushF, wp_bind. case_if.
  - apply wp_onMemory; [apply Set_ok; [done..|apply Hret]|]. intros m' ? ?. by apply Hpost.
  - apply wp_ret. by apply Hpost.
Qed.

Lemma wp_doCall t k gas ro rs p st m c v f0 :
  wp tolerated k (call_post gas v) v ->
  frame_ok (mkFrame p st m c v) -> len st < StackLimit -> region_ok m (Uint64 ro) (Uint64 rs) ->
  v = vm f0 -> exec_halts t = false ->
  Gas c + gas < two64 -> Gas c + gas <= Gas (contract f0) + handed t f0 ->
  wp tolerated (r ← on_vm k; afterCall ro rs r) (exec_post t f0) (mkFrame p st m c v).
Proof.
  intros Hk Hf Hl Hr -> Hh Hs Hb. apply wp_bind, wp_on_vm. eapply wp_mono; [exact Hk|].
  intros r v' Hpost. eapply wp_afterCall; done.
Qed.

Ltac call_pre :=
  instr_start;
  match goal with H : Some _ <> None -> _ |- _ =>
    let Ht := fresh "Ht" in let Hsum := fresh "Hsum" in let HG := fresh "HG" in
    destruct (H ltac:(discriminate)) as (Ht & Hsum & HG); clear H;
    unfold handed in Hsum, HG; cbn in Hsum, HG
  end;
  match goal with H : forall mt, Some ?x = Some mt -> _ |- _ =>
    let sz := fresh "sz" in let Hsz := fresh "Hsz" in let Hle := fresh "Hle" in
    destruct (H x eq_refl) as (sz & Hsz & Hle); clear H
  end.

Lemma stipend_gas (w : word) t (b : bool) :
  is_u64 t -> t + (if IsZero w then 0 else CallStipend) < two64 ->
  (if negb (IsZero w) then t +! CallStipend else t) = t + (if IsZero w then 0 else CallStipend).
Proof.
  intros Ht Hs. destruct (IsZero w); cbn [negb]; [lia|]. apply wrap64_small.
  autounfold with params in *. unfold_u64. lia.
Qed.

Ltac call_sides :=
  first [ solve [unfold_u64; lia]
        | solve [intros ->; match goal with H : _ && _ = false |- _ =>
            cbn in H; by apply negb_false_iff in H end] | solve [split; done]
        | split; cbn; [assumption|lia|assumption..|split; assumption] ].

Lemma opCall_ok : exec_spec env OpCall (fun calls => exec_fn env calls OpCall).
Proof.
  call_pre. autorewrite with zlen in *. pose proof (len_nonneg st).
  change (Ret (memoryMax (calcMemSize64 w4 w5) (calcMemSize64 w2 w3)) = Ret (sz, false)) in Hsz.
  apply (memoryMax_region _ _ _ _ _ m) in Hsz as [Hr1 Hr2]; [|done].
  instr_run. apply wp_readMemory; [by apply GetPtr_ok|intros args Hargs].
  assert (0 <= (if IsZero w1 then 0 else CallStipend)) by (case_if; done).
  pose proof (proj1 Ht). pose proof (proj1 H).
  apply wp_bind, wp_gets. cbn. case_if; [instr_run; instr_leaf|].
  apply wp_bind, wp_gets. rewrite stipend_gas by (try exact true; lia || done).
  eapply wp_doCall; [apply (Call_ok _ _ HC)|..]; cbn; try done; try lia.
  all: call_sides.
Qed.

Lemma opCallCode_ok : exec_spec env OpCallCode (fun calls => exec_fn env calls OpCallCode).
Proof.
  call_pre. autorewrite with zlen in *. pose proof (len_nonneg st).
  change (Ret (memoryMax (calcMemSize64 w4 w5) (calcMemSize64 w2 w3)) = Ret (sz, false)) in Hsz.
  apply (memoryMax_region _ _ _ _ _ m) in Hsz as [Hr1 Hr2]; [|done].
  instr_run. apply wp_readMemory; [by apply GetPtr_ok|intros args Hargs].
  assert (0 <= (if IsZero w1 then 0 else CallStipend)) by (case_if; done).
  pose proof (proj1 Ht). pose proof (proj1 H). cbn.
  apply wp_bind, wp_gets. rewrite stipend_gas by (try exact true; lia || done).
  eapply wp_doCall; [apply (CallCode_ok _ _ HC)|..]; cbn; try done; try lia.
  all: call_sides.
Qed.

Lemma opDelegateCall_ok : exec_spec env OpDelegateCall (fun calls => exec_fn env calls OpDelegateCall).
Proof.
  call_pre. autorewrite with zlen in *. pose proof (len_nonneg st).
  change (Ret (memoryMax (calcMemSize64 w3 w4) (calcMemSize64 w1 w2)) = Ret (sz, false)) in Hsz.
  apply (memoryMax_region _ _ _ _ _ m) in Hsz as [Hr1 Hr2]; [|done].
  instr_run. apply wp_readMemory; [by apply GetPtr_ok|intros args Hargs].
  apply wp_bind, wp_gets. cbn.
  eapply wp_doCall; [apply (DelegateCall_ok _ _ HC)|..]; cbn; try done; try lia.
  all: call_sides.
Qed.

Lemma opStaticCall_ok : exec_spec env OpStaticCall (fun calls => exec_fn env calls OpStaticCall).
Proof.
  call_pre. autorewrite with zlen in *. pose proof (len_nonneg st).
  change (Ret (memoryMax (calcMemSize64 w3 w4) (calcMemSize64 w1 w2)) = Ret (sz, false)) in Hsz.
  apply (memoryMax_region _ _ _ _ _ m) in Hsz as [Hr1 Hr2]; [|done].
  instr_run. apply wp_readMemory; [by apply GetPtr_ok|intros args Hargs].
  apply wp_bind, wp_gets. cbn.
  eapply wp_doCall; [apply (StaticCall_ok _ _ HC)|..]; cbn; try done; try lia.
  all: call_sides.
Qed.

(** *** Creation *)

Lemma wp_afterCreate t p st m c v f0 w res left err :
  frame_ok (mkFrame p st m c v) -> len st < StackLimit -> data_ok res ->
  vm_rel (vm f0) v -> exec_halts t = false -> exec_call t = None ->
  0 <= left -> Gas c + left <= Gas (contract f0) -> is_u64 (Gas (contract f0)) ->
  wp tolerated (afterCreate w res left err) (exec_post t f0) (mkFrame p st m c v).
Proof.
  intros [Hpc Hst Hm Hc [Hd Hj Hr]] Hl Hret Hrel Hh Hca H0 Hb Hu. cbn in *.
  destruct (RefundGas_ok c left) as [Hc' Hg']; [done|lia|unfold_u64; lia|].
  assert (Hpost : forall d r, data_ok d -> data_ok r ->
    wp tolerated (setReturnData d;; mret (r, None)) (exec_post t f0)
      (mkFrame p (w :: st) m (RefundGas c left) v)).
  { intros d r Hd' Hr'. apply wp_bind, wp_modify, wp_ret.
    split; cbn; [|by destruct Hrel|done|unfold handed; rewrite Hca; lia|by rewrite Hh].
    split; cbn; [done|rewrite len_cons; lia|done|done|by split]. }
  unfold afterCreate. apply wp_bind, wp_pushF, wp_bind, wp_modify. cbn.
  case_if; apply Hpost; auto with geth.
Qed.

(** The gas handed to a creation comes out of the frame's own. *)
Lemma wp_doCreate t (k : ST (VM S) (bytes * Address * Z * option vmerror)) tail gas p st m c v f0 :
  (forall res addr left err, exists w, tail (res, addr, left, err) = afterCreate w res left err) ->
  wp tolerated k (create_post gas v) v ->
  frame_ok (mkFrame p st m c v) -> len st < StackLimit -> v = vm f0 ->
  exec_halts t = false -> exec_call t = None ->
  Gas c + gas <= Gas (contract f0) -> is_u64 (Gas (contract f0)) ->
  wp tolerated (r ← on_vm k; tail r) (exec_post t f0) (mkFrame p st m c v).
Proof.
  intros Ht Hk [Hpc Hst Hm Hc Hv] Hl -> Hh Hca Hb Hu. cbn in *.
  apply wp_bind, wp_on_vm. eapply wp_mono; [exact Hk|].
  intros [[[res addr] left] err] v' (Hv' & Hrel & Hleft & Hret). cbn in *.
  destruct (Ht res addr left err) as [w ->].
  apply wp_afterCreate; try done; lia.
Qed.

Lemma gas_63_64 g : is_u64 g -> is_u64 (g -! g / 64) /\ g -! g / 64 <= g.
Proof.
  intros Hg. pose proof (Z.div_pos g 64). pose proof (Z.div_le_upper_bound g 64 g).
  unfold_u64. rewrite Z.mod_small; lia.
Qed.

Lemma opCreate_ok : exec_spec env OpCreate (fun calls => exec_fn env calls OpCreate).
Proof.
  instr_start. specialize (Hgas eq_refl). region.
  autorewrite with zlen in *. pose proof (len_nonneg st). instr_run; [instr_leaf|].
  apply wp_readMemory; [by apply GetCopy_ok|intros input Hinput]. apply wp_bind, wp_gets. cbn [contract].
  set (g := if IsEIP150 (chainRules env) then _ else _).
  assert (is_u64 g /\ g <= Gas c) as [Hg Hg'].
  { unfold g. destruct (gas_63_64 (Gas c)); [done|]. case_if; split; done || lia. }
  clearbody g. apply wp_bind, wp_useGas; [done|apply Hg| |lia]. intros _.
  apply wp_bind, wp_gets. cbn [contract c_address set_Gas].
  assert (contract_ok (set_Gas (Gas c - g) c)).
  { apply contract_ok_gas; [done|]. unfold_u64; lia. }
  eapply wp_doCreate; [by eexists|apply (Create_ok _ _ HC)|..]; cbn; try done; try lia.
  all: call_sides.
Qed.

Lemma opCreate2_ok : exec_spec env OpCreate2 (fun calls => exec_fn env calls OpCreate2).
Proof.
  instr_start. specialize (Hgas eq_refl). region.
  autorewrite with zlen in *. pose proof (len_nonneg st). instr_run; [instr_leaf|].
  apply wp_readMemory; [by apply GetCopy_ok|intros input Hinput]. apply wp_bind, wp_gets. cbn [contract].
  destruct (gas_63_64 (Gas c)) as [Hg Hg']; [done|]. set (g := Gas c -! Gas c / 64) in *.
  clearbody g. apply wp_bind, wp_useGas; [done|apply Hg| |lia]. intros _.
  apply wp_bind, wp_gets. cbn [contract c_address set_Gas].
  assert (contract_ok (set_Gas (Gas c - g) c)).
  { apply contract_ok_gas; [done|]. unfold_u64; lia. }
  eapply wp_doCreate; [by eexists|apply (Create2_ok _ _ HC)|..]; cbn; try done; try lia.
  all: call_sides.
Qed.

(** Every instruction meets its specification. *)
Lemma exec_fn_ok t : exec_spec env t (fun calls => exec_fn env calls t).
Proof.
  destruct (simple t) eqn:Hs; [by apply simple_ok|].
  destruct t; try discriminate;
    eauto using opKeccak256_ok, opCallDataLoad_ok, opCallDataCopy_ok, opReturnDataCopy_ok,
      opCodeCopy_ok, opExtCodeCopy_ok, opRandom_ok, opBaseFee_ok, opBlobBaseFee_ok, opChainID_ok, opBlockhash_ok, opBlobHash_ok, opMload_ok, opMstore_ok,
      opMstore8_ok, opMcopy_ok, opJump_ok, opJumpi_ok, opSwap_ok, makeDup_ok, opPush1_ok,
      opPush2_ok, makePush_ok, makeLog_ok, opCreate_ok, opCreate2_ok, opCall_ok, opCallCode_ok,
      opDelegateCall_ok, opStaticCall_ok, opReturn_ok, opRevert_ok, opUndefined_ok.
Qed.
End instr_specs.
