(* ===== verification/TableSpec.v ===== *)
(** * The jump tables fit the instructions

    An [operation] of a jump table pairs an instruction with stack bounds, a gas function and a
    memory-size function, all chosen by hand in [jump_table.go] and [eips.go].  [op_ok] decides
    whether the pairing is sound: the bounds leave the instruction and the gas function enough
    items and enough room, the memory paid for is the memory used, a call instruction has a gas
    function that sets [callGasTemp], and an operation that does not halt costs gas.  Every
    instruction set of the source passes. *)

From S2P Require Import Prelude Bytes Uint256 Params Machine Opcodes JumpTable VM GasTable Instructions Evm StateSpec Frames InstrSpec.

(** The stack items a memory-size function reads. *)
Definition mem_depth (t : memTag) : Z :=
  match t with
  | MemoryMLoad | MemoryMStore8 | MemoryMStore => 1
  | MemoryKeccak256 | MemoryReturn | MemoryRevert | MemoryLog => 2
  | MemoryCallDataCopy | MemoryReturnDataCopy | MemoryCodeCopy | MemoryMcopy
  | MemoryCreate | MemoryCreate2 => 3
  | MemoryExtCodeCopy => 4
  | MemoryDelegateCall | MemoryStaticCall => 6
  | MemoryCall => 7
  end.

Definition call_fits (e g : option bool) : bool :=
  match e, g with
  | None, _ => true
  | Some valued, Some charged => implb valued charged
  | Some _, None => false
  end.

Definition op_ok (o : operation) : bool :=
  let t := execute o in
  exec_wf t && (exec_depth t <=? op_minStack o) 
  && ((exec_net t =? 0) || (op_maxStack o + exec_net t <=? StackLimit))
  && bool_decide (memorySize o = exec_mem t)
  && (0 <=? constantGas o) && (constantGas o <? two64)
  && match memorySize o with Some m => mem_depth m <=? op_minStack o | None => true end
  && match dynamicGas o with
     | None => bool_decide (memorySize o = None) && bool_decide (exec_call t = None)
               && ((1 <=? constantGas o) || exec_halts t)
     | Some g =>
         (gas_depth g <=? op_minStack o)
         && (bool_decide (memorySize o = None) || gas_mem g)
         && call_fits (exec_call t) (gas_call g)
         && ((1 <=? constantGas o) || gas_pos g || exec_halts t)
     end
  && (bool_decide (exec_call t = None) && negb (exec_creates t) || (1 <=? constantGas o)).

(** What the check establishes, as propositions. *)
Record op_sound (o : operation) : Prop := {
  s_wf : exec_wf (execute o) = true;
  s_min : exec_depth (execute o) <= op_minStack o;
  s_max : exec_net (execute o) = 0 \/ op_maxStack o + exec_net (execute o) <= StackLimit;
  s_mem : memorySize o = exec_mem (execute o);
  s_const : is_u64 (constantGas o);
  s_memdepth m : memorySize o = Some m -> mem_depth m <= op_minStack o;
  s_static : dynamicGas o = None ->
    memorySize o = None /\ exec_call (execute o) = None /\
    (1 <= constantGas o \/ exec_halts (execute o) = true);
  s_dynamic g : dynamicGas o = Some g ->
    gas_depth g <= op_minStack o /\ (memorySize o <> None -> gas_mem g = true) /\
    (forall valued, exec_call (execute o) = Some valued ->
       exists charged, gas_call g = Some charged /\ implb valued charged = true) /\
    (1 <= constantGas o \/ gas_pos g = true \/ exec_halts (execute o) = true);
  s_calls : exec_call (execute o) <> None \/ exec_creates (execute o) = true -> 1 <= constantGas o;
}.

Lemma op_ok_sound o : op_ok o = true -> op_sound o.
Proof.
  unfold op_ok. rewrite !andb_true_iff.
  intros [[[[[[[[Hwf Hmin] Hmax] Hmem] Hc0] Hc1] Hmd] Hdyn] Hcalls].
  apply Z.leb_le in Hmin, Hc0. apply Z.ltb_lt in Hc1. apply bool_decide_eq_true in Hmem.
  split; try done.
  - apply orb_true_iff in Hmax as [?|?]; bool_to_Z; auto.
  - intros m Hm. rewrite Hm in Hmd. by apply Z.leb_le.
  - intros Hd. rewrite Hd, !andb_true_iff, !bool_decide_eq_true, orb_true_iff, Z.leb_le in Hdyn.
    tauto.
  - intros g Hg. rewrite Hg, !andb_true_iff, !orb_true_iff, !Z.leb_le, bool_decide_eq_true in Hdyn.
    destruct Hdyn as [[[? Hm] Hf] Hp]. split_and!; [done|tauto| |tauto].
    intros valued Hv. unfold call_fits in Hf. rewrite Hv in Hf.
    destruct (gas_call g) as [charged|]; [|done]. by exists charged.
  - intros Hx. rewrite orb_true_iff, andb_true_iff, negb_true_iff, bool_decide_eq_true, Z.leb_le in Hcalls.
    destruct Hcalls as [[Ha Hb]|?]; [|done]. rewrite Ha, Hb in Hx. by destruct Hx.
Qed.

(** The check of a whole table; STOP is what [GetOp] returns past the end of the code. *)
Definition table_okb (jt : JumpTable) : bool :=
  forallb (fun op => match jt !! op with Some o => op_ok o | None => false end) opcodes
  && match jt !! STOP with Some o => bool_decide (execute o = OpStop) | None => false end.

Record table_ok (jt : JumpTable) : Prop := {
  t_ops op : 0 <= op < 256 -> exists o, jt !! op = Some o /\ op_sound o;
  t_stop : exists o, jt !! STOP = Some o /\ execute o = OpStop;
}.

Lemma elem_of_opcodes op : 0 <= op < 256 -> op ∈ opcodes.
Proof.
  intros H. unfold opcodes. apply list_elem_of_fmap. exists (Z.to_nat op).
  split; [lia|]. apply elem_of_seq. lia.
Qed.

Lemma table_okb_sound jt : table_okb jt = true -> table_ok jt.
Proof.
  unfold table_okb. intros [Ho Hs]%andb_prop. split.
  - intros op Hop. rewrite forallb_forall in Ho. specialize (Ho op).
    destruct (jt !! op) as [o|].
    + exists o. split; [done|]. by apply op_ok_sound, Ho, list_elem_of_In, elem_of_opcodes.
    + discriminate Ho. by apply list_elem_of_In, elem_of_opcodes.
  - destruct (jt !! STOP) as [o|]; [|done]. exists o. split; [done|]. by apply bool_decide_eq_true in Hs.
Qed.

Lemma allInstructionSets_ok : forallb table_okb allInstructionSets = true.
Proof. vm_compute. reflexivity. Qed.

Lemma instructionSet_ok r jt : instructionSet r = Ret jt -> table_ok jt.
Proof.
  unfold instructionSet. intros H. destruct (IsVerkle r); [done|]. injection H as <-.
  apply table_okb_sound. pose proof allInstructionSets_ok as Ha.
  rewrite forallb_forall in Ha. apply Ha.
  case_if; [exact (nth_error_In allInstructionSets 12 eq_refl)|].
  case_if; [exact (nth_error_In allInstructionSets 11 eq_refl)|].
  case_if; [exact (nth_error_In allInstructionSets 10 eq_refl)|].
  case_if; [exact (nth_error_In allInstructionSets 9 eq_refl)|].
  case_if; [exact (nth_error_In allInstructionSets 8 eq_refl)|].
  case_if; [exact (nth_error_In allInstructionSets 7 eq_refl)|].
  case_if; [exact (nth_error_In allInstructionSets 6 eq_refl)|].
  case_if; [exact (nth_error_In allInstructionSets 5 eq_refl)|].
  case_if; [exact (nth_error_In allInstructionSets 4 eq_refl)|].
  case_if; [exact (nth_error_In allInstructionSets 3 eq_refl)|].
  case_if; [exact (nth_error_In allInstructionSets 2 eq_refl)|].
  case_if; [exact (nth_error_In allInstructionSets 1 eq_refl)|].
  exact (nth_error_In allInstructionSets 0 eq_refl).
Qed.

(** ** Memory-size functions *)

Section mem_size.
Context `{U : Uint256} {US : Uint256Spec U}.

Lemma calcMemSize64_u64 o l sz b : calcMemSize64 o l = (sz, b) -> is_u64 sz.
Proof.
  unfold calcMemSize64, calcMemSize64WithUint. intros H.
  repeat case_match; simplify_eq; auto with geth; done.
Qed.

Lemma memorySizeAt_ok (st : Stack) i k :
  0 <= i < len st -> 0 <= k < len st ->
  exists o l, memorySizeAt st i k = Ret (calcMemSize64 o l).
Proof.
  intros Hi Hk. unfold memorySizeAt, Back.
  destruct (index_ok st i Hi) as (o & _ & ->), (index_ok st k Hk) as (l & _ & ->). by exists o, l.
Qed.

Lemma memoryMax_u64 x y sz b : is_u64 x.1 -> is_u64 y.1 -> memoryMax x y = (sz, b) -> is_u64 sz.
Proof.
  intros Hx Hy. unfold memoryMax. repeat case_if; intros [= <- <-]; done.
Qed.

(** A memory-size function on a deep enough stack returns a [uint64]. *)
Lemma mem_fn_ok t (st : Stack) :
  mem_depth t <= len st -> exists sz b, mem_fn t st = Ret (sz, b) /\ is_u64 sz.
Proof.
  assert (Hat : forall i k, 0 <= i < len st -> 0 <= k < len st ->
    exists sz b, memorySizeAt st i k = Ret (sz, b) /\ is_u64 sz).
  { intros i k Hi Hk. destruct (memorySizeAt_ok st i k Hi Hk) as (o & l & ->).
    destruct (calcMemSize64 o l) as [sz b] eqn:E. exists sz, b. split; [done|].
    by eapply calcMemSize64_u64. }
  assert (Hone : forall n, 0 < len st ->
    exists sz b, (o ← Back st 0; Ret (calcMemSize64WithUint o n)) = Ret (sz, b) /\ is_u64 sz).
  { intros n Hl. unfold Back. destruct (index_ok st 0) as (o & _ & ->); [lia|]. cbn.
    destruct (calcMemSize64WithUint o n) as [sz b] eqn:E. exists sz, b. split; [done|].
    unfold calcMemSize64WithUint in E. repeat case_match; simplify_eq; auto with geth; done. }
  assert (Htwo : forall i k i' k', 0 <= i < len st -> 0 <= k < len st ->
    0 <= i' < len st -> 0 <= k' < len st ->
    exists sz b, (x ← memorySizeAt st i k; y ← memorySizeAt st i' k'; Ret (memoryMax x y))
      = Ret (sz, b) /\ is_u64 sz).
  { intros i k i' k' ? ? ? ?. destruct (Hat i k) as (x & bx & -> & Hx); [done..|].
    destruct (Hat i' k') as (y & b_y & -> & Hy); [done..|]. cbn.
    destruct (memoryMax _ _) as [sz b] eqn:E. exists sz, b. split; [done|].
    eapply memoryMax_u64; [| |exact E]; done. }
  intros Hd. destruct t; cbn [mem_fn mem_depth] in *;
    first [apply Hat; lia | apply Hone; lia | apply Htwo; lia | idtac].
  unfold memoryMcopy, Back.
  destruct (index_ok st 0) as (a & _ & ->); [lia|]. destruct (index_ok st 1) as (b & _ & ->); [lia|].
  destruct (index_ok st 2) as (l & _ & ->); [lia|]. cbn.
  destruct (calcMemSize64 _ l) as [sz bb] eqn:E. exists sz, bb. split; [done|].
  by eapply calcMemSize64_u64.
Qed.

(** The size the interpreter pays for is a whole number of words and covers the request. *)
Lemma memSize_ok o (st : Stack) :
  op_sound o -> op_minStack o <= len st ->
  exists n b, memSize o st = Ret (n, b) /\
    (b = false -> 0 <= n /\ n mod 32 = 0 /\ (memorySize o = None -> n = 0) /\
      forall t, memorySize o = Some t -> exists sz, mem_fn t st = Ret (sz, false) /\ sz <= n).
Proof.
  intros Ho Hl. unfold memSize.
  destruct (memorySize o) as [t|] eqn:Et.
  2: { exists 0, false. repeat split; done. }
  destruct (mem_fn_ok t st) as (sz & b & Hf & Hu).
  { pose proof (s_memdepth _ Ho _ Et). lia. }
  rewrite Hf. cbn.
  destruct b; [by exists 0, true|].
  destruct (SafeMul _ _) as [n b] eqn:E. exists n, b. split; [done|]. intros ->.
  pose proof (toWordSize_bound sz Hu). pose proof (proj1 Hu).
  apply SafeMul_ok in E as [-> ?]; [|lia..]. split; [lia|].
  rewrite Z.mod_mul by lia. split; [done|]. split; [done|].
  intros t' [= <-]. exists sz. split; [done|lia].
Qed.
End mem_size.
