(* ===== verification/EvmSafe.v ===== *)
(** * The interpreter is safe, terminates, and respects gas

    [step_ok], [loop_ok], [runWith_ok] and [evmCalls_ok] are one induction on the fuel: a frame
    whose gas is below the fuel runs to its end without running out of fuel and without a panic
    other than the tolerated ones, gives back no more gas than it had, and keeps every snapshot
    that was live before it. *)

From S2P Require Import Prelude Bytes Uint256 Params Machine Opcodes Analysis JumpTable Rlp VM GasTable Instructions Evm StateSpec Frames InstrSpec TableSpec.

#[local] Arguments wp : simpl never.
#[local] Arguments CreateAddress : simpl never.

Section evm_safe.
Context `{U : Uint256} {US : Uint256Spec U} `{C : Crypto}.
Context {S : Type} `{DB : !StateDB S} `{SP : !StateDBSpec S}.
Context (env : Env) (table : JumpTable).

(** What is assumed of the block and transaction context and of the precompiled contracts. *)
Record env_ok : Prop := {
  e_4762 : IsEIP4762 (chainRules env) = false;
  e_ctx op o : table !! op = Some o -> ctx_has env (execute o);
  e_precompile a p : precompiles env !! a = Some p ->
    forall input, data_ok input ->
      is_u64 (RequiredGas p input) /\ data_ok (Precompile_Run p input).1;
}.

Context (Henv : env_ok) (Htable : table_ok table).

(** What a frame guarantees at its end. *)
Record end_ok (f : Frame S) (res : bytes * option vmerror) (f' : Frame S) : Prop := {
  end_vm : vm_ok (vm f');
  end_rel : vm_rel (vm f) (vm f');
  end_gas : 0 <= Gas (contract f') <= Gas (contract f);
  end_data : data_ok res.1;
}.

Definition step_post (f : Frame S) (r : (bytes * option vmerror) + (bytes * option vmerror))
    (f' : Frame S) : Prop :=
  match r with
  | inr res => end_ok f res f'
  | inl res => end_ok f res f' /\
      (res.2 = None -> frame_ok f' /\ Gas (contract f') < Gas (contract f))
  end.

Lemma GetOp_ok c p :
  contract_ok c -> 0 <= p ->
  0 <= GetOp c p < 256 /\ (GetOp c p <> STOP -> p < len (Code c)).
Proof.
  intros [_ [Hb _] _ _ _] Hp. unfold GetOp. case_if; bool_to_Z; [|done].
  destruct (Code c !! Z.to_nat p) as [op|] eqn:E; [|done].
  pose proof (Forall_lookup_1 _ _ _ _ Hb E) as Ho. unfold is_byte in Ho. done.
Qed.

(** [charge] takes the cost off the contract's gas or leaves the frame alone. *)
Lemma wp_charge cost f (Q : bool -> Frame S -> Prop) :
  is_u64 (Gas (contract f)) -> 0 <= cost ->
  Q false f ->
  (cost <= Gas (contract f) ->
     Q true (set_contract (set_Gas (Gas (contract f) - cost) (contract f)) f)) ->
  wp tolerated (charge cost) Q f.
Proof.
  intros Hu Hc HF HT. unfold wp, charge. case_if; bool_to_Z; [done|].
  rewrite wrap64_small by (unfold_u64; lia). apply HT. lia.
Qed.

Lemma end_ok_early f f' e :
  vm_ok (vm f') -> vm_rel (vm f) (vm f') -> 0 <= Gas (contract f') <= Gas (contract f) ->
  end_ok f ([], e) f'.
Proof. intros. split; done. Qed.

(** Execution of an instruction whose static and dynamic cost has been paid. *)
Lemma exec_step_ok calls o n f f0 :
  op_sound o -> calls_ok (Gas (contract f0) - 1) calls ->
  frame_ok f0 -> pc f = pc f0 -> stack f = stack f0 -> vm_ok (vm f) -> vm_rel (vm f0) (vm f) ->
  (exec_code (execute o) = true -> pc f0 < len (Code (contract f0))) ->
  ctx_has env (execute o) ->
  op_minStack o <= len (stack f0) <= op_maxStack o ->
  0 <= n -> n mod 32 = 0 -> mem_charged (mem f0) n (mem f) ->
  (forall t, exec_mem (execute o) = Some t -> exists sz, mem_fn t (stack f0) = Ret (sz, false) /\ sz <= n) ->
  (exists g, contract f = set_Gas g (contract f0) /\ 0 <= g <= Gas (contract f0) /\
     (exec_halts (execute o) = true \/ g < Gas (contract f0)) /\
     (exec_creates (execute o) = true -> g < Gas (contract f0)) /\
     (exec_call (execute o) <> None ->
       is_u64 (callGasTemp (vm f)) /\ g + handed (execute o) f < Gas (contract f0))) ->
  wp tolerated
    ((if 0 <? n then st_modify (fun f => set_mem (Memory_Resize (mem f) n) f) else mret tt);;
     res ← exec_fn env calls (execute o); mret (inl res))
    (step_post f0) f.
Proof.
  intros Ho HC [Hpc Hst Hm Hc Hv] Ep Es Hv' Hrel Hcode Hrand Hl Hn H32 Hch Hmem
    (g & Ec & Hg & Hhalt & Hcr & Hca).
  set (m' := if 0 <? n then Memory_Resize (mem f) n else mem f).
  assert (Hm' : mem_ok m' /\ n <= len (store m')).
  { destruct (mem_ok_Resize (mem f0) n (mem f)) as [? ?]; try done. unfold m'.
    destruct (0 <? n) eqn:E; [done|]. bool_to_Z. assert (n = 0) as -> by lia.
    unfold Memory_Resize in *. destruct (len (store (mem f)) <? 0) eqn:E2; [|done].
    bool_to_Z. pose proof (len_nonneg (store (mem f))). lia. }
  destruct Hm' as [Hmok Hmn].
  assert (Hgo : wp tolerated (res ← exec_fn env calls (execute o); mret (inl res))
    (step_post f0) (set_mem m' f)).
  { apply wp_bind. pose proof (c_gas _ Hc) as Hu.
    assert (Hc' : contract_ok (set_Gas g (contract f0))).
    { apply contract_ok_gas; [done|]. unfold_u64; lia. }
    eapply wp_mono; [apply (exec_fn_ok env (execute o) (Gas (contract f0) - 1)); [done|]|].
    { split; cbn; rewrite ?Ec, ?Es, ?Ep; cbn; try done.
      - split; cbn; rewrite ?Ec, ?Es, ?Ep; done.
      - apply Ho.
      - pose proof (s_min _ Ho). lia.
      - destruct (s_max _ Ho) as [->|?]; lia.
      - intros t Ht. destruct (Hmem t Ht) as (sz & ? & ?). exists sz. split; [done|lia].
      - intros Hx. destruct (Hca Hx) as [? Hh]. split; [done|].
        assert (handed (execute o) (set_mem m' f) = handed (execute o) f) as -> by done.
        unfold_u64. lia.
      - intros Hx. specialize (Hcr Hx). lia. }
    intros [res err] f' [Qf Qr Qd Qg Qh]. apply wp_ret. cbn in *.
    rewrite Ec in Qg. cbn in Qg. pose proof (c_gas _ (f_contract _ Qf)) as Hu'.
    change (handed (execute o) (set_mem m' f)) with (handed (execute o) f) in Qg.
    assert (Hlt : Gas (contract f') <= Gas (contract f0) /\
                  (err = None -> Gas (contract f') < Gas (contract f0))).
    { unfold handed in *. destruct (exec_call (execute o)) as [v|].
      - destruct (Hca ltac:(done)) as [_ ?]. lia.
      - split; [lia|]. intros ->. destruct Hhalt as [Hx|?]; [by destruct (Qh Hx)|lia]. }
    destruct Hlt as [Hle Hlt]. unfold is_u64 in Hu'. split; [|intros; split; auto].
    split; cbn; [apply Qf|by etrans|lia|done]. }
  apply wp_bind. subst m'. destruct (0 <? n).
  - apply wp_modify. exact Hgo.
  - apply wp_ret. by destruct f.
Qed.

Lemma stipend_le valued charged (st : Stack) :
  implb valued charged = true -> stipend valued st <= valueCharge charged st.
Proof.
  unfold stipend, valueCharge. destruct valued, charged; cbn; try done;
    destruct (st !! 2%nat) as [w|]; try done; destruct (IsZero w); done.
Qed.

Lemma set_Gas_twice g g' c : set_Gas g (set_Gas g' c) = set_Gas g c.
Proof. done. Qed.

(** The part of a step after the static cost has been paid. *)
Definition step_tail (calls : Calls) (f0 : Frame S) (o : operation)
    : ST (Frame S) ((bytes * option vmerror) + (bytes * option vmerror)) :=
  r ← (match dynamicGas o with
       | None => mret (inl 0)
       | Some t =>
           '(memorySize, overflow) ← st_lift (memSize o (stack f0));
           if (overflow : bool) then mret (inr ErrGasUintOverflow)
           else
             '(dynamicCost, err) ← gas_fn env t memorySize;
             match err with
             | Some e => mret (inr (ErrDynamicGas e))
             | None =>
                 paid ← charge dynamicCost;
                 mret (if (paid : bool) then inl memorySize else inr ErrOutOfGas)
             end
       end);
  match r with
  | inr e => mret (inr ([], Some e))
  | inl memorySize =>
      (if 0 <? memorySize
       then st_modify (fun f => set_mem (Memory_Resize (mem f) memorySize) f)
       else mret tt);;
      res ← exec_fn env calls (execute o);
      mret (inl res)
  end.

Lemma step_tail_ok calls o f0 :
  op_sound o -> calls_ok (Gas (contract f0) - 1) calls -> frame_ok f0 ->
  (exec_code (execute o) = true -> pc f0 < len (Code (contract f0))) ->
  ctx_has env (execute o) ->
  op_minStack o <= len (stack f0) <= op_maxStack o ->
  constantGas o <= Gas (contract f0) ->
  wp tolerated (step_tail calls f0 o) (step_post f0)
    (set_contract (set_Gas (Gas (contract f0) - constantGas o) (contract f0)) f0).
Proof.
  intros Ho HC Hf Hcode Hrand Hl Hk. pose proof Hf as [Hpc Hst Hm Hc Hv].
  pose proof (c_gas _ Hc) as Hu. pose proof (s_const _ Ho) as Hku.
  set (f1 := set_contract _ f0).
  assert (Hc1 : contract_ok (contract f1)).
  { apply contract_ok_gas; [done|]. unfold_u64; lia. }
  unfold step_tail. apply wp_bind. destruct (dynamicGas o) as [t|] eqn:Ed.
  - destruct (s_dynamic _ Ho t Ed) as (Hgd & Hgm & Hcall & Hpos).
    destruct (memSize_ok o (stack f0) Ho) as (n & b & Hms & Hn); [lia|]. rewrite Hms.
    apply wp_bind, wp_ret. destruct b.
    { do 2 apply wp_ret. apply end_ok_early; [done..|]. cbn. unfold_u64. lia. }
    destruct (Hn eq_refl) as (Hn0 & Hn32 & Hnone & Hsome). apply wp_bind.
    eapply wp_mono; [apply (gas_fn_ok env (e_4762 Henv) t n f1);
      [exact Hm|exact Hc1|exact Hv|done|done|cbn; lia]|].
    intros [cost err] f2 [[Gp Gs Gv Gr (g2 & Gc & Gg)] Hok]. cbn in Gp, Gs, Gr, Gc, Gg, Hok.
    destruct err as [e|].
    { do 2 apply wp_ret. apply end_ok_early; [done..|]. rewrite Gc. cbn. unfold_u64. lia. }
    destruct Hok as [O1 O2 O3 O4 O5]. cbn in O2, O3, O5.
    apply wp_bind, wp_charge; rewrite ?O2; cbn; [unfold_u64; lia|unfold_u64; lia| |].
    { do 2 apply wp_ret. apply end_ok_early; [done..|]. rewrite O2. cbn. unfold_u64; lia. }
    intros Hpay. apply wp_ret.
    assert (Hcost : 0 <= cost) by (unfold_u64; lia).
    eapply (exec_step_ok calls o n); try done.
    + destruct (gas_mem t) eqn:Eg; cbn; [done|]. rewrite O3.
      assert (memorySize o = None) as Hz by (destruct (memorySize o); [by discriminate Hgm|done]).
      specialize (Hnone Hz) as ->. split; [done|]. split; [done|].
      pose proof (len_nonneg (store (mem f0))). rewrite Z.max_l by lia. apply Hm.
    + intros mt Hmt. apply Hsome. rewrite (s_mem _ Ho). done.
    + exists (Gas (contract f0) - constantGas o - cost). cbn. rewrite ?O2. split; [done|].
      split; [unfold_u64; lia|]. pose proof (proj1 Hku).
      split; [|split].
      * destruct Hpos as [?|[Hp|?]]; [right; lia|right; specialize (O4 Hp); lia|by left].
      * intros Hx. pose proof (s_calls _ Ho (or_intror Hx)). lia.
      * intros Hx. pose proof (s_calls _ Ho (or_introl Hx)).
        destruct (exec_call (execute o)) as [valued|] eqn:Ev; [|done].
        destruct (Hcall valued eq_refl) as (charged & Eg & Himp).
        destruct (O5 charged Eg) as [? Hle]. split; [done|]. unfold handed. rewrite Ev. cbn.
        rewrite Gs. pose proof (stipend_le valued charged (stack f0) Himp). lia.
  - destruct (s_static _ Ho Ed) as (Hmem & Hcall & Hpos). apply wp_ret.
    eapply (exec_step_ok calls o 0); try done; cbn.
    + split; [done|]. split; [done|]. pose proof (len_nonneg (store (mem f0))).
      rewrite Z.max_l by lia. apply Hm.
    + intros mt Hmt. rewrite <- (s_mem _ Ho), Hmem in Hmt. done.
    + exists (Gas (contract f0) - constantGas o). split; [done|]. split; [unfold_u64; lia|].
      split; [destruct Hpos; [right; lia|by left]|]. split; [|by rewrite Hcall].
      intros Hx. pose proof (s_calls _ Ho (or_intror Hx)). lia.
Qed.

Lemma step_ok calls f :
  frame_ok f -> calls_ok (Gas (contract f) - 1) calls ->
  wp tolerated (step env table calls) (step_post f) f.
Proof.
  intros Hf HC. pose proof Hf as [Hpc Hst Hm Hc Hv]. pose proof (c_gas _ Hc) as Hu.
  unfold step. apply wp_bind, wp_gets. rewrite (e_4762 Henv). cbn [andb].
  apply wp_bind, wp_get.
  destruct (GetOp_ok (contract f) (pc f) Hc Hpc) as [Hop Hnz].
  destruct (t_ops _ Htable _ Hop) as (o & Eo & Ho). rewrite Eo.
  assert (Hend : forall e, end_ok f ([], e) f).
  { intros e. apply end_ok_early; [done|reflexivity|unfold_u64; lia]. }
  case_if; bool_to_Z; [apply wp_ret, Hend|]. case_if; bool_to_Z; [apply wp_ret, Hend|].
  apply wp_bind, wp_charge; [done|apply (s_const _ Ho)|apply wp_ret, Hend|]. intros Hpay.
  apply (step_tail_ok calls o f); try done.
  - intros Hx. apply Hnz. intros E. rewrite E in Eo.
    destruct (t_stop _ Htable) as (o' & Eo' & Hs). rewrite Eo in Eo'. injection Eo' as <-.
    by rewrite Hs in Hx.
  - exact (e_ctx Henv _ _ Eo).
Qed.

(** ** Frames *)

(** A loop that is safe for frames with less than [n] gas. *)
Definition loop_spec (n : Z) (l : ST (Frame S) (bytes * option vmerror)) : Prop :=
  forall f, frame_ok f -> Gas (contract f) < n -> wp tolerated l (end_ok f) f.

(** A run that was asked to be read-only leaves the world alone. *)
Definition run_post (ro : bool) (c : Contract) (v : VM S) (r : Contract * bytes * option vmerror)
    (v' : VM S) :=
  vm_ok v' /\ vm_rel v v' /\ 0 <= Gas r.1.1 <= Gas c /\ data_ok r.1.2 /\
  (ro = true -> same_world (statedb v) (statedb v')).

Definition run_spec (n : Z) (run : Contract -> bytes -> bool -> ST (VM S) (Contract * bytes * option vmerror)) :=
  forall c input ro v, contract_ok c -> Gas c < n -> data_ok input -> vm_ok v ->
    wp tolerated (run c input ro) (run_post ro c v) v.

Lemma runWith_ok n l : loop_spec n l -> run_spec n (runWith l).
Proof.
  intros Hl c input ro v Hc Hn Hi [Hd Hj Hr]. unfold wp, runWith.
  pose proof (c_gas _ Hc) as Hu.
  set (v1 := vm_set_returnData [] _).
  assert (Hv1 : vm_ok v1).
  { unfold v1. destruct (ro && _); split; cbn; auto with geth. }
  assert (Hleave : forall v2, vm_rel v1 v2 -> vm_ok v2 ->
    let v3 := vm_set_depth (depth (if ro && negb (readOnly (vm_set_depth (depth v + 1) v))
      then vm_set_readOnly false v2 else v2) - 1)
      (if ro && negb (readOnly (vm_set_depth (depth v + 1) v)) then vm_set_readOnly false v2 else v2) in
    vm_ok v3 /\ vm_rel v v3 /\ (ro = true -> same_world (statedb v) (statedb v3))).
  { intros v2 [K D R] [Hd2 Hj2 Hr2]. unfold v1 in *.
    destruct ro, (readOnly v) eqn:Er; cbn in *; rewrite ?Er in *; cbn in *;
      (split; [by split|split; [split; cbn; [|lia|congruence]|]]); rewrite ?Er; try done;
      try apply K; by (eapply rel_weaken; [|exact K]). }
  destruct (len (Code c) =? 0).
  { destruct (Hleave v1) as (? & ? & ?); [reflexivity|done|]. split; [done|]. split; [done|].
    cbn. unfold_u64. split_and!; auto with geth lia. }
  pose proof (Hl (mkFrame 0 [] NewMemory (set_Input input c) v1)) as H.
  unfold wp in H. destruct (l _) as [[[res err] f]|e].
  - destruct H as [Ev Er Eg Ed]; [|done|].
    { split; cbn; [done|done|apply mem_ok_new| |done]. destruct Hc. by split. }
    destruct (Hleave (vm f)) as (? & ? & ?); [done|done|]. unfold run_post. cbn in *.
    split_and!; done || lia.
  - apply H; [|done]. split; cbn; [done|done|apply mem_ok_new| |done]. destruct Hc. by split.
Qed.

(** ** The entry points *)

(** [w]: is the caller of the rule obliged to leave the world alone? *)
Section vm_rules.
Context (s : S) (d t : Z) (j : gmap Z bitvec) (al : list bool) (ro : bool) (rd : bytes).
Context (w : bool).

Lemma wp_vm_db {A} (r : sdbE A) (Q : A -> VM S -> Prop) :
  db_ok s -> req_ok r -> (w = true -> neutral r = true) ->
  (forall x s', sdb r s = Ret (x, s') -> db_ok s' -> rel w s s' -> Q x (mkVM s' d t j al ro rd)) ->
  wp tolerated (vm_db r) Q (mkVM s d t j al ro rd).
Proof.
  intros Hs Hr Hw HQ. pose proof (sdb_step A r s Hs Hr) as H.
  unfold wp, vm_db. cbn. destruct (sdb r s) as [[x s']|e] eqn:E; [|by left; destruct H].
  destruct H. apply HQ; [done|done|]. split; [done|].
  intros ?. eapply sdb_world; [done| |done]. by apply Hw.
Qed.

(** A read: the observable state is unchanged. *)
Lemma wp_vm_read {A} (r : sdbE A) (Q : A -> VM S -> Prop) :
  db_ok s -> req_ok r -> is_read r = true ->
  (forall x s', sdb r s = Ret (x, s') -> db_ok s' -> rel w s s' -> same_state s s' ->
     (forall a, codes s' a = codes s a) -> Q x (mkVM s' d t j al ro rd)) ->
  wp tolerated (vm_db r) Q (mkVM s d t j al ro rd).
Proof.
  intros Hs Hr Hread HQ. apply wp_vm_db; [done..|by destruct r|]. intros x s' Hx ??.
  destruct (sdb_read _ _ _ _ _ Hs Hread Hx) as [??]. by apply HQ.
Qed.
End vm_rules.

(** The code an account runs: its own, or after Prague that of the account it delegates to. *)
Definition resolved (code : Address -> bytes) (addr : Address) : bytes :=
  if IsPrague (chainRules env) then
    match ParseDelegation (code addr) with Some target => code target | None => code addr end
  else code addr.

Lemma resolved_ext code code' addr :
  (forall a, code' a = code a) -> resolved code' addr = resolved code addr.
Proof.
  intros H. unfold resolved. rewrite H. destruct (IsPrague _); [|done].
  by destruct (ParseDelegation _).
Qed.

Lemma wp_resolveCode w addr s d t j al ro rd (Q : bytes -> VM S -> Prop) :
  db_ok s ->
  (forall s', db_ok s' -> rel w s s' -> (forall a, codes s' a = codes s a) ->
     data_ok (resolved (codes s) addr) -> Q (resolved (codes s) addr) (mkVM s' d t j al ro rd)) ->
  wp tolerated (resolveCode env addr) Q (mkVM s d t j al ro rd).
Proof.
  intros Hs HQ. unfold resolveCode. apply wp_bind, (wp_vm_read _ _ _ _ _ _ _ w); [done..|].
  intros code s1 Hcode Hs1 K1 _ C1.
  destruct (sdb_code _ _ _ _ Hs Hcode) as (-> & Hd & _). unfold resolved in HQ.
  destruct (IsPrague _); cbn [negb]; [|by apply wp_ret, HQ].
  destruct (ParseDelegation _) as [target|]; [|by apply wp_ret, HQ].
  apply (wp_vm_read _ _ _ _ _ _ _ w); [done..|]. intros code2 s2 Hcode2 Hs2 K2 _ C2.
  destruct (sdb_code _ _ _ _ Hs1 Hcode2) as (-> & Hd2 & _). rewrite C1 in *.
  apply HQ; [done|by etrans| |done]. intros a. by rewrite C2, C1.
Qed.

Lemma wp_resolveCodeHash w addr s d t j al ro rd (Q : Hash -> VM S -> Prop) :
  db_ok s ->
  (forall h s', db_ok s' -> rel w s s' -> (forall a, codes s' a = codes s a) ->
     h = 0 \/ h = Keccak256 (resolved (codes s) addr) -> Q h (mkVM s' d t j al ro rd)) ->
  wp tolerated (resolveCodeHash env addr) Q (mkVM s d t j al ro rd).
Proof.
  intros Hs HQ.
  assert (Hlast : forall a s1, db_ok s1 -> rel w s s1 -> (forall a, codes s1 a = codes s a) ->
    resolved (codes s) addr = codes s a ->
    wp tolerated (vm_db (GetCodeHash a)) Q (mkVM s1 d t j al ro rd)).
  { intros a s1 Hs1 K1 C1 Hr. apply (wp_vm_read _ _ _ _ _ _ _ w); [done..|]. intros h s2 Hh Hs2 K2 _ C2.
    apply HQ; [done|by etrans|intros x; by rewrite C2, C1|]. rewrite Hr, <- C1.
    by eapply (sdb_codehash _ _ _ _ Hs1 Hh). }
  unfold resolveCodeHash. unfold resolved in Hlast.
  destruct (IsPrague _); [|by apply Hlast; [|reflexivity|..]].
  apply wp_bind, (wp_vm_read _ _ _ _ _ _ _ w); [done..|]. intros code s1 Hcode Hs1 K1 _ C1.
  destruct (sdb_code _ _ _ _ Hs Hcode) as [-> _].
  destruct (ParseDelegation _) as [target|]; by apply Hlast.
Qed.

(** The whole contract of a call. *)
Definition call_full (gas : Z) (v : VM S) (r : bytes * Z * option vmerror) (v' : VM S) : Prop :=
  call_post gas v r v' /\
  forall e, r.2 = Some e ->
    same_state (statedb v) (statedb v') /\
    (e <> ErrExecutionReverted -> e <> ErrDepth -> e <> ErrInsufficientBalance -> r.1.2 = 0).

Lemma wp_finishCall w id s0 gas (v v0 : VM S) ret left err :
  vm_ok v -> depth v = depth v0 -> readOnly v = readOnly v0 -> (readOnly v0 = true -> w = true) ->
  rel w (statedb v0) s0 -> same_state (statedb v0) s0 -> rel w (statedb v0) (statedb v) ->
  reverts_to id (statedb v) s0 -> 0 <= left <= gas -> data_ok ret ->
  wp tolerated (finishCall id (ret, left, err))
    (fun r v' => call_full gas v0 r v' /\ rel w (statedb v0) (statedb v')) v.
Proof.
  intros [Hd Hj Hr] Ed Er Hw K0 Hsame Kv Hrev Hleft Hret. unfold finishCall.
  destruct err as [e|].
  - apply wp_bind. unfold wp, vm_db.
    destruct (sdb_revert id (statedb v) s0 Hd Hrev) as (s' & -> & Hd' & Hs' & K'). cbn.
    unfold wp, call_full, call_post. cbn.
    assert (Hst : same_state (statedb v0) s') by (etrans; done).
    assert (K : rel w (statedb v0) s') by (eapply rel_trans; [exact K0|by apply rel_same]).
    split; [split|done].
    + split; [by split|]. split; [split; [by eapply rel_weaken|done..]|].
      split; [case_bool_decide; lia|done].
    + intros e' [= <-]. split; [done|]. intros Hne _ _. by rewrite bool_decide_eq_false_2.
  - apply wp_ret. unfold call_full, call_post. cbn. split; [|done]. split; [|done].
    split; [by split|]. split; [split; [by eapply rel_weaken|done..]|done].
Qed.

Lemma RunPrecompiledContract_ok addr p input gas :
  precompile env addr = Some p -> data_ok input -> is_u64 gas ->
  let r := RunPrecompiledContract p input gas in 0 <= r.1.2 <= gas /\ data_ok r.1.1.
Proof.
  intros Hp Hi Hg. destruct (e_precompile Henv _ _ Hp input Hi) as [Hu Hd].
  unfold RunPrecompiledContract. case_if; bool_to_Z.
  - cbn. split; [unfold_u64; lia|auto with geth].
  - destruct (Precompile_Run p input) as [out err]. cbn in *.
    rewrite wrap64_small by (unfold_u64; lia). unfold_u64. split; [lia|done].
Qed.

(** A contract as the entry points build it. *)
Lemma contract_ok_new c hash code :
  is_u64 (Gas c) -> Input c = [] -> analysis c = None -> data_ok code ->
  hash = 0 \/ hash = Keccak256 code -> contract_ok (SetCallCode c hash code).
Proof.
  intros Hg Hi Ha Hc Hh. split; cbn; try done; [by rewrite Hi; auto with geth|].
  intros a. by rewrite Ha.
Qed.

Section with_run.
Context (n : Z) (run : Contract -> bytes -> bool -> ST (VM S) (Contract * bytes * option vmerror)).
Context (Hrun : run_spec n run).

Lemma wp_runContract c input ro v (Q : bytes * Z * option vmerror -> VM S -> Prop) :
  contract_ok c -> Gas c < n -> data_ok input -> vm_ok v ->
  (forall ret left err v', vm_ok v' -> vm_rel v v' -> 0 <= left <= Gas c -> data_ok ret ->
     (ro = true -> same_world (statedb v) (statedb v')) -> Q (ret, left, err) v') ->
  wp tolerated (runContract run c input ro) Q v.
Proof.
  intros Hc Hn Hi Hv HQ. unfold runContract. apply wp_bind.
  eapply wp_mono; [by apply Hrun|]. intros [[c' ret] err] v' (Hv' & Hrel & Hg & Hd & Hw).
  apply wp_ret. by apply HQ.
Qed.

(** What the variants of a call do between the snapshot and the end. *)
Definition callBody (id : Z) (addr : Address) (c : Contract) (input : bytes) (gas : Z) (ro : bool)
    : ST (VM S) (bytes * Z * option vmerror) :=
  r ← (match precompile env addr with
       | Some p => mret (RunPrecompiledContract p input gas)
       | None =>
           hash ← resolveCodeHash env addr;
           code ← resolveCode env addr;
           runContract run (SetCallCode c hash code) input ro
       end);
  finishCall id r.

Lemma run_rel (w ro : bool) (v v' : VM S) :
  vm_rel v v' -> (ro = true -> same_world (statedb v) (statedb v')) ->
  (w = true -> ro = true \/ readOnly v = true) -> rel w (statedb v) (statedb v').
Proof.
  intros [[K W] _ _] Hro Hw. split; [done|]. intros E. destruct (Hw E); auto.
Qed.

Lemma wp_callBody w id addr c input gas ro (v v0 : VM S) s0 :
  Gas c = gas -> Input c = [] -> analysis c = None -> is_u64 gas -> gas < n -> data_ok input ->
  vm_ok v -> depth v = depth v0 -> readOnly v = readOnly v0 ->
  (readOnly v0 = true -> w = true) -> (w = true -> ro = true \/ readOnly v0 = true) ->
  rel w (statedb v0) s0 -> same_state (statedb v0) s0 -> rel w (statedb v0) (statedb v) ->
  reverts_to id (statedb v) s0 ->
  wp tolerated (callBody id addr c input gas ro)
    (fun r v' => call_full gas v0 r v' /\ rel w (statedb v0) (statedb v')) v.
Proof.
  intros Hcg Hci Hca Hg Hn Hi [Hd Hj Hr] Ed Er Hw Hw' K0 Hs0 Kv Hrev.
  unfold callBody. apply wp_bind.
  destruct (precompile env addr) as [p|] eqn:Hp.
  { apply wp_ret. pose proof (RunPrecompiledContract_ok addr p input gas Hp Hi Hg) as [Hl Hdat].
    destruct (RunPrecompiledContract p input gas) as [[ret left] err]. cbn in *.
    by apply (wp_finishCall w id s0); [split|..]. }
  destruct v as [s d t j al ro' rd]. cbn in *.
  apply wp_bind, (wp_resolveCodeHash w); [done|]. intros h s1 Hs1 K1 C1 Hh.
  apply wp_bind, (wp_resolveCode w); [done|]. intros s2 Hs2 K2 C2 Hcode.
  rewrite (resolved_ext (codes s) (codes s1)) in * by done.
  apply wp_runContract; cbn; [apply contract_ok_new; by subst|by subst|done|by split|].
  intros ret left err v' Hv' Hrel Hl Hdat Hwr.
  assert (Kr : rel w s2 (statedb v')).
  { eapply (run_rel w ro _ _ Hrel Hwr). cbn. by rewrite Er. }
  destruct Hrel as [_ Dr Rr]. cbn in *. subst gas.
  apply (wp_finishCall w id s0); try done; [congruence|congruence|solve_rel|].
  eapply rel_live; [|exact Hrev]. solve_rel.
Qed.

Lemma call_early gas v v' ret e :
  vm_ok v' -> vm_rel v v' -> 0 <= gas -> same_state (statedb v) (statedb v') ->
  data_ok ret -> e = None \/ e = Some ErrDepth \/ e = Some ErrInsufficientBalance ->
  call_full gas v (ret, gas, e) v'.
Proof.
  intros Hv Hr Hg Hs Hd He. unfold call_full, call_post. cbn. split; [split_and!; done || lia|].
  intros e' ->. split; [done|]. destruct He as [?|[?|?]]; congruence.
Qed.

Lemma wp_CanTransfer w addr amount s d t j al ro rd (Q : bool -> VM S -> Prop) :
  db_ok s ->
  (forall b s', db_ok s' -> rel w s s' -> same_state s s' -> Q b (mkVM s' d t j al ro rd)) ->
  wp tolerated (CanTransfer addr amount) Q (mkVM s d t j al ro rd).
Proof.
  intros Hs HQ. unfold CanTransfer. apply wp_bind, (wp_vm_read _ _ _ _ _ _ _ w); [done..|].
  intros b s' _ ????. apply wp_ret. by apply HQ.
Qed.

Lemma wp_Transfer w a b amount s d t j al ro rd (Q : unit -> VM S -> Prop) :
  db_ok s -> (w = true -> IsZero amount = true) ->
  (forall s', db_ok s' -> rel w s s' -> Q tt (mkVM s' d t j al ro rd)) ->
  wp tolerated (Transfer a b amount) Q (mkVM s d t j al ro rd).
Proof.
  intros Hs Hz HQ. unfold Transfer.
  apply wp_bind, (wp_vm_db _ _ _ _ _ _ _ w); [done..|]. intros _ s1 _ ??.
  apply wp_bind, (wp_vm_db _ _ _ _ _ _ _ w); [done..|]. intros _ s2 _ ??.
  apply wp_ret, HQ; [done|by eapply rel_trans].
Qed.

Lemma DelegateCall_full origin caller addr input gas value v :
  is_u64 gas -> gas < n -> data_ok input -> vm_ok v ->
  wp tolerated (DelegateCall env run origin caller addr input gas value) (call_full gas v) v.
Proof.
  intros Hg Hn Hi [Hd Hj Hr]. unfold DelegateCall. apply wp_bind, wp_gets. case_if.
  { apply wp_ret, call_early; auto with geth; [by split|reflexivity|apply Hg|reflexivity]. }
  destruct v as [s d t j al ro rd]. cbn in *.
  apply wp_bind, (wp_vm_read _ _ _ _ _ _ _ ro); [done..|]. intros id s1 Hsn Hs1 K1 S1 _.
  eapply wp_mono; [apply (wp_callBody ro id addr (NewContract origin caller value gas) input
    gas false) with (s0 := s) (v0 := mkVM s d t j al ro rd)|by intros ?? [? _]];
    cbn; auto; first [by split | by eapply sdb_snapshot | apply rel_refl | reflexivity].
Qed.

Lemma CallCode_full caller addr input gas value v :
  is_u64 gas -> gas < n -> data_ok input -> vm_ok v ->
  wp tolerated (CallCode env run caller addr input gas value) (call_full gas v) v.
Proof.
  intros Hg Hn Hi [Hd Hj Hr]. unfold CallCode. apply wp_bind, wp_gets. case_if.
  { apply wp_ret, call_early; auto with geth; [by split|reflexivity|apply Hg|reflexivity]. }
  destruct v as [s d t j al ro rd]. cbn in *.
  apply wp_bind, (wp_CanTransfer ro); [done|]. intros can s1 Hs1 K1 S1. case_if.
  { apply wp_ret, call_early; cbn; auto with geth; [by split..|apply Hg]. }
  apply wp_bind, (wp_vm_read _ _ _ _ _ _ _ ro); [done..|]. intros id s2 Hsn Hs2 K2 S2 _.
  eapply wp_mono; [apply (wp_callBody ro id addr (NewContract caller caller value gas) input
    gas false) with (s0 := s1) (v0 := mkVM s d t j al ro rd)|by intros ?? [? _]];
    cbn; auto; first [by split | by eapply sdb_snapshot | by eapply rel_trans].
Qed.

(** A static call leaves the world alone, whatever the caller's mode. *)
Lemma StaticCall_full caller addr input gas v :
  is_u64 gas -> gas < n -> data_ok input -> vm_ok v ->
  wp tolerated (StaticCall env run caller addr input gas)
    (fun r v' => call_full gas v r v' /\ rel true (statedb v) (statedb v')) v.
Proof.
  intros Hg Hn Hi [Hd Hj Hr]. unfold StaticCall. apply wp_bind, wp_gets. case_if.
  { apply wp_ret. split; [|apply rel_refl].
    apply call_early; auto with geth; [by split|reflexivity|apply Hg|reflexivity]. }
  destruct v as [s d t j al ro rd]. cbn in *.
  apply wp_bind, (wp_vm_read _ _ _ _ _ _ _ true); [done..|]. intros id s1 Hsn Hs1 K1 S1 _.
  apply wp_bind, (wp_vm_db _ _ _ _ _ _ _ true); [done..| |].
  { intros _. cbn. apply IsZero_wzero. }
  intros _ s2 _ Hs2 K2.
  apply (wp_callBody true id addr (NewContract caller addr wzero gas) input gas true)
    with (s0 := s) (v0 := mkVM s d t j al ro rd); cbn; auto.
  - by split.
  - apply rel_refl.
  - reflexivity.
  - by eapply rel_trans.
  - eapply rel_live; [exact K2|]. by eapply sdb_snapshot.
Qed.

(** A conditional method call. *)
Lemma wp_vm_when w (b : bool) (r : sdbE unit) s d t j al ro rd (Q : unit -> VM S -> Prop) :
  db_ok s -> req_ok r -> (w = true -> neutral r = true) ->
  (forall s', db_ok s' -> rel w s s' -> Q tt (mkVM s' d t j al ro rd)) ->
  wp tolerated (if b then vm_db r else mret tt) Q (mkVM s d t j al ro rd).
Proof.
  intros Hs Hr Hw HQ. destruct b.
  - apply (wp_vm_db _ _ _ _ _ _ _ w); [done..|]. intros [] s' _ ??. by apply HQ.
  - apply wp_ret. by apply HQ.
Qed.

Lemma wp_eip4762 (b : bool) v (Q : unit -> VM S -> Prop) :
  Q tt v -> wp tolerated (if b then eip4762 env else mret tt) Q v.
Proof. intros HQ. unfold eip4762. rewrite (e_4762 Henv). by destruct b. Qed.

(** [CreateAccount] when [Exist] has just said that the account is missing. *)
Lemma wp_createMissing w a (ex : bool) s d t j al ro rd (Q : unit -> VM S -> Prop) :
  db_ok s -> (existing s a <-> ex = true) ->
  (forall s', db_ok s' -> rel w s s' -> existing s' a -> Q tt (mkVM s' d t j al ro rd)) ->
  wp tolerated (if negb ex then vm_db (CreateAccount a) else mret tt) Q (mkVM s d t j al ro rd).
Proof.
  intros Hs Hex HQ. destruct ex; cbn [negb].
  - apply wp_ret, HQ; [done|done|by apply Hex].
  - destruct (sdb_createAccount a s Hs) as (s' & E & ? & ? & ? & ?); [by rewrite Hex|].
    unfold wp, vm_db. cbn. rewrite E. apply HQ; [done|by split|done].
Qed.

Lemma wp_createContract a s d t j al ro rd (Q : unit -> VM S -> Prop) :
  db_ok s -> existing s a ->
  (forall s', db_ok s' -> rel false s s' -> Q tt (mkVM s' d t j al ro rd)) ->
  wp tolerated (vm_db (CreateContract a)) Q (mkVM s d t j al ro rd).
Proof.
  intros Hs Hex HQ. destruct (sdb_createContract a s Hs Hex) as (s' & E & ? & ?).
  unfold wp, vm_db. cbn. rewrite E. apply HQ; [done|by split].
Qed.

Lemma wp_setCode a code s d t j al ro rd (Q : bytes -> VM S -> Prop) :
  db_ok s -> fresh s a -> data_ok code ->
  (forall prev s', db_ok s' -> rel false s s' -> Q prev (mkVM s' d t j al ro rd)) ->
  wp tolerated (vm_db (SetCode a code)) Q (mkVM s d t j al ro rd).
Proof.
  intros Hs Hf Hc HQ. destruct (sdb_setCode a code s Hs Hf Hc) as (prev & s' & E & ? & ?).
  unfold wp, vm_db. cbn. rewrite E. apply HQ; [done|by split].
Qed.

(** What [Call] runs: the precompile, nothing for an account without code, or the code. *)
Definition callTarget (caller addr : Address) (input : bytes) (gas : Z) (value : word)
    : ST (VM S) (bytes * Z * option vmerror) :=
  match precompile env addr with
  | Some p => mret (RunPrecompiledContract p input gas)
  | None =>
      code ← resolveCode env addr;
      if len code =? 0 then mret ([], gas, None)
      else
        hash ← resolveCodeHash env addr;
        let contract := set_IsSystemCall (isSystemCall caller)
                          (NewContract caller addr value gas) in
        runContract run (SetCallCode contract hash code) input false
  end.

Lemma wp_callTarget caller addr input gas value (v : VM S)
    (Q : bytes * Z * option vmerror -> VM S -> Prop) :
  is_u64 gas -> gas < n -> data_ok input -> vm_ok v ->
  (forall ret left err v', vm_ok v' -> vm_rel v v' -> 0 <= left <= gas -> data_ok ret ->
     Q (ret, left, err) v') ->
  wp tolerated (callTarget caller addr input gas value) Q v.
Proof.
  intros Hg Hn Hi Hv HQ. unfold callTarget. destruct (precompile env addr) as [p|] eqn:Hp.
  { apply wp_ret. pose proof (RunPrecompiledContract_ok addr p input gas Hp Hi Hg) as [Hl Hdat].
    destruct (RunPrecompiledContract p input gas) as [[ret left] err]. by apply HQ. }
  destruct v as [s d t j al ro rd], Hv as [Hd Hj Hr]. cbn in *.
  apply wp_bind, (wp_resolveCode ro); [done|]. intros s6 Hs6 K6 C6 Hcode. case_if.
  { apply wp_ret, HQ; [by split|by split|split; [apply Hg|done]|auto with geth]. }
  apply wp_bind, (wp_resolveCodeHash ro); [done|]. intros h s7 Hs7 K7 C7 Hh.
  rewrite (resolved_ext (codes s) (codes s6)) in Hh by done.
  apply wp_runContract; cbn; [by apply contract_ok_new|done|done|by split|].
  intros ret left err v' Hv' [Kr Dr Rr] Hl Hdat _. apply HQ; try done.
  split; cbn in *; [solve_rel|done..].
Qed.

(** [Call] once the balance has been checked. *)
Lemma wp_callMain caller addr input gas value (v0 : VM S) s d t j al ro rd :
  is_u64 gas -> gas < n -> data_ok input -> cache_ok j -> data_ok rd -> db_ok s ->
  d = depth v0 -> ro = readOnly v0 -> (ro = true -> IsZero value = true) ->
  rel ro (statedb v0) s -> same_state (statedb v0) s ->
  wp tolerated
    (snapshot ← vm_db Snapshot;
     exist ← vm_db (Exist addr);
     (if negb (exist : bool) && bool_decide (precompile env addr = None)
         && negb (isSystemCall caller)
      then eip4762 env else mret tt);;
     if negb exist && bool_decide (precompile env addr = None) && IsEIP158 (chainRules env)
        && IsZero value
     then mret ([], gas, None)
     else
       (if negb exist then vm_db (CreateAccount addr) else mret tt);;
       Transfer caller addr value;;
       r ← callTarget caller addr input gas value;
       finishCall snapshot r)
    (call_full gas v0) (mkVM s d t j al ro rd).
Proof.
  intros Hg Hn Hi Hj Hr Hs -> Ero Hz K0 S0.
  apply wp_bind, (wp_vm_read _ _ _ _ _ _ _ ro); [done..|]. intros id s2 Hsn Hs2 K2 S2 _.
  apply sdb_snapshot in Hsn; [|done].
  apply wp_bind, (wp_vm_read _ _ _ _ _ _ _ ro); [done..|]. intros exist s3 Hex Hs3 K3 S3 _.
  apply sdb_exist in Hex; [|done].
  apply wp_bind, wp_eip4762. case_if.
  { apply wp_ret, call_early; cbn; auto with geth; [by split| |apply Hg|by do 2 (etrans; [done|])].
    split; cbn; rewrite <- ?Ero; [|done..]. solve_rel. }
  apply wp_bind, (wp_createMissing ro addr exist); [done..|]. intros s4 Hs4 K4 _.
  apply wp_bind, (wp_Transfer ro); [done..|]. intros s5 Hs5 K5.
  assert (K : rel ro (statedb v0) s5) by solve_rel.
  assert (Hrev : reverts_to id s5 s) by (eapply rel_live; [|exact Hsn]; solve_rel).
  apply wp_bind, wp_callTarget; [done..|by split|].
  intros ret left err v' Hv' [Kr Dr Rr] Hl Hdat. cbn in *.
  eapply wp_mono; [apply (wp_finishCall ro id s gas _ v0); try done|by intros ?? [? _]].
  - congruence.
  - by rewrite <- Ero.
  - solve_rel.
  - by eapply rel_live.
Qed.

Lemma Call_full caller addr input gas value v :
  is_u64 gas -> gas < n -> data_ok input -> vm_ok v ->
  (readOnly v = true -> IsZero value = true) ->
  wp tolerated (Call env run caller addr input gas value) (call_full gas v) v.
Proof.
  intros Hg Hn Hi [Hd Hj Hr] Hz. unfold Call. apply wp_bind, wp_gets. case_if.
  { apply wp_ret, call_early; auto with geth; [by split|reflexivity|apply Hg|reflexivity]. }
  destruct v as [s d t j al ro rd]. cbn in *. apply wp_bind. case_if.
  - apply (wp_CanTransfer ro); [done|]. intros can s1 Hs1 K1 S1. case_if.
    { apply wp_ret, call_early; cbn; auto with geth; [by split..|apply Hg]. }
    by apply wp_callMain.
  - apply wp_ret. by apply wp_callMain.
Qed.

(** ** Creation *)

Lemma UseGas_ok c g : is_u64 (Gas c) -> 0 <= g ->
  0 <= Gas (UseGas c g).2 <= Gas c.
Proof.
  intros Hu Hg. unfold UseGas. case_if; bool_to_Z; cbn; unfold_u64; [lia|].
  rewrite Z.mod_small; lia.
Qed.

Lemma initNewContract_ok c addr v :
  contract_ok c -> Gas c < n -> vm_ok v -> fresh (statedb v) addr -> readOnly v = false ->
  wp tolerated (initNewContract env run c addr) (run_post false c v) v.
Proof.
  intros Hc Hn Hv Hfr Hro. pose proof (c_gas _ Hc) as Hu. unfold initNewContract. apply wp_bind.
  eapply wp_mono; [apply Hrun; auto with geth|].
  intros [[c' ret] err] v' (Hv' & Hrel & Hg & Hd & _). cbn in *.
  assert (Hpost : forall e, run_post false c v (c', ret, e) v') 
    by (intros e; unfold run_post; cbn; split_and!; done || lia).
  case_if; [by apply wp_ret|]. case_if; [by apply wp_ret|]. case_if; [by apply wp_ret|].
  apply wp_bind, (wp_eip4762 true).
  pose proof (UseGas_ok c' (len ret *! CreateDataGas)) as Hg2.
  destruct (UseGas c' _) as [paid c2]. cbn in Hg2.
  assert (0 <= Gas c2 <= Gas c).
  { destruct Hg2; [unfold_u64; lia|apply wrap64_range|lia]. }
  case_if; [apply wp_ret; unfold run_post; cbn; split_and!; done || lia|].
  destruct v' as [s d t j al ro rd]. destruct Hv' as [Hs' Hj' Hr'], Hrel as [K D R]. rewrite Hro in *. cbn in *.
  apply wp_bind, wp_setCode; [done|by eapply rel_fresh|done|]. intros _ s2 Hs2 K2.
  apply wp_ret. unfold run_post. cbn.
  split_and!; try done; try lia. split; cbn; rewrite ?Hro; [by eapply rel_trans|done..].
Qed.

(** [create] from the snapshot on. *)
Definition deploy (caller : Address) (code : bytes) (gas : Z) (value : word)
    (address : Address) : ST (VM S) (bytes * Address * Z * option vmerror) :=
  snapshot ← vm_db Snapshot;
  exist ← vm_db (Exist address);
  (if negb (exist : bool) then vm_db (CreateAccount address) else mret tt);;
  vm_db (CreateContract address);;
  (if IsEIP158 (chainRules env) then vm_db (SetNonce address 1) else mret tt);;
  eip4762 env;;
  Transfer caller address value;;
  let contract := set_IsDeployment true
    (SetCallCode (NewContract caller address value gas) 0 code) in
  '(contract, ret, err) ← initNewContract env run contract address;
  contract ←
    (if negb (bool_decide (err = None)) &&
        (IsHomestead (chainRules env)
         || negb (bool_decide (err = Some ErrCodeStoreOutOfGas)))
     then
       vm_db (RevertToSnapshot snapshot);;
       mret (if negb (bool_decide (err = Some ErrExecutionReverted))
             then (UseGas contract (Gas contract)).2 else contract)
     else mret contract);
  mret (ret, address, Gas contract, err).

(** A failed deployment leaves the state of the snapshot; unless the code asked for the
    revert it consumes all its gas.  Frontier kept a contract that could not pay for its
    code. *)
Definition deploy_post (gas : Z) (v : VM S) (r : bytes * Address * Z * option vmerror)
    (v' : VM S) : Prop :=
  create_post gas v r v' /\
  forall e, r.2 = Some e -> IsHomestead (chainRules env) = true \/ e <> ErrCodeStoreOutOfGas ->
    same_state (statedb v) (statedb v') /\ (e <> ErrExecutionReverted -> r.1.2 = 0).

Lemma wp_deploy caller code gas value address s d t j al rd :
  is_u64 gas -> gas < n -> data_ok code -> db_ok s -> cache_ok j -> data_ok rd ->
  fresh s address ->
  wp tolerated (deploy caller code gas value address)
    (deploy_post gas (mkVM s d t j al false rd)) (mkVM s d t j al false rd).
Proof.
  intros Hg Hn Hcode Hs Hj Hr Hfr. unfold deploy.
  apply wp_bind, (wp_vm_db _ _ _ _ _ _ _ false); [done..|]. intros id s8 Hsn Hs8 K8. apply sdb_snapshot in Hsn; [|done].
  apply wp_bind, (wp_vm_db _ _ _ _ _ _ _ false); [done..|]. intros ex s9 Hex Hs9 K9.
  apply sdb_exist in Hex; [|done].
  apply wp_bind, (wp_createMissing false address ex); [done..|]. intros s10 Hs10 K10 Hx10.
  apply wp_bind, wp_createContract; [done..|]. intros s11 Hs11 K11.
  apply wp_bind, (wp_vm_when false); [done..|]. intros s12 Hs12 K12.
  apply wp_bind, (wp_eip4762 true). apply wp_bind, (wp_Transfer false); [done..|]. intros s13 Hs13 K13.
  assert (K' : rel false s8 s13) by solve_rel. clear K9 K10 K11 K12 K13. apply wp_bind.
  eapply wp_mono; [apply initNewContract_ok; cbn; [|done|by split| |done]|].
  { apply (contract_ok_new (set_IsDeployment true (NewContract caller address value gas)));
      try done. by left. }
  { eapply rel_fresh; [|exact Hfr]. by eapply rel_trans. }
  intros [[c' ret] err] v' ([Hs' Hj' Hr'] & [K2 D2 R2] & Hgas & Hdat & _). cbn in *.
  assert (Hu : is_u64 (Gas c')) by (unfold_u64; lia).
  apply wp_bind. case_if.
  - apply wp_bind. unfold wp, vm_db.
    destruct (sdb_revert id (statedb v') s Hs') as (s14 & -> & Hs14 & Heq & K14);
      [eapply rel_live; [|exact Hsn]; by eapply rel_trans|].
    unfold wp, deploy_post, create_post. cbn. split.
    + split; [by split|]. split; [by split; [apply rel_same|..]|]. split; [|done].
      pose proof (UseGas_ok c' (Gas c') Hu ltac:(unfold_u64; lia)). case_if; lia.
    + intros e -> _. split; [done|]. intros Hne. rewrite bool_decide_eq_false_2 by congruence.
      cbn. unfold UseGas. rewrite (proj2 (Z.ltb_ge _ _)) by lia. cbn. by rewrite Z.sub_diag.
  - do 2 apply wp_ret. unfold deploy_post, create_post. cbn. split.
    + split; [by split|]. split; [|split; done]. split; cbn; [|done..].
      eapply rel_trans; [exact K8|]. by eapply rel_trans.
    + intros e -> He. exfalso. apply andb_false_iff in Heqb as [Heqb|Heqb]; [done|].
      apply orb_false_iff in Heqb as [Hh Hb]. rewrite Hh in He.
      destruct He as [|He]; [done|]. by rewrite bool_decide_eq_false_2 in Hb by congruence.
Qed.

Lemma create_ok caller code gas value address v :
  is_u64 gas -> gas < n -> data_ok code -> vm_ok v -> readOnly v = false ->
  wp tolerated (create env run caller code gas value address) (create_post gas v) v.
Proof.
  intros Hg Hn Hcode [Hd Hj Hr] Hro.
  assert (Hearly : forall (v' : VM S) left e, vm_ok v' -> vm_rel v v' -> 0 <= left <= gas ->
    create_post gas v ([], 0, left, e) v').
  { intros. unfold create_post. cbn. split_and!; auto with geth; lia. }
  assert (Hgg : 0 <= gas <= gas) by (split; [apply Hg|lia]).
  unfold create. apply wp_bind, wp_gets. case_if.
  { apply wp_ret, Hearly; [by split|reflexivity|done]. }
  destruct v as [s d t j al ro rd]. cbn in Hro. subst ro. cbn in *.
  apply wp_bind, (wp_CanTransfer false); [done|]. intros can s1 Hs1 K1 S1. case_if.
  { apply wp_ret, Hearly; [by split|by split|done]. }
  apply wp_bind, (wp_vm_db _ _ _ _ _ _ _ false); [done..|]. intros nonce s2 _ Hs2 K2. case_if.
  { apply wp_ret, Hearly; [by split| |done]. split; cbn; [solve_rel|done..]. }
  apply wp_bind, (wp_vm_db _ _ _ _ _ _ _ false); [done..|]. intros _ s3 _ Hs3 K3.
  apply wp_bind, (wp_eip4762 true). apply wp_bind, (wp_vm_when false); [done..|]. intros s4 Hs4 K4.
  apply wp_bind, (wp_vm_db _ _ _ _ _ _ _ false); [done..|]. intros ch s5 Hch Hs5 K5.
  apply wp_bind, (wp_vm_db _ _ _ _ _ _ _ false); [done..|]. intros sr s6 _ Hs6 K6.
  apply wp_bind, (wp_vm_db _ _ _ _ _ _ _ false); [done..|]. intros nn s7 _ Hs7 K7.
  assert (K : rel false s s7) by solve_rel. case_if.
  { apply wp_ret, Hearly; [by split|by split|]. unfold_u64; lia. }
  assert (Hfr : fresh s7 address).
  { eapply rel_fresh; [exact (rel_trans _ _ _ _ K6 K7)|].
    apply (sdb_codehash _ _ _ _ Hs4 Hch). rewrite !orb_false_iff, !andb_false_iff in *.
    bool_to_Z; lia. }
  eapply wp_mono; [by apply wp_deploy|]. intros r v' [(? & [K' ??] & ?) _].
  split; [done|]. split; [|done]. split; cbn in *; [by eapply rel_trans|done..].
Qed.

Lemma CreateAddress_total b nonce : exists a, CreateAddress b nonce = Ret a.
Proof.
  unfold CreateAddress. cbn [buf_list emptyBuf].
  assert (Hh : forall bf d, lheads (writeBytes bf d) = lheads bf).
  { intros bf d. unfold writeBytes, encodeStringHeader. repeat case_match; done. }
  assert (Hu : forall bf i, lheads (writeUint64 bf i) = lheads bf).
  { intros bf i. unfold writeUint64. repeat case_match; done. }
  unfold listEnd. rewrite Hu, Hh. cbn. eauto.
Qed.

Lemma Create_full caller code gas value v :
  is_u64 gas -> gas < n -> data_ok code -> vm_ok v -> readOnly v = false ->
  wp tolerated (Create env run caller code gas value) (create_post gas v) v.
Proof.
  intros Hg Hn Hcode [Hd Hj Hr] Hro. unfold Create. destruct v as [s d t j al ro rd].
  cbn in Hro. subst ro. cbn in *.
  apply wp_bind, (wp_vm_db _ _ _ _ _ _ _ false); [done..|]. intros nonce s1 _ Hs1 K1.
  apply wp_bind. destruct (CreateAddress_total caller nonce) as [a Ha]. rewrite Ha.
  apply wp_ret. eapply wp_mono; [by apply create_ok; [..|split]|].
  intros r v' (? & [K2 ??] & ?). split; [done|]. split; [|done].
  split; [by eapply rel_trans|done..].
Qed.
End with_run.

Lemma evmCalls_ok n run : run_spec n run -> calls_ok (n - 1) (evmCalls env run).
Proof.
  intros Hrun. split; cbn; intros.
  - eapply wp_mono; [by apply (Call_full n run Hrun); [|lia|..]|by intros ? ? [? _]].
  - eapply wp_mono; [by apply (CallCode_full n run Hrun); [|lia|..]|by intros ? ? [? _]].
  - eapply wp_mono; [by apply (DelegateCall_full n run Hrun); [|lia|..]|by intros ? ? [? _]].
  - eapply wp_mono; [by apply (StaticCall_full n run Hrun); [|lia|..]|by intros ? ? [[? _] _]].
  - by apply (Create_full n run Hrun); [|lia|..].
  - by apply (create_ok n run Hrun); [|lia|..].
Qed.

Lemma loop_ok fuel : loop_spec (Z.of_nat fuel) (loop env table fuel).
Proof.
  induction fuel as [|fuel IH]; intros f Hf Hg.
  { pose proof (c_gas _ (f_contract _ Hf)). unfold_u64. lia. }
  cbn [loop]. apply wp_bind.
  pose proof (evmCalls_ok _ _ (runWith_ok _ _ IH)) as HC.
  eapply wp_mono; [apply step_ok; [done|]|].
  { destruct HC as [C1 C2 C3 C4 C5 C6].
    split; intros; [apply C1|apply C2|apply C3|apply C4|apply C5|apply C6]; try done; lia. }
  intros [[res [e|]]|res] f1 Hpost; cbn in Hpost.
  - apply wp_ret. apply Hpost.
  - destruct Hpost as [[Ev Er Eg Ed] Hnext]. destruct (Hnext eq_refl) as [Hf1 Hlt].
    apply wp_bind, wp_modify.
    eapply wp_mono; [apply IH; cbn; [|lia]|].
    { destruct Hf1. split; cbn; try done. exact (proj1 (wrap64_range _)). }
    intros res2 f2 [Ev2 Er2 Eg2 Ed2]. cbn in *. split; [done|by etrans|lia|done].
  - by apply wp_ret.
Qed.

Lemma Run_ok fuel : run_spec (Z.of_nat fuel) (Run env table fuel).
Proof. apply runWith_ok, loop_ok. Qed.
End evm_safe.
