(* ===== verification/Fuel.v ===== *)
(** * The fuel of the interpreter does not influence its result

    The recursion of [Run] through the call instructions is bounded by a fuel argument.  A run
    with more fuel can only differ from a run with less where the latter ran out of it
    ([loop_mono]); together with [EvmSafe.loop_ok], which says how much fuel is enough, the fuel
    is an artefact of the model only. *)

From S2P Require Import Prelude Bytes Uint256 Params Machine Opcodes Analysis JumpTable VM GasTable Instructions Evm.

(** [m1] agrees with [m2] wherever it does not run out of fuel. *)
Definition le {S A} (m1 m2 : ST S A) : Prop :=
  forall s, m1 s = Fail OutOfFuel \/ m1 s = m2 s.

Section le.
Context {S : Type}.

#[global] Instance le_preorder {A} : PreOrder (@le S A).
Proof.
  split; [intros m s; by right|].
  intros m1 m2 m3 H1 H2 s. destruct (H1 s) as [|E1]; [by left|]. rewrite E1. apply H2.
Qed.

Lemma le_bind {A B} (m1 m2 : ST S A) (k1 k2 : A -> ST S B) :
  le m1 m2 -> (forall a, le (k1 a) (k2 a)) -> le (m1 ≫= k1) (m2 ≫= k2).
Proof.
  intros Hm Hk s. unfold mbind, st_bind. destruct (Hm s) as [E|E]; rewrite E; [by left|].
  destruct (m2 s) as [[a s']|]; [apply Hk|by right].
Qed.
End le.

(** Descends through the common structure of two computations. *)
Ltac le_step :=
  lazymatch goal with
  | |- le (mbind _ _) (mbind _ _) => apply le_bind; [|intros ?]
  | |- le (if ?b then _ else _) _ => destruct b eqn:?
  | |- le (match ?x with _ => _ end) _ => destruct x eqn:?
  | |- le (let '(_, _) := ?x in _) _ => destruct x eqn:?
  end.
Ltac le_same := lazymatch goal with |- le ?m1 ?m2 => constr_eq m1 m2; exact (reflexivity m1) end.
Ltac le_solve := repeat first [le_same | le_step].

Section fuel.
Context `{U : Uint256} `{C : Crypto} {S : Type} `{DB : !StateDB S}.
Context (env : Env) (table : JumpTable).

Lemma le_on_vm {A} (m1 m2 : ST (VM S) A) : le m1 m2 -> le (on_vm m1) (on_vm m2).
Proof. intros H f. unfold on_vm. destruct (H (vm f)) as [E|E]; rewrite E; auto. Qed.

Record calls_le (c1 c2 : Calls (S := S)) : Prop := {
  le_Call : forall a b i g w, le (do_Call c1 a b i g w) (do_Call c2 a b i g w);
  le_CallCode : forall a b i g w, le (do_CallCode c1 a b i g w) (do_CallCode c2 a b i g w);
  le_DelegateCall : forall o a b i g w,
    le (do_DelegateCall c1 o a b i g w) (do_DelegateCall c2 o a b i g w);
  le_StaticCall : forall a b i g, le (do_StaticCall c1 a b i g) (do_StaticCall c2 a b i g);
  le_Create : forall a i g w, le (do_Create c1 a i g w) (do_Create c2 a i g w);
  le_Create2 : forall a i g w z, le (do_Create2 c1 a i g w z) (do_Create2 c2 a i g w z);
}.

Lemma exec_fn_mono c1 c2 t : calls_le c1 c2 -> le (exec_fn env c1 t) (exec_fn env c2 t).
Proof.
  intros []. destruct t; try reflexivity; cbn [exec_fn].
  all: unfold opCreate, opCreate2, opCall, opCallCode, opDelegateCall, opStaticCall.
  all: le_solve; by apply le_on_vm.
Qed.

Section calls.
Context (run1 run2 : Contract -> bytes -> bool -> ST (VM S) (Contract * bytes * option vmerror)).
Context (Hrun : forall c i ro, le (run1 c i ro) (run2 c i ro)).

Lemma evmCalls_mono : calls_le (evmCalls env run1) (evmCalls env run2).
Proof using Hrun.
  split; intros; cbn [evmCalls do_Call do_CallCode do_DelegateCall do_StaticCall do_Create
    do_Create2]; unfold Call, CallCode, DelegateCall, StaticCall, Create, Create2, create,
    runContract, initNewContract; le_solve; apply Hrun.
Qed.
End calls.

Lemma runWith_mono (l1 l2 : ST (Frame S) (bytes * option vmerror)) c i ro : le l1 l2 -> le (runWith l1 c i ro) (runWith l2 c i ro).
Proof.
  intros H v. unfold runWith. case_if; [by right|].
  match goal with |- context [l1 ?f] => destruct (H f) as [E|E]; rewrite E end; auto.
Qed.

Lemma step_mono (c1 c2 : Calls (S := S)) : calls_le c1 c2 -> le (step env table c1) (step env table c2).
Proof. intros H. unfold step. le_solve. by apply exec_fn_mono. Qed.

Lemma loop_step_mono f1 f2 :
  le (loop (S := S) env table f1) (loop env table f2) ->
  le (loop (S := S) env table (Datatypes.S f1)) (loop env table (Datatypes.S f2)).
Proof.
  intros H. cbn [loop]. apply le_bind.
  - apply step_mono, evmCalls_mono. intros. by apply runWith_mono.
  - intros [[res [e|]]|res]; try reflexivity. apply le_bind; [reflexivity|done].
Qed.

Lemma loop_mono f1 f2 : (f1 <= f2)%nat -> le (loop (S := S) env table f1) (loop env table f2).
Proof.
  revert f2. induction f1 as [|f1 IH]; intros f2 Hle; [by intros s; left|].
  destruct f2 as [|f2]; [lia|]. apply loop_step_mono, IH. lia.
Qed.

Lemma Run_mono f1 f2 c i ro :
  (f1 <= f2)%nat -> le (Run (S := S) env table f1 c i ro) (Run env table f2 c i ro).
Proof. intros. by apply runWith_mono, loop_mono. Qed.

Lemma evm_Call_mono f1 f2 a b i g w :
  (f1 <= f2)%nat -> le (evm_Call (S := S) env table f1 a b i g w) (evm_Call env table f2 a b i g w).
Proof.
  intros H. apply (le_Call _ _ (evmCalls_mono (Run env table f1) (Run env table f2)
    (fun c i ro => Run_mono f1 f2 c i ro H))).
Qed.
End fuel.
