(* ===== verification/Scenario.v ===== *)
(** * A concrete chain state

    A reader with one funded account and two contracts, a hash function, a block context of the
    Cancun rule set and an idle EVM.  The theorems are applied to it, and a few runs of the
    interpreter are evaluated on it. *)

From S2P Require Import Prelude Bytes Uint256 Params Machine Opcodes JumpTable VM State GasTable Instructions Evm StateSpec StateProofs Frames EvmSafe.

(** An injective stand-in for Keccak-256: a code number of the byte string. *)
#[export] Instance demo_crypto : Crypto := { Keccak256 l := Z.pos (encode l) }.

Lemma demo_no_collision : ~ collision.
Proof. intros (x & y & Hne & [= H]). by apply (inj encode) in H. Qed.

(** [PUSH1 5 PUSH1 0 SSTORE STOP] *)
Definition writer_code : bytes := [96; 5; 96; 0; 85; 0].
(** [PUSH1 7 PUSH1 1 SSTORE PUSH1 0 PUSH1 0 REVERT] *)
Definition reverter_code : bytes := [96; 7; 96; 1; 85; 96; 0; 96; 0; 253].

Definition user : Address := 100.
Definition writer : Address := 200.
Definition reverter : Address := 201.

Definition demo_account (a : Address) : option (option StateAccount) :=
  if a =? user then Some (Some (mkAccount 0 (mk256 1000000) EmptyRootHash EmptyCodeHash))
  else if a =? writer then Some (Some (mkAccount 1 (mk256 0) EmptyRootHash (Keccak256 writer_code)))
  else if a =? reverter then Some (Some (mkAccount 1 (mk256 0) EmptyRootHash (Keccak256 reverter_code)))
  else Some None.

Definition demo_code (h : Hash) : option bytes :=
  if h =? Keccak256 writer_code then Some writer_code
  else if h =? Keccak256 reverter_code then Some reverter_code
  else None.

Definition demo_reader : Reader :=
  mkReader demo_account (fun _ _ => Some 0) (fun _ h => demo_code h)
    (fun _ h => option_map len (demo_code h)).

Lemma demo_reader_ok : reader_ok demo_reader.
Proof.
  split; [|done]. intros a acct. cbn. unfold demo_account.
  assert (Hc : forall c, demo_code (Keccak256 c) = Some c -> c <> [] -> data_ok c ->
    Keccak256 c <> 0 -> Keccak256 c <> 0 /\ code_at demo_reader a (Keccak256 c)).
  { intros c H1 H2 H3 H4. split; [done|]. by exists c. }
  repeat case_if; intros [= <-]; cbn [acc_CodeHash]; [by left|right; apply Hc..]; try done.
  all: split; [repeat constructor|]; done.
Qed.

#[export] Instance demo_spec : StateDBSpec state (DB := state_StateDB demo_reader) :=
  state_StateDBSpec demo_reader demo_reader_ok.

Definition cancun_rules : Rules :=
  mkRules 1 true true true true true false true true true true true true true true true
    false false false.

Definition demo_env : Env :=
  mkEnv (fun _ => Ret 0) 999 30000000 100 1700000000 0 (Some 1) (Some 1) (Some 42) user 1 [] (Some 1) cancun_rules false ∅.

Definition demo_table : JumpTable := newCancunInstructionSet.

Lemma demo_env_ok : env_ok demo_env demo_table.
Proof.
  split; [reflexivity|intros op o _; destruct (execute o); cbn; eauto|].
  intros a p H. cbn [precompiles demo_env] in H. rewrite lookup_empty in H. discriminate H.
Qed.

Lemma demo_table_selected : instructionSet (chainRules demo_env) = Ret demo_table.
Proof. unfold instructionSet. cbn [IsVerkle IsPrague IsCancun chainRules demo_env cancun_rules].
  exact (eq_refl (Ret newCancunInstructionSet)). Qed.

Definition demo_vm : VM state := mkVM New 0 0 ∅ [] false [].

Lemma New_ok : state_ok demo_reader New.
Proof.
  split.
  - intros a o H. unfold New, stateObjects in H. rewrite lookup_empty in H. discriminate H.
  - constructor.
  - split; [|constructor|]; unfold New, access, newAccessList, addresses.
    + intros a i H. rewrite lookup_empty in H. discriminate H.
    + intros a b i _ H. rewrite lookup_empty in H. discriminate H.
  - split; constructor.
  - done.
  - done.
Qed.

Lemma demo_vm_ok : vm_ok (SP := demo_spec) demo_vm.
Proof.
  split; [exact New_ok| |auto with geth].
  intros h a H. unfold demo_vm, jumpDests in H. rewrite lookup_empty in H. discriminate H.
Qed.

(** A call of the writer contract: the slot is set, the rest of the gas is given back. *)
Definition demo_call (to : Address) : Outcome (bytes * Z * option vmerror * VM state) :=
  evm_Call (DB := state_StateDB demo_reader) demo_env demo_table 100 user to [] 50000 (mk256 0) demo_vm.

Definition slot_after (r : Outcome (bytes * Z * option vmerror * VM state)) (a k : Z)
    : option (Z * option vmerror * Hash) :=
  match r with
  | Ret ((_, gas, err), v) =>
      match StateDB.GetState demo_reader a k (statedb v) with
      | Ret (x, _) => Some (gas, err, x)
      | Fail _ => None
      end
  | Fail _ => None
  end.

Example writer_runs : slot_after (demo_call writer) writer 0 = Some (27894, None, 5).
Proof. vm_compute. reflexivity. Qed.

(** The reverting contract gives back its gas, and its write is undone. *)
Example reverter_reverts :
  slot_after (demo_call reverter) reverter 1 = Some (27888, Some ErrExecutionReverted, 0).
Proof. vm_compute. reflexivity. Qed.
