(* ===== verification/EvmTheorems.v ===== *)
(** * What the EVM guarantees

    The statements here are about the entry points of [core/vm/evm.go] with the interpreter tied
    in, for any implementation of the [StateDB] interface that keeps its contract; their
    witnesses apply them to the journalled state database of [core/state]. *)

From S2P Require Import Prelude Bytes Uint256 Params Machine Opcodes Analysis JumpTable VM State GasTable Instructions Evm StateSpec StateProofs Frames InstrSpec TableSpec EvmSafe Fuel Scenario.

Section evm_theorems.
Context `{U : Uint256} {US : Uint256Spec U} `{C : Crypto}.
Context {S : Type} `{DB : !StateDB S} `{SP : !StateDBSpec S}.


(** [DelegateCall] and [CallCode] give the same guarantees as [Call]. *)
Theorem DelegateCall_CallCode_correct (env : Env) (table : JumpTable) (fuel : nat)
    (origin caller addr : Address) (input : bytes) (gas : Z) (value : word) (v : VM S) :
  instructionSet (chainRules env) = Ret table -> env_ok env table -> vm_ok v -> data_ok input ->
  is_u64 gas -> gas < Z.of_nat fuel ->
  wp tolerated (evm_DelegateCall env table fuel origin caller addr input gas value)
    (call_full gas v) v /\
  wp tolerated (evm_CallCode env table fuel caller addr input gas value) (call_full gas v) v.
Proof.
  intros Ht He Hv Hi Hg Hf.
  pose proof (Run_ok env table He (instructionSet_ok _ _ Ht) fuel) as Hr.
  split; [exact (DelegateCall_full env table He _ _ Hr _ _ _ _ _ _ _ Hg Hf Hi Hv)
         |exact (CallCode_full env table He _ _ Hr _ _ _ _ _ _ Hg Hf Hi Hv)].
Qed.

(** C3 A static call cannot change balances, nonces, codes, storage, transient storage or
    logs, however deep the calls it makes and whether it succeeds or not. *)
Theorem StaticCall_readonly (env : Env) (table : JumpTable) (fuel : nat) (caller addr : Address)
    (input : bytes) (gas : Z) (v : VM S) :
  instructionSet (chainRules env) = Ret table -> env_ok env table -> vm_ok v -> data_ok input ->
  is_u64 gas -> gas < Z.of_nat fuel ->
  match evm_StaticCall env table fuel caller addr input gas v with
  | Ret ((ret, leftGas, err), v') =>
      same_world (statedb v) (statedb v') /\ vm_ok v' /\ readOnly v' = readOnly v /\
      0 <= leftGas <= gas
  | Fail e => tolerated e
  end.
Proof.
  intros Ht He Hv Hi Hg Hf.
  pose proof (StaticCall_full env table He _ _ (Run_ok env table He (instructionSet_ok _ _ Ht) fuel)
    caller addr input gas v Hg Hf Hi Hv) as H.
  unfold wp in H. unfold evm_StaticCall.
  destruct (StaticCall _ _ _ _ _ _ v) as [[[[ret leftGas] err] v']|e]; [|exact H].
  destruct H as [[(? & [? ? ?] & ? & ?) _] [_ Hw]]. cbn [fst snd] in *. split_and!; first [done | by apply Hw | lia].
Qed.

(** C6 A contract creation ends, gives back at most the gas it was given, restores the call
    depth and the read-only flag, and keeps the invariants of the EVM. *)
Theorem Create_correct (env : Env) (table : JumpTable) (fuel : nat) (caller : Address)
    (code : bytes) (gas : Z) (value salt : word) (v : VM S) :
  instructionSet (chainRules env) = Ret table -> env_ok env table -> vm_ok v -> data_ok code ->
  is_u64 gas -> gas < Z.of_nat fuel -> readOnly v = false ->
  wp tolerated (evm_Create env table fuel caller code gas value) (create_post gas v) v /\
  wp tolerated (evm_Create2 env table fuel caller code gas value salt) (create_post gas v) v.
Proof.
  intros Ht He Hv Hi Hg Hf Hro.
  pose proof (Run_ok env table He (instructionSet_ok _ _ Ht) fuel) as Hr.
  split; [exact (Create_full env table He _ _ Hr _ _ _ _ _ Hg Hf Hi Hv Hro)
         |exact (create_ok env table He _ _ Hr _ _ _ _ _ _ Hg Hf Hi Hv Hro)].
Qed.

(** C4 The interpreter ends: [Run] on a well-formed contract with fuel above its gas does not
    run out of fuel, and a read-only run leaves the world alone. *)
Theorem Run_terminates (env : Env) (table : JumpTable) (fuel : nat) (c : Contract)
    (input : bytes) (ro : bool) (v : VM S) :
  instructionSet (chainRules env) = Ret table -> env_ok env table -> vm_ok v -> contract_ok c ->
  data_ok input -> Gas c < Z.of_nat fuel ->
  match Run env table fuel c input ro v with
  | Ret ((c', ret, err), v') =>
      vm_ok v' /\ 0 <= Gas c' <= Gas c /\ depth v' = depth v /\
      (ro = true -> same_world (statedb v) (statedb v'))
  | Fail e => tolerated e /\ e <> OutOfFuel
  end.
Proof.
  intros Ht He Hv Hc Hi Hf.
  pose proof (Run_ok env table He (instructionSet_ok _ _ Ht) fuel c input ro v Hc Hf Hi Hv) as H.
  unfold wp in H. destruct (Run _ _ _ _ _ _ v) as [[[[c' ret] err] v']|e].
  - destruct H as (? & [? ? ?] & ? & ? & ?). cbn [fst snd] in *. split_and!; done || lia.
  - split; [done|]. by destruct H as [->|[-> _]].
Qed.

(** The fuel is an artefact of the model: two amounts above the gas give the same result. *)
Theorem Call_fuel_irrelevant (env : Env) (table : JumpTable) (f1 f2 : nat) (caller addr : Address)
    (input : bytes) (gas : Z) (value : word) (v : VM S) :
  instructionSet (chainRules env) = Ret table -> env_ok env table -> vm_ok v -> data_ok input ->
  is_u64 gas -> gas < Z.of_nat f1 -> gas < Z.of_nat f2 ->
  (readOnly v = true -> IsZero value = true) ->
  evm_Call env table f1 caller addr input gas value v =
  evm_Call env table f2 caller addr input gas value v.
Proof.
  assert (Hle : forall f1 f2, (f1 <= f2)%nat ->
    instructionSet (chainRules env) = Ret table -> env_ok env table -> vm_ok v -> data_ok input ->
    is_u64 gas -> gas < Z.of_nat f1 -> (readOnly v = true -> IsZero value = true) ->
    evm_Call env table f1 caller addr input gas value v =
    evm_Call env table f2 caller addr input gas value v).
  { clear f1 f2. intros f1 f2 Hle Ht He Hv Hi Hg Hf Hz.
    destruct (evm_Call_mono env table f1 f2 caller addr input gas value Hle v) as [E|E]; [|exact E].
    pose proof (Call_full env table He _ _ (Run_ok env table He (instructionSet_ok _ _ Ht) f1)
      caller addr input gas value v Hg Hf Hi Hv Hz) as H.
    unfold wp in H. unfold evm_Call in E. rewrite E in H. destruct H as [|[? _]]; discriminate. }
  intros. destruct (Nat.le_ge_cases f1 f2); [by apply Hle|symmetry; by apply Hle].
Qed.

(** C5 One instruction of the interpreter keeps the invariant of its frame: the stack never
    exceeds 1024 words, the memory is exactly as large as what was paid for, the gas counter is
    a [uint64]; it does not panic (up to the tolerated cases), and an instruction after which
    the frame goes on has consumed gas. *)
Theorem step_invariant (env : Env) (table : JumpTable) (calls : Calls) (f : Frame S) :
  instructionSet (chainRules env) = Ret table -> env_ok env table -> frame_ok f ->
  calls_ok (Gas (contract f) - 1) calls ->
  match step env table calls f with
  | Ret (inl (_, None), f') => frame_ok f' /\ Gas (contract f') < Gas (contract f)
  | Ret (_, f') => vm_ok (vm f') /\ 0 <= Gas (contract f') <= Gas (contract f)
  | Fail e => tolerated e
  end.
Proof.
  intros Ht He Hf HC.
  pose proof (step_ok env table He (instructionSet_ok _ _ Ht) calls f Hf HC) as H.
  unfold wp in H. destruct (step _ _ _ f) as [[[[res [e|]]|res] f']|e]; cbn in H; [| | |exact H].
  - destruct H as [[] _]. done.
  - destruct H as [_ H]. by apply H.
  - by destruct H.
Qed.
End evm_theorems.

(** ** Witnesses *)


Lemma DelegateCall_CallCode_correct_witness :
  wp tolerated (evm_DelegateCall (DB := state_StateDB demo_reader) demo_env demo_table
    (Z.to_nat 50001) user user writer [] 50000 (mk256 0)) (call_full (SP := demo_spec) 50000 demo_vm)
    demo_vm /\
  wp tolerated (evm_CallCode (DB := state_StateDB demo_reader) demo_env demo_table
    (Z.to_nat 50001) user writer [] 50000 (mk256 0)) (call_full (SP := demo_spec) 50000 demo_vm)
    demo_vm.
Proof.
  apply (DelegateCall_CallCode_correct (SP := demo_spec) demo_env demo_table (Z.to_nat 50001) user
    user writer [] 50000 (mk256 0) demo_vm demo_table_selected demo_env_ok demo_vm_ok data_ok_nil);
    [by split|lia].
Defined.

Lemma StaticCall_readonly_witness :
  match evm_StaticCall (DB := state_StateDB demo_reader) demo_env demo_table (Z.to_nat 50001) user
          writer [] 50000 demo_vm with
  | Ret ((ret, leftGas, err), v') =>
      same_world (StateDBSpec := demo_spec) (statedb demo_vm) (statedb v') /\
      vm_ok (SP := demo_spec) v' /\ readOnly v' = readOnly demo_vm /\ 0 <= leftGas <= 50000
  | Fail e => tolerated e
  end.
Proof.
  apply (StaticCall_readonly (SP := demo_spec) demo_env demo_table (Z.to_nat 50001) user writer []
    50000 demo_vm demo_table_selected demo_env_ok demo_vm_ok data_ok_nil); [by split|lia].
Defined.

Lemma writer_code_ok : data_ok writer_code.
Proof. split; [repeat constructor|]; done. Qed.

Lemma Create_correct_witness :
  wp tolerated (evm_Create (DB := state_StateDB demo_reader) demo_env demo_table (Z.to_nat 90001)
    user writer_code 90000 (mk256 0)) (create_post (SP := demo_spec) 90000 demo_vm) demo_vm /\
  wp tolerated (evm_Create2 (DB := state_StateDB demo_reader) demo_env demo_table (Z.to_nat 90001)
    user writer_code 90000 (mk256 0) (mk256 1)) (create_post (SP := demo_spec) 90000 demo_vm) demo_vm.
Proof.
  apply (Create_correct (SP := demo_spec) demo_env demo_table (Z.to_nat 90001) user writer_code
    90000 (mk256 0) (mk256 1) demo_vm demo_table_selected demo_env_ok demo_vm_ok writer_code_ok);
    [by split|lia|reflexivity].
Defined.

Definition demo_contract : Contract :=
  SetCallCode (NewContract user writer (mk256 0) 90) (Keccak256 writer_code) writer_code.

Lemma demo_contract_ok : contract_ok demo_contract.
Proof.
  split; [by split|exact writer_code_ok|exact data_ok_nil|right; reflexivity|].
  intros a H. discriminate H.
Qed.

Lemma Run_terminates_witness :
  match Run (DB := state_StateDB demo_reader) demo_env demo_table (Z.to_nat 91) demo_contract []
          true demo_vm with
  | Ret ((c', ret, err), v') =>
      vm_ok (SP := demo_spec) v' /\ 0 <= Gas c' <= Gas demo_contract /\ depth v' = depth demo_vm /\
      (true = true -> same_world (StateDBSpec := demo_spec) (statedb demo_vm) (statedb v'))
  | Fail e => tolerated e /\ e <> OutOfFuel
  end.
Proof.
  apply (Run_terminates (SP := demo_spec) demo_env demo_table (Z.to_nat 91) demo_contract []
    true demo_vm demo_table_selected demo_env_ok demo_vm_ok demo_contract_ok data_ok_nil).
  change (Gas demo_contract) with 90. lia.
Defined.

Lemma Call_fuel_irrelevant_witness :
  evm_Call (DB := state_StateDB demo_reader) demo_env demo_table (Z.to_nat 300) user writer [] 200
    (mk256 0) demo_vm =
  evm_Call (DB := state_StateDB demo_reader) demo_env demo_table (Z.to_nat 201) user writer [] 200
    (mk256 0) demo_vm.
Proof.
  apply (Call_fuel_irrelevant (SP := demo_spec) demo_env demo_table (Z.to_nat 300) (Z.to_nat 201)
    user writer [] 200 (mk256 0) demo_vm demo_table_selected demo_env_ok demo_vm_ok data_ok_nil);
    [by split|lia|lia|discriminate].
Defined.

Definition demo_frame : Frame state := mkFrame 0 [] NewMemory demo_contract demo_vm.

Lemma demo_frame_ok : frame_ok (SP := demo_spec) demo_frame.
Proof. split; [done|done|apply mem_ok_new|exact demo_contract_ok|exact demo_vm_ok]. Qed.

Lemma step_invariant_witness :
  match step (DB := state_StateDB demo_reader) demo_env demo_table
          (evmCalls (DB := state_StateDB demo_reader) demo_env
            (Run (DB := state_StateDB demo_reader) demo_env demo_table (Z.to_nat 90))) demo_frame with
  | Ret (inl (_, None), f') =>
      frame_ok (SP := demo_spec) f' /\ Gas (contract f') < Gas (contract demo_frame)
  | Ret (_, f') =>
      vm_ok (SP := demo_spec) (vm f') /\ 0 <= Gas (contract f') <= Gas (contract demo_frame)
  | Fail e => tolerated e
  end.
Proof.
  apply (step_invariant (SP := demo_spec) demo_env demo_table _ demo_frame demo_table_selected
    demo_env_ok demo_frame_ok).
  change (Gas (contract demo_frame) - 1) with (90 - 1).
  replace 90 with (Z.of_nat (Z.to_nat 90)) at 1 by lia.
  apply (evmCalls_ok demo_env demo_table demo_env_ok), Run_ok;
    [exact demo_env_ok|exact (instructionSet_ok _ _ demo_table_selected)].
Defined.
