(* ===== verification/StateTheorems.v ===== *)
(** * What the state database guarantees

    The statements are about the methods of [core/state.StateDB] over any reader that meets
    [reader_ok]; [objectAt], [w_account] and [w_storage] of [StateProofs] are the views of a state
    that its getters return. *)

From S2P Require Import Prelude Bytes Uint256 Params Machine VM State StateSpec StateProofs StateFinalise GasTable Evm Scenario.
Import StateDB.

Section state_theorems.
Context `{U : Uint256} `{C : Crypto} (reader : Reader).
Hypothesis Hreader : reader_ok reader.

#[local] Instance state_spec : @StateDBSpec U C state (state_StateDB reader) :=
  state_StateDBSpec reader Hreader.

(** C2 Reverting to a snapshot restores everything the interface can observe: after a session of
    method calls the state after [RevertToSnapshot] answers every query as the state at the
    snapshot did, and the call does not panic.  A session is any sequence of calls, with scopes
    that were themselves reverted to their own snapshot, in which [CreateAccount] is called only for missing accounts,
    [CreateContract] only for existing ones, and [SetCode] only on accounts that have no code or whose code
    has been loaded (as the EVM does; see [setCode_revert_needs_loaded_code] for the other case), and
    that stays within a transaction: no [Prepare], no [Finalise]. *)
Theorem snapshot_roundtrip (s s1 s2 : state) (id : Z) :
  state_ok reader s -> Snapshot s = Ret (id, s1) -> session (SP := state_spec) s1 s2 ->
  exists s3, RevertToSnapshot reader id s2 = Ret (tt, s3) /\ seq reader s s3 /\ state_ok reader s3.
Proof.
  intros Hs Hsn Hl. destruct (Snapshot_spec reader s id s1 Hs Hsn) as (Hs1 & _ & _ & Hrev).
  destruct (session_keeps (SP := state_spec) s1 s2 Hl Hs1) as [Hs2 [Hk _]].
  destruct (RevertToSnapshot_spec reader Hreader id s2 s Hs2) as (s3 & E & Hs3 & [Hq _] & _);
    [by apply Hk|]. by exists s3.
Qed.

(** The calls that the database serves: [CreateAccount] of a missing account, [CreateContract] of an existing one,
    [SetCode] on an account without code or whose code is loaded, [RevertToSnapshot] to a live
    snapshot, [Prepare] under rules without Verkle trees, and every other method without a condition. *)
Definition served {A} (r : sdbE A) (s : state) : Prop :=
  match r with
  | VM.RevertToSnapshot id => exists s0, reverts_to (StateDBSpec := state_spec) id s s0
  | VM.Prepare rules _ _ _ _ _ => IsEIP2929 rules && IsEIP4762 rules = false
  | VM.Finalise _ => True
  | _ => admissible (SP := state_spec) r s
  end.


(** [CreateContract] of a missing account follows a nil pointer. *)
Lemma CreateContract_missing a s : state_ok reader s -> objectAt reader s a = None -> run reader (VM.CreateContract a) s = Fail PanicNil.
Proof.
  intros Hs Hn. cbn [run]. unfold CreateContract.
  assert (H : exists s', getStateObject reader a s = Ret (None, s')).
  { assert (H : wp (fun _ => False) (getStateObject reader a) (fun x _ => x = None) s).
    { apply wp_getStateObject; [done..|]. intros. by rewrite Hn. }
    unfold wp in H. destruct (getStateObject reader a s) as [[x s']|]; [subst; by exists s'|done]. }
  destruct H as [s' E]. unfold mbind, st_bind. by rewrite E.
Qed.

(** ** Storage *)

Lemma quiet_world s s' : quiet reader s s' -> world reader s s'.
Proof. intros (_ & [Hq _] & _). by apply seq_world. Qed.

(** [GetState] returns the view. *)
Lemma GetState_view s a k : state_ok reader s ->
  exists s', GetState reader a k s = Ret ((w_storage reader s a k).1, s').
Proof using Hreader.
  intros Hs. unfold w_storage, GetState.
  assert (H : wp (fun _ => False) (GetState reader a k) (fun x _ => x = (w_storage reader s a k).1) s).
  { unfold GetState, w_storage. apply wp_bind, wp_getStateObject; [done..|]. intros s1 Hq Hp _.
    destruct (objectAt reader s a) as [o|]; [|done]. apply wp_bind. unfold obj_getState.
    apply wp_bind, wp_obj_GetCommittedState; [done|apply Hq|done|]. intros o1 s2 _ _ He _.
    rewrite (se_destruct _ _ _ (proj1 (proj1 (proj2 Hq)))) in *.
    pose proof (oe_current _ _ _ _ _ He k) as Hc. unfold current at 1 in Hc.
    pose proof (oe_committed _ _ _ _ _ He k) as Hco.
    destruct (dirtyStorage o1 !! k); cbn; congruence. }
  unfold wp in H. fold (GetState reader a k). destruct (GetState reader a k s) as [[x s']|]; [|done].
  exists s'. by rewrite H.
Qed.

Lemma getOrNew_view Er a s (Q : stateObject -> state -> Prop) : state_ok reader s ->
  (forall o s1, state_ok reader s1 -> objectAt reader s1 a = Some o -> world reader s s1 -> Q o s1) ->
  wp Er (getOrNewStateObject reader a) Q s.
Proof using Hreader.
  intros Hs HQ. eapply wp_mono; [apply wp_conj|].
  - apply (wp_getOrNewStateObject reader Hreader Er a s
      (fun o s1 => state_ok reader s1 /\ objectAt reader s1 a = Some o)); [done|].
    intros o s1 [Hs1 _] Hp _. done.
  - by apply (wp_getOrNew_world reader Hreader Er a s (fun _ s1 => world reader s s1)).
  - intros o s1 [[] ?]. by apply HQ.
Qed.

Definition slot_eqb (b x a k : Z) : bool := (b =? a) && (x =? k).

(** The slot has the new value, everything else is as before. *)
Definition slot_set (s : state) (a k v : Z) (s1 : state) : Prop :=
  (forall b x, w_storage reader s1 b x =
    (if slot_eqb b x a k then v else (w_storage reader s b x).1, (w_storage reader s b x).2)) /\
  (forall b, w_account reader s1 b = w_account reader s b).

Lemma slot_set_same s a k v s2 :
  world reader s s2 -> (w_storage reader s a k).1 = v -> slot_set s a k v s2.
Proof.
  intros Hw Hv. split; [|apply Hw]. intros b x. rewrite (w_slots _ _ _ Hw). unfold slot_eqb.
  destruct (Z.eqb_spec b a) as [->|]; [|by destruct (w_storage reader s b x)].
  destruct (Z.eqb_spec x k) as [->|]; cbn; [rewrite <- Hv|]; apply surjective_pairing.
Qed.

Lemma slot_set_world s a k v s2 s3 :
  world reader s s2 -> slot_set s2 a k v s3 -> slot_set s a k v s3.
Proof.
  intros [Ha Hs _ _ _] [H1 H2]. split.
  - intros b x. by rewrite H1, Hs.
  - intros b. by rewrite H2, Ha.
Qed.

Lemma slot_set_put s a k v o e : objectAt reader s a = Some o ->
  slot_set s a k v
    (put a (setState k v (committed reader (stateObjectsDestruct s) a o k) o) (pushed e s)).
Proof.
  intros Hp. set (g := committed reader (stateObjectsDestruct s) a o k).
  assert (Hc : codeOf reader a (setState k v g o) = codeOf reader a o)
    by (unfold setState; by case_if).
  assert (Hd : data (setState k v g o) = data o /\ selfDestructed (setState k v g o) = selfDestructed o)
    by (unfold setState; by case_if).
  split; intros b; [intros x|]; unfold w_storage, w_account; rewrite objectAt_put;
    change (objectAt reader (pushed e s) b) with (objectAt reader s b);
    (destruct (decide (b = a)) as [->|Hne]; [rewrite Hp|]).
  - change (stateObjectsDestruct (put a (setState k v g o) (pushed e s)))
      with (stateObjectsDestruct s).
    rewrite current_setState. cbn [fst snd]. unfold slot_eqb. rewrite Z.eqb_refl. f_equal.
    + destruct (decide (x = k)) as [->|Hx]; [rewrite Z.eqb_refl|].
      * destruct (Z.eqb_spec v g); [by subst|done].
      * by rewrite (proj2 (Z.eqb_neq x k)).
    + unfold setState. by case_if.
  - unfold slot_eqb. rewrite (proj2 (Z.eqb_neq b a)) by done. cbn.
    by destruct (objectAt reader s b).
  - destruct Hd as [-> ->]. by rewrite Hc.
  - done.
Qed.

Lemma SetState_view s a k v : state_ok reader s ->
  wp (fun _ => False) (SetState reader a k v) (fun prev s1 =>
    prev = (w_storage reader s a k).1 /\ slot_set s a k v s1) s.
Proof using Hreader.
  intros Hs. unfold SetState. apply wp_bind, getOrNew_view; [done|]. intros o s1 Hs1 Hp1 Hw1.
  unfold obj_SetState, obj_getState. do 2 apply wp_bind.
  apply wp_obj_GetCommittedState; [done..|]. intros o1 s2 Hq2 Hp2 Heq _.
  assert (Hw2 : world reader s s2) by (etrans; [exact Hw1|by apply quiet_world]).
  assert (Hds : stateObjectsDestruct s2 = stateObjectsDestruct s1) by apply Hq2.
  rewrite <- Hds in Heq. rewrite <- Hds, <- (oe_committed _ _ _ _ _ Heq k).
  set (ds := stateObjectsDestruct s2) in *.
  assert (Hcur : w_storage reader s a k = (current reader ds a o1 k, committed reader ds a o1 k)).
  { rewrite <- (w_slots _ _ _ Hw2). unfold w_storage. by rewrite Hp2. }
  assert (Hend : forall p, p = current reader ds a o1 k ->
    wp (fun _ => False) (if p =? v then mret p
       else append (storageChange a k p (committed reader ds a o1 k));;
            setStateObject a (setState k v (committed reader ds a o1 k) o1);; mret p)
     (fun prev s1 => prev = (w_storage reader s a k).1 /\ slot_set s a k v s1) s2).
  { intros p Hp. rewrite Hcur. case_if; bool_to_Z.
    - apply wp_ret. split; [done|]. apply slot_set_same; [done|]. rewrite Hcur. by subst.
    - split; [done|]. eapply slot_set_world; [exact Hw2|]. by apply slot_set_put. }
  unfold current in Hend. destruct (dirtyStorage o1 !! k); by apply Hend.
Qed.

Lemma SetState_ok s a k v prev s1 :
  state_ok reader s -> SetState reader a k v s = Ret (prev, s1) -> state_ok reader s1.
Proof using Hreader.
  intros Hs E. pose proof (step_spec reader Hreader _ (VM.SetState a k v) s Hs I) as H.
  cbn [run] in H. rewrite E in H. apply H.
Qed.

(** Storage is a map: after [SetState a k v], [GetState] returns [v] at that slot and what
    it returned before at every other slot of every account; [SetState] itself returns the
    previous value. *)
Theorem storage_get_set (s : state) (a k v : Z) :
  state_ok reader s ->
  exists prev s1, SetState reader a k v s = Ret (prev, s1) /\
    (exists s', GetState reader a k s = Ret (prev, s')) /\
    forall b x old s', GetState reader b x s = Ret (old, s') ->
      exists s'', GetState reader b x s1 = Ret (if (b =? a) && (x =? k) then v else old, s'').
Proof using Hreader.
  intros Hs. pose proof (SetState_view s a k v Hs) as H. unfold wp in H.
  destruct (SetState reader a k v s) as [[prev s1]|] eqn:E; [|done].
  destruct H as (-> & Hset & _). eexists _, s1. split; [done|].
  split; [by apply GetState_view|]. intros b x old s' Hold.
  destruct (GetState_view s b x Hs) as [s0 E0]. rewrite E0 in Hold. injection Hold as <- _.
  destruct (GetState_view s1 b x) as [s2 E2]; [by eapply SetState_ok|].
  exists s2. rewrite E2, Hset. done.
Qed.

(** ** Access list *)

(** What [Contains] answers, as sets. *)
Definition al_has (al : accessList) (a : Address) : bool := ContainsAddress al a.
Definition al_hasSlot (al : accessList) (a : Address) (k : Hash) : bool :=
  match addresses al !! a with
  | Some i => if i =? -1 then false
              else match slots al !! Z.to_nat i with
                   | Some m => bool_decide (k ∈ m)
                   | None => false
                   end
  | None => false
  end.

Lemma Contains_view al a k : access_ok al -> Contains al a k = Ret (al_has al a, al_hasSlot al a k).
Proof.
  intros [Hi _ _]. unfold Contains, al_has, ContainsAddress, al_hasSlot.
  destruct (addresses al !! a) as [i|] eqn:E; [|done]. case_if; [done|]. bool_to_Z.
  destruct (Hi _ _ E) as [?|Hr]; [done|]. unfold index.
  rewrite (proj2 (Z.leb_le 0 i)) by lia.
  destruct (lookup_lt_is_Some_2 (slots al) (Z.to_nat i)) as [m Hm]; [unfold len in Hr; lia|].
  by rewrite Hm.
Qed.

(** [al'] is [al] with the address [a] and its slot [k]. *)
Definition al_added (al : accessList) (a : Address) (k : Hash) (al' : accessList) : Prop :=
  (forall b, al_has al' b = (b =? a) || al_has al b) /\
  (forall b x, al_hasSlot al' b x = (b =? a) && (x =? k) || al_hasSlot al b x).

Lemma al_firstSlot al a k : access_ok al -> (forall x, al_hasSlot al a x = false) ->
  al_added al a k
    (mkAccessList (<[a := len (slots al)]> (addresses al)) (slots al ++ [{[k]}])).
Proof.
  intros [Hi _ _] Hnone. unfold al_added, al_has, ContainsAddress. cbn. split.
  - intros b. destruct (Z.eqb_spec b a) as [->|Hb]; [by rewrite lookup_insert_eq|].
    by rewrite lookup_insert_ne.
  - intros b x. destruct (Z.eqb_spec b a) as [->|Hb].
    + rewrite Hnone, orb_false_r. unfold al_hasSlot. cbn. rewrite lookup_insert_eq.
      pose proof (len_nonneg (slots al)). rewrite (proj2 (Z.eqb_neq _ (-1))) by lia.
      unfold len. rewrite Nat2Z.id, list_lookup_middle by done.
      destruct (Z.eqb_spec x k) as [->|]; [apply bool_decide_eq_true_2|apply bool_decide_eq_false_2];
        by rewrite elem_of_singleton.
    + unfold al_hasSlot. cbn. rewrite lookup_insert_ne by done.
      destruct (addresses al !! b) as [i|] eqn:Eb; [|done].
      destruct (Z.eqb_spec i (-1)); [done|]. destruct (Hi _ _ Eb) as [|Hr]; [done|].
      rewrite lookup_app_l by (unfold len in Hr; lia). done.
Qed.

Lemma al_nextSlot al a k i m : access_ok al -> addresses al !! a = Some i -> i <> -1 ->
  slots al !! Z.to_nat i = Some m ->
  al_added al a k (mkAccessList (addresses al) (<[Z.to_nat i := {[k]} ∪ m]> (slots al))).
Proof.
  intros [Hi _ Hj] E Hn Hm. pose proof (lookup_lt_Some _ _ _ Hm) as Hlt.
  destruct (Hi _ _ E) as [?|Hr]; [done|]. split.
  - intros b. unfold al_has, ContainsAddress. cbn.
    destruct (Z.eqb_spec b a) as [->|]; [by rewrite E|done].
  - intros b x. unfold al_hasSlot. cbn. destruct (Z.eqb_spec b a) as [->|Hb].
    + rewrite E, (proj2 (Z.eqb_neq i (-1))), Hm by done. rewrite list_lookup_insert_eq by done.
      destruct (Z.eqb_spec x k) as [->|]; cbn.
      * apply bool_decide_eq_true_2. by apply elem_of_union_l, elem_of_singleton.
      * apply bool_decide_ext. rewrite elem_of_union, elem_of_singleton. tauto.
    + destruct (addresses al !! b) as [i'|] eqn:Eb; [|done].
      destruct (Z.eqb_spec i' (-1)); [done|]. destruct (Hi _ _ Eb) as [|Hr']; [done|].
      rewrite list_lookup_insert_ne; [done|]. intros Heq.
      destruct Hb. apply (Hj b a i); [done| |done]. rewrite Eb. f_equal. lia.
Qed.

(** The access list is a set of addresses and of slots: after [AddSlot a k], [Contains]
    reports the address [a] and the slot [(a, k)], and answers every other question as before;
    the two flags tell exactly whether the address and the slot are new. *)
Theorem access_list_add_contains (al : accessList) (a : Address) (k : Hash) :
  access_ok al ->
  exists addrMod slotMod al', AddSlot al a k = Ret (addrMod, slotMod, al') /\
    Contains al a k = Ret (negb addrMod, negb slotMod) /\ al_added al a k al'.
Proof.
  intros Hok. rewrite Contains_view by done. unfold AddSlot.
  destruct (addresses al !! a) as [i|] eqn:E; [case_if; bool_to_Z|].
  - subst i. assert (Hn : forall x, al_hasSlot al a x = false) by (unfold al_hasSlot; by rewrite E).
    eexists _, _, _. split; [done|]. split; [|by apply al_firstSlot]. rewrite Hn.
    unfold al_has, ContainsAddress. by rewrite E.
  - destruct (al_idx _ Hok _ _ E) as [?|Hr]; [done|].
    destruct (index_ok (slots al) i Hr) as (m & Hm & ->). cbn.
    assert (Hv : al_has al a = true /\ al_hasSlot al a k = bool_decide (k ∈ m)).
    { unfold al_has, ContainsAddress, al_hasSlot. by rewrite E, (proj2 (Z.eqb_neq i (-1))), Hm. }
    destruct Hv as [-> Hs]. rewrite Hs.
    case_bool_decide as Hk; eexists _, _, _; (split; [done|]); (split; [done|]).
    + pose proof (al_nextSlot al a k i m Hok E ltac:(done) Hm) as Hadd.
      assert (Heq : {[k]} ∪ m = m) by (apply subseteq_union_1_L; by apply singleton_subseteq_l).
      rewrite Heq, list_insert_id in Hadd by done. by destruct al.
    + by apply al_nextSlot.
  - assert (Hn : forall x, al_hasSlot al a x = false) by (unfold al_hasSlot; by rewrite E).
    eexists _, _, _. split; [done|]. split; [|by apply al_firstSlot]. rewrite Hn.
    unfold al_has, ContainsAddress. by rewrite E.
Qed.

(** ** Balances *)

Definition balanceOf (s : state) (a : Address) : word := (w_account reader s a).1.1.1.

(** Only the balance of [a] may have changed, to [w]. *)
Definition balance_set (s : state) (a : Address) (w : word) (s1 : state) : Prop :=
  (forall b, w_account reader s1 b =
    if b =? a then (w, (w_account reader s a).1.1.2, (w_account reader s a).1.2, (w_account reader s a).2)
    else w_account reader s b) /\
  (forall b x, w_storage reader s1 b x = w_storage reader s b x).

Lemma balance_set_same s a s2 : world reader s s2 -> balance_set s a (balanceOf s a) s2.
Proof.
  intros Hw. split; [|apply Hw]. intros b. rewrite (w_accounts _ _ _ Hw). unfold balanceOf.
  destruct (Z.eqb_spec b a) as [->|]; [|done]. by destruct (w_account reader s a) as [[[]]].
Qed.

Lemma balance_set_world s a w s2 s3 :
  world reader s s2 -> balance_set s2 a w s3 -> balance_set s a w s3.
Proof.
  intros [Ha Hs _ _ _] [H1 H2]. split.
  - intros b. by rewrite H1, !Ha.
  - intros b x. by rewrite H2, Hs.
Qed.

Lemma balance_set_put s a w o e : objectAt reader s a = Some o ->
  balance_set s a w (put a (setBalance w o) (pushed e s)).
Proof.
  intros Hp. split; intros b; [|intros x]; unfold w_storage, w_account; rewrite objectAt_put;
    change (objectAt reader (pushed e s) b) with (objectAt reader s b);
    (destruct (decide (b = a)) as [->|Hne]; [rewrite Hp|]).
  - by rewrite Z.eqb_refl.
  - by rewrite (proj2 (Z.eqb_neq b a)).
  - done.
  - done.
Qed.

Lemma objectAt_balance s a o : objectAt reader s a = Some o -> balanceOf s a = Balance (data o).
Proof. intros Hp. unfold balanceOf, w_account. by rewrite Hp. Qed.

Lemma balanceOf_world s s1 a : world reader s s1 -> balanceOf s1 a = balanceOf s a.
Proof. intros Hw. unfold balanceOf. by rewrite (w_accounts _ _ _ Hw). Qed.

Context {US : Uint256Spec U}.

Lemma Add_zero x w : IsZero w = true -> Add x w = x.
Proof using US.
  rewrite IsZero_spec. intros H%Z.eqb_eq. apply uval_inj. rewrite Add_spec, H, Z.add_0_r.
  apply Z.mod_small, uval_range.
Qed.
Lemma Sub_zero x w : IsZero w = true -> Sub x w = x.
Proof using US.
  rewrite IsZero_spec. intros H%Z.eqb_eq. apply uval_inj. rewrite Sub_spec, H, Z.sub_0_r.
  apply Z.mod_small, uval_range.
Qed.

Lemma AddBalance_view s a w : state_ok reader s ->
  wp (fun _ => False) (AddBalance reader a w) (fun _ s1 =>
    balance_set s a (Add (balanceOf s a) w) s1) s.
Proof using Hreader US.
  intros Hs. unfold AddBalance. apply wp_bind, getOrNew_view; [done|]. intros o s1 Hs1 Hp1 Hw1.
  rewrite <- (balanceOf_world s s1), (objectAt_balance s1 a o) by done.
  unfold obj_AddBalance. case_if.
  - rewrite Add_zero by done. rewrite <- (objectAt_balance s1 a o), (balanceOf_world s s1) by done.
    apply wp_bind. case_if; [|by apply balance_set_same].
    unfold journal_touchChange. apply wp_bind, wp_modify.
    case_if; [apply wp_modify|apply wp_ret]; apply wp_ret, balance_set_same;
      (etrans; [exact Hw1|by apply world_eq]).
  - eapply balance_set_world; [exact Hw1|]. by apply balance_set_put.
Qed.

Lemma SubBalance_view s a w : state_ok reader s ->
  wp (fun _ => False) (SubBalance reader a w) (fun _ s1 =>
    balance_set s a (Sub (balanceOf s a) w) s1) s.
Proof using Hreader US.
  intros Hs. unfold SubBalance. apply wp_bind, getOrNew_view; [done|]. intros o s1 Hs1 Hp1 Hw1.
  rewrite <- (balanceOf_world s s1), (objectAt_balance s1 a o) by done. case_if.
  - rewrite Sub_zero by done. rewrite <- (objectAt_balance s1 a o), (balanceOf_world s s1) by done.
    by apply balance_set_same.
  - eapply balance_set_world; [exact Hw1|]. by apply balance_set_put.
Qed.

Lemma balance_set_at s a w s1 b : balance_set s a w s1 ->
  balanceOf s1 b = if b =? a then w else balanceOf s b.
Proof. intros [H _]. unfold balanceOf. rewrite H. by case_if. Qed.

(** A transfer that [CanTransfer] allows moves exactly the amount: the sender loses it, the
    recipient gains it (no wrap-around as long as the recipient's balance fits in 256 bits),
    and every other balance, every nonce, code and storage slot is unchanged; a transfer to
    oneself changes nothing. *)
Theorem transfer_moves_amount (v : VM state) (sender recipient : Address) (amount : word) :
  state_ok reader (statedb v) ->
  uval amount <= uval (balanceOf (statedb v) sender) ->
  (sender <> recipient ->
    uval (balanceOf (statedb v) recipient) + uval amount < two256) ->
  exists v', Transfer (DB := state_StateDB reader) sender recipient amount v = Ret (tt, v') /\
    (forall b, uval (balanceOf (statedb v') b) = uval (balanceOf (statedb v) b)
       - (if b =? sender then uval amount else 0) + (if b =? recipient then uval amount else 0)) /\
    (forall b, (w_account reader (statedb v') b).1.1.2 = (w_account reader (statedb v) b).1.1.2 /\
       (w_account reader (statedb v') b).1.2 = (w_account reader (statedb v) b).1.2) /\
    (forall b k, w_storage reader (statedb v') b k = w_storage reader (statedb v) b k).
Proof using Hreader US.
  intros Hs Hle Hfit. destruct v as [s d t j al ro rd]. cbn [statedb] in *.
  pose proof (SubBalance_view s sender amount Hs) as H1. unfold wp in H1.
  pose proof (step_spec reader Hreader _ (VM.SubBalance sender amount) s Hs I) as Hok1.
  cbn [run] in Hok1. destruct (SubBalance reader sender amount s) as [[p1 s1]|] eqn:E1; [|done].
  destruct Hok1 as [Hs1 _].
  pose proof (AddBalance_view s1 recipient amount Hs1) as H2. unfold wp in H2.
  destruct (AddBalance reader recipient amount s1) as [[p2 s2]|] eqn:E2; [|done].
  exists (mkVM s2 d t j al ro rd). cbn [statedb].
  split. { unfold Transfer, vm_db, mbind, st_bind. cbn [sdb state_StateDB run statedb].
           rewrite E1. cbn. by rewrite E2. }
  assert (Hb1 : forall b, uval (balanceOf s1 b) = uval (balanceOf s b) - if b =? sender then uval amount else 0).
  { intros b. rewrite (balance_set_at _ _ _ _ _ H1). case_if; bool_to_Z; [subst b|lia].
    rewrite Sub_spec. pose proof (uval_range (balanceOf s sender)). pose proof (uval_range amount).
    apply Z.mod_small. lia. }
  split; [|split].
  - intros b. rewrite (balance_set_at _ _ _ _ _ H2), <- Hb1. case_if; bool_to_Z; [subst b|lia].
    rewrite Add_spec, Hb1. pose proof (uval_range (balanceOf s recipient)).
    pose proof (uval_range amount). apply Z.mod_small.
    destruct (Z.eqb_spec recipient sender) as [->|Hne]; [lia|].
    specialize (Hfit (not_eq_sym Hne)). lia.
  - intros b. destruct H2 as [H2 _], H1 as [H1 _]. rewrite H2, !H1.
    destruct (Z.eqb_spec b recipient) as [->|]; cbn; case_if; bool_to_Z; subst; done.
  - intros b k. destruct H2 as [_ H2], H1 as [_ H1]. by rewrite H2, H1.
Qed.
End state_theorems.

(** ** Reverting [SetCode] on an account whose code was not loaded *)

(** [SetCode], snapshot around it, and what [GetCode] returns afterwards. *)
Definition result_of {A} (r : Outcome (A * state)) : Outcome A :=
  match r with Ret (x, _) => Ret x | Fail e => Fail e end.

Definition setCode_reverted (warmUp : bool) : Outcome bytes := result_of (
  ((if warmUp then GetCode demo_reader writer;; mret tt else mret tt);;
   id ← Snapshot;
   SetCode demo_reader writer [0];;
   RevertToSnapshot demo_reader id;;
   GetCode demo_reader writer) New).

(** The journal entry of [SetCode] holds the code cached in the object.  When the code has not
    been loaded, reverting installs the empty code: the account loses its code.  With the code
    loaded first, reverting restores it. *)
Theorem setCode_revert_needs_loaded_code :
  setCode_reverted false = Ret [] /\ setCode_reverted true = Ret writer_code /\
  result_of (GetCode demo_reader writer New) = Ret writer_code.
Proof. split_and!; vm_compute; reflexivity. Qed.

(** ** Witnesses *)

(** A session on the concrete state: two writes, an account that is created in a scope and
    reverted with it, a log and a self-destruct. *)
Lemma demo_session s1 : state_ok demo_reader s1 -> exists s2, session (SP := demo_spec) s1 s2 /\ True.
Proof.
  intros H1.
  eapply (session_next (SP := demo_spec) _ (VM.SetState writer 0 9)); [exact H1|exact I|done|]. intros s2 H2.
  eapply (session_next (SP := demo_spec) _ (VM.AddBalance (U := ref_uint256) user (mk256 5))); [exact H2|exact I|done|]. intros s3 H3.
  eapply (session_next (SP := demo_spec) _ (VM.AddLog (mkLog writer [] [] 1))); [exact H3|exact I|done|]. intros s4 H4.
  eapply (session_next (SP := demo_spec) _ (VM.SelfDestruct writer)); [exact H4|exact I|done|]. intros s5 H5.
  exists s5. split; [constructor|done].
Qed.

Lemma snapshot_roundtrip_witness : exists s1 s2 s3,
  Snapshot New = Ret (0, s1) /\ session (SP := demo_spec) s1 s2 /\
  RevertToSnapshot demo_reader 0 s2 = Ret (tt, s3) /\ seq demo_reader New s3.
Proof.
  destruct (Snapshot New) as [[id s1]|] eqn:E1; [|discriminate E1].
  assert (id = 0) as -> by (injection E1 as <- _; reflexivity).
  destruct (demo_session s1) as (s2 & Hs & _).
  { eapply (Snapshot_spec demo_reader New _ s1 New_ok E1). }
  destruct (snapshot_roundtrip demo_reader demo_reader_ok New s1 s2 0 New_ok E1 Hs)
    as (s3 & E3 & Hq & _).
  exists s1, s2, s3. split; [reflexivity|]. split; [exact Hs|]. split; [exact E3|exact Hq].
Defined.


Lemma storage_get_set_witness : exists prev s1,
  SetState demo_reader writer 0 5 New = Ret (prev, s1) /\
  exists s'', GetState demo_reader writer 0 s1 = Ret (5, s'').
Proof.
  destruct (storage_get_set demo_reader demo_reader_ok New writer 0 5 New_ok)
    as (prev & s1 & E & [s' Hp] & H).
  exists prev, s1. split; [exact E|]. destruct (H writer 0 prev s' Hp) as [s'' E'']. by exists s''.
Defined.

Lemma access_list_add_contains_witness : exists addrMod slotMod al',
  AddSlot newAccessList 7 3 = Ret (addrMod, slotMod, al') /\
  Contains newAccessList 7 3 = Ret (negb addrMod, negb slotMod) /\ al_added newAccessList 7 3 al'.
Proof. exact (access_list_add_contains newAccessList 7 3 (ok_access _ _ New_ok)). Defined.

Lemma transfer_moves_amount_witness : exists v',
  Transfer (DB := state_StateDB demo_reader) user 300 (mk256 1000) demo_vm = Ret (tt, v') /\
  uval (balanceOf demo_reader (statedb v') 300) = 1000.
Proof.
  destruct (transfer_moves_amount demo_reader demo_reader_ok demo_vm user 300 (mk256 1000) New_ok)
    as (v' & E & H & _).
  - vm_compute. discriminate.
  - intros _. vm_compute. reflexivity.
  - exists v'. split; [exact E|]. rewrite H. vm_compute. reflexivity.
Defined.
