(* ===== verification/MachineTheorems.v ===== *)
(** * What the parts of the virtual machine guarantee

    Memory and its fee, jump destinations, the gas of calls, call data access, and the instruction
    tables of the forks. *)

From S2P Require Import Prelude Bytes Uint256 Params Machine Opcodes Analysis JumpTable VM GasTable Instructions Evm StateSpec Frames InstrSpec TableSpec Scenario.

Section machine_theorems.
Context `{U : Uint256} {US : Uint256Spec U} `{C : Crypto}.

(** [memoryGasCost], on a memory whose fee is paid, rejects sizes above the limit and
    otherwise charges exactly the difference of the total fees [3w + w^2/512] of the new and
    the old size, without overflow, and records the new total. *)
Theorem memory_fee_exact (m : Memory) (n : Z) :
  mem_ok m -> 0 <= n -> n mod 32 = 0 ->
  if maxMemSize <? n then memoryGasCost m n = ((0, Some ErrGasUintOverflow), m)
  else exists m', memoryGasCost m n =
      ((memFee (Z.max (len (store m)) n / 32) - memFee (len (store m) / 32), None), m') /\
    store m' = store m /\ lastGasCost m' = memFee (Z.max (len (store m)) n / 32).
Proof.
  intros Hm Hn H32. case_if; bool_to_Z.
  - unfold memoryGasCost, maxMemSize in *. rewrite (proj2 (Z.eqb_neq n 0)) by lia.
    by rewrite (proj2 (Z.ltb_lt _ _)).
  - destruct (memoryGasCost m n) as [[c e] m'] eqn:E.
    assert (e = None) as ->.
    { unfold memoryGasCost, maxMemSize in *. repeat case_match; simplify_eq; bool_to_Z; done || lia. }
    apply memoryGasCost_exact in E as ((? & _ & ?) & -> & _); [|done..]. by exists m'.
Qed.

(** [Set] followed by [GetCopy] of the same region returns the bytes that were set, and
    bytes outside the region are not touched. *)
Theorem memory_set_get (m : Memory) (off size : Z) (value : bytes) :
  mem_ok m -> region_ok m off size -> Forall is_byte value -> len value = size ->
  exists m', Memory_Set m off size value = Ret m' /\ mem_ok m' /\
    Memory_GetCopy m' off size = Ret value /\
    forall i, 0 <= i < len (store m) -> (i < off \/ off + size <= i) -> 0 < size ->
      store m' !! Z.to_nat i = store m !! Z.to_nat i.
Proof.
  intros Hm Hr Hv Hl. destruct (Set_ok m off size value Hm Hr Hv) as (m' & E & Hm' & Hlen).
  exists m'. split; [done|]. split; [done|]. pose proof (len_nonneg value).
  unfold Memory_Set in E. destruct (Z.ltb_spec 0 size) as [Hpos|Hz].
  2: { assert (size = 0) as Hz0 by lia. split; [|lia]. unfold Memory_GetCopy. rewrite Hz0.
       destruct value; [done|]. rewrite len_cons in Hl. pose proof (len_nonneg value). lia. }
  destruct (region_wrap m off size) as (Hw & H0 & _ & Hend); [done|done|lia|].
  rewrite Hw in E. rewrite (proj2 (Z.ltb_ge (len (store m)) (off + size))), slice_ok in E by lia. cbn in E. injection E as <-.
  assert (Hs : write_at (store m) off size value =
    take (Z.to_nat off) (store m) ++ value ++ drop (Z.to_nat off + length value) (store m)).
  { unfold write_at. rewrite (take_ge value) by (unfold len in *; lia). done. }
  assert (Hto : length (take (Z.to_nat off) (store m)) = Z.to_nat off)
    by (rewrite length_take; unfold len in *; lia).
  cbn in Hlen. split.
  - unfold Memory_GetCopy. cbn. rewrite (proj2 (Z.eqb_neq size 0)), Hw by lia.
    rewrite slice_ok by lia. unfold zslice. rewrite Hs, drop_app_length' by done.
    rewrite take_app_length'; [done|]. unfold len in *. lia.
  - intros i Hi Hout _. cbn. rewrite Hs. destruct Hout as [Hlt|Hge].
    + rewrite lookup_app_l by (rewrite Hto; lia). rewrite lookup_take_lt by lia. done.
    + rewrite lookup_app_r by (rewrite Hto; lia). rewrite Hto.
      rewrite lookup_app_r by (unfold len in *; lia). rewrite lookup_drop. f_equal.
      unfold len in *. lia.
Qed.

(** Call data, code and return data are read as if followed by infinitely many zeroes:
    [getData] returns exactly [size] bytes for a request that ends after the data or lies
    inside it, byte [i] being that at [start + i], or zero past the end. *)
Theorem getData_zero_padded (d : bytes) (start size : Z) :
  data_ok d -> 0 <= start -> 0 <= size < 2 ^ 63 ->
  exists r, getData d start size = Ret r /\ len r = size /\
    forall i, 0 <= i < size ->
      r !! Z.to_nat i = Some (default 0 (d !! Z.to_nat (start + i))).
Proof.
  intros [Hb Hl] H0 Hz. unfold getData. rewrite (to_int_small size) by lia. pose proof (len_nonneg d).
  set (st := if len d <? start then len d else start).
  assert (Hst : 0 <= st <= len d /\ st <= start /\ (st < start -> st = len d))
    by (unfold st; case_if; bool_to_Z; lia).
  rewrite (wrap64_small (st + size)) by (unfold_u64; lia).
  set (en := if len d <? st + size then len d else st + size).
  assert (Hen : st <= en <= len d /\ en - st <= size /\ (en - st < size -> en = len d))
    by (unfold en; case_if; bool_to_Z; lia).
  rewrite slice_ok by lia. eexists. split; [reflexivity|]. split.
  { rewrite RightPadBytes_len, len_zslice by lia. lia. }
  intros i Hi.
  assert (Hin : forall j, 0 <= j < en - st -> zslice d st en !! Z.to_nat j = d !! Z.to_nat (st + j)).
  { intros j Hj. unfold zslice. rewrite lookup_take_lt by lia. rewrite lookup_drop. f_equal. lia. }
  assert (Hsome : forall p, 0 <= p < len d -> is_Some (d !! Z.to_nat p)).
  { intros p Hp. apply lookup_lt_is_Some_2. unfold len in Hp. lia. }
  assert (Hpast : en - st <= i -> d !! Z.to_nat (start + i) = None).
  { intros Hi'. apply lookup_ge_None_2. unfold len in *. lia. }
  unfold RightPadBytes. rewrite len_zslice by lia.
  destruct (Z.lt_ge_cases i (en - st)) as [Hlt|Hge].
  - assert (st = start) as Heq by lia.
    assert (Hd : zslice d st en !! Z.to_nat i = Some (default 0 (d !! Z.to_nat (start + i)))).
    { rewrite Hin by lia. rewrite Heq. destruct (Hsome (start + i)) as [b ->]; [lia|done]. }
    case_if; [exact Hd|]. rewrite lookup_app_l by (apply lookup_lt_Some in Hd; done). exact Hd.
  - rewrite Hpast by lia. case_if; bool_to_Z; [lia|].
    assert (Hzl : length (zslice d st en) = Z.to_nat (en - st)).
    { pose proof (len_zslice d st en ltac:(lia) ltac:(lia)) as Hx. unfold len in Hx at 1. lia. }
    rewrite lookup_app_r by lia. unfold zreplicate. apply lookup_replicate_2. lia.
Qed.

(** Under EIP-150 a call never fails for the gas it asks for: it gets what it asks for, but
    at most all but one 64th of what is left after the base cost. *)
Theorem callGas_all_but_one_64th (availableGas base : Z) (callCost : word) :
  is_u64 availableGas -> 0 <= base <= availableGas ->
  callGas true availableGas base callCost =
    (Z.min ((availableGas - base) - (availableGas - base) / 64) (uval callCost), None).
Proof.
  intros Ha Hb. unfold callGas. cbn [andb].
  rewrite (wrap64_small (availableGas - base)) by (unfold_u64; lia).
  set (g := availableGas - base). assert (Hg : 0 <= g < two64) by (unfold g; unfold_u64; lia).
  pose proof (Z.div_pos g 64 ltac:(lia) ltac:(lia)).
  pose proof (Z.div_le_upper_bound g 64 g ltac:(lia) ltac:(lia)).
  rewrite (wrap64_small (g - g / 64)) by (unfold_u64; lia).
  pose proof (uval_range callCost) as Hr. rewrite IsUint64_spec, Uint64_spec.
  destruct (Z.ltb_spec (uval callCost) two64) as [Hlt|Hge]; cbn [negb orb].
  - rewrite Z.mod_small by lia. destruct (Z.ltb_spec (g - g / 64) (uval callCost)); f_equal; lia.
  - f_equal. lia.
Qed.

(** *** Jumps *)

Lemma codeSegment_exact code a i :
  Forall is_byte code -> codeBitmap code = Ret a -> 0 <= i < len code ->
  exists b, codeSegment a i = Ret b /\ (b = true <-> instr_start code i).
Proof.
  intros Hb Ha Hi. destruct (codeBitmap_spec code Hb) as (bits & Hbits & Hl & Hx).
  rewrite Ha in Hbits. injection Hbits as <-. exists (negb (bitAt a i)). split.
  - apply codeSegment_bitAt; [lia|]. rewrite Hl. pose proof (Z.div_le_mono i (len code) 8). lia.
  - rewrite negb_true_iff. auto.
Qed.

Lemma isCode_exact c j i :
  contract_ok c -> cache_ok j -> ~ collision -> 0 <= i < len (Code c) ->
  exists b c' j', isCode c j i = Ret (b, c', j') /\ (b = true <-> instr_start (Code c) i).
Proof.
  intros Hc Hj Hcol Hi. unfold isCode. destruct (c_code _ Hc) as [Hbytes _].
  assert (Hlook : forall a (c' : Contract) (j' : gmap Z bitvec), codeBitmap (Code c) = Ret a ->
    exists b c'' j'', (b ← codeSegment a i; Ret (b, c', j')) = Ret (b, c'', j'') /\
      (b = true <-> instr_start (Code c) i)).
  { intros a c' j' Ha. destruct (codeSegment_exact (Code c) a i Hbytes Ha Hi) as (b & -> & Hb).
    cbn. eauto. }
  destruct (codeBitmap_spec (Code c) Hbytes) as (bits & Hbits & _).
  destruct (analysis c) as [a|] eqn:Ea.
  { destruct (c_analysis _ Hc a Ea) as (code & Hk & Hbm). apply Hlook.
    destruct (decide (code = Code c)) as [->|Hne]; [done|]. destruct Hcol. by exists code, (Code c). }
  case_if; bool_to_Z; [|rewrite Hbits; by apply Hlook].
  destruct (j !! CodeHash c) as [a|] eqn:Ej; [|rewrite Hbits; by apply Hlook].
  apply Hlook. destruct (Hj _ _ Ej) as (code & Hk & Hbm).
  destruct (c_hash _ Hc) as [?|Hh]; [done|]. rewrite Hh in Hk.
  destruct (decide (code = Code c)) as [->|Hne]; [done|]. destruct Hcol. by exists code, (Code c).
Qed.

(** A jump is allowed exactly to the positions of the code that hold a JUMPDEST byte and
    begin an instruction, never into the immediate data of a PUSH; the bitmap may come from the
    contract, from the shared cache or from a fresh analysis. *)
Theorem validJumpdest_correct (c : Contract) (cache : gmap Z bitvec) (dest : word) :
  contract_ok c -> cache_ok cache -> ~ collision ->
  exists b c' cache', validJumpdest c cache dest = Ret (b, c', cache') /\
    (b = true <-> uval dest < len (Code c) /\
       Code c !! Z.to_nat (uval dest) = Some JUMPDEST /\ instr_start (Code c) (uval dest)).
Proof.
  intros Hc Hj Hcol. unfold validJumpdest. rewrite Uint64WithOverflow_spec.
  destruct (c_code _ Hc) as [_ Hlen]. pose proof (uval_range dest).
  destruct (Z.leb_spec two64 (uval dest)) as [Hbig|Hsmall]; cbn [orb].
  { eexists _, _, _. split; [done|]. split; [done|]. unfold two64 in *. lia. }
  rewrite Z.mod_small by lia.
  destruct (Z.leb_spec (len (Code c)) (uval dest)) as [Hge|Hlt].
  { eexists _, _, _. split; [done|]. split; [done|]. lia. }
  destruct (index_ok (Code c) (uval dest)) as (op & Hop & ->); [lia|]. cbn [mbind outcome_bind].
  destruct (Z.eqb_spec op JUMPDEST) as [->|Hne]; cbn [negb].
  - destruct (isCode_exact c cache (uval dest) Hc Hj Hcol ltac:(lia)) as (b & c' & j' & -> & Hb).
    eexists _, _, _. split; [done|]. rewrite Hb. tauto.
  - eexists _, _, _. split; [done|]. split; [done|]. intros (_ & Hx & _). congruence.
Qed.
End machine_theorems.

(** ** Witnesses *)

Lemma demo_mem_ok : mem_ok (mkMemory (zreplicate 64 0) (memFee 2)).
Proof. split; [apply Forall_zreplicate_0|done|done|done]. Qed.

Lemma memory_fee_exact_witness : exists m',
  memoryGasCost (mkMemory (zreplicate 64 0) (memFee 2)) 1024 = ((92, None), m') /\
  lastGasCost m' = 98.
Proof.
  destruct (memory_fee_exact (mkMemory (zreplicate 64 0) (memFee 2)) 1024 demo_mem_ok)
    as (m' & E & _ & Hl); [lia|done|]. exists m'. split; [exact E|exact Hl].
Defined.

Lemma memory_set_get_witness : exists m',
  Memory_Set (mkMemory (zreplicate 64 0) (memFee 2)) 3 2 [7; 8] = Ret m' /\
  Memory_GetCopy m' 3 2 = Ret [7; 8].
Proof.
  destruct (memory_set_get (mkMemory (zreplicate 64 0) (memFee 2)) 3 2 [7; 8] demo_mem_ok)
    as (m' & E & _ & G & _).
  - right. split; [lia|]. split; [lia|]. vm_compute. discriminate.
  - by repeat constructor.
  - done.
  - by exists m'.
Defined.

Lemma getData_zero_padded_witness : exists r,
  getData [1; 2; 3] 1 4 = Ret r /\ r !! 1%nat = Some 3 /\ r !! 2%nat = Some 0.
Proof.
  destruct (getData_zero_padded [1; 2; 3] 1 4) as (r & E & _ & H).
  - split; [by repeat constructor|done].
  - lia.
  - lia.
  - exists r. split; [exact E|]. split; [exact (H 1 ltac:(lia))|exact (H 2 ltac:(lia))].
Defined.

Lemma callGas_all_but_one_64th_witness :
  callGas (U := ref_uint256) true 6500 100 (mk256 1000000) = (6300, None).
Proof. apply (callGas_all_but_one_64th (U := ref_uint256) 6500 100 (mk256 1000000)); [by split|lia]. Defined.

(** [PUSH1 0x5b JUMPDEST] *)
Definition jump_contract : Contract :=
  SetCallCode (NewContract 1 2 (mk256 0) 50) 0 [96; 91; 91].

Lemma jump_contract_ok : contract_ok jump_contract.
Proof.
  split; [by split| | |by left|].
  - split; [by repeat constructor|done].
  - split; [by repeat constructor|done].
  - intros a H. discriminate H.
Qed.

Lemma empty_cache_ok : cache_ok ∅.
Proof. intros h a H. rewrite lookup_empty in H. discriminate H. Qed.

(** The second byte of the code is a JUMPDEST byte inside the data of the PUSH1. *)
Lemma validJumpdest_correct_witness : exists b c' cache',
  validJumpdest (U := ref_uint256) jump_contract ∅ (mk256 2) = Ret (b, c', cache') /\
  (b = true <-> uval (Uint256 := ref_uint256) (mk256 2) < len (Code jump_contract) /\
     Code jump_contract !! Z.to_nat (uval (Uint256 := ref_uint256) (mk256 2)) = Some JUMPDEST /\
     instr_start (Code jump_contract) (uval (Uint256 := ref_uint256) (mk256 2))).
Proof.
  exact (validJumpdest_correct (U := ref_uint256) jump_contract ∅ (mk256 2) jump_contract_ok empty_cache_ok
    demo_no_collision).
Defined.

Example jump_into_push_data :
  match validJumpdest (U := ref_uint256) jump_contract ∅ (mk256 1), validJumpdest (U := ref_uint256) jump_contract ∅ (mk256 2) with
  | Ret (b1, _, _), Ret (b2, _, _) => b1 = false /\ b2 = true
  | _, _ => False
  end.
Proof. vm_compute. done. Qed.

