(* ===== verification/ConfigTheorems.v ===== *)
(** * What the chain configuration guarantees

    Accepted configurations activate forks in order, compatible configurations agree on the past,
    and the search for the rewind point ends. *)

From stdpp Require Import strings.
From S2P Require Import Prelude Params ChainConfig.
Import Config.

#[local] Open Scope Z_scope.

(** ** Fork order *)

(** The schedule of [b] implies that of [a], not later. *)
Definition scheduled_before (a b : option Z) : Prop :=
  forall y, b = Some y -> exists x, a = Some x /\ x <= y.

#[global] Instance scheduled_before_preorder : PreOrder scheduled_before.
Proof.
  split.
  - intros a y ->. by exists y.
  - intros a b c H1 H2 z Hz. destruct (H2 z Hz) as (y & Hy & ?). destruct (H1 y Hy) as (x & Hx & ?).
    exists x. split; [done|lia].
Qed.

Lemma isBlockForked_before a b num :
  scheduled_before a b -> isBlockForked b num = true -> isBlockForked a num = true.
Proof.
  intros H Hb. destruct b as [y|], num as [n|]; try discriminate Hb.
  destruct (H y eq_refl) as (x & -> & ?). cbn in *. bool_to_Z. apply Z.leb_le. lia.
Qed.

Lemma isTimestampForked_before a b t :
  scheduled_before a b -> isTimestampForked b t = true -> isTimestampForked a t = true.
Proof.
  intros H Hb. destruct b as [y|]; try discriminate Hb.
  destruct (H y eq_refl) as (x & -> & ?). cbn in *. bool_to_Z. apply Z.leb_le. lia.
Qed.

(** A fork that passed the check against [last]. *)
Lemma checkFork_block last cur :
  timestamp last = None -> timestamp cur = None -> checkFork last cur = None ->
  scheduled_before (block last) (block cur).
Proof.
  unfold checkFork. intros -> -> H y Hy. rewrite Hy in H.
  destruct (block last) as [x|]; cbn in H; [|discriminate].
  destruct (Z.ltb_spec y x); [discriminate|]. by exists x.
Qed.

Lemma checkFork_time last cur :
  block last = None -> block cur = None -> checkFork last cur = None ->
  scheduled_before (timestamp last) (timestamp cur).
Proof.
  unfold checkFork. intros -> -> H y Hy. rewrite Hy in H.
  destruct (timestamp last) as [x|]; cbn in H; [|discriminate].
  destruct (Z.ltb_spec y x); [discriminate|]. by exists x.
Qed.

(** In a run of the loop over forks of one kind ([f] projects the schedule), every fork that is
    mandatory is scheduled before all that follow. *)
Lemma checkForks_ordered (f : fork -> option Z) l :
  forall last rest, checkForks (Some last) (l ++ rest) = None ->
  (forall a b, a ∈ last :: l -> b ∈ last :: l -> checkFork a b = None -> scheduled_before (f a) (f b)) ->
  (forall a, a ∈ l -> isSome (block a) || isSome (timestamp a) = isSome (f a)) ->
  Forall (fun cur => scheduled_before (f last) (f cur)) l /\
  (forall i a, l !! i = Some a -> optional a = false ->
     Forall (fun cur => scheduled_before (f a) (f cur)) (drop i l)).
Proof.
  induction l as [|cur l IH]; intros last rest Hc Hf Hk; [done|].
  cbn [checkForks app] in Hc. destruct (checkFork last cur) eqn:E; [discriminate|].
  assert (Hlc : scheduled_before (f last) (f cur)).
  { apply Hf; [left|right; left|done]. }
  rewrite Hk in Hc by left.
  destruct (negb (optional cur) || isSome (f cur)) eqn:Ho.
  - destruct (IH cur rest Hc) as [H1 H2].
    { intros a b Ha Hb. apply Hf; by right. }
    { intros a Ha. apply Hk. by right. }
    assert (Hall : Forall (fun x => scheduled_before (f cur) (f x)) (cur :: l)) by by constructor.
    split; [eapply Forall_impl; [exact Hall|]; intros x Hx; by etrans|].
    intros [|i] a Ha Hopt; [injection Ha as <-; done|]. by apply H2.
  - destruct (IH last rest Hc) as [H1 H2].
    { intros a b Ha Hb. apply Hf.
      - apply elem_of_cons in Ha as [->|]; [left|right; by right].
      - apply elem_of_cons in Hb as [->|]; [left|right; by right]. }
    { intros a Ha. apply Hk. by right. }
    split; [by constructor|].
    intros [|i] a Ha Hopt; [|by apply H2]. injection Ha as <-.
    rewrite Hopt in Ho. discriminate Ho.
Qed.

Lemma checkForks_app l : forall last rest, checkForks last (l ++ rest) = None ->
  exists last', checkForks last' rest = None.
Proof.
  induction l as [|cur l IH]; intros last rest H; [by exists last|].
  cbn [checkForks app] in H. destruct last as [last|]; [destruct (checkFork last cur)|]; try discriminate H.
  all: by eapply IH.
Qed.

(** The forks by block after Homestead, and those by time after Shanghai. *)
Lemma fork_order_blocks c : checkForks None (fork_list c) = None ->
  scheduled_before (HomesteadBlock c) (EIP150Block c) /\
  scheduled_before (EIP150Block c) (EIP155Block c) /\
  scheduled_before (EIP155Block c) (EIP158Block c) /\
  scheduled_before (EIP158Block c) (ByzantiumBlock c) /\
  scheduled_before (ByzantiumBlock c) (ConstantinopleBlock c) /\
  scheduled_before (ConstantinopleBlock c) (PetersburgBlock c) /\
  scheduled_before (PetersburgBlock c) (IstanbulBlock c) /\
  scheduled_before (IstanbulBlock c) (BerlinBlock c) /\
  scheduled_before (BerlinBlock c) (LondonBlock c).
Proof.
  intros H. change (checkForks (Some (mkFork "homesteadBlock" (HomesteadBlock c) None false))
    (take 14 (drop 1 (fork_list c)) ++ drop 15 (fork_list c)) = None) in H.
  destruct (checkForks_ordered block _ _ _ H) as [H0 Hi].
  { intros a b Ha Hb. apply checkFork_block.
    - by repeat (apply elem_of_cons in Ha as [->|Ha]; [done|]); apply not_elem_of_nil in Ha.
    - by repeat (apply elem_of_cons in Hb as [->|Hb]; [done|]); apply not_elem_of_nil in Hb. }
  { intros a Ha. repeat (apply elem_of_cons in Ha as [->|Ha]; [cbn; by rewrite orb_false_r|]).
    by apply not_elem_of_nil in Ha. }
  assert (Hij : forall i j a b, (i <= j)%nat -> take 14 (drop 1 (fork_list c)) !! i = Some a ->
    take 14 (drop 1 (fork_list c)) !! j = Some b -> optional a = false ->
    scheduled_before (block a) (block b)).
  { intros i j a b Hle Ha Hb Ho. specialize (Hi i a Ha Ho). rewrite Forall_lookup in Hi.
    apply (Hi (j - i)%nat). rewrite lookup_drop. by replace (i + (j - i))%nat with j by lia. }
  rewrite Forall_lookup in H0. split_and!.
  - exact (H0 1%nat _ eq_refl).
  - exact (Hij 1%nat 2%nat _ _ ltac:(lia) eq_refl eq_refl eq_refl).
  - exact (Hij 2%nat 3%nat _ _ ltac:(lia) eq_refl eq_refl eq_refl).
  - exact (Hij 3%nat 4%nat _ _ ltac:(lia) eq_refl eq_refl eq_refl).
  - exact (Hij 4%nat 5%nat _ _ ltac:(lia) eq_refl eq_refl eq_refl).
  - exact (Hij 5%nat 6%nat _ _ ltac:(lia) eq_refl eq_refl eq_refl).
  - exact (Hij 6%nat 7%nat _ _ ltac:(lia) eq_refl eq_refl eq_refl).
  - exact (Hij 7%nat 9%nat _ _ ltac:(lia) eq_refl eq_refl eq_refl).
  - exact (Hij 9%nat 10%nat _ _ ltac:(lia) eq_refl eq_refl eq_refl).
Qed.

Lemma fork_order_times c : checkForks None (fork_list c) = None ->
  Forall (fun t => scheduled_before (ShanghaiTime c) t)
    [CancunTime c; PragueTime c; OsakaTime c; VerkleTime c].
Proof.
  intros H. change (checkForks None (take 15 (fork_list c) ++ drop 15 (fork_list c)) = None) in H.
  apply checkForks_app in H as [last H].
  assert (Hs : checkForks (Some (mkFork "shanghaiTime" None (ShanghaiTime c) false))
    (drop 16 (fork_list c) ++ []) = None).
  { rewrite app_nil_r. cbn [checkForks drop fork_list optional negb orb] in *.
    destruct last as [last|]; [destruct (checkFork last _); [discriminate|]|]; exact H. }
  destruct (checkForks_ordered timestamp _ _ _ Hs) as [H0 _].
  { intros a b Ha Hb. apply checkFork_time.
    - by repeat (apply elem_of_cons in Ha as [->|Ha]; [done|]); apply not_elem_of_nil in Ha.
    - by repeat (apply elem_of_cons in Hb as [->|Hb]; [done|]); apply not_elem_of_nil in Hb. }
  { intros a Ha. by repeat (apply elem_of_cons in Ha as [->|Ha]; [done|]); apply not_elem_of_nil in Ha. }
  rewrite Forall_lookup in H0. repeat constructor.
  - exact (H0 0%nat _ eq_refl).
  - exact (H0 1%nat _ eq_refl).
  - exact (H0 2%nat _ eq_refl).
  - exact (H0 3%nat _ eq_refl).
Qed.

(** A configuration that [CheckConfigForkOrder] accepts activates the forks in order: at every
    block and time, a fork's rules are active only together with those of all the forks before
    it, and the forks scheduled by time only after Shanghai. *)
Theorem fork_order_monotone (c : ChainConfig) (num : option Z) (isMerge : bool) (time : Z) :
  CheckConfigForkOrder c = None ->
  let r := Rules c num isMerge time in
  (Params.IsLondon r = true -> Params.IsBerlin r = true) /\
  (Params.IsBerlin r = true -> Params.IsIstanbul r = true) /\
  (Params.IsIstanbul r = true -> Params.IsPetersburg r = true) /\
  (Params.IsPetersburg r = true -> Params.IsConstantinople r = true) /\
  (Params.IsConstantinople r = true -> Params.IsByzantium r = true) /\
  (Params.IsByzantium r = true -> Params.IsEIP158 r = true) /\
  (Params.IsEIP158 r = true -> Params.IsEIP155 r = true) /\
  (Params.IsEIP155 r = true -> Params.IsEIP150 r = true) /\
  (Params.IsEIP150 r = true -> Params.IsHomestead r = true) /\
  (Params.IsCancun r || Params.IsPrague r || Params.IsOsaka r || Params.IsVerkle r = true ->
     Params.IsShanghai r = true) /\
  (Params.IsShanghai r = true -> Params.IsMerge r = true /\ Params.IsLondon r = true).
Proof.
  unfold CheckConfigForkOrder. destruct (checkForks None (fork_list c)) eqn:E; [discriminate|].
  intros _. destruct (fork_order_blocks c E) as (?&?&?&?&?&Hcp&?&?&?).
  pose proof (fork_order_times c E) as Ht. rewrite !Forall_cons in Ht. destruct Ht as (?&?&?&?&_).
  cbn. split_and!; try by apply isBlockForked_before.
  - unfold IsIstanbul, IsPetersburg. intros Hi. by rewrite (isBlockForked_before _ (IstanbulBlock c)).
  - unfold IsPetersburg, IsConstantinople. intros [Hp|[_ Hp]%andb_prop]%orb_prop; [|done].
    by eapply isBlockForked_before.
  - unfold IsCancun, IsPrague, IsOsaka, IsVerkle, IsShanghai.
    destruct isMerge, (IsLondon c num); cbn; try done.
    intros [[[Hx|Hx]%orb_prop|Hx]%orb_prop|Hx]%orb_prop;
      (eapply isTimestampForked_before; [|exact Hx]; done).
  - unfold IsShanghai. destruct isMerge, (IsLondon c num); cbn; done.
Qed.

(** ** Compatibility *)

Lemma isBlockForked_mono s h h' : h' <= h ->
  isBlockForked s (Some h') = true -> isBlockForked s (Some h) = true.
Proof. destruct s as [s|]; cbn; [|done]. intros ? ?. bool_to_Z. apply Z.leb_le. lia. Qed.

Lemma isTimestampForked_mono s h h' : h' <= h ->
  isTimestampForked s h' = true -> isTimestampForked s h = true.
Proof. destruct s as [s|]; cbn; [|done]. intros ? ?. bool_to_Z. apply Z.leb_le. lia. Qed.

Lemma configBlockEqual_eq x y : configBlockEqual x y = true <-> x = y.
Proof.
  destruct x as [x|], y as [y|]; cbn; try by split.
  rewrite Z.eqb_eq. split; congruence.
Qed.

(** A fork that is compatible at a head was and is active at the same blocks below it. *)
Lemma block_compatible s1 s2 head num : num <= head ->
  isForkBlockIncompatible s1 s2 (Some head) = false ->
  isBlockForked s1 (Some num) = isBlockForked s2 (Some num).
Proof.
  intros Hn H. apply andb_false_iff in H as [[H1 H2]%orb_false_iff|H].
  - apply eq_bool_prop_intro. split; intros Hx; apply Is_true_true in Hx;
      rewrite (isBlockForked_mono _ head num) in * by done; discriminate.
  - apply negb_false_iff, configBlockEqual_eq in H. by subst.
Qed.

Lemma time_compatible s1 s2 head t : t <= head ->
  isForkTimestampIncompatible s1 s2 head = false ->
  isTimestampForked s1 t = isTimestampForked s2 t.
Proof.
  intros Hn H. apply andb_false_iff in H as [[H1 H2]%orb_false_iff|H].
  - apply eq_bool_prop_intro. split; intros Hx; apply Is_true_true in Hx;
      rewrite (isTimestampForked_mono _ head t) in * by done; discriminate.
  - apply negb_false_iff in H. change (configBlockEqual s1 s2 = true) in H.
    apply configBlockEqual_eq in H. by subst.
Qed.

Lemma firstConflict_None l : firstConflict l = None <-> Forall (fun x => x.1 = false) l.
Proof.
  induction l as [|[b e] l IH]; cbn; [by split|]. rewrite Forall_cons, <- IH. cbn.
  destruct b; split; try done; intros [Hb Hl]; [discriminate Hb|exact Hl].
Qed.

(** C37 A configuration that [checkCompatible] accepts for a chain agrees with the stored one on
    the whole past of the chain: at every block up to the head and every time up to its time the
    same rules are active, provided that both give the same Petersburg block and chain id. *)
Theorem checkCompatible_sound (c newcfg : ChainConfig) (head headTime num time : Z) (isMerge : bool) :
  checkCompatible c newcfg (Some head) headTime = None ->
  PetersburgBlock c = PetersburgBlock newcfg -> config_ChainID_ c = config_ChainID_ newcfg ->
  num <= head -> time <= headTime ->
  Rules c (Some num) isMerge time = Rules newcfg (Some num) isMerge time.
Proof.
  intros H Hp Hid Hn Ht. apply firstConflict_None in H. unfold compatChecks in H.
  rewrite !Forall_cons in H. cbn [fst] in H.
  destruct H as (?&?&_&?&?&?&_&?&?&_&?&?&?&?&?&?&?&?&?&?&?&?&_).
  unfold Rules, IsHomestead, IsEIP150, IsEIP155, IsEIP158, IsByzantium, IsConstantinople, IsPetersburg,
    IsIstanbul, IsBerlin, IsShanghai, IsCancun, IsPrague, IsOsaka, IsVerkle, IsLondon.
  rewrite Hid, Hp.
  repeat match goal with
  | H : isForkBlockIncompatible (?f c) _ _ = false |- _ =>
      rewrite (block_compatible _ _ _ num Hn H); clear H
  | H : isForkTimestampIncompatible (?f c) _ _ = false |- _ =>
      rewrite (time_compatible _ _ _ time Ht H); clear H
  end. done.
Qed.

(** ** The search for the rewind point *)

(** The tests of [checkCompatible] as functions of the head. *)
Definition test := Z -> Z -> bool * ConfigCompatError.

Definition compatTests (c newcfg : ChainConfig) : list test :=
  let blk what (f : ChainConfig -> option Z) h (t : Z) :=
    (isForkBlockIncompatible (f c) (f newcfg) (Some h), newBlockCompatError what (f c) (f newcfg)) in
  let tim what (f : ChainConfig -> option Z) (h : Z) t :=
    (isForkTimestampIncompatible (f c) (f newcfg) t, newTimestampCompatError what (f c) (f newcfg)) in
  [ blk "Homestead fork block"%string HomesteadBlock;
    blk "DAO fork block"%string DAOForkBlock;
    (fun h _ => (IsDAOFork c (Some h) && negb (Bool.eqb (DAOForkSupport c) (DAOForkSupport newcfg)),
       newBlockCompatError "DAO fork support flag" (DAOForkBlock c) (DAOForkBlock newcfg)));
    blk "EIP150 fork block"%string EIP150Block;
    blk "EIP155 fork block"%string EIP155Block;
    blk "EIP158 fork block"%string EIP158Block;
    (fun h _ => (IsEIP158 c (Some h)
        && negb (configBlockEqual (config_ChainID_ c) (config_ChainID_ newcfg)),
       newBlockCompatError "EIP158 chain ID" (EIP158Block c) (EIP158Block newcfg)));
    blk "Byzantium fork block"%string ByzantiumBlock;
    blk "Constantinople fork block"%string ConstantinopleBlock;
    (fun h _ => (isForkBlockIncompatible (PetersburgBlock c) (PetersburgBlock newcfg) (Some h)
        && isForkBlockIncompatible (ConstantinopleBlock c) (PetersburgBlock newcfg) (Some h),
       newBlockCompatError "Petersburg fork block" (PetersburgBlock c) (PetersburgBlock newcfg)));
    blk "Istanbul fork block"%string IstanbulBlock;
    blk "Muir Glacier fork block"%string MuirGlacierBlock;
    blk "Berlin fork block"%string BerlinBlock;
    blk "London fork block"%string LondonBlock;
    blk "Arrow Glacier fork block"%string ArrowGlacierBlock;
    blk "Gray Glacier fork block"%string GrayGlacierBlock;
    blk "Merge netsplit fork block"%string MergeNetsplitBlock;
    tim "Shanghai fork timestamp"%string ShanghaiTime;
    tim "Cancun fork timestamp"%string CancunTime;
    tim "Prague fork timestamp"%string PragueTime;
    tim "Osaka fork timestamp"%string OsakaTime;
    tim "Verkle fork timestamp"%string VerkleTime ].

Lemma compatChecks_tests c newcfg h t :
  compatChecks c newcfg (Some h) t = (fun f : test => f h t) <$> compatTests c newcfg.
Proof. reflexivity. Qed.

(** A test on a fork by block, or by time: it holds on from some head, and its error rewinds below
    every head at which it holds. *)
Record test_ok (f : test) : Prop := {
  test_err : forall h t h' t', (f h t).2 = (f h' t').2;
  test_mono : forall h t h' t', h' <= h -> t' <= t -> (f h' t').1 = true -> (f h t).1 = true;
  test_range : forall h t, is_u64 h -> is_u64 t -> (f h t).1 = true ->
    0 <= RewindToBlock (f h t).2 <= h /\ 0 <= RewindToTime (f h t).2 <= t;
  test_time : forall h t h', is_u64 h -> is_u64 t -> (f h t).1 = true ->
    0 < RewindToTime (f h t).2 -> (f h' (RewindToTime (f h t).2)).1 = false;
  test_block : forall h t t', is_u64 h -> is_u64 t -> (f h t).1 = true ->
    RewindToTime (f h t).2 = 0 -> 0 < RewindToBlock (f h t).2 ->
    (f (RewindToBlock (f h t).2) t').1 = false;
}.

Lemma rewindPoint_least s n (b : Z -> bool) h :
  (forall x, b x = true -> isTimestampForked s x || isTimestampForked n x = true) -> b h = true ->
  exists r, rewindPoint s n = Some r /\ r <= h /\ forall x, x < r -> b x = false.
Proof.
  intros Hb Hh. pose proof (Hb h Hh) as H. exists (match s, n with
    | Some s, Some n => Z.min s n | Some s, None => s | None, Some n => n | _, _ => 0 end).
  assert (Hx : forall x, (isTimestampForked s x || isTimestampForked n x = false) -> b x = false).
  { intros x Hf. destruct (b x) eqn:E; [|done]. by rewrite (Hb x E) in Hf. }
  destruct s as [s|], n as [n|]; cbn in *; [|..|discriminate].
  - split; [case_if; bool_to_Z; f_equal; lia|]. split; [|intros x Hlt; apply Hx, orb_false_iff; lia].
    apply orb_prop in H as [H|H]; bool_to_Z; lia.
  - split; [done|]. rewrite orb_false_r in H. split; [bool_to_Z; lia|].
    intros x Hlt. apply Hx, orb_false_iff. split; [lia|done].
  - split; [done|]. split; [bool_to_Z; lia|]. intros x Hlt. apply Hx. lia.
Qed.

Lemma pred_u64 r h : 0 < r <= h -> is_u64 h -> wrap64 r -! 1 = r - 1 /\ r -! 1 = r - 1.
Proof. intros Hr Hh. unfold_u64. rewrite (Z.mod_small r) by lia. by rewrite Z.mod_small by lia. Qed.

Lemma block_test_ok what s n (b : Z -> bool) :
  (forall h h', h' <= h -> b h' = true -> b h = true) ->
  (forall h, b h = true -> isTimestampForked s h || isTimestampForked n h = true) ->
  test_ok (fun h _ => (b h, newBlockCompatError what s n)).
Proof.
  intros Hm Hb. split; cbn; [done|intros h t h' t' ? _; by apply Hm| |done..|].
  - intros h t Hh Ht H. destruct (rewindPoint_least s n b h Hb H) as (r & -> & Hr & _). clear Hm Hb.
    case_if; bool_to_Z; [destruct (pred_u64 r h) as [-> _]; [lia|done|]|]; unfold_u64; lia.
  - intros h t _ Hh Ht H _. destruct (rewindPoint_least s n b h Hb H) as (r & -> & Hr & Hl).
    clear Hm Hb. case_if; bool_to_Z; [|lia]. destruct (pred_u64 r h) as [-> _]; [lia|done|].
    intros _. apply Hl. lia.
Qed.

Lemma time_test_ok what s n (b : Z -> bool) :
  (forall h h', h' <= h -> b h' = true -> b h = true) ->
  (forall h, b h = true -> isTimestampForked s h || isTimestampForked n h = true) ->
  (forall x, s = Some x \/ n = Some x -> 0 <= x) ->
  test_ok (fun _ t => (b t, newTimestampCompatError what s n)).
Proof.
  intros Hm Hb Hpos.
  assert (Hp : forall r, rewindPoint s n = Some r -> 0 <= r).
  { intros r E. apply Hpos. destruct s as [x|], n as [y|]; cbn in E; [destruct (x <? y)|..];
      first [discriminate E|injection E as ->; auto]. }
  split; cbn; [done|intros h t h' t' _ ?; by apply Hm| | |done].
  - intros h t Hh Ht H. destruct (rewindPoint_least s n b t Hb H) as (r & E & Hr & _). rewrite E.
    specialize (Hp r E). clear Hm Hb Hpos.
    case_if; bool_to_Z; [destruct (pred_u64 r t) as [_ ->]; [lia|done|]|]; unfold_u64; lia.
  - intros h t _ Hh Ht H. destruct (rewindPoint_least s n b t Hb H) as (r & E & Hr & Hl). rewrite E.
    specialize (Hp r E). clear Hm Hb Hpos. case_if; bool_to_Z; [|lia].
    destruct (pred_u64 r t) as [_ ->]; [lia|done|]. intros _. apply Hl. lia.
Qed.

Lemma incompatible_mono s n h h' : h' <= h ->
  isForkBlockIncompatible s n (Some h') = true -> isForkBlockIncompatible s n (Some h) = true.
Proof.
  intros Hle [Hf Hn]%andb_prop. unfold isForkBlockIncompatible. rewrite Hn, andb_true_r.
  apply orb_true_iff. apply orb_prop in Hf as [Hf|Hf]; [left|right]; by apply (isBlockForked_mono _ h h').
Qed.

Lemma incompatible_time_mono s n h h' : h' <= h ->
  isForkTimestampIncompatible s n h' = true -> isForkTimestampIncompatible s n h = true.
Proof.
  intros Hle [Hf Hn]%andb_prop. unfold isForkTimestampIncompatible. rewrite Hn, andb_true_r.
  apply orb_true_iff. apply orb_prop in Hf as [Hf|Hf]; [left|right]; by apply (isTimestampForked_mono _ h h').
Qed.

Lemma forked_some s h : isBlockForked s (Some h) = isTimestampForked s h.
Proof. by destruct s. Qed.

Lemma incompatible_forked s n h : isForkBlockIncompatible s n (Some h) = true ->
  isTimestampForked s h || isTimestampForked n h = true.
Proof. intros [H _]%andb_prop. by rewrite !forked_some in H. Qed.

(** The timestamps of a configuration are [uint64]s. *)
Definition times_ok (c : ChainConfig) : Prop :=
  Forall (fun o => forall x, o = Some x -> 0 <= x)
    [ShanghaiTime c; CancunTime c; PragueTime c; OsakaTime c; VerkleTime c].

Lemma compatTests_ok c newcfg : times_ok c -> times_ok newcfg -> Forall test_ok (compatTests c newcfg).
Proof.
  intros Hc Hn. unfold times_ok in *. rewrite !Forall_cons in Hc, Hn.
  destruct Hc as (?&?&?&?&?&_), Hn as (?&?&?&?&?&_).
  assert (Hblk : forall what s n, test_ok (fun h (_ : Z) =>
    (isForkBlockIncompatible s n (Some h), newBlockCompatError what s n))).
  { intros what s n. apply block_test_ok; [apply incompatible_mono|apply incompatible_forked]. }
  assert (Hone : forall what s n (b : bool), test_ok (fun h (_ : Z) =>
    (isBlockForked s (Some h) && b, newBlockCompatError what s n))).
  { intros what s n b. apply block_test_ok.
    - intros h h' Hle [Hf ->]%andb_prop. by rewrite (isBlockForked_mono _ h h').
    - intros h [Hf _]%andb_prop. rewrite forked_some in Hf. by rewrite Hf. }
  assert (Htim : forall what s n, (forall x, s = Some x -> 0 <= x) -> (forall x, n = Some x -> 0 <= x) ->
    test_ok (fun (_ : Z) t => (isForkTimestampIncompatible s n t, newTimestampCompatError what s n))).
  { intros what s n Hs Hx. apply time_test_ok; [apply incompatible_time_mono|by intros h [? _]%andb_prop|].
    intros x [?|?]; auto. }
  unfold compatTests. repeat apply Forall_cons_2; try apply Forall_nil_2;
    try (apply Hblk); try (apply Hone); try (by apply Htim).
  apply block_test_ok; [|intros h [? _]%andb_prop; by apply incompatible_forked].
  intros h h' Hle [Hp1 Hp2]%andb_prop. apply andb_true_iff.
  split; by apply (incompatible_mono _ _ h h').
Qed.

Fixpoint conflicts (l : list (bool * ConfigCompatError)) : nat :=
  match l with
  | [] => 0
  | (b, _) :: r => (if (b : bool) then 1 else 0) + conflicts r
  end.

Definition conflictsAt (l : list test) (h t : Z) : nat := conflicts ((fun f : test => f h t) <$> l).

Lemma conflicts_mono l h t h' t' : Forall test_ok l -> h' <= h -> t' <= t ->
  (conflictsAt l h' t' <= conflictsAt l h t)%nat.
Proof.
  intros Hl Hh Ht. induction Hl as [|f l Hf Hl IH]; [done|]. unfold conflictsAt in *. cbn.
  pose proof (test_mono f Hf h t h' t' Hh Ht) as Hm.
  destruct (f h t) as [b e], (f h' t') as [b' e']. cbn in *.
  destruct b', b; lia.
Qed.

Lemma conflicts_drop l f h t h' t' : Forall test_ok l -> f ∈ l -> h' <= h -> t' <= t ->
  (f h t).1 = true -> (f h' t').1 = false -> (conflictsAt l h' t' < conflictsAt l h t)%nat.
Proof.
  intros Hl Hin Hh Ht H1 H2. induction Hl as [|g l Hg Hl IH]; [by apply not_elem_of_nil in Hin|].
  pose proof (conflicts_mono l h t h' t' Hl Hh Ht) as Hm.
  pose proof (test_mono g Hg h t h' t' Hh Ht) as Hgm. unfold conflictsAt in *. cbn.
  apply elem_of_cons in Hin as [->|Hin].
  - destruct (g h t), (g h' t'). cbn in *. subst. lia.
  - specialize (IH Hin). destruct (g h t) as [b e], (g h' t') as [b' e']. cbn in *.
    destruct b', b; lia.
Qed.

Lemma firstConflict_Some l h t e :
  firstConflict ((fun f : test => f h t) <$> l) = Some e ->
  exists f, f ∈ l /\ (f h t).1 = true /\ (f h t).2 = e.
Proof.
  induction l as [|f l IH]; cbn; [done|]. destruct (f h t) as [[] e'] eqn:E.
  - intros [= <-]. exists f. rewrite E. split; [left|done].
  - intros H. destruct (IH H) as (g & Hg & ?). exists g. split; [by right|done].
Qed.

(** No rewind point. *)
Definition clear (e : option ConfigCompatError) : bool :=
  match e with Some e => (RewindToBlock e =? 0) && (RewindToTime e =? 0) | None => false end.

Definition within (height time : Z) (e : option ConfigCompatError) : Prop :=
  forall x, e = Some x -> 0 <= RewindToBlock x <= height /\ 0 <= RewindToTime x <= time.

Section loop.
Context (c newcfg : ChainConfig) (Hc : times_ok c) (Hn : times_ok newcfg).

Lemma checkCompatibleLoop_total height time fuel : forall h t last,
  is_u64 h -> is_u64 t -> h <= height -> t <= time -> within height time last ->
  (2 * conflictsAt (compatTests c newcfg) h t + (if clear last then 0 else 1) < fuel)%nat ->
  exists r, checkCompatibleLoop fuel c newcfg h t last = Ret r /\ within height time r /\
    (r = None <-> last = None /\ checkCompatible c newcfg (Some h) t = None).
Proof using Hc Hn.
  pose proof (compatTests_ok c newcfg Hc Hn) as Hok.
  induction fuel as [|fuel IH]; intros h t last Hh Ht Hle1 Hle2 Hlast Hf; [lia|].
  cbn [checkCompatibleLoop]. unfold checkCompatible. rewrite compatChecks_tests.
  destruct (firstConflict _) as [e|] eqn:E; [|exists last; split; [done|]; tauto].
  apply firstConflict_Some in E as (f & Hin & Hb & He). rewrite Forall_forall in Hok.
  pose proof (test_range f (Hok f Hin) h t Hh Ht Hb) as [Hr1 Hr2]. rewrite He in Hr1, Hr2.
  pose proof (test_time f (Hok f Hin) h t h Hh Ht Hb) as Htime. rewrite He in Htime.
  pose proof (test_block f (Hok f Hin) h t t Hh Ht Hb) as Hblock. rewrite He in Hblock.
  assert (Hwe : within height time (Some e)) by (intros x [= <-]; lia).
  assert (Hsome : forall (r : option ConfigCompatError) (X : Prop),
    (r = None <-> Some e = None /\ X) -> (r = None <-> last = None /\ Some e = None)).
  { intros r X Hr. rewrite Hr. split; intros [? ?]; discriminate. }
  rewrite <- Forall_forall in Hok.
  destruct (match last with Some _ => _ | None => false end) eqn:Hbreak.
  { exists last. split; [done|]. split; [done|]. destruct last; [|discriminate Hbreak].
    split; [|intros []]; discriminate. }
  destruct (Z.ltb_spec 0 (RewindToTime e)) as [Hpos|Hzero].
  - edestruct (IH h (RewindToTime e) (Some e)) as (r & -> & Hw & Hr); [done|by unfold_u64; lia|lia..|done| |].
    { pose proof (conflicts_drop _ f h t h (RewindToTime e) Hok Hin ltac:(lia) ltac:(lia) Hb (Htime Hpos)).
      destruct (clear (Some e)), (clear last); lia. }
    exists r. eauto.
  - edestruct (IH (RewindToBlock e) t (Some e)) as (r & -> & Hw & Hr); [by unfold_u64; lia|done|lia..|done| |].
    { destruct (Z.eq_dec (RewindToBlock e) 0) as [Hb0|Hb0].
      - assert (clear (Some e) = true) as -> by (cbn; apply andb_true_iff; lia).
        assert (clear last = false) as Hl.
        { destruct last as [l|]; [|done]. cbn. apply not_true_iff_false. intros [? ?]%andb_prop. lia. }
        rewrite Hl in Hf.
        pose proof (conflicts_mono (compatTests c newcfg) h t (RewindToBlock e) t Hok ltac:(lia) ltac:(lia)). lia.
      - pose proof (conflicts_drop _ f h t (RewindToBlock e) t Hok Hin ltac:(lia) ltac:(lia) Hb
          (Hblock ltac:(lia) ltac:(lia))).
        destruct (clear (Some e)), (clear last); lia. }
    exists r. eauto.
Qed.
End loop.

Lemma conflicts_length l : (conflicts l <= length l)%nat.
Proof. induction l as [|[[] e] l IH]; cbn; lia. Qed.

(** [CheckCompatible] always ends: it reports a conflict exactly when the configurations differ on
    the past of the chain, with rewind points within the chain. *)
Theorem CheckCompatible_total (c newcfg : ChainConfig) (height time : Z) :
  times_ok c -> times_ok newcfg -> is_u64 height -> is_u64 time ->
  exists r, CheckCompatible c newcfg height time = Ret r /\
    (r = None <-> checkCompatible c newcfg (Some height) time = None) /\
    forall e, r = Some e -> 0 <= RewindToBlock e <= height /\ 0 <= RewindToTime e <= time.
Proof.
  intros Hc Hn Hh Ht.
  destruct (checkCompatibleLoop_total c newcfg Hc Hn height time 46 height time None) as (r & E & Hw & Hr);
    [done|done|lia|lia|intros x Hx; discriminate Hx| |]. 2: { exists r. split; [exact E|]. split; [|exact Hw]. rewrite Hr. tauto. }
  cbn [clear]. pose proof (conflicts_length ((fun f : test => f height time) <$> compatTests c newcfg)) as Hl.
  rewrite length_fmap in Hl. unfold conflictsAt.
  change (length (compatTests c newcfg)) with 22%nat in Hl. lia.
Qed.

(** ** A conflict that is not reported *)

(** A chain on which only Constantinople is scheduled. *)
Definition constantinople_config (petersburg : option Z) : ChainConfig :=
  mkChainConfig (Some 1) (Some 0) None false (Some 0) (Some 0) (Some 0) (Some 0) (Some 5) petersburg
    None None None None None None None None None None None None None.

(** A nil Petersburg block means the Constantinople block, but the compatibility check compares
    the pointers: setting it later than the head on a chain past Constantinople is accepted, and
    changes the rules of the blocks in between. *)
Theorem petersburg_conflict_missed :
  CheckCompatible (constantinople_config None) (constantinople_config (Some 100)) 50 0 = Ret None /\
  Params.IsPetersburg (Rules (constantinople_config None) (Some 10) false 0) = true /\
  Params.IsPetersburg (Rules (constantinople_config (Some 100)) (Some 10) false 0) = false.
Proof. split_and!; reflexivity. Qed.

(** ** Witnesses *)

Definition demo_config (london : Z) : ChainConfig :=
  mkChainConfig (Some 1) (Some 0) None false (Some 0) (Some 0) (Some 0) (Some 0) (Some 0) (Some 0)
    (Some 0) None (Some 0) (Some london) None None None (Some 100) None None None None None.

Lemma demo_times_ok london : times_ok (demo_config london).
Proof. repeat constructor; intros x [= <-]; lia. Qed.

Lemma fork_order_monotone_witness :
  Params.IsMerge (Rules (demo_config 7) (Some 10) true 200) = true /\
  Params.IsLondon (Rules (demo_config 7) (Some 10) true 200) = true.
Proof. apply (fork_order_monotone (demo_config 7) (Some 10) true 200 eq_refl). reflexivity. Defined.

Lemma checkCompatible_sound_witness :
  Rules (demo_config 70) (Some 40) false 10 = Rules (demo_config 80) (Some 40) false 10.
Proof.
  apply (checkCompatible_sound (demo_config 70) (demo_config 80) 50 20 40 10 false eq_refl eq_refl eq_refl);
    lia.
Defined.

Lemma CheckCompatible_total_witness : exists r,
  CheckCompatible (demo_config 70) (demo_config 80) 90 20 = Ret r /\
  (r = None <-> checkCompatible (demo_config 70) (demo_config 80) (Some 90) 20 = None) /\
  forall e, r = Some e -> 0 <= RewindToBlock e <= 90 /\ 0 <= RewindToTime e <= 20.
Proof.
  apply (CheckCompatible_total (demo_config 70) (demo_config 80) 90 20 (demo_times_ok 70) (demo_times_ok 80));
    by split.
Defined.
