(* ===== verification/StateTransition.v ===== *)
(** * The state transition ([core/state_transition.go], [core/gaspool.go])

    A message is checked against the state, its gas is bought and taken from the block's gas pool,
    the message is executed by the EVM, and the remaining gas is refunded.  The state database
    appears only through the methods of the EVM's interface; signature recovery is a parameter
    ([Ecrecover]), and the access events of EIP-4762 end in [Unmodelled].  Tracing is absent. *)

From S2P Require Import Prelude Bytes Uint256 Params ChainConfig Machine Opcodes Analysis JumpTable Rlp VM GasTable Instructions Evm.

(** ** Errors ([core/error.go]) *)

Inductive coreerror :=
  | ErrNonceTooLow | ErrNonceTooHigh | ErrNonceMax
  | ErrGasLimitReached
  | ErrInsufficientFundsForTransfer | ErrCoreMaxInitCodeSizeExceeded | ErrInsufficientFunds
  | ErrCoreGasUintOverflow | ErrIntrinsicGas | ErrFloorDataGas
  | ErrTipAboveFeeCap | ErrTipVeryHigh | ErrFeeCapVeryHigh | ErrFeeCapTooLow
  | ErrSenderNoEOA
  | ErrBlobFeeCapTooLow | ErrMissingBlobHashes | ErrBlobTxCreate | ErrBlobHashVersion (i : Z)
  | ErrEmptyAuthList | ErrSetCodeTxCreate.

Inductive autherror :=
  | ErrAuthorizationWrongChainID | ErrAuthorizationNonceOverflow | ErrAuthorizationInvalidSignature
  | ErrAuthorizationDestinationHasCode | ErrAuthorizationNonceMismatch.

(** ** The gas pool ([gaspool.go]) *)

Definition AddGas (gp amount : Z) : Outcome Z :=
  if MaxUint64 - amount <? gp then Fail PanicExplicit else Ret (gp +! amount).

Definition SubGas (gp amount : Z) : Z + coreerror :=
  if gp <? amount then inr ErrGasLimitReached else inl (gp -! amount).

(** ** Intrinsic gas *)

(** [bytes.Count(data, []byte{0})] *)
Definition countZeros (data : bytes) : Z := len (filter (fun b => b = 0) data).

(** [func (al AccessList) StorageKeys() int] *)
Definition StorageKeys (al : AccessList) : Z := foldr (fun t n => len t.2 + n) 0 al.

(** [if (math.MaxUint64-gas)/price < n { return 0, ErrGasUintOverflow }; gas += n * price] *)
Definition addPriced (gas n price : Z) : Z + coreerror :=
  if (MaxUint64 - gas) / price <? n then inr ErrCoreGasUintOverflow else inl (gas +! (n *! price)).

Definition IntrinsicGas (data : bytes) (accessList : AccessList) (authList : Z)
    (isContractCreation isHomestead isEIP2028 isEIP3860 : bool) : Z + coreerror :=
  let gas := if isContractCreation && isHomestead then TxGasContractCreation else TxGas in
  let dataLen := len data in
  let finish gas :=
    let gas := gas +! (wrap64 (len accessList) *! TxAccessListAddressGas) in
    let gas := gas +! (wrap64 (StorageKeys accessList) *! TxAccessListStorageKeyGas) in
    inl (gas +! (wrap64 authList *! CallNewAccountGas)) in
  if 0 <? dataLen then
    let z := countZeros data in
    let nz := dataLen -! z in
    let nonZeroGas := if isEIP2028 then TxDataNonZeroGasEIP2028 else TxDataNonZeroGasFrontier in
    match addPriced gas nz nonZeroGas with
    | inr e => inr e
    | inl gas =>
        match addPriced gas z TxDataZeroGas with
        | inr e => inr e
        | inl gas =>
            if isContractCreation && isEIP3860 then
              match addPriced gas (toWordSize dataLen) InitCodeWordGas with
              | inr e => inr e
              | inl gas => finish gas
              end
            else finish gas
        end
    end
  else finish gas.

Definition FloorDataGas (data : bytes) : Z + coreerror :=
  let z := countZeros data in
  let nz := len data -! z in
  let tokens := (nz *! TxTokenPerNonZeroByte) +! z in
  if (MaxUint64 - TxGas) / TxCostFloorPerToken <? tokens then inr ErrCoreGasUintOverflow
  else inl (TxGas +! (tokens *! TxCostFloorPerToken)).

Section transition.
Context `{U : Uint256} `{C : Crypto} {S : Type} `{DB : !StateDB S}.

(** [types.SetCodeAuthorization] *)
Record SetCodeAuthorization := mkAuth {
  auth_ChainID : word; auth_Address : Address; auth_Nonce : Z;
  auth_V : Z; auth_R : word; auth_S : word }.

(** [type Message struct].  A nil list differs from an empty one in [BlobHashes] and
    [SetCodeAuthorizations]; a nil fee is [None]. *)
Record Message := mkMessage {
  To : option Address; From_ : Address; msg_Nonce : Z; Value : Z;
  msg_GasLimit : Z; msg_GasPrice : Z; GasFeeCap : option Z; GasTipCap : option Z;
  Data : bytes; msg_AccessList : AccessList;
  BlobGasFeeCap : option Z; msg_BlobHashes : option (list Hash);
  SetCodeAuthorizations : option (list SetCodeAuthorization);
  SkipNonceChecks : bool; SkipFromEOACheck : bool }.

Record ExecutionResult := mkResult {
  UsedGas : Z; MaxUsedGas : Z; Err : error; ReturnData : bytes }.

(** [type stateTransition struct]; the message is a parameter of the methods. *)
Record stateTransition := mkST { st_gp : Z; gasRemaining : Z; initialGas : Z; st_evm : VM S }.

(** What does not change during the transition: the chain configuration, the block context and
    the instruction table of the EVM, the configuration flag [NoBaseFee], the signature recovery
    of package [crypto], and the message. *)
Context (config : ChainConfig) (env : Env) (table : JumpTable) (fuel : nat) (NoBaseFee : bool).
Context (Ecrecover : Hash -> bytes -> option bytes).
Context (msg : Message).

Abbreviation T := (ST stateTransition).

Definition set_gp (g : Z) (st : stateTransition) : stateTransition :=
  mkST g (gasRemaining st) (initialGas st) (st_evm st).
Definition set_gasRemaining (g : Z) (st : stateTransition) : stateTransition :=
  mkST (st_gp st) g (initialGas st) (st_evm st).
Definition set_initialGas (g : Z) (st : stateTransition) : stateTransition :=
  mkST (st_gp st) (gasRemaining st) g (st_evm st).

(** A method of [st.evm], and of [st.state]. *)
Definition evmT {A} (m : ST (VM S) A) : T A := fun st =>
  match m (st_evm st) with
  | Ret (a, v) => Ret (a, mkST (st_gp st) (gasRemaining st) (initialGas st) v)
  | Fail e => Fail e
  end.
Definition state_ {A} (r : sdbE A) : T A := evmT (vm_db r).

(** [evm.ChainConfig().IsLondon(evm.Context.BlockNumber)] and the like. *)
Definition IsLondonBlock : bool := Config.IsLondon config (Some (BlockNumber env)).
Definition IsCancunBlock : bool := Config.IsCancun config (Some (BlockNumber env)) (Time env).
Definition txRules : Rules :=
  Config.Rules config (Some (BlockNumber env)) (bool_decide (Random env <> None)) (Time env).

Definition gasUsed : T Z := st_gets (fun st => initialGas st -! gasRemaining st).

Definition blobGasUsed : Z :=
  wrap64 (len (default [] (msg_BlobHashes msg)) * BlobTxBlobGasPerBlob).

(** [*big.Int] methods on a nil receiver panic. *)
Definition deref {A} (o : option A) : T A := st_lift (match o with Some a => Ret a | None => Fail PanicNil end).

Definition big_BitLen (z : Z) : Z := if z =? 0 then 0 else Z.log2 (Z.abs z) + 1.

(** ** Checks *)

Definition buyGas : T (option coreerror) :=
  let mgval := msg_GasLimit msg * msg_GasPrice msg in
  let balanceCheck :=
    (match GasFeeCap msg with Some cap => msg_GasLimit msg * cap | None => mgval end) + Value msg in
  '(mgval, balanceCheck) ←
    (if IsCancunBlock && (0 <? blobGasUsed) then
       cap ← deref (BlobGasFeeCap msg);
       fee ← deref (BlobBaseFee env);
       mret (mgval + blobGasUsed * fee, balanceCheck + blobGasUsed * cap)
     else mret (mgval, balanceCheck));
  if FromBigOverflow balanceCheck then mret (Some ErrInsufficientFunds)
  else
    have ← state_ (GetBalance (From_ msg));
    if Lt have (FromBig balanceCheck) then mret (Some ErrInsufficientFunds)
    else
      gp ← st_gets st_gp;
      match SubGas gp (msg_GasLimit msg) with
      | inr e => mret (Some e)
      | inl gp =>
          st_modify (set_gp gp);;
          st_modify (set_gasRemaining (msg_GasLimit msg));;
          st_modify (set_initialGas (msg_GasLimit msg));;
          state_ (SubBalance (From_ msg) (FromBig mgval));;
          mret None
      end.

(** [if err := check; err != nil { return err }; k] *)
Definition orElse (check : T (option coreerror)) (k : T (option coreerror)) : T (option coreerror) :=
  r ← check; match r with Some e => mret (Some e) | None => k end.

Definition checkNonce : T (option coreerror) :=
  if SkipNonceChecks msg then mret None
  else
    stNonce ← state_ (GetNonce (From_ msg));
    mret (if stNonce <? msg_Nonce msg then Some ErrNonceTooHigh
          else if msg_Nonce msg <? stNonce then Some ErrNonceTooLow
          else if stNonce +! 1 <? stNonce then Some ErrNonceMax
          else None).

Definition checkEOA : T (option coreerror) :=
  if SkipFromEOACheck msg then mret None
  else
    code ← state_ (GetCode (From_ msg));
    mret (if (0 <? len code) && bool_decide (ParseDelegation code = None)
          then Some ErrSenderNoEOA else None).

(** The tip is looked at only when the fee cap passed its test. *)
Definition checkFees : T (option coreerror) :=
  if negb IsLondonBlock then mret None
  else
    feeCap ← deref (GasFeeCap msg);
    skipCheck ← (if NoBaseFee && (big_BitLen feeCap =? 0)
                 then tipCap ← deref (GasTipCap msg); mret (big_BitLen tipCap =? 0)
                 else mret false);
    if (skipCheck : bool) then mret None
    else if 256 <? big_BitLen feeCap then mret (Some ErrFeeCapVeryHigh)
    else
      tipCap ← deref (GasTipCap msg);
      if 256 <? big_BitLen tipCap then mret (Some ErrTipVeryHigh)
      else if feeCap <? tipCap then mret (Some ErrTipAboveFeeCap)
      else
        baseFee ← deref (BaseFee env);
        mret (if feeCap <? baseFee then Some ErrFeeCapTooLow else None).

(** [kzg4844.IsValidVersionedHash] *)
Definition IsValidVersionedHash (h : Hash) : bool := h / 2 ^ 248 =? 1.

Fixpoint checkHashes (i : Z) (l : list Hash) : option coreerror :=
  match l with
  | [] => None
  | h :: r => if negb (IsValidVersionedHash h) then Some (ErrBlobHashVersion i) else checkHashes (i + 1) r
  end.

Definition checkBlobs : T (option coreerror) :=
  mret (match msg_BlobHashes msg with
        | None => None
        | Some hashes =>
            match To msg with
            | None => Some ErrBlobTxCreate
            | Some _ => if len hashes =? 0 then Some ErrMissingBlobHashes else checkHashes 0 hashes
            end
        end).

Definition checkBlobFee : T (option coreerror) :=
  if IsCancunBlock && (0 <? blobGasUsed) then
    cap ← deref (BlobGasFeeCap msg);
    if NoBaseFee && (big_BitLen cap =? 0) then mret None
    else
      fee ← deref (BlobBaseFee env);
      mret (if cap <? fee then Some ErrBlobFeeCapTooLow else None)
  else mret None.

Definition checkAuths : T (option coreerror) :=
  mret (match SetCodeAuthorizations msg with
        | None => None
        | Some auths =>
            match To msg with
            | None => Some ErrSetCodeTxCreate
            | Some _ => if len auths =? 0 then Some ErrEmptyAuthList else None
            end
        end).

Definition preCheck : T (option coreerror) :=
  orElse checkNonce (orElse checkEOA (orElse checkFees (orElse checkBlobs
    (orElse checkBlobFee (orElse checkAuths buyGas))))).

(** ** Authorizations (EIP-7702) *)

(** [secp256k1N] *)
Definition secp256k1N : Z := 0xfffffffffffffffffffffffffffffffebaaedce6af48a03bbfd25e8cd0364141.

(** [crypto.ValidateSignatureValues] *)
Definition ValidateSignatureValues (v r s : Z) (homestead : bool) : bool :=
  if (r <? 1) || (s <? 1) then false
  else if homestead && (secp256k1N / 2 <? s) then false
  else (r <? secp256k1N) && (s <? secp256k1N) && ((v =? 0) || (v =? 1)).

(** [func (a *SetCodeAuthorization) sigHash() common.Hash] *)
Definition sigHash (a : SetCodeAuthorization) : Outcome Hash :=
  let '(i, buf) := buf_list emptyBuf in
  let buf := writeUint256 buf (uval (auth_ChainID a)) in
  let buf := writeBytes buf (Address_Bytes (auth_Address a)) in
  buf ← listEnd (writeUint64 buf (auth_Nonce a)) i;
  Ret (Keccak256 (5 :: makeBytes buf)).

(** [func (a *SetCodeAuthorization) Authority() (common.Address, error)] *)
Definition Authority (a : SetCodeAuthorization) : Outcome (option Address) :=
  sighash ← sigHash a;
  if negb (ValidateSignatureValues (auth_V a) (uval (auth_R a)) (uval (auth_S a)) true) then Ret None
  else
    match Ecrecover sighash (PutUint256 (auth_R a) ++ PutUint256 (auth_S a) ++ [auth_V a]) with
    | None => Ret None
    | Some pub =>
        if negb (bool_decide (head pub = Some 4)) then Ret None
        else Ret (Some (Keccak256 (drop 1 pub) mod 2 ^ 160))
    end.

Definition validateAuthorization (auth : SetCodeAuthorization) : T (Address + autherror) :=
  wrongChain ← (if IsZero (auth_ChainID auth) then mret false
                else id ← deref (config_ChainID_ config); mret (negb (uval (auth_ChainID auth) =? id)));
  if (wrongChain : bool) then mret (inr ErrAuthorizationWrongChainID)
  else if auth_Nonce auth +! 1 <? auth_Nonce auth
  then mret (inr ErrAuthorizationNonceOverflow)
  else
    a ← st_lift (Authority auth);
    match a with
    | None => mret (inr ErrAuthorizationInvalidSignature)
    | Some authority =>
        state_ (AddAddressToAccessList authority);;
        code ← state_ (GetCode authority);
        if negb (len code =? 0) && bool_decide (ParseDelegation code = None)
        then mret (inr ErrAuthorizationDestinationHasCode)
        else
          have ← state_ (GetNonce authority);
          if negb (have =? auth_Nonce auth) then mret (inr ErrAuthorizationNonceMismatch)
          else mret (inl authority)
    end.

Definition applyAuthorization (auth : SetCodeAuthorization) : T (option autherror) :=
  r ← validateAuthorization auth;
  match r with
  | inr e => mret (Some e)
  | inl authority =>
      exist ← state_ (Exist authority);
      (if (exist : bool) then state_ (AddRefund (CallNewAccountGas - TxAuthTupleGas)) else mret tt);;
      state_ (SetNonce authority (auth_Nonce auth +! 1));;
      state_ (SetCode authority
        (if auth_Address auth =? 0 then [] else AddressToDelegation (auth_Address auth)));;
      mret None
  end.

Fixpoint applyAuthorizations (l : list SetCodeAuthorization) : T unit :=
  match l with
  | [] => mret tt
  | a :: r => applyAuthorization a;; applyAuthorizations r
  end.

(** ** Refunds *)

Definition calcRefund : T Z :=
  used ← gasUsed;
  let refund := if negb IsLondonBlock then used / RefundQuotient else used / RefundQuotientEIP3529 in
  counter ← state_ GetRefund;
  if counter <? refund then state_ GetRefund else mret refund.

(** [uint256.MustFromBig] *)
Definition MustFromBig (z : Z) : T word :=
  if FromBigOverflow z then st_fail PanicExplicit else mret (FromBig z).

Definition returnGas : T unit :=
  remaining ← st_gets gasRemaining;
  price ← MustFromBig (msg_GasPrice msg);
  state_ (AddBalance (From_ msg) (Mul (SetUint64 remaining) price));;
  gp ← st_gets st_gp;
  gp ← st_lift (AddGas gp remaining);
  st_modify (set_gp gp).

(** ** Execution *)

(** [vm.ActivePrecompiles]: the addresses in the order of the map literals; Go's map order is
    unspecified, and only their set matters to [Prepare]. *)
Definition ActivePrecompiles (rules : Rules) : list Address :=
  if IsPrague rules then [1; 2; 3; 4; 5; 6; 7; 8; 9; 10; 11; 12; 13; 14; 15; 16; 17]
  else if IsCancun rules then [1; 2; 3; 4; 5; 6; 7; 8; 9; 10]
  else if IsBerlin rules then [1; 2; 3; 4; 5; 6; 7; 8; 9]
  else if IsIstanbul rules then [1; 2; 3; 4; 5; 6; 7; 8; 9]
  else if IsByzantium rules then [1; 2; 3; 4; 5; 6; 7; 8]
  else [1; 2; 3; 4].

Definition contractCreation : bool := bool_decide (To msg = None).

(** Clauses 4 and 5: the intrinsic gas and the floor of the data (EIP-7623); the result is the
    floor. *)
Definition payIntrinsic : T (Z + coreerror) :=
  match IntrinsicGas (Data msg) (msg_AccessList msg) (len (default [] (SetCodeAuthorizations msg)))
          contractCreation (IsHomestead txRules) (IsIstanbul txRules) (IsShanghai txRules) with
  | inr e => mret (inr e)
  | inl gas =>
      remaining ← st_gets gasRemaining;
      if remaining <? gas then mret (inr ErrIntrinsicGas)
      else
        match (if IsPrague txRules then FloorDataGas (Data msg) else inl 0) with
        | inr e => mret (inr e)
        | inl floor =>
            if IsPrague txRules && (msg_GasLimit msg <? floor) then mret (inr ErrFloorDataGas)
            else st_modify (set_gasRemaining (remaining -! gas));; mret (inl floor)
        end
  end.

(** [if rules.IsEIP4762 { ... }] *)
Definition txEip4762 : T unit := if IsEIP4762 txRules then st_fail Unmodelled else mret tt.

(** The call or creation of the message. *)
Definition runMessage (value : word) : T (bytes * error) :=
  gas ← st_gets gasRemaining;
  match To msg with
  | None =>
      '(ret, _, gas, vmerr) ← evmT (evm_Create env table fuel (From_ msg) (Data msg) gas value);
      st_modify (set_gasRemaining gas);;
      mret (ret, vmerr)
  | Some to =>
      n ← state_ (GetNonce (From_ msg));
      state_ (SetNonce (From_ msg) (n +! 1));;
      applyAuthorizations (default [] (SetCodeAuthorizations msg));;
      code ← state_ (GetCode to);
      (match ParseDelegation code with
       | Some addr => state_ (AddAddressToAccessList addr)
       | None => mret tt
       end);;
      '(ret, gas, vmerr) ← evmT (evm_Call env table fuel (From_ msg) to (Data msg) gas value);
      st_modify (set_gasRemaining gas);;
      mret (ret, vmerr)
  end.

(** The refund and the floor; the result is the peak of the gas used. *)
Definition settleGas (floor : Z) : T Z :=
  peak ← gasUsed;
  refund ← calcRefund;
  st_modify (fun st => set_gasRemaining (gasRemaining st +! refund) st);;
  if IsPrague txRules then
    used ← gasUsed;
    (if used <? floor then st_modify (fun st => set_gasRemaining (initialGas st -! floor) st) else mret tt);;
    mret (if peak <? floor then floor else peak)
  else mret peak.

Definition payCoinbase : T unit :=
  tip ← (if IsLondon txRules then
           feeCap ← deref (GasFeeCap msg); tipCap ← deref (GasTipCap msg);
           baseFee ← deref (BaseFee env);
           let t := feeCap - baseFee in mret (if tipCap <? t then tipCap else t)
         else mret (msg_GasPrice msg));
  skip ← (if NoBaseFee then
            feeCap ← deref (GasFeeCap msg);
            if feeCap =? 0 then tipCap ← deref (GasTipCap msg); mret (tipCap =? 0) else mret false
          else mret false);
  if (skip : bool) then mret tt
  else
    used ← gasUsed;
    state_ (AddBalance (Coinbase env) (Mul (SetUint64 used) (FromBig tip)));;
    txEip4762.

Definition execute : T (ExecutionResult + coreerror) :=
  r ← preCheck;
  match r with
  | Some e => mret (inr e)
  | None =>
      i ← payIntrinsic;
      match i with
      | inr e => mret (inr e)
      | inl floor =>
          txEip4762;;
          if FromBigOverflow (Value msg) then mret (inr ErrInsufficientFundsForTransfer)
          else
            let value := FromBig (Value msg) in
            can ← (if negb (IsZero value) then evmT (CanTransfer (From_ msg) value) else mret true);
            if negb (can : bool) then mret (inr ErrInsufficientFundsForTransfer)
            else if IsShanghai txRules && contractCreation && (MaxInitCodeSize <? len (Data msg))
            then mret (inr ErrCoreMaxInitCodeSizeExceeded)
            else
              state_ (Prepare txRules (From_ msg) (Coinbase env) (To msg)
                (ActivePrecompiles txRules) (msg_AccessList msg));;
              '(ret, vmerr) ← runMessage value;
              peak ← settleGas floor;
              returnGas;;
              payCoinbase;;
              used ← gasUsed;
              mret (inl (mkResult used peak vmerr ret))
      end
  end.
End transition.

(** [evm.SetTxContext(NewEVMTxContext(msg))] *)
Definition SetTxContext `{U : Uint256} (env : Env) (msg : Message) : Env :=
  mkEnv (GetHash env) (Coinbase env) (GasLimit env) (BlockNumber env) (Time env) (Difficulty env)
    (BaseFee env) (BlobBaseFee env) (Random env) (From_ msg) (msg_GasPrice msg)
    (default [] (msg_BlobHashes msg)) (config_ChainID env) (chainRules env)
    (EnablePreimageRecording env) (precompiles env).

(** [newStateTransition(evm, msg, gp).execute()] in the context of the message; the pool and the
    EVM are what the transition leaves behind. *)
Definition ApplyMessage `{U : Uint256} `{C : Crypto} {S : Type} `{DB : !StateDB S}
    (config : ChainConfig) (env : Env) (table : JumpTable) (fuel : nat) (NoBaseFee : bool)
    (Ecrecover : Hash -> bytes -> option bytes) (msg : Message) (gp : Z) (v : VM S)
    : Outcome ((ExecutionResult + coreerror) * stateTransition) :=
  execute config (SetTxContext env msg) table fuel NoBaseFee Ecrecover msg (mkST gp 0 0 v).
