(* ===== verification/TransitionTheorems.v ===== *)
(** * What a state transition guarantees

    [execute] of [core/state_transition.go] over any state database that meets [StateDBSpec]: the
    checks before the purchase of gas change nothing, and the gas of an executed message is
    accounted for exactly. *)

From S2P Require Import Prelude Bytes Uint256 Params ChainConfig Machine Opcodes Analysis JumpTable Rlp VM State GasTable Instructions Evm StateSpec StateProofs Frames InstrSpec TableSpec EvmSafe Scenario StateTransition.

(** ** Intrinsic gas *)

Lemma addPriced_eq gas n price : is_u64 gas -> is_u64 n -> 0 < price ->
  addPriced gas n price =
    if gas + n * price <? two64 then inl (gas + n * price) else inr ErrCoreGasUintOverflow.
Proof.
  intros Hg Hn Hp. unfold addPriced. assert (0 <= n * price) by (unfold_u64; nia).
  pose proof (Z.div_mod (MaxUint64 - gas) price ltac:(lia)).
  pose proof (Z.mod_pos_bound (MaxUint64 - gas) price Hp).
  destruct (Z.ltb_spec ((MaxUint64 - gas) / price) n), (Z.ltb_spec (gas + n * price) two64); try done.
  - unfold_u64. nia.
  - unfold_u64. rewrite (Z.mod_small (n * price)) by lia. by rewrite Z.mod_small by lia.
  - unfold_u64. nia.
Qed.

Lemma countZeros_le data : 0 <= countZeros data <= len data.
Proof. unfold countZeros, len. pose proof (length_filter (fun b => b = 0) data). lia. Qed.

(** What the protocol charges for a message before it runs. *)
Definition intrinsicCost (data : bytes) (al : AccessList) (auths : Z)
    (create homestead eip2028 eip3860 : bool) : Z :=
  (if create && homestead then TxGasContractCreation else TxGas)
  + (len data - countZeros data) * (if eip2028 then TxDataNonZeroGasEIP2028 else TxDataNonZeroGasFrontier)
  + countZeros data * TxDataZeroGas
  + (if create && eip3860 then (len data + 31) / 32 * InitCodeWordGas else 0)
  + len al * TxAccessListAddressGas + StorageKeys al * TxAccessListStorageKeyGas
  + auths * CallNewAccountGas.

Lemma wrap_sum gas n p : is_u64 gas -> 0 <= n -> 0 <= p -> gas + n * p < two64 ->
  gas +! (wrap64 n *! p) = gas + n * p /\ is_u64 (gas + n * p).
Proof.
  intros Hg Hn Hp Hlt. unfold_u64.
  destruct (Z.eq_dec p 0) as [->|Hp0]; [rewrite !Z.mul_0_r, Zmod_0_l, Z.add_0_r, Z.mod_small by lia; lia|].
  assert (n < 18446744073709551616) by nia.
  rewrite (Z.mod_small n) by lia. rewrite (Z.mod_small (n * p)) by nia. rewrite Z.mod_small by nia. nia.
Qed.

Lemma IntrinsicGas_finish gas al auths (g : Z) : is_u64 gas -> 0 <= auths ->
  gas + len al * TxAccessListAddressGas + StorageKeys al * TxAccessListStorageKeyGas
    + auths * CallNewAccountGas < two64 ->
  0 <= StorageKeys al ->
  gas +! (wrap64 (len al) *! TxAccessListAddressGas)
      +! (wrap64 (StorageKeys al) *! TxAccessListStorageKeyGas)
      +! (wrap64 auths *! CallNewAccountGas)
  = gas + len al * TxAccessListAddressGas + StorageKeys al * TxAccessListStorageKeyGas
    + auths * CallNewAccountGas.
Proof.
  intros Hg Ha Hlt Hs. pose proof (len_nonneg al).
  unfold TxAccessListAddressGas, TxAccessListStorageKeyGas, CallNewAccountGas in *.
  destruct (wrap_sum gas (len al) 2400) as [-> H1]; [done|lia..|].
  destruct (wrap_sum (gas + len al * 2400) (StorageKeys al) 1900) as [-> H2]; [done|lia..|].
  by destruct (wrap_sum (gas + len al * 2400 + StorageKeys al * 1900) auths 25000) as [-> _]; [done|lia..|].
Qed.

Lemma StorageKeys_nonneg al : 0 <= StorageKeys al.
Proof.
  induction al as [|[a ks] al IH]; cbn; [done|]. fold (StorageKeys al). pose proof (len_nonneg ks). lia.
Qed.

Lemma IntrinsicGas_spec (data : bytes) (al : AccessList) (auths : Z)
    (create homestead eip2028 eip3860 : bool) :
  data_ok data -> 0 <= auths ->
  (intrinsicCost data al auths create homestead eip2028 eip3860 < two64 ->
     IntrinsicGas data al auths create homestead eip2028 eip3860 =
       inl (intrinsicCost data al auths create homestead eip2028 eip3860)) /\
  (two64 <= intrinsicCost data [] 0 create homestead eip2028 eip3860 ->
     IntrinsicGas data al auths create homestead eip2028 eip3860 = inr ErrCoreGasUintOverflow).
Proof.
  intros [_ Hl] Ha. pose proof (countZeros_le data) as Hz. pose proof (StorageKeys_nonneg al) as Hs.
  pose proof (len_nonneg al) as Hal.
  assert (Hu : forall x, 0 <= x <= len data -> is_u64 x) by (unfold_u64; lia).
  assert (Hlists : forall gas, is_u64 gas -> gas + len al * TxAccessListAddressGas
      + StorageKeys al * TxAccessListStorageKeyGas + auths * CallNewAccountGas < two64 ->
    @inl Z coreerror (gas +! (wrap64 (len al) *! TxAccessListAddressGas)
      +! (wrap64 (StorageKeys al) *! TxAccessListStorageKeyGas) +! (wrap64 auths *! CallNewAccountGas))
    = inl (gas + len al * TxAccessListAddressGas + StorageKeys al * TxAccessListStorageKeyGas
        + auths * CallNewAccountGas)).
  { intros gas Hg Hlt. f_equal. by apply IntrinsicGas_finish. }
  unfold IntrinsicGas, intrinsicCost. cbn [StorageKeys foldr].
  rewrite (@len_nil (Z * list Z)), !Z.mul_0_l, !Z.add_0_r.
  set (base := if create && homestead then TxGasContractCreation else TxGas).
  assert (Hb : 0 < base < 2 ^ 20) by (subst base; autounfold with params; case_if; lia).
  set (price := if eip2028 then TxDataNonZeroGasEIP2028 else TxDataNonZeroGasFrontier).
  assert (Hp : 0 < price < 2 ^ 10) by (subst price; autounfold with params; case_if; lia).
  assert (Hw : toWordSize (len data) = (len data + 31) / 32) by (apply toWordSize_ceil, Hu; lia).
  pose proof (Z.div_pos (len data + 31) 32 ltac:(lia) ltac:(lia)) as Hw0.
  assert (Hw1 : (len data + 31) / 32 <= len data \/ len data = 0).
  { destruct (Z.eq_dec (len data) 0); [by right|left]. apply Z.div_le_upper_bound; lia. }
  rewrite (wrap64_small (len data - countZeros data)) by (apply Hu; lia).
  set (lists := len al * TxAccessListAddressGas + StorageKeys al * TxAccessListStorageKeyGas
    + auths * CallNewAccountGas) in *.
  assert (Hlst : 0 <= lists) by (subst lists; autounfold with params; lia).
  assert (Hfin : forall gas, is_u64 gas -> gas + lists < two64 ->
    @inl Z coreerror (gas +! (wrap64 (len al) *! TxAccessListAddressGas)
      +! (wrap64 (StorageKeys al) *! TxAccessListStorageKeyGas) +! (wrap64 auths *! CallNewAccountGas))
    = inl (gas + lists)).
  { intros gas Hg Hlt. rewrite Hlists; [f_equal; subst lists; lia|done|subst lists; lia]. }
  clear Hlists. unfold TxDataZeroGas, InitCodeWordGas.
  set (nz := len data - countZeros data) in *.
  destruct (Z.ltb_spec 0 (len data)) as [Hpos|Hzero].
  - assert (0 <= nz * price) by (subst nz; nia).
    rewrite addPriced_eq by first [apply Hu; subst nz; lia|unfold_u64; lia].
    destruct (Z.ltb_spec (base + nz * price) two64); [|split; [intros ?; exfalso; destruct (create && eip3860); lia|done]].
    rewrite addPriced_eq by first [apply Hu; lia|unfold_u64; lia].
    destruct (Z.ltb_spec (base + nz * price + countZeros data * 4) two64);
      [|split; [intros ?; exfalso; destruct (create && eip3860); lia|done]].
    rewrite Hw. destruct (create && eip3860).
    + rewrite addPriced_eq by first [apply Hu; lia|unfold_u64; lia].
      destruct (Z.ltb_spec (base + nz * price + countZeros data * 4 + (len data + 31) / 32 * 2) two64);
        [|split; [intros ?; exfalso; lia|done]].
      split; [|intros ?; exfalso; lia]. intros Hlt. rewrite Hfin by (unfold_u64; subst lists; lia).
      f_equal. subst lists. lia.
    + split; [|intros ?; exfalso; lia]. intros Hlt. rewrite Hfin by (unfold_u64; subst lists; lia).
      f_equal. subst lists. lia.
  - assert (len data = 0) as Hd by (pose proof (len_nonneg data); lia).
    assert (nz = 0) as -> by (subst nz; lia). assert (countZeros data = 0) as -> by lia.
    rewrite Hd. change ((0 + 31) / 32) with 0.
    split; [|intros ?; exfalso; destruct (create && eip3860); unfold_u64; lia].
    intros Hlt. rewrite Hfin by (unfold_u64; subst lists; destruct (create && eip3860); lia).
    f_equal. subst lists. destruct (create && eip3860); lia.
Qed.

(** C19 [IntrinsicGas] is exact: when the cost that the protocol defines fits in 64 bits it is the
    result, and when the part that depends on the data does not fit the result is
    [ErrGasUintOverflow]; no multiplication or addition wraps around unnoticed. *)
Theorem IntrinsicGas_exact (data : bytes) (al : AccessList) (auths : Z)
    (create homestead eip2028 eip3860 : bool) :
  data_ok data -> 0 <= auths ->
  (intrinsicCost data al auths create homestead eip2028 eip3860 < two64 ->
     IntrinsicGas data al auths create homestead eip2028 eip3860 =
       inl (intrinsicCost data al auths create homestead eip2028 eip3860)) /\
  (two64 <= intrinsicCost data [] 0 create homestead eip2028 eip3860 ->
     IntrinsicGas data al auths create homestead eip2028 eip3860 = inr ErrCoreGasUintOverflow).
Proof. apply IntrinsicGas_spec. Qed.

(** ** The transition *)

Section transition_proofs.
Context `{U : Uint256} {US : Uint256Spec U} `{C : Crypto}.
Context {S : Type} `{DB : !StateDB S} `{SP : !StateDBSpec S}.
Context (config : ChainConfig) (env : Env) (table : JumpTable) (fuel : nat) (NoBaseFee : bool).
Context (Ecrecover : Hash -> bytes -> option bytes) (msg : Message).

(** The EVM was made for the block: its rules are those of the configuration, and the pointers
    that the code dereferences are not nil: the base fee from London on, the blob base fee from
    Cancun on, and the chain id of the configuration. *)
Record context_ok : Prop := {
  x_table : instructionSet (chainRules env) = Ret table;
  x_env : env_ok env table;
  x_rules : chainRules env = txRules config env;
  x_baseFee : IsLondonBlock config env = true -> is_Some (BaseFee env);
  x_blobFee : IsCancunBlock config env = true -> is_Some (BlobBaseFee env);
  x_chain : is_Some (config_ChainID_ config);
}.

(** The intrinsic cost of the message. *)
Definition txCost : Z :=
  intrinsicCost (Data msg) (msg_AccessList msg) (len (default [] (SetCodeAuthorizations msg)))
    (contractCreation msg) (IsHomestead (txRules config env)) (IsIstanbul (txRules config env))
    (IsShanghai (txRules config env)).

(** What [TransactionToMessage] produces: fees are present where they are used, the effective gas
    price does not exceed the fee cap, amounts are not negative; the size of the message is such
    that its cost is a [uint64]. *)
Record msg_ok : Prop := {
  m_data : data_ok (Data msg);
  m_gas : is_u64 (msg_GasLimit msg);
  m_fuel : msg_GasLimit msg < Z.of_nat fuel;
  m_price : 0 <= msg_GasPrice msg;
  m_cap : forall cap, GasFeeCap msg = Some cap -> msg_GasPrice msg <= cap;
  m_value : 0 <= Value msg;
  m_fees : (IsLondonBlock config env = true \/ NoBaseFee = true) ->
    is_Some (GasFeeCap msg) /\ is_Some (GasTipCap msg);
  m_blob : 0 < blobGasUsed msg -> exists cap, BlobGasFeeCap msg = Some cap /\ 0 <= cap;
  m_size : txCost < two64;
}.

Hypothesis Hctx : context_ok.
Hypothesis Hmsg : msg_ok.

Definition st_inv (st : stateTransition (S := S)) : Prop :=
  vm_ok (st_evm st) /\ readOnly (st_evm st) = false.

Definition counters (st : stateTransition (S := S)) : Z * Z * Z :=
  (st_gp st, gasRemaining st, initialGas st).

(** A step that only works on the state database. *)
Definition dbstep (st st' : stateTransition (S := S)) : Prop :=
  st_inv st' /\ counters st' = counters st.

(** A step that only reads it. *)
Definition reads (st st' : stateTransition (S := S)) : Prop :=
  dbstep st st' /\ same_state (statedb (st_evm st)) (statedb (st_evm st')).

Lemma dbstep_trans st1 st2 st3 : dbstep st1 st2 -> dbstep st2 st3 -> dbstep st1 st3.
Proof. intros [? H1] [? H2]. split; [done|congruence]. Qed.
Lemma reads_trans st1 st2 st3 : reads st1 st2 -> reads st2 st3 -> reads st1 st3.
Proof. intros [H1 S1] [H2 S2]. split; [by eapply dbstep_trans|by etrans]. Qed.
Lemma reads_refl st : st_inv st -> reads st st.
Proof. intros H. split; [by split|reflexivity]. Qed.

Lemma wp_evmT {A} E (m : ST (VM S) A) (Q : A -> stateTransition -> Prop) st :
  wp E m (fun a v => Q a (mkST (st_gp st) (gasRemaining st) (initialGas st) v)) (st_evm st) ->
  wp E (evmT m) Q st.
Proof. unfold wp, evmT. by destruct (m (st_evm st)) as [[a v]|e]. Qed.

Lemma wp_state {A} (r : sdbE A) (Q : A -> stateTransition -> Prop) st : st_inv st -> req_ok r ->
  (forall x st', sdb r (statedb (st_evm st)) = Ret (x, statedb (st_evm st')) -> dbstep st st' ->
     keeps (statedb (st_evm st)) (statedb (st_evm st')) -> Q x st') ->
  wp tolerated (state_ r) Q st.
Proof.
  intros [[Hd Hj Hr] Hro] Hq HQ. apply wp_evmT. destruct st as [gp rem ini [s d t j al ro rd]].
  cbn in *. apply (wp_vm_db _ _ _ _ _ _ _ false); [done..|]. intros x s' Ex Hs' [K _].
  by apply HQ; [|split; [split|]|].
Qed.

Lemma wp_read {A} (r : sdbE A) (Q : A -> stateTransition -> Prop) st : st_inv st -> req_ok r ->
  is_read r = true ->
  (forall x st', sdb r (statedb (st_evm st)) = Ret (x, statedb (st_evm st')) -> reads st st' ->
     keeps (statedb (st_evm st)) (statedb (st_evm st')) -> Q x st') ->
  wp tolerated (state_ r) Q st.
Proof.
  intros Hs Hq Hread HQ. apply wp_state; [done..|]. intros x st' Ex Hst Hk. apply HQ; [done| |done].
  split; [done|]. destruct Hs as [[Hd _ _] _]. by destruct (sdb_read _ _ _ _ _ Hd Hread Ex).
Qed.

Lemma wp_deref {A} E (o : option A) (Q : A -> stateTransition (S := S) -> Prop) st :
  is_Some o -> (forall x, o = Some x -> Q x st) -> wp E (deref o) Q st.
Proof. intros [x ->] HQ. by apply HQ. Qed.

(** *** The checks *)

Lemma wp_orElse check k (Q : option coreerror -> stateTransition (S := S) -> Prop) st :
  wp tolerated check (fun _ st' => reads st st') st ->
  (forall e st', reads st st' -> Q (Some e) st') ->
  (forall st', reads st st' -> wp tolerated k Q st') -> wp tolerated (orElse check k) Q st.
Proof.
  intros Hc He Hk. apply wp_bind. eapply wp_mono; [exact Hc|]. intros [e|] st' Hr; [|by apply Hk].
  by apply wp_ret, He.
Qed.

Lemma checkNonce_ok st : st_inv st -> wp tolerated (checkNonce msg) (fun _ st' => reads st st') st.
Proof.
  intros Hs. unfold checkNonce. case_if; [by apply wp_ret, reads_refl|].
  apply wp_bind, wp_read; [done..|]. intros n st' _ Hr _. by apply wp_ret.
Qed.

Lemma checkEOA_ok st : st_inv st -> wp tolerated (checkEOA msg) (fun _ st' => reads st st') st.
Proof.
  intros Hs. unfold checkEOA. case_if; [by apply wp_ret, reads_refl|].
  apply wp_bind, wp_read; [done..|]. intros n st' _ Hr _. by apply wp_ret.
Qed.

Lemma checkFees_ok st : st_inv st ->
  wp tolerated (checkFees config env NoBaseFee msg) (fun _ st' => reads st st') st.
Proof using Hctx Hmsg.
  intros Hs. unfold checkFees. destruct (IsLondonBlock config env) eqn:El; [|by apply wp_ret, reads_refl].
  destruct (m_fees Hmsg) as [Hcap Htip]; [by left|]. pose proof (reads_refl st Hs) as Hr.
  cbn [negb]. apply wp_bind, wp_deref; [done|]. intros cap _. apply wp_bind.
  assert (Hrest : forall skip : bool, wp tolerated
    (if skip then mret None
     else if 256 <? big_BitLen cap then mret (Some ErrFeeCapVeryHigh)
     else
       tipCap ← deref (GasTipCap msg);
       if 256 <? big_BitLen tipCap then mret (Some ErrTipVeryHigh)
       else if cap <? tipCap then mret (Some ErrTipAboveFeeCap)
       else baseFee ← deref (BaseFee env); mret (if cap <? baseFee then Some ErrFeeCapTooLow else None))
    (fun _ st' => reads st st') st).
  { intros skip. repeat (case_if; [by apply wp_ret|]). apply wp_bind, wp_deref; [done|]. intros tip _.
    repeat (case_if; [by apply wp_ret|]). apply wp_bind, wp_deref; [by apply Hctx|]. intros. by apply wp_ret. }
  case_if; [apply wp_bind, wp_deref; [done|]; intros tip _; exact (Hrest _)|exact (Hrest false)].
Qed.

Lemma checkBlobFee_ok st : st_inv st ->
  wp tolerated (checkBlobFee config env NoBaseFee msg) (fun _ st' => reads st st') st.
Proof using Hctx Hmsg.
  intros Hs. unfold checkBlobFee. case_if; [|by apply wp_ret, reads_refl]. bool_to_Z.
  destruct (m_blob Hmsg) as (cap & Hcap & _); [done|].
  apply wp_bind, wp_deref; [by exists cap|]. intros. case_if; [by apply wp_ret, reads_refl|].
  apply wp_bind, wp_deref; [by apply Hctx|]. intros. by apply wp_ret, reads_refl.
Qed.

(** What buying the gas guarantees. *)
Definition bought (st st' : stateTransition (S := S)) : Prop :=
  st_inv st' /\ msg_GasLimit msg <= st_gp st /\
  counters st' = (st_gp st - msg_GasLimit msg, msg_GasLimit msg, msg_GasLimit msg) /\
  (0 < msg_GasLimit msg -> msg_GasPrice msg < two256).

Lemma buyGas_ok st : st_inv st -> is_u64 (st_gp st) ->
  wp tolerated (buyGas config env msg)
    (fun r st' => match r with Some _ => reads st st' | None => bought st st' end) st.
Proof using Hctx Hmsg US.
  intros Hs Hgp. unfold buyGas. apply wp_bind. destruct Hmsg as [_ Hgas _ Hprice Hcap Hval _ Hblob _].
  set (base := match GasFeeCap msg with Some cap => _ | None => _ end + Value msg).
  assert (Hbase : msg_GasLimit msg * msg_GasPrice msg <= base).
  { subst base. destruct (GasFeeCap msg) as [cap|]; [|lia].
    specialize (Hcap cap eq_refl). unfold_u64. nia. }
  assert (Hrest : forall mgval check, base <= check -> wp tolerated
    (if FromBigOverflow check then mret (Some ErrInsufficientFunds)
     else
       have ← state_ (GetBalance (From_ msg));
       if Lt have (FromBig check) then mret (Some ErrInsufficientFunds)
       else
         gp ← st_gets st_gp;
         match SubGas gp (msg_GasLimit msg) with
         | inr e => mret (Some e)
         | inl gp =>
             st_modify (set_gp gp);;
             st_modify (set_gasRemaining (msg_GasLimit msg));;
             st_modify (set_initialGas (msg_GasLimit msg));;
             state_ (SubBalance (From_ msg) (FromBig mgval));;
             mret None
         end)
    (fun r st' => match r with Some _ => reads st st' | None => bought st st' end) st).
  { intros mgval check Hcheck. rewrite FromBigOverflow_spec.
    case_if; [by apply wp_ret, reads_refl|]. bool_to_Z.
    apply wp_bind, wp_read; [done..|]. intros have st1 _ Hr _. case_if; [by apply wp_ret|].
    apply wp_bind, wp_gets. destruct Hr as [[Hs1 Hc1] Hst].
    assert (st_gp st1 = st_gp st) as Hg1 by (unfold counters in Hc1; congruence). rewrite Hg1.
    unfold SubGas. case_if; bool_to_Z; [by apply wp_ret|].
    rewrite wrap64_small by (unfold_u64; lia).
    do 3 apply wp_bind, wp_modify. apply wp_bind, wp_state; [by destruct Hs1|done|].
    intros x st2 _ [Hs2 Hc2] _. apply wp_ret. split; [done|]. split; [lia|]. split; [done|].
    intros Hpos. unfold_u64. nia. }
  case_if; [|by apply wp_ret, Hrest; lia]. bool_to_Z. destruct Hblob as (cap & -> & Hc0); [done|].
  apply wp_bind, wp_deref; [by exists cap|]. intros c [= <-].
  apply wp_bind, wp_deref; [by apply Hctx|]. intros fee _. apply wp_ret, Hrest.
  pose proof (Z.mul_nonneg_nonneg (blobGasUsed msg) cap). lia.
Qed.

Lemma preCheck_ok st : st_inv st -> is_u64 (st_gp st) ->
  wp tolerated (preCheck config env NoBaseFee msg)
    (fun r st' => match r with Some _ => reads st st' | None => bought st st' end) st.
Proof using Hctx Hmsg US.
  intros Hs Hgp.
  assert (Hk : forall check k st1, reads st st1 ->
    (forall st2, st_inv st2 -> wp tolerated check (fun _ st3 => reads st2 st3) st2) ->
    (forall st2, reads st st2 -> wp tolerated k (fun r st' =>
       match r with Some _ => reads st st' | None => bought st st' end) st2) ->
    wp tolerated (orElse check k) (fun r st' =>
       match r with Some _ => reads st st' | None => bought st st' end) st1).
  { intros check k st1 Hr Hc Hk. apply wp_orElse; [apply Hc, Hr| |].
    - intros e st2 Hr2. by eapply reads_trans.
    - intros st2 Hr2. apply Hk. by eapply reads_trans. }
  unfold preCheck. apply Hk; [by apply reads_refl|apply checkNonce_ok|]. intros st1 H1.
  apply Hk; [done|apply checkEOA_ok|]. intros st2 H2.
  apply Hk; [done|apply checkFees_ok|]. intros st3 H3.
  apply Hk; [done|intros; by apply wp_ret, reads_refl|]. intros st4 H4.
  apply Hk; [done|apply checkBlobFee_ok|]. intros st5 H5.
  apply Hk; [done|intros; by apply wp_ret, reads_refl|]. intros st6 H6.
  assert (Hg : st_gp st6 = st_gp st) by (destruct H6 as [[_ Hc] _]; unfold counters in Hc; congruence).
  eapply wp_mono; [apply buyGas_ok; [apply H6|by rewrite Hg]|].
  intros [e|] st7; [by intros; eapply reads_trans|]. unfold bought. by rewrite Hg.
Qed.

(** *** Paying the intrinsic gas *)

Lemma txCost_pos : 0 < txCost.
Proof.
  unfold txCost, intrinsicCost. pose proof (countZeros_le (Data msg)).
  pose proof (StorageKeys_nonneg (msg_AccessList msg)). pose proof (len_nonneg (msg_AccessList msg)).
  pose proof (len_nonneg (default [] (SetCodeAuthorizations msg))).
  pose proof (Z.div_pos (len (Data msg) + 31) 32 ltac:(pose proof (len_nonneg (Data msg)); lia) ltac:(lia)).
  autounfold with params. repeat case_if; lia.
Qed.

(** The floor of the gas used (EIP-7623). *)
Definition floor_ok (floor : Z) : Prop :=
  0 <= floor <= msg_GasLimit msg /\
  (IsPrague (txRules config env) = true -> FloorDataGas (Data msg) = inl floor) /\
  (IsPrague (txRules config env) = false -> floor = 0).

Lemma FloorDataGas_u64 d f : FloorDataGas d = inl f -> is_u64 f.
Proof. unfold FloorDataGas. case_if; intros [= <-]. apply wrap64_range. Qed.

Lemma payIntrinsic_ok st : st_inv st -> gasRemaining st = msg_GasLimit msg ->
  wp tolerated (payIntrinsic config env msg) (fun r st' => st_inv st' /\
    match r with
    | inr _ => st_gp st' = st_gp st
    | inl floor => floor_ok floor /\ txCost <= msg_GasLimit msg /\
        counters st' = (st_gp st, msg_GasLimit msg - txCost, initialGas st)
    end) st.
Proof using Hmsg.
  intros Hs Hrem. unfold payIntrinsic.
  destruct (IntrinsicGas_spec (Data msg) (msg_AccessList msg) (len (default [] (SetCodeAuthorizations msg)))
    (contractCreation msg) (IsHomestead (txRules config env)) (IsIstanbul (txRules config env))
    (IsShanghai (txRules config env)) (m_data Hmsg) (len_nonneg _)) as [E _].
  rewrite E by apply Hmsg. fold txCost. clear E. apply wp_bind, wp_gets. rewrite Hrem. case_if; bool_to_Z; [by apply wp_ret|].
  pose proof (m_gas Hmsg) as Hg. pose proof txCost_pos.
  assert (Hpay : forall floor, floor_ok floor -> wp tolerated
    (st_modify (set_gasRemaining (msg_GasLimit msg -! txCost));; mret (inl floor))
    (fun (r : Z + coreerror) st' => st_inv st' /\
      match r with
      | inr _ => st_gp st' = st_gp st
      | inl floor => floor_ok floor /\ txCost <= msg_GasLimit msg /\
          counters st' = (st_gp st, msg_GasLimit msg - txCost, initialGas st)
      end) st).
  { intros floor Hf. apply wp_bind, wp_modify, wp_ret. split; [done|]. split; [done|]. split; [lia|].
    cbn. by rewrite wrap64_small by (unfold_u64; lia). }
  destruct (IsPrague (txRules config env)) eqn:Hp; cbn [andb].
  - destruct (FloorDataGas (Data msg)) as [floor|e] eqn:Ef; [|by apply wp_ret].
    case_if; bool_to_Z; [by apply wp_ret|]. apply Hpay. unfold floor_ok. rewrite Hp.
    pose proof (FloorDataGas_u64 _ _ Ef). unfold_u64. split; [lia|done].
  - apply Hpay. unfold floor_ok. rewrite Hp. unfold_u64. split; [lia|done].
Qed.

Lemma wp_Prepare_st (Q : unit -> stateTransition (S := S) -> Prop) st : st_inv st ->
  (forall st', dbstep st st' -> Q tt st') ->
  wp tolerated (state_ (Prepare (txRules config env) (From_ msg) (Coinbase env) (To msg)
    (ActivePrecompiles (txRules config env)) (msg_AccessList msg))) Q st.
Proof using Hctx.
  intros [[Hd Hj Hr] Hro] HQ. destruct st as [gp rem ini [s d t j al ro rd]]. cbn in *.
  edestruct (sdb_prepare (txRules config env) (From_ msg) (Coinbase env) (To msg)
    (ActivePrecompiles (txRules config env)) (msg_AccessList msg) s) as (s' & E & Hs'); [done| |].
  { rewrite <- (x_rules Hctx), (e_4762 _ _ (x_env Hctx)). apply andb_false_r. }
  unfold wp, state_, evmT, vm_db. cbn [st_evm statedb]. rewrite E. apply HQ. by split; [split|].
Qed.

(** *** Running the message *)

Lemma sigHash_total a : exists h, sigHash a = Ret h.
Proof.
  unfold sigHash. cbn [buf_list emptyBuf].
  assert (Hh : forall bf d, lheads (writeBytes bf d) = lheads bf).
  { intros bf d. unfold writeBytes, encodeStringHeader. repeat case_match; done. }
  assert (Hu : forall bf i, lheads (writeUint64 bf i) = lheads bf).
  { intros bf i. unfold writeUint64. repeat case_match; done. }
  assert (Hw : forall bf i, lheads (writeUint256 bf i) = lheads bf).
  { intros bf i. unfold writeUint256. case_if; [by rewrite Hu|done]. }
  unfold listEnd. rewrite Hu, Hh, Hw. cbn. eauto.
Qed.

Lemma Authority_total a : exists r, Authority Ecrecover a = Ret r.
Proof.
  unfold Authority. destruct (sigHash_total a) as [h ->]. cbn. repeat case_match; eauto.
Qed.

Lemma delegation_ok a : data_ok (AddressToDelegation a).
Proof.
  unfold AddressToDelegation, Address_Bytes. split.
  - apply Forall_app. split; [repeat constructor; done|apply be_bytes_bytes].
  - unfold len. rewrite length_app, be_bytes_length. done.
Qed.

(** The state may be left with other snapshots than before. *)
Lemma wp_SetCode_st a c (Q : bytes -> stateTransition (S := S) -> Prop) st :
  st_inv st -> fresh (statedb (st_evm st)) a -> data_ok c ->
  (forall x st', dbstep st st' -> Q x st') -> wp tolerated (state_ (SetCode a c)) Q st.
Proof.
  intros [[Hd Hj Hr] Hro] Hf Hc HQ. apply wp_evmT. destruct st as [gp rem ini [s d t j al ro rd]].
  cbn in *. apply wp_setCode; [done..|]. intros x s' Hs' _. by apply HQ.
Qed.

Lemma applyAuthorization_ok auth st : st_inv st ->
  wp tolerated (applyAuthorization config Ecrecover auth) (fun _ st' => dbstep st st') st.
Proof.
  intros Hs. unfold applyAuthorization. apply wp_bind. unfold validateAuthorization.
  assert (Hrefl : dbstep st st) by by split.
  apply wp_bind, (wp_mono _ _ (fun _ st' => st' = st)).
  { case_if; [by apply wp_ret|]. apply wp_bind, wp_deref; [by apply Hctx|]. intros. by apply wp_ret. }
  intros wrong ? ->. case_if; [exact Hrefl|]. case_if; [exact Hrefl|].
  apply wp_bind. destruct (Authority_total auth) as [r ->].
  change (st_lift (Ret r)) with (mret (M := ST (stateTransition (S := S))) r). apply wp_ret.
  destruct r as [authority|]; [|exact Hrefl].
  apply wp_bind, wp_state; [done..|]. intros _ st1 _ H1 _.
  apply wp_bind, wp_state; [apply H1|done|]. intros code st2 E2 H2 _.
  destruct (sdb_code _ _ _ _ (v_db _ (proj1 (proj1 H1))) E2) as (_ & _ & Hf2).
  assert (H02 : dbstep st st2) by by eapply dbstep_trans.
  case_if; [exact H02|].
  apply wp_bind, wp_state; [apply H2|done|]. intros n st3 _ H3 [_ F3].
  assert (H03 : dbstep st st3) by by eapply dbstep_trans.
  case_if; [exact H03|]. apply wp_ret.
  apply wp_bind, wp_state; [apply H3|done|]. intros ex st4 _ H4 [_ F4].
  apply wp_bind.
  assert (Hrest : forall st5, dbstep st st5 -> fresh (statedb (st_evm st5)) authority -> wp tolerated
    (state_ (SetNonce authority (auth_Nonce auth +! 1));;
     state_ (SetCode authority (if auth_Address auth =? 0 then [] else AddressToDelegation (auth_Address auth)));;
     mret (None : option autherror)) (fun _ st' => dbstep st st') st5).
  { intros st5 H5 F5. apply wp_bind, wp_state; [apply H5|done|]. intros _ st6 _ H6 [_ F6].
    apply wp_bind, wp_SetCode_st; [apply H6|auto|case_if; [auto with geth|apply delegation_ok]|].
    intros x st7 H7. apply wp_ret. eapply dbstep_trans; [exact H5|]. by eapply dbstep_trans. }
  assert (H04 : dbstep st st4) by by eapply dbstep_trans.
  destruct ex; [|apply wp_ret, Hrest; auto].
  apply wp_state; [apply H4|done|]. intros _ st5 _ H5 [_ F5].
  apply Hrest; [by eapply dbstep_trans|auto].
Qed.

Lemma applyAuthorizations_ok l st : st_inv st ->
  wp tolerated (applyAuthorizations config Ecrecover l) (fun _ st' => dbstep st st') st.
Proof.
  revert st. induction l as [|a l IH]; intros st Hs; [by apply wp_ret|].
  apply wp_bind. eapply wp_mono; [by apply applyAuthorization_ok|]. intros ? st1 H1.
  eapply wp_mono; [apply IH, H1|]. intros ? st2 H2. exact (dbstep_trans _ _ _ H1 H2).
Qed.

(** The message may use gas, and gives none back. *)
Definition ran (st st' : stateTransition (S := S)) : Prop :=
  st_inv st' /\ st_gp st' = st_gp st /\ initialGas st' = initialGas st /\
  0 <= gasRemaining st' <= gasRemaining st.

Lemma runMessage_ok value st : st_inv st -> is_u64 (gasRemaining st) ->
  gasRemaining st < Z.of_nat fuel ->
  wp tolerated (runMessage config env table fuel Ecrecover msg value) (fun _ st' => ran st st') st.
Proof using Hctx Hmsg US.
  intros Hs Hu Hf. pose proof (m_data Hmsg) as Hdata.
  pose proof (Run_ok env table (x_env Hctx) (instructionSet_ok _ _ (x_table Hctx)) fuel) as Hrun.
  unfold runMessage. apply wp_bind, wp_gets. destruct (To msg) as [to|].
  2: { destruct Hs as [Hv Hro]. apply wp_bind, wp_evmT.
    eapply wp_mono; [by apply (Create_full env table (x_env Hctx) _ _ Hrun)|].
    intros [[[ret a] gas] err] v' (Hv' & [_ _ Er] & Hg & _). cbn in *. apply wp_bind, wp_modify, wp_ret.
    split; [split; [done|cbn; congruence]|done]. }
  apply wp_bind, wp_state; [done..|]. intros n st1 _ H1 _.
  apply wp_bind, wp_state; [apply H1|done|]. intros _ st2 _ H2 _.
  apply wp_bind. eapply wp_mono; [apply applyAuthorizations_ok, H2|]. intros ? st3 H3.
  apply wp_bind, wp_state; [apply H3|done|]. intros code st4 _ H4 _.
  assert (H04 : dbstep st st4)
    by exact (dbstep_trans _ _ _ (dbstep_trans _ _ _ H1 H2) (dbstep_trans _ _ _ H3 H4)).
  apply wp_bind.
  assert (Hcall : forall st5, dbstep st st5 -> wp tolerated
    ('(ret, gas, vmerr) ← evmT (evm_Call env table fuel (From_ msg) to (Data msg) (gasRemaining st) value);
     st_modify (set_gasRemaining gas);;
     mret (ret, vmerr)) (fun _ st' => ran st st') st5).
  { intros st5 [[Hv5 Hro5] Hc5]. apply wp_bind, wp_evmT.
    eapply wp_mono; [apply (Call_full env table (x_env Hctx) _ _ Hrun); try done; congruence|].
    intros [[ret gas] err] v' [(Hv' & [_ _ Er] & Hg & _) _]. cbn in *. apply wp_bind, wp_modify, wp_ret.
    unfold counters in Hc5. injection Hc5 as Eg Er5 Ei.
    split; [split; [done|cbn; congruence]|done]. }
  destruct (ParseDelegation code) as [addr|].
  - apply wp_state; [apply H4|done|]. intros _ st5 _ H5 _. apply Hcall. by eapply dbstep_trans.
  - by apply wp_ret, Hcall.
Qed.

(** *** Refunds and payments *)

Definition refundQuotient : Z :=
  if IsLondonBlock config env then RefundQuotientEIP3529 else RefundQuotient.

Lemma wp_gasUsed E st (Q : Z -> stateTransition (S := S) -> Prop) :
  0 <= gasRemaining st <= initialGas st -> is_u64 (initialGas st) ->
  Q (initialGas st - gasRemaining st) st -> wp E gasUsed Q st.
Proof.
  intros Hr Hi HQ. unfold gasUsed. apply wp_gets. by rewrite wrap64_small by (unfold_u64; lia).
Qed.

Lemma calcRefund_ok st : st_inv st -> 0 <= gasRemaining st <= initialGas st -> is_u64 (initialGas st) ->
  wp tolerated (calcRefund config env)
    (fun r st' => dbstep st st' /\ 0 <= r <= (initialGas st - gasRemaining st) / refundQuotient) st.
Proof.
  intros Hs Hr Hi. unfold calcRefund, refundQuotient. apply wp_bind, wp_gasUsed; [done..|].
  set (used := initialGas st - gasRemaining st) in *.
  set (bound := if negb (IsLondonBlock config env) then _ else _).
  assert (Hb : bound = used / (if IsLondonBlock config env then RefundQuotientEIP3529 else RefundQuotient)).
  { subst bound. by destruct (IsLondonBlock config env). }
  assert (0 <= bound).
  { rewrite Hb. apply Z.div_pos; [subst used; lia|]. case_if; autounfold with params; lia. }
  rewrite <- Hb. clearbody bound. apply wp_bind, wp_state; [done..|]. intros c st1 E1 H1 _.
  destruct (sdb_refund _ _ _ (v_db _ (proj1 Hs)) E1) as [Hc Es].
  case_if; bool_to_Z; [|apply wp_ret; split; [done|lia]].
  apply wp_state; [apply H1|done|]. intros c2 st2 E2 H2 _. rewrite Es, E1 in E2. simplify_eq.
  split; [by eapply dbstep_trans|]. unfold_u64. lia.
Qed.

(** What the settlement leaves: [used] is charged, [peak] was the maximum. *)
Definition settled (st st' : stateTransition (S := S)) (floor peak : Z) : Prop :=
  let used := initialGas st' - gasRemaining st' in
  st_inv st' /\ st_gp st' = st_gp st /\ initialGas st' = initialGas st /\
  0 <= used <= peak /\ peak <= initialGas st /\
  initialGas st - gasRemaining st <= peak /\ peak - used <= peak / refundQuotient /\ floor <= used.

Lemma settleGas_ok floor st : st_inv st -> 0 <= gasRemaining st <= initialGas st ->
  is_u64 (initialGas st) -> floor_ok floor -> msg_GasLimit msg = initialGas st ->
  wp tolerated (settleGas config env floor) (fun peak st' => settled st st' floor peak) st.
Proof.
  intros Hs Hr Hi (Hfl & _ & Hf0) Hlim. unfold settleGas. apply wp_bind, wp_gasUsed; [done..|].
  set (peak := initialGas st - gasRemaining st).
  apply wp_bind. eapply wp_mono; [by apply calcRefund_ok|]. intros r st1 [[Hs1 Hc1] Hrf]. fold peak in Hrf.
  unfold counters in Hc1. injection Hc1 as Eg1 Er1 Ei1.
  assert (Hq : 2 <= refundQuotient) by (unfold refundQuotient; case_if; autounfold with params; lia).
  assert (Hdiv : peak / refundQuotient <= peak).
  { apply Z.div_le_upper_bound; [lia|]. subst peak. nia. }
  apply wp_bind, wp_modify.
  set (st2 := set_gasRemaining _ st1).
  assert (E2 : gasRemaining st2 = gasRemaining st + r).
  { subst st2. cbn. rewrite Er1. apply wrap64_small. subst peak. unfold_u64. lia. }
  assert (Ei2 : initialGas st2 = initialGas st) by done.
  assert (Eg2 : st_gp st2 = st_gp st) by done.
  assert (Hs2 : st_inv st2) by (by destruct Hs1). clearbody st2.
  destruct (IsPrague (txRules config env)) eqn:Hp.
  2: { rewrite (Hf0 eq_refl) in *. apply wp_ret. unfold settled. rewrite E2, Ei2, Eg2. subst peak.
       split_and!; try done; lia. }
  apply wp_bind, wp_gasUsed; [rewrite E2, Ei2; subst peak; lia|by rewrite Ei2|].
  rewrite E2, Ei2. apply wp_bind.
  assert (Hmono : forall p, peak <= p -> peak / refundQuotient <= p / refundQuotient).
  { intros p Hle. apply Z.div_le_mono; lia. }
  specialize (Hmono (if peak <? floor then floor else peak) ltac:(case_if; bool_to_Z; lia)).
  case_if; bool_to_Z.
  - apply wp_modify, wp_ret. unfold settled, set_gasRemaining. cbn [gasRemaining initialGas st_gp].
    rewrite Ei2, Eg2. rewrite wrap64_small by (unfold_u64; lia).
    assert (Hs3 : st_inv (mkST (st_gp st) (initialGas st - floor) (initialGas st) (st_evm st2)))
      by (by destruct Hs2).
    destruct (Z.ltb_spec peak floor); subst peak; split_and!; done || lia.
  - apply wp_ret, wp_ret. unfold settled. rewrite E2, Ei2, Eg2.
    destruct (Z.ltb_spec peak floor); subst peak; split_and!; done || lia.
Qed.

(** The gas that remains goes back to the pool. *)
Definition refilled (st st' : stateTransition (S := S)) : Prop :=
  st_inv st' /\ counters st' = (st_gp st + gasRemaining st, gasRemaining st, initialGas st).

Lemma returnGas_ok st : st_inv st -> 0 <= gasRemaining st -> 0 <= st_gp st ->
  is_u64 (st_gp st + gasRemaining st) -> msg_GasPrice msg < two256 ->
  wp tolerated (returnGas msg) (fun _ st' => refilled st st') st.
Proof using Hmsg US.
  intros Hs Hr Hg Hu Hp. pose proof (m_price Hmsg). unfold returnGas, MustFromBig.
  apply wp_bind, wp_gets, wp_bind. rewrite FromBigOverflow_spec.
  case_if; bool_to_Z; [exfalso; unfold_u64; lia|]. apply wp_ret.
  apply wp_bind, wp_state; [done..|]. intros _ st1 _ [Hs1 Hc1] _.
  unfold counters in Hc1. injection Hc1 as Eg1 Er1 Ei1.
  apply wp_bind, wp_gets. rewrite Eg1. unfold AddGas.
  case_if; bool_to_Z; [exfalso; unfold_u64; lia|].
  apply wp_bind, wp_ret, wp_modify. rewrite wrap64_small by done.
  split; [by destruct Hs1|]. unfold counters, set_gp. cbn. by rewrite Er1, Ei1.
Qed.

Lemma txEip4762_ok st (Q : unit -> stateTransition (S := S) -> Prop) :
  Q tt st -> wp tolerated (txEip4762 config env) Q st.
Proof using Hctx.
  intros HQ. unfold txEip4762. rewrite <- (x_rules Hctx), (e_4762 _ _ (x_env Hctx)). by apply wp_ret.
Qed.

Lemma payCoinbase_ok st : st_inv st -> 0 <= gasRemaining st <= initialGas st -> is_u64 (initialGas st) ->
  wp tolerated (payCoinbase config env NoBaseFee msg) (fun _ st' => dbstep st st') st.
Proof using Hctx Hmsg.
  intros Hs Hr Hi. pose proof (m_fees Hmsg) as Hfees. assert (Hrefl : dbstep st st) by by split.
  assert (Hpay : forall tip (skip : bool), wp tolerated
    (if skip then mret tt
     else used ← gasUsed; state_ (AddBalance (Coinbase env) (Mul (SetUint64 used) (FromBig tip)));;
          txEip4762 config env) (fun _ st' => dbstep st st') st).
  { intros tip skip. case_if; [by apply wp_ret|]. apply wp_bind, wp_gasUsed; [done..|].
    apply wp_bind, wp_state; [done..|]. intros _ st1 _ H1 _. by apply txEip4762_ok. }
  assert (Hskip : forall tip, wp tolerated
    (skip ← (if NoBaseFee then
            feeCap ← deref (GasFeeCap msg);
            if feeCap =? 0 then tipCap ← deref (GasTipCap msg); mret (tipCap =? 0) else mret false
          else mret false);
     if (skip : bool) then mret tt
     else used ← gasUsed; state_ (AddBalance (Coinbase env) (Mul (SetUint64 used) (FromBig tip)));;
          txEip4762 config env) (fun _ st' => dbstep st st') st).
  { intros tip. apply wp_bind. destruct NoBaseFee; [|apply wp_ret, (Hpay tip false)].
    destruct Hfees as [Hcap Htip]; [by right|].
    apply wp_bind, wp_deref; [done|]. intros cap _. case_if; [|apply wp_ret, (Hpay tip false)].
    apply wp_bind, wp_deref; [done|]. intros t _. apply wp_ret, (Hpay tip (t =? 0)). }
  unfold payCoinbase. apply wp_bind.
  change (IsLondon (txRules config env)) with (IsLondonBlock config env).
  destruct (IsLondonBlock config env) eqn:El; [|apply wp_ret, Hskip].
  destruct Hfees as [Hcap Htip]; [by left|].
  apply wp_bind, wp_deref; [done|]. intros cap _. apply wp_bind, wp_deref; [done|]. intros t _.
  apply wp_bind, wp_deref; [by apply Hctx|]. intros f _.
  apply wp_ret, Hskip.
Qed.

(** What an executed message leaves behind. *)
Record executed (st : stateTransition (S := S)) (res : ExecutionResult) (st' : stateTransition (S := S))
    : Prop := {
  x_inv : st_inv st';
  x_used : 0 <= UsedGas res <= MaxUsedGas res;
  x_limit : MaxUsedGas res <= msg_GasLimit msg;
  x_bought : msg_GasLimit msg <= st_gp st;
  x_pool : st_gp st' = st_gp st - UsedGas res;
  x_intrinsic : txCost <= MaxUsedGas res;
  x_refund : MaxUsedGas res - UsedGas res <= MaxUsedGas res / refundQuotient;
  x_floor : IsPrague (txRules config env) = true ->
    exists floor, FloorDataGas (Data msg) = inl floor /\ floor <= UsedGas res;
}.

Definition execute_post (st : stateTransition (S := S)) (r : ExecutionResult + coreerror)
    (st' : stateTransition (S := S)) : Prop :=
  match r with
  | inl res => executed st res st'
  | inr _ => st_inv st' /\ (st_gp st' = st_gp st \/ st_gp st' = st_gp st - msg_GasLimit msg)
  end.

(** The message is run, and what it did not use is paid back. *)
Lemma run_settle_ok value floor st st2 : st_inv st2 -> msg_GasLimit msg <= st_gp st -> is_u64 (st_gp st) ->
  counters st2 = (st_gp st - msg_GasLimit msg, msg_GasLimit msg - txCost, msg_GasLimit msg) ->
  txCost <= msg_GasLimit msg -> floor_ok floor -> msg_GasPrice msg < two256 ->
  wp tolerated
    ('(ret, vmerr) ← runMessage config env table fuel Ecrecover msg value;
     peak ← settleGas config env floor;
     returnGas msg;;
     payCoinbase config env NoBaseFee msg;;
     used ← gasUsed;
     mret (inl (mkResult used peak vmerr ret))) (execute_post st) st2.
Proof using Hctx Hmsg US.
  intros Hs Hle Hgp Hc Hcost Hfl Hprice. unfold counters in Hc. injection Hc as Eg Er Ei.
  pose proof (m_gas Hmsg) as Hlim. pose proof txCost_pos as Hpos. pose proof (m_fuel Hmsg) as Hfuel.
  apply wp_bind. eapply wp_mono; [apply runMessage_ok; [done|rewrite Er; unfold_u64; lia|lia]|].
  intros [ret vmerr] st3 (Hs3 & Eg3 & Ei3 & Hr3).
  apply wp_bind. eapply wp_mono; [apply settleGas_ok; [done|lia|by rewrite Ei3, Ei|done|congruence]|].
  intros peak st4 (Hs4 & Eg4 & Ei4 & Hu4 & Hp4 & Hi4 & Hq4 & Hf4).
  apply wp_bind. eapply wp_mono; [apply returnGas_ok; [done|..]; unfold_u64; lia|].
  intros ? st5 [Hs5 Hc5]. unfold counters in Hc5. injection Hc5 as Eg5 Er5 Ei5.
  assert (Hi5 : is_u64 (initialGas st5)) by (rewrite Ei5; unfold_u64; lia).
  apply wp_bind. eapply wp_mono; [apply payCoinbase_ok; [done|lia|done]|].
  intros ? st6 [Hs6 Hc6]. unfold counters in Hc6. injection Hc6 as Eg6 Er6 Ei6.
  apply wp_bind, wp_gasUsed; [lia|by rewrite Ei6|]. apply wp_ret.
  split; cbn; [done|lia..|]. intros Hp. exists floor. destruct Hfl as (_ & Hfl & _).
  split; [by apply Hfl|lia].
Qed.

Lemma execute_ok st : st_inv st -> is_u64 (st_gp st) ->
  wp tolerated (execute config env table fuel NoBaseFee Ecrecover msg) (execute_post st) st.
Proof using Hctx Hmsg US.
  intros Hs Hgp. unfold execute. apply wp_bind. eapply wp_mono; [by apply preCheck_ok|].
  intros [e|] st1 H1.
  { apply wp_ret. destruct H1 as [[Hs1 Hc1] _]. unfold counters in Hc1. split; [done|]. left. congruence. }
  destruct H1 as (Hs1 & Hle & Hc1 & Hprice). unfold counters in Hc1. injection Hc1 as Eg1 Er1 Ei1.
  apply wp_bind. eapply wp_mono; [by apply payIntrinsic_ok|].
  intros [floor|e] st2 [Hs2 H2]; [|].
  2: { apply wp_ret. split; [done|]. right. congruence. }
  destruct H2 as (Hfl & Hcost & Hc2). rewrite Eg1, Ei1 in Hc2.
  assert (Herr : forall e st', dbstep st2 st' -> execute_post st (inr e) st').
  { intros e st' [Hs' Hc']. unfold counters in *. split; [done|]. right. congruence. }
  apply wp_bind, txEip4762_ok. case_if; [by apply wp_ret, Herr|].
  apply wp_bind.
  assert (Hrest : forall (can : bool) st3, dbstep st2 st3 -> wp tolerated
    (if negb can then mret (inr ErrInsufficientFundsForTransfer)
     else if IsShanghai (txRules config env) && contractCreation msg && (MaxInitCodeSize <? len (Data msg))
     then mret (inr ErrCoreMaxInitCodeSizeExceeded)
     else
       state_ (Prepare (txRules config env) (From_ msg) (Coinbase env) (To msg)
         (ActivePrecompiles (txRules config env)) (msg_AccessList msg));;
       '(ret, vmerr) ← runMessage config env table fuel Ecrecover msg (FromBig (Value msg));
       peak ← settleGas config env floor;
       returnGas msg;;
       payCoinbase config env NoBaseFee msg;;
       used ← gasUsed;
       mret (inl (mkResult used peak vmerr ret))) (execute_post st) st3).
  { intros can st3 [Hs3 Hc3]. case_if; [by apply wp_ret, Herr|]. case_if; [by apply wp_ret, Herr|].
    apply wp_bind, wp_Prepare_st; [done|]. intros st4 [Hs4 Hc4].
    apply run_settle_ok; try done; [congruence|]. apply Hprice. pose proof txCost_pos. lia. }
  case_if; [|by apply wp_ret, Hrest].
  apply wp_evmT. destruct st2 as [gp2 rem2 ini2 [s d t j al ro rd]]. destruct Hs2 as [[? ? ?] ?]. cbn in *.
  apply (wp_CanTransfer false); [done|]. intros can s' Hs' _ _. apply Hrest. split; [|done]. by split.
Qed.
End transition_proofs.

Section transition_theorems.
Context `{U : Uint256} {US : Uint256Spec U} `{C : Crypto}.
Context {S : Type} `{DB : !StateDB S} `{SP : !StateDBSpec S}.

(** C18 A message that fails one of the checks before it is executed (nonce, sender, fees, blobs,
    authorizations, balance, block gas) costs nothing: the gas pool and the gas counters are
    untouched and the state is the one before; a message that passes them has its whole gas limit
    taken from the pool. *)
Theorem preCheck_atomic (config : ChainConfig) (env : Env) (table : JumpTable) (fuel : nat)
    (NoBaseFee : bool) (msg : Message) (gp : Z) (v : VM S) :
  context_ok config env table -> msg_ok config env fuel NoBaseFee msg ->
  vm_ok v -> readOnly v = false -> is_u64 gp ->
  match preCheck config env NoBaseFee msg (mkST gp 0 0 v) with
  | Ret (Some e, st') =>
      same_state (statedb v) (statedb (st_evm st')) /\ st_gp st' = gp /\ gasRemaining st' = 0 /\ initialGas st' = 0
  | Ret (None, st') =>
      msg_GasLimit msg <= gp /\ st_gp st' = gp - msg_GasLimit msg /\
      gasRemaining st' = msg_GasLimit msg /\ initialGas st' = msg_GasLimit msg /\ vm_ok (st_evm st')
  | Fail e => tolerated e
  end.
Proof.
  intros Hc Hm Hv Hro Hgp.
  pose proof (preCheck_ok config env table fuel NoBaseFee msg Hc Hm (mkST gp 0 0 v) (conj Hv Hro) Hgp) as H.
  unfold wp in H. destruct (preCheck _ _ _ _ _) as [[[e|] st']|e]; [| |exact H].
  - destruct H as [[_ Hcnt] Hs]. unfold counters in Hcnt. by injection Hcnt as -> -> ->.
  - destruct H as ([Hv' _] & Hle & Hcnt & _). unfold counters in Hcnt. by injection Hcnt as -> -> ->.
Qed.

End transition_theorems.

(** ** Witnesses *)

Lemma IntrinsicGas_exact_witness :
  IntrinsicGas [1; 0] [(5, [7])] 0 false true true true = inl 25320 /\
  data_ok [1; 0] /\ intrinsicCost [1; 0] [(5, [7])] 0 false true true true < two64.
Proof.
  assert (H : data_ok [1; 0]) by (split; [by repeat (constructor; [done|])|done]).
  split; [|split; [exact H|reflexivity]].
  exact (proj1 (IntrinsicGas_exact [1; 0] [(5, [7])] 0 false true true true H ltac:(lia)) eq_refl).
Defined.

(** All forks up to Cancun from the start of the chain. *)
Definition cancun_config : ChainConfig :=
  mkChainConfig (Some 1) (Some 0) None false (Some 0) (Some 0) (Some 0) (Some 0) (Some 0) (Some 0)
    (Some 0) None (Some 0) (Some 0) None None None (Some 0) (Some 0) None None None None.

(** The user calls the writer contract. *)
Definition demo_msg : Message :=
  mkMessage (Some writer) user 0 0 50000 1 (Some 2) (Some 1) [] [] None None None false false.

Definition demo_tx_env : Env := SetTxContext demo_env demo_msg.

Lemma demo_context_ok : context_ok cancun_config demo_tx_env demo_table.
Proof.
  split; [exact demo_table_selected| |reflexivity|by eexists..].
  split; [reflexivity|intros op o _; destruct (JumpTable.execute o); cbn; eauto|].
  intros a p H. cbn [precompiles demo_tx_env SetTxContext demo_env] in H.
  rewrite lookup_empty in H. discriminate H.
Qed.

Lemma demo_msg_ok : msg_ok cancun_config demo_tx_env (Z.to_nat 50001) false demo_msg.
Proof.
  split; cbn [demo_msg Data msg_GasLimit msg_GasPrice GasFeeCap GasTipCap Value]; auto with geth.
  all: try (unfold_u64; lia); try done.
  intros cap [= <-]. lia.
Qed.

Lemma preCheck_atomic_witness :
  match preCheck (DB := state_StateDB demo_reader) cancun_config demo_tx_env false demo_msg
          (mkST 1000000 0 0 demo_vm) with
  | Ret (None, st') => st_gp st' = 950000
  | _ => True
  end.
Proof.
  pose proof (preCheck_atomic (DB := state_StateDB demo_reader) (SP := demo_spec) (U := ref_uint256)
    cancun_config demo_tx_env demo_table (Z.to_nat 50001) false demo_msg 1000000 demo_vm
    demo_context_ok demo_msg_ok demo_vm_ok eq_refl ltac:(by split)) as H.
  destruct (preCheck _ _ _ _ _) as [[[e|] st']|e]; [exact I| |exact I].
  exact (proj1 (proj2 H)).
Defined.


(** The message runs: the slot is set, 43106 units of gas are used (intrinsic 21000, execution
    22106), and the sender has paid for them. *)
Example demo_message_runs :
  match ApplyMessage (DB := state_StateDB demo_reader) cancun_config demo_env demo_table
          100 false (fun _ _ => None) demo_msg 1000000 demo_vm with
  | Ret (inl res, st') => Some (UsedGas res, MaxUsedGas res, Err res, st_gp st')
  | _ => None
  end = Some (43106, 43106, None, 956894).
Proof. vm_compute. reflexivity. Qed.
