(* ===== verification/HeaderTheorems.v ===== *)
(** * What the rules between a header and its parent guarantee

    Gas limits, base fees, blob fees, and the agreement of the two difficulty calculations. *)

From S2P Require Import Prelude Bytes Uint256 Params ChainConfig Rlp VM Headers HeaderRules Difficulty Scenario.

(** ** Gas limit *)

Lemma int64_small z : - 2 ^ 63 <= z < 2 ^ 63 -> int64 z = z.
Proof.
  intros Hz. unfold int64. unfold_u64. destruct (Z.lt_ge_cases z 0).
  - rewrite <- (Z.mod_add z 1), Z.mod_small by lia. replace (_ <? 2 ^ 63) with false by lia. lia.
  - rewrite Z.mod_small by lia. by replace (z <? 2 ^ 63) with true by lia.
Qed.

(** Below [2^63] the limit may move by less than a 1024th. *)
Lemma VerifyGaslimit_spec p h : 0 <= p < 2 ^ 63 -> 0 <= h < 2 ^ 63 ->
  VerifyGaslimit p h = None <-> Z.abs (p - h) < p / GasLimitBoundDivisor /\ MinGasLimit <= h.
Proof.
  intros Hp Hh. unfold VerifyGaslimit. rewrite (int64_small p), (int64_small h), (int64_small (p - h)) by lia.
  assert (E : (if p - h <? 0 then int64 ((p - h) * -1) else p - h) = Z.abs (p - h)).
  { case_if; bool_to_Z; rewrite ?int64_small by lia; lia. }
  rewrite E, wrap64_small by (unfold_u64; lia).
  case_if; bool_to_Z; [split; [done|lia]|]. case_if; bool_to_Z; split; done || lia.
Qed.

(** ** Base fee *)

Section base_fee.
Context (config : ChainConfig) (parent : Header) (b : Z).
Hypothesis Hlondon : Config.IsLondon config (hd_Number parent) = true.
Hypothesis Hfee : hd_BaseFee parent = Some b.
Hypothesis Hb : 0 <= b.
Hypothesis Hlimit : 2 <= hd_GasLimit parent < two64.
Hypothesis Hused : 0 <= hd_GasUsed parent <= hd_GasLimit parent.

Definition gasTarget : Z := hd_GasLimit parent / 2.

Lemma gasTarget_pos : 1 <= gasTarget /\ 2 * gasTarget <= hd_GasLimit parent <= 2 * gasTarget + 1.
Proof using Hlimit.
  unfold gasTarget. pose proof (Z.div_mod (hd_GasLimit parent) 2 ltac:(lia)).
  pose proof (Z.mod_pos_bound (hd_GasLimit parent) 2 ltac:(lia)). lia.
Qed.

Lemma CalcBaseFee_eq : exists b', CalcBaseFee config parent = Ret b' /\
  (hd_GasUsed parent = gasTarget -> b' = b) /\
  (gasTarget < hd_GasUsed parent ->
     b' = b + Z.max 1 ((hd_GasUsed parent - gasTarget) * b / gasTarget / 8)) /\
  (hd_GasUsed parent < gasTarget ->
     b' = b - (gasTarget - hd_GasUsed parent) * b / gasTarget / 8).
Proof using All.
  pose proof gasTarget_pos as [Ht Hlt]. unfold CalcBaseFee. rewrite Hlondon. cbn [negb].
  unfold ElasticityMultiplier, BaseFeeChangeDenominator, DefaultElasticityMultiplier,
    DefaultBaseFeeChangeDenominator. fold gasTarget. rewrite Hfee. cbn [big].
  destruct (Z.eqb_spec (hd_GasUsed parent) gasTarget) as [E|E]; [exists b; split; [done|lia]|].
  destruct (Z.ltb_spec gasTarget (hd_GasUsed parent)); cbn [mbind outcome_bind]; unfold big_Div.
  - rewrite wrap64_small by (unfold_u64; lia). replace (gasTarget =? 0) with false by lia.
    cbn [mbind outcome_bind Z.eqb]. eexists. split; [done|]. split; [lia|]. split; [|lia].
    intros _. case_if; bool_to_Z; lia.
  - rewrite wrap64_small by (unfold_u64; lia). replace (gasTarget =? 0) with false by lia.
    cbn [mbind outcome_bind Z.eqb]. eexists. split; [done|]. split; [lia|]. split; [lia|].
    intros _.
    assert ((gasTarget - hd_GasUsed parent) * b / gasTarget / 8 <= b).
    { apply Z.div_le_upper_bound; [lia|]. apply Z.div_le_upper_bound; [lia|]. nia. }
    case_if; bool_to_Z; lia.
Qed.

Lemma CalcBaseFee_range : exists b', CalcBaseFee config parent = Ret b' /\
  0 <= b' /\ b - b / 8 <= b' /\ (b' < b -> hd_GasUsed parent < gasTarget) /\
  (gasTarget < hd_GasUsed parent <-> b < b').
Proof using All.
  destruct CalcBaseFee_eq as (b' & E & H1 & H2 & H3). exists b'. split; [done|].
  pose proof gasTarget_pos as [Ht _].
  destruct (Z.lt_trichotomy (hd_GasUsed parent) gasTarget) as [Hc|[Hc|Hc]].
  - specialize (H3 Hc).
    assert (Hd : 0 <= (gasTarget - hd_GasUsed parent) * b / gasTarget <= b).
    { split; [apply Z.div_pos; nia|apply Z.div_le_upper_bound; [lia|nia]]. }
    assert (Hd8 : 0 <= (gasTarget - hd_GasUsed parent) * b / gasTarget / 8 <= b / 8).
    { split; [apply Z.div_pos; lia|apply Z.div_le_mono; lia]. }
    assert (b / 8 <= b) by (apply Z.div_le_upper_bound; lia). split_and!; lia.
  - rewrite (H1 Hc). assert (0 <= b / 8) by (apply Z.div_pos; lia). split_and!; lia.
  - specialize (H2 Hc). assert (0 <= b / 8) by (apply Z.div_pos; lia).
    assert (1 <= Z.max 1 ((hd_GasUsed parent - gasTarget) * b / gasTarget / 8)) by lia.
    split_and!; lia.
Qed.
End base_fee.

(** C34 The base fee of the next block, on a London parent with a base fee, a gas limit of at least two
    (below that the target is zero and the calculation divides by it, see [basefee_target_zero]) and gas
    used within the limit: the calculation does not panic and is that of EIP-1559.  The fee is
    unchanged at the target; above it, it rises by the excess over the target as a fraction of the target,
    an eighth of it, and by at least one; below it, it falls by an eighth of the missing fraction, and never
    below zero.  [VerifyEIP1559Header] accepts exactly that fee with a gas limit that differs by less than a 1024th
    from the parent's and is not below the minimum. *)
Theorem basefee_gaslimit_rules (config : ChainConfig) (parent header : Header) (b : Z) :
  Config.IsLondon config (hd_Number parent) = true -> hd_BaseFee parent = Some b -> 0 <= b ->
  2 <= hd_GasLimit parent < 2 ^ 63 -> 0 <= hd_GasUsed parent <= hd_GasLimit parent ->
  0 <= hd_GasLimit header < 2 ^ 63 ->
  exists b', CalcBaseFee config parent = Ret b' /\ 0 <= b' /\ b - b / 8 <= b' /\
    (hd_GasUsed parent < gasTarget parent ->
       b' = b - (gasTarget parent - hd_GasUsed parent) * b / gasTarget parent / 8) /\
    (hd_GasUsed parent = gasTarget parent -> b' = b) /\
    (gasTarget parent < hd_GasUsed parent ->
       b' = b + Z.max 1 ((hd_GasUsed parent - gasTarget parent) * b / gasTarget parent / 8)) /\
    (VerifyEIP1559Header config parent header = Ret None <->
       Z.abs (hd_GasLimit parent - hd_GasLimit header) < hd_GasLimit parent / GasLimitBoundDivisor /\
       MinGasLimit <= hd_GasLimit header /\ hd_BaseFee header = Some b').
Proof.
  intros Hlondon Hfee Hb Hlimit Hused Hh.
  assert (Hlimit' : 2 <= hd_GasLimit parent < two64) by (unfold_u64; lia).
  destruct (CalcBaseFee_eq config parent b Hlondon Hfee Hb Hlimit' Hused) as (b' & E & H1 & H2 & H0).
  destruct (CalcBaseFee_range config parent b Hlondon Hfee Hb Hlimit' Hused) as (b'' & E' & H3 & H4 & _).
  rewrite E in E'. injection E' as <-. exists b'. split_and!; [done..|].
  unfold VerifyEIP1559Header. rewrite Hlondon, E. cbn [negb mbind outcome_bind].
  pose proof (VerifyGaslimit_spec (hd_GasLimit parent) (hd_GasLimit header) ltac:(lia) Hh) as Hg.
  destruct (VerifyGaslimit _ _) as [e|].
  - split; [done|]. intros (? & ? & _). by destruct Hg as [_ Hg]; discriminate Hg.
  - destruct (proj1 Hg eq_refl). destruct (hd_BaseFee header) as [f|]; [|split; [done|by intros (_ & _ & ?)]].
    destruct (Z.eqb_spec f b') as [->|Hne]; cbn [negb]; [by split|].
    split; [done|]. intros (_ & _ & [= ->]). done.
Qed.

(** A gas limit of one has the target zero: the calculation panics once the gas is used. *)
Lemma basefee_target_zero (config : ChainConfig) (parent : Header) (b : Z) :
  Config.IsLondon config (hd_Number parent) = true -> hd_BaseFee parent = Some b -> hd_GasLimit parent = 1 -> hd_GasUsed parent = 1 ->
  CalcBaseFee config parent = Fail PanicDivide.
Proof. intros Hl Hb H1 H2. unfold CalcBaseFee. by rewrite Hl, H1, H2, Hb. Qed.

(** ** Blob fee *)

Lemma big_Div_pos x y : 0 < y -> big_Div x y = Ret (x / y).
Proof. intros. unfold big_Div. by replace (y =? 0) with false by lia. Qed.

Lemma fakeExponentialLoop_step f n d i out acc : 0 < d -> 0 < i -> 0 < acc ->
  fakeExponentialLoop (S f) n d i out acc = fakeExponentialLoop f n d (i + 1) (out + acc) (acc * n / d / i).
Proof.
  intros. cbn [fakeExponentialLoop]. replace (0 <? acc) with true by lia.
  rewrite big_Div_pos by done. cbn [mbind outcome_bind]. by rewrite big_Div_pos by done.
Qed.

Lemma fakeExponentialLoop_stop f n d i out acc : acc <= 0 -> fakeExponentialLoop f n d i out acc = Ret out.
Proof. intros. destruct f; cbn; by replace (0 <? acc) with false by lia. Qed.

(** Once [i] is above [n / d] the accumulator shrinks. *)
Lemma accum_shrinks n d i acc : 0 <= n -> 0 < d -> n < d * i -> 0 < acc -> 0 <= acc * n / d / i < acc.
Proof.
  intros Hn Hd Hi Ha. assert (0 < i) by nia. rewrite Z.div_div by lia. split; [apply Z.div_pos; nia|].
  apply Z.div_lt_upper_bound; nia.
Qed.

Lemma loop_ends_small n d acc : 0 <= n -> 0 < d -> 0 <= acc -> forall i out, n < d * i -> 0 < i ->
  exists f r, fakeExponentialLoop f n d i out acc = Ret r.
Proof.
  intros Hn Hd. revert acc. refine (Z_lt_induction _ _). intros acc IH i out Hi Hi0.
  destruct (Z.le_gt_cases acc 0).
  { exists 0%nat, out. by apply fakeExponentialLoop_stop. }
  destruct (accum_shrinks n d i acc Hn Hd Hi ltac:(lia)) as [H0 H1].
  destruct (IH (acc * n / d / i) ltac:(lia) (i + 1) (out + acc)) as (f & r & E); [nia|lia|].
  exists (S f), r. by rewrite fakeExponentialLoop_step.
Qed.

Lemma loop_ends k n d : 0 <= n -> 0 < d -> forall i out acc, 0 < i -> 0 <= acc ->
  n < d * (i + Z.of_nat k) -> exists f r, fakeExponentialLoop f n d i out acc = Ret r.
Proof.
  intros Hn Hd. induction k as [|k IH]; intros i out acc Hi Ha Hk.
  { apply loop_ends_small; try done. by rewrite Z.add_0_r in Hk. }
  destruct (Z.le_gt_cases acc 0).
  { exists 0%nat, out. by apply fakeExponentialLoop_stop. }
  destruct (IH (i + 1) (out + acc) (acc * n / d / i)) as (f & r & E); [lia| |lia|].
  { apply Z.div_pos; [|lia]. apply Z.div_pos; [nia|lia]. }
  exists (S f), r. by rewrite fakeExponentialLoop_step.
Qed.

Lemma taylor_mono f f' n d i out acc r : (f <= f')%nat -> 0 < d -> 0 < i ->
  fakeExponentialLoop f n d i out acc = Ret r -> fakeExponentialLoop f' n d i out acc = Ret r.
Proof.
  revert f' i out acc. induction f as [|f IH]; intros f' i out acc Hle Hd Hi E.
  - cbn in E. destruct (Z.ltb_spec 0 acc); [done|]. rewrite fakeExponentialLoop_stop by lia. done.
  - destruct f' as [|f']; [lia|]. destruct (Z.le_gt_cases acc 0).
    + rewrite fakeExponentialLoop_stop in * by lia. done.
    + rewrite fakeExponentialLoop_step in * by lia. apply IH; [lia|lia|lia|done].
Qed.

Lemma loop_ge f n d i out acc r : 0 <= n -> 0 < d -> 0 < i -> 0 <= acc ->
  fakeExponentialLoop f n d i out acc = Ret r -> out + acc <= r.
Proof.
  intros Hn Hd. revert i out acc. induction f as [|f IH]; intros i out acc Hi Ha E.
  - cbn in E. destruct (Z.ltb_spec 0 acc); [done|]. injection E as <-. lia.
  - destruct (Z.le_gt_cases acc 0).
    + rewrite fakeExponentialLoop_stop in E by lia. injection E as <-. lia.
    + rewrite fakeExponentialLoop_step in E by lia.
      assert (0 <= acc * n / d / i) by (apply Z.div_pos; [apply Z.div_pos; nia|lia]).
      apply IH in E; lia.
Qed.

Lemma loop_numerator f1 f2 n1 n2 d i out1 out2 acc1 acc2 r1 r2 :
  0 <= n1 <= n2 -> 0 < d -> 0 < i -> 0 <= acc1 <= acc2 -> out1 <= out2 ->
  fakeExponentialLoop f1 n1 d i out1 acc1 = Ret r1 ->
  fakeExponentialLoop f2 n2 d i out2 acc2 = Ret r2 -> r1 <= r2.
Proof.
  intros Hn Hd. revert f2 i out1 out2 acc1 acc2.
  induction f1 as [|f1 IH]; intros f2 i out1 out2 acc1 acc2 Hi Ha Ho E1 E2.
  - cbn in E1. destruct (Z.ltb_spec 0 acc1); [done|]. injection E1 as <-.
    apply loop_ge in E2; lia.
  - destruct (Z.le_gt_cases acc1 0).
    { rewrite fakeExponentialLoop_stop in E1 by lia. injection E1 as <-. apply loop_ge in E2; lia. }
    destruct f2 as [|f2]; [cbn in E2; by replace (0 <? acc2) with true in E2 by lia|].
    rewrite fakeExponentialLoop_step in E1, E2 by lia.
    eapply (IH f2 (i + 1)); [lia| | |exact E1|exact E2]; [|lia].
    rewrite !Z.div_div by lia. split; [apply Z.div_pos; nia|]. apply Z.div_le_mono; nia.
Qed.

Lemma fakeExponential_total factor n d : 0 <= factor -> 0 <= n -> 0 < d ->
  exists f r, factor <= r /\ forall f', (f <= f')%nat -> fakeExponential f' factor n d = Ret r.
Proof.
  intros Hf Hn Hd.
  destruct (loop_ends (Z.to_nat n) n d Hn Hd 1 0 (factor * d)) as (f & r & E); [lia|nia|nia|].
  exists f, (r / d). split.
  - apply loop_ge in E; [|lia..|nia]. apply Z.div_le_lower_bound; lia.
  - intros f' Hle. unfold fakeExponential. rewrite (taylor_mono f f' _ _ _ _ _ r) by (done || lia).
    cbn [mbind outcome_bind]. by apply big_Div_pos.
Qed.

Lemma fakeExponential_numerator f1 f2 factor n1 n2 d r1 r2 : 0 <= factor -> 0 <= n1 <= n2 -> 0 < d ->
  fakeExponential f1 factor n1 d = Ret r1 -> fakeExponential f2 factor n2 d = Ret r2 -> r1 <= r2.
Proof.
  intros Hf Hn Hd. unfold fakeExponential.
  destruct (fakeExponentialLoop f1 _ _ _ _ _) as [o1|] eqn:E1; [|done].
  destruct (fakeExponentialLoop f2 _ _ _ _ _) as [o2|] eqn:E2; [|done]. cbn [mbind outcome_bind].
  rewrite !big_Div_pos by done. intros [= <-] [= <-]. apply Z.div_le_mono; [done|].
  eapply (loop_numerator f1 f2 n1 n2 d 1 0 0); [done|done|lia| |lia|exact E1|exact E2]. nia.
Qed.

(** C35 The blob fee is total and monotone: for a fork with a blob schedule the Taylor expansion of
    [fakeExponential] ends for every excess of blob gas, the fee is at least the minimum price, and
    it does not fall when the excess grows. *)
Theorem blob_fee_total_monotone (config : ChainConfig) (h1 h2 : Header) (frac e1 e2 : Z) :
  blobUpdateFraction config (hd_Time h1) = Ret frac -> hd_Time h2 = hd_Time h1 -> 0 < frac ->
  hd_ExcessBlobGas h1 = Some e1 -> hd_ExcessBlobGas h2 = Some e2 -> 0 <= e1 <= e2 ->
  exists fuel fee1 fee2, (forall f, (fuel <= f)%nat ->
      CalcBlobFee f config h1 = Ret fee1 /\ CalcBlobFee f config h2 = Ret fee2) /\
    BlobTxMinBlobGasprice <= fee1 <= fee2.
Proof.
  intros Hf Ht Hpos H1 H2 He. unfold CalcBlobFee. rewrite Ht, Hf, H1, H2.
  cbn [mbind outcome_bind ptr].
  destruct (fakeExponential_total BlobTxMinBlobGasprice e1 frac) as (f1 & r1 & Hr1 & E1); [done|lia|done|].
  destruct (fakeExponential_total BlobTxMinBlobGasprice e2 frac) as (f2 & r2 & _ & E2); [done|lia|done|].
  exists (f1 + f2)%nat, r1, r2. split; [intros f Hle; split; [apply E1|apply E2]; lia|]. split; [done|].
  eapply (fakeExponential_numerator f1 f2); [| |done|by apply E1|by apply E2]; done.
Qed.

(** ** Difficulty *)

Section difficulty_proofs.
Context `{U : Uint256} {US : Uint256Spec U} `{C : Crypto}.

(** Where the 256-bit calculation has room: the parent's difficulty below [2^255] and the block
    number below the period in which the bomb alone reaches [2^254]. *)
Record parent_ok (time : Z) (parent : Header) (d n : Z) : Prop := {
  po_diff : hd_Difficulty parent = Some d;
  po_num : hd_Number parent = Some n;
  po_time : 0 <= hd_Time parent <= time;
  po_now : time < two64;
  po_d : 0 <= d < 2 ^ 255;
  po_n : 0 <= n < 25600000;
}.

Lemma pow_255 : 2 ^ 255 + 2 ^ 255 = two256.
Proof. done. Qed.

(** The adjusted difficulty, before the bomb. *)
Lemma adjust_up d k : 0 <= d < 2 ^ 255 -> 0 <= k <= 2 ->
  uval (Add (FromBig d) (Mul (Rsh (FromBig d) difficultyBoundDivisor) (SetUint64 k))) = d + d / 2048 * k.
Proof.
  intros Hd Hk. rewrite Add_spec, Mul_spec, Rsh_spec, SetUint64_spec, FromBig_spec by (done || (unfold_u64; lia)).
  change (2 ^ difficultyBoundDivisor) with 2048. pose proof pow_255.
  pose proof (Z.div_pos d 2048 ltac:(lia) ltac:(lia)).
  assert (d / 2048 <= 2 ^ 244) by (apply Z.div_le_upper_bound; lia). assert (2 ^ 244 * 2 < 2 ^ 255) by done.
  rewrite (Z.mod_small d) by lia. rewrite (Z.mod_small (_ * k)) by nia. rewrite Z.mod_small by nia. done.
Qed.

Lemma adjust_down d k : 0 <= d < 2 ^ 255 -> 0 <= k <= 99 ->
  uval (Sub (FromBig d) (Mul (Rsh (FromBig d) difficultyBoundDivisor) (SetUint64 k))) = d - d / 2048 * k.
Proof.
  intros Hd Hk. rewrite Sub_spec, Mul_spec, Rsh_spec, SetUint64_spec, FromBig_spec by (done || (unfold_u64; lia)).
  change (2 ^ difficultyBoundDivisor) with 2048. pose proof pow_255.
  pose proof (Z.div_pos d 2048 ltac:(lia) ltac:(lia)). pose proof (Z.mul_div_le d 2048 ltac:(lia)).
  rewrite (Z.mod_small d) by lia. rewrite (Z.mod_small (_ * k)) by nia. rewrite Z.mod_small by nia. done.
Qed.

Lemma Mul_one x : Mul x (SetUint64 1) = x.
Proof.
  apply uval_inj. rewrite Mul_spec, SetUint64_spec by by split. rewrite Z.mul_1_r.
  apply Z.mod_small, uval_range.
Qed.

(** Both calculations raise a difficulty to the minimum. *)
Lemma floor_minimum w x : uval w = x -> x < 2 ^ 255 + 2 ^ 245 ->
  exists w', (if LtUint64 w minimumDifficulty then SetUint64 minimumDifficulty else w) = w' /\
    uval w' = (if x <? MinimumDifficulty then MinimumDifficulty else x) /\ uval w' < 2 ^ 255 + 2 ^ 245.
Proof.
  intros Hw Hx. eexists. split; [reflexivity|]. rewrite LtUint64_spec, Hw.
  unfold minimumDifficulty, MinimumDifficulty. case_if; [|by rewrite Hw].
  rewrite SetUint64_spec by by split. done.
Qed.

Lemma bomb_add w p : uval w < 2 ^ 255 + 2 ^ 245 -> 0 <= p <= 256 ->
  uval (if 1 <? p then Add w (Lsh wone (p -! 2)) else w) = addBomb (uval w) p.
Proof.
  intros Hw Hp. unfold addBomb. case_if; [|done]. bool_to_Z. pose proof (uval_range w).
  rewrite (wrap64_small (p - 2)) by (unfold_u64; lia). rewrite Add_spec, Lsh_spec by lia.
  unfold wone. rewrite SetUint64_spec, Z.mul_1_l by by split.
  assert (0 < 2 ^ (p - 2) <= 2 ^ 254) by (split; [apply Z.pow_pos_nonneg; lia|apply Z.pow_le_mono_r; lia]).
  assert (2 ^ 255 + 2 ^ 245 + 2 ^ 254 < two256) by done. assert (2 ^ 254 < two256) by done.
  rewrite (Z.mod_small (2 ^ (p - 2))) by lia. by rewrite Z.mod_small by lia.
Qed.

Lemma addBomb_comm w p : uval w < 2 ^ 255 + 2 ^ 245 -> 0 <= p <= 256 ->
  uval (if 1 <? p then Add (Lsh wone (p -! 2)) w else w) = addBomb (uval w) p.
Proof.
  intros Hw Hp. rewrite <- bomb_add by done. case_if; [|done]. rewrite !Add_spec. f_equal. lia.
Qed.

Lemma period_range n : 0 <= n < 25600000 -> 0 <= (n + 1) / 100000 <= 256.
Proof. intros. split; [apply Z.div_pos; lia|]. apply Z.lt_succ_r, Z.div_lt_upper_bound; lia. Qed.

Lemma quarter d : 0 <= d < 2 ^ 255 -> 0 <= d / 2048 * 2 <= 2 ^ 245.
Proof.
  intros. pose proof (Z.div_pos d 2048 ltac:(lia) ltac:(lia)).
  assert (d / 2048 <= 2 ^ 244) by (apply Z.div_le_upper_bound; lia).
  assert (2 ^ 244 * 2 = 2 ^ 245) by done. lia.
Qed.

Lemma FrontierU256_eq time parent d n : parent_ok time parent d n ->
  CalcDifficultyFrontierU256 time parent = calcDifficultyFrontier time parent.
Proof.
  intros [Ed En Ht Hn Hd Hnum]. unfold CalcDifficultyFrontierU256, calcDifficultyFrontier.
  rewrite Ed, En. cbn [big mbind outcome_bind].
  rewrite (wrap64_small (time - _)), (wrap64_small n), (wrap64_small (n + 1)) by (unfold_u64; lia).
  unfold frontierDurationLimit, DurationLimit, DifficultyBoundDivisor, expDiffPeriodUint, expDiffPeriod.
  set (x := if time - hd_Time parent <? 13 then d + d / 2048 else d - d / 2048).
  set (w := if time - hd_Time parent <? 13 then Add _ _ else Sub _ _).
  pose proof (quarter d Hd) as Hq.
  assert (Hw : uval w = x).
  { subst w x. rewrite <- (Mul_one (Rsh _ _)).
    case_if; [rewrite adjust_up by lia|rewrite adjust_down by lia]; lia. }
  destruct (floor_minimum w x Hw) as (w' & -> & Hw' & Hlt); [subst x; case_if; lia|].
  pose proof (period_range n Hnum) as Hp.
  rewrite bomb_add by done. unfold addBomb. rewrite <- Hw'. do 1 f_equal. case_if; [|done].
  assert (MinimumDifficulty <= uval w') by (rewrite Hw'; case_if; bool_to_Z; lia).
  assert (0 <= 2 ^ ((n + 1) / 100000 - 2)) by (apply Z.pow_nonneg; lia).
  by replace (_ <? MinimumDifficulty) with false by lia.
Qed.

Lemma HomesteadU256_eq time parent d n : parent_ok time parent d n ->
  CalcDifficultyHomesteadU256 time parent = calcDifficultyHomestead time parent.
Proof.
  intros [Ed En Ht Hn Hd Hnum]. unfold CalcDifficultyHomesteadU256, calcDifficultyHomestead.
  rewrite Ed, En. cbn [big mbind outcome_bind].
  rewrite (wrap64_small (time - _)), (wrap64_small n), (wrap64_small (1 + n)) by (unfold_u64; lia).
  unfold DifficultyBoundDivisor, expDiffPeriodUint, expDiffPeriod.
  set (q := (time - hd_Time parent) / 10). assert (Hq0 : 0 <= q) by (apply Z.div_pos; lia).
  assert (Hqu : q < two64) by (apply Z.div_lt_upper_bound; unfold_u64; lia). clearbody q.
  set (k := if 1 - q <? -99 then -99 else 1 - q).
  pose proof (quarter d Hd) as Hq. pose proof (Z.div_pos d 2048 ltac:(lia) ltac:(lia)).
  destruct (if q =? 0 then (1, false) else if 100 <=? q then (99, true) else (q -! 1, true)) as [x neg] eqn:Ex.
  assert (Hx : (neg = false /\ x = 1 /\ k = 1) \/ (neg = true /\ 0 <= x <= 99 /\ k = - x)).
  { subst k. destruct (Z.eqb_spec q 0); simplify_eq; [by left|].
    destruct (Z.leb_spec 100 q); simplify_eq; right.
    - split; [done|]. case_if; bool_to_Z; lia.
    - rewrite wrap64_small by (unfold_u64; lia). split; [done|]. case_if; bool_to_Z; lia. }
  assert (Hw : uval (if neg then Sub (FromBig d) (Mul (Rsh (FromBig d) difficultyBoundDivisor) (SetUint64 x))
    else Add (FromBig d) (Mul (Rsh (FromBig d) difficultyBoundDivisor) (SetUint64 x))) = d + d / 2048 * k).
  { destruct Hx as [(-> & -> & ->)|(-> & Hx & ->)]; [rewrite adjust_up by lia|rewrite adjust_down by lia]; lia. }
  destruct (floor_minimum _ _ Hw) as (w' & -> & Hw' & Hlt); [destruct Hx as [(_ & _ & ->)|(_ & ? & ->)]; nia|].
  rewrite (Z.add_comm 1 n), bomb_add by (done || by apply period_range). by rewrite Hw'.
Qed.

Lemma CalculatorU256_eq bombDelay time parent d n : parent_ok time parent d n -> 1 <= bombDelay < two64 ->
  MakeDifficultyCalculatorU256 bombDelay time parent = makeDifficultyCalculator bombDelay time parent.
Proof.
  intros [Ed En Ht Hn Hd Hnum] Hb. unfold MakeDifficultyCalculatorU256, makeDifficultyCalculator.
  rewrite Ed, En. cbn [big mbind outcome_bind].
  rewrite (wrap64_small (time - _)), (wrap64_small n), (wrap64_small bombDelay),
    (wrap64_small (bombDelay - 1)) by (unfold_u64; lia).
  unfold DifficultyBoundDivisor, expDiffPeriodUint, expDiffPeriod.
  set (q := (time - hd_Time parent) / 9). assert (Hq0 : 0 <= q) by (apply Z.div_pos; lia).
  assert (Hqu : q < two64) by (apply Z.div_lt_upper_bound; unfold_u64; lia). clearbody q.
  set (c := if negb (hd_UncleHash parent =? EmptyUncleHash) then 2 else 1).
  replace (if hd_UncleHash parent =? EmptyUncleHash then 1 - q else 2 - q) with (c - q)
    by (subst c; by destruct (hd_UncleHash parent =? EmptyUncleHash)).
  assert (Hc : 1 <= c <= 2) by (subst c; case_if; lia). clearbody c.
  set (k := if c - q <? -99 then -99 else c - q).
  pose proof (quarter d Hd) as Hq. pose proof (Z.div_pos d 2048 ltac:(lia) ltac:(lia)).
  set (x := if 99 <? (if c <=? q then q -! c else c -! q) then 99 else if c <=? q then q -! c else c -! q).
  assert (Hx : (c <= q /\ 0 <= x <= 99 /\ k = - x) \/ (q < c /\ 0 <= x <= 2 /\ k = x)).
  { subst k x. destruct (Z.leb_spec c q); rewrite wrap64_small by (unfold_u64; lia);
      repeat case_if; bool_to_Z; lia. }
  clearbody x k.
  assert (Hw : uval (if c <=? q
    then Sub (FromBig d) (Mul (Rsh (FromBig d) difficultyBoundDivisor) (SetUint64 x))
    else Add (FromBig d) (Mul (Rsh (FromBig d) difficultyBoundDivisor) (SetUint64 x))) = d + d / 2048 * k).
  { destruct Hx as [(? & Hx & ->)|(? & Hx & ->)]; destruct (Z.leb_spec c q); try lia;
      [rewrite adjust_down by lia|rewrite adjust_up by lia]; lia. }
  destruct (floor_minimum _ _ Hw) as (w' & -> & Hw' & Hlt); [destruct Hx as [(_ & ? & ->)|(_ & ? & ->)]; nia|].
  rewrite <- Hw'. f_equal. destruct (Z.leb_spec (bombDelay - 1) n) as [Hle|Hgt].
  2: { unfold addBomb. by replace (1 <? 0 / 100000) with false by done. }
  rewrite (wrap64_small (n - _)) by (unfold_u64; lia). set (fake := n - (bombDelay - 1)).
  assert (Hf : 0 <= fake / 100000 <= 256).
  { split; [apply Z.div_pos; subst fake; lia|]. apply Z.lt_succ_r, Z.div_lt_upper_bound; subst fake; lia. }
  replace (2 * 100000 <=? fake) with (1 <? fake / 100000); [by apply addBomb_comm|].
  assert (0 <= fake) by (subst fake; lia). pose proof (Z.div_mod fake 100000 ltac:(lia)).
  pose proof (Z.mod_pos_bound fake 100000 ltac:(lia)).
  destruct (Z.ltb_spec 1 (fake / 100000)), (Z.leb_spec (2 * 100000) fake); try done; lia.
Qed.

(** C36 The 256-bit difficulty functions compute what the arbitrary-precision ones compute, for the
    Frontier, the Homestead and every bomb-delayed rule set, as long as the parent's difficulty is
    below [2^255] and the block number below 25.6 million. *)
Theorem difficulty_u256_equiv (time bombDelay : Z) (parent : Header) (d n : Z) :
  parent_ok time parent d n -> 1 <= bombDelay < two64 ->
  CalcDifficultyFrontierU256 time parent = calcDifficultyFrontier time parent /\
  CalcDifficultyHomesteadU256 time parent = calcDifficultyHomestead time parent /\
  MakeDifficultyCalculatorU256 bombDelay time parent = makeDifficultyCalculator bombDelay time parent.
Proof.
  intros Hp Hb. split_and!;
    [by eapply FrontierU256_eq|by eapply HomesteadU256_eq|by eapply CalculatorU256_eq].
Qed.
End difficulty_proofs.

(** ** Witnesses *)

(** A chain on which London and Cancun are active from the start, with the blob schedule of the main
    network. *)
Definition blob_config : ChainConfig :=
  mkChainConfig (Some 1) (Some 0) None false (Some 0) (Some 0) (Some 0) (Some 0) (Some 0) (Some 0)
    (Some 0) None (Some 0) (Some 0) None None None (Some 0) (Some 0) None None None
    (Some (mkBlobSchedule (Some (mkBlobConfig 3 6 3338477)) None None None)).

Definition demo_header (number limit used : Z) (fee excess : option Z) : Header :=
  mkHeader 0 0 0 0 0 0 [] (Some 131072) (Some number) limit used 1000 [] 0 0 fee None (Some 0) excess
    None None.

Lemma basefee_gaslimit_rules_witness :
  exists b', CalcBaseFee blob_config (demo_header 7 30000000 20000000 (Some 1000) None) = Ret b' /\
    0 <= b' /\ 1000 - 1000 / 8 <= b'.
Proof.
  destruct (basefee_gaslimit_rules blob_config (demo_header 7 30000000 20000000 (Some 1000) None)
    (demo_header 8 30001000 0 (Some 1041) None) 1000) as (b' & H1 & H2 & H3 & _);
    [reflexivity|reflexivity|lia|cbn; lia|cbn; lia|cbn; lia|].
  exists b'. split; [exact H1|]. split; [exact H2|exact H3].
Defined.

Lemma blob_fee_total_monotone_witness : exists fuel fee1 fee2, (forall f, (fuel <= f)%nat ->
    CalcBlobFee f blob_config (demo_header 7 30000000 0 (Some 7) (Some 0)) = Ret fee1 /\
    CalcBlobFee f blob_config (demo_header 7 30000000 0 (Some 7) (Some 10000000)) = Ret fee2) /\
    1 <= fee1 <= fee2.
Proof.
  apply (blob_fee_total_monotone blob_config (demo_header 7 30000000 0 (Some 7) (Some 0))
    (demo_header 7 30000000 0 (Some 7) (Some 10000000)) 3338477 0 10000000);
    [reflexivity|reflexivity|lia|reflexivity|reflexivity|lia].
Defined.

(** An excess of ten million units of blob gas makes blob gas cost 19. *)
Example blob_fee_example :
  CalcBlobFee 100 blob_config (demo_header 7 30000000 0 (Some 7) (Some 10000000)) = Ret 19.
Proof. vm_compute. reflexivity. Qed.

Lemma difficulty_u256_equiv_witness :
  CalcDifficultyHomesteadU256 (U := ref_uint256) 1025 (demo_header 7 30000000 0 None None) =
    calcDifficultyHomestead 1025 (demo_header 7 30000000 0 None None).
Proof.
  apply (difficulty_u256_equiv (U := ref_uint256) (C := demo_crypto) 1025 3000000
    (demo_header 7 30000000 0 None None) 131072 7); [split; cbn; (reflexivity || lia)|split; [lia|reflexivity]].
Defined.
