(* ===== verification/CliqueRewards.v ===== *)
(** * Block rewards of the proof-of-authority engine ([Finalize], [ProcessRewardEvents])

    [Finalize] pays one ether per block: to the signer, or split between the receivers registered
    for the signer in proportion to their weights, the rest going to the signer. *)

From S2P Require Import Prelude Bytes Uint256 Params ChainConfig Rlp VM Lru Headers HeaderRules State StateSpec StateProofs StateTheorems Clique.
Import Clique.

(** ** What is to be paid *)

Abbreviation payments := (list (Address * Z)).

Definition zsum (l : list Z) : Z := foldr Z.add 0 l.

(** What [b] receives, and what is paid in all. *)
Definition received (b : Address) (l : payments) : Z := zsum (map (fun p : Address * Z => if p.1 =? b then p.2 else 0) l).
Definition totalPaid (l : payments) : Z := zsum (map snd l).

(** The part of a receiver with weight [w] of [sum]. *)
Definition share (sum w : Z) : Z := if sum =? 0 then 0 else blockReward * w / sum.

(** The parts of the receivers; what is left goes to the signer. *)
Definition parts (weights : list Z) (receivers : list Address) : payments :=
  zip receivers (map (share (zsum weights)) weights).
Definition rewards (signer : Address) (reg : option RewardSnapshot) : payments :=
  match reg with
  | None => [(signer, blockReward)]
  | Some r =>
      let l := parts (rs_Weights r) (rs_Receivers r) in
      l ++ [(signer, blockReward - totalPaid l)]
  end.

(** A registration whose weights add up without overflow and are enough for the receivers. *)
Record reward_ok (r : RewardSnapshot) : Prop := {
  rw_enough : len (rs_Receivers r) <= len (rs_Weights r);
  rw_nonneg : Forall (fun w => 0 <= w) (rs_Weights r);
  rw_sum : zsum (rs_Weights r) < two64;
}.

(** ** Sums *)

Lemma zsum_cons x l : zsum (x :: l) = x + zsum l.
Proof. done. Qed.
Lemma zsum_app l k : zsum (l ++ k) = zsum l + zsum k.
Proof. induction l as [|x l IH]; [done|]. rewrite <- app_comm_cons, !zsum_cons, IH. lia. Qed.
Lemma zsum_nonneg l : Forall (fun x => 0 <= x) l -> 0 <= zsum l.
Proof. induction 1; [done|]. rewrite zsum_cons. lia. Qed.
Lemma received_app b l k : received b (l ++ k) = received b l + received b k.
Proof. unfold received. by rewrite map_app, zsum_app. Qed.
Lemma totalPaid_app l k : totalPaid (l ++ k) = totalPaid l + totalPaid k.
Proof. unfold totalPaid. by rewrite map_app, zsum_app. Qed.

Lemma received_le b l : (forall a x, (a, x) ∈ l -> 0 <= x) -> received b l <= totalPaid l.
Proof.
  intros H. induction l as [|[a x] l IH]; [done|]. unfold received, totalPaid in *. rewrite !map_cons, !zsum_cons. cbn.
  assert (0 <= x) by (apply (H a), list_elem_of_here).
  assert (IH' := IH (fun a' x' Hin => H a' x' (list_elem_of_further _ _ _ Hin))). case_if; lia.
Qed.

Lemma share_nonneg sum w : 0 <= sum -> 0 <= w -> 0 <= share sum w.
Proof.
  intros Hs Hw. unfold share. destruct (Z.eqb_spec sum 0); [done|].
  apply Z.div_pos; [unfold blockReward; lia|lia].
Qed.

(** Rounding down never pays out more than there is. *)
Lemma shares_le sum ws : 0 < sum -> Forall (fun w => 0 <= w) ws ->
  zsum (map (share sum) ws) * sum <= blockReward * zsum ws.
Proof.
  intros Hs. induction 1 as [|w ws Hw Hws IH]; [done|]. rewrite map_cons, !zsum_cons.
  unfold share at 1. rewrite (proj2 (Z.eqb_neq sum 0)) by lia.
  pose proof (Z.mul_div_le (blockReward * w) sum Hs). lia.
Qed.

Lemma parts_zip weights receivers : len receivers <= len weights ->
  map snd (parts weights receivers) = map (share (zsum weights)) (take (length receivers) weights).
Proof.
  unfold parts, len. intros Hl. generalize (share (zsum weights)). intros f. revert weights Hl.
  induction receivers as [|r rs IH]; intros weights Hl; [done|].
  destruct weights as [|w ws]; [cbn in Hl; lia|]. cbn. f_equal. apply IH. cbn in Hl. lia.
Qed.

Lemma zsum_take_le n ws : Forall (fun w => 0 <= w) ws -> zsum (take n ws) <= zsum ws.
Proof.
  intros H. rewrite <- (take_drop n ws) at 2. rewrite zsum_app.
  assert (0 <= zsum (drop n ws)) by (by apply zsum_nonneg, Forall_drop). lia.
Qed.

(** The receivers never get more than the reward. *)
Lemma parts_le weights receivers : len receivers <= len weights -> Forall (fun w => 0 <= w) weights ->
  totalPaid (parts weights receivers) <= blockReward.
Proof.
  intros Hl Hw. unfold totalPaid. rewrite parts_zip by done.
  set (ws := take (length receivers) weights).
  assert (Hws : Forall (fun w => 0 <= w) ws) by (by apply Forall_take).
  pose proof (zsum_nonneg weights Hw). pose proof (zsum_take_le (length receivers) weights Hw). fold ws in H0.
  destruct (Z.eqb_spec (zsum weights) 0) as [E|E].
  - replace (zsum (map (share (zsum weights)) ws)) with 0; [unfold blockReward; lia|].
    rewrite E. clear. induction ws as [|w ws IH]; [done|]. cbn. done.
  - pose proof (shares_le (zsum weights) ws ltac:(lia) Hws). unfold blockReward in *. nia.
Qed.

Lemma weightSum_exact ws : Forall (fun w => 0 <= w) ws -> zsum ws < two64 -> weightSum ws = zsum ws.
Proof.
  intros Hw Hs. unfold weightSum.
  assert (G : forall a, 0 <= a -> a + zsum ws < two64 -> fold_left (fun sum w => sum +! w) ws a = a + zsum ws).
  { clear Hs. induction Hw as [|w ws Hw Hws IH]; intros a Ha Hs; [cbn; lia|].
    rewrite zsum_cons in Hs |- *. pose proof (zsum_nonneg ws Hws). cbn [fold_left].
    rewrite wrap64_small by (unfold_u64; lia). rewrite IH by lia. lia. }
  by rewrite G.
Qed.

Section rewards.
Context `{U : Uint256} `{US : !Uint256Spec U} `{C : Crypto} (reader : Reader) (Hreader : reader_ok reader).
Context (Ecrecover : Hash -> bytes -> option bytes).

(** From [s] to [s'] the payments [l] were made, and nothing else happened to the accounts. *)
Record paid (s : state) (l : payments) (s' : state) : Prop := {
  paid_ok : state_ok reader s';
  paid_balance b : uval (balanceOf reader s' b) = uval (balanceOf reader s b) + received b l;
  paid_rest b : (w_account reader s' b).1.1.2 = (w_account reader s b).1.1.2 /\
    (w_account reader s' b).1.2 = (w_account reader s b).1.2 /\
    (w_account reader s' b).2 = (w_account reader s b).2;
  paid_storage b k : w_storage reader s' b k = w_storage reader s b k;
}.

Lemma paid_nil s : state_ok reader s -> paid s [] s.
Proof. intros Hs. split; [done| |done|done]. intros b. cbn. lia. Qed.

Lemma paid_app s1 l1 s2 l2 s3 : paid s1 l1 s2 -> paid s2 l2 s3 -> paid s1 (l1 ++ l2) s3.
Proof.
  intros [O1 B1 R1 S1] [O2 B2 R2 S2]. split; [done| | |].
  - intros b. rewrite B2, B1, received_app. lia.
  - intros b. destruct (R2 b) as (-> & -> & ->). apply R1.
  - intros b k. by rewrite S2, S1.
Qed.

(** [AddBalance] is a payment. *)
Lemma AddBalance_pays s a w : state_ok reader s -> uval (balanceOf reader s a) + uval w < two256 ->
  exists p s', sdb (StateDB := state_StateDB reader) (VM.AddBalance a w) s = Ret (p, s') /\ paid s [(a, uval w)] s'.
Proof using Hreader US.
  intros Hs Hfit. pose proof (AddBalance_view reader Hreader s a w Hs) as Hv. unfold wp in Hv.
  pose proof (step_spec reader Hreader _ (VM.AddBalance a w) s Hs I) as Hok. cbn [StateDB.run] in Hok.
  cbn [sdb state_StateDB StateDB.run]. destruct (StateDB.AddBalance reader a w s) as [[p s']|]; [|done].
  destruct Hok as [Hok _]. exists p, s'. split; [done|].
  pose proof (uval_range (balanceOf reader s a)). pose proof (uval_range w). split.
  - done.
  - intros b. rewrite (balance_set_at _ _ _ _ _ _ Hv). unfold received, zsum. cbn.
    rewrite (Z.eqb_sym a b). destruct (Z.eqb_spec b a) as [->|]; [|lia]. rewrite Add_spec, Z.mod_small by lia. lia.
  - intros b. destruct Hv as [Hv _]. rewrite Hv. by destruct (Z.eqb_spec b a) as [->|].
  - by destruct Hv.
Qed.

Lemma part_value sum w : is_u64 w -> is_u64 sum ->
  uval (Div (Mul (SetUint64 blockReward) (SetUint64 w)) (SetUint64 sum)) = share sum w.
Proof using US.
  intros Hw Hs. rewrite Div_spec, Mul_spec, !SetUint64_spec by (done || (unfold_u64; unfold blockReward; lia)).
  unfold share. case_if; [done|]. rewrite Z.mod_small; [done|].
  unfold two256, blockReward, is_u64, two64 in *. lia.
Qed.

Lemma index_drop {A} (l : list A) i w rest : drop i l = w :: rest -> index l (Z.of_nat i) = Ret w /\ drop (S i) l = rest.
Proof.
  intros E. assert (Hi : l !! i = Some w) by (rewrite <- (Nat.add_0_r i), <- lookup_drop, E; done). split.
  - unfold index. rewrite (proj2 (Z.leb_le 0 (Z.of_nat i))) by lia. by rewrite Nat2Z.id, Hi.
  - rewrite (drop_S _ _ _ Hi) in E. by injection E.
Qed.

(** The loop over the receivers makes their payments. *)
Lemma payReceivers_pays sum weights i receivers remain s :
  is_u64 sum -> Forall is_u64 weights -> (i + length receivers <= length weights)%nat -> state_ok reader s ->
  let l := zip receivers (map (share sum) (drop i weights)) in
  totalPaid l <= uval remain -> (forall b, uval (balanceOf reader s b) + uval remain < two256) ->
  exists remain' s',
    payReceivers (DB := state_StateDB reader) (SetUint64 blockReward) sum weights (Z.of_nat i) receivers remain s
      = Ret (remain', s') /\
    paid s l s' /\ uval remain' = uval remain - totalPaid l.
Proof using Hreader US.
  intros Hsum Hw. revert i remain s. induction receivers as [|r rs IH]; intros i remain s Hi Hs l Hle Hfit.
  { exists remain, s. split; [done|]. split; [by apply paid_nil|]. cbn. lia. }
  cbn [length] in Hi. destruct (drop i weights) as [|w rest] eqn:Ed.
  { apply (f_equal length) in Ed. rewrite length_drop in Ed. cbn in Ed. lia. }
  destruct (index_drop _ _ _ _ Ed) as [Ei Ed']. 
  assert (Hw' : is_u64 w /\ Forall is_u64 rest) by (apply Forall_cons; rewrite <- Ed; by apply Forall_drop).
  destruct Hw' as [Hw' Hrest].
  set (l' := zip rs (map (share sum) rest)). assert (El : l = (r, share sum w) :: l') by done.
  assert (Htp : totalPaid l = share sum w + totalPaid l') by (rewrite El; done).
  assert (0 <= share sum w) by (apply share_nonneg; [apply Hsum|apply Hw']).
  assert (0 <= totalPaid l').
  { apply zsum_nonneg, Forall_forall. intros x (p & -> & Hp)%list_elem_of_fmap. destruct p as [q y].
    apply elem_of_zip_r in Hp. apply list_elem_of_fmap in Hp as (z & -> & Hz). rewrite Forall_forall in Hrest.
    apply share_nonneg; [apply Hsum|by apply Hrest]. }
  pose proof (part_value sum w Hw' Hsum) as Hp. set (part := Div _ _) in Hp.
  destruct (AddBalance_pays s r part Hs) as (p & s1 & E1 & Hp1); [rewrite Hp; specialize (Hfit r); lia|].
  assert (Hrem : uval (Sub remain part) = uval remain - share sum w).
  { rewrite Sub_spec, Hp. apply Z.mod_small. pose proof (uval_range remain). lia. }
  destruct (IH (S i) (Sub remain part) s1) as (remain' & s' & E2 & Hp2 & Hr2).
  { lia. } { by destruct Hp1. } { rewrite Ed', Hrem. fold l'. lia. }
  { intros b. rewrite Hrem, (paid_balance _ _ _ Hp1), Hp. unfold received, zsum. cbn. specialize (Hfit b). case_if; lia. }
  rewrite Ed' in Hp2, Hr2. fold l' in Hp2, Hr2.
  exists remain', s'. split; [|split].
  - cbn [payReceivers]. unfold mbind, st_bind. rewrite Ei. cbn [st_lift]. fold part. rewrite E1.
    by replace (Z.of_nat i + 1) with (Z.of_nat (S i)) by lia.
  - rewrite El. rewrite Hp in Hp1. by apply (paid_app s [(r, share sum w)] s1 l').
  - rewrite Hr2, Hrem, Htp. lia.
Qed.

Lemma paid_zero s l s' a : paid s l s' -> paid s (l ++ [(a, 0)]) s'.
Proof.
  intros [O B R S]. split; [done| |done|done]. intros b. rewrite B, received_app. unfold received at 3, zsum. cbn.
  case_if; lia.
Qed.

Lemma weights_u64 r : reward_ok r -> Forall is_u64 (rs_Weights r).
Proof.
  intros [_ Hn Hs]. apply Forall_forall. intros w Hw. apply list_elem_of_split in Hw as (l1 & l2 & E).
  rewrite E in Hn, Hs. apply Forall_app in Hn as [H1 H2]. apply Forall_cons in H2 as [Hw H2].
  rewrite zsum_app, zsum_cons in Hs. pose proof (zsum_nonneg l1 H1). pose proof (zsum_nonneg l2 H2).
  unfold is_u64. lia.
Qed.

Lemma rewards_total signer reg : totalPaid (rewards signer reg) = blockReward.
Proof. destruct reg as [r|]; [|done]. unfold rewards. rewrite totalPaid_app. unfold totalPaid at 2, zsum. cbn. lia. Qed.

Lemma rewards_nonneg signer reg : (forall r, reg = Some r -> reward_ok r) ->
  forall a x, (a, x) ∈ rewards signer reg -> 0 <= x.
Proof.
  intros Hreg a x. destruct reg as [r|]; unfold rewards.
  - destruct (Hreg r eq_refl) as [He Hn _]. intros [Hin|Hin%list_elem_of_singleton]%elem_of_app.
    + unfold parts in Hin. apply elem_of_zip_r, list_elem_of_fmap in Hin as (w & -> & Hw).
      apply share_nonneg; [by apply zsum_nonneg|]. rewrite Forall_forall in Hn. by apply Hn.
    + injection Hin as -> ->. pose proof (parts_le _ _ He Hn). lia.
  - intros [= -> ->]%list_elem_of_singleton. unfold blockReward. lia.
Qed.

(** Finalizing a block creates exactly one ether: [Finalize] succeeds and pays the reward of
    [rewards] - all of it to the signer, or to each registered receiver the share
    [total * weight / sum] and to the signer what rounding leaves - and changes nothing else.
    The payments are not negative and add up to the block reward, as long as the registered
    weights do not overflow and no balance does. *)
Theorem Finalize_pays_block_reward (c : Engine) (header : Header) (r : Address + cliqueerror) (s : state) :
  let signer := match r with inl a => a | inr _ => 0 end in
  state_ok reader s -> ecrecover Ecrecover header = Ret r ->
  (forall reg, registration c signer = Some reg -> reward_ok reg) ->
  (forall b, uval (balanceOf reader s b) + blockReward < two256) ->
  totalPaid (rewards signer (registration c signer)) = blockReward /\
  (forall a x, (a, x) ∈ rewards signer (registration c signer) -> 0 <= x) /\
  exists s', Finalize (DB := state_StateDB reader) Ecrecover c header s = Ret (tt, s') /\
    paid s (rewards signer (registration c signer)) s'.
Proof using Hreader US.
  intros signer Hs He Hreg Hfit. split; [apply rewards_total|]. split; [by apply rewards_nonneg|].
  unfold Finalize, Author, mbind, st_bind. rewrite He. cbn [st_lift]. fold signer.
  assert (Hb : uval (SetUint64 blockReward) = blockReward) by (by apply SetUint64_spec).
  destruct (registration c signer) as [reg|].
  2: { destruct (AddBalance_pays s signer (SetUint64 blockReward) Hs) as (p & s' & E & Hp); [by rewrite Hb|].
       rewrite E. exists s'. split; [done|]. by rewrite Hb in Hp. }
  pose proof (Hreg reg eq_refl) as Hok. pose proof (weights_u64 reg Hok) as Hw. destruct Hok as [Hen Hn Hsum].
  pose proof (zsum_nonneg _ Hn). rewrite weightSum_exact by done.
  pose proof (parts_le _ _ Hen Hn) as Hle. unfold parts in Hle.
  destruct (payReceivers_pays (zsum (rs_Weights reg)) (rs_Weights reg) 0 (rs_Receivers reg) (SetUint64 blockReward) s)
    as (remain & s1 & E1 & Hp1 & Hr1); [done|done|unfold len in Hen; lia|done|by rewrite Hb|by rewrite Hb|].
  change (Z.of_nat 0) with 0 in E1. rewrite E1. unfold rewards. rewrite drop_0 in Hp1, Hr1. fold (parts (rs_Weights reg) (rs_Receivers reg)) in *.
  rewrite IsZero_spec. rewrite Hb in Hr1. destruct (Z.eqb_spec (uval remain) 0) as [E0|E0]; cbn [negb].
  - exists s1. split; [done|]. replace (blockReward - _) with 0 by lia. by apply paid_zero.
  - destruct (AddBalance_pays s1 signer remain) as (p & s' & E2 & Hp2); [by destruct Hp1| |].
    { rewrite (paid_balance _ _ _ Hp1), Hr1. specialize (Hfit signer).
      assert (received signer (parts (rs_Weights reg) (rs_Receivers reg)) <= totalPaid (parts (rs_Weights reg) (rs_Receivers reg))).
      { apply received_le. intros a x Hin. apply (rewards_nonneg signer (Some reg) Hreg a). apply elem_of_app. by left. }
      lia. }
    rewrite E2. exists s'. split; [done|]. rewrite Hr1 in Hp2. by eapply paid_app.
Qed.
End rewards.

(** ** Registrations *)

Section registrations.
Context `{U : Uint256} `{C : Crypto} (unpack : bytes -> option (list Address * list Z)).

(** No registration succeeds on an engine made by [New], which leaves the map nil:
    [ProcessRewardEvents] either changes nothing, or panics, on the assignment to the nil map or
    on an event without a second topic. *)
Theorem rewards_never_registered (conf : CliqueConfig) (database : gmap Z Snapshot) (receipts : list (list Log)) :
  match ProcessRewardEvents unpack receipts (New conf database) with
  | Ret (_, c') => c' = New conf database
  | Fail e => e = PanicNil \/ e = PanicIndex
  end.
Proof.
  unfold ProcessRewardEvents. induction (concat receipts) as [|l logs IH]; [done|].
  cbn [processRewardLogs]. unfold mbind, st_bind.
  assert (H : match processRewardLog unpack l (New conf database) with
    | Ret (_, c') => c' = New conf database | Fail e => e = PanicNil \/ e = PanicIndex end).
  { unfold processRewardLog. destruct (log_Topics l) as [|t0 ts]; [done|]. case_if; [done|].
    unfold mbind, st_bind, index, st_lift. cbn [Z.leb Z.compare]. destruct ((t0 :: ts) !! Z.to_nat 1); [|by right].
    destruct (unpack (log_Data l)) as [[rs ws]|]; [|done]. cbn. by left. }
  destruct (processRewardLog unpack l (New conf database)) as [[u c']|e]; [by subst c'|done].
Qed.
End registrations.
