(* ===== verification/CliqueScenario.v ===== *)
(** * A small proof-of-authority chain

    Four signers, four blocks, a stand-in for the signature scheme; the theorems about the engine
    are applied to it. *)

From S2P Require Import Prelude Bytes Uint256 Params ChainConfig Rlp VM Lru Headers HeaderRules State StateProofs Scenario StateTheorems Clique CliqueVoting CliqueTheorems CliqueChain CliqueRewards.
Import Clique.

(** A hash function that fingerprints the bytes, and signatures that name the signer. *)
Definition plain_crypto : Crypto := {| Keccak256 l := be_val l mod 2305843009213693951 |}.
Definition named (hash : Hash) (signature : bytes) : option bytes := Some (4 :: take 20 signature).

Definition seal_of (signer : Address) : bytes := Address_Bytes signer ++ zreplicate 45 0.

Definition block (number : Z) (parent : Hash) (sgs : list Address) (signer : Address) (difficulty : Z) : Header :=
  mkHeader parent (@EmptyUncleHash plain_crypto) 0 0 0 0 (zreplicate 256 0) (Some difficulty) (Some number)
    8000000 0 (15 * number) (zreplicate 32 0 ++ signerBytes sgs ++ seal_of signer) 0 0 None None None None None None.

Definition hash_of (h : Header) : Hash := match Header_Hash (H := plain_crypto) h with Ret x => x | Fail _ => 0 end.

Definition block0 : Header := block 0 0 [11; 12; 13; 14] 0 1.
Definition block1 : Header := block 1 (hash_of block0) [] 12 2.
Definition block2 : Header := block 2 (hash_of block1) [] 13 2.
Definition block3 : Header := block 3 (hash_of block2) [] 14 2.
(** Another block 2, sealed by the signer of block 1. *)
Definition block2again : Header := block 2 (hash_of block1) [] 12 1.

Definition poa_config : CliqueConfig := mkCliqueConfig 15 30000.
Definition frontier_config : ChainConfig :=
  mkChainConfig (Some 1) None None false None None None None None None None None None None None None None
    None None None None None None.

Definition blocks : list Header := [block0; block1; block2].
Definition poa_hash (k : nat) : Hash := match blocks !! k with Some h => hash_of h | None => 0 end.
Definition block_at (n : Z) : option Header :=
  if (0 <=? n) && (n <? len blocks) then blocks !! Z.to_nat n else None.
Definition poa_chain : Chain :=
  mkChain frontier_config
    (fun hash n => match block_at n with
                   | Some h => if hash_of h =? hash then Some h else None
                   | None => None
                   end)
    block_at.

Definition poa_engine : Engine := New poa_config ∅.

Lemma poa_chain_ok : chain_ok (C := plain_crypto) poa_chain poa_config blocks poa_hash 3 [11; 12; 13; 14].
Proof.
  assert (Hk : forall k h, blocks !! k = Some h -> k = 0%nat \/ k = 1%nat \/ k = 2%nat).
  { intros k h H. apply lookup_lt_Some in H. cbn in H. lia. }
  split.
  - vm_compute. done.
  - cbn. lia.
  - intros k h H. destruct (Hk k h H) as [->|[->| ->]]; injection H as <-; vm_compute; done.
  - intros k h H. destruct (Hk k h H) as [->|[->| ->]]; injection H as <-; vm_compute; done.
  - intros k h H. destruct (Hk (S k) h H) as [E|[E|E]]; [done|..]; injection E as ->; injection H as <-; vm_compute; done.
  - intros j k Hj Hk' E. cbn in Hj, Hk'.
    destruct j as [|[|[|j]]], k as [|[|[|k]]]; try lia; exfalso; revert E;
      apply Z.eqb_neq; vm_compute; reflexivity.
  - intros k h H _. destruct (Hk k h H) as [->|[->| ->]]; injection H as <-; vm_compute; done.
  - intros k h H. destruct (Hk k h H) as [->|[->| ->]]; injection H as <-; vm_compute; done.
  - intros h H. injection H as <-. vm_compute. done.
  - done.
Qed.

Lemma poa_engine_ok : engine_ok (C := plain_crypto) named poa_config blocks poa_hash [11; 12; 13; 14] poa_engine.
Proof.
  split; [done|apply LRU.NewBasicLRU_ok|..]; intros k s _; cbn; unfold LRU.Peek; cbn; by rewrite lookup_empty.
Qed.

(** ** The theorems on this chain *)

Definition accepted (r : Outcome (Snapshot + cliqueerror)) : bool :=
  match r with Ret (inl _) => true | _ => false end.

Definition genesis : Snapshot := newSnapshot poa_config 0 (poa_hash 0) [11; 12; 13; 14].

Lemma genesis_ok : snap_ok 0 genesis.
Proof. apply newSnapshot_ok. Qed.

Lemma genesis_signers : Signers genesis <> ∅.
Proof. apply (bool_decide_eq_false (Signers genesis = ∅)). vm_compute. reflexivity. Qed.

Lemma apply_keeps_voting_invariant_witness :
  exists s', apply (C := plain_crypto) named genesis [block1; block2; block3] = Ret (inl s') /\ snap_ok 3 s'.
Proof.
  assert (Hb : accepted (apply (C := plain_crypto) named genesis [block1; block2; block3]) = true) by (vm_compute; reflexivity).
  destruct (apply (C := plain_crypto) named genesis [block1; block2; block3]) as [[s'|]|] eqn:E; try discriminate Hb.
  exists s'. split; [reflexivity|].
  destruct (apply_keeps_voting_invariant (C := plain_crypto) named genesis [block1; block2; block3] s') as [Hok Hn];
    [reflexivity|reflexivity|exact genesis_ok|exact E|].
  rewrite Hn in Hok. exact Hok.
Defined.

(** Two signers: one vote is not enough to add a third, two are. *)
Definition vote (number : Z) (signer coinbase : Address) : Header :=
  mkHeader 0 (@EmptyUncleHash plain_crypto) coinbase 0 0 0 (zreplicate 256 0) (Some 2) (Some number)
    8000000 0 (15 * number) (zreplicate 32 0 ++ seal_of signer) 0 nonceAuthVote None None None None None None.

Definition pair : Snapshot := newSnapshot poa_config 0 0 [21; 22].

Definition after (s : Snapshot) (hs : list Header) : Snapshot :=
  match applyHeaders (C := plain_crypto) named 30000 hs s with Ret (inl s') => s' | _ => s end.

Example one_vote : signers (after pair [vote 1 21 30]) = [21; 22].
Proof. vm_compute. reflexivity. Qed.
Example two_votes : signers (after pair [vote 1 21 30; vote 2 22 30]) = [21; 22; 30].
Proof. vm_compute. reflexivity. Qed.

Lemma signers_change_by_majority_witness :
  exists s', applyHeader (C := plain_crypto) named 30000 (vote 2 22 30) (after pair [vote 1 21 30]) = Ret (inl s') /\
    changed_by_majority (C := plain_crypto) named (vote 2 22 30) (after pair [vote 1 21 30]) s'.
Proof.
  assert (Hok : snap_ok 1 (after pair [vote 1 21 30])).
  { unfold after. assert (Hb : accepted (applyHeaders (C := plain_crypto) named 30000 [vote 1 21 30] pair) = true) by (vm_compute; reflexivity).
    destruct (applyHeaders (C := plain_crypto) named 30000 [vote 1 21 30] pair) as [[s|]|] eqn:E; try discriminate Hb.
    apply (applyHeaders_ok (C := plain_crypto) named 30000 0 [vote 1 21 30] pair s);
      [reflexivity|reflexivity|apply newSnapshot_ok|split; [reflexivity|exact I]|exact E]. }
  set (r := applyHeader (C := plain_crypto) named 30000 (vote 2 22 30) (after pair [vote 1 21 30])).
  assert (Hb : match r with Ret (inl s') => bool_decide (Signers s' = Signers (after pair [vote 1 21 30])) | _ => true end = false)
    by (vm_compute; reflexivity).
  destruct r as [[s'|]|] eqn:E; try discriminate Hb. exists s'. split; [reflexivity|].
  destruct (signers_change_by_majority (C := plain_crypto) named 30000 1 (vote 2 22 30) (after pair [vote 1 21 30]) s')
    as [Hs|Hm]; [lia|reflexivity|exact Hok|reflexivity|exact E| |exact Hm].
  apply bool_decide_eq_false in Hb. destruct (Hb Hs).
Defined.

Lemma some_signer_may_seal_witness : exists a, a ∈ Signers genesis /\
  forall h, blockNumber h = Ret 1 -> ecrecover (C := plain_crypto) named h = Ret (inl a) -> is_Some (voteOf h) ->
    exists s', applyHeader (C := plain_crypto) named 30000 h genesis = Ret (inl s').
Proof.
  apply (some_signer_may_seal (C := plain_crypto) named 30000 0 genesis);
    [discriminate|reflexivity|reflexivity|exact genesis_ok|exact genesis_signers].
Defined.

Lemma inturn_round_robin_witness : exists a, a ∈ Signers genesis /\ forall b, inturn genesis 7 b = Ret (b =? a).
Proof.
  destruct (inturn_round_robin genesis 7 genesis_signers) as [H _]. exact H.
Defined.

Lemma checkpoint_roundtrip_witness :
  let sealed := zslice (prepareExtra [1; 2] true (signers genesis)) 0 (32 + 80) ++ seal_of 12 in
  exists l, checkpointSigners sealed = Ret l /\ Signers (newSnapshot poa_config 0 0 l) = Signers genesis.
Proof.
  apply (checkpoint_roundtrip poa_config 0 0 genesis [1; 2] (seal_of 12)).
  - intros a Ha. apply signers_elem in Ha. change (signers genesis) with (signers (newSnapshot poa_config 0 0 [11; 12; 13; 14])) in Ha.
    vm_compute in Ha. repeat (apply elem_of_cons in Ha as [->|Ha]; [unfold is_address; lia|]). apply elem_of_nil in Ha. destruct Ha.
  - reflexivity.
Defined.

Lemma snapshot_refines_chain_witness :
  match snapAt (C := plain_crypto) named poa_config blocks poa_hash [11; 12; 13; 14] 2 with
  | Ret r => exists c',
      snapshot (C := plain_crypto) named 2 poa_chain 2 (poa_hash 2) [] poa_engine = Ret (r, c') /\
      engine_ok (C := plain_crypto) named poa_config blocks poa_hash [11; 12; 13; 14] c'
  | Fail e => False
  end.
Proof.
  pose proof (snapshot_refines_chain (C := plain_crypto) named poa_chain poa_config blocks poa_hash 3 [11; 12; 13; 14]
    2 2 poa_engine poa_chain_ok) as H.
  assert (Hb : match snapAt (C := plain_crypto) named poa_config blocks poa_hash [11; 12; 13; 14] 2 with Ret _ => true | _ => false end = true)
    by (vm_compute; reflexivity).
  destruct (snapAt (C := plain_crypto) named poa_config blocks poa_hash [11; 12; 13; 14] 2) as [r|e]; [|discriminate Hb].
  apply H; [cbn; lia|lia|exact poa_engine_ok].
Defined.

Lemma verified_header_extends_chain_witness :
  exists s, snapAt (C := plain_crypto) named poa_config blocks poa_hash [11; 12; 13; 14] 2 = Ret (inl s) /\
    (recentLimit s <= 3 -> exists s', apply (C := plain_crypto) named s [block3] = Ret (inl s')).
Proof.
  assert (Hb : match VerifyHeader (C := plain_crypto) named 2 1000 poa_chain block3 poa_engine with
               | Ret (None, _) => true | _ => false end = true) by (vm_compute; reflexivity).
  destruct (VerifyHeader (C := plain_crypto) named 2 1000 poa_chain block3 poa_engine) as [[[e|] c']|e] eqn:E;
    try discriminate Hb.
  assert (Hn : blockNumber block3 = Ret (Z.of_nat 3)) by (vm_compute; reflexivity).
  assert (Hp : hd_ParentHash block3 = poa_hash 2) by (vm_compute; reflexivity).
  assert (Hx : Header_Hash (H := plain_crypto) block3 = Ret (hash_of block3)) by (vm_compute; reflexivity).
  pose proof (verified_header_extends_chain (C := plain_crypto) named poa_chain poa_config blocks poa_hash 3
    [11; 12; 13; 14] 2 2 1000 block3 (hash_of block3) poa_engine c' poa_chain_ok eq_refl eq_refl (le_n 2)
    poa_engine_ok Hn Hp Hx E) as [_ H].
  exact H.
Defined.

Definition snapshot1 : Snapshot :=
  match apply (C := plain_crypto) named genesis [block1] with Ret (inl s) => s | _ => genesis end.

Lemma snapshot1_ok : snap_ok 1 snapshot1.
Proof.
  assert (Hb : accepted (apply (C := plain_crypto) named genesis [block1]) = true) by (vm_compute; reflexivity).
  unfold snapshot1. destruct (apply (C := plain_crypto) named genesis [block1]) as [[s'|]|] eqn:E; try discriminate Hb.
  destruct (apply_ok (C := plain_crypto) named genesis [block1] s') as (Hok & Hn & _);
    [reflexivity|reflexivity|exact genesis_ok|exact E|]. rewrite Hn in Hok. exact Hok.
Qed.

Lemma verifySeal_misses_early_recents_witness :
  verifySeal (C := plain_crypto) named snapshot1 block2again poa_engine = Ret (None, poa_engine) /\
  applyHeader (C := plain_crypto) named 30000 block2again snapshot1 = Ret (inr errRecentlySigned).
Proof.
  apply (verifySeal_misses_early_recents (C := plain_crypto) named poa_engine 30000 1 1 block2again snapshot1 12 false).
  - discriminate.
  - lia.
  - apply Z.ltb_lt. vm_compute. reflexivity.
  - apply Z.leb_le. vm_compute. reflexivity.
  - exact snapshot1_ok.
  - reflexivity.
  - exists false. reflexivity.
  - vm_compute. reflexivity.
  - apply (bool_decide_eq_true (12 ∈ Signers snapshot1)). vm_compute. reflexivity.
  - vm_compute. reflexivity.
  - vm_compute. reflexivity.
  - reflexivity.
Defined.

(** ** Rewards *)

(** The signer of block 1 over the state of [Scenario], and an engine where it registered two
    receivers. *)
Definition sealer : Address := match ecrecover (C := demo_crypto) named block1 with Ret (inl a) => a | _ => 0 end.

Definition registered (weights : list Z) : RewardSnapshot := mkReward sealer [user; writer] weights.
Definition rewarding (weights : list Z) : Engine :=
  with_rewards (Some {[sealer := registered weights]}) poa_engine.

Definition start : state := statedb demo_vm.

Definition balances_after (weights : list Z) (l : list Address) : option (list Z) :=
  match Finalize (C := demo_crypto) (DB := state_StateDB demo_reader) named (rewarding weights) block1 start with
  | Ret (_, s) => Some (map (fun a => uval (balanceOf demo_reader s a)) l)
  | Fail _ => None
  end.

Example shared_reward : balances_after [1; 2] [user; writer; sealer]
  = Some [333333333333333333 + 1000000; 666666666666666666; 1].
Proof. vm_compute. reflexivity. Qed.

(** The sum of the weights is a [uint64] that wraps around.  With weights that add up to
    [2^64 + 1], the divisor is 1: a receiver is credited its weight in ether, the remainder goes
    below zero, and the signer is left with a balance of almost [2^256]. *)
Theorem reward_weights_overflow :
  balances_after [two64 - 1; 2] [user; writer; sealer]
  = Some [1000000 + 1000000000000000000 * (two64 - 1); 2000000000000000000;
          two256 - 1000000000000000000 * two64].
Proof. vm_compute. reflexivity. Qed.

Lemma start_balances b : uval (balanceOf demo_reader start b) + blockReward < two256.
Proof.
  assert (E : balanceOf demo_reader start b = mk256 0 \/ balanceOf demo_reader start b = mk256 1000000).
  { unfold balanceOf, start, demo_vm, w_account, objectAt, statedb. cbn. unfold demo_account. repeat case_if; auto. }
  destruct E as [-> | ->]; vm_compute; reflexivity.
Qed.

Lemma Finalize_pays_block_reward_witness :
  exists s', Finalize (C := demo_crypto) (DB := state_StateDB demo_reader) named (rewarding [1; 2]) block1 start = Ret (tt, s') /\
    paid demo_reader start (rewards sealer (Some (registered [1; 2]))) s'.
Proof.
  assert (He : ecrecover (C := demo_crypto) named block1 = Ret (inl sealer)) by (vm_compute; reflexivity).
  assert (Hr : registration (rewarding [1; 2]) sealer = Some (registered [1; 2])) by (apply lookup_singleton_eq).
  pose proof (Finalize_pays_block_reward demo_reader demo_reader_ok named (rewarding [1; 2]) block1 (inl sealer) start New_ok He) as H.
  cbv beta zeta iota in H. rewrite Hr in H. apply H; [|exact start_balances].
  intros reg [= <-]. split; [vm_compute; discriminate|repeat constructor; discriminate|vm_compute; reflexivity].
Defined.
