(* ===== verification/TrieKeys.v ===== *)
(** * Key encodings of the trie ([trie/encoding.go])

    A key is handled in three forms: its bytes, its nibbles with the terminator 16 at the end of a
    complete key (hex), and the compact form in which paths are stored.  The functions convert
    between them; the theorems at the end say that the conversions are inverse to each other and
    that the conversion in place agrees with the one that allocates. *)

From S2P Require Import Prelude Bytes Rlp.

(** ** Model *)

(** [hasTerm] *)
Definition hasTerm (s : bytes) : bool := match last s with Some x => x =? 16 | None => false end.

(** [a<<4 | b] on bytes *)
Definition joinNibbles (a b : Z) : Z := Z.lor (u8 (Z.shiftl a 4)) b.

(** [decodeNibbles]: the bytes it writes; an odd number of nibbles reads past the end. *)
Fixpoint decodeNibbles (nibbles : bytes) : Outcome bytes :=
  match nibbles with
  | [] => Ret []
  | [_] => Fail PanicIndex
  | a :: b :: rest => r ← decodeNibbles rest; Ret (joinNibbles a b :: r)
  end.

Fixpoint keybytesNibbles (str : bytes) : bytes :=
  match str with
  | [] => []
  | b :: rest => b / 16 :: b mod 16 :: keybytesNibbles rest
  end.

Definition keybytesToHex (str : bytes) : bytes := keybytesNibbles str ++ [16].

(** [writeHexKey]: what it leaves at the start of [dst]. *)
Definition writeHexKey (dst key : bytes) : Outcome bytes :=
  _ ← index dst (2 * len key - 1);
  Ret (keybytesNibbles key).

Definition hexToCompact (hex : bytes) : Outcome bytes :=
  let terminator := if hasTerm hex then 1 else 0 in
  let hex := if hasTerm hex then take (length hex - 1) hex else hex in
  let flag := u8 (Z.shiftl terminator 5) in
  if Z.land (len hex) 1 =? 1 then
    match hex with
    | [] => Fail PanicIndex
    | h0 :: rest => r ← decodeNibbles rest; Ret (Z.lor (Z.lor flag 16) h0 :: r)
    end
  else r ← decodeNibbles hex; Ret (flag :: r).

(** The loop of [hexToCompactInPlace]: reads at [ni], writes at [bi]. *)
Fixpoint compactLoop (fuel : nat) (hex : bytes) (hexLen ni bi : Z) : Outcome bytes :=
  if ni <? hexLen then
    match fuel with
    | O => Fail OutOfFuel
    | S f =>
        a ← index hex ni;
        b ← index hex (ni + 1);
        _ ← index hex bi;
        compactLoop f (<[Z.to_nat bi := joinNibbles a b]> hex) hexLen (ni + 2) (bi + 1)
    end
  else Ret hex.

Definition hexToCompactInPlace (hex : bytes) : Outcome bytes :=
  let hexLen := len hex in
  let '(firstByte, hexLen) := if hasTerm hex then (32, hexLen - 1) else (0, hexLen) in
  let binLen := hexLen / 2 + 1 in
  '(firstByte, ni) ←
    (if Z.land hexLen 1 =? 1 then h0 ← index hex 0; Ret (Z.lor (Z.lor firstByte 16) h0, 1)
     else Ret (firstByte, 0));
  hex ← compactLoop (length hex) hex hexLen ni 1;
  _ ← index hex 0;
  slice (<[0%nat := firstByte]> hex) 0 binLen.

Definition compactToHex (compact : bytes) : Outcome bytes :=
  match compact with
  | [] => Ret []
  | _ =>
      let base := keybytesToHex compact in
      b0 ← index base 0;
      let base := if b0 <? 2 then take (length base - 1) base else base in
      slice base (2 - Z.land b0 1) (len base)
  end.

Definition hexToKeybytes (hex : bytes) : Outcome bytes :=
  let hex := if hasTerm hex then take (length hex - 1) hex else hex in
  if negb (Z.land (len hex) 1 =? 0) then Fail PanicExplicit else decodeNibbles hex.

(** [prefixLen] *)
Fixpoint prefixLen (a b : bytes) : nat :=
  match a, b with
  | x :: a, y :: b => if x =? y then S (prefixLen a b) else O
  | _, _ => O
  end.

(** ** Nibbles *)

Definition is_nibble (x : Z) : Prop := 0 <= x < 16.

(** A hex key: nibbles, and the terminator if the key is complete. *)
Definition hex_ok (k : bytes) : Prop := exists ns, Forall is_nibble ns /\ (k = ns \/ k = ns ++ [16]).
Definition complete (k : bytes) : Prop := exists ns, Forall is_nibble ns /\ k = ns ++ [16].

Lemma nibble_not_16 ns : Forall is_nibble ns -> hasTerm ns = false.
Proof.
  intros H. unfold hasTerm. destruct (last ns) as [x|] eqn:E; [|done].
  apply last_Some in E as [l ->]. apply Forall_app in H as [_ H]. rewrite Forall_singleton in H.
  unfold is_nibble in H. lia.
Qed.

Lemma hasTerm_snoc ns : hasTerm (ns ++ [16]) = true.
Proof. unfold hasTerm. by rewrite last_snoc. Qed.

Lemma take_snoc {A} (l : list A) x : take (length (l ++ [x]) - 1) (l ++ [x]) = l.
Proof.
  rewrite length_app. cbn [length]. replace (length l + 1 - 1)%nat with (length l) by lia.
  apply take_app_length.
Qed.

Lemma joinNibbles_val a b : is_nibble a -> is_nibble b -> joinNibbles a b = 16 * a + b.
Proof.
  intros Ha Hb.
  assert (Hall : forallb (fun a => forallb (fun b => joinNibbles a b =? 16 * a + b) (seqZ 0 16)) (seqZ 0 16) = true)
    by (vm_compute; reflexivity).
  rewrite forallb_forall in Hall. specialize (Hall a). rewrite forallb_forall in Hall.
  apply Z.eqb_eq, Hall; apply list_elem_of_In, elem_of_seqZ; unfold is_nibble in *; lia.
Qed.

Lemma decode_keybytes l : Forall is_byte l -> decodeNibbles (keybytesNibbles l) = Ret l.
Proof.
  induction 1 as [|b l Hb Hl IH]; [done|]. cbn. rewrite IH. cbn. unfold is_byte in Hb.
  rewrite joinNibbles_val.
  - rewrite <- Z.div_mod by lia. done.
  - unfold is_nibble. split; [apply Z.div_pos; lia|apply Z.div_lt_upper_bound; lia].
  - apply Z.mod_pos_bound. lia.
Qed.

Lemma keybytesNibbles_ok l : Forall is_byte l -> Forall is_nibble (keybytesNibbles l).
Proof.
  induction 1 as [|b l Hb Hl IH]; [done|]. unfold is_byte in Hb. cbn. repeat constructor; try done.
  - apply Z.div_pos; lia.
  - apply Z.div_lt_upper_bound; lia.
  - apply Z.mod_pos_bound; lia.
  - apply Z.mod_pos_bound; lia.
Qed.

Lemma keybytesNibbles_app l r : keybytesNibbles (l ++ r) = keybytesNibbles l ++ keybytesNibbles r.
Proof. induction l as [|b l IH]; [done|]. cbn [app keybytesNibbles]. by rewrite IH. Qed.

Lemma keybytesNibbles_len l : len (keybytesNibbles l) = 2 * len l.
Proof. induction l as [|b l IH]; [done|]. cbn [keybytesNibbles]. rewrite !len_cons, IH. lia. Qed.

Lemma keybytes_inj l l' : Forall is_byte l -> Forall is_byte l' ->
  keybytesToHex l = keybytesToHex l' -> l = l'.
Proof.
  intros Hl Hl' E. unfold keybytesToHex in E. apply app_inj_2 in E as [E _]; [|done].
  apply (f_equal decodeNibbles) in E. rewrite !decode_keybytes in E by done. by injection E.
Qed.

Lemma keybytes_complete l : Forall is_byte l -> complete (keybytesToHex l).
Proof. intros H. exists (keybytesNibbles l). split; [by apply keybytesNibbles_ok|done]. Qed.

(** ** Compact keys *)

(** Nibbles of even number are the nibbles of bytes. *)
Lemma nibbles_pairs ns : Forall is_nibble ns -> Nat.Even (length ns) ->
  exists bs, ns = keybytesNibbles bs /\ Forall is_byte bs.
Proof.
  intros Hn [m Hm]. revert ns Hn Hm. induction m as [|m IH]; intros ns Hn Hm.
  - destruct ns; [|cbn in Hm; lia]. by exists [].
  - destruct ns as [|a [|b ns]]; cbn in Hm; try lia. apply Forall_cons in Hn as [Ha Hn].
    apply Forall_cons in Hn as [Hb Hn]. destruct (IH ns Hn) as (bs & -> & Hbs); [lia|].
    unfold is_nibble in *. exists (16 * a + b :: bs). split; [|constructor; [unfold is_byte; lia|done]].
    cbn. rewrite (Z.mul_comm 16 a), Z.div_add_l, Z.div_small, Z.add_0_r by lia.
    by rewrite Z.add_comm, Z.mod_add, Z.mod_small by lia.
Qed.

(** The nibbles of a key and its terminator flag; the first byte of the compact form. *)
Definition term (t : bool) : bytes := if t then [16] else [].
Definition firstByte (t odd : bool) (h0 : Z) : Z := (if t then 32 else 0) + (if odd then 16 + h0 else 0).

Lemma hex_parts k : hex_ok k -> exists t ns, k = ns ++ term t /\ Forall is_nibble ns /\ hasTerm k = t /\
  (if t then take (length k - 1) k else k) = ns.
Proof.
  intros (ns & Hn & [-> | ->]).
  - exists false, ns. rewrite app_nil_r. split_and!; [done|done|by apply nibble_not_16|done].
  - exists true, ns. split_and!; [done|done|apply hasTerm_snoc|apply take_snoc].
Qed.

Lemma odd_of_nat n : Z.odd (Z.of_nat n) = Nat.odd n.
Proof. induction n as [|n IH]; [done|]. by rewrite Nat2Z.inj_succ, Z.odd_succ, <- Z.negb_odd, IH, Nat.odd_succ, <- Nat.negb_odd. Qed.

Lemma odd_len {A} (l : list A) : (Z.land (len l) 1 =? 1) = Nat.odd (length l).
Proof.
  unfold len. rewrite (Z.land_ones _ 1) by lia. change (2 ^ 1) with 2. rewrite Zmod_odd.
  rewrite odd_of_nat. by destruct (Nat.odd _).
Qed.

(** What a key is made of: nibbles of bytes, after one more nibble if their number is odd. *)
Lemma key_shape ns : Forall is_nibble ns -> exists bs, Forall is_byte bs /\
  ((Nat.odd (length ns) = false /\ ns = keybytesNibbles bs) \/
   (exists h0, Nat.odd (length ns) = true /\ is_nibble h0 /\ ns = h0 :: keybytesNibbles bs)).
Proof.
  intros Hn. destruct (Nat.odd (length ns)) eqn:E.
  - destruct ns as [|h0 ns]; [done|]. apply Forall_cons in Hn as [H0 Hn].
    destruct (nibbles_pairs ns Hn) as (bs & -> & Hb).
    { apply Nat.even_spec. cbn [length] in E. by rewrite Nat.odd_succ in E. }
    exists bs. split; [done|]. right. by exists h0.
  - destruct (nibbles_pairs ns Hn) as (bs & -> & Hb).
    { apply Nat.even_spec. rewrite <- Nat.negb_odd, E. done. }
    exists bs. split; [done|]. by left.
Qed.

(** The compact form of a key. *)
Definition compactOf (t : bool) (ns bs : bytes) : bytes :=
  firstByte t (Nat.odd (length ns)) (default 0 (head ns)) :: bs.

Lemma flag_byte (t : bool) h0 : is_nibble h0 -> Z.lor (Z.lor (u8 (Z.shiftl (if t then 1 else 0) 5)) 16) h0 = firstByte t true h0.
Proof.
  intros H. assert (Hall : forallb (fun h => (Z.lor (Z.lor (u8 (Z.shiftl (if t then 1 else 0) 5)) 16) h =? firstByte t true h)) (seqZ 0 16) = true)
    by (destruct t; vm_compute; reflexivity).
  rewrite forallb_forall in Hall. apply Z.eqb_eq, Hall, list_elem_of_In, elem_of_seqZ. unfold is_nibble in H. lia.
Qed.

Lemma hexToCompact_spec t ns : Forall is_nibble ns -> exists bs, Forall is_byte bs /\
  hexToCompact (ns ++ term t) = Ret (compactOf t ns bs) /\
  ns = (if Nat.odd (length ns) then [default 0 (head ns)] else []) ++ keybytesNibbles bs.
Proof.
  intros Hn. destruct (hex_parts (ns ++ term t)) as (t' & ns' & E & Hn' & Ht & Ens).
  { exists ns. split; [done|]. destruct t; [by right|left; apply app_nil_r]. }
  assert (t' = t /\ ns' = ns) as [-> ->].
  { destruct t, t'; cbn [term] in E; rewrite ?app_nil_r in E.
    - by apply app_inj_2 in E as [-> _].
    - subst ns'. apply nibble_not_16 in Hn'. by rewrite hasTerm_snoc in Hn'.
    - subst ns. apply nibble_not_16 in Hn. by rewrite hasTerm_snoc in Hn.
    - done. }
  destruct (key_shape ns Hn) as (bs & Hb & Hs). exists bs. split; [done|].
  unfold hexToCompact. rewrite Ht, Ens, odd_len. unfold compactOf.
  destruct Hs as [[Eo En]|(h0 & Eo & H0 & En)]; rewrite Eo.
  - split; [|done]. rewrite En, decode_keybytes by done. cbn. f_equal. f_equal. by destruct t.
  - split; [|by rewrite En at 1; rewrite En]. rewrite En, decode_keybytes by done. cbn. f_equal. f_equal. by apply flag_byte.
Qed.

Lemma firstByte_nibbles (t o : bool) h0 : is_nibble h0 ->
  firstByte t o h0 / 16 = (if t then 2 else 0) + (if o then 1 else 0) /\
  firstByte t o h0 mod 16 = if o then h0 else 0.
Proof.
  unfold is_nibble, firstByte. intros H. destruct t, o; cbn; try done.
  - split; [symmetry; apply (Z.div_unique _ 16 3 h0); lia|symmetry; apply (Z.mod_unique _ 16 3 h0); lia].
  - split; [symmetry; apply (Z.div_unique _ 16 1 h0); lia|symmetry; apply (Z.mod_unique _ 16 1 h0); lia].
Qed.

Lemma compactToHex_spec t ns bs : Forall is_nibble ns ->
  ns = (if Nat.odd (length ns) then [default 0 (head ns)] else []) ++ keybytesNibbles bs ->
  compactToHex (compactOf t ns bs) = Ret (ns ++ term t).
Proof.
  intros Hn E. set (o := Nat.odd (length ns)) in *. set (h0 := default 0 (head ns)) in *.
  assert (H0 : is_nibble h0).
  { subst h0. destruct ns as [|x ns]; [cbn; unfold is_nibble; lia|]. by apply Forall_cons in Hn as [? _]. }
  destruct (firstByte_nibbles t o h0 H0) as [E1 E2].
  unfold compactOf. fold o h0. unfold compactToHex, keybytesToHex. cbn [keybytesNibbles].
  rewrite E1, E2. set (f0 := (if t then 2 else 0) + (if o then 1 else 0)). set (f1 := if o then h0 else 0).
  change ((f0 :: f1 :: keybytesNibbles bs) ++ [16]) with (f0 :: f1 :: (keybytesNibbles bs ++ [16])).
  cbn [index]. change (index (f0 :: f1 :: (keybytesNibbles bs ++ [16])) 0) with (Ret f0). cbn [mbind outcome_bind].
  assert (Eb : (if f0 <? 2 then take (length (f0 :: f1 :: (keybytesNibbles bs ++ [16])) - 1) (f0 :: f1 :: (keybytesNibbles bs ++ [16]))
    else f0 :: f1 :: (keybytesNibbles bs ++ [16])) = f0 :: f1 :: (keybytesNibbles bs ++ term t)).
  { destruct t; [by destruct o|]. replace (f0 <? 2) with true by (by destruct o).
    change (f0 :: f1 :: (keybytesNibbles bs ++ [16])) with ((f0 :: f1 :: keybytesNibbles bs) ++ [16]).
    rewrite take_snoc. by rewrite app_nil_r. }
  rewrite Eb. assert (El : Z.land f0 1 = if o then 1 else 0) by (by destruct t, o). rewrite El.
  rewrite slice_ok.
  - f_equal. unfold zslice. rewrite !len_cons, take_ge.
    + destruct o; cbn; [by rewrite E|by rewrite E].
    + rewrite length_drop. unfold len. cbn. destruct o; lia.
  - rewrite !len_cons. pose proof (len_nonneg (keybytesNibbles bs ++ term t)). destruct o; lia.
  - lia.
Qed.

(** ** The conversion in place *)

Lemma index_lookup {A} (l : list A) (i : nat) a : l !! i = Some a -> index l (Z.of_nat i) = Ret a.
Proof. intros H. unfold index. rewrite (proj2 (Z.leb_le 0 (Z.of_nat i))) by lia. by rewrite Nat2Z.id, H. Qed.

(** The loop writes behind what it still has to read. *)
Lemma compactLoop_spec bs : forall fuel hex w tail ni bi, Forall is_byte bs ->
  (length bs <= fuel)%nat -> take bi hex = w -> (bi <= length hex)%nat -> (bi <= ni + 1)%nat ->
  drop ni hex = keybytesNibbles bs ++ tail ->
  exists hex', compactLoop fuel hex (Z.of_nat (ni + 2 * length bs)) (Z.of_nat ni) (Z.of_nat bi) = Ret hex' /\
    length hex' = length hex /\ take (bi + length bs) hex' = w ++ bs.
Proof.
  induction bs as [|b bs IH]; intros fuel hex w tail ni bi Hb Hf Hw Hbi Hni Hd.
  { exists hex. cbn [length]. rewrite Nat.mul_0_r, !Nat.add_0_r, app_nil_r. split; [|done].
    destruct fuel; cbn [compactLoop]; by rewrite Z.ltb_irrefl. }
  apply Forall_cons in Hb as [Hb Hbs]. cbn [keybytesNibbles app] in Hd. cbn [length] in Hf.
  assert (Hl : forall j x, drop ni hex !! j = Some x -> hex !! (ni + j)%nat = Some x) by (intros j x Hj; by rewrite <- lookup_drop).
  assert (L0 : hex !! ni = Some (b / 16)) by (rewrite <- (Nat.add_0_r ni); apply Hl; by rewrite Hd).
  assert (L1 : hex !! (ni + 1)%nat = Some (b mod 16)) by (apply Hl; by rewrite Hd).
  pose proof (lookup_lt_Some _ _ _ L1) as Hlt.
  destruct (lookup_lt_is_Some_2 hex bi) as [y Ly]; [lia|].
  destruct fuel as [|fuel]; [lia|]. cbn [compactLoop].
  rewrite (proj2 (Z.ltb_lt _ _)) by (cbn [length]; lia).
  rewrite (index_lookup _ _ _ L0). replace (Z.of_nat ni + 1) with (Z.of_nat (ni + 1)) by lia.
  rewrite (index_lookup _ _ _ L1), (index_lookup _ _ _ Ly). cbn [mbind outcome_bind].
  rewrite joinNibbles_val, <- Z.div_mod by (lia || (unfold is_byte in Hb; apply Z.mod_pos_bound; lia) ||
    (unfold is_byte in Hb; split; [apply Z.div_pos; lia|apply Z.div_lt_upper_bound; lia])).
  rewrite Nat2Z.id.
  replace (Z.of_nat ni + 2) with (Z.of_nat (ni + 2)) by lia. replace (Z.of_nat bi + 1) with (Z.of_nat (bi + 1)) by lia.
  replace (ni + 2 * length (b :: bs))%nat with (ni + 2 + 2 * length bs)%nat by (cbn [length]; lia).
  destruct (IH fuel (<[bi := b]> hex) (w ++ [b]) tail (ni + 2)%nat (bi + 1)%nat) as (hex' & E & El & Et);
    [done|lia| |rewrite length_insert; lia|lia| |].
  - rewrite Nat.add_1_r. erewrite take_S_r; [|by apply list_lookup_insert_eq; lia].
    rewrite take_insert_ge by lia. by rewrite Hw.
  - rewrite drop_insert_lt by lia. rewrite <- drop_drop, Hd. done.
  - exists hex'. split; [done|]. rewrite El, length_insert. split; [done|].
    replace (bi + length (b :: bs))%nat with (bi + 1 + length bs)%nat by (cbn [length]; lia).
    rewrite Et, <- app_assoc. done.
Qed.

Lemma keybytesNibbles_length l : length (keybytesNibbles l) = (2 * length l)%nat.
Proof. induction l as [|b l IH]; [done|]. cbn [keybytesNibbles length]. rewrite IH. lia. Qed.

Lemma len_term t : len (term t) = if t then 1 else 0.
Proof. by destruct t. Qed.

(** The part of [hexToCompactInPlace] that follows the computation of the first byte. *)
Lemma compact_finish (hex bs tail : bytes) (fb : Z) (ni : nat) : Forall is_byte bs -> hex <> [] -> (ni <= 1)%nat ->
  (2 * length bs + ni <= length hex)%nat ->
  (1 + length bs <= length hex)%nat -> drop ni hex = keybytesNibbles bs ++ tail ->
  (hex' ← compactLoop (length hex) hex (Z.of_nat (ni + 2 * length bs)) (Z.of_nat ni) 1;
   _ ← index hex' 0; slice (<[0%nat := fb]> hex') 0 (1 + len bs)) = Ret (fb :: bs).
Proof.
  intros Hb Hne Hni Hl2 Hl Hd. destruct hex as [|x hex]; [done|]. cbn [length] in *.
  destruct (compactLoop_spec bs (S (length hex)) (x :: hex) [x] tail ni 1%nat) as (hex' & E & El & Et);
    [done|lia|done|cbn [length]; lia|lia|done|].
  change (Z.of_nat 1) with 1 in E. cbn [length] in E. rewrite E. cbn [mbind outcome_bind].
  destruct hex' as [|y hex']; [done|]. change (index (y :: hex') 0) with (Ret y). cbn [mbind outcome_bind].
  cbn [length] in El. cbn [Nat.add take app] in Et. injection Et as -> Et.
  change (<[0%nat := fb]> (x :: hex')) with (fb :: hex').
  rewrite slice_ok by (unfold len; cbn [length]; lia). f_equal. unfold zslice, len.
  replace (Z.to_nat _) with (S (length bs)) by lia. change (Z.to_nat 0) with 0%nat. cbn [drop take]. by rewrite Et.
Qed.

Lemma hexToCompactInPlace_spec t ns bs : Forall is_nibble ns -> ns ++ term t <> [] -> Forall is_byte bs ->
  ns = (if Nat.odd (length ns) then [default 0 (head ns)] else []) ++ keybytesNibbles bs ->
  hexToCompactInPlace (ns ++ term t) = Ret (compactOf t ns bs).
Proof.
  intros Hn Hne Hb E. unfold hexToCompactInPlace.
  assert (Ht : hasTerm (ns ++ term t) = t).
  { destruct t; [apply hasTerm_snoc|]. rewrite app_nil_r. by apply nibble_not_16. }
  assert (Hh : (if hasTerm (ns ++ term t) then (32, len (ns ++ term t) - 1) else (0, len (ns ++ term t)))
    = (if t then 32 else 0, len ns)).
  { rewrite Ht, len_app, len_term. destruct t; f_equal; lia. }
  rewrite Hh, odd_len. unfold compactOf. clear Hh Ht.
  assert (Hlen : length ns = ((if Nat.odd (length ns) then 1 else 0) + 2 * length bs)%nat).
  { rewrite E at 1. rewrite length_app, keybytesNibbles_length. by destruct (Nat.odd _). }
  assert (Hpos : (1 <= length (ns ++ term t))%nat) by (destruct (ns ++ term t); [done|cbn; lia]).
  rewrite length_app in Hpos. unfold len at 1. set (o := Nat.odd (length ns)) in *.
  assert (Hq : Z.of_nat (length ns) / 2 = len bs).
  { rewrite Hlen. unfold len. symmetry. destruct o;
      [apply (Z.div_unique_pos _ 2 _ 1); lia|apply (Z.div_unique_pos _ 2 _ 0); lia]. }
  rewrite Hq, (Z.add_comm (len bs) 1).
  destruct o.
  - destruct ns as [|h0 ns]; [done|]. cbn [head default] in *. apply Forall_cons in Hn as [H0 Hn].
    cbn [app] in *. change (index (h0 :: ns ++ term t) 0) with (Ret h0). cbn [mbind outcome_bind].
    injection E as E. change (len (h0 :: ns)) with (Z.of_nat (length (h0 :: ns))). rewrite Hlen.
    change (compactLoop ?f ?h ?l 1 1) with (compactLoop f h l (Z.of_nat 1) 1).
    rewrite (compact_finish _ bs (term t) _ 1%nat); [|done|done|lia|..].
    + f_equal. f_equal. by destruct t; rewrite <- flag_byte.
    + cbn [length] in *. rewrite length_app. lia.
    + cbn [length] in *. rewrite length_app. lia.
    + cbn [drop]. by rewrite <- E.
  - cbn [mbind outcome_bind]. change (len ns) with (Z.of_nat (length ns)). rewrite Hlen.
    change (compactLoop ?f ?h ?l 0 1) with (compactLoop f h l (Z.of_nat 0) 1).
    rewrite (compact_finish _ bs (term t) _ 0%nat); [|done|done|lia|..].
    + f_equal. f_equal. by destruct t.
    + rewrite length_app. destruct t; cbn [term length] in *; lia.
    + rewrite length_app. destruct t; cbn [term length] in *; lia.
    + cbn [drop]. by rewrite E at 1.
Qed.

Lemma firstByte_byte t o h0 : is_nibble h0 -> is_byte (firstByte t o h0).
Proof. unfold is_nibble, is_byte, firstByte. destruct t, o; lia. Qed.

(** The key of a node in compact form; every proof about stored nodes uses it through these facts. *)
Lemma hexToCompact_ok k : hex_ok k -> exists c, hexToCompact k = Ret c /\ Forall is_byte c /\
  compactToHex c = Ret k /\ len c <= len k / 2 + 1 /\ (k <> [] -> hexToCompactInPlace k = Ret c).
Proof.
  intros Hk. destruct (hex_parts k Hk) as (t & ns & -> & Hn & _ & _).
  destruct (hexToCompact_spec t ns Hn) as (bs & Hb & E & Es). exists (compactOf t ns bs).
  split; [done|]. assert (Hd : is_nibble (default 0 (head ns))).
  { destruct ns; [cbn; unfold is_nibble; lia|]. by apply Forall_cons in Hn as [? _]. }
  split_and!.
  - constructor; [by apply firstByte_byte|done].
  - by apply compactToHex_spec.
  - unfold compactOf. rewrite len_cons, len_app. apply (f_equal length) in Es.
    rewrite length_app, keybytesNibbles_length in Es. pose proof (len_nonneg (term t)).
    enough (len bs <= (len ns + len (term t)) / 2) by lia. apply Z.div_le_lower_bound; [lia|]. unfold len in *. lia.
  - intros Hne. by apply hexToCompactInPlace_spec.
Qed.

Lemma hexToKeybytes_hex l : Forall is_byte l -> hexToKeybytes (keybytesToHex l) = Ret l.
Proof.
  intros Hl. unfold hexToKeybytes, keybytesToHex. rewrite hasTerm_snoc, take_snoc.
  pose proof (odd_len (keybytesNibbles l)) as Ho. rewrite keybytesNibbles_length in Ho.
  assert (E : Z.land (len (keybytesNibbles l)) 1 = 0).
  { rewrite (Z.land_ones _ 1), keybytesNibbles_len by lia. rewrite Z.mul_comm. by apply Z.mod_mul. }
  rewrite E. cbn. by apply decode_keybytes.
Qed.

(** ** Property *)

(** The three encodings of a trie key are inverse to each other: for every hex key (nibbles,
    with or without the terminator) [hexToCompact] succeeds, [compactToHex] gives the key back, and
    [hexToCompactInPlace], which overwrites the buffer it reads, computes the same compact key for
    every key that is not empty; for the bytes of a key, [hexToKeybytes] undoes [keybytesToHex]. *)
Theorem compact_key_roundtrip (k l : bytes) : hex_ok k -> Forall is_byte l ->
  (exists c, hexToCompact k = Ret c /\ compactToHex c = Ret k /\ (k <> [] -> hexToCompactInPlace k = Ret c)) /\
  hexToKeybytes (keybytesToHex l) = Ret l /\ hex_ok (keybytesToHex l).
Proof.
  intros Hk Hl. destruct (hexToCompact_ok k Hk) as (c & E1 & _ & E2 & _ & E3). split; [by exists c|].
  split; [by apply hexToKeybytes_hex|]. destruct (keybytes_complete l Hl) as (ns & Hn & E). exists ns. auto.
Qed.

Lemma compact_key_roundtrip_witness :
  (exists c, hexToCompact [1; 2; 3; 4; 5; 16] = Ret c /\ compactToHex c = Ret [1; 2; 3; 4; 5; 16] /\
    ([1; 2; 3; 4; 5; 16] <> [] -> hexToCompactInPlace [1; 2; 3; 4; 5; 16] = Ret c)) /\
  hexToKeybytes (keybytesToHex [18; 52]) = Ret [18; 52] /\ hex_ok (keybytesToHex [18; 52]).
Proof.
  apply (compact_key_roundtrip [1; 2; 3; 4; 5; 16] [18; 52]).
  - exists [1; 2; 3; 4; 5]. split; [repeat constructor; unfold is_nibble; lia|by right].
  - repeat constructor; unfold is_byte; lia.
Defined.

Example hexToCompact_odd_term : hexToCompact [1; 2; 3; 4; 5; 16] = Ret [49; 35; 69].
Proof. reflexivity. Qed.
