(* ===== verification/TrieNode.v ===== *)
(** * Trie nodes ([trie/node.go], [trie/node_enc.go], [trie/hasher.go])

    The nodes of a Merkle Patricia trie, their decoding from RLP, their encoding and the hasher.
    The hasher stores the hashes it computes in the nodes it walks over ([n.flags.hash = hn]); the
    model returns the node with these hashes next to the result. *)

From S2P Require Import Prelude Bytes Rlp VM TrieKeys.

(** ** Nodes ([node.go]) *)

(** The cached hash ([None] for nil) and whether the node differs from the database. *)
Record nodeFlag := mkFlag { flag_hash : option bytes; flag_dirty : bool }.

(** [nilNode] is the nil interface; a full node has 17 children. *)
Inductive node :=
  | nilNode
  | fullNode (Children : list node) (flags : nodeFlag)
  | shortNode (Key : bytes) (Val : node) (flags : nodeFlag)
  | hashNode (h : bytes)
  | valueNode (v : bytes).

Definition nilValueNode : node := valueNode [].

Definition is_nil (n : node) : bool := match n with nilNode => true | _ => false end.

(** [n.cache()]; a call on the nil interface panics. *)
Definition cache (n : node) : Outcome (option bytes * bool) :=
  match n with
  | nilNode => Fail PanicNil
  | fullNode _ fl | shortNode _ _ fl => Ret (flag_hash fl, flag_dirty fl)
  | hashNode _ | valueNode _ => Ret (None, true)
  end.

(** The errors of the decoder, without the path that [wrapError] adds for debugging. *)
Inductive decodeErr :=
  | DecUnexpectedEOF
  | DecRlp (e : rlperror)
  | DecElements (c : Z)         (** invalid number of list elements *)
  | DecOversized (size : Z)     (** oversized embedded node *)
  | DecStringSize (n : Z).      (** invalid RLP string size (want 0 or 32) *)

Definition hashLen : Z := 32.

Section decode.
(** The call of [decodeNodeUnsafe] for an embedded node. *)
Variable decodeNodeUnsafe : option bytes -> bytes -> Outcome (node + decodeErr).

Definition decodeRef (buf : bytes) : Outcome ((node * bytes) + decodeErr) :=
  r ← Split buf;
  match r with
  | inr e => Ret (inr (DecRlp e))
  | inl (KList, val, rest) =>
      let size := len buf - len rest in
      if hashLen <? size then Ret (inr (DecOversized size))
      else
        n ← decodeNodeUnsafe None buf;
        match n with
        | inl n => Ret (inl (n, rest))
        | inr e => Ret (inr e)
        end
  | inl (KString, val, rest) =>
      if len val =? 0 then Ret (inl (nilNode, rest))
      else if len val =? 32 then Ret (inl (hashNode val, rest))
      else Ret (inr (DecStringSize (len val)))
  | inl (_, val, rest) => Ret (inr (DecStringSize (len val)))
  end.

Definition decodeShort (hash : option bytes) (elems : bytes) : Outcome (node + decodeErr) :=
  r ← SplitString elems;
  match r with
  | inr e => Ret (inr (DecRlp e))
  | inl (kbuf, rest) =>
      let flag := mkFlag hash false in
      key ← compactToHex kbuf;
      if hasTerm key then
        v ← SplitString rest;
        match v with
        | inr e => Ret (inr (DecRlp e))
        | inl (val, _) => Ret (inl (shortNode key (valueNode val) flag))
        end
      else
        r ← decodeRef rest;
        match r with
        | inr e => Ret (inr e)
        | inl (r, _) => Ret (inl (shortNode key r flag))
        end
  end.

(** The loop of [decodeFull] over the first 16 children. *)
Fixpoint decodeChildren (i : nat) (elems : bytes) : Outcome ((list node * bytes) + decodeErr) :=
  match i with
  | O => Ret (inl ([], elems))
  | S i =>
      r ← decodeRef elems;
      match r with
      | inr e => Ret (inr e)
      | inl (cld, rest) =>
          r ← decodeChildren i rest;
          match r with
          | inr e => Ret (inr e)
          | inl (clds, rest) => Ret (inl (cld :: clds, rest))
          end
      end
  end.

Definition decodeFull (hash : option bytes) (elems : bytes) : Outcome (node + decodeErr) :=
  r ← decodeChildren 16 elems;
  match r with
  | inr e => Ret (inr e)
  | inl (clds, elems) =>
      v ← SplitString elems;
      match v with
      | inr e => Ret (inr (DecRlp e))
      | inl (val, _) =>
          Ret (inl (fullNode (clds ++ [if 0 <? len val then valueNode val else nilNode]) (mkFlag hash false)))
      end
  end.
End decode.

(** An embedded node is inside the list of its parent, so the length of the buffer bounds the depth
    of the recursion. *)
Fixpoint decodeNodeFuel (fuel : nat) (hash : option bytes) (buf : bytes) : Outcome (node + decodeErr) :=
  match fuel with
  | O => Fail OutOfFuel
  | S fuel =>
      if len buf =? 0 then Ret (inr DecUnexpectedEOF)
      else
        r ← SplitList buf;
        match r with
        | inr e => Ret (inr (DecRlp e))
        | inl (elems, _) =>
            r ← CountValues elems;
            let c := match r with inl c => c | inr _ => 0 end in
            if c =? 2 then decodeShort (decodeNodeFuel fuel) hash elems
            else if c =? 17 then decodeFull (decodeNodeFuel fuel) hash elems
            else Ret (inr (DecElements c))
        end
  end.

Definition decodeNodeUnsafe (hash : option bytes) (buf : bytes) : Outcome (node + decodeErr) :=
  decodeNodeFuel (S (length buf)) hash buf.

Definition mustDecodeNode (hash : option bytes) (buf : bytes) : Outcome node :=
  r ← decodeNodeUnsafe hash buf;
  match r with inl n => Ret n | inr _ => Fail PanicExplicit end.

(** ** Encoding ([node_enc.go]) *)

(** [n.encode(w)] *)
Fixpoint node_encode (w : encBuffer) (n : node) : Outcome encBuffer :=
  match n with
  | nilNode => Fail PanicNil
  | fullNode cs _ =>
      let '(offset, w) := buf_list w in
      w ← (fix go (w : encBuffer) (cs : list node) : Outcome encBuffer :=
             match cs with
             | [] => Ret w
             | c :: cs => w ← (if is_nil c then Ret (append_str w [128]) else node_encode w c); go w cs
             end) w cs;
      listEnd w offset
  | shortNode k v _ =>
      let '(offset, w) := buf_list w in
      let w := writeBytes w k in
      w ← (if is_nil v then Ret (append_str w [128]) else node_encode w v);
      listEnd w offset
  | hashNode h => Ret (writeBytes w h)
  | valueNode v => Ret (writeBytes w v)
  end.

Definition nodeToBytes (n : node) : Outcome bytes := w ← node_encode emptyBuf n; Ret (makeBytes w).

(** ** Hashing ([hasher.go]) *)

Section hasher.
Context `{C : Crypto}.

Definition hashData (data : bytes) : bytes := Hash_Bytes (Keccak256 data).

(** [shortnodeToHash] and [fullnodeToHash]; the same body on the two kinds of node. *)
Definition shortnodeToHash (n : node) (force : bool) : Outcome node :=
  enc ← nodeToBytes n;
  if (len enc <? 32) && negb force then Ret n else Ret (hashNode (hashData enc)).
Definition fullnodeToHash (n : node) (force : bool) : Outcome node :=
  enc ← nodeToBytes n;
  if (len enc <? 32) && negb force then Ret n else Ret (hashNode (hashData enc)).

(** [n.flags.hash = hn] if the result is a hash, nil otherwise *)
Definition set_hash (hashed : node) (fl : nodeFlag) : nodeFlag :=
  mkFlag (match hashed with hashNode h => Some h | _ => None end) (flag_dirty fl).

(** The bodies of [hashShortNodeChildren] and [hashFullNodeChildren]: the collapsed children and the
    children with the hashes that the walk stored in them.  The parallel hasher does the same work
    on the 16 children in 16 goroutines, each on a child and a slot of its own. *)
Section children.
Variable hash : node -> Outcome (node * node).

Definition hashVal (v : node) : Outcome (node * node) :=
  match v with
  | fullNode _ _ | shortNode _ _ _ => hash v
  | _ => Ret (v, v)
  end.

Definition hashChild (child : node) : Outcome (node * node) :=
  match child with nilNode => Ret (nilValueNode, nilNode) | _ => hash child end.

(** [i] children are still to be hashed; the last one is copied. *)
Definition hashChildren : nat -> list node -> Outcome (list node * list node) :=
  fix go i cs {struct cs} :=
    match cs with
    | [] => Ret ([], [])
    | c :: cs =>
        match i with
        | O => Ret (c :: cs, c :: cs)
        | S i =>
            '(h, c) ← hashChild c;
            '(hs, cs) ← go i cs;
            Ret (h :: hs, c :: cs)
        end
    end.

Definition hashShortNodeChildren (key : bytes) (val : node) : Outcome (node * node) :=
  k ← hexToCompact key;
  '(cv, v) ← hashVal val;
  Ret (shortNode k cv (mkFlag None false), v).

Definition hashFullNodeChildren (cs : list node) : Outcome (node * list node) :=
  '(ccs, cs) ← hashChildren 16 cs;
  Ret (fullNode ccs (mkFlag None false), cs).
End children.

(** [h.hash(n, force)]: the hashed node and [n] with the hashes that were stored. *)
Fixpoint hash (n : node) (force : bool) {struct n} : Outcome (node * node) :=
  match n with
  | nilNode => Fail PanicNil
  | shortNode k v fl =>
      match flag_hash fl with
      | Some h => Ret (hashNode h, n)
      | None =>
          '(collapsed, v) ← hashShortNodeChildren (fun c => hash c false) k v;
          hashed ← shortnodeToHash collapsed force;
          Ret (hashed, shortNode k v (set_hash hashed fl))
      end
  | fullNode cs fl =>
      match flag_hash fl with
      | Some h => Ret (hashNode h, n)
      | None =>
          '(collapsed, cs) ← hashFullNodeChildren (fun c => hash c false) cs;
          hashed ← fullnodeToHash collapsed force;
          Ret (hashed, fullNode cs (set_hash hashed fl))
      end
  | hashNode _ | valueNode _ => Ret (n, n)
  end.

(** [proofHash]: the collapsed node, the hashed node, and the original with the stored hashes. *)
Definition proofHash (original : node) : Outcome (node * node * node) :=
  match original with
  | shortNode k v fl =>
      '(sn, v) ← hashShortNodeChildren (fun c => hash c false) k v;
      hashed ← shortnodeToHash sn false;
      Ret (sn, hashed, shortNode k v fl)
  | fullNode cs fl =>
      '(fn, cs) ← hashFullNodeChildren (fun c => hash c false) cs;
      hashed ← fullnodeToHash fn false;
      Ret (fn, hashed, fullNode cs fl)
  | n => Ret (n, n, n)
  end.
End hasher.
