(* ===== verification/Trie.v ===== *)
(** * The Merkle Patricia trie ([trie/trie.go], [trie/tracer.go], [trie/trie_reader.go])

    A [Trie] keeps its nodes as a tree of Go values in which untouched subtries are hash nodes that
    are loaded from the node database when an operation reaches them.  Full nodes are changed in
    place; [delete] can fail after it has changed one, so its model returns the node that is left
    behind next to the error. *)

From S2P Require Import Prelude Bytes Rlp VM TrieKeys TrieNode.

(** ** Errors ([errors.go]) *)

Inductive trieerror :=
  | MissingNodeError (Owner NodeHash : Hash) (Path : bytes)
  | ErrDecode (e : decodeErr)
  | ErrCommitted
  | ErrNonConsensusNode.

(** ** The tracer ([tracer.go]) *)

Record tracer := mkTracer {
  inserts : gset bytes;
  deletes : gset bytes;
  accessList : gmap bytes bytes;
}.

Definition newTracer : tracer := mkTracer ∅ ∅ ∅.

Definition onRead (path val : bytes) (t : tracer) : tracer :=
  mkTracer (inserts t) (deletes t) (<[path := val]> (accessList t)).

Definition onInsert (path : bytes) (t : tracer) : tracer :=
  if decide (path ∈ deletes t) then mkTracer (inserts t) (deletes t ∖ {[path]}) (accessList t)
  else mkTracer ({[path]} ∪ inserts t) (deletes t) (accessList t).

Definition onDelete (path : bytes) (t : tracer) : tracer :=
  if decide (path ∈ inserts t) then mkTracer (inserts t ∖ {[path]}) (deletes t) (accessList t)
  else mkTracer (inserts t) ({[path]} ∪ deletes t) (accessList t).

(** The deleted paths that were read from the database, in the order of the set. *)
Definition deletedNodes (t : tracer) : list bytes :=
  filter (fun path => is_Some (accessList t !! path)) (elements (deletes t)).

(** ** The node reader ([trie_reader.go]) *)

(** [common.BytesToHash] *)
Definition BytesToHash (b : bytes) : Hash := be_val b mod two256.

(** [database.NodeReader.Node(owner, path, hash)]; [None] for an error. *)
Definition NodeReader : Type := Hash -> bytes -> Hash -> option bytes.

Record trieReader := mkReader {
  tr_owner : Hash;
  tr_reader : option NodeReader;
  banned : option (gset bytes);
}.

(** [database.NodeDatabase.NodeReader(stateRoot)]; [None] for an error. *)
Definition newTrieReader (db : Hash -> option NodeReader) (stateRoot owner : Hash) : trieReader + trieerror :=
  if (stateRoot =? 0) || (stateRoot =? EmptyRootHash) then inl (mkReader owner None None)
  else match db stateRoot with
       | None => inr (MissingNodeError owner stateRoot [])
       | Some r => inl (mkReader owner (Some r) None)
       end.

Definition reader_node (r : trieReader) (path : bytes) (hash : Hash) : bytes + trieerror :=
  let missing := MissingNodeError (tr_owner r) hash path in
  if match banned r with Some b => bool_decide (path ∈ b) | None => false end then inr missing
  else match tr_reader r with
       | None => inr missing
       | Some rd =>
           match rd (tr_owner r) path hash with
           | None => inr missing
           | Some blob => if len blob =? 0 then inr missing else inl blob
           end
       end.

(** ** Operations on nodes ([trie.go])

    They run on the state of the tracer; the nodes are arguments and results. *)

Abbreviation T A := (ST tracer (A + trieerror)).

Definition t_ret {A} (a : A) : T A := mret (inl a).
Definition t_err {A} (e : trieerror) : T A := mret (inr e).

(** [x, err := m; if err != nil { return ..., err }] *)
Definition t_bind {A B} (m : T A) (k : A -> T B) : T B :=
  fun s => match m s with
           | Ret (inl a, s) => k a s
           | Ret (inr e, s) => Ret (inr e, s)
           | Fail f => Fail f
           end.
Notation "'let?' p := m 'in' k" := (t_bind m (fun p => k)) (at level 10, p pattern, k at level 200).

Definition t_lift {A} (o : Outcome A) : T A := fun s => match o with Ret a => Ret (inl a, s) | Fail f => Fail f end.

(** [t.newFlag()] *)
Definition newFlag : nodeFlag := mkFlag None true.

(** [n.Children[i] = c] on the array of the children *)
Definition set_child (cs : list node) (i : Z) (c : node) : Outcome (list node) :=
  _ ← index cs i; Ret (<[Z.to_nat i := c]> cs).

(** [&fullNode{flags: t.newFlag()}] *)
Definition no_children : list node := replicate 17 nilNode.

(** [bytes.HasPrefix] *)
Definition HasPrefix (s prefix : bytes) : bool := bool_decide (take (length prefix) s = prefix).

Section nodes.
Variable reader : trieReader.

Definition resolveAndTrack (n : bytes) (prefix : bytes) : T node :=
  match reader_node reader prefix (BytesToHash n) with
  | inr e => t_err e
  | inl blob =>
      _ ← st_modify (onRead prefix blob);
      r ← st_lift (decodeNodeUnsafe (Some n) blob);
      match r with inl n => t_ret n | inr e => t_err (ErrDecode e) end
  end.

Definition resolve (n : node) (prefix : bytes) : T node :=
  match n with hashNode h => resolveAndTrack h prefix | _ => t_ret n end.

(** The value ([None] for nil), the node to use from now on and whether something was resolved. *)
Fixpoint get (fuel : nat) (origNode : node) (key : bytes) (pos : Z) : T (option bytes * node * bool) :=
  match fuel with
  | O => st_fail OutOfFuel
  | S fuel =>
      match origNode with
      | nilNode => t_ret (None, nilNode, false)
      | valueNode v => t_ret (Some v, valueNode v, false)
      | shortNode k v fl =>
          let? rest := t_lift (slice key pos (len key)) in
          if negb (HasPrefix rest k) then t_ret (None, origNode, false)
          else
            let? (value, newnode, didResolve) := get fuel v key (pos + len k) in
            t_ret (value, shortNode k (if didResolve : bool then newnode else v) fl, didResolve)
      | fullNode cs fl =>
          let? x := t_lift (index key pos) in
          let? c := t_lift (index cs x) in
          let? (value, newnode, didResolve) := get fuel c key (pos + 1) in
          let? cs := (if didResolve : bool then t_lift (set_child cs x newnode) else t_ret cs) in
          t_ret (value, fullNode cs fl, didResolve)
      | hashNode h =>
          let? path := t_lift (slice key 0 pos) in
          let? child := resolveAndTrack h path in
          let? (value, newnode, _) := get fuel child key pos in
          t_ret (value, newnode, true)
      end
  end.

(** [getNode]: the blob ([None] for nil), the new node and the number of resolved nodes. *)
Fixpoint getNode (fuel : nat) (origNode : node) (path : bytes) (pos : Z) : T (option bytes * node * Z) :=
  match fuel with
  | O => st_fail OutOfFuel
  | S fuel =>
      if is_nil origNode then t_ret (None, nilNode, 0)
      else if len path <=? pos then
        let? (cached, _) := t_lift (cache origNode) in
        match (match origNode with hashNode h => Some h | _ => cached end) with
        | None => t_err ErrNonConsensusNode
        | Some h =>
            match reader_node reader path (BytesToHash h) with
            | inr e => t_err e
            | inl blob => t_ret (Some blob, origNode, 1)
            end
        end
      else
        match origNode with
        | nilNode | valueNode _ => t_ret (None, nilNode, 0)
        | shortNode k v fl =>
            let? rest := t_lift (slice path pos (len path)) in
            if negb (HasPrefix rest k) then t_ret (None, origNode, 0)
            else
              let? (item, newnode, resolved) := getNode fuel v path (pos + len k) in
              t_ret (item, shortNode k (if 0 <? resolved then newnode else v) fl, resolved)
        | fullNode cs fl =>
            let? x := t_lift (index path pos) in
            let? c := t_lift (index cs x) in
            let? (item, newnode, resolved) := getNode fuel c path (pos + 1) in
            let? cs := (if 0 <? resolved then t_lift (set_child cs x newnode) else t_ret cs) in
            t_ret (item, fullNode cs fl, resolved)
        | hashNode h =>
            let? prefix := t_lift (slice path 0 pos) in
            let? child := resolveAndTrack h prefix in
            let? (item, newnode, resolved) := getNode fuel child path pos in
            t_ret (item, newnode, resolved + 1)
        end
  end.

(** Whether the trie changed, and the new node.  A failing [insert] has changed no node: a full node
    is written after the insertion below it succeeded, and nothing fails on the way up. *)
Fixpoint insert (fuel : nat) (n : node) (prefix key : bytes) (value : node) : T (bool * node) :=
  match fuel with
  | O => st_fail OutOfFuel
  | S fuel =>
      if len key =? 0 then
        match n, value with
        | valueNode v, valueNode w => t_ret (negb (bool_decide (v = w)), value)
        | valueNode _, _ => st_fail PanicExplicit
        | _, _ => t_ret (true, value)
        end
      else
        match n with
        | shortNode k v fl =>
            let matchlen := prefixLen key k in
            if (matchlen =? length k)%nat then
              let? (dirty, nn) := insert fuel v (prefix ++ take matchlen key) (drop matchlen key) value in
              if negb dirty then t_ret (false, n) else t_ret (true, shortNode k nn newFlag)
            else
              let? kx := t_lift (index k (Z.of_nat matchlen)) in
              let? (_, c1) := insert fuel nilNode (prefix ++ take (matchlen + 1) k) (drop (matchlen + 1) k) v in
              let? cs := t_lift (set_child no_children kx c1) in
              let? x := t_lift (index key (Z.of_nat matchlen)) in
              let? (_, c2) := insert fuel nilNode (prefix ++ take (matchlen + 1) key) (drop (matchlen + 1) key) value in
              let? cs := t_lift (set_child cs x c2) in
              let branch := fullNode cs newFlag in
              if (matchlen =? 0)%nat then t_ret (true, branch)
              else
                _ ← st_modify (onInsert (prefix ++ take matchlen key));
                t_ret (true, shortNode (take matchlen key) branch newFlag)
        | fullNode cs fl =>
            let? x := t_lift (index key 0) in
            let? c := t_lift (index cs x) in
            let? (dirty, nn) := insert fuel c (prefix ++ [x]) (drop 1 key) value in
            if negb dirty then t_ret (false, n)
            else let? cs := t_lift (set_child cs x nn) in t_ret (true, fullNode cs newFlag)
        | nilNode =>
            _ ← st_modify (onInsert prefix);
            t_ret (true, shortNode key value newFlag)
        | hashNode h =>
            let? rn := resolveAndTrack h prefix in
            let? (dirty, nn) := insert fuel rn prefix key value in
            if negb dirty then t_ret (false, rn) else t_ret (true, nn)
        | valueNode _ => st_fail PanicExplicit
        end
  end.

(** The result of [delete]: [DelErr n e] leaves [n] where the node was. *)
Inductive delResult :=
  | DelOk (dirty : bool) (n : node)
  | DelErr (n : node) (e : trieerror).

(** The loop that looks for the last child: its index, -2 if there are several. *)
Fixpoint lastChild (i pos : Z) (cs : list node) : Z :=
  match cs with
  | [] => pos
  | cld :: cs =>
      if is_nil cld then lastChild (i + 1) pos cs
      else if pos =? -1 then lastChild (i + 1) i cs
      else -2
  end.

(** The reduction of a full node that lost a child: [cs] are the children that are left. *)
Definition reduceFull (cs : list node) (prefix : bytes) : ST tracer delResult :=
  let n := fullNode cs newFlag in
  let pos := lastChild 0 (-1) cs in
  if 0 <=? pos then
    c ← st_lift (index cs pos);
    if negb (pos =? 16) then
      r ← resolve c (prefix ++ [pos]);
      match r with
      | inr e => mret (DelErr n e)
      | inl (shortNode ck cv _) =>
          _ ← st_modify (onDelete (prefix ++ [pos]));
          mret (DelOk true (shortNode (pos :: ck) cv newFlag))
      | inl _ => mret (DelOk true (shortNode [pos] c newFlag))
      end
    else mret (DelOk true (shortNode [pos] c newFlag))
  else mret (DelOk true n).

Fixpoint delete (fuel : nat) (n : node) (prefix key : bytes) : ST tracer delResult :=
  match fuel with
  | O => st_fail OutOfFuel
  | S fuel =>
      match n with
      | shortNode k v fl =>
          let matchlen := prefixLen key k in
          if (matchlen <? length k)%nat then mret (DelOk false n)
          else if (matchlen =? length key)%nat then
            _ ← st_modify (onDelete prefix); mret (DelOk true nilNode)
          else
            r ← delete fuel v (prefix ++ take (length k) key) (drop (length k) key);
            match r with
            | DelErr v e => mret (DelErr (shortNode k v fl) e)
            | DelOk false _ => mret (DelOk false n)
            | DelOk true (shortNode ck cv _) =>
                _ ← st_modify (onDelete (prefix ++ k));
                mret (DelOk true (shortNode (k ++ ck) cv newFlag))
            | DelOk true child => mret (DelOk true (shortNode k child newFlag))
            end
      | fullNode cs fl =>
          x ← st_lift (index key 0);
          c ← st_lift (index cs x);
          r ← delete fuel c (prefix ++ [x]) (drop 1 key);
          match r with
          | DelErr c e => cs ← st_lift (set_child cs x c); mret (DelErr (fullNode cs fl) e)
          | DelOk false _ => mret (DelOk false n)
          | DelOk true nn =>
              cs ← st_lift (set_child cs x nn);
              if negb (is_nil nn) then mret (DelOk true (fullNode cs newFlag))
              else reduceFull cs prefix
          end
      | valueNode _ => mret (DelOk true nilNode)
      | nilNode => mret (DelOk false nilNode)
      | hashNode h =>
          r ← resolveAndTrack h prefix;
          match r with
          | inr e => mret (DelErr n e)
          | inl rn =>
              r ← delete fuel rn prefix key;
              match r with
              | DelErr _ e => mret (DelErr n e)
              | DelOk false _ => mret (DelOk false rn)
              | DelOk true nn => mret (DelOk true nn)
              end
          end
      end
  end.
End nodes.

(** ** The trie *)

Record Trie := mkTrie {
  root : node;
  owner : Hash;
  committed : bool;
  unhashed : Z;
  uncommitted : Z;
  reader : trieReader;
  t_tracer : tracer;
}.

Definition set_root (n : node) (t : Trie) : Trie :=
  mkTrie n (owner t) (committed t) (unhashed t) (uncommitted t) (reader t) (t_tracer t).
Definition set_tracer (tr : tracer) (t : Trie) : Trie :=
  mkTrie (root t) (owner t) (committed t) (unhashed t) (uncommitted t) (reader t) tr.
Definition set_unhashed (n : Z) (t : Trie) : Trie :=
  mkTrie (root t) (owner t) (committed t) n (uncommitted t) (reader t) (t_tracer t).

(** Runs an operation on nodes with the trie's tracer. *)
Definition with_tracer {A} (m : ST tracer A) : ST Trie A := fun t =>
  match m (t_tracer t) with
  | Ret (a, tr) => Ret (a, set_tracer tr t)
  | Fail f => Fail f
  end.

(** Every second call of the recursion consumes at least one nibble of the key. *)
Definition keyFuel (k : bytes) : nat := 2 * length k + 2.

(** The identifier of a trie ([trie_id.go]). *)
Record ID := mkID { StateRoot : Hash; Owner : Hash; Root : Hash }.

Definition New (id : ID) (db : Hash -> option NodeReader) : Outcome (Trie + trieerror) :=
  match newTrieReader db (StateRoot id) (Owner id) with
  | inr e => Ret (inr e)
  | inl rd =>
      let trie := mkTrie nilNode (Owner id) false 0 0 rd newTracer in
      if (Root id =? 0) || (Root id =? EmptyRootHash) then Ret (inl trie)
      else
        '(r, tr) ← resolveAndTrack rd (Hash_Bytes (Root id)) [] newTracer;
        match r with
        | inr e => Ret (inr e)
        | inl rootnode => Ret (inl (set_root rootnode (set_tracer tr trie)))
        end
  end.

Definition Get (key : bytes) : ST Trie (option bytes + trieerror) :=
  t ← st_get;
  if committed t then mret (inr ErrCommitted)
  else
    let k := keybytesToHex key in
    r ← with_tracer (get (reader t) (keyFuel k) (root t) k 0);
    match r with
    | inr e => mret (inr e)
    | inl (value, newroot, didResolve) =>
        _ ← (if didResolve : bool then st_modify (set_root newroot) else mret tt);
        mret (inl value)
    end.

Definition GetNode (path : bytes) : ST Trie ((option bytes * Z) + trieerror) :=
  t ← st_get;
  if committed t then mret (inr ErrCommitted)
  else
    k ← st_lift (compactToHex path);
    r ← with_tracer (getNode (reader t) (keyFuel k) (root t) k 0);
    match r with
    | inr e => mret (inr e)
    | inl (item, newroot, resolved) =>
        _ ← (if 0 <? resolved then st_modify (set_root newroot) else mret tt);
        mret (inl (item, resolved))
    end.

(** [t.unhashed++; t.uncommitted++] *)
Definition count_update (t : Trie) : Trie :=
  mkTrie (root t) (owner t) (committed t) (unhashed t + 1) (uncommitted t + 1) (reader t) (t_tracer t).

(** The call of [delete] on the root: a failing one leaves a changed tree behind. *)
Definition delete_root (k : bytes) : ST Trie (option trieerror) :=
  t ← st_get;
  r ← with_tracer (delete (reader t) (keyFuel k) (root t) [] k);
  match r with
  | DelErr n e => _ ← st_modify (set_root n); mret (Some e)
  | DelOk _ n => _ ← st_modify (set_root n); mret None
  end.

(** [update]: [None] is the nil error. *)
Definition update (key value : bytes) : ST Trie (option trieerror) :=
  _ ← st_modify count_update;
  t ← st_get;
  let k := keybytesToHex key in
  if negb (len value =? 0) then
    r ← with_tracer (insert (reader t) (keyFuel k) (root t) [] k (valueNode value));
    match r with
    | inr e => mret (Some e)
    | inl (_, n) => _ ← st_modify (set_root n); mret None
    end
  else delete_root k.

Definition Update (key value : bytes) : ST Trie (option trieerror) :=
  t ← st_get;
  if committed t then mret (Some ErrCommitted) else update key value.

Definition Delete (key : bytes) : ST Trie (option trieerror) :=
  t ← st_get;
  if committed t then mret (Some ErrCommitted)
  else _ ← st_modify count_update; delete_root (keybytesToHex key).

(** [Reset] keeps the reader. *)
Definition Reset (t : Trie) : Trie := mkTrie nilNode 0 false 0 0 (reader t) newTracer.

(** [Witness]: the blobs that were read. *)
Definition Witness (t : Trie) : gset bytes := list_to_set (map_to_list (accessList (t_tracer t))).*2.

Section hash_root.
Context `{C : Crypto}.

Definition hashRoot : ST Trie node :=
  t ← st_get;
  match root t with
  | nilNode => mret (hashNode (Hash_Bytes EmptyRootHash))
  | n =>
      '(hashed, n) ← st_lift (hash n true);
      _ ← st_modify (fun t => set_unhashed 0 (set_root n t));
      mret hashed
  end.

(** [Hash]: the type assertion panics if the root is a value. *)
Definition Trie_Hash : ST Trie Hash :=
  n ← hashRoot;
  match n with hashNode h => mret (BytesToHash h) | _ => st_fail PanicExplicit end.
End hash_root.
