(* ===== verification/TrieSpec.v ===== *)
(** * What a trie stores

    The reference for the trie: a finite tree over hex keys, the lookup it defines, the canonical
    form that insertions and deletions keep, and the encoding and hash of a tree (the definition of
    the Merkle Patricia trie).  Canonical trees with the same content are equal, and trees with the
    same hash are equal unless the hash function has a collision. *)

From S2P Require Import Prelude Bytes Rlp RlpTheorems VM TrieKeys TrieNode Trie.

Set Default Proof Using "Type".

(** ** Trees *)

Inductive tree :=
  | TNil
  | TVal (v : bytes)
  | TShort (k : bytes) (t : tree)
  | TFull (ts : list tree).

#[global] Instance tnil_dec (t : tree) : Decision (t = TNil).
Proof. destruct t; [by left|by right..]. Defined.

(** The list of a full node, at the index that a nibble gives. *)
Definition child_index (x : Z) : option nat := if (0 <=? x) then Some (Z.to_nat x) else None.
Definition child_at (ts : list tree) (x : Z) : tree :=
  match child_index x with Some i => default TNil (ts !! i) | None => TNil end.

Fixpoint tlookup (t : tree) (key : bytes) : option bytes :=
  match t with
  | TNil => None
  | TVal v => match key with [] => Some v | _ => None end
  | TShort k t => if HasPrefix key k then tlookup t (drop (length k) key) else None
  | TFull ts =>
      match key with
      | [] => None
      | x :: rest =>
          match child_index x with
          | None => None
          | Some i =>
              (fix go (ts : list tree) (i : nat) : option bytes :=
                 match ts, i with
                 | [], _ => None
                 | t :: _, O => tlookup t rest
                 | _ :: ts, S i => go ts i
                 end) ts i
          end
      end
  end.

Lemma tlookup_full ts x rest : tlookup (TFull ts) (x :: rest) = tlookup (child_at ts x) rest.
Proof.
  cbn [tlookup]. unfold child_at. destruct (child_index x) as [i|]; [|done].
  revert i. induction ts as [|t ts IH]; intros [|i]; done.
Qed.

Lemma tlookup_full_nil ts : tlookup (TFull ts) [] = None.
Proof. done. Qed.

Lemma HasPrefix_app k r : HasPrefix (k ++ r) k = true.
Proof. unfold HasPrefix. by rewrite take_app_length, bool_decide_eq_true_2. Qed.

Lemma HasPrefix_inv s k : HasPrefix s k = true -> s = k ++ drop (length k) s.
Proof. unfold HasPrefix. intros H%bool_decide_eq_true. rewrite <- H at 1. by rewrite take_drop. Qed.

Lemma tlookup_short k t r : tlookup (TShort k t) (k ++ r) = tlookup t r.
Proof. cbn [tlookup]. by rewrite HasPrefix_app, drop_app_length. Qed.

Lemma tlookup_short_inv k t key v : tlookup (TShort k t) key = Some v -> exists r, key = k ++ r /\ tlookup t r = Some v.
Proof. cbn [tlookup]. destruct (HasPrefix key k) eqn:E; [|done]. intros H. eexists. split; [by apply HasPrefix_inv|done]. Qed.

Lemma tlookup_val v r w : tlookup (TVal v) r = Some w -> r = [] /\ w = v.
Proof. destruct r; [|done]. intros [= ->]. done. Qed.

(** ** Canonical form

    Every subtree is of one of three shapes: a leaf, whose key ends with the terminator; an
    extension, nibbles leading to a full node; a full node with at least two children, the last of
    which is its own value.  [D] bounds the length of the keys; keys and values shorter than [maxLen]
    keep every length of an encoding in 64 bits. *)

Definition maxLen : Z := 2 ^ 56.
Definition val_ok (v : bytes) : Prop := v <> [] /\ Forall is_byte v /\ len v < maxLen.

Definition is_tnil (t : tree) : bool := match t with TNil => true | _ => false end.

Inductive canon : Z -> tree -> Prop :=
  | canon_nil D : canon D TNil
  | canon_leaf D ns v : Forall is_nibble ns -> val_ok v -> len ns + 1 <= D ->
      canon D (TShort (ns ++ [16]) (TVal v))
  | canon_ext D ns ts : ns <> [] -> Forall is_nibble ns -> canon (D - len ns) (TFull ts) ->
      canon D (TShort ns (TFull ts))
  | canon_full D ts i j : 1 <= D -> length ts = 17%nat ->
      (forall i t, (i < 16)%nat -> ts !! i = Some t -> canon (D - 1) t) ->
      (ts !! 16%nat = Some TNil \/ exists v, ts !! 16%nat = Some (TVal v) /\ val_ok v) ->
      i <> j -> (exists t, ts !! i = Some t /\ t <> TNil) -> (exists t, ts !! j = Some t /\ t <> TNil) ->
      canon D (TFull ts).

(** ** Canonical trees are determined by their content *)

Lemma child_at_lookup ts (i : nat) t : ts !! i = Some t -> child_at ts (Z.of_nat i) = t.
Proof.
  intros H. unfold child_at, child_index. rewrite (proj2 (Z.leb_le 0 (Z.of_nat i))) by lia.
  by rewrite Nat2Z.id, H.
Qed.

Lemma canon_full_inv D ts : canon D (TFull ts) -> 1 <= D /\ length ts = 17%nat /\
  (forall i t, (i < 16)%nat -> ts !! i = Some t -> canon (D - 1) t) /\
  (ts !! 16%nat = Some TNil \/ exists v, ts !! 16%nat = Some (TVal v) /\ val_ok v) /\
  exists i j, i <> j /\ (exists t, ts !! i = Some t /\ t <> TNil) /\ (exists t, ts !! j = Some t /\ t <> TNil).
Proof. intros H. inversion H; subst. eauto 10. Qed.

(** A child of a full node is a canonical tree or the value. *)
Lemma canon_child D ts i t : canon D (TFull ts) -> ts !! i = Some t ->
  ((i < 16)%nat /\ canon (D - 1) t) \/ (i = 16%nat /\ (t = TNil \/ exists v, t = TVal v /\ val_ok v)).
Proof.
  intros (_ & Hl & Hc & Hv & _)%canon_full_inv Hi. pose proof (lookup_lt_Some _ _ _ Hi).
  destruct (decide (i = 16%nat)) as [->|]; [right|left; split; [lia|apply (Hc i t); [lia|done]]].
  split; [done|]. destruct Hv as [E|(v & E & Hv)]; rewrite E in Hi; injection Hi as <-; [by left|right; by exists v].
Qed.

(** Every subtree stores something. *)
Lemma canon_has_key D t : canon D t -> t <> TNil -> exists key v, tlookup t key = Some v.
Proof.
  induction 1 as [|D ns v Hn Hv Hl|D ns ts Hne Hn Hc IH|D ts i j HD Hl Hc IH Hv Hij (t & Hi & Ht) Hj]; intros Hnil.
  - done.
  - exists ((ns ++ [16]) ++ []), v. by rewrite tlookup_short.
  - destruct IH as (key & v & E); [done|]. exists (ns ++ key), v. by rewrite tlookup_short.
  - assert (H : exists key v, tlookup t key = Some v).
    { destruct (canon_child D ts i t) as [[Hlt Hct]|[-> [->|(v & -> & _)]]];
        [by apply (canon_full D ts i j); eauto|done|by eapply IH|done|by exists [], v]. }
    destruct H as (key & v & E). exists (Z.of_nat i :: key), v. rewrite tlookup_full, (child_at_lookup _ _ _ Hi). done.
Qed.

(** A full node stores two keys that differ in the first nibble. *)
Lemma canon_full_two D ts : canon D (TFull ts) -> exists x y r s v w, x <> y /\
  tlookup (TFull ts) (x :: r) = Some v /\ tlookup (TFull ts) (y :: s) = Some w.
Proof.
  intros Hcan. pose proof (canon_full_inv _ _ Hcan) as (_ & _ & _ & _ & i & j & Hij & (t & Hi & Ht) & (u & Hj & Hu)).
  assert (H : forall i t, ts !! i = Some t -> t <> TNil -> exists r v, tlookup (TFull ts) (Z.of_nat i :: r) = Some v).
  { intros k t' Hk Ht'. enough (exists r v, tlookup t' r = Some v) as (r & v & E)
      by (exists r, v; by rewrite tlookup_full, (child_at_lookup _ _ _ Hk)).
    destruct (canon_child D ts k t' Hcan Hk) as [[_ Hct]|[-> [->|(v & -> & _)]]]; [|done|by exists [], v].
    by apply (canon_has_key (D - 1)). }
  destruct (H i t Hi Ht) as (r & v & Er), (H j u Hj Hu) as (s & w & Es).
  exists (Z.of_nat i), (Z.of_nat j), r, s, v, w. split; [lia|done].
Qed.

Lemma app_prefix_cases {A} `{!EqDecision A} (k1 k2 r1 r2 : list A) : k1 ++ r1 = k2 ++ r2 ->
  (exists s, k2 = k1 ++ s /\ r1 = s ++ r2) \/ (exists s, k1 = k2 ++ s /\ r2 = s ++ r1).
Proof.
  revert k2. induction k1 as [|x k1 IH]; intros k2 E.
  - left. by exists k2.
  - destruct k2 as [|y k2]; [right; by exists (x :: k1)|]. cbn in E. injection E as -> E.
    destruct (IH k2 E) as [(s & -> & ->)|(s & -> & ->)]; [left|right]; by exists s.
Qed.

(** All the keys of a full node start with the same nibble: impossible. *)
Lemma full_not_one_prefix D ts x : canon D (TFull ts) ->
  (forall key v, tlookup (TFull ts) key = Some v -> exists r, key = x :: r) -> False.
Proof.
  intros Hc H. destruct (canon_full_two D ts Hc) as (a & b & r & s & v & w & Hne & Ea & Eb).
  apply H in Ea as [? ?], Eb as [? ?]. congruence.
Qed.

Lemma full_ne_short D ts k t : canon D (TFull ts) -> k <> [] ->
  (forall key, tlookup (TFull ts) key = tlookup (TShort k t) key) -> False.
Proof.
  intros Hc Hk H. destruct k as [|x k]; [done|]. apply (full_not_one_prefix D ts x Hc).
  intros key v E. rewrite H in E. apply tlookup_short_inv in E as (r & -> & _). by exists (k ++ r).
Qed.

(** Two extensions with the same content have the same key. *)
Lemma ext_same_key D1 D2 ts1 ts2 k1 k2 : canon D1 (TFull ts1) -> canon D2 (TFull ts2) ->
  (forall key, tlookup (TShort k1 (TFull ts1)) key = tlookup (TShort k2 (TFull ts2)) key) -> k1 = k2.
Proof.
  intros H1 H2 H.
  assert (Hpre : forall D k k' s ts ts', canon D (TFull ts) -> k' = k ++ s ->
    (forall key, tlookup (TShort k (TFull ts)) key = tlookup (TShort k' (TFull ts')) key) -> s = []).
  { intros D k k' s ts ts' Hc -> Hk. destruct s as [|x s]; [done|]. exfalso. apply (full_not_one_prefix D ts x Hc).
    intros key v E. rewrite <- (tlookup_short k) in E. rewrite Hk in E.
    apply tlookup_short_inv in E as (r & Er & _). rewrite <- app_assoc in Er. apply app_inv_head in Er. by exists (s ++ r). }
  destruct (canon_has_key D1 (TFull ts1) H1) as (key & v & E); [done|].
  pose proof E as E'. rewrite <- (tlookup_short k1), H in E'. apply tlookup_short_inv in E' as (r & Er & _).
  apply app_prefix_cases in Er as [(s & Es & _)|(s & Es & _)].
  - rewrite (Hpre D1 k1 k2 s ts1 ts2) in Es; [by rewrite app_nil_r in Es|done..].
  - rewrite (Hpre D2 k2 k1 s ts2 ts1) in Es; [by rewrite app_nil_r in Es|done|done|]. intros. by rewrite H.
Qed.

Lemma leaf_ne_full D ts k v key0 : canon D (TFull ts) ->
  (forall key, tlookup (TShort key0 (TFull ts)) key = tlookup (TShort k (TVal v)) key) -> False.
Proof.
  intros Hc H. destruct (canon_full_two D ts Hc) as (a & b & r & s & v1 & v2 & Hne & Ea & Eb).
  rewrite <- (tlookup_short key0), H in Ea. rewrite <- (tlookup_short key0), H in Eb.
  apply tlookup_short_inv in Ea as (r1 & E1 & [-> _]%tlookup_val).
  apply tlookup_short_inv in Eb as (r2 & E2 & [-> _]%tlookup_val).
  rewrite <- E2 in E1. apply app_inv_head in E1. congruence.
Qed.

Lemma canon_short_key D k t : canon D (TShort k t) -> k <> [].
Proof. inversion 1; subst; [|done]. by destruct ns. Qed.

Lemma canon_unique D t1 : canon D t1 -> forall D' t2, canon D' t2 ->
  (forall key, tlookup t1 key = tlookup t2 key) -> t1 = t2.
Proof.
  induction 1 as [|D ns v Hn Hv Hl|D ns ts Hne Hn Hc IH|D ts i j HD Hl Hc IH Hv Hij Hi Hj]; intros D' t2 H2 Heq.
  - destruct (decide (is_tnil t2 = true)) as [E|E]; [by destruct t2|].
    destruct (canon_has_key D' t2 H2) as (key & v & Ek); [by destruct t2|]. by rewrite <- Heq in Ek.
  - pose proof (Heq ((ns ++ [16]) ++ [])) as E. rewrite tlookup_short in E. cbn [tlookup] in E. symmetry in E.
    inversion H2 as [|? ns' v' Hn' Hv' Hl'|? ns' ts' Hne' Hn' Hc'|? ts' ? ? ? ? ? ? ? ? ?]; subst.
    + done.
    + apply tlookup_short_inv in E as (r & Er & [-> ->]%tlookup_val). rewrite !app_nil_r in Er. by rewrite Er.
    + exfalso. by eapply (leaf_ne_full _ ts'); [done|].
    + exfalso. eapply (full_ne_short D' ts'); [done| |intros; symmetry; apply Heq]. by destruct ns.
  - inversion H2 as [|? ns' v' Hn' Hv' Hl'|? ns' ts' Hne' Hn' Hc'|? ts' ? ? ? ? ? ? ? ? ?]; subst.
    + destruct (canon_has_key (D - len ns) (TFull ts) Hc) as (key & v & Ek); [done|].
      rewrite <- (tlookup_short ns), Heq in Ek. done.
    + exfalso. by eapply (leaf_ne_full _ ts).
    + assert (ns = ns') as <- by by eapply (ext_same_key _ _ ts ts').
      f_equal. eapply IH; [done|]. intros key. by rewrite <- (tlookup_short ns (TFull ts)), <- (tlookup_short ns (TFull ts')).
    + exfalso. eapply (full_ne_short D' ts'); [done|done|intros; symmetry; apply Heq].
  - assert (Hcan : canon D (TFull ts)) by (by apply (canon_full D ts i j)).
    destruct (canon_has_key D (TFull ts) Hcan) as (key0 & v0 & E0); [done|].
    destruct t2 as [|v2|k2 t2|ts2]; [by rewrite Heq in E0|by inversion H2| |].
    + exfalso. eapply (full_ne_short D ts k2 t2); [done|by eapply canon_short_key|done].
    + f_equal. pose proof (canon_full_inv _ _ H2) as (_ & Hl2 & _ & _ & _).
      apply list_eq_same_length with 17%nat; [done|done|]. intros m a b Hm Ha Hb.
      assert (Hk : forall key, tlookup a key = tlookup b key).
      { intros key. pose proof (Heq (Z.of_nat m :: key)) as E.
        by rewrite !tlookup_full, (child_at_lookup _ _ _ Ha), (child_at_lookup _ _ _ Hb) in E. }
      destruct (canon_child D ts m a Hcan Ha) as [[Hlt Hca]|[-> Ha']], (canon_child D' ts2 _ b H2 Hb) as [[Hlt' Hcb]|[Em Hb']]; try lia.
      * by eapply IH.
      * destruct Ha' as [->|(va & -> & _)], Hb' as [->|(vb & -> & _)]; specialize (Hk []); cbn in Hk; congruence.
Qed.

(** ** Encoding and hash *)

Section hash.
Context `{C : Crypto}.

(** A reference to a node from its parent: the node itself if it is small, its hash otherwise. *)
Definition ref_of (it : item) : item :=
  if len (encode it) <? 32 then it else Str (hashData (encode it)).

Definition compact (k : bytes) : bytes := match hexToCompact k with Ret c => c | Fail _ => [] end.

Fixpoint titem (t : tree) : item :=
  let tref t := match t with TNil => Str [] | TVal v => Str v | _ => ref_of (titem t) end in
  match t with
  | TNil => Str []
  | TVal v => Str v
  | TShort k t => Lst [Str (compact k); tref t]
  | TFull ts => Lst (map tref ts)
  end.

Definition tref (t : tree) : item := match t with TNil => Str [] | TVal v => Str v | _ => ref_of (titem t) end.

(** The encoding of a node, the bytes of its hash, the root hash of a tree. *)
Definition tenc (t : tree) : bytes := encode (titem t).
Definition thash (t : tree) : bytes := hashData (tenc t).
Definition troot (t : tree) : Hash := match t with TNil => EmptyRootHash | _ => Keccak256 (tenc t) mod two256 end.

Lemma titem_short k t : titem (TShort k t) = Lst [Str (compact k); tref t].
Proof. by destruct t. Qed.
Lemma titem_full ts : titem (TFull ts) = Lst (tref <$> ts).
Proof. done. Qed.

(** ** Bounds on the encoding *)

Lemma hashData_length d : len (hashData d) = 32.
Proof. unfold hashData, Hash_Bytes, len. by rewrite be_bytes_length. Qed.

Lemma hashData_bytes d : Forall is_byte (hashData d).
Proof. apply be_bytes_bytes. Qed.

Lemma puthead_len_bound t1 t2 n : is_u64 n -> 1 <= len (puthead t1 t2 n) <= 9.
Proof.
  intros Hn. rewrite len_puthead by (unfold_u64; lia). case_if; [lia|].
  rewrite putint_len by done. destruct (intsize_spec n Hn) as (? & _). lia.
Qed.

Lemma encode_bytes_len d : is_u64 (len d) -> len d <= len (encode_bytes d) <= len d + 9.
Proof.
  intros Hd. pose proof (puthead_len_bound 128 183 (len d) Hd) as Hp.
  destruct d as [|x [|y d]]; cbn [encode_bytes]; [..|].
  - rewrite len_app. lia.
  - case_if; [cbn; lia|]. rewrite len_app. lia.
  - rewrite len_app. lia.
Qed.

Lemma encode_list_len l : is_u64 (len (concat (encode <$> l))) ->
  len (encode (Lst l)) <= len (concat (encode <$> l)) + 9.
Proof.
  intros Hu. cbn [encode]. rewrite len_app. pose proof (puthead_len_bound 192 247 _ Hu). lia.
Qed.

Lemma concat_len_bound B l : Forall (fun it => len (encode it) <= B) l -> len (concat (encode <$> l)) <= B * len l.
Proof.
  induction 1 as [|it l Hit Hl IH]; [change (0 <= B * 0); lia|]. rewrite fmap_cons. cbn [concat]. rewrite len_app, len_cons. lia.
Qed.

(** What the proofs need of an encoded item. *)
Record enc_fine (it : item) (B : Z) : Prop := { ef_ok : item_ok it; ef_len : len (encode it) <= B }.

Lemma enc_str d B : Forall is_byte d -> len d + 9 <= B -> B < two64 -> enc_fine (Str d) B.
Proof.
  intros Hd Hl HB. split; [by constructor|]. cbn [encode]. pose proof (len_nonneg d).
  pose proof (encode_bytes_len d). unfold_u64. lia.
Qed.

Lemma enc_lst l B : Forall (fun it => enc_fine it B) l -> B * len l < two64 -> 0 <= B -> enc_fine (Lst l) (B * len l + 9).
Proof.
  intros Hl HB H0. assert (Hc : len (concat (encode <$> l)) <= B * len l).
  { apply concat_len_bound. eapply Forall_impl; [done|]. by intros it []. }
  split; [constructor; eapply Forall_impl; [done|]; by intros it []|].
  etrans; [apply encode_list_len|lia]. pose proof (len_nonneg (concat (encode <$> l))). unfold_u64. lia.
Qed.

Lemma ref_of_fine it B : enc_fine it B -> enc_fine (ref_of it) 41.
Proof.
  intros [Hok _]. unfold ref_of. case_if; bool_to_Z.
  - split; [done|lia].
  - apply enc_str; [apply hashData_bytes|rewrite hashData_length; lia|done].
Qed.

Lemma compact_fine k : hex_ok k -> hexToCompact k = Ret (compact k) /\ Forall is_byte (compact k) /\
  len (compact k) <= len k + 1 /\ compactToHex (compact k) = Ret k.
Proof.
  intros Hk. destruct (hexToCompact_ok k Hk) as (c & E & Hb & E' & Hl & _). unfold compact. rewrite E.
  split_and!; try done. pose proof (len_nonneg k). assert (len k / 2 <= len k) by (apply Z.div_le_upper_bound; lia). lia.
Qed.

Lemma canon_D D t : canon D t -> t <> TNil -> 0 <= D.
Proof.
  induction 1 as [|D ns v Hn Hv Hl|D ns ts Hne Hn Hc IH|D ts i j HD]; intros ?; [done| | |lia].
  - pose proof (len_nonneg ns). lia.
  - pose proof (len_nonneg ns). specialize (IH ltac:(done)). lia.
Qed.

Lemma val_fine v : val_ok v -> enc_fine (Str v) (maxLen + 9).
Proof. intros (_ & Hb & Hl). apply enc_str; [done|lia|done]. Qed.

Lemma enc_fine_mono it B B' : enc_fine it B -> B <= B' -> enc_fine it B'.
Proof. intros [? ?] ?. split; [done|lia]. Qed.

Definition encMax : Z := 17 * (maxLen + 100) + 9.

Lemma canon_fine D t : canon D t -> D <= maxLen -> t <> TNil -> enc_fine (titem t) encMax.
Proof.
  intros Hc. induction Hc as [|D ns v Hn Hv Hl|D ns ts Hne Hn Hc IH|D ts i j HD Hl Hc IH Hv Hij Hi Hj]; intros HD' Hnil.
  - done.
  - rewrite titem_short. destruct (compact_fine (ns ++ [16])) as (_ & Hb & Hlc & _); [exists ns; auto|].
    rewrite len_app in Hlc. change (len [16]) with 1 in Hlc.
    eapply enc_fine_mono; [apply (enc_lst _ (maxLen + 100))|..]; [|done|done|done].
    apply Forall_cons; split; [apply enc_str; [done|lia|done]|apply Forall_singleton].
    eapply enc_fine_mono; [by apply val_fine|lia].
  - rewrite titem_short. pose proof (len_nonneg ns). pose proof (canon_D _ _ Hc ltac:(done)).
    destruct (compact_fine ns) as (_ & Hb & Hlc & _); [exists ns; auto|].
    eapply enc_fine_mono; [apply (enc_lst _ (maxLen + 100))|..]; [|done|done|done].
    apply Forall_cons; split; [apply enc_str; [done|lia|done]|apply Forall_singleton].
    eapply enc_fine_mono; [eapply ref_of_fine, IH; [lia|done]|done].
  - rewrite titem_full. unfold encMax. eapply enc_fine_mono; [apply (enc_lst _ (maxLen + 100))|..].
    + apply Forall_fmap, Forall_lookup. intros m t Hm. cbn.
      destruct (canon_child D ts m t) as [[Hlt Hct]|[-> Ht]]; [by apply (canon_full D ts i j)|done| |].
      * destruct (decide (t = TNil)) as [->|]; [by apply enc_str|].
        assert (Hf : enc_fine (ref_of (titem t)) (maxLen + 100)).
        { eapply enc_fine_mono; [eapply ref_of_fine, (IH m t); [done|done|lia|done]|done]. }
        destruct t; try done. inversion Hct.
      * destruct Ht as [->|(v & -> & Hv')]; [by apply enc_str|].
        eapply enc_fine_mono; [by apply val_fine|lia].
    + unfold len. by rewrite length_fmap, Hl.
    + done.
    + unfold len. rewrite length_fmap, Hl. done.
Qed.

Lemma encMax_u64 z : 0 <= z <= encMax -> is_u64 z.
Proof. unfold is_u64, encMax, maxLen, two64. lia. Qed.

(** ** The hash binds the content *)

(** Two different byte strings of the set [D] with the same hash.  Over all byte strings there are such pairs; the
    theorems say it of the finite sets of data that are hashed, where a pair is a collision that was found. *)
Definition hash_collision (D : bytes -> Prop) : Prop := exists x y, D x /\ D y /\ x <> y /\ hashData x = hashData y.

Lemma hash_collision_mono (D D' : bytes -> Prop) : (forall x, D x -> D' x) -> hash_collision D -> hash_collision D'.
Proof. intros H (x & y & Hx & Hy & Hne & E). exists x, y. auto. Qed.

Lemma hashData_inj (D : bytes -> Prop) x y : D x -> D y -> hashData x = hashData y -> x = y \/ hash_collision D.
Proof. intros Hx Hy E. destruct (decide (x = y)); [by left|right; by exists x, y]. Qed.

(** The short and full nodes of a tree *)
Inductive node_in : tree -> tree -> Prop :=
  | in_short k t : node_in (TShort k t) (TShort k t)
  | in_full ts : node_in (TFull ts) (TFull ts)
  | in_short_child k t s : node_in s t -> node_in s (TShort k t)
  | in_full_child ts i t s : ts !! i = Some t -> node_in s t -> node_in s (TFull ts).

(** Their encodings are in the set *)
Definition covers (D : bytes -> Prop) (t : tree) : Prop := forall s, node_in s t -> D (tenc s).

Lemma covers_short D k t : covers D (TShort k t) -> covers D t.
Proof. intros H s Hs. by apply H, in_short_child. Qed.
Lemma covers_full D ts i t : covers D (TFull ts) -> ts !! i = Some t -> covers D t.
Proof. intros H Hi s Hs. by apply H, (in_full_child ts i t). Qed.
Lemma covers_self D K t : covers D t -> canon K t -> t <> TNil -> D (tenc t).
Proof. intros H Hc Hn. apply H. destruct Hc; [done|apply in_short|apply in_short|apply in_full]. Qed.

Lemma list_eq_or {A} (P : Prop) (l1 l2 : list A) : length l1 = length l2 ->
  (forall i a b, l1 !! i = Some a -> l2 !! i = Some b -> a = b \/ P) -> l1 = l2 \/ P.
Proof.
  revert l2. induction l1 as [|a l1 IH]; intros [|b l2] Hl H; try done; [by left|].
  destruct (H 0%nat a b) as [->|?]; [done|done| |by right].
  destruct (IH l2) as [->|?]; [cbn in Hl; lia| |by left|by right]. intros i. apply (H (S i)).
Qed.

Lemma encode_inj it1 it2 : enc_fine it1 encMax -> enc_fine it2 encMax -> encode it1 = encode it2 -> it1 = it2.
Proof.
  intros [H1 L1] [H2 L2] E. apply (encode_prefix_free it1 it2 [] []); rewrite ?app_nil_r; try done.
  apply encMax_u64. pose proof (len_nonneg (encode it1)). lia.
Qed.

Lemma compact_inj k1 k2 : hex_ok k1 -> hex_ok k2 -> compact k1 = compact k2 -> k1 = k2.
Proof.
  intros H1 H2 E. destruct (compact_fine k1 H1) as (_ & _ & _ & E1), (compact_fine k2 H2) as (_ & _ & _ & E2).
  rewrite E, E2 in E1. by injection E1.
Qed.

Lemma nibbles_not_term ns ns' : Forall is_nibble ns -> ns = ns' ++ [16] -> False.
Proof. intros H%nibble_not_16 ->. by rewrite hasTerm_snoc in H. Qed.

Lemma tref_hash_or_list t : t <> TNil -> (forall v, t <> TVal v) ->
  (len (tenc t) < 32 /\ tref t = titem t /\ exists l, titem t = Lst l) \/
  (32 <= len (tenc t) /\ tref t = Str (thash t)).
Proof.
  intros H1 H2. assert (E : tref t = ref_of (titem t)) by (destruct t; [done|by destruct (H2 v)|done..]).
  unfold tenc, thash. rewrite E. unfold ref_of. case_if; bool_to_Z; [left|by right].
  split_and!; [done|done|]. destruct t; [done|by destruct (H2 v)|rewrite titem_short; eauto|rewrite titem_full; eauto].
Qed.

Lemma canon_not_val D v : ~ canon D (TVal v).
Proof. inversion 1. Qed.

(** References to two canonical subtrees that are equal. *)
Lemma tref_inj (X : bytes -> Prop) D1 D2 t1 t2 : covers X t1 -> covers X t2 -> canon D1 t1 -> D1 <= maxLen -> canon D2 t2 -> D2 <= maxLen ->
  (titem t1 = titem t2 -> t1 = t2 \/ hash_collision X) -> tref t1 = tref t2 -> t1 = t2 \/ hash_collision X.
Proof.
  intros V1 V2 H1 HD1 H2 HD2 IH E.
  assert (Hv : forall D t v, canon D t -> t <> TVal v) by (intros D t v Hc ->; by apply canon_not_val in Hc).
  destruct (decide (t1 = TNil)) as [->|N1], (decide (t2 = TNil)) as [->|N2].
  - by left.
  - destruct (tref_hash_or_list t2 N2 (fun v => Hv D2 t2 v H2)) as [(_ & E2 & l & El)|(_ & E2)].
    + by rewrite E2, El in E.
    + rewrite E2 in E. injection E as E. apply (f_equal len) in E. unfold thash in E. by rewrite hashData_length in E.
  - destruct (tref_hash_or_list t1 N1 (fun v => Hv D1 t1 v H1)) as [(_ & E1 & l & El)|(_ & E1)].
    + by rewrite E1, El in E.
    + rewrite E1 in E. injection E as E. apply (f_equal len) in E. unfold thash in E. by rewrite hashData_length in E.
  - destruct (tref_hash_or_list t1 N1 (fun v => Hv D1 t1 v H1)) as [(_ & E1 & l & El)|(_ & E1)],
      (tref_hash_or_list t2 N2 (fun v => Hv D2 t2 v H2)) as [(_ & E2 & l' & El')|(_ & E2)].
    + apply IH. by rewrite <- E1, <- E2.
    + rewrite E1, E2, El in E. done.
    + rewrite E1, E2, El' in E. done.
    + rewrite E1, E2 in E. assert (Eh : hashData (tenc t1) = hashData (tenc t2)) by (unfold thash in E; congruence).
      destruct (hashData_inj X _ _ (covers_self X D1 t1 V1 H1 N1) (covers_self X D2 t2 V2 H2 N2) Eh) as [E'|?]; [|by right].
      apply IH. apply encode_inj; [by eapply canon_fine|by eapply canon_fine|done].
Qed.

Lemma titem_inj (H : bytes -> Prop) D1 t1 : canon D1 t1 -> D1 <= maxLen -> covers H t1 -> forall D2 t2, canon D2 t2 -> D2 <= maxLen -> covers H t2 ->
  titem t1 = titem t2 -> t1 = t2 \/ hash_collision H.
Proof.
  induction 1 as [|D ns v Hn Hv Hl|D ns ts Hne Hn Hc IH|D ts i j HD Hl Hc IH Hv Hij Hi Hj]; intros HD1 V1 D2 t2 H2 HD2 V2 E;
    inversion H2 as [|? ns' v' Hn' Hv' Hl'|? ns' ts' Hne' Hn' Hc'|? ts' i' j' ? Hl' ? ? ? ? ?]; subst;
    rewrite ?titem_short, ?titem_full in E; try done; try (by left);
    try (injection E as E1 E2); try (apply compact_inj in E1; [|by eexists; split; [|by auto]..]).
  - left. apply app_inj_2 in E1 as [-> _]; [|done]. cbn in E2. congruence.
  - exfalso. by eapply nibbles_not_term.
  - injection E as E. apply (f_equal length) in E. by rewrite length_fmap, Hl' in E.
  - exfalso. by eapply (nibbles_not_term ns).
  - subst ns'. pose proof (len_nonneg ns).
    apply covers_short in V1, V2. destruct (tref_inj H (D - len ns) (D2 - len ns) (TFull ts) (TFull ts')) as [E|?];
      [done|done|done|lia|done|lia| |done|left; by rewrite E|by right]. intros E. by eapply IH; [lia|done|done|lia|done|].
  - injection E as E. apply (f_equal length) in E. by rewrite length_fmap, Hl' in E.
  - injection E as E. apply (f_equal length) in E. by rewrite length_fmap, Hl in E.
  - injection E as E. apply (f_equal length) in E. by rewrite length_fmap, Hl in E.
  - injection E as E. assert (Hcan : canon D (TFull ts)) by (by apply (canon_full D ts i j)).
    enough (ts = ts' \/ hash_collision H) as [->|?] by auto. apply list_eq_or; [by rewrite Hl|].
    intros m a b Ha Hb. assert (Er : tref a = tref b).
    { apply (f_equal (.!! m)) in E. rewrite !list_lookup_fmap, Ha, Hb in E. by injection E. }
    destruct (canon_child D ts m a Hcan Ha) as [[Hlt Hca]|[-> Ha']], (canon_child D2 ts' _ b H2 Hb) as [[Hlt' Hcb]|[Em Hb']]; try lia.
    + pose proof (covers_full _ _ _ _ V1 Ha). pose proof (covers_full _ _ _ _ V2 Hb).
      eapply (tref_inj H (D - 1) (D2 - 1)); [done|done|done|lia|done|lia| |done]. intros E'. by eapply IH; [|done|lia|done|done|lia|done|].
    + left. destruct Ha' as [->|(va & -> & Ha' & _)], Hb' as [->|(vb & -> & Hb' & _)]; cbn in Er; congruence.
Qed.

(** The root hash determines the tree. *)
Lemma thash_binds (D : bytes -> Prop) D1 D2 t1 t2 : covers D t1 -> covers D t2 -> canon D1 t1 -> D1 <= maxLen -> canon D2 t2 -> D2 <= maxLen ->
  t1 <> TNil -> t2 <> TNil -> thash t1 = thash t2 -> t1 = t2 \/ hash_collision D.
Proof.
  intros V1 V2 H1 HD1 H2 HD2 N1 N2 E. unfold thash in E. destruct (hashData_inj D _ _ (covers_self D D1 t1 V1 H1 N1) (covers_self D D2 t2 V2 H2 N2) E) as [E'|?]; [|by right].
  eapply titem_inj; [done|done|done|done|done|done|]. apply encode_inj; [by eapply canon_fine|by eapply canon_fine|done].
Qed.
End hash.
