(* ===== verification/TrieHash.v ===== *)
(** * Nodes and trees

    [repr] relates the nodes of a trie, in part in memory and in part in the database, to the tree
    they stand for.  The lemmas say that decoding the encoding of a tree gives nodes that represent
    it, and that the hasher, with its cached hashes, computes the hash of the tree. *)

From S2P Require Import Prelude Bytes Rlp RlpTheorems VM TrieKeys TrieNode Trie TrieSpec.

Set Default Proof Using "Type".

(** ** Encoding nodes *)

(** The value that [node_encode] writes. *)
Fixpoint nitem (n : node) : item :=
  match n with
  | nilNode => Str []
  | fullNode cs _ => Lst (map nitem cs)
  | shortNode k v _ => Lst [Str k; nitem v]
  | hashNode h => Str h
  | valueNode v => Str v
  end.

Inductive encodable : node -> Prop :=
  | en_nil : encodable nilNode
  | en_val v : encodable (valueNode v)
  | en_hash h : encodable (hashNode h)
  | en_short k v fl : encodable v -> encodable (shortNode k v fl)
  | en_full cs fl : cs <> [] -> (forall i c, cs !! i = Some c -> encodable c) -> encodable (fullNode cs fl).

(** A child: the empty string for nil. *)
Definition encode_child (w : encBuffer) (n : node) : Outcome encBuffer :=
  if is_nil n then Ret (append_str w [128]) else node_encode w n.

Lemma encode_child_item n : encodable n -> forall w, encode_child w n = writeItem w (nitem n).
Proof.
  induction 1 as [|v|h|k v fl Hv IH|cs fl Hne Hcs IH]; intros w.
  - change (Ret (append_str w [128]) = Ret (writeBytes w [])). by rewrite writeBytes_eq.
  - done.
  - done.
  - unfold encode_child. cbn [is_nil node_encode]. change (nitem (shortNode k v fl)) with (Lst [Str k; nitem v]).
    rewrite writeItem_list by done. destruct (buf_list w) as [o w']. cbn [writeItems writeItem mbind outcome_bind].
    fold (encode_child (writeBytes w' k) v). rewrite IH. cbn [mbind outcome_bind]. by destruct (writeItem _ (nitem v)).
  - unfold encode_child. cbn [is_nil node_encode]. change (nitem (fullNode cs fl)) with (Lst (nitem <$> cs)).
    rewrite writeItem_list by (by destruct cs). destruct (buf_list w) as [o w']. clear Hne.
    match goal with |- mbind _ (?f w' cs) = _ => assert (Hgo : f w' cs = writeItems w' (nitem <$> cs)) end.
    { clear w. revert w'. clear Hcs. induction cs as [|c cs IHcs]; intros w'; [done|].
      rewrite fmap_cons. cbn [writeItems]. rewrite <- (IH 0%nat c eq_refl). unfold encode_child.
      destruct (if is_nil c then _ else _) as [w''|]; [|done]. cbn [mbind outcome_bind]. apply IHcs.
      intros i. apply (IH (S i)). }
    by rewrite Hgo.
Qed.

Lemma nodeToBytes_item n : encodable n -> n <> nilNode -> is_u64 (len (encode (nitem n))) ->
  nodeToBytes n = Ret (encode (nitem n)).
Proof.
  intros He Hn Hu. unfold nodeToBytes. destruct (writeItem_bytes _ Hu) as (b & E & Eb).
  pose proof (encode_child_item n He emptyBuf) as H. unfold encode_child in H. destruct (is_nil n) eqn:En; [by destruct n|].
  rewrite H, E. cbn [mbind outcome_bind]. by rewrite Eb.
Qed.

Section repr.
Context `{C : Crypto}.

(** ** Decoding *)

(** What decoding the encoding of a tree gives; [h] is the hash the decoder is called with. *)
Fixpoint dnode (h : option bytes) (t : tree) : node :=
  let dref t :=
    match t with
    | TNil => nilNode
    | TVal v => valueNode v
    | _ => if len (tenc t) <? 32 then dnode None t else hashNode (thash t)
    end in
  match t with
  | TNil => nilNode
  | TVal v => valueNode v
  | TShort k t => shortNode k (dref t) (mkFlag h false)
  | TFull ts => fullNode (map dref ts) (mkFlag h false)
  end.

Definition dref (t : tree) : node :=
  match t with
  | TNil => nilNode
  | TVal v => valueNode v
  | _ => if len (tenc t) <? 32 then dnode None t else hashNode (thash t)
  end.

Lemma dnode_short h k t : dnode h (TShort k t) = shortNode k (dref t) (mkFlag h false).
Proof. by destruct t. Qed.
Lemma dnode_full h ts : dnode h (TFull ts) = fullNode (dref <$> ts) (mkFlag h false).
Proof. done. Qed.

Lemma split_str d rest : Forall is_byte d -> len d <> 1 -> is_u64 (len (encode (Str d) ++ rest)) ->
  Split (encode (Str d) ++ rest) = Ret (inl (KString, d, rest)).
Proof.
  intros Hd Hl Hu. destruct (Split_encode (Str d) rest (ok_Str d Hd) Hu) as (k & c & E & _ & Hf & _ & Hk & ->).
  rewrite E. destruct k; [|done|done]. destruct Hf as (x & -> & _). by cbn in Hl.
Qed.

Lemma decodeRef_ok dec D t rest : canon D t -> D <= maxLen -> is_u64 (len (encode (tref t) ++ rest)) ->
  (t <> TNil -> len (tenc t) < 32 -> dec None (tenc t ++ rest) = Ret (inl (dnode None t))) ->
  decodeRef dec (encode (tref t) ++ rest) = Ret (inl (dref t, rest)).
Proof.
  intros Hc HD Hu Hdec. destruct (decide (t = TNil)) as [->|Hn].
  { unfold decodeRef. change (tref TNil) with (Str []) in *. rewrite split_str by done. done. }
  assert (Hv : forall v, t <> TVal v) by (intros v ->; by apply canon_not_val in Hc).
  assert (Ed : dref t = if len (tenc t) <? 32 then dnode None t else hashNode (thash t)) by (destruct t; [done|by destruct (Hv v)|done..]).
  destruct (tref_hash_or_list t Hn Hv) as [(Hl & Et & l & El)|(Hl & Et)]; rewrite Ed, Et in *.
  - rewrite (proj2 (Z.ltb_lt _ _)) by done. destruct (canon_fine D t Hc HD Hn) as [Hok _].
    rewrite El in Hok, Hu. rewrite El. destruct (Split_encode (Lst l) rest Hok Hu) as (k & c & E & _ & _ & _ & -> & ->).
    unfold decodeRef. rewrite E. cbn [mbind outcome_bind].
    replace (len (encode (Lst l) ++ rest) - len rest) with (len (tenc t)) by (unfold tenc; rewrite El, len_app; lia).
    rewrite (proj2 (Z.ltb_ge hashLen _)) by (unfold hashLen; lia). rewrite <- El. fold (tenc t). by rewrite Hdec.
  - rewrite (proj2 (Z.ltb_ge _ _)) by done. unfold decodeRef.
    pose proof (hashData_length (tenc t)) as Hh. fold (thash t) in Hh.
    rewrite split_str; [|apply hashData_bytes|lia|done]. cbn [mbind outcome_bind]. by rewrite Hh.
Qed.

Lemma decodeChildren_ok dec ts : forall rest,
  (forall i t rest, ts !! i = Some t -> is_u64 (len (encode (tref t) ++ rest)) ->
     decodeRef dec (encode (tref t) ++ rest) = Ret (inl (dref t, rest))) ->
  is_u64 (len (concat (encode <$> (tref <$> ts)) ++ rest)) ->
  decodeChildren dec (length ts) (concat (encode <$> (tref <$> ts)) ++ rest) = Ret (inl (dref <$> ts, rest)).
Proof.
  induction ts as [|t ts IH]; intros rest H Hu; [done|]. rewrite !fmap_cons in *. cbn [concat length decodeChildren] in *.
  rewrite <- app_assoc in *. rewrite (H 0%nat t) by done. cbn [mbind outcome_bind].
  rewrite len_app in Hu. pose proof (len_nonneg (encode (tref t))).
  pose proof (len_nonneg (concat (encode <$> (tref <$> ts)) ++ rest)).
  rewrite IH; [done| |unfold_u64; lia]. intros i. apply (H (S i)).
Qed.

(** The elements of a list are shorter than the list. *)
Lemma encode_elem_shorter l i it : l !! i = Some it -> (length (encode it) < length (encode (Lst l)))%nat.
Proof.
  intros Hi. assert (H : (length (encode it) <= length (concat (encode <$> l)))%nat).
  { revert i Hi. induction l as [|x l IH]; intros [|i] Hi; try done; rewrite fmap_cons; cbn [concat]; rewrite length_app.
    - injection Hi as ->. lia.
    - specialize (IH i Hi). lia. }
  cbn [encode]. rewrite length_app. unfold puthead. case_if; cbn [length]; lia.
Qed.

Lemma tenc_pos t : t <> TNil -> (forall v, t <> TVal v) -> 1 <= len (tenc t).
Proof. intros. apply encode_nonempty. Qed.

Lemma len0_app (l r : bytes) : 1 <= len l -> (len (l ++ r) =? 0) = false.
Proof. intros. rewrite len_app. pose proof (len_nonneg r). lia. Qed.

Lemma take_last_17 {A} (l : list A) x : length l = 17%nat -> l !! 16%nat = Some x -> l = take 16 l ++ [x] /\ length (take 16 l) = 16%nat.
Proof.
  intros Hl Hx. split; [|rewrite length_take; lia]. rewrite <- (take_drop 16 l) at 1. f_equal.
  apply drop_S in Hx. rewrite Hx. f_equal. apply length_zero_iff_nil. rewrite length_drop. lia.
Qed.

Lemma payload_u64 l rest : is_u64 (len (encode (Lst l) ++ rest)) -> is_u64 (len (concat (encode <$> l))).
Proof.
  cbn [encode]. rewrite !len_app. intros Hu. pose proof (len_nonneg rest). pose proof (len_nonneg (concat (encode <$> l))).
  pose proof (len_nonneg (puthead 192 247 (len (concat (encode <$> l))))). unfold_u64. lia.
Qed.

(** What the decoder does with a list. *)
Lemma decode_list fuel h l rest : item_ok (Lst l) -> is_u64 (len (encode (Lst l) ++ rest)) ->
  decodeNodeFuel (S fuel) h (encode (Lst l) ++ rest) =
    if len l =? 2 then decodeShort (decodeNodeFuel fuel) h (concat (encode <$> l))
    else if len l =? 17 then decodeFull (decodeNodeFuel fuel) h (concat (encode <$> l))
    else Ret (inr (DecElements (len l))).
Proof.
  intros Hok Hu. cbn [decodeNodeFuel]. rewrite len0_app by apply encode_nonempty.
  destruct (split_list_encode _ rest Hok Hu) as [E1 E2]. rewrite E1. cbn [mbind outcome_bind].
  rewrite E2. done.
Qed.

Lemma decodeShort_key dec h k it : hex_ok k -> is_u64 (len (concat (encode <$> [Str (compact k); it]))) ->
  is_u64 (len (encode it ++ [])) /\
  decodeShort dec h (concat (encode <$> [Str (compact k); it])) =
    if hasTerm k then
      v ← SplitString (encode it ++ []);
      match v with
      | inr e => Ret (inr (DecRlp e))
      | inl (val, _) => Ret (inl (shortNode k (valueNode val) (mkFlag h false)))
      end
    else
      r ← decodeRef dec (encode it ++ []);
      match r with
      | inr e => Ret (inr e)
      | inl (r, _) => Ret (inl (shortNode k r (mkFlag h false)))
      end.
Proof.
  intros Hk Hu. destruct (compact_fine _ Hk) as (_ & Hb & _ & Ek). cbn [fmap list_fmap concat encode] in *. split.
  - rewrite len_app in Hu. pose proof (len_nonneg (encode_bytes (compact k))). pose proof (len_nonneg (encode it ++ [])).
    unfold_u64. lia.
  - unfold decodeShort. rewrite split_string_encode by done. cbn [mbind outcome_bind]. rewrite Ek. done.
Qed.

(** Decoding the encoding of a canonical tree, whatever follows it in the buffer. *)
Lemma decode_tenc D t : canon D t -> D <= maxLen -> t <> TNil -> forall fuel h rest,
  (length (tenc t) < fuel)%nat -> is_u64 (len (tenc t ++ rest)) ->
  decodeNodeFuel fuel h (tenc t ++ rest) = Ret (inl (dnode h t)).
Proof.
  intros Hc. induction Hc as [|D ns v Hn Hv Hl|D ns ts Hne Hn Hc IH|D ts i j HD Hl Hc IH Hv Hij Hi Hj];
    intros HD' Hnil [|fuel] h rest Hf Hu; [done|done|lia| |lia| |lia|].
  - destruct (canon_fine D (TShort (ns ++ [16]) (TVal v))) as [Hok _]; [by constructor|done|done|].
    unfold tenc in *. rewrite titem_short in *. rewrite decode_list by done.
    change (len [_; _] =? 2) with true. cbv iota. destruct Hv as (_ & Hvb & _).
    destruct (decodeShort_key (decodeNodeFuel fuel) h (ns ++ [16]) (tref (TVal v))) as [Hu' ->];
      [exists ns; auto|by eapply payload_u64|].
    rewrite hasTerm_snoc. cbn [tref encode] in *. by rewrite split_string_encode.
  - destruct (canon_fine D (TShort ns (TFull ts))) as [Hok _]; [by constructor|done|done|].
    unfold tenc in *. rewrite titem_short in *. rewrite decode_list by done.
    change (len [_; _] =? 2) with true. cbv iota.
    destruct (decodeShort_key (decodeNodeFuel fuel) h ns (tref (TFull ts))) as [Hu' ->];
      [exists ns; auto|by eapply payload_u64|].
    rewrite nibble_not_16 by done. pose proof (len_nonneg ns).
    rewrite (decodeRef_ok _ (D - len ns)); [done|done|lia|done|]. intros _ Hs.
    pose proof (encode_elem_shorter [Str (compact ns); tref (TFull ts)] 1 _ eq_refl) as Hsh.
    destruct (tref_hash_or_list (TFull ts)) as [(_ & Et & _)|(? & _)]; [done|done| |lia]. rewrite Et in *.
    apply IH; [lia|done|unfold tenc; lia|done].
  - assert (Hcan : canon D (TFull ts)) by (by apply (canon_full D ts i j)).
    destruct (canon_fine D (TFull ts)) as [Hok _]; [done|done|done|].
    unfold tenc in *. rewrite titem_full in *. rewrite decode_list by done.
    unfold len at 1 2. rewrite length_fmap, Hl. change (Z.of_nat 17 =? 2) with false. change (Z.of_nat 17 =? 17) with true. cbv iota.
    apply payload_u64 in Hu. destruct (lookup_lt_is_Some_2 ts 16) as [x Hx]; [lia|].
    destruct (take_last_17 ts x Hl Hx) as [Ets E16]. rewrite dnode_full.
    assert (Er : forall i t rest, take 16 ts !! i = Some t -> is_u64 (len (encode (tref t) ++ rest)) ->
      decodeRef (decodeNodeFuel fuel) (encode (tref t) ++ rest) = Ret (inl (dref t, rest))).
    { intros m t r Hm Hur. apply lookup_take_Some in Hm as [Hm Hlt]. eapply (decodeRef_ok _ (D - 1)); [by eapply Hc|lia|done|].
      intros Hnt Hs. pose proof (encode_elem_shorter (tref <$> ts) m (tref t)) as Hsh. rewrite list_lookup_fmap, Hm in Hsh.
      specialize (Hsh eq_refl). assert (Hv' : forall v, t <> TVal v) by (intros v ->; by apply Hc, canon_not_val in Hm).
      destruct (tref_hash_or_list t Hnt Hv') as [(_ & Et & _)|(? & _)]; [|lia]. rewrite Et in *.
      eapply IH; [done|done|lia|done|unfold tenc; lia|done]. }
    rewrite Ets in Hu |- *. rewrite !fmap_app in Hu |- *. rewrite concat_app in Hu |- *.
    unfold decodeFull. replace (decodeChildren (decodeNodeFuel fuel) 16)
      with (decodeChildren (decodeNodeFuel fuel) (length (take 16 ts))) by (by rewrite E16).
    rewrite decodeChildren_ok by done. cbn [mbind outcome_bind].
    rewrite len_app in Hu. pose proof (len_nonneg (concat (encode <$> (tref <$> take 16 ts)))).
    pose proof (len_nonneg (concat (encode <$> (tref <$> [x])))). cbn [fmap list_fmap concat] in *.
    assert (Hx' : exists v, tref x = Str v /\ Forall is_byte v /\ (if 0 <? len v then valueNode v else nilNode) = dref x).
    { destruct Hv as [E|(v & E & Hv)]; rewrite E in Hx; injection Hx as <-; [by exists []|].
      exists v. destruct Hv as (Hne & Hb & _). split_and!; [done|done|]. destruct v; [done|]. rewrite len_cons.
      pose proof (len_nonneg v). by rewrite (proj2 (Z.ltb_lt 0 _)) by lia. }
    destruct Hx' as (v & Ev & Hb & Ed). rewrite Ev in *. cbn [encode] in *.
    rewrite split_string_encode; [cbn [mbind outcome_bind]; by rewrite Ed, (fmap_app dref)|done|unfold_u64; lia].
Qed.

Lemma decodeNode_tenc D t h : canon D t -> D <= maxLen -> t <> TNil ->
  decodeNodeUnsafe h (tenc t) = Ret (inl (dnode h t)).
Proof.
  intros Hc HD Hn. unfold decodeNodeUnsafe. pose proof (canon_fine D t Hc HD Hn) as [_ Hl].
  rewrite <- (app_nil_r (tenc t)) at 2. eapply decode_tenc; [done|done|done|lia|].
  rewrite app_nil_r. apply encMax_u64. pose proof (len_nonneg (tenc t)). unfold tenc in *. lia.
Qed.

(** ** Nodes that represent a tree *)

Section reader.
Variable rd : trieReader.

(** The node database has the node [t] at the path [p]. *)
Definition in_db (p : bytes) (t : tree) : Prop := reader_node rd p (BytesToHash (thash t)) = inl (tenc t).

(** All the nodes of the tree that are too big to be embedded are in the database. *)
Inductive avail : bytes -> tree -> Prop :=
  | avail_nil p : avail p TNil
  | avail_val p v : avail p (TVal v)
  | avail_short p k t : (32 <= len (tenc (TShort k t)) -> in_db p (TShort k t)) ->
      avail (p ++ k) t -> avail p (TShort k t)
  | avail_full p ts : (32 <= len (tenc (TFull ts)) -> in_db p (TFull ts)) ->
      (forall i t, ts !! i = Some t -> avail (p ++ [Z.of_nat i]) t) -> avail p (TFull ts).

(** The nodes in memory whose hash is not cached are small enough to be embedded. *)
Inductive hashed : node -> tree -> Prop :=
  | hashed_nil : hashed nilNode TNil
  | hashed_val v : hashed (valueNode v) (TVal v)
  | hashed_short k n t fl : (flag_hash fl = None -> len (tenc (TShort k t)) < 32) -> hashed n t ->
      hashed (shortNode k n fl) (TShort k t)
  | hashed_full cs ts fl : (flag_hash fl = None -> len (tenc (TFull ts)) < 32) ->
      (forall i c t, cs !! i = Some c -> ts !! i = Some t -> hashed c t) -> hashed (fullNode cs fl) (TFull ts)
  | hashed_hash h t : hashed (hashNode h) t.

(** A hash that is cached in a node is the hash of its tree, and then the nodes below it ([below])
    are hashed too; a node that is not dirty is in the database or embedded in its parent.  [f] is
    true at the root, which is hashed whatever its size. *)
Definition flag_ok (f : bool) (p : bytes) (fl : nodeFlag) (t : tree) (below : Prop) : Prop :=
  (forall h, flag_hash fl = Some h -> h = thash t /\ (f = true \/ 32 <= len (tenc t)) /\ below) /\
  (flag_dirty fl = false -> avail p t /\ (in_db p t \/ (f = false /\ len (tenc t) < 32))).

Inductive repr : bool -> bytes -> node -> tree -> Prop :=
  | repr_nil f p : repr f p nilNode TNil
  | repr_val f p v : repr f p (valueNode v) (TVal v)
  | repr_short f p k n t fl : flag_ok f p fl (TShort k t) (hashed n t) -> repr false (p ++ k) n t ->
      repr f p (shortNode k n fl) (TShort k t)
  | repr_full f p cs ts fl :
      flag_ok f p fl (TFull ts) (forall i c t, cs !! i = Some c -> ts !! i = Some t -> hashed c t) ->
      length cs = length ts ->
      (forall i c t, cs !! i = Some c -> ts !! i = Some t -> repr false (p ++ [Z.of_nat i]) c t) ->
      repr f p (fullNode cs fl) (TFull ts)
  | repr_hash f p t : t <> TNil -> (forall v, t <> TVal v) -> f = true \/ 32 <= len (tenc t) ->
      in_db p t -> avail p t -> repr f p (hashNode (thash t)) t.

Lemma flag_new f p t P : flag_ok f p newFlag t P.
Proof. done. Qed.

(** Decoded nodes represent the tree. *)
Lemma dref_repr D t p : canon D t -> avail p t ->
  (t <> TNil -> len (tenc t) < 32 -> repr false p (dnode None t) t) -> repr false p (dref t) t.
Proof.
  intros Hc Ha H. destruct (decide (t = TNil)) as [->|Hn]; [constructor|].
  assert (Hv : forall v, t <> TVal v) by (intros v ->; by apply canon_not_val in Hc).
  assert (Ed : dref t = if len (tenc t) <? 32 then dnode None t else hashNode (thash t)) by (destruct t; [done|by destruct (Hv v)|done..]).
  rewrite Ed. case_if; bool_to_Z; [by apply H|]. constructor; try done; [by right|].
  inversion Ha; subst; try done; auto.
Qed.

(** The hash that the decoder is called with. *)
Definition decoded_with (f : bool) (p : bytes) (h : option bytes) (t : tree) : Prop :=
  (h = None /\ f = false /\ len (tenc t) < 32) \/ (h = Some (thash t) /\ (f = true \/ 32 <= len (tenc t)) /\ in_db p t).

Lemma flag_decoded f p t h (P : Prop) : avail p t -> decoded_with f p h t -> P -> flag_ok f p (mkFlag h false) t P.
Proof.
  intros Ha [(-> & -> & Hl)|(-> & Hf & Hdb)] HP; (split; [cbn; intros ? E; by simplify_eq|]); auto.
Qed.

(** Decoded nodes are hashed. *)
Lemma dref_hashed D t : canon D t -> (t <> TNil -> len (tenc t) < 32 -> hashed (dnode None t) t) -> hashed (dref t) t.
Proof.
  intros Hc H. destruct (decide (t = TNil)) as [->|Hn]; [constructor|].
  assert (Hv : forall v, t <> TVal v) by (intros v ->; by apply canon_not_val in Hc).
  assert (Ed : dref t = if len (tenc t) <? 32 then dnode None t else hashNode (thash t)) by (destruct t; [done|by destruct (Hv v)|done..]).
  rewrite Ed. case_if; bool_to_Z; [by apply H|constructor].
Qed.

Lemma dnode_hashed D t : canon D t -> t <> TNil -> forall h, (h = None -> len (tenc t) < 32) -> hashed (dnode h t) t.
Proof.
  intros Hc. induction Hc as [|D ns v Hn Hv Hl|D ns ts Hne Hn Hc IH|D ts i j HD Hl Hc IH Hv Hij Hi Hj]; intros Hnil h Hh.
  - done.
  - by repeat constructor.
  - rewrite dnode_short. constructor; [done|]. eapply dref_hashed; [done|]. by auto.
  - rewrite dnode_full. constructor; [done|]. intros m c t Hm Ht. rewrite list_lookup_fmap, Ht in Hm. injection Hm as <-.
    assert (Hcan : canon D (TFull ts)) by (by apply (canon_full D ts i j)).
    destruct (canon_child D ts m t Hcan Ht) as [[Hlt Hct]|[-> [->|(v & -> & _)]]]; [|constructor..].
    eapply dref_hashed; [done|]. intros Hn Hs. by eapply IH.
Qed.

Lemma dnode_repr D t : canon D t -> D <= maxLen -> t <> TNil -> forall f p h, avail p t ->
  decoded_with f p h t -> repr f p (dnode h t) t.
Proof.
  intros Hc. induction Hc as [|D ns v Hn Hv Hl|D ns ts Hne Hn Hc IH|D ts i j HD Hl Hc IH Hv Hij Hi Hj]; intros HD' Hnil f p h Ha Hh.
  - done.
  - constructor; [apply flag_decoded; [done|done|constructor]|constructor].
  - rewrite dnode_short. inversion Ha as [| |? ? ? _ Ha'|]; subst. constructor.
    + apply flag_decoded; [done|done|]. eapply dref_hashed; [done|]. intros _ Hs. by eapply dnode_hashed.
    + pose proof (len_nonneg ns). apply (dref_repr (D - len ns)); [done|done|]. intros _ Hs. apply IH; [lia|done|done|by left].
  - rewrite dnode_full. assert (Hcan : canon D (TFull ts)) by (by apply (canon_full D ts i j)).
    assert (Hch : forall m c t, (dref <$> ts) !! m = Some c -> ts !! m = Some t -> c = dref t).
    { intros m c t Hm Ht. rewrite list_lookup_fmap, Ht in Hm. by injection Hm as <-. }
    constructor; [apply flag_decoded; [done|done|]|by rewrite length_fmap|]; intros m c t Hm Ht; rewrite (Hch m c t Hm Ht);
      (destruct (canon_child D ts m t Hcan Ht) as [[Hlt Hct]|[-> [->|(v & -> & _)]]]; [|constructor..]).
    + eapply dref_hashed; [done|]. intros Hn Hs. by eapply dnode_hashed.
    + inversion Ha as [| | |? ? _ Ha']; subst. apply (dref_repr (D - 1)); [done|by apply Ha'|]. intros Hn Hs.
      eapply IH; [done|done|lia|done|by apply Ha'|by left].
Qed.

(** Resolving a hash node. *)
Lemma resolve_repr f p h t D tr : repr f p (hashNode h) t -> canon D t -> D <= maxLen ->
  exists tr', resolveAndTrack rd h p tr = Ret (inl (dnode (Some h) t), tr') /\ repr f p (dnode (Some h) t) t /\
    hashed (dnode (Some h) t) t /\ deletes tr' = deletes tr.
Proof.
  intros Hr Hc HD. inversion Hr as [| | | |? ? ? Hn Hv Hf Hdb Ha]; subst.
  unfold resolveAndTrack. rewrite Hdb. eexists. split.
  - cbn [mbind st_bind]. unfold st_bind, st_modify, st_lift. rewrite (decodeNode_tenc D) by done. cbn. reflexivity.
  - split; [eapply (dnode_repr D); [done|done|done|done|]; right; done|]. split; [by eapply dnode_hashed|done].
Qed.
End reader.

(** ** The hasher *)

(** The node that [hash] returns for the tree [t]. *)
Definition hashed_ok (f : bool) (hd : node) (t : tree) : Prop :=
  ((f = true \/ 32 <= len (tenc t)) /\ hd = hashNode (thash t)) \/
  (f = false /\ len (tenc t) < 32 /\ nitem hd = titem t /\ encodable hd /\ exists l, titem t = Lst l).

Lemma hashed_ref hd t : t <> TNil -> (forall v, t <> TVal v) -> hashed_ok false hd t -> nitem hd = tref t /\ encodable hd.
Proof.
  intros Hn Hv [([?|Hl] & ->)|(_ & Hl & E & He & _)]; [done|..];
    destruct (tref_hash_or_list t Hn Hv) as [(? & Et & _)|(? & Et)]; try lia; rewrite Et.
  - split; [done|constructor].
  - done.
Qed.

Lemma hashChildren_spec (h : node -> Outcome (node * node)) (P : nat -> node -> node -> node -> Prop) cs : forall n,
  (forall i c, cs !! i = Some c -> (i < n)%nat -> exists hd c', hashChild h c = Ret (hd, c') /\ P i c hd c') ->
  exists hds cs', hashChildren h n cs = Ret (hds, cs') /\ length hds = length cs /\ length cs' = length cs /\
    forall i c, cs !! i = Some c -> exists hd c', hds !! i = Some hd /\ cs' !! i = Some c' /\
      (if (i <? n)%nat then P i c hd c' else hd = c /\ c' = c).
Proof.
  revert P. induction cs as [|c cs IH]; intros P n H; [by exists [], []|]. destruct n as [|n].
  { exists (c :: cs), (c :: cs). split_and!; [done..|]. intros i d Hd. exists d, d. done. }
  destruct (H 0%nat c) as (hd & c' & E & HP); [done|lia|].
  destruct (IH (fun i => P (S i)) n) as (hds & cs' & E' & L1 & L2 & HP'); [intros i d Hd Hi; apply (H (S i)); [done|lia]|].
  exists (hd :: hds), (c' :: cs'). cbn [hashChildren]. fold hashChildren. rewrite E. cbn [mbind outcome_bind].
  change ((fix go (i : nat) (cs0 : list node) {struct cs0} : Outcome (list node * list node) := _) n cs) with (hashChildren h n cs).
  rewrite E'. cbn [mbind outcome_bind length]. split_and!; [done|lia|lia|]. intros [|i] d Hd.
  - injection Hd as <-. by exists hd, c'.
  - destruct (HP' i d Hd) as (a & b & Ha & Hb & Hi). by exists a, b.
Qed.

(** The last step of [hash], on the collapsed node. *)
Lemma toHash_ok D f t n : canon D t -> D <= maxLen -> t <> TNil -> encodable n -> n <> nilNode -> nitem n = titem t ->
  exists hd, (enc ← nodeToBytes n; if (len enc <? 32) && negb f then Ret n else Ret (hashNode (hashData enc))) = Ret hd /\
    hashed_ok f hd t.
Proof.
  intros Hc HD Hn He Hnn E. destruct (canon_fine D t Hc HD Hn) as [Hok Hl].
  rewrite nodeToBytes_item, E by (try done; rewrite E; apply encMax_u64; pose proof (len_nonneg (encode (titem t))); lia).
  cbn [mbind outcome_bind]. fold (tenc t). destruct (Z.ltb_spec (len (tenc t)) 32), f; cbn [andb negb]; eexists; (split; [done|]).
  - left. auto.
  - right. split_and!; try done. inversion Hc; subst; rewrite ?titem_short, ?titem_full; eauto; done.
  - left. auto.
  - left. auto.
Qed.

Lemma set_hash_ok rd f hd p t fl (P Q : Prop) : hashed_ok f hd t -> flag_ok rd f p fl t P -> Q ->
  flag_ok rd f p (set_hash hd fl) t Q /\ (flag_hash (set_hash hd fl) = None -> len (tenc t) < 32).
Proof.
  intros Hh [_ Hfl] HQ. destruct Hh as [(Hf & ->)|(-> & Hl & Ei & _ & l & El)].
  - split; [|done]. split; [|done]. intros h E. cbn in E. by injection E as <-.
  - split; [|done]. split; [|done]. intros h E. cbn in E. destruct hd; try done. cbn in Ei. by rewrite El in Ei.
Qed.

(** What [hash] does with a subtree below the root. *)
Definition hashes_child (rd : trieReader) (p : bytes) (r : Outcome (node * node)) (t : tree) : Prop :=
  exists hd c', r = Ret (hd, c') /\ nitem hd = tref t /\ encodable hd /\ repr rd false p c' t /\ hashed c' t.

Lemma hashes_child_of rd p c t : t <> TNil -> (forall v, t <> TVal v) ->
  (exists hd c', hash c false = Ret (hd, c') /\ hashed_ok false hd t /\ repr rd false p c' t /\ hashed c' t) ->
  hashes_child rd p (hash c false) t.
Proof.
  intros Hn Hv (hd & c' & E & Hh & Hr). destruct (hashed_ref hd t Hn Hv Hh). exists hd, c'. done.
Qed.

Lemma hashVal_child rd p c t : repr rd false p c t -> t <> TNil ->
  ((forall v, t <> TVal v) -> hashes_child rd p (hash c false) t) -> hashes_child rd p (hashVal (fun c => hash c false) c) t.
Proof.
  intros Hr Hn H. inversion Hr as [|f p' v|? ? ? ? ? ? ? ?|? ? ? ? ? ? ?|? ? ? ? Hv]; subst; try done.
  - exists (valueNode v), (valueNode v). split_and!; try done; constructor.
  - by apply H.
  - by apply H.
  - by apply H.
Qed.

Lemma hashChild_child rd p c t : repr rd false p c t -> (forall v, t <> TVal v) ->
  (t <> TNil -> hashes_child rd p (hash c false) t) -> hashes_child rd p (hashChild (fun c => hash c false) c) t.
Proof.
  intros Hr Hv H. inversion Hr as [|f p' v|? ? ? ? ? ? ? ?|? ? ? ? ? ? ?|? ? ? ? ?]; subst; try (by apply H).
  - exists nilValueNode, nilNode. split_and!; try done; constructor.
Qed.

Lemma canon_tval_absurd D t : canon D t -> forall v, t <> TVal v.
Proof. intros Hc v ->. by apply canon_not_val in Hc. Qed.

(** A collapsed node: what is encoded for the tree. *)
Definition collapsed_ok (c : node) (t : tree) : Prop := encodable c /\ c <> nilNode /\ nitem c = titem t.

Lemma canon_key_ok D k t : canon D (TShort k t) -> hex_ok k.
Proof. inversion 1; subst; [exists ns; auto|exists k; auto]. Qed.

(** The short node: its key is compact, its child collapsed. *)
Lemma collapse_short rd D p k n t : canon D (TShort k t) ->
  hashes_child rd (p ++ k) (hashVal (fun c => hash c false) n) t ->
  exists c v', hashShortNodeChildren (fun c => hash c false) k n = Ret (c, v') /\
    collapsed_ok c (TShort k t) /\ repr rd false (p ++ k) v' t /\ hashed v' t.
Proof.
  intros Hc (cv & v' & E & Ei & He & Hr'). unfold hashShortNodeChildren.
  destruct (compact_fine k (canon_key_ok _ _ _ Hc)) as (Ek & _). rewrite Ek. cbn [mbind outcome_bind]. rewrite E. cbn [mbind outcome_bind].
  eexists _, v'. split; [done|]. split; [|done]. split_and!; [by constructor|done|by rewrite titem_short, <- Ei].
Qed.

(** The full node: the first 16 children are collapsed, the value is copied. *)
Lemma collapse_full rd D p cs ts : canon D (TFull ts) -> length cs = length ts ->
  (forall i c t, cs !! i = Some c -> ts !! i = Some t -> repr rd false (p ++ [Z.of_nat i]) c t) ->
  (forall i c t, cs !! i = Some c -> ts !! i = Some t -> (i < 16)%nat ->
     hashes_child rd (p ++ [Z.of_nat i]) (hashChild (fun c => hash c false) c) t) ->
  exists n cs', hashFullNodeChildren (fun c => hash c false) cs = Ret (n, cs') /\ collapsed_ok n (TFull ts) /\
    length cs' = length ts /\
    (forall i c t, cs' !! i = Some c -> ts !! i = Some t -> repr rd false (p ++ [Z.of_nat i]) c t /\ hashed c t).
Proof.
  intros Hc Hl Hr IH. assert (L : length cs = 17%nat) by (apply canon_full_inv in Hc as (_ & Hl17 & _); lia).
  destruct (hashChildren_spec (fun c => hash c false)
    (fun i c hd c' => forall t, ts !! i = Some t -> nitem hd = tref t /\ encodable hd /\ repr rd false (p ++ [Z.of_nat i]) c' t /\ hashed c' t) cs 16)
    as (hds & cs' & Eh & L1 & L2 & HP).
  { intros i c Hi Hlt. destruct (lookup_lt_is_Some_2 ts i) as [t Ht]; [lia|].
    destruct (IH i c t Hi Ht Hlt) as (hd & c' & E & HH). exists hd, c'. split; [done|]. intros t' Ht'. by replace t' with t by congruence. }
  assert (HC : forall i hd c' t, hds !! i = Some hd -> cs' !! i = Some c' -> ts !! i = Some t ->
    nitem hd = tref t /\ encodable hd /\ repr rd false (p ++ [Z.of_nat i]) c' t /\ hashed c' t).
  { intros i hd c' t Hhd Hc' Ht. destruct (lookup_lt_is_Some_2 cs i) as [c Hi]; [apply lookup_lt_Some in Ht; lia|].
    destruct (HP i c Hi) as (hd2 & c2 & E1 & E2 & HH). assert (hd2 = hd) by congruence. assert (c2 = c') by congruence. subst.
    destruct (Nat.ltb_spec i 16); [by apply HH|]. destruct HH as [-> ->].
    destruct (canon_child D ts i t Hc Ht) as [[? _]|[-> Hv]]; [lia|]. specialize (Hr _ _ _ Hi Ht).
    destruct Hv as [->|(v & -> & _)]; inversion Hr as [| | | |? ? ? ? Hx]; subst; try done; try (by destruct (Hx v));
      split_and!; try done; constructor. }
  unfold hashFullNodeChildren. rewrite Eh. cbn [mbind outcome_bind]. eexists _, cs'. split; [done|].
  assert (HT : forall i hd, hds !! i = Some hd -> exists c' t, cs' !! i = Some c' /\ ts !! i = Some t).
  { intros i hd Hi. apply lookup_lt_Some in Hi. destruct (lookup_lt_is_Some_2 cs' i) as [c' Hc']; [lia|].
    destruct (lookup_lt_is_Some_2 ts i) as [t Ht]; [lia|]. by exists c', t. }
  split_and!; [..|lia|].
  - split_and!; [|done|].
    + constructor; [by destruct hds, cs|]. intros i hd Hi. destruct (HT i hd Hi) as (c' & t & Hc' & Ht). by eapply HC.
    + rewrite titem_full. change (nitem (fullNode hds (mkFlag None false))) with (Lst (nitem <$> hds)). f_equal.
      apply list_eq_same_length with 17%nat; [rewrite length_fmap; lia|rewrite length_fmap; lia|].
      intros i x y _ Hx Hy. apply list_lookup_fmap_Some in Hx as (hd & -> & Hx), Hy as (t & -> & Hy).
      destruct (HT i hd Hx) as (c' & _ & Hc' & _). by eapply HC.
  - intros i c' t Hi Ht. destruct (lookup_lt_is_Some_2 hds i) as [hd' Hx]; [apply lookup_lt_Some in Hi; lia|]. by eapply HC.
Qed.

Lemma hash_repr rd f p n t : repr rd f p n t -> forall D, canon D t -> D <= maxLen -> t <> TNil ->
  exists hd n', hash n f = Ret (hd, n') /\ hashed_ok f hd t /\ repr rd f p n' t /\ hashed n' t.
Proof.
  induction 1 as [f p|f p v|f p k n t fl Hfl Hr IH|f p cs ts fl Hfl Hl Hr IH|f p t Hn Hv Hf Hdb Ha]; intros D Hc HD Hnil.
  - done.
  - by apply canon_not_val in Hc.
  - destruct (flag_hash fl) as [h|] eqn:E0.
    { pose proof Hfl as [Hh _]. destruct (Hh h E0) as (-> & Hf & Hb). exists (hashNode (thash (TShort k t))), (shortNode k n fl).
      cbn [hash]. rewrite E0. split_and!; [done|by left|by constructor|constructor; [congruence|done]]. }
    destruct (collapse_short rd D p k n t Hc) as (c & v' & E & (He & Hne & Ei) & Hr' & Hhv).
    { inversion Hc as [|? ns v Hn Hv HlD|? ns ts Hne Hn Hc'|]; subst; (apply hashVal_child; [done|done|]); intros Hx; [by destruct (Hx v)|].
      apply hashes_child_of; [done|done|]. pose proof (len_nonneg k). by apply (IH (D - len k)); [|lia|]. }
    cbn [hash]. rewrite E0, E. cbn [mbind outcome_bind].
    destruct (toHash_ok D f (TShort k t) c) as (hd & Eh & Hh); [done..|].
    unfold shortnodeToHash. rewrite Eh. cbn [mbind outcome_bind]. exists hd. eexists. split; [done|].
    destruct (set_hash_ok rd f hd p (TShort k t) fl _ (hashed v' t) Hh Hfl Hhv) as [Hok Hsm].
    split_and!; [done|by constructor|by constructor].
  - destruct (flag_hash fl) as [h|] eqn:E0.
    { pose proof Hfl as [Hh _]. destruct (Hh h E0) as (-> & Hf & Hb). exists (hashNode (thash (TFull ts))), (fullNode cs fl).
      cbn [hash]. rewrite E0. split_and!; [done|by left|by constructor|constructor; [congruence|done]]. }
    destruct (collapse_full rd D p cs ts Hc Hl Hr) as (c & cs' & E & (He & Hne & Ei) & Hl' & Hrc).
    { intros i c t Hi Ht Hlt. destruct (canon_child D ts i t Hc Ht) as [[_ Hct]|[? _]]; [|lia].
      apply hashChild_child; [by eapply Hr|by eapply canon_tval_absurd|]. intros Hnt.
      apply hashes_child_of; [done|by eapply canon_tval_absurd|]. by eapply (IH i c t Hi Ht (D - 1)); [|lia|]. }
    cbn [hash]. rewrite E0, E. cbn [mbind outcome_bind].
    destruct (toHash_ok D f (TFull ts) c) as (hd & Eh & Hh); [done..|].
    unfold fullnodeToHash. rewrite Eh. cbn [mbind outcome_bind]. exists hd. eexists. split; [done|].
    assert (Hhc : forall i c t, cs' !! i = Some c -> ts !! i = Some t -> hashed c t) by (intros i x t Hx Ht; by eapply Hrc).
    destruct (set_hash_ok rd f hd p (TFull ts) fl _ _ Hh Hfl Hhc) as [Hok Hsm].
    split_and!; [done| |by constructor]. constructor; [done|done|]. intros i x t Hx Ht. by eapply Hrc.
  - exists (hashNode (thash t)), (hashNode (thash t)). split_and!; [done|by left|by constructor|constructor].
Qed.

(** [proofHash] on a node in memory: the encoding of the tree, and its reference. *)
Lemma proofHash_repr rd D f p n t : repr rd f p n t -> canon D t -> D <= maxLen -> t <> TNil ->
  (forall h, n <> hashNode h) ->
  exists c hd n', proofHash n = Ret (c, hd, n') /\ nodeToBytes c = Ret (tenc t) /\ hashed_ok false hd t /\ repr rd f p n' t /\
    (forall h, n' <> hashNode h) /\ (hashed n t -> hashed n' t).
Proof.
  intros Hr Hc HD Hnil Hh. destruct (canon_fine D t Hc HD Hnil) as [_ Hlen].
  assert (Hb : forall c, collapsed_ok c t -> nodeToBytes c = Ret (tenc t)).
  { intros c (He & Hne & Ei). rewrite nodeToBytes_item, Ei; try done. rewrite Ei. apply encMax_u64.
    pose proof (len_nonneg (encode (titem t))). lia. }
  inversion Hr as [| |? ? k v t' fl Hfl Hr'|? ? cs ts fl Hfl Hl Hr'|]; subst; try done; [by apply canon_not_val in Hc|..|by destruct (Hh (thash t))].
  - destruct (collapse_short rd D p k v t' Hc) as (c & v' & E & Hcc & Hrv & Hhv).
    { inversion Hc as [|? ns w Hn Hv HlD|? ns ts Hne Hn Hc'|]; subst; (apply hashVal_child; [done|done|]); intros Hx; [by destruct (Hx w)|].
      apply hashes_child_of; [done|done|]. pose proof (len_nonneg k). by eapply (hash_repr rd false _ _ _ Hr' (D - len k)); [|lia|]. }
    cbn [proofHash]. rewrite E. cbn [mbind outcome_bind].
    destruct (toHash_ok D false (TShort k t') c) as (hd & Eh & Hhd); [done|done|done|apply Hcc|apply Hcc|apply Hcc|].
    unfold shortnodeToHash. rewrite Eh. cbn [mbind outcome_bind]. exists c, hd. eexists. split_and!; [done|by apply Hb|done| |done|by inversion 1; constructor].
    constructor; [|done]. destruct Hfl as [Hf1 Hf2]. split; [|done]. intros h Eh'. by destruct (Hf1 h Eh') as (? & ? & _).
  - destruct (collapse_full rd D p cs ts Hc Hl Hr') as (c & cs' & E & Hcc & Hl' & Hrc).
    { intros i x t Hi Ht Hlt. destruct (canon_child D ts i t Hc Ht) as [[_ Hct]|[? _]]; [|lia].
      apply hashChild_child; [by eapply Hr'|by eapply canon_tval_absurd|]. intros Hnt.
      apply hashes_child_of; [done|by eapply canon_tval_absurd|]. by eapply (hash_repr rd false _ _ _ (Hr' i x t Hi Ht) (D - 1)); [|lia|]. }
    cbn [proofHash]. rewrite E. cbn [mbind outcome_bind].
    destruct (toHash_ok D false (TFull ts) c) as (hd & Eh & Hhd); [done|done|done|apply Hcc|apply Hcc|apply Hcc|].
    unfold fullnodeToHash. rewrite Eh. cbn [mbind outcome_bind]. exists c, hd. eexists. split_and!; [done|by apply Hb|done| |done|inversion 1; constructor; [done|]; intros i x t Hx Ht; by eapply Hrc].
    constructor; [|done|intros i x t Hx Ht; by eapply Hrc]. destruct Hfl as [Hf1 Hf2]. split; [|done]. intros h Eh'.
    destruct (Hf1 h Eh') as (? & ? & _). split_and!; [done|done|]. intros i x t Hx Ht. by eapply Hrc.
Qed.
End repr.
