(* ===== verification/TrieOps.v ===== *)
(** * The operations on nodes refine the operations on trees

    [get], [insert] and [delete] on nodes that represent a canonical tree: the value they find, the
    tree that the new nodes represent, and that it is canonical again.  No operation panics or runs
    out of fuel, whether the nodes are in memory or still in the database. *)

From S2P Require Import Prelude Bytes Rlp RlpTheorems VM TrieKeys TrieNode Trie TrieSpec TrieHash.

Set Default Proof Using "Type".

(** ** Complete keys *)

Lemma complete_cons x r : complete (x :: r) -> (is_nibble x /\ complete r) \/ (x = 16 /\ r = []).
Proof.
  intros ([|y ns] & Hn & E); cbn in E; injection E as -> ->; [by right|left].
  apply Forall_cons in Hn as [Hy Hn]. split; [done|by exists ns].
Qed.

Lemma complete_not_nil : ~ complete [].
Proof. intros ([|y ns] & _ & E); done. Qed.

Lemma complete_app ns r : Forall is_nibble ns -> complete (ns ++ r) -> complete r.
Proof.
  induction ns as [|x ns IH]; intros Hn Hc; [done|]. apply Forall_cons in Hn as [Hx Hn].
  cbn in Hc. apply complete_cons in Hc as [[_ Hc]|[-> _]]; [by apply IH|]. unfold is_nibble in Hx. lia.
Qed.

Lemma complete_term ns r : Forall is_nibble ns -> complete ((ns ++ [16]) ++ r) -> r = [].
Proof.
  intros Hn Hc. rewrite <- app_assoc in Hc. apply complete_app in Hc; [|done]. cbn in Hc.
  apply complete_cons in Hc as [[Hx _]|[_ ->]]; [unfold is_nibble in Hx; lia|done].
Qed.

Lemma complete_split k r : complete (k ++ r) -> (r = [] /\ complete k) \/ (Forall is_nibble k /\ complete r).
Proof.
  induction k as [|x k IH]; intros Hc; [by right|]. cbn in Hc. apply complete_cons in Hc as [[Hx Hc]|[-> E]].
  - destruct (IH Hc) as [[-> (ns & Hn & ->)]|[Hk Hr]]; [left|right; auto].
    split; [done|]. exists (x :: ns). auto.
  - apply app_eq_nil in E as [-> ->]. left. split; [done|]. by exists [].
Qed.

(** A subtree and the rest of a key that leads into it. *)
Definition at_key (D : Z) (t : tree) (rest : bytes) : Prop :=
  (canon D t /\ complete rest) \/ (rest = [] /\ (t = TNil \/ exists v, t = TVal v /\ val_ok v)).

Lemma at_key_full D ts rest : at_key D (TFull ts) rest -> canon D (TFull ts) /\ exists i t r,
  rest = Z.of_nat i :: r /\ ts !! i = Some t /\ at_key (D - 1) t r /\ (i <= 16)%nat.
Proof.
  intros [[Hc Hk]|[_ [?|(v & ? & _)]]]; [|done..]. split; [done|].
  destruct rest as [|x r]; [by apply complete_not_nil in Hk|].
  pose proof (canon_full_inv _ _ Hc) as (_ & Hl & _). apply complete_cons in Hk as [[Hx Hr]|[-> ->]].
  - unfold is_nibble in Hx. destruct (lookup_lt_is_Some_2 ts (Z.to_nat x)) as [t Ht]; [lia|].
    exists (Z.to_nat x), t, r. rewrite Z2Nat.id by lia. split_and!; [done|done| |lia].
    destruct (canon_child D ts _ t Hc Ht) as [[_ Hct]|[? _]]; [by left|lia].
  - destruct (lookup_lt_is_Some_2 ts 16) as [t Ht]; [lia|]. exists 16%nat, t, []. split_and!; [done|done| |lia].
    destruct (canon_child D ts _ t Hc Ht) as [[? _]|[_ Hv]]; [lia|]. by right.
Qed.

Lemma at_key_short D k t rest : at_key D (TShort k t) rest -> canon D (TShort k t) /\ complete rest /\ k <> [] /\
  (forall r, rest = k ++ r -> at_key (D - len k) t r) /\
  ((exists ns v, k = ns ++ [16] /\ Forall is_nibble ns /\ t = TVal v /\ val_ok v) \/
   (Forall is_nibble k /\ exists ts, t = TFull ts /\ canon (D - len k) t)).
Proof.
  intros [[Hc Hk]|[_ [?|(v & ? & _)]]]; [|done..]. split_and!; [done|done|by eapply canon_short_key|..].
  - intros r ->. inversion Hc as [|? ns v Hn Hv Hl|? ns ts Hne Hn Hc'|]; subst.
    + right. split; [by eapply complete_term|]. right. by exists v.
    + left. split; [done|by eapply complete_app].
  - inversion Hc as [|? ns v Hn Hv Hl|? ns ts Hne Hn Hc'|]; subst; [left; by exists ns, v|right; eauto].
Qed.

Lemma at_key_canon D t rest : at_key D t rest -> rest <> [] -> canon D t /\ complete rest.
Proof. intros [?|[-> _]]; done. Qed.

(** ** Updates of trees *)

(** [t'] stores [o] at the key [r] and agrees with [t] elsewhere. *)
Definition upd (t : tree) (r : bytes) (o : option bytes) (t' : tree) : Prop :=
  forall q, tlookup t' q = if decide (q = r) then o else tlookup t q.

Lemma upd_short k t r o t' : upd t r o t' -> upd (TShort k t) (k ++ r) o (TShort k t').
Proof.
  intros H q. cbn [tlookup]. destruct (HasPrefix q k) eqn:E.
  - apply HasPrefix_inv in E. revert E. generalize (drop (length k) q) as s. intros s ->. rewrite (H s).
    destruct (decide (s = r)) as [->|Hne]; [by rewrite decide_True|]. rewrite decide_False; [done|].
    intros Hq. by apply app_inv_head in Hq.
  - rewrite decide_False; [done|]. intros ->. by rewrite HasPrefix_app in E.
Qed.

Lemma child_at_insert ts i t z : (i < length ts)%nat ->
  child_at (<[i := t]> ts) z = if decide (z = Z.of_nat i) then t else child_at ts z.
Proof.
  intros Hi. unfold child_at, child_index. destruct (Z.leb_spec 0 z).
  - case_decide as E.
    + subst z. rewrite Nat2Z.id, list_lookup_insert_eq by done. done.
    + rewrite list_lookup_insert_ne by lia. done.
  - by rewrite decide_False by lia.
Qed.

Lemma child_at_replicate n z : child_at (replicate n TNil) z = TNil.
Proof.
  unfold child_at. destruct (child_index z) as [i|]; [|done]. destruct (replicate n TNil !! i) eqn:E; [|done].
  by apply lookup_replicate in E as [-> _].
Qed.

Lemma upd_full ts i t r o t' : ts !! i = Some t -> upd t r o t' ->
  upd (TFull ts) (Z.of_nat i :: r) o (TFull (<[i := t']> ts)).
Proof.
  intros Hi H q. destruct q as [|z q]; [done|]. apply lookup_lt_Some in Hi as Hlt.
  rewrite !tlookup_full, child_at_insert by done. case_decide as E.
  - subst z. rewrite H, (child_at_lookup _ _ _ Hi). destruct (decide (q = r)) as [->|]; [by rewrite decide_True|].
    rewrite decide_False; [done|congruence].
  - rewrite decide_False; [done|congruence].
Qed.

(** A short node with a key that may be empty. *)
Definition graft (k : bytes) (t : tree) : tree := match k with [] => t | _ => TShort k t end.

Lemma tlookup_short_nil t q : tlookup (TShort [] t) q = tlookup t q.
Proof. done. Qed.

Lemma tlookup_graft k t q : tlookup (graft k t) q = tlookup (TShort k t) q.
Proof. by destruct k. Qed.

Lemma HasPrefix_cons x q y k : HasPrefix (x :: q) (y :: k) = (x =? y) && HasPrefix q k.
Proof.
  unfold HasPrefix. cbn [length take]. destruct (Z.eqb_spec x y) as [->|]; cbn [andb].
  - apply bool_decide_ext. split; [by intros [=]|by intros ->].
  - apply bool_decide_eq_false_2. congruence.
Qed.

Lemma tlookup_short_cons y k t x q :
  tlookup (TShort (y :: k) t) (x :: q) = if x =? y then tlookup (TShort k t) q else None.
Proof. cbn [tlookup length drop]. rewrite HasPrefix_cons. by destruct (x =? y). Qed.

Lemma tlookup_short_app a b t q : tlookup (TShort (a ++ b) t) q = tlookup (TShort a (TShort b t)) q.
Proof.
  revert q. induction a as [|x a IH]; intros q; [done|]. destruct q as [|z q]; [done|].
  cbn [app]. rewrite !tlookup_short_cons. by destruct (z =? x).
Qed.

(** The full node that replaces a short node whose key differs from the one that is inserted. *)
Definition branch (y x : nat) (t1 t2 : tree) : tree := TFull (<[x := t2]> (<[y := t1]> (replicate 17 TNil))).

Lemma upd_branch y x s r t v : x <> y -> (y <= 16)%nat -> (x <= 16)%nat ->
  upd (TShort (Z.of_nat y :: s) t) (Z.of_nat x :: r) (Some v) (branch y x (graft s t) (graft r (TVal v))).
Proof.
  intros Hne Hy Hx [|z q]; [done|]. unfold branch.
  rewrite tlookup_full, !child_at_insert by (rewrite ?length_insert, ?length_replicate; lia). rewrite tlookup_short_cons.
  case_decide as Ez.
  - subst z. rewrite (proj2 (Z.eqb_neq _ _)) by lia. rewrite tlookup_graft.
    case_decide as Eq.
    + injection Eq as ->. pose proof (tlookup_short r (TVal v) []) as E. rewrite app_nil_r in E. done.
    + destruct (tlookup (TShort r (TVal v)) q) as [w|] eqn:E; [|done].
      apply tlookup_short_inv in E as (r' & -> & [-> _]%tlookup_val). rewrite app_nil_r in Eq. done.
  - rewrite (decide_False (P := z :: q = _)) by congruence. case_decide as Ey.
    + subst z. by rewrite Z.eqb_refl, tlookup_graft.
    + rewrite (proj2 (Z.eqb_neq _ _)) by lia. by rewrite child_at_replicate.
Qed.

Lemma upd_ext t t2 r o t' : (forall q, tlookup t q = tlookup t2 q) -> upd t2 r o t' -> upd t r o t'.
Proof. intros E H q. by rewrite H, E. Qed.

(** What may stand below a full node at the index [i]. *)
Definition child_ok (D : Z) (i : nat) (t : tree) : Prop :=
  ((i < 16)%nat /\ canon D t) \/ (i = 16%nat /\ (t = TNil \/ exists v, t = TVal v /\ val_ok v)).

Lemma canon_full_of D ts : 1 <= D -> length ts = 17%nat -> (forall i t, ts !! i = Some t -> child_ok (D - 1) i t) ->
  (exists i j t u, i <> j /\ ts !! i = Some t /\ t <> TNil /\ ts !! j = Some u /\ u <> TNil) -> canon D (TFull ts).
Proof.
  intros HD Hl Hc (i & j & t & u & Hij & Hi & Ht & Hj & Hu). apply (canon_full D ts i j); eauto.
  - intros m w Hm Hw. destruct (Hc m w Hw) as [[_ ?]|[? _]]; [done|lia].
  - destruct (lookup_lt_is_Some_2 ts 16) as [w Hw]; [lia|]. rewrite Hw.
    destruct (Hc _ _ Hw) as [[? _]|[_ [->|(v & -> & Hv)]]]; [lia|by left|right; eauto].
Qed.

Lemma canon_children D ts i t : canon D (TFull ts) -> ts !! i = Some t -> child_ok (D - 1) i t.
Proof. apply canon_child. Qed.

Lemma canon_branch D y x t1 t2 : x <> y -> 1 <= D -> child_ok (D - 1) y t1 -> child_ok (D - 1) x t2 ->
  t1 <> TNil -> t2 <> TNil -> canon D (branch y x t1 t2).
Proof.
  intros Hne HD H1 H2 N1 N2. assert (Hy : (y <= 16)%nat) by (destruct H1; lia). assert (Hx : (x <= 16)%nat) by (destruct H2; lia).
  apply canon_full_of; [done|by rewrite !length_insert, length_replicate| |].
  - intros i t Ht. destruct (decide (i = x)) as [->|Hix].
    { rewrite list_lookup_insert_eq in Ht by (rewrite length_insert, length_replicate; lia). by injection Ht as <-. }
    rewrite list_lookup_insert_ne in Ht by done. destruct (decide (i = y)) as [->|Hiy].
    { rewrite list_lookup_insert_eq in Ht by (rewrite length_replicate; lia). by injection Ht as <-. }
    rewrite list_lookup_insert_ne in Ht by done. apply lookup_replicate in Ht as [-> Hi].
    destruct (decide (i = 16%nat)) as [->|]; [right; split; [done|by left]|left; split; [lia|constructor]].
  - exists y, x, t1, t2. split_and!; try done.
    + rewrite list_lookup_insert_ne, list_lookup_insert_eq; [done| |done]. rewrite length_replicate. lia.
    + rewrite list_lookup_insert_eq; [done|]. rewrite length_insert, length_replicate. lia.
Qed.

(** ** Slices of keys *)

Lemma slice_rest (p r : bytes) : slice (p ++ r) (len p) (len (p ++ r)) = Ret r.
Proof.
  rewrite slice_ok by (rewrite ?len_app; pose proof (len_nonneg p); pose proof (len_nonneg r); lia). f_equal.
  unfold zslice, len. rewrite Nat2Z.id, drop_app_length, length_app. apply take_ge. lia.
Qed.

Lemma slice_prefix (p r : bytes) : slice (p ++ r) 0 (len p) = Ret p.
Proof.
  rewrite slice_ok by (rewrite ?len_app; pose proof (len_nonneg p); pose proof (len_nonneg r); lia). f_equal.
  unfold zslice, len. rewrite Z.sub_0_r, Nat2Z.id. cbn. apply take_app_length.
Qed.

Lemma index_app (p : bytes) x r : index (p ++ x :: r) (len p) = Ret x.
Proof. unfold len. apply index_lookup. by rewrite list_lookup_middle. Qed.

Lemma set_child_ok cs i c c' : cs !! i = Some c' -> set_child cs (Z.of_nat i) c = Ret (<[i := c]> cs).
Proof. intros H. unfold set_child. rewrite (index_lookup _ _ _ H). cbn. by rewrite Nat2Z.id. Qed.

Lemma take_S_app {A} (p : list A) x r : take (S (length p)) (p ++ x :: r) = p ++ [x].
Proof. induction p as [|y p IH]; [done|]. cbn. by rewrite <- IH. Qed.
Lemma drop_S_app {A} (p : list A) x r : drop (S (length p)) (p ++ x :: r) = r.
Proof. induction p as [|y p IH]; [done|]. cbn. exact IH. Qed.

(** ** Paths of nodes and the tracer *)

(** The paths of the nodes of a tree. *)
Inductive node_at : tree -> bytes -> Prop :=
  | na_short k t : node_at (TShort k t) []
  | na_full ts : node_at (TFull ts) []
  | na_val k t r : node_at t r -> node_at (TShort k t) (k ++ r)
  | na_child ts i t r : ts !! i = Some t -> node_at t r -> node_at (TFull ts) (Z.of_nat i :: r).

Lemma node_at_val v r : ~ node_at (TVal v) r.
Proof. inversion 1. Qed.
Lemma node_at_nil r : ~ node_at TNil r.
Proof. inversion 1. Qed.

Lemma node_at_short_inv k t q : node_at (TShort k t) q -> q = [] \/ exists r, q = k ++ r /\ node_at t r.
Proof. intros H. remember (TShort k t) as u eqn:Eu. destruct H; simplify_eq; [by left|right; by eexists]. Qed.

Lemma node_at_short k t r : k <> [] -> node_at (TShort k t) (k ++ r) -> node_at t r.
Proof.
  intros Hk H. apply node_at_short_inv in H as [E|(r' & E & H)]; [by destruct k|]. by apply app_inv_head in E as ->.
Qed.

Lemma node_at_full ts i t r : ts !! i = Some t -> node_at (TFull ts) (Z.of_nat i :: r) -> node_at t r.
Proof.
  intros Hi H. remember (Z.of_nat i :: r) as q eqn:Eq. remember (TFull ts) as u eqn:Eu.
  destruct H as [| | |ts' j t' r' Hj H]; try done. injection Eu as ->. injection Eq as Ej ->. apply Nat2Z.inj in Ej as ->.
  by replace t with t' by congruence.
Qed.

(** An insertion below [p] takes paths out of the deleted ones, among them those of all new nodes. *)
Definition ins_tr (p : bytes) (t : tree) (tr : tracer) (t' : tree) (tr' : tracer) : Prop :=
  deletes tr' ⊆ deletes tr /\ forall r, node_at t' r -> node_at t r \/ p ++ r ∉ deletes tr'.

(** A deletion makes no new nodes, and the paths that it adds to the deleted ones have no node. *)
Definition del_tr (p : bytes) (t : tree) (tr : tracer) (t' : tree) (tr' : tracer) : Prop :=
  (forall q, q ∈ deletes tr' -> q ∈ deletes tr \/ exists r, q = p ++ r /\ ~ node_at t' r) /\
  (forall r, node_at t' r -> node_at t r).

Lemma ins_tr_same p t tr tr' : deletes tr' = deletes tr -> ins_tr p t tr t tr'.
Proof. intros E. split; [by rewrite E|auto]. Qed.
Lemma del_tr_same p t tr tr' : deletes tr' = deletes tr -> del_tr p t tr t tr'.
Proof. intros E. split; [rewrite E; auto|auto]. Qed.

Lemma ins_tr_pre p t tr0 tr t' tr' : deletes tr = deletes tr0 -> ins_tr p t tr t' tr' -> ins_tr p t tr0 t' tr'.
Proof. unfold ins_tr. intros ->. done. Qed.
Lemma del_tr_pre p t tr0 tr t' tr' : deletes tr = deletes tr0 -> del_tr p t tr t' tr' -> del_tr p t tr0 t' tr'.
Proof. unfold del_tr. intros ->. done. Qed.

Lemma ins_tr_short p k t tr t' tr' : ins_tr (p ++ k) t tr t' tr' -> ins_tr p (TShort k t) tr (TShort k t') tr'.
Proof.
  intros [H1 H2]. split; [done|]. intros r Hr. inversion Hr as [| |? ? r' Hr'|]; subst; [left; constructor|].
  destruct (H2 r' Hr') as [H|H]; [left; by constructor|right]. by rewrite app_assoc.
Qed.

Lemma ins_tr_full p ts i t tr t' tr' : ts !! i = Some t -> ins_tr (p ++ [Z.of_nat i]) t tr t' tr' ->
  ins_tr p (TFull ts) tr (TFull (<[i := t']> ts)) tr'.
Proof.
  intros Hi [H1 H2]. split; [done|]. intros r Hr. inversion Hr as [| | |? j u r' Hj Hr']; subst; [left; constructor|].
  destruct (decide (i = j)) as [<-|Hne].
  - rewrite list_lookup_insert_eq in Hj by (by eapply lookup_lt_Some). injection Hj as <-.
    destruct (H2 r' Hr') as [H|H]; [left; by econstructor|right]. by rewrite <- app_assoc in H.
  - rewrite list_lookup_insert_ne in Hj by done. left. by econstructor.
Qed.

Lemma del_tr_short p k t tr t' tr' : k <> [] -> del_tr (p ++ k) t tr t' tr' -> del_tr p (TShort k t) tr (TShort k t') tr'.
Proof.
  intros Hk [H1 H2]. split.
  - intros q Hq. destruct (H1 q Hq) as [?|(r & -> & Hr)]; [by left|right]. exists (k ++ r). rewrite app_assoc.
    split; [done|]. contradict Hr. by eapply node_at_short.
  - intros r Hr. inversion Hr as [| |? ? r' Hr'|]; subst; constructor; auto.
Qed.

Lemma del_tr_full p ts i t tr t' tr' : ts !! i = Some t -> del_tr (p ++ [Z.of_nat i]) t tr t' tr' ->
  del_tr p (TFull ts) tr (TFull (<[i := t']> ts)) tr'.
Proof.
  intros Hi [H1 H2]. apply lookup_lt_Some in Hi as Hlt. split.
  - intros q Hq. destruct (H1 q Hq) as [?|(r & -> & Hr)]; [by left|right]. exists (Z.of_nat i :: r). rewrite <- app_assoc.
    split; [done|]. contradict Hr. eapply node_at_full; [|done]. by rewrite list_lookup_insert_eq.
  - intros r Hr. inversion Hr as [| | |? j u r' Hj Hr']; subst; [constructor|]. destruct (decide (i = j)) as [<-|Hne].
    + rewrite list_lookup_insert_eq in Hj by done. injection Hj as <-. econstructor; [done|auto].
    + rewrite list_lookup_insert_ne in Hj by done. by econstructor.
Qed.

Lemma del_tr_trans p t0 tr0 t1 tr1 t2 tr2 : del_tr p t0 tr0 t1 tr1 -> del_tr p t1 tr1 t2 tr2 -> del_tr p t0 tr0 t2 tr2.
Proof.
  intros [A1 A2] [B1 B2]. split; [|auto]. intros q Hq. destruct (B1 q Hq) as [H|?]; [|by right].
  destruct (A1 q H) as [?|(r & -> & Hr)]; [by left|right]. exists r. auto.
Qed.

(** Two short nodes one after the other become one. *)
Lemma del_tr_merge p k ck ct tr tr' : k <> [] -> ck <> [] -> (forall q, q ∈ deletes tr' -> q ∈ deletes tr \/ q = p ++ k) ->
  del_tr p (TShort k (TShort ck ct)) tr (TShort (k ++ ck) ct) tr'.
Proof.
  intros Hk Hck Hd. split.
  - intros q Hq. destruct (Hd q Hq) as [?| ->]; [by left|right]. exists k. split; [done|]. intros H.
    apply node_at_short_inv in H as [->|(r & E & _)]; [done|]. apply (f_equal length) in E. rewrite !length_app in E.
    destruct ck; [done|cbn in E; lia].
  - intros r Hr. inversion Hr as [| |? ? r' Hr'|]; subst; [constructor|]. rewrite <- app_assoc. by repeat constructor.
Qed.

(** A full node whose only child is at the index [i]. *)
Lemma single_at ts i t : ts !! i = Some t -> forall r, node_at (TShort [Z.of_nat i] t) r -> node_at (TFull ts) r.
Proof. intros Hi r Hr. inversion Hr as [| |? ? r' Hr'|]; subst; [constructor|]. by econstructor. Qed.

Lemma onInsert_deletes q tr : deletes (onInsert q tr) ⊆ deletes tr /\ q ∉ deletes (onInsert q tr).
Proof. unfold onInsert. case_decide; cbn; [|done]. split; [set_solver|set_solver]. Qed.

Lemma onDelete_deletes q tr x : x ∈ deletes (onDelete q tr) -> x ∈ deletes tr \/ x = q.
Proof. unfold onDelete. case_decide; cbn; [by left|]. set_solver. Qed.

(** ** [get] *)

Section ops.
Context `{C : Crypto} (rd : trieReader).

Definition is_hash (n : node) : bool := match n with hashNode _ => true | _ => false end.
Definition opFuel (n : node) (rest : bytes) : nat := 2 * length rest + (if is_hash n then 1 else 0).

Lemma dnode_not_hash h t : is_hash (dnode h t) = false.
Proof. by destruct t. Qed.

(** One child of a full node is replaced. *)
Lemma repr_full_child f p cs ts fl fl' i c t : repr rd f p (fullNode cs fl) (TFull ts) -> (i < length cs)%nat ->
  flag_ok rd f p fl' (TFull (<[i := t]> ts))
    (forall j c' t', <[i := c]> cs !! j = Some c' -> <[i := t]> ts !! j = Some t' -> hashed c' t') ->
  repr rd false (p ++ [Z.of_nat i]) c t ->
  repr rd f p (fullNode (<[i := c]> cs) fl') (TFull (<[i := t]> ts)).
Proof.
  intros Hr Hi Hfl Hc. inversion Hr as [| | |? ? ? ? ? _ Hl Hcs|]; subst.
  constructor; [done|by rewrite !length_insert|]. intros j c' t' Hc' Ht'.
  destruct (decide (i = j)) as [<-|Hne].
  - rewrite list_lookup_insert_eq in Hc' by lia. rewrite list_lookup_insert_eq in Ht' by lia. by simplify_eq.
  - rewrite list_lookup_insert_ne in Hc' by done. rewrite list_lookup_insert_ne in Ht' by done. by eapply Hcs.
Qed.

Lemma at_key_tree D t r : at_key D t r -> t <> TNil -> (forall v, t <> TVal v) -> canon D t.
Proof. intros [[? _]|[_ [?|(v & ? & _)]]] ? Hv; [done|done|by destruct (Hv v)]. Qed.

(** The flags of a full node one of whose children was loaded. *)
Lemma flag_full_child f p fl (cs : list node) (ts : list tree) i c c' t : flag_ok rd f p fl (TFull ts) (forall j c t, cs !! j = Some c -> ts !! j = Some t -> hashed c t) ->
  cs !! i = Some c -> ts !! i = Some t -> (hashed c t -> hashed c' t) ->
  flag_ok rd f p fl (TFull ts) (forall j d u, <[i := c']> cs !! j = Some d -> ts !! j = Some u -> hashed d u).
Proof.
  intros [H1 H2] Hi Ht Hc. split; [|done]. intros h Hh. destruct (H1 h Hh) as (E & Hb & Hall). split_and!; [done|done|].
  intros j d u Hj Hu. destruct (decide (i = j)) as [<-|Hne].
  - rewrite list_lookup_insert_eq in Hj by (by eapply lookup_lt_Some). simplify_eq. by apply Hc, (Hall i).
  - rewrite list_lookup_insert_ne in Hj by done. by apply (Hall j).
Qed.

Lemma hashed_full_child fl cs ts i c c' t : hashed (fullNode cs fl) (TFull ts) -> cs !! i = Some c -> ts !! i = Some t ->
  (hashed c t -> hashed c' t) -> hashed (fullNode (<[i := c']> cs) fl) (TFull ts).
Proof.
  intros Hh Hi Ht Hc. inversion Hh as [| | |? ? ? Hsm Hall|]; subst. constructor; [done|]. intros j d u Hj Hu. destruct (decide (i = j)) as [<-|Hne].
  - rewrite list_lookup_insert_eq in Hj by (by eapply lookup_lt_Some). simplify_eq. by apply Hc, (Hall i).
  - rewrite list_lookup_insert_ne in Hj by done. by apply (Hall j).
Qed.

Lemma get_repr fuel : forall n p rest t D f tr, repr rd f p n t -> at_key D t rest -> D <= maxLen ->
  (opFuel n rest < fuel)%nat ->
  exists n' b tr', get rd fuel n (p ++ rest) (len p) tr = Ret (inl (tlookup t rest, n', b), tr') /\ repr rd f p n' t /\
    (hashed n t -> hashed n' t) /\ deletes tr' = deletes tr.
Proof.
  induction fuel as [|fuel IH]; intros n p rest t D f tr Hr Hk HD Hf; [lia|].
  destruct Hr as [f p|f p v|f p k n t fl Hfl Hr|f p cs ts fl Hfl Hl Hr|f p t Hn Hv Hbig Hdb Ha]; cbn [get].
  - exists nilNode, false, tr. split_and!; [done|constructor|done|done].
  - destruct Hk as [[Hc _]|[-> _]]; [by apply canon_not_val in Hc|]. exists (valueNode v), false, tr. split_and!; [done|constructor|done|done].
  - unfold t_bind, t_lift. rewrite slice_rest. cbn [tlookup]. destruct (HasPrefix rest k) eqn:Hp; cbn [negb].
    2: { exists (shortNode k n fl), false, tr. split_and!; [done|by constructor|done|done]. }
    apply at_key_short in Hk as (Hc & Hcomp & Hkne & Hsub & _). apply HasPrefix_inv in Hp. revert Hp.
    generalize (drop (length k) rest) as r. intros r ->. specialize (Hsub r eq_refl).
    destruct (IH n (p ++ k) r t (D - len k) false tr) as (n' & b & tr' & E & Hr' & Hh' & Htr); [done|done|pose proof (len_nonneg k); lia| |].
    { unfold opFuel in *. rewrite length_app in Hf. destruct k; [done|]. cbn [length is_hash] in *. destruct (is_hash n); lia. }
    rewrite <- app_assoc, len_app in E. rewrite E. eexists _, b, tr'. split; [done|].
    assert (Hb : hashed n t -> hashed (if b then n' else n) t) by (by destruct b). split_and!; [..|done].
    + constructor; [|by destruct b]. destruct Hfl as [H1 H2]. split; [|done]. intros h Hh. destruct (H1 h Hh) as (? & ? & ?). auto.
    + inversion 1; subst. constructor; auto.
  - apply at_key_full in Hk as (Hc & i & t & r & -> & Ht & Hsub & _). unfold t_bind, t_lift. rewrite index_app.
    destruct (lookup_lt_is_Some_2 cs i) as [c Hi]; [apply lookup_lt_Some in Ht; lia|]. rewrite (index_lookup _ _ _ Hi).
    destruct (IH c (p ++ [Z.of_nat i]) r t (D - 1) false tr) as (n' & b & tr' & E & Hr' & Hh' & Htr); [by eapply Hr|done|lia| |].
    { unfold opFuel in *. cbn [length is_hash] in *. destruct (is_hash c); lia. }
    rewrite <- app_assoc, len_app in E. cbn [app] in E. change (len [Z.of_nat i]) with 1 in E. rewrite E.
    rewrite tlookup_full, (child_at_lookup _ _ _ Ht). assert (Hfull : repr rd f p (fullNode cs fl) (TFull ts)) by (by constructor).
    destruct b; [rewrite (set_child_ok _ _ _ _ Hi)|]; eexists _, _, tr'; (split; [done|]); [|done].
    rewrite <- (list_insert_id ts i t Ht) at 1. split_and!; [..|done].
    + eapply repr_full_child; [done|by eapply lookup_lt_Some| |done]. rewrite (list_insert_id ts i t Ht). by eapply flag_full_child.
    + intros Hh. by eapply hashed_full_child.
  - pose proof (at_key_tree _ _ _ Hk Hn Hv) as Hc. unfold t_bind, t_lift. rewrite slice_prefix.
    destruct (resolve_repr rd f p (thash t) t D tr) as (tr1 & E1 & Hr1 & Hh1 & Ht1); [by constructor|done|done|]. rewrite E1.
    destruct (IH (dnode (Some (thash t)) t) p rest t D f tr1) as (n' & b & tr' & E & Hr' & Hh' & Htr); [done|done|done| |].
    { unfold opFuel in *. rewrite dnode_not_hash. cbn [is_hash] in Hf. lia. }
    rewrite E. exists n', true, tr'. split_and!; [done|done|auto|congruence].
Qed.

(** ** [insert] *)

Lemma prefixLen_spec a b : exists pre a' b', a = pre ++ a' /\ b = pre ++ b' /\ length pre = prefixLen a b /\
  match a', b' with x :: _, y :: _ => x <> y | _, _ => True end.
Proof.
  revert b. induction a as [|x a IH]; intros b; [by exists [], [], b|].
  destruct b as [|y b]; [by exists [], (x :: a), []|]. cbn [prefixLen]. destruct (Z.eqb_spec x y) as [->|Hne].
  - destruct (IH b) as (pre & a' & b' & -> & -> & E & H). exists (y :: pre), a', b'. cbn [length app]. by rewrite E.
  - by exists [], (x :: a), (y :: b).
Qed.

Lemma prefixLen_le a b : (prefixLen a b <= length a)%nat /\ (prefixLen a b <= length b)%nat.
Proof.
  revert b. induction a as [|x a IH]; intros [|y b]; cbn [prefixLen length]; try lia.
  specialize (IH b). case_if; lia.
Qed.

(** A nibble or the terminator. *)
Definition hexdigit (x : Z) : Prop := is_nibble x \/ x = 16.

Lemma hexdigit_nat x : hexdigit x -> exists i : nat, x = Z.of_nat i /\ (i <= 16)%nat.
Proof. intros [H| ->]; [unfold is_nibble in H; exists (Z.to_nat x); lia|by exists 16%nat]. Qed.

(** A new leaf. *)
Lemma leaf_child D x r v : complete (Z.of_nat x :: r) -> len (Z.of_nat x :: r) <= D -> val_ok v ->
  child_ok (D - 1) x (graft r (TVal v)).
Proof.
  intros Hc Hl Hv. rewrite len_cons in Hl. apply complete_cons in Hc as [[Hx (ns & Hn & ->)]|[Hx ->]].
  - left. unfold is_nibble in Hx. split; [lia|]. rewrite len_app in Hl. change (len [16]) with 1 in Hl.
    assert (E : graft (ns ++ [16]) (TVal v) = TShort (ns ++ [16]) (TVal v)) by (by destruct ns). rewrite E.
    constructor; [done|done|lia].
  - right. split; [lia|]. right. by exists v.
Qed.

(** The rest of a short node below a branch. *)
Lemma split_child D pre y s t : canon D (TShort (pre ++ y :: s) t) ->
  Forall is_nibble pre /\ hexdigit y /\ len pre + 1 <= D /\ graft s t <> TNil /\
  forall i, y = Z.of_nat i -> child_ok (D - len pre - 1) i (graft s t).
Proof.
  intros Hc. pose proof (len_nonneg pre). pose proof (len_nonneg s).
  remember (pre ++ y :: s) as k eqn:Ek. inversion Hc as [|? ns v Hn Hv Hl|? ns ts Hne Hn Hc'|]; subst.
  - match goal with H : ns ++ [16] = _ |- _ => rename H into Ek end.
    assert (Hcomp : complete (pre ++ y :: s)) by (rewrite <- Ek; by exists ns).
    destruct (complete_split _ _ Hcomp) as [[? _]|[Hpre Hys]]; [done|].
    assert (HL : len ns + 1 = len pre + 1 + len s).
    { apply (f_equal len) in Ek. rewrite !len_app, !len_cons, len_nil in Ek. lia. }
    split_and!; [done|apply complete_cons in Hys as [[? _]|[-> _]]; [by left|by right]|lia|by destruct s|].
    intros i ->. apply leaf_child; [done|rewrite len_cons; lia|done].
  - apply Forall_app in Hn as [Hpre Hys]. apply Forall_cons in Hys as [Hy Hs]. rewrite len_app, len_cons in Hc'.
    pose proof (canon_D _ _ Hc' ltac:(done)). split_and!; [done|by left|lia|by destruct s|].
    intros i ->. left. unfold is_nibble in Hy. split; [lia|]. destruct s as [|z s].
    + cbn [graft]. rewrite len_nil in Hc'. by replace (D - len pre - 1) with (D - (len pre + (0 + 1))) by lia.
    + cbn [graft]. constructor; [done|done|]. by replace (D - len pre - 1 - len (z :: s)) with (D - (len pre + (len (z :: s) + 1))) by lia.
Qed.

(** The key and the short node part ways. *)
Lemma part_ways D k t rest : canon D (TShort k t) -> complete rest -> prefixLen rest k <> length k ->
  exists pre (x y : nat) r s, rest = pre ++ Z.of_nat x :: r /\ k = pre ++ Z.of_nat y :: s /\ x <> y /\
    prefixLen rest k = length pre /\ (x <= 16)%nat /\ (y <= 16)%nat.
Proof.
  intros Hc Hk Hm. destruct (prefixLen_spec rest k) as (pre & a & b & Ea & Eb & El & Hd).
  destruct b as [|y b]; [rewrite app_nil_r in Eb; congruence|].
  destruct (split_child D pre y b t) as (Hpre & Hy & _); [by rewrite <- Eb|].
  destruct a as [|x a].
  { exfalso. rewrite app_nil_r in Ea. subst rest. destruct Hk as (ns & _ & Ens). by eapply nibbles_not_term. }
  assert (Hx : hexdigit x).
  { rewrite Ea in Hk. apply complete_app in Hk; [|done]. apply complete_cons in Hk as [[? _]|[-> _]]; [by left|by right]. }
  destruct (hexdigit_nat x Hx) as (i & -> & Hi), (hexdigit_nat y Hy) as (j & -> & Hj).
  exists pre, i, j, a, b. split_and!; try done. intros ->. done.
Qed.

Definition graft_node (k : bytes) (n : node) : node := match k with [] => n | _ => shortNode k n newFlag end.

Lemma insert_nil fuel q s n tr : (0 < fuel)%nat ->
  insert rd fuel nilNode q s n tr = Ret (inl (true, graft_node s n), match s with [] => tr | _ => onInsert q tr end).
Proof.
  intros Hf. destruct fuel as [|fuel]; [lia|]. cbn [insert]. destruct s as [|x s]; [done|]. by rewrite len_cons, (proj2 (Z.eqb_neq _ _)) by (pose proof (len_nonneg s); lia).
Qed.

Lemma graft_repr p k n t : repr rd false (p ++ k) n t -> repr rd false p (graft_node k n) (graft k t).
Proof. destruct k; cbn [graft graft_node]; [by rewrite app_nil_r|]. intros. constructor; [apply flag_new|done]. Qed.

Lemma branch_repr f p y x n1 n2 t1 t2 : x <> y -> (y <= 16)%nat -> (x <= 16)%nat ->
  repr rd false (p ++ [Z.of_nat y]) n1 t1 -> repr rd false (p ++ [Z.of_nat x]) n2 t2 ->
  repr rd f p (fullNode (<[x := n2]> (<[y := n1]> no_children)) newFlag) (branch y x t1 t2).
Proof.
  intros Hne Hy Hx H1 H2. unfold no_children. assert (H0 : repr rd f p (fullNode (replicate 17 nilNode) newFlag) (TFull (replicate 17 TNil))).
  { constructor; [apply flag_new|done|]. intros i c t [-> _]%lookup_replicate [-> _]%lookup_replicate. constructor. }
  eapply repr_full_child; [eapply (repr_full_child _ _ _ _ _ newFlag); [done|rewrite length_replicate; lia|apply flag_new|done]
    |rewrite length_insert, length_replicate; lia|apply flag_new|done].
Qed.

(** The result of an insertion: the new nodes represent a canonical tree that stores the value. *)
Definition inserted (f : bool) (p : bytes) (D : Z) (t : tree) (rest v : bytes) (dirty : bool) (n' : node) (tr tr' : tracer) : Prop :=
  exists t', repr rd f p n' t' /\ ins_tr p t tr t' tr' /\ at_key D t' rest /\ upd t rest (Some v) t' /\ t' <> TNil /\
    (forall ts, t = TFull ts -> exists ts', t' = TFull ts') /\ (dirty = false -> t' = t).

(** The nodes that a branch adds: the new leaf, the rest of the short node, and the branch itself if
    the keys have a nibble in common. *)
Lemma graft_at s t q : node_at (graft s t) q -> (q = [] /\ s <> []) \/ exists r, q = s ++ r /\ node_at t r.
Proof.
  destruct s as [|a s]; cbn [graft]; [right; by exists q|]. intros [->|?]%node_at_short_inv; [by left|by right].
Qed.

Lemma branch_at (x y : nat) t1 t2 q : x <> y -> (x <= 16)%nat -> (y <= 16)%nat -> node_at (branch y x t1 t2) q ->
  q = [] \/ (exists r, q = Z.of_nat y :: r /\ node_at t1 r) \/ (exists r, q = Z.of_nat x :: r /\ node_at t2 r).
Proof.
  intros Hne Hx Hy H. unfold branch in H. remember (replicate 17 TNil) as l eqn:El.
  assert (Hl : length l = 17%nat) by (by rewrite El). inversion H as [| | |? j u r Hj Hr]; subst q; [by left|right].
  destruct (decide (j = x)) as [->|Hjx].
  { rewrite list_lookup_insert_eq in Hj by (rewrite length_insert; lia). injection Hj as <-. right. by exists r. }
  rewrite list_lookup_insert_ne in Hj by done. destruct (decide (j = y)) as [->|Hjy].
  { rewrite list_lookup_insert_eq in Hj by lia. injection Hj as <-. left. by exists r. }
  rewrite list_lookup_insert_ne, El in Hj by done. apply lookup_replicate in Hj as [-> _]. by apply node_at_nil in Hr.
Qed.

Lemma branch_tr p pre (x y : nat) r s t v tr : x <> y -> (x <= 16)%nat -> (y <= 16)%nat ->
  let tr1 := match s with [] => tr | _ => onInsert (p ++ pre ++ [Z.of_nat y]) tr end in
  let tr2 := match r with [] => tr1 | _ => onInsert (p ++ pre ++ [Z.of_nat x]) tr1 end in
  let b := branch y x (graft s t) (graft r (TVal v)) in
  (pre = [] -> ins_tr p (TShort (pre ++ Z.of_nat y :: s) t) tr b tr2) /\
  (pre <> [] -> ins_tr p (TShort (pre ++ Z.of_nat y :: s) t) tr (TShort pre b) (onInsert (p ++ pre) tr2)).
Proof.
  intros Hne Hx Hy tr1 tr2 b.
  assert (H1 : deletes tr1 ⊆ deletes tr /\ (s <> [] -> p ++ pre ++ [Z.of_nat y] ∉ deletes tr1)).
  { subst tr1. destruct s; [done|]. destruct (onInsert_deletes (p ++ pre ++ [Z.of_nat y]) tr). done. }
  assert (H2 : deletes tr2 ⊆ deletes tr1 /\ (r <> [] -> p ++ pre ++ [Z.of_nat x] ∉ deletes tr2)).
  { subst tr2. destruct r; [done|]. destruct (onInsert_deletes (p ++ pre ++ [Z.of_nat x]) tr1). done. }
  destruct H1 as [S1 N1], H2 as [S2 N2].
  assert (Hb : forall q, node_at b q -> q = [] \/ node_at (TShort (pre ++ Z.of_nat y :: s) t) (pre ++ q) \/ p ++ pre ++ q ∉ deletes tr2).
  { intros q Hq. destruct (branch_at x y _ _ q Hne Hx Hy Hq) as [->|[(q' & -> & Hq')|(q' & -> & Hq')]]; [by left|right..]; clear Hq; rename Hq' into Hq.
    - apply graft_at in Hq as [[-> Hs]|(q'' & -> & Hq)]; [right; intros Hin; by apply (N1 Hs), S2|left].
      replace (pre ++ Z.of_nat y :: s ++ q'') with ((pre ++ Z.of_nat y :: s) ++ q'') by (by rewrite <- app_assoc). by constructor.
    - apply graft_at in Hq as [[-> Hs]|(q'' & -> & Hq)]; [right; by apply N2|by apply node_at_val in Hq]. }
  split; intros Hpre.
  - subst pre. split; [set_solver|]. intros q Hq. destruct (Hb q Hq) as [->|[H|H]]; [left; constructor|by left|by right].
  - destruct (onInsert_deletes (p ++ pre) tr2) as [S3 N3]. split; [set_solver|]. intros q Hq.
    inversion Hq as [| |? ? q' Hq'|]; subst; [left; constructor|]. destruct (Hb q' Hq') as [->|[H|H]].
    + right. by rewrite app_nil_r.
    + by left.
    + right. intros Hin. apply H. auto.
Qed.

(** The tree after a short node is split: the branch is canonical and stores the value. *)
Lemma split_tree D pre (x y : nat) r s t v : canon D (TShort (pre ++ Z.of_nat y :: s) t) -> complete (pre ++ Z.of_nat x :: r) ->
  len (pre ++ Z.of_nat x :: r) <= D -> val_ok v -> x <> y -> (x <= 16)%nat -> (y <= 16)%nat ->
  let b := branch y x (graft s t) (graft r (TVal v)) in
  canon (D - len pre) b /\ upd (TShort (pre ++ Z.of_nat y :: s) t) (pre ++ Z.of_nat x :: r) (Some v) (TShort pre b).
Proof.
  intros Hc Hk HD Hv Hne Hx Hy b. destruct (split_child D pre (Z.of_nat y) s t Hc) as (Hpre & _ & HD1 & Hng & Hy'). split.
  - apply canon_branch; [done|lia|by apply Hy'| |done|by destruct r].
    apply leaf_child; [by eapply complete_app|rewrite len_app in HD; lia|done].
  - eapply upd_ext; [intros; apply tlookup_short_app|]. apply upd_short. by apply upd_branch.
Qed.

Lemma insert_branch fuel f p D k n t fl rest v tr : (0 < fuel)%nat -> repr rd f p (shortNode k n fl) (TShort k t) ->
  canon D (TShort k t) -> complete rest -> len rest <= D -> val_ok v -> prefixLen rest k <> length k ->
  exists n' tr', insert rd (S fuel) (shortNode k n fl) p rest (valueNode v) tr = Ret (inl (true, n'), tr') /\
    inserted f p D (TShort k t) rest v true n' tr tr'.
Proof.
  intros Hf Hr Hc Hk HD Hv Hm. inversion Hr as [| |? ? ? ? ? ? _ Hrn| |]; subst.
  destruct (part_ways D k t rest Hc Hk Hm) as (pre & x & y & r & s & -> & -> & Hne & El & Hx & Hy).
  cbn [insert].
  rewrite (proj2 (Z.eqb_neq _ 0)) by (rewrite len_app, len_cons; pose proof (len_nonneg pre); pose proof (len_nonneg r); lia).
  rewrite (proj2 (Nat.eqb_neq _ _)) by done. rewrite El. unfold t_bind, t_lift.
  change (Z.of_nat (length pre)) with (len pre). rewrite !index_app, Nat.add_1_r.
  rewrite !take_S_app, !drop_S_app, take_app_length.
  rewrite (insert_nil fuel) by done. set (tr1 := match s with [] => tr | _ => _ end).
  rewrite (set_child_ok _ _ _ nilNode) by (unfold no_children; apply lookup_replicate_2; lia).
  rewrite (insert_nil fuel) by done. set (tr2 := match r with [] => tr1 | _ => _ end).
  destruct (lookup_lt_is_Some_2 (<[y := graft_node s n]> no_children) x) as [c Hc']; [rewrite length_insert; unfold no_children; rewrite length_replicate; lia|].
  rewrite (set_child_ok _ _ _ _ Hc').
  destruct (split_child D pre (Z.of_nat y) s t Hc) as (Hpre & _).
  assert (Hb : repr rd (if (length pre =? 0)%nat then f else false) (p ++ pre)
    (fullNode (<[x := graft_node r (valueNode v)]> (<[y := graft_node s n]> no_children)) newFlag) (branch y x (graft s t) (graft r (TVal v)))).
  { apply branch_repr; [done|done|done| |].
    - apply graft_repr. rewrite <- !app_assoc. done.
    - apply graft_repr. constructor. }
  destruct (split_tree D pre x y r s t v Hc Hk HD Hv Hne Hx Hy) as [Hcb Hu].
  destruct (branch_tr p pre x y r s t v tr Hne) as [Htr1 Htr2]; [lia|lia|].
  fold tr1 in Htr1, Htr2. fold tr2 in Htr1, Htr2.
  destruct pre as [|z pre].
  - cbn [length Nat.eqb app] in *. eexists _, tr2. split; [done|]. exists (branch y x (graft s t) (graft r (TVal v))).
    rewrite app_nil_r in Hb. rewrite len_nil, Z.sub_0_r in Hcb. split_and!; try done; [by apply Htr1|by left].
  - cbn [length Nat.eqb] in *. eexists _, _. split; [done|].
    exists (TShort (z :: pre) (branch y x (graft s t) (graft r (TVal v)))). split_and!; try done.
    + constructor; [apply flag_new|done].
    + by apply Htr2.
    + left. split; [|done]. by constructor.
Qed.

Lemma at_key_val D t : at_key D t [] -> t <> TNil -> exists v, t = TVal v /\ val_ok v.
Proof. intros [[_ H]|[_ [?|?]]] Hn; [by apply complete_not_nil in H|done|done]. Qed.

(** A short node with a new child. *)
Lemma canon_short_child D k t t' r : canon D (TShort k t) -> complete (k ++ r) -> at_key (D - len k) t' r -> t' <> TNil ->
  (forall ts, t = TFull ts -> exists ts', t' = TFull ts') -> canon D (TShort k t').
Proof.
  intros Hc Hk Ht Hn Hs. inversion Hc as [|? ns v Hns Hv Hl|? ns ts Hne Hns Hc'|]; subst.
  - apply complete_term in Hk as ->; [|done]. apply at_key_val in Ht as (v' & -> & Hv'); [|done]. by constructor.
  - destruct (Hs ts eq_refl) as [ts' ->]. constructor; [done|done|].
    destruct Ht as [[? _]|[-> [?|(v & ? & _)]]]; done.
Qed.

Lemma child_ok_of D i t r : complete (Z.of_nat i :: r) -> at_key D t r -> child_ok D i t.
Proof.
  intros Hk Ht. apply complete_cons in Hk as [[Hi Hr]|[Hi ->]].
  - unfold is_nibble in Hi. left. split; [lia|]. destruct Ht as [[? _]|[-> _]]; [done|by apply complete_not_nil in Hr].
  - right. split; [lia|]. destruct Ht as [[_ H]|[_ ?]]; [by apply complete_not_nil in H|done].
Qed.

(** A full node with a new child. *)
Lemma canon_full_child D ts i t' r : canon D (TFull ts) -> (i < length ts)%nat -> complete (Z.of_nat i :: r) -> at_key (D - 1) t' r ->
  t' <> TNil -> canon D (TFull (<[i := t']> ts)).
Proof.
  intros Hc Hi Hk Ht Hn. pose proof (canon_full_inv _ _ Hc) as (HD & Hl & _ & _ & a & b & Hab & (ta & Ha & Hna) & (tb & Hb & Hnb)).
  apply canon_full_of; [done|by rewrite length_insert| |].
  - intros j t Hj. destruct (decide (i = j)) as [<-|Hij].
    + rewrite list_lookup_insert_eq in Hj by lia. injection Hj as <-. by eapply child_ok_of.
    + rewrite list_lookup_insert_ne in Hj by done. by eapply canon_children.
  - assert (H : forall j u, ts !! j = Some u -> u <> TNil -> exists w, <[i := t']> ts !! j = Some w /\ w <> TNil).
    { intros j u Hj Hu. destruct (decide (i = j)) as [<-|Hij]; [rewrite list_lookup_insert_eq by done; eauto|].
      rewrite list_lookup_insert_ne by done. eauto. }
    destruct (H a ta Ha Hna) as (wa & ? & ?), (H b tb Hb Hnb) as (wb & ? & ?). by exists a, b, wa, wb.
Qed.

Lemma upd_same t r v : tlookup t r = Some v -> upd t r (Some v) t.
Proof. intros H q. case_decide; by subst. Qed.

Lemma upd_leaf r v : upd TNil r (Some v) (TShort r (TVal v)).
Proof.
  intros q. case_decide as Eq; [subst q; rewrite <- (app_nil_r r) at 2; by rewrite tlookup_short|].
  destruct (tlookup (TShort r (TVal v)) q) as [w|] eqn:E; [|done]. apply tlookup_short_inv in E as (s & -> & E).
  apply tlookup_val in E as [-> _]. by rewrite app_nil_r in Eq.
Qed.

Lemma len_nz (l : bytes) : l <> [] -> (len l =? 0) = false.
Proof. destruct l; [done|]. rewrite len_cons. pose proof (len_nonneg l). lia. Qed.

Lemma canon_leaf_complete D rest v : complete rest -> len rest <= D -> val_ok v -> canon D (TShort rest (TVal v)).
Proof. intros (ns & Hn & ->) Hl Hv. rewrite len_app in Hl. change (len [16]) with 1 in Hl. by constructor. Qed.

Lemma insert_repr fuel : forall n p rest t D f v tr, repr rd f p n t -> at_key D t rest -> len rest <= D -> D <= maxLen ->
  val_ok v -> (opFuel n rest < fuel)%nat ->
  exists dirty n' tr', insert rd fuel n p rest (valueNode v) tr = Ret (inl (dirty, n'), tr') /\ inserted f p D t rest v dirty n' tr tr'.
Proof.
  induction fuel as [|fuel IH]; intros n p rest t D f v tr Hr Hk HlD HD Hv Hf; [lia|].
  destruct (decide (rest = [])) as [->|Hne].
  { destruct Hk as [[_ Hk]|[_ Ht]]; [by apply complete_not_nil in Hk|]. cbn [insert].
    assert (Ha : forall D, at_key D (TVal v) []) by (intros; right; eauto).
    destruct Ht as [->|(w & -> & Hw)]; inversion Hr as [| | | |? ? ? ? Hx]; subst; try done; [..|by destruct (Hx w)].
    - eexists _, _, tr. split; [done|]. exists (TVal v). split_and!; try done; [constructor|split; [done|intros q Hq; by apply node_at_val in Hq]|]. by intros [|? ?].
    - eexists _, _, tr. split; [done|]. exists (TVal v). split_and!; try done; [constructor|split; [done|intros q Hq; by apply node_at_val in Hq]|by intros [|? ?]|].
      intros E%negb_false_iff%bool_decide_eq_true. by rewrite E. }
  destruct (at_key_canon D t rest Hk Hne) as [Hc Hcomp].
  assert (Hlr : (1 <= length rest)%nat) by (destruct rest; [done|cbn; lia]).
  destruct Hr as [f p|f p w|f p k n t fl Hfl Hr|f p cs ts fl Hfl Hl Hr|f p t Hn Hw Hbig Hdb Ha].
  - cbn [insert]. rewrite len_nz by done. eexists _, _, _. split; [done|]. exists (TShort rest (TVal v)).
    pose proof (canon_leaf_complete D rest v Hcomp HlD Hv). split_and!; try done.
    + constructor; [apply flag_new|constructor].
    + destruct (onInsert_deletes p tr) as [S N]. split; [done|]. intros q Hq. right. inversion Hq as [| |? ? q' Hq'|]; subst;
        [by rewrite app_nil_r|by apply node_at_val in Hq'].
    + by left.
    + apply upd_leaf.
  - by apply canon_not_val in Hc.
  - destruct (decide (prefixLen rest k = length k)) as [Em|Em].
    2: { unfold opFuel in Hf. cbn [is_hash] in Hf. destruct (insert_branch fuel f p D k n t fl rest v tr) as (n' & tr' & E & H);
           [lia|by constructor|done|done|done|done|done|]. by exists true, n', tr'. }
    cbn [insert]. rewrite len_nz, Em, Nat.eqb_refl by done.
    destruct (prefixLen_spec rest k) as (pre & a & b & -> & Eb & El & _).
    assert (pre = k) as ->. { rewrite Em, Eb, length_app in El. destruct b; [by rewrite app_nil_r in Eb|cbn in El; lia]. }
    rewrite take_app_length, drop_app_length. apply at_key_short in Hk as (_ & _ & Hkne & Hsub & _).
    destruct (IH n (p ++ k) a t (D - len k) false v tr) as (dirty & n' & tr' & E & t' & Hr' & Htr & Hk' & Hu & Hn' & Hs & Hd);
      [done|by apply Hsub|rewrite len_app in HlD; lia|pose proof (len_nonneg k); lia|done| |].
    { unfold opFuel in *. rewrite length_app in Hf. destruct k; [done|]. cbn [length is_hash] in *. destruct (is_hash n); lia. }
    unfold t_bind. rewrite E. destruct dirty; cbn [negb]; eexists _, _, tr'; (split; [done|]).
    + exists (TShort k t'). assert (canon D (TShort k t')) by by eapply canon_short_child.
      split_and!; try done; [constructor; [apply flag_new|done]|by apply ins_tr_short|by left|by apply upd_short].
    + rewrite (Hd eq_refl) in *. exists (TShort k t). split_and!; try done; [by constructor|by apply ins_tr_short|by left|by apply upd_short].
  - pose proof (at_key_full D ts rest Hk) as (_ & i & t & r & -> & Ht & Hsub & Hi16). cbn [insert]. rewrite len_nz by done.
    unfold t_bind, t_lift. change (index (Z.of_nat i :: r) 0) with (Ret (Z.of_nat i)).
    destruct (lookup_lt_is_Some_2 cs i) as [c Hi]; [apply lookup_lt_Some in Ht; lia|]. rewrite (index_lookup _ _ _ Hi).
    rewrite len_cons in HlD. change (drop 1 (Z.of_nat i :: r)) with r.
    destruct (IH c (p ++ [Z.of_nat i]) r t (D - 1) false v tr) as (dirty & n' & tr' & E & t' & Hr' & Htr & Hk' & Hu & Hn' & Hs & Hd);
      [by eapply Hr|done|lia|lia|done| |].
    { unfold opFuel in *. cbn [length is_hash] in *. destruct (is_hash c); lia. }
    rewrite E. apply lookup_lt_Some in Ht as Hlt. pose proof (upd_full ts i t r (Some v) t' Ht Hu) as HU.
    pose proof (ins_tr_full p ts i t tr t' tr' Ht Htr) as HTR.
    destruct dirty; cbn [negb].
    + rewrite (set_child_ok _ _ _ _ Hi). eexists _, _, tr'. split; [done|]. exists (TFull (<[i := t']> ts)).
      split_and!; try done; [|by left; split; [by eapply canon_full_child|]|by eauto].
      eapply (repr_full_child f p cs ts fl); [by constructor|lia|apply flag_new|done].
    + eexists _, _, tr'. split; [done|]. rewrite (Hd eq_refl), list_insert_id in * by done. exists (TFull ts).
      split_and!; try done; [by constructor|by eauto].
  - cbn [insert]. rewrite len_nz by done. unfold t_bind.
    destruct (resolve_repr rd f p (thash t) t D tr) as (tr1 & E1 & Hr1 & Hh1 & Ht1); [by constructor|done|done|]. rewrite E1.
    destruct (IH (dnode (Some (thash t)) t) p rest t D f v tr1) as (dirty & n' & tr' & E & Hi); [done|done|done|done|done| |].
    { unfold opFuel in *. rewrite dnode_not_hash. cbn [is_hash] in Hf. lia. }
    rewrite E. destruct dirty; cbn [negb]; eexists _, _, tr'; (split; [done|]).
    { destruct Hi as (t' & Hr' & Htr & Hi). exists t'. split_and!; try apply Hi; [done|by eapply ins_tr_pre]. }
    destruct Hi as (t' & Hr' & Htr & Hk' & Hu & Hn' & Hs & Hd). rewrite (Hd eq_refl) in *. exists t. split_and!; try done. by eapply ins_tr_pre.
Qed.

(** ** [delete] *)

Lemma lastChild_more cs : forall i pos, 0 <= pos ->
  (lastChild i pos cs = pos /\ forall j c, cs !! j = Some c -> c = nilNode) \/
  (lastChild i pos cs = -2 /\ exists j c, cs !! j = Some c /\ c <> nilNode).
Proof.
  induction cs as [|c cs IH]; intros i pos Hp; [by left|]. cbn [lastChild]. destruct (is_nil c) eqn:Hc.
  - destruct c; try done. destruct (IH (i + 1) pos Hp) as [[-> H]|[-> (j & d & Hj & Hd)]]; [left|right].
    + split; [done|]. intros [|j] d Hd; [by injection Hd as <-|by eapply H].
    + split; [done|]. by exists (S j), d.
  - rewrite (proj2 (Z.eqb_neq _ _)) by lia. right. split; [done|]. exists 0%nat, c. split; [done|by intros ->].
Qed.

(** The index of the only child, -2 if there are several. *)
Lemma lastChild_spec cs : forall i, 0 <= i ->
  (exists j c, lastChild i (-1) cs = i + Z.of_nat j /\ cs !! j = Some c /\ c <> nilNode /\
     forall k d, cs !! k = Some d -> k <> j -> d = nilNode) \/
  (lastChild i (-1) cs = -2 /\ exists j k c d, j <> k /\ cs !! j = Some c /\ c <> nilNode /\ cs !! k = Some d /\ d <> nilNode) \/
  (forall j c, cs !! j = Some c -> c = nilNode).
Proof.
  induction cs as [|c cs IH]; intros i Hi; [by right; right|]. cbn [lastChild]. destruct (is_nil c) eqn:Hc.
  - destruct c; try done. destruct (IH (i + 1)) as [(j & c & -> & Hj & Hn & Ho)|[[-> (j & k & c & d & Hjk & Hc' & Hn & Hd & Hn')]|H]]; [lia|..].
    + left. exists (S j), c. split_and!; [lia|done|done|]. intros [|k] d Hk Hne; [by injection Hk as <-|]. eapply Ho; [done|lia].
    + right; left. split; [done|]. exists (S j), (S k), c, d. split_and!; try done. lia.
    + right; right. intros [|j] c Hj; [by injection Hj as <-|by eapply H].
  - assert (Hn : c <> nilNode) by (by intros ->). change (-1 =? -1) with true. cbv iota.
    destruct (lastChild_more cs (i + 1) i Hi) as [[-> H]|[-> (j & d & Hj & Hd)]].
    + left. exists 0%nat, c. split_and!; [lia|done|done|]. intros [|k] d Hk Hne; [done|]. by eapply H.
    + right; left. split; [done|]. by exists 0%nat, (S j), c, d.
Qed.

Lemma repr_nil_iff f p n t : repr rd f p n t -> (n = nilNode <-> t = TNil).
Proof. inversion 1; subst; split; intros; try done. Qed.

(** Keys in front of a subtree. *)
Lemma canon_prepend D pre k t : Forall is_nibble pre -> canon (D - len pre) (TShort k t) -> canon D (TShort (pre ++ k) t).
Proof.
  intros Hp Hc. inversion Hc as [|? ns v Hn Hv Hl|? ns ts Hne Hn Hc'|]; subst.
  - rewrite app_assoc. constructor; [by apply Forall_app|done|rewrite len_app; lia].
  - constructor; [by destruct pre|by apply Forall_app|]. rewrite len_app. by replace (D - (len pre + len k)) with (D - len pre - len k) by lia.
Qed.

Lemma single_child ts i t : ts !! i = Some t -> (forall j u, ts !! j = Some u -> j <> i -> u = TNil) ->
  forall q, tlookup (TFull ts) q = tlookup (TShort [Z.of_nat i] t) q.
Proof.
  intros Hi Ho [|z q]; [done|]. rewrite tlookup_full, tlookup_short_cons. destruct (Z.eqb_spec z (Z.of_nat i)) as [->|Hne].
  - by rewrite (child_at_lookup _ _ _ Hi).
  - unfold child_at, child_index. destruct (Z.leb_spec 0 z); [|done]. destruct (ts !! Z.to_nat z) as [u|] eqn:E; [|done].
    rewrite (Ho _ _ E) by lia. done.
Qed.

Lemma resolve_child f q c t D tr : repr rd f q c t -> canon D t -> D <= maxLen ->
  exists cn tr', resolve rd c q tr = Ret (inl cn, tr') /\ repr rd f q cn t /\ is_hash cn = false /\
    deletes tr' = deletes tr.
Proof.
  intros Hr Hc HD. destruct c as [| | |h|]; try (by eexists _, tr).
  destruct (resolve_repr rd f q h t D tr Hr Hc HD) as (tr' & E & Hr' & _ & Htr). eexists _, tr'. split; [done|].
  split; [done|]. split; [apply dnode_not_hash|done].
Qed.

(** The result of a deletion. *)
Definition deleted (f : bool) (p : bytes) (D : Z) (t : tree) (rest : bytes) (dirty : bool) (n' : node) (tr tr' : tracer) : Prop :=
  exists t', repr rd f p n' t' /\ del_tr p t tr t' tr' /\ at_key D t' rest /\ upd t rest None t' /\ (dirty = false -> t' = t) /\
    (dirty = true -> is_hash n' = false) /\ (forall ts, t = TFull ts -> t' <> TNil).

(** The children that are left when one is gone: one of them at least. *)
Lemma child_left D ts i : canon D (TFull ts) -> exists j t, j <> i /\ (<[i := TNil]> ts) !! j = Some t /\ t <> TNil.
Proof.
  intros (_ & _ & _ & _ & a & b & Hab & (ta & Ha & Hna) & (tb & Hb & Hnb))%canon_full_inv.
  destruct (decide (a = i)) as [->|]; [exists b, tb|exists a, ta]; (split; [done|]); by rewrite list_lookup_insert_ne.
Qed.

Lemma child_left_ok D ts i j t : canon D (TFull ts) -> (i <= 16)%nat -> (<[i := TNil]> ts) !! j = Some t -> child_ok (D - 1) j t.
Proof.
  intros Hc Hi Hj. pose proof (canon_full_inv _ _ Hc) as (_ & Hl & _). destruct (decide (i = j)) as [<-|Hne].
  - rewrite list_lookup_insert_eq in Hj by lia. injection Hj as <-.
    destruct (decide (i = 16%nat)); [right; auto|left; split; [lia|constructor]].
  - rewrite list_lookup_insert_ne in Hj by done. by eapply canon_children.
Qed.

Lemma reduceFull_repr f p D ts cs i tr : canon D (TFull ts) -> D <= maxLen -> (i <= 16)%nat ->
  repr rd f p (fullNode cs newFlag) (TFull (<[i := TNil]> ts)) ->
  exists n' tr' t', reduceFull rd cs p tr = Ret (DelOk true n', tr') /\ repr rd f p n' t' /\ is_hash n' = false /\
    canon D t' /\ t' <> TNil /\ (forall q, tlookup (TFull (<[i := TNil]> ts)) q = tlookup t' q) /\
    del_tr p (TFull (<[i := TNil]> ts)) tr t' tr'.
Proof.
  intros Hc HD Hi16 Hr. set (ts' := <[i := TNil]> ts) in *. inversion Hr as [| | |? ? ? ? ? _ Hl Hcs|]; subst.
  pose proof (canon_full_inv _ _ Hc) as (HD1 & H17 & _).
  assert (Hl17 : length ts' = 17%nat) by (subst ts'; by rewrite length_insert).
  assert (Hnil : forall j c t, cs !! j = Some c -> ts' !! j = Some t -> (c = nilNode <-> t = TNil)) by (intros j c t Hj Ht; by eapply repr_nil_iff, Hcs).
  assert (Htree : forall j c, cs !! j = Some c -> exists t, ts' !! j = Some t) by (intros j c Hj; apply lookup_lt_is_Some_2; apply lookup_lt_Some in Hj; lia).
  assert (Hok : forall j t, ts' !! j = Some t -> child_ok (D - 1) j t) by (intros j t Hj; by eapply child_left_ok).
  unfold reduceFull. destruct (lastChild_spec cs 0) as [(j & c & -> & Hj & Hn & Ho)|[[-> (a & b & ca & cb & Hab & Ha & Hna & Hb & Hnb)]|H]]; [lia|..].
  - rewrite Z.add_0_l, (proj2 (Z.leb_le 0 _)) by lia. destruct (Htree j c Hj) as [t Ht].
    assert (Htn : t <> TNil) by (intros E; apply Hn; by eapply Hnil).
    assert (Hsingle : forall q, tlookup (TFull ts') q = tlookup (TShort [Z.of_nat j] t) q).
    { apply single_child; [done|]. intros k u Hk Hkj. destruct (lookup_lt_is_Some_2 cs k) as [d Hd]; [apply lookup_lt_Some in Hk; lia|].
      apply (Hnil k d u Hd Hk). by eapply Ho. }
    unfold mbind, st_bind, st_lift. rewrite (index_lookup _ _ _ Hj). specialize (Hcs j c t Hj Ht).
    destruct (Hok j t Ht) as [[Hlt Hct]|[-> [?|(v & -> & Hv)]]]; [|done|].
    + rewrite (proj2 (Z.eqb_neq _ 16)) by lia. cbn [negb].
      destruct (resolve_child false (p ++ [Z.of_nat j]) c t (D - 1) tr) as (cn & tr' & E & Hrc & Hh & Htr); [done|done|lia|]. rewrite E.
      assert (Hnib : Forall is_nibble [Z.of_nat j]) by (repeat constructor; unfold is_nibble; lia).
      inversion Hrc as [| |? ? ck cv ct fl _ Hcv|? ? ccs cts fl _ _ _|]; subst; try done; try (by apply canon_not_val in Hct).
      * eexists _, _, (TShort (Z.of_nat j :: ck) ct). split; [done|]. split_and!; try done.
        -- constructor; [apply flag_new|]. by rewrite <- app_assoc in Hcv.
        -- by apply (canon_prepend D [Z.of_nat j]).
        -- intros q. rewrite Hsingle. symmetry. apply (tlookup_short_app [Z.of_nat j]).
        -- eapply del_tr_trans; [split; [by left|by apply (single_at ts' j)]|].
           apply (del_tr_merge p [Z.of_nat j] ck ct); [done|by eapply canon_short_key|]. intros q Hq. rewrite <- Htr. by apply onDelete_deletes.
      * eexists _, _, (TShort [Z.of_nat j] (TFull cts)). split; [done|]. split_and!; try done.
        -- constructor; [apply flag_new|done].
        -- by constructor.
        -- split; [rewrite Htr; by left|by apply single_at].
    + change (negb (Z.of_nat 16 =? 16)) with false. cbv iota. eexists _, _, (TShort [16] (TVal v)). split; [done|]. split_and!; try done.
      * constructor; [apply flag_new|done].
      * apply (canon_leaf D []); [by apply Forall_nil|done|rewrite len_nil; lia].
      * split; [by left|by apply (single_at ts' 16)].
  - change (0 <=? -2) with false. cbv iota. eexists _, _, (TFull ts'). split; [done|]. split_and!; try done; [|by apply del_tr_same].
    destruct (Htree a ca Ha) as [ta Hta], (Htree b cb Hb) as [tb Htb].
    apply canon_full_of; [done|done|done|]. exists a, b, ta, tb. split_and!; try done; intros E; [apply Hna|apply Hnb]; by eapply Hnil.
  - exfalso. destruct (child_left D ts i Hc) as (j & t & _ & Hj & Ht). fold ts' in Hj.
    destruct (lookup_lt_is_Some_2 cs j) as [c Hcj]; [apply lookup_lt_Some in Hj; lia|]. apply Ht. eapply Hnil; [done|done|by eapply H].
Qed.

Lemma upd_none t r : tlookup t r = None -> upd t r None t.
Proof. intros H q. case_decide; by subst. Qed.

Lemma not_prefix_lookup k t rest : (prefixLen rest k < length k)%nat -> tlookup (TShort k t) rest = None.
Proof.
  intros Hm. destruct (tlookup (TShort k t) rest) as [v|] eqn:E; [|done]. exfalso.
  apply tlookup_short_inv in E as (r & -> & _). clear v t. revert Hm. induction k as [|x k IH]; cbn [app prefixLen length]; [lia|].
  rewrite Z.eqb_refl. lia.
Qed.

Lemma prefixLen_full rest k : (length k <= prefixLen rest k)%nat -> exists r, rest = k ++ r /\ prefixLen rest k = length k.
Proof.
  intros Hm. destruct (prefixLen_spec rest k) as (pre & a & b & -> & Eb & El & _). pose proof (prefixLen_le (pre ++ a) k) as [_ Hle].
  assert (Ek : pre = k). { apply (f_equal length) in Eb as Eb'. rewrite length_app in Eb'. destruct b; [by rewrite app_nil_r in Eb|cbn in Eb'; lia]. }
  exists a. subst pre. split; [done|lia].
Qed.

Lemma delete_repr fuel : forall n p rest t D f tr, repr rd f p n t -> at_key D t rest -> D <= maxLen ->
  (opFuel n rest < fuel)%nat ->
  exists dirty n' tr', delete rd fuel n p rest tr = Ret (DelOk dirty n', tr') /\ deleted f p D t rest dirty n' tr tr'.
Proof.
  induction fuel as [|fuel IH]; intros n p rest t D f tr Hr Hk HD Hf; [lia|].
  destruct Hr as [f p|f p w|f p k n t fl Hfl Hr|f p cs ts fl Hfl Hl Hr|f p t Hn Hw Hbig Hdb Ha]; cbn [delete].
  - eexists _, _, tr. split; [done|]. exists TNil. split_and!; try done; [constructor|by apply del_tr_same|by apply upd_none].
  - destruct Hk as [[Hc _]|[-> _]]; [by apply canon_not_val in Hc|]. eexists _, _, tr. split; [done|]. exists TNil.
    split_and!; try done; [constructor|split; [by left|intros r Hr; by apply node_at_nil in Hr]|right; auto|by intros [|? ?]].
  - pose proof Hk as (Hc & Hcomp & Hkne & Hsub & Hshape)%at_key_short.
    destruct (Nat.ltb_spec (prefixLen rest k) (length k)) as [Hm|Hm].
    { eexists _, _, tr. split; [done|]. exists (TShort k t). split_and!; try done; [by constructor|by apply del_tr_same|by apply upd_none, not_prefix_lookup]. }
    apply prefixLen_full in Hm as (r & -> & ->). specialize (Hsub r eq_refl). rewrite length_app, take_app_length, drop_app_length.
    destruct (Nat.eqb_spec (length k) (length k + length r)) as [E|E].
    { assert (r = []) as -> by (apply length_zero_iff_nil; lia). unfold mbind, st_bind, st_modify. eexists _, _, _. split; [done|].
      destruct Hshape as [(ns & v & -> & Hns & -> & Hv)|[Hns _]]; [|rewrite app_nil_r in Hcomp; destruct Hcomp as (ns & _ & Ens); exfalso; by eapply (nibbles_not_term k)].
      exists TNil. split_and!; try done; [constructor| |by left; split; [constructor|]|].
      { split; [|intros q Hq; by apply node_at_nil in Hq]. intros q [?| ->]%onDelete_deletes; [by left|right]. exists []. rewrite app_nil_r.
        split; [done|apply node_at_nil]. }
      intros q.
      case_decide as Eq; [done|]. destruct (tlookup (TShort _ _) q) as [u|] eqn:Eu; [|done].
      apply tlookup_short_inv in Eu as (r & -> & [-> _]%tlookup_val). done. }
    destruct Hshape as [(ns & v & -> & Hns & -> & _)|[Hns (ts & -> & Hct)]].
    { exfalso. apply complete_term in Hcomp; [|done]. subst r. cbn in E. lia. }
    destruct (IH n (p ++ k) r (TFull ts) (D - len k) false tr) as (dirty & n' & tr' & E' & t' & Hr' & Htr & Hk' & Hu & Hd & Hh & Hnn);
      [done|done|pose proof (len_nonneg k); lia| |].
    { unfold opFuel in *. rewrite length_app in Hf. destruct k; [done|]. cbn [length is_hash] in *. destruct (is_hash n); lia. }
    unfold mbind, st_bind. rewrite E'. destruct dirty.
    2: { eexists _, _, tr'. split; [done|]. rewrite (Hd eq_refl) in *. exists (TShort k (TFull ts)).
         split_and!; try done; [by constructor|by apply del_tr_short|by apply upd_short]. }
    specialize (Hh eq_refl). specialize (Hnn ts eq_refl). apply (upd_short k) in Hu.
    assert (Hct' : canon (D - len k) t').
    { destruct Hk' as [[? _]|[-> _]]; [done|]. destruct Hsub as [[_ Hx]|[_ [?|(? & ? & _)]]]; [by apply complete_not_nil in Hx|done|done]. }
    inversion Hr' as [| |? ? ck cv ct fl' _ Hcv|? ? ccs cts fl' Hfl' Hll Hrr|]; subst; try done.
    + by apply canon_not_val in Hct'.
    + eexists _, _, _. split; [done|]. exists (TShort (k ++ ck) ct). split_and!; try done.
      * constructor; [apply flag_new|by rewrite app_assoc].
      * eapply del_tr_trans; [by apply del_tr_short|]. apply del_tr_merge; [done|by eapply canon_short_key|]. intros q. apply onDelete_deletes.
      * left. split; [by apply canon_prepend|done].
      * intros q. rewrite tlookup_short_app. apply Hu.
    + eexists _, _, _. split; [done|]. exists (TShort k (TFull cts)). split_and!; try done.
      * constructor; [apply flag_new|by constructor].
      * by apply del_tr_short.
      * left. split; [by constructor|done].
  - pose proof (at_key_full D ts rest Hk) as (Hc & i & t & r & -> & Ht & Hsub & Hi16).
    unfold mbind, st_bind, st_lift. change (index (Z.of_nat i :: r) 0) with (Ret (Z.of_nat i)).
    destruct (lookup_lt_is_Some_2 cs i) as [c Hi]; [apply lookup_lt_Some in Ht; lia|]. rewrite (index_lookup _ _ _ Hi).
    change (drop 1 (Z.of_nat i :: r)) with r.
    destruct (IH c (p ++ [Z.of_nat i]) r t (D - 1) false tr) as (dirty & n' & tr' & E & t' & Hr' & Htr & Hk' & Hu & Hd & Hh & Hnn);
      [by eapply Hr|done|lia| |].
    { unfold opFuel in *. cbn [length is_hash] in *. destruct (is_hash c); lia. }
    rewrite E. apply lookup_lt_Some in Ht as Hlt. pose proof (upd_full ts i t r None t' Ht Hu) as HU.
    pose proof (del_tr_full p ts i t tr t' tr' Ht Htr) as HTR.
    destruct (at_key_canon D _ _ Hk ltac:(done)) as [_ Hcomp]. destruct dirty.
    2: { eexists _, _, tr'. split; [done|]. rewrite (Hd eq_refl), list_insert_id in HU, HTR by done. exists (TFull ts).
         split_and!; try done; by constructor. }
    rewrite (set_child_ok _ _ _ _ Hi).
    assert (Hfull : repr rd f p (fullNode (<[i := n']> cs) newFlag) (TFull (<[i := t']> ts))).
    { eapply (repr_full_child f p cs ts fl); [by constructor|lia|apply flag_new|done]. }
    destruct (is_nil n') eqn:Hnil; cbn [negb].
    + destruct n'; try done. assert (t' = TNil) as -> by by eapply repr_nil_iff.
      destruct (reduceFull_repr f p D ts (<[i := nilNode]> cs) i tr' Hc HD Hi16 Hfull) as (n' & tr'' & t'' & E' & Hr'' & Hh' & Hc' & Hn' & Hq & Htr').
      rewrite E'. eexists _, _, _. split; [done|]. exists t''. split_and!; try done; [by eapply del_tr_trans|by left|]. intros q. rewrite <- Hq. apply HU.
    + eexists _, _, tr'. split; [done|]. exists (TFull (<[i := t']> ts)). split_and!; try done. left. split; [|done].
      eapply canon_full_child; [done|done|done|done|]. intros E'. apply (repr_nil_iff _ _ _ _ Hr') in E'. by subst n'.
  - pose proof (at_key_tree _ _ _ Hk Hn Hw) as Hc.
    destruct (resolve_repr rd f p (thash t) t D tr) as (tr1 & E1 & Hr1 & Hh1 & Ht1); [by constructor|done|done|]. unfold mbind, st_bind. rewrite E1.
    destruct (IH (dnode (Some (thash t)) t) p rest t D f tr1) as (dirty & n' & tr' & E & t' & Hr' & Htr & Hk' & Hu & Hd & Hh & Hnn); [done|done|done| |].
    { unfold opFuel in *. rewrite dnode_not_hash. cbn [is_hash] in Hf. lia. }
    assert (Htr' : del_tr p t tr t' tr') by (by eapply del_tr_pre).
    rewrite E. destruct dirty; eexists _, _, tr'; (split; [done|]); [by exists t'|].
    rewrite (Hd eq_refl) in *. by exists t.
Qed.
End ops.
