(* ===== verification/TrieTheorems.v ===== *)
(** * The trie is a map with a root hash

    [holds t M]: the trie [t], with the nodes it has in memory and those in its database, stores the
    finite map [M].  Every operation of the trie is the operation of the map, and the root hash is a
    function of the map alone that identifies it. *)

From S2P Require Import Prelude Bytes Rlp RlpTheorems VM TrieKeys TrieNode Trie TrieSpec TrieHash TrieOps.

Set Default Proof Using "Type".

(** The keys the map may have and their hex form. *)
Definition key_ok (key : bytes) : Prop := Forall is_byte key /\ 2 * len key + 1 <= maxLen.

Lemma len_keybytesToHex key : len (keybytesToHex key) = 2 * len key + 1.
Proof. unfold keybytesToHex. by rewrite len_app, keybytesNibbles_len. Qed.

Section trie.
Context `{C : Crypto}.

(** The tree [T] stores the map [M]. *)
Definition stores (T : tree) (M : gmap bytes bytes) : Prop :=
  (forall key v, M !! key = Some v -> Forall is_byte key) /\
  (forall q v, tlookup T q = Some v <-> exists key, q = keybytesToHex key /\ M !! key = Some v).

(** No node of the tree is among the nodes that the tracer has as deleted. *)
Definition tracer_ok (tr : tracer) (T : tree) : Prop := forall r, node_at T r -> r ∉ deletes tr.

Definition trie_ok (t : Trie) (T : tree) : Prop :=
  committed t = false /\ repr (reader t) true [] (root t) T /\ canon maxLen T /\ tracer_ok (t_tracer t) T.

Definition holds (t : Trie) (M : gmap bytes bytes) : Prop := exists T, trie_ok t T /\ stores T M.

Lemma stores_lookup T M key : stores T M -> Forall is_byte key -> tlookup T (keybytesToHex key) = M !! key.
Proof.
  intros [Hb H] Hk. destruct (tlookup T (keybytesToHex key)) as [v|] eqn:E.
  - apply H in E as (key' & E & Hv). apply keybytes_inj in E as <-; [done|done|by eapply Hb].
  - destruct (M !! key) as [v|] eqn:Ev; [|done]. assert (tlookup T (keybytesToHex key) = Some v) by (apply H; eauto). congruence.
Qed.

Lemma stores_insert T M key v T' : stores T M -> Forall is_byte key -> upd T (keybytesToHex key) (Some v) T' ->
  stores T' (<[key := v]> M).
Proof.
  intros [Hb H] Hk Hu. split.
  - intros k w Hw. destruct (decide (k = key)) as [->|]; [done|]. rewrite lookup_insert_ne in Hw by done. by eapply Hb.
  - intros q w. rewrite Hu. destruct (decide (q = keybytesToHex key)) as [->|Hne].
    + split; [intros [= <-]; exists key; by rewrite lookup_insert_eq|]. intros (k & E & Hw).
      destruct (decide (k = key)) as [->|Hne]; [by rewrite lookup_insert_eq in Hw|]. rewrite lookup_insert_ne in Hw by done.
      apply keybytes_inj in E; [done|done|by eapply Hb].
    + rewrite H. split; intros (k & -> & Hw); exists k; (split; [done|]); (rewrite lookup_insert_ne in * by congruence); done.
Qed.

Lemma stores_delete T M key T' : stores T M -> Forall is_byte key -> upd T (keybytesToHex key) None T' ->
  stores T' (base.delete key M).
Proof.
  intros [Hb H] Hk Hu. split.
  - intros k w [_ Hw]%lookup_delete_Some. by eapply Hb.
  - intros q w. rewrite Hu. destruct (decide (q = keybytesToHex key)) as [->|Hne].
    + split; [done|]. intros (k & E & [Hne Hw]%lookup_delete_Some). apply keybytes_inj in E; [done|done|by eapply Hb].
    + rewrite H. split; intros (k & -> & Hw); exists k; (split; [done|]); [|by apply lookup_delete_Some in Hw as [_ ?]].
      apply lookup_delete_Some. split; [congruence|done].
Qed.

(** The content determines the tree. *)
Lemma stores_unique D D' T T' M : canon D T -> canon D' T' -> stores T M -> stores T' M -> T = T'.
Proof.
  intros Hc Hc' [_ H] [_ H']. eapply canon_unique; [done|done|]. intros q. apply option_eq. intros v. by rewrite H, H'.
Qed.

Lemma stores_inj T M M' : stores T M -> stores T M' -> M = M'.
Proof.
  intros H H'. apply map_eq. intros k. apply option_eq. intros v. split; intros Hv.
  - rewrite <- (stores_lookup T M' k), (stores_lookup T M k); [done|done|by eapply H|done|by eapply H].
  - rewrite <- (stores_lookup T M k), (stores_lookup T M' k); [done|done|by eapply H'|done|by eapply H'].
Qed.

Lemma stores_nil M : stores TNil M -> M = ∅.
Proof.
  intros Hs. apply map_empty. intros k. destruct (M !! k) as [v|] eqn:E; [|done].
  pose proof (stores_lookup TNil M k Hs) as H. rewrite E in H. cbn in H. by specialize (H (proj1 Hs _ _ E)).
Qed.

Lemma tracer_ins T tr T' tr' : tracer_ok tr T -> ins_tr [] T tr T' tr' -> tracer_ok tr' T'.
Proof. intros H [H1 H2] r Hr. destruct (H2 r Hr) as [Ho|?]; [|done]. intros Hin. by apply (H r Ho), H1. Qed.

Lemma tracer_del T tr T' tr' : tracer_ok tr T -> del_tr [] T tr T' tr' -> tracer_ok tr' T'.
Proof.
  intros H [H1 H2] r Hr Hin. destruct (H1 r Hin) as [Hd|(q & E & Hq)]; [by apply (H r); auto|]. cbn in E. by subst q.
Qed.

Lemma root_at_key T key : canon maxLen T -> Forall is_byte key -> at_key maxLen T (keybytesToHex key).
Proof. intros Hc Hk. left. split; [done|by apply keybytes_complete]. Qed.

Lemma root_fuel n k : (opFuel n k < keyFuel k)%nat.
Proof. unfold opFuel, keyFuel. destruct (is_hash n); lia. Qed.

(** ** The operations *)

Lemma Get_holds t M key : holds t M -> key_ok key -> exists t', Get key t = Ret (inl (M !! key), t') /\ holds t' M.
Proof.
  intros (T & (Hcm & Hr & Hc & Ht) & Hs) [Hk Hl]. unfold Get, mbind, st_bind, st_get. rewrite Hcm. unfold with_tracer.
  destruct (get_repr (reader t) (keyFuel (keybytesToHex key)) (root t) [] (keybytesToHex key) T maxLen true (t_tracer t))
    as (n' & b & tr' & E & Hr' & _ & Htr); [done|by apply root_at_key|lia|apply root_fuel|].
  cbn [app] in E. rewrite len_nil in E. rewrite E, (stores_lookup T M) by done.
  assert (Ht' : tracer_ok tr' T) by (intros q Hq; rewrite Htr; by apply Ht).
  destruct b; eexists; (split; [done|]); exists T; split; done.
Qed.

Lemma delete_root_holds t M key : holds t M -> key_ok key ->
  exists t', delete_root (keybytesToHex key) t = Ret (None, t') /\ holds t' (base.delete key M).
Proof.
  intros (T & (Hcm & Hr & Hc & Ht) & Hs) [Hk Hl]. unfold delete_root, mbind, st_bind, st_get, with_tracer.
  destruct (delete_repr (reader t) (keyFuel (keybytesToHex key)) (root t) [] (keybytesToHex key) T maxLen true (t_tracer t))
    as (dirty & n' & tr' & E & T' & Hr' & Htr & Hk' & Hu & _); [done|by apply root_at_key|lia|apply root_fuel|].
  rewrite E. eexists. split; [done|]. exists T'. split; [|by eapply stores_delete].
  split_and!; [done|done| |by eapply tracer_del]. destruct Hk' as [[? _]|[E' _]]; [done|]. apply (f_equal len) in E'. rewrite len_keybytesToHex, len_nil in E'.
  pose proof (len_nonneg key). lia.
Qed.

Lemma holds_count t M : holds t M -> holds (count_update t) M.
Proof. intros (T & H & Hs). exists T. by split. Qed.

Lemma Update_holds t M key value : holds t M -> key_ok key -> Forall is_byte value -> len value < maxLen ->
  exists t', Update key value t = Ret (None, t') /\
    holds t' (if decide (value = []) then base.delete key M else <[key := value]> M).
Proof.
  intros H Hk Hv Hlv. pose proof (holds_count t M H) as H'. destruct H as (T0 & (Hcm & _) & _).
  unfold Update, update, mbind, st_bind, st_get, st_modify. rewrite Hcm.
  case_decide as Ev; [subst value; by apply delete_root_holds|]. rewrite len_nz by done. cbn [negb]. unfold with_tracer.
  destruct H' as (T & (_ & Hr & Hc & Ht) & Hs). destruct Hk as [Hk Hl].
  destruct (insert_repr (reader t) (keyFuel (keybytesToHex key)) (root t) [] (keybytesToHex key) T maxLen true value (t_tracer t))
    as (dirty & n' & tr' & E & T' & Hr' & Htr & Hk' & Hu & _);
    [done|by apply root_at_key|by rewrite len_keybytesToHex|lia|done|apply root_fuel|].
  cbn [count_update t_tracer reader root]. rewrite E. eexists. split; [done|]. exists T'. split; [|by eapply stores_insert].
  split_and!; [done|done| |by eapply tracer_ins]. destruct Hk' as [[? _]|[E' _]]; [done|]. apply (f_equal len) in E'. rewrite len_keybytesToHex, len_nil in E'.
  pose proof (len_nonneg key). lia.
Qed.

Lemma Delete_holds t M key : holds t M -> key_ok key -> exists t', Delete key t = Ret (None, t') /\ holds t' (base.delete key M).
Proof.
  intros H Hk. pose proof (holds_count t M H) as H'. destruct H as (T0 & (Hcm & _) & _).
  unfold Delete, mbind, st_bind, st_get, st_modify. rewrite Hcm. by apply delete_root_holds.
Qed.

Lemma BytesToHash_data d : BytesToHash (hashData d) = Keccak256 d mod two256.
Proof.
  unfold BytesToHash, hashData, Hash_Bytes. rewrite be_val_be_bytes. change (256 ^ Z.of_nat 32) with two256. by rewrite Z.mod_mod.
Qed.

(** A hash that [hash] computes is cached in the node. *)
Lemma hash_caches n f h n' : hash n f = Ret (hashNode h, n') -> (exists h', n' = hashNode h') \/ forall d, cache n' <> Ret (None, d).
Proof.
  destruct n as [|cs fl|k v fl|h'|v]; cbn [hash]; try done.
  - destruct (flag_hash fl) as [h'|] eqn:E; [intros [= <- <-]; right; intros d; cbn; by rewrite E|].
    destruct (hashFullNodeChildren _ cs) as [[c cs']|]; [|done]. cbn [mbind outcome_bind]. destruct (fullnodeToHash c f); [|done].
    cbn [mbind outcome_bind]. intros [= -> <-]. by right.
  - destruct (flag_hash fl) as [h'|] eqn:E; [intros [= <- <-]; right; intros d; cbn; by rewrite E|].
    destruct (hashShortNodeChildren _ k v) as [[c v']|]; [|done]. cbn [mbind outcome_bind]. destruct (shortnodeToHash c f); [|done].
    cbn [mbind outcome_bind]. intros [= -> <-]. by right.
  - intros [= -> <-]. left. by exists h.
Qed.

(** The root hash of a trie is the hash of its tree; afterwards all nodes in memory are hashed, and
    nothing but the cached hashes has changed. *)
Lemma Trie_Hash_tree t T : trie_ok t T -> exists t', Trie_Hash t = Ret (troot T, t') /\ trie_ok t' T /\ hashed (root t') T /\
  reader t' = reader t /\ t_tracer t' = t_tracer t /\ owner t' = owner t /\
  (T <> TNil -> (exists h, root t' = hashNode h) \/ forall d, cache (root t') <> Ret (None, d)).
Proof.
  intros (Hcm & Hr & Hc & Ht). unfold Trie_Hash, hashRoot, mbind, st_bind, st_get.
  destruct (decide (T = TNil)) as [->|Hn].
  { assert (En : root t = nilNode) by (by eapply repr_nil_iff). rewrite En. eexists. split; [done|]. split; [done|]. rewrite En. split; [constructor|done]. }
  destruct (hash_repr (reader t) true [] (root t) T Hr maxLen Hc (Z.le_refl _) Hn) as (hd & n' & E & Hh & Hr' & Hhn).
  assert (Hroot : root t <> nilNode) by (intros E'; apply Hn; rewrite E' in Hr; by inversion Hr).
  destruct Hh as [[_ ->]|[? _]]; [|done].
  assert (Et : troot T = BytesToHash (thash T)) by (unfold thash; rewrite BytesToHash_data; by destruct T).
  destruct (root t) eqn:Er; [done|..]; unfold st_lift; rewrite E, Et; eexists; (split; [done|]);
    split_and!; try done; intros _; by eapply hash_caches.
Qed.

Lemma be_val_inj l k : Forall is_byte l -> Forall is_byte k -> length l = length k -> be_val l = be_val k -> l = k.
Proof. intros Hl Hk E Ev. by rewrite <- (be_bytes_be_val l), <- (be_bytes_be_val k), E, Ev. Qed.

Lemma be_val_32 l : Forall is_byte l -> len l = 32 -> be_val l mod two256 = be_val l.
Proof. intros Hb Hl. pose proof (be_val_bounds l Hb) as H. rewrite Hl in H. by apply Z.mod_small. Qed.

Lemma hashData_mod x y : Keccak256 x mod two256 = Keccak256 y mod two256 -> hashData x = hashData y.
Proof.
  rewrite <- !BytesToHash_data. unfold BytesToHash. pose proof (hashData_bytes x) as Bx. pose proof (hashData_bytes y) as By.
  pose proof (hashData_length x) as Lx. pose proof (hashData_length y) as Ly. revert Bx By Lx Ly.
  generalize (hashData x), (hashData y). intros l k Bl Bk Ll Lk. rewrite !be_val_32 by done.
  apply be_val_inj; [done|done|unfold len in *; lia].
Qed.

Lemma be_bytes_mod n z : be_bytes n (z mod 256 ^ Z.of_nat n) = be_bytes n z.
Proof.
  apply be_val_inj; [apply be_bytes_bytes|apply be_bytes_bytes|by rewrite !be_bytes_length|].
  rewrite !be_val_be_bytes. by rewrite Z.mod_mod by (pose proof (Z.pow_pos_nonneg 256 (Z.of_nat n)); lia).
Qed.

Lemma Hash_Bytes_troot T : T <> TNil -> Hash_Bytes (troot T) = thash T.
Proof.
  intros Hn. assert (E : troot T = Keccak256 (tenc T) mod 256 ^ Z.of_nat 32) by (by destruct T).
  rewrite E. unfold Hash_Bytes, thash, hashData, Hash_Bytes. apply be_bytes_mod.
Qed.

(** [types.EmptyRootHash] is the hash of the encoding of the empty string. *)
Definition empty_root_known : Prop := Keccak256 [128] = EmptyRootHash.

Lemma tenc_not_empty_string D T : canon D T -> D <= maxLen -> T <> TNil -> tenc T <> [128].
Proof.
  intros Hc HD Hn E. change [128] with (encode (Str [])) in E.
  apply encode_inj in E; [|by eapply canon_fine|by apply enc_str].
  inversion Hc; subst; [done|by rewrite titem_short in E|by rewrite titem_short in E|by rewrite titem_full in E].
Qed.

(** Trees with the same root hash are equal. *)
Lemma troot_binds (D : bytes -> Prop) T1 T2 : empty_root_known -> D [128] -> covers D T1 -> covers D T2 -> canon maxLen T1 -> canon maxLen T2 -> troot T1 = troot T2 ->
  T1 = T2 \/ hash_collision D.
Proof.
  intros He H0 V1 V2 H1 H2 E. unfold empty_root_known in He.
  assert (Hroot : forall T, T <> TNil -> troot T = Keccak256 (tenc T) mod two256) by (by intros []).
  assert (Hempty : forall T, canon maxLen T -> covers D T -> T <> TNil -> troot T = EmptyRootHash -> hash_collision D).
  { intros T Hc V Hn Er. exists (tenc T), [128]. split; [by eapply covers_self|]. split; [done|]. split; [by eapply tenc_not_empty_string|].
    apply hashData_mod. rewrite <- Hroot, Er, He by done. by vm_compute. }
  destruct (decide (T1 = TNil)) as [->|N1], (decide (T2 = TNil)) as [->|N2].
  - by left.
  - right. by apply (Hempty T2).
  - right. by apply (Hempty T1).
  - rewrite !Hroot in E by done. apply hashData_mod in E. by eapply thash_binds.
Qed.

(** The data that is hashed for the root of a map: the encodings of the nodes of its trie, and that of the empty trie *)
Definition trie_data (M : gmap bytes bytes) (x : bytes) : Prop :=
  x = [128] \/ exists T s, canon maxLen T /\ stores T M /\ node_in s T /\ x = tenc s.

Lemma covers_data T M : canon maxLen T -> stores T M -> covers (trie_data M) T.
Proof. intros Hc Hs s Hin. right. by exists T, s. Qed.

Lemma trie_data_binds T1 T2 M1 M2 : empty_root_known -> canon maxLen T1 -> canon maxLen T2 -> stores T1 M1 -> stores T2 M2 -> troot T1 = troot T2 ->
  M1 = M2 \/ hash_collision (fun x => trie_data M1 x \/ trie_data M2 x).
Proof.
  intros He H1 H2 S1 S2 E. destruct (troot_binds (fun x => trie_data M1 x \/ trie_data M2 x) T1 T2) as [->|?]; try done; [by left; left| | |left|by right].
  - intros s Hin. left. by apply (covers_data T1).
  - intros s Hin. right. by apply (covers_data T2).
  - by eapply stores_inj.
Qed.

Lemma holds_empty rd owner u c tr : holds (mkTrie nilNode owner false u c rd tr) ∅.
Proof.
  exists TNil. split; [split_and!; [done|constructor|constructor|intros r Hr; by apply node_at_nil in Hr]|]. split; [intros key v Hv; by rewrite lookup_empty in Hv|].
  intros q v. split; [done|]. intros (key & _ & Hv). by rewrite lookup_empty in Hv.
Qed.

(** ** Properties *)

(** C20 The trie implements a map from byte strings to byte strings.  For a trie that stores the map
    [M], part of it in memory and the rest in a database that has all its nodes, [Get] returns what
    [M] has at the key, [Update] stores the value (or removes the key if the value is empty),
    [Delete] removes the key, and the trie stores the changed map; no operation fails, panics or
    runs out of fuel. *)
Theorem trie_refines_map (t : Trie) (M : gmap bytes bytes) (key value : bytes) :
  holds t M -> key_ok key -> Forall is_byte value -> len value < maxLen ->
  (exists t', Get key t = Ret (inl (M !! key), t') /\ holds t' M) /\
  (exists t', Update key value t = Ret (None, t') /\
    holds t' (if decide (value = []) then base.delete key M else <[key := value]> M)) /\
  (exists t', Delete key t = Ret (None, t') /\ holds t' (base.delete key M)).
Proof. intros H Hk Hv Hl. split_and!; [by apply Get_holds|by apply Update_holds|by apply Delete_holds]. Qed.

(** C21 The root hash is a function of the content: two tries that store the same map, whatever the
    operations that led to them and whatever part of them is in memory or cached, have the same root
    hash, and hashing keeps the content. *)
Theorem root_hash_of_content (t1 t2 : Trie) (M : gmap bytes bytes) : holds t1 M -> holds t2 M ->
  exists h t1' t2', Trie_Hash t1 = Ret (h, t1') /\ Trie_Hash t2 = Ret (h, t2') /\ holds t1' M /\ holds t2' M.
Proof.
  intros (T1 & H1 & S1) (T2 & H2 & S2).
  assert (T1 = T2) as <- by (eapply stores_unique; [apply H1|apply H2|done|done]).
  destruct (Trie_Hash_tree t1 T1 H1) as (t1' & E1 & H1' & _), (Trie_Hash_tree t2 T1 H2) as (t2' & E2 & H2' & _).
  exists (troot T1), t1', t2'. split_and!; [done|done|by exists T1|by exists T1].
Qed.

(** C22 The root hash commits to the content: tries with the same root hash store the same map, unless two different
    byte strings among the encodings of the nodes of these two tries (and of the empty trie) have the same hash. *)
Theorem root_hash_binds (t1 t2 t1' t2' : Trie) (M1 M2 : gmap bytes bytes) (h : Hash) : empty_root_known ->
  holds t1 M1 -> holds t2 M2 -> Trie_Hash t1 = Ret (h, t1') -> Trie_Hash t2 = Ret (h, t2') ->
  M1 = M2 \/ hash_collision (fun x => trie_data M1 x \/ trie_data M2 x).
Proof.
  intros He (T1 & H1 & S1) (T2 & H2 & S2) E1 E2.
  destruct (Trie_Hash_tree t1 T1 H1) as (? & F1 & _), (Trie_Hash_tree t2 T2 H2) as (? & F2 & _).
  apply (trie_data_binds T1 T2); [done|apply H1|apply H2|done|done|congruence].
Qed.
End trie.

(** An extension over a full node with a leaf and a subtrie that the database does not have. *)
Definition torn_trie (h h' v : bytes) : Trie :=
  mkTrie (shortNode [1] (fullNode (<[3%nat := hashNode h']> (<[2%nat := shortNode [16] (valueNode v) (mkFlag None false)]> no_children))
            (mkFlag None false)) (mkFlag (Some h) false)) 0 false 0 0 (mkReader 0 None None) newTracer.

(** A deletion that fails is not undone: when [Delete] removes one of two children of a full node
    and then cannot load the other one, it returns the [MissingNodeError] but has already changed the
    node, so that the key is gone from the trie although the root hash, cached above the node, is
    still the hash of the content with the key. *)
Theorem failed_delete_changes_trie `{C : Crypto} (v : bytes) :
  let h := replicate 32 1 in
  let h' := replicate 32 2 in
  exists t1 t2 t3 t4,
  Get [18] (torn_trie h h' v) = Ret (inl (Some v), torn_trie h h' v) /\
  Delete [18] (torn_trie h h' v) = Ret (Some (MissingNodeError 0 (BytesToHash h') [1; 3]), t1) /\
  Get [18] t1 = Ret (inl None, t2) /\
  Trie_Hash (torn_trie h h' v) = Ret (BytesToHash h, t3) /\ Trie_Hash t1 = Ret (BytesToHash h, t4).
Proof.
  do 4 eexists. split; [vm_compute; reflexivity|]. split; [vm_compute; reflexivity|]. split; [vm_compute; reflexivity|].
  split; vm_compute; reflexivity.
Qed.

(** ** Witnesses *)

Definition toy_crypto : Crypto :=
  {| Keccak256 l := if decide (l = [128]) then EmptyRootHash else be_val l mod 115792089237316195423570985008687907853269984665640564039457584007913129639747 |}.

Definition empty_trie : Trie := mkTrie nilNode 0 false 0 0 (mkReader 0 None None) newTracer.

Ltac bytes_ok := repeat (apply Forall_cons; split; [unfold is_byte; lia|]); by apply Forall_nil.

Lemma demo_key_ok b : 0 <= b < 256 -> key_ok [18; b].
Proof. intros. split; [bytes_ok|by vm_compute]. Qed.

Lemma trie_refines_map_witness : exists t', @Update [18; 52] [7] empty_trie = Ret (None, t') /\
  @holds toy_crypto t' {[ [18; 52] := [7] ]}.
Proof.
  destruct (@trie_refines_map toy_crypto empty_trie ∅ [18; 52] [7]) as (_ & (t' & E & H) & _).
  - apply holds_empty.
  - by apply demo_key_ok.
  - bytes_ok.
  - by vm_compute.
  - exists t'. split; [done|]. by rewrite decide_False in H.
Defined.

(** Two updates of the empty trie in both orders, with values long enough for hashed nodes. *)
Definition demo_value (b : Z) : bytes := replicate 40 b.
Definition updated (key value : bytes) (t : Trie) : Trie :=
  match Update key value t with Ret (_, t) => t | Fail _ => t end.
Definition demo1 : Trie := updated [18; 53] (demo_value 9) (updated [18; 52] (demo_value 7) empty_trie).
Definition demo2 : Trie := updated [18; 52] (demo_value 7) (updated [18; 53] (demo_value 9) empty_trie).
Definition demo_map : gmap bytes bytes := <[ [18; 53] := demo_value 9 ]> (<[ [18; 52] := demo_value 7 ]> ∅).

Lemma updated_holds `{C : Crypto} t M key b : holds t M -> key_ok key -> 0 <= b < 256 ->
  holds (updated key (demo_value b) t) (<[key := demo_value b]> M).
Proof.
  intros H Hk Hb. destruct (Update_holds t M key (demo_value b) H Hk) as (t' & E & H').
  - by apply Forall_replicate.
  - by vm_compute.
  - unfold updated. by rewrite E.
Qed.

Lemma demo_holds `{C : Crypto} : holds demo1 demo_map /\ holds demo2 demo_map.
Proof.
  assert (Hk : forall b, 0 <= b < 256 -> key_ok [18; b]) by apply demo_key_ok. split.
  - apply updated_holds; [|by apply Hk|done]. apply updated_holds; [apply holds_empty|by apply Hk|done].
  - unfold demo_map. rewrite insert_insert_ne by done. apply updated_holds; [|by apply Hk|done].
    apply updated_holds; [apply holds_empty|by apply Hk|done].
Qed.

Lemma root_hash_of_content_witness : exists h t1' t2',
  @Trie_Hash toy_crypto demo1 = Ret (h, t1') /\ @Trie_Hash toy_crypto demo2 = Ret (h, t2') /\
  @holds toy_crypto t1' demo_map /\ @holds toy_crypto t2' demo_map.
Proof. apply (@root_hash_of_content toy_crypto demo1 demo2 demo_map); apply demo_holds. Defined.

Lemma root_hash_binds_witness : exists h t1' t2',
  @Trie_Hash toy_crypto demo1 = Ret (h, t1') /\ @Trie_Hash toy_crypto demo2 = Ret (h, t2') /\
  (demo_map = demo_map \/ @hash_collision toy_crypto (fun x => @trie_data toy_crypto demo_map x \/ @trie_data toy_crypto demo_map x)).
Proof.
  eexists _, _, _. split; [by vm_compute|]. split; [by vm_compute|].
  eapply (@root_hash_binds toy_crypto demo1 demo2 _ _ demo_map demo_map);
    [by vm_compute|apply demo_holds|apply demo_holds|by vm_compute|by vm_compute].
Defined.
