(* ===== verification/TrieProof.v ===== *)
(** * Merkle proofs ([trie/proof.go])

    [Prove] collects the encoded nodes on the path to a key; [VerifyProof] walks the path from the
    root hash through a database of such nodes.  A proof made by [Prove] verifies to the value at the
    key, or to its absence; and whatever nodes the database has, as long as it has every node under
    its hash, [VerifyProof] does not return anything but the content of the trie. *)

From S2P Require Import Prelude Bytes Rlp RlpTheorems VM TrieKeys TrieNode Trie TrieSpec TrieHash TrieOps TrieTheorems.

Set Default Proof Using "Type".

(** ** Model *)

Inductive prooferror :=
  | ProofNodeMissing (i : Z) (hash : bytes)
  | BadProofNode (i : Z) (e : decodeErr).

(** [get(tn, key, skipResolved)]: the rest of the key and the node it leads to. *)
Fixpoint proofGet (tn : node) (key : bytes) (skipResolved : bool) : Outcome (bytes * node) :=
  match tn with
  | shortNode k v _ =>
      if negb (HasPrefix key k) then Ret ([], nilNode)
      else
        let key := drop (length k) key in
        if skipResolved then proofGet v key skipResolved else Ret (key, v)
  | fullNode cs _ =>
      match key with
      | [] => Fail PanicIndex
      | x :: key =>
          match child_index x with
          | None => Fail PanicIndex
          | Some i =>
              (fix go (cs : list node) (i : nat) : Outcome (bytes * node) :=
                 match cs, i with
                 | [], _ => Fail PanicIndex
                 | c :: _, O => if skipResolved then proofGet c key skipResolved else Ret (key, c)
                 | _ :: cs, S i => go cs i
                 end) cs i
          end
      end
  | hashNode h => Ret (key, hashNode h)
  | nilNode => Ret (key, nilNode)
  | valueNode v => Ret ([], valueNode v)
  end.

(** [copy(wantHash[:], cld)] *)
Definition copy_hash (wantHash cld : bytes) : bytes := take 32 (cld ++ drop (length cld) wantHash).

Section verify.
(** [proofDb.Get]; [None] for nil. *)
Variable proofDb : bytes -> option bytes.

(** The loop of [VerifyProof] *)
Fixpoint verifyLoop (fuel : nat) (i : Z) (key wantHash : bytes) : Outcome (option bytes + prooferror) :=
  match fuel with
  | O => Fail OutOfFuel
  | S fuel =>
      match proofDb wantHash with
      | None => Ret (inr (ProofNodeMissing i wantHash))
      | Some buf =>
          r ← decodeNodeUnsafe (Some wantHash) buf;
          match r with
          | inr e => Ret (inr (BadProofNode i e))
          | inl n =>
              '(keyrest, cld) ← proofGet n key true;
              match cld with
              | nilNode => Ret (inl None)
              | hashNode h => verifyLoop fuel (i + 1) keyrest (copy_hash wantHash h)
              | valueNode v => Ret (inl (Some v))
              | _ => verifyLoop fuel (i + 1) key wantHash
              end
          end
      end
  end.

Definition VerifyProof (fuel : nat) (rootHash : Hash) (key : bytes) : Outcome (option bytes + prooferror) :=
  verifyLoop fuel 0 (keybytesToHex key) (Hash_Bytes rootHash).
End verify.

Section prove.
Context `{C : Crypto} (rd : trieReader).

(** What the second loop of [Prove] puts into the database for the [i]-th node. *)
Definition proofPut (i : nat) (n hn : node) : Outcome (list (bytes * bytes)) :=
  match hn with
  | hashNode hash => enc ← nodeToBytes n; Ret [(hash, enc)]
  | _ => if (i =? 0)%nat then enc ← nodeToBytes n; Ret [(hashData enc, enc)] else Ret []
  end.

(** The two loops of [Prove], the second one run on the way down: the puts in order and the node
    [tn] with the hashes that [proofHash] stored below it.  A node that is loaded from the database
    is not linked to the trie. *)
Fixpoint proveLoop (fuel : nat) (i : nat) (tn : node) (prefix key : bytes) :
    Outcome ((list (bytes * bytes) * node) + trieerror) :=
  match fuel with
  | O => Fail OutOfFuel
  | S fuel =>
      if (len key =? 0) || is_nil tn then Ret (inl ([], tn))
      else
        match tn with
        | shortNode k v fl =>
            '(n, hn, tn) ← proofHash tn;
            puts ← proofPut i n hn;
            match tn with
            | shortNode k v fl =>
                if negb (HasPrefix key k) then Ret (inl (puts, tn))
                else
                  r ← proveLoop fuel (S i) v (prefix ++ k) (drop (length k) key);
                  match r with
                  | inr e => Ret (inr e)
                  | inl (rest, v) => Ret (inl (puts ++ rest, shortNode k v fl))
                  end
            | _ => Fail PanicExplicit
            end
        | fullNode cs fl =>
            '(n, hn, tn) ← proofHash tn;
            puts ← proofPut i n hn;
            match tn with
            | fullNode cs fl =>
                x ← index key 0;
                c ← index cs x;
                r ← proveLoop fuel (S i) c (prefix ++ [x]) (drop 1 key);
                match r with
                | inr e => Ret (inr e)
                | inl (rest, c) => cs ← set_child cs x c; Ret (inl (puts ++ rest, fullNode cs fl))
                end
            | _ => Fail PanicExplicit
            end
        | hashNode h =>
            match reader_node rd prefix (BytesToHash h) with
            | inr e => Ret (inr e)
            | inl blob =>
                n ← mustDecodeNode (Some h) blob;
                r ← proveLoop fuel i n prefix key;
                match r with
                | inr e => Ret (inr e)
                | inl (puts, _) => Ret (inl (puts, tn))
                end
            end
        | _ => Fail PanicExplicit
        end
  end.
End prove.

(** [Prove]: the key-value pairs in the order in which they are put. *)
Definition Prove `{C : Crypto} (key : bytes) : ST Trie (list (bytes * bytes) + trieerror) :=
  t ← st_get;
  if committed t then mret (inr ErrCommitted)
  else
    let k := keybytesToHex key in
    r ← st_lift (proveLoop (reader t) (keyFuel k) 0 (root t) [] k);
    match r with
    | inr e => mret (inr e)
    | inl (puts, n) => _ ← st_modify (set_root n); mret (inl puts)
    end.

(** A database that received the puts. *)
Definition put_all (puts : list (bytes * bytes)) (db : gmap bytes bytes) : gmap bytes bytes :=
  fold_left (fun db kv => <[kv.1 := kv.2]> db) puts db.

(** ** The path to a key *)

(** The subtrees on the path, from the top. *)
Fixpoint pnodes (t : tree) (key : bytes) : list tree :=
  match t with
  | TNil | TVal _ => []
  | TShort k t' => t :: (if HasPrefix key k then pnodes t' (drop (length k) key) else [])
  | TFull ts =>
      t :: match key with
           | [] => []
           | x :: key =>
               match child_index x with
               | None => []
               | Some i =>
                   (fix go (ts : list tree) (i : nat) : list tree :=
                      match ts, i with
                      | [], _ => []
                      | t :: _, O => pnodes t key
                      | _ :: ts, S i => go ts i
                      end) ts i
               end
           end
  end.

Lemma pnodes_full ts i t r : ts !! i = Some t -> pnodes (TFull ts) (Z.of_nat i :: r) = TFull ts :: pnodes t r.
Proof.
  intros Hi. cbn [pnodes]. f_equal. unfold child_index. rewrite (proj2 (Z.leb_le 0 _)), Nat2Z.id by lia.
  revert i Hi. induction ts as [|u ts IH]; intros [|i] Hi; try done; [by injection Hi as ->|]. by apply IH.
Qed.

Lemma pnodes_short k t r : pnodes (TShort k t) (k ++ r) = TShort k t :: pnodes t r.
Proof. cbn [pnodes]. by rewrite HasPrefix_app, drop_app_length. Qed.

Lemma proofGet_full cs fl i c r : cs !! i = Some c -> proofGet (fullNode cs fl) (Z.of_nat i :: r) true = proofGet c r true.
Proof.
  intros Hi. cbn [proofGet]. unfold child_index. rewrite (proj2 (Z.leb_le 0 _)), Nat2Z.id by lia.
  revert i Hi. induction cs as [|u ts IH]; intros [|i] Hi; try done; [by injection Hi as ->|]. by apply IH.
Qed.

Section proofs.
Context `{C : Crypto}.

(** What a step of the verification finds below the tree [s]: nothing, the value, or the hash of a
    subtree on the path, with at most [n] nibbles of the key to go. *)
Definition walk (n : nat) (s : tree) (rest kr : bytes) (c : node) : Prop :=
  (c = nilNode /\ tlookup s rest = None) \/
  (exists v, c = valueNode v /\ tlookup s rest = Some v) \/
  (exists s' D', c = hashNode (thash s') /\ canon D' s' /\ D' <= maxLen /\ s' <> TNil /\ complete kr /\
     tlookup s rest = tlookup s' kr /\ (length kr <= n)%nat /\ 32 <= len (tenc s') /\
     forall x, x ∈ pnodes s' kr -> x ∈ pnodes s rest).

(** One step down. *)
Lemma walk_down n s rest t r kr c : walk (length r) t r kr c -> tlookup s rest = tlookup t r -> (length r <= n)%nat ->
  (forall x, x ∈ pnodes t r -> x ∈ pnodes s rest) -> walk n s rest kr c.
Proof.
  intros H E Hn Hp. unfold walk in *. rewrite E.
  destruct H as [H|[H|(s' & D' & Ec & Hc & HD & Hs & Hk & El & Hl & Hb & Hx)]]; [by left|by right; left|].
  right; right. exists s', D'. split_and!; try done; [lia|auto].
Qed.

Lemma proofGet_dref D t : canon D t -> D <= maxLen ->
  (t <> TNil -> forall h r, complete r -> exists kr c, proofGet (dnode h t) r true = Ret (kr, c) /\ walk (pred (length r)) t r kr c) ->
  forall r, complete r -> exists kr c, proofGet (dref t) r true = Ret (kr, c) /\ walk (length r) t r kr c.
Proof.
  intros Hc HD IH r Hr. destruct (decide (t = TNil)) as [->|Hn]; [eexists _, _; split; [done|by left]|].
  assert (Hv : forall v, t <> TVal v) by (intros v ->; by apply canon_not_val in Hc).
  assert (Ed : dref t = if len (tenc t) <? 32 then dnode None t else hashNode (thash t)) by (destruct t; [done|by destruct (Hv v)|done..]).
  rewrite Ed. case_if; bool_to_Z.
  - destruct (IH Hn None r Hr) as (kr & c & E & [H|[H|(s' & D' & H)]]); exists kr, c; (split; [done|]); [by left|by right; left|].
    right; right. exists s', D'. destruct H as (? & ? & ? & ? & ? & ? & ? & ? & ?). split_and!; try done. lia.
  - eexists r, _. split; [done|]. right; right. exists t, D. split_and!; done.
Qed.

Lemma proofGet_dnode D t : canon D t -> D <= maxLen -> t <> TNil -> forall h r, complete r ->
  exists kr c, proofGet (dnode h t) r true = Ret (kr, c) /\ walk (pred (length r)) t r kr c.
Proof.
  intros Hc. induction Hc as [|D ns v Hn Hv Hl|D ns ts Hne Hn Hc IH|D ts i j HD Hl Hc IH Hv Hij Hi Hj]; intros HD' Hnil h r Hr.
  - done.
  - cbn [dnode proofGet]. unfold walk. cbn [tlookup]. destruct (HasPrefix r (ns ++ [16])) eqn:E; cbn [negb].
    + apply HasPrefix_inv in E. revert E. generalize (drop (length (ns ++ [16])) r). intros s ->. apply complete_term in Hr as ->; [|done].
      eexists _, _. split; [done|]. right; left. by exists v.
    + eexists _, _. split; [done|]. by left.
  - rewrite dnode_short. cbn [proofGet]. destruct (HasPrefix r ns) eqn:E; cbn [negb].
    + apply HasPrefix_inv in E. revert E. generalize (drop (length ns) r). intros s ->. pose proof (len_nonneg ns).
      apply complete_app in Hr; [|done].
      destruct (proofGet_dref (D - len ns) (TFull ts) Hc ltac:(lia)) with (r := s) as (kr & c & E & Hw); [|done|].
      { intros _. apply IH; [lia|done]. }
      exists kr, c. split; [done|]. eapply walk_down; [done|by rewrite tlookup_short|rewrite length_app; destruct ns; [done|cbn; lia]|].
      intros x Hx. rewrite pnodes_short. by right.
    + eexists _, _. split; [done|]. left. cbn [tlookup]. by rewrite E.
  - assert (Hcan : canon D (TFull ts)) by (by apply (canon_full D ts i j)). rewrite dnode_full.
    destruct (at_key_full D ts r) as (_ & m & t & s & -> & Hm & Hsub & _); [by left|].
    rewrite (proofGet_full _ _ m (dref t)) by (by rewrite list_lookup_fmap, Hm).
    assert (H : exists kr c, proofGet (dref t) s true = Ret (kr, c) /\ walk (length s) t s kr c).
    { destruct Hsub as [[Hct Hs]|[-> [->|(v & -> & _)]]].
      - destruct (decide (m < 16)%nat).
        + eapply (proofGet_dref (D - 1)); [done|lia| |done]. intros Hnt. eapply IH; [done|done|lia|done].
        + destruct (canon_child D ts m t Hcan Hm) as [[? _]|[_ Ht]]; [lia|]. destruct Ht as [->|(v & -> & _)].
          * eexists _, _. split; [done|by left].
          * by apply canon_not_val in Hct.
      - eexists _, _. split; [done|by left].
      - eexists _, _. split; [done|]. right; left. by exists v. }
    destruct H as (kr & c & E & Hw). exists kr, c. split; [done|].
    eapply walk_down; [done|by rewrite tlookup_full, (child_at_lookup _ _ _ Hm)|cbn; lia|].
    intros x Hx. rewrite (pnodes_full _ _ _ _ Hm). by right.
Qed.

(** ** Verification *)

(** Every node is stored under its hash. *)
Definition content_addressed (db : bytes -> option bytes) : Prop := forall h buf, db h = Some buf -> hashData buf = h.

Lemma copy_hash_32 w h : len h = 32 -> copy_hash w h = h.
Proof. intros Hl. unfold copy_hash. apply take_app_length'. unfold len in Hl. lia. Qed.

Lemma pnodes_head D t r : canon D t -> t <> TNil -> t ∈ pnodes t r.
Proof. inversion 1; subst; [done|..]; cbn [pnodes]; left. Qed.

(** The verification of the path below [s]: the value, or a node that the proof does not have. *)
Lemma verifyLoop_spec (X : bytes -> Prop) db fuel : (forall h buf, db h = Some buf -> X buf) ->
  forall i D s rest, (forall x, x ∈ pnodes s rest -> X (tenc x)) -> content_addressed db -> canon D s -> D <= maxLen -> s <> TNil ->
  complete rest -> (length rest < fuel)%nat -> hash_collision X \/
  exists r, verifyLoop db fuel i rest (thash s) = Ret r /\
    (r = inl (tlookup s rest) \/
     exists j x, r = inr (ProofNodeMissing j (thash x)) /\ db (thash x) = None /\ x ∈ pnodes s rest /\ (x = s \/ 32 <= len (tenc x))).
Proof.
  intros HX. induction fuel as [|fuel IH]; intros i D s rest Hpn Hdb Hc HD Hn Hr Hf; [lia|]. cbn [verifyLoop].
  destruct (db (thash s)) as [buf|] eqn:E.
  2: { right. eexists. split; [done|]. right. exists i, s. split_and!; try done; [by eapply pnodes_head|by left]. }
  pose proof (HX _ _ E) as Hbuf. apply Hdb in E. unfold thash in E.
  destruct (hashData_inj X _ _ Hbuf (Hpn s (pnodes_head D s rest Hc Hn)) E) as [->|?]; [|by left].
  rewrite (decodeNode_tenc D) by done. cbn [mbind outcome_bind].
  destruct (proofGet_dnode D s Hc HD Hn (Some (thash s)) rest Hr) as (kr & c & Ep & Hw). rewrite Ep. cbn [mbind outcome_bind].
  destruct Hw as [[-> El]|[(v & -> & El)|(s' & D' & -> & Hc' & HD' & Hn' & Hk' & El & Hl & Hb & Hx)]].
  - right. eexists. split; [done|]. left. by rewrite El.
  - right. eexists. split; [done|]. left. by rewrite El.
  - rewrite copy_hash_32 by apply hashData_length. pose proof (complete_not_nil) as Hcn.
    destruct (IH (i + 1) D' s' kr) as [?|(r & Er & H)]; [auto|done|done|done|done|done|destruct rest; [done|cbn in *; lia]|by left|].
    right. exists r. split; [done|]. rewrite El. destruct H as [->|(j & x & -> & Hd & Hxx & Hor)]; [by left|]. right.
    exists j, x. split_and!; try done; [auto|]. right. destruct Hor as [->|?]; done.
Qed.

(** ** Construction *)

Lemma proofPut_spec i c hd t : nodeToBytes c = Ret (tenc t) -> hashed_ok false hd t ->
  exists puts, proofPut i c hd = Ret puts /\ Forall (fun kv => hashData kv.2 = kv.1) puts /\
    (i = 0%nat \/ 32 <= len (tenc t) -> (thash t, tenc t) ∈ puts).
Proof.
  intros E [([?|Hb] & ->)|(_ & Hl & Ei & _ & l & El)]; [done|..].
  - cbn [proofPut]. rewrite E. cbn [mbind outcome_bind]. eexists. split; [done|]. split; [by apply Forall_singleton|]. intros _. left.
  - assert (Ep : proofPut i c hd = if (i =? 0)%nat then Ret [(thash t, tenc t)] else Ret []).
    { unfold proofPut. rewrite E. destruct hd; try done. cbn in Ei. by rewrite El in Ei. }
    rewrite Ep. destruct (Nat.eqb_spec i 0) as [->|Hi]; eexists; (split; [done|]).
    + split; [by apply Forall_singleton|]. intros _. left.
    + split; [by apply Forall_nil|]. intros [?|?]; [done|lia].
Qed.

(** The puts of a proof: all the hashed nodes on the path, each under its hash. *)
Definition proof_ok (i : nat) (t : tree) (rest : bytes) (puts : list (bytes * bytes)) : Prop :=
  Forall (fun kv => hashData kv.2 = kv.1) puts /\
  forall x, x ∈ pnodes t rest -> (i = 0%nat /\ x = t) \/ 32 <= len (tenc x) -> (thash x, tenc x) ∈ puts.

(** The node and the path below it. *)
Lemma proof_ok_cons i t rest puts t' r puts' : pnodes t rest = t :: pnodes t' r ->
  Forall (fun kv => hashData kv.2 = kv.1) puts -> (i = 0%nat \/ 32 <= len (tenc t) -> (thash t, tenc t) ∈ puts) ->
  proof_ok (S i) t' r puts' -> proof_ok i t rest (puts ++ puts').
Proof.
  intros Ep H1 H2 [H3 H4]. split; [by apply Forall_app|]. intros x Hx Ho. rewrite Ep in Hx. apply elem_of_app.
  apply elem_of_cons in Hx as [->|Hx].
  - left. apply H2. destruct Ho as [[? _]|?]; auto.
  - destruct Ho as [[-> ->]|Hb]; [|right; apply H4; auto].
    destruct (Z.lt_ge_cases (len (tenc t)) 32); [left; auto|right; apply H4; auto].
Qed.

Lemma proof_ok_last i t rest puts : pnodes t rest = [t] -> Forall (fun kv => hashData kv.2 = kv.1) puts ->
  (i = 0%nat \/ 32 <= len (tenc t) -> (thash t, tenc t) ∈ puts) -> proof_ok i t rest puts.
Proof.
  intros Ep H1 H2. split; [done|]. intros x Hx Ho. rewrite Ep in Hx. apply list_elem_of_singleton in Hx as ->.
  apply H2. destruct Ho as [[? _]|?]; auto.
Qed.

Lemma proof_ok_nil i t rest : pnodes t rest = [] -> proof_ok i t rest [].
Proof. intros Ep. split; [done|]. intros x Hx. rewrite Ep in Hx. inversion Hx. Qed.

Lemma proveLoop_repr rd fuel : forall i n p rest t D f, repr rd f p n t -> at_key D t rest -> D <= maxLen -> (opFuel n rest < fuel)%nat ->
  exists puts n', proveLoop rd fuel i n p rest = Ret (inl (puts, n')) /\ repr rd f p n' t /\ proof_ok i t rest puts /\
    (hashed n t -> hashed n' t).
Proof.
  induction fuel as [|fuel IH]; intros i n p rest t D f Hr Hk HD Hf; [lia|]. cbn [proveLoop].
  destruct (decide (rest = [])) as [->|Hne].
  { destruct Hk as [[_ Hk]|[_ Ht]]; [by apply complete_not_nil in Hk|]. eexists [], n. split; [done|]. split; [done|].
    split; [|done]. apply proof_ok_nil. by destruct Ht as [->|(v & -> & _)]. }
  rewrite len_nz by done. cbn [orb]. destruct (at_key_canon D t rest Hk Hne) as [Hc Hcomp].
  destruct n as [|cs fl|k v fl|h|v]; cbn [is_nil].
  - inversion Hr; subst. exists [], nilNode. split; [done|]. split; [done|]. split; [by apply proof_ok_nil|done].
  - inversion Hr as [| | |? ? ? ts ? Hfl Hl Hrc|]; subst.
    destruct (proofHash_repr rd D f p (fullNode cs fl) (TFull ts)) as (c & hd & n' & E & Eb & Hh & Hr' & Hnh & Hhn); [done..|].
    rewrite E. cbn [mbind outcome_bind]. destruct (proofPut_spec i c hd (TFull ts) Eb Hh) as (puts & Ep & Hput & Hin).
    rewrite Ep. cbn [mbind outcome_bind]. inversion Hr' as [| | |? ? cs' ? fl' Hfl' Hl' Hrc'|? ? ? ? ? ? ? ? Eh]; subst; [|by destruct (Hnh (thash (TFull ts)))].
    apply at_key_full in Hk as (_ & m & t & r & -> & Hm & Hsub & _). change (index (Z.of_nat m :: r) 0) with (Ret (Z.of_nat m)).
    destruct (lookup_lt_is_Some_2 cs' m) as [x Hx]; [apply lookup_lt_Some in Hm; lia|]. cbn [mbind outcome_bind].
    rewrite (index_lookup _ _ _ Hx). cbn [mbind outcome_bind]. change (drop 1 (Z.of_nat m :: r)) with r.
    destruct (IH (S i) x (p ++ [Z.of_nat m]) r t (D - 1) false) as (puts' & x' & E' & Hr'' & Hok & Hhx);
      [by eapply Hrc'|done|lia|unfold opFuel in *; cbn [length is_hash] in *; destruct (is_hash x); lia|].
    rewrite E'. cbn [mbind outcome_bind]. rewrite (set_child_ok _ _ _ _ Hx). cbn [mbind outcome_bind]. eexists _, _. split; [done|]. split_and!.
    + rewrite <- (list_insert_id ts m t Hm). eapply repr_full_child; [done|by eapply lookup_lt_Some| |done].
      rewrite (list_insert_id ts m t Hm). by eapply flag_full_child.
    + eapply proof_ok_cons; [by apply pnodes_full|done|done|done].
    + intros Hh1. eapply hashed_full_child; eauto.
  - inversion Hr as [| |? ? ? ? t' ? Hfl Hrv| |]; subst.
    destruct (proofHash_repr rd D f p (shortNode k v fl) (TShort k t')) as (c & hd & n' & E & Eb & Hh & Hr' & Hnh & Hhn); [done..|].
    rewrite E. cbn [mbind outcome_bind]. destruct (proofPut_spec i c hd (TShort k t') Eb Hh) as (puts & Ep & Hput & Hin).
    rewrite Ep. cbn [mbind outcome_bind]. inversion Hr' as [| |? ? ? v' ? fl' Hfl' Hrv'| |]; subst; [|by destruct (Hnh (thash (TShort k t')))].
    apply at_key_short in Hk as (_ & _ & Hkne & Hsub & _). destruct (HasPrefix rest k) eqn:Hp; cbn [negb].
    + apply HasPrefix_inv in Hp. revert Hp. generalize (drop (length k) rest). intros r ->.
      destruct (IH (S i) v' (p ++ k) r t' (D - len k) false) as (puts' & x' & E' & Hr'' & Hok & Hhx);
        [done|by apply Hsub|pose proof (len_nonneg k); lia| |].
      { unfold opFuel in *. rewrite length_app in Hf. destruct k; [done|]. cbn [length is_hash] in *. destruct (is_hash v'); lia. }
      rewrite E'. cbn [mbind outcome_bind]. eexists _, _. split; [done|]. split_and!.
      * constructor; [|done]. destruct Hfl' as [H1 H2]. split; [|done]. intros h Hh1. destruct (H1 h Hh1) as (? & ? & ?). auto.
      * eapply proof_ok_cons; [by apply pnodes_short|done|done|done].
      * intros Hh1. specialize (Hhn Hh1). inversion Hhn; subst. constructor; auto.
    + eexists _, _. split; [done|]. split; [done|]. split; [apply proof_ok_last; [cbn [pnodes]; by rewrite Hp|done|done]|done].
  - inversion Hr as [| | | |? ? ? Hn Hv Hbig Hdb Ha]; subst. rewrite Hdb. unfold mustDecodeNode. rewrite (decodeNode_tenc D) by done. cbn [mbind outcome_bind].
    destruct (IH i (dnode (Some (thash t)) t) p rest t D f) as (puts & n' & E & Hr' & Hok & _); [|done|done| |].
    { eapply (dnode_repr rd D); [done|done|done|done|]. by right. }
    { unfold opFuel in *. rewrite dnode_not_hash. cbn [is_hash] in Hf. lia. }
    rewrite E. cbn [mbind outcome_bind]. by eexists _, _.
  - inversion Hr; subst. by apply canon_not_val in Hc.
Qed.

(** ** Databases *)

(** [proofDb.Get] on a database that is a map. *)
Definition db_get (db : gmap bytes bytes) (h : bytes) : option bytes := db !! h.

Lemma put_all_addressed puts : forall db, Forall (fun kv => hashData kv.2 = kv.1) puts -> content_addressed (db_get db) ->
  content_addressed (db_get (put_all puts db)).
Proof.
  induction puts as [|[k v] puts IH]; intros db Hp Hdb; [done|]. apply Forall_cons in Hp as [Hkv Hp]. apply IH; [done|].
  intros h buf. unfold db_get. destruct (decide (h = k)) as [->|Hne].
  - rewrite lookup_insert_eq. by intros [= <-].
  - rewrite lookup_insert_ne by done. apply Hdb.
Qed.

Lemma put_all_keeps puts : forall db h, is_Some (db !! h) -> is_Some (put_all puts db !! h).
Proof.
  induction puts as [|[k v] puts IH]; intros db h Hs; [done|]. apply IH. cbn [fst snd].
  destruct (decide (h = k)) as [->|Hne]; [rewrite lookup_insert_eq; eauto|by rewrite lookup_insert_ne].
Qed.

Lemma put_all_has puts : forall db h e, (h, e) ∈ puts -> is_Some (put_all puts db !! h).
Proof.
  induction puts as [|[k v] puts IH]; intros db h e Hin; [inversion Hin|]. apply elem_of_cons in Hin as [[= -> ->]|Hin].
  - change (is_Some (put_all puts (<[k := v]> db) !! k)). apply put_all_keeps. rewrite lookup_insert_eq. eauto.
  - by eapply IH.
Qed.

Lemma put_all_inv puts : forall db h e, db_get (put_all puts db) h = Some e -> (h, e) ∈ puts \/ db_get db h = Some e.
Proof.
  unfold db_get. induction puts as [|[k v] puts IH]; intros db h e H; [by right|]. destruct (IH _ _ _ H) as [?|Hb]; [left; by right|].
  cbn [fst snd] in Hb. destruct (decide (h = k)) as [->|Hne]; [rewrite lookup_insert_eq in Hb; injection Hb as ->; left; by left|rewrite lookup_insert_ne in Hb by done; by right].
Qed.

(** Nodes on a path are nodes of the tree. *)
Lemma pnodes_in D t : canon D t -> forall r s, s ∈ pnodes t r -> node_in s t.
Proof.
  assert (Hvals : forall t0 r s, (t0 = TNil \/ exists v, t0 = TVal v) -> s ∈ pnodes t0 r -> node_in s t0).
  { intros t0 r s [->|[v ->]] Hs; cbn in Hs; by apply elem_of_nil in Hs. }
  induction 1 as [|D ns v Hn Hv Hl|D ns ts Hne Hn Hc IH|D ts i j HD Hl Hc IH Hv Hij Hi Hj]; intros r s Hs.
  - apply (Hvals TNil r); [by left|done].
  - cbn [pnodes] in Hs. apply elem_of_cons in Hs as [->|Hs]; [apply in_short|]. destruct (HasPrefix _ _); by apply elem_of_nil in Hs.
  - cbn [pnodes] in Hs. apply elem_of_cons in Hs as [->|Hs]; [apply in_short|]. destruct (HasPrefix _ _); [|by apply elem_of_nil in Hs]. apply in_short_child. by eapply IH.
  - destruct r as [|x r]; cbn [pnodes] in Hs; (apply elem_of_cons in Hs as [->|Hs]; [apply in_full|]); [by apply elem_of_nil in Hs|].
    destruct (child_index x) as [m|]; [|by apply elem_of_nil in Hs].
    assert (H : exists t0, ts !! m = Some t0 /\ s ∈ pnodes t0 r).
    { clear -Hs. revert m Hs. induction ts as [|t0 ts IHts]; intros m Hs; [by apply elem_of_nil in Hs|]. destruct m as [|m]; [by exists t0|]. destruct (IHts m Hs) as (t1 & ? & ?). by exists t1. }
    destruct H as (t0 & Hm & Hs0). apply (in_full_child ts m t0); [done|].
    destruct (canon_child D ts m t0) as [[Hlt Hct]|[_ Ht]]; [by apply (canon_full D ts i j)|done|by eapply IH|].
    apply (Hvals t0 r); [|done]. destruct Ht as [->|(v & -> & _)]; [by left|right; by eexists].
Qed.

Lemma hash_tree t h t' T : trie_ok t T -> Trie_Hash t = Ret (h, t') -> h = troot T.
Proof. intros Hok E. destruct (Trie_Hash_tree t T Hok) as (t1 & E1 & _). congruence. Qed.

Lemma decode_empty_string h : exists e, decodeNodeUnsafe (Some h) [128] = Ret (inr e).
Proof. by eexists. Qed.

(** ** Properties *)


(** C27 Proofs are complete: for a trie that is not empty, [Prove] succeeds, keeps the content, and the
    nodes it puts into a database make [VerifyProof] accept, with the value at the key or with its
    absence, or two different byte strings among the nodes of the trie and the nodes put have the same hash. *)
Theorem Prove_complete (t t' : Trie) (M : gmap bytes bytes) (h : Hash) (key : bytes) (fuel : nat) :
  holds t M -> M <> ∅ -> Trie_Hash t = Ret (h, t') -> key_ok key -> (length (keybytesToHex key) < fuel)%nat ->
  exists puts t'', Prove key t = Ret (inl puts, t'') /\ holds t'' M /\
    (hash_collision (fun x => trie_data M x \/ exists k, (k, x) ∈ puts) \/
     VerifyProof (db_get (put_all puts ∅)) fuel h key = Ret (inl (M !! key))).
Proof.
  intros (T & Hok & Hs) HM Eh [Hk _] Hf. pose proof Hok as (Hcm & Hr & Hc & Ht). rewrite (hash_tree t h t' T Hok Eh).
  assert (Hn : T <> TNil) by (intros ->; by apply HM, stores_nil).
  destruct (proveLoop_repr (reader t) (keyFuel (keybytesToHex key)) 0 (root t) [] (keybytesToHex key) T maxLen true)
    as (puts & n' & E & Hr' & (Hput & Hin) & _); [done|by apply root_at_key|done|apply root_fuel|].
  unfold Prove, mbind, st_bind, st_get, st_lift. rewrite Hcm, E. eexists puts, _. split; [done|].
  split; [exists T; split; done|]. unfold VerifyProof. rewrite Hash_Bytes_troot by done.
  assert (Hdb : content_addressed (db_get (put_all puts ∅))) by (apply put_all_addressed; [done|]; intros hh bb Hbb; unfold db_get in Hbb; by rewrite lookup_empty in Hbb).
  set (X := fun x => trie_data M x \/ exists k, (k, x) ∈ puts).
  destruct (verifyLoop_spec X (db_get (put_all puts ∅)) fuel) with (i := 0) (D := maxLen) (s := T) (rest := keybytesToHex key) as [?|(r & E' & H)];
    [intros k buf Hb; right; exists k; by apply (put_all_inv puts ∅) in Hb as [?|Hb]; [|unfold db_get in Hb; rewrite lookup_empty in Hb]
    |intros x Hx; left; apply (covers_data T M); [done|done|by eapply (pnodes_in maxLen)]|done|done|done|done|by apply keybytes_complete|done|by left|right].
  rewrite E'. destruct H as [->|(j & x & -> & Hx & Hp & Ho)]; [by rewrite (stores_lookup T M)|]. exfalso.
  assert (Hx' : (thash x, tenc x) ∈ puts) by (apply Hin; [done|]; destruct Ho as [->|?]; auto).
  apply (put_all_has puts ∅) in Hx' as [e He]. unfold db_get in Hx. congruence.
Qed.
End proofs.

(** ** Witnesses *)

Definition demo_puts : list (bytes * bytes) :=
  match @Prove toy_crypto [18; 52] demo1 with Ret (inl puts, _) => puts | _ => [] end.
Definition demo_root : Hash := match @Trie_Hash toy_crypto demo1 with Ret (h, _) => h | Fail _ => 0 end.

Example demo_proof_verifies : VerifyProof (db_get (put_all demo_puts ∅)) 6 demo_root [18; 52] = Ret (inl (Some (demo_value 7))).
Proof. vm_compute. reflexivity. Qed.

Lemma demo_root_eq : exists t', @Trie_Hash toy_crypto demo1 = Ret (demo_root, t').
Proof. eexists. vm_compute. reflexivity. Qed.

Lemma demo_addressed : @content_addressed toy_crypto (db_get (put_all demo_puts ∅)).
Proof.
  apply put_all_addressed.
  - apply (bool_decide_unpack _). vm_compute. exact I.
  - intros h b Hb. unfold db_get in Hb. by rewrite lookup_empty in Hb.
Qed.


Lemma Prove_complete_witness : exists puts t'', @Prove toy_crypto [18; 52] demo1 = Ret (inl puts, t'') /\
  @holds toy_crypto t'' demo_map /\
  (@hash_collision toy_crypto (fun x => @trie_data toy_crypto demo_map x \/ exists k, (k, x) ∈ puts) \/ VerifyProof (db_get (put_all puts ∅)) 6 demo_root [18; 52] = Ret (inl (demo_map !! [18; 52]))).
Proof.
  destruct demo_root_eq as [t' E].
  refine (@Prove_complete toy_crypto demo1 t' demo_map demo_root [18; 52] 6%nat (proj1 demo_holds) _ E (demo_key_ok 52 _) _);
    [apply insert_non_empty|lia|cbn; lia].
Defined.
