(* ===== verification/TrieCommit.v ===== *)
(** * Committing a trie ([trie/committer.go], [trie/trienode/node.go], [Trie.Commit])

    [Commit] collects the encoded dirty nodes in a node set and replaces them by their hashes.  A
    trie that is opened on a database with the node set stores what the committed trie stored. *)

From S2P Require Import Prelude Bytes Rlp RlpTheorems VM TrieKeys TrieNode Trie TrieSpec TrieHash TrieOps TrieTheorems.

Set Default Proof Using "Type".

(** ** Node sets ([trienode/node.go]) *)

Record Node := mkNode { Node_Hash : Hash; Blob : bytes }.

Definition IsDeleted (n : Node) : bool := len (Blob n) =? 0.
Definition NewDeleted : Node := mkNode 0 [].

Record leaf := mkLeaf { leaf_Blob : bytes; Parent : Hash }.

Record NodeSet := mkNodeSet {
  set_Owner : Hash;
  Leaves : list leaf;
  Nodes : gmap bytes Node;
  set_updates : Z;
  set_deletes : Z;
}.

Definition NewNodeSet (owner : Hash) : NodeSet := mkNodeSet owner [] ∅ 0 0.

Definition AddNode (path : bytes) (n : Node) (s : NodeSet) : NodeSet :=
  mkNodeSet (set_Owner s) (Leaves s) (<[path := n]> (Nodes s))
    (if IsDeleted n then set_updates s else set_updates s + 1)
    (if IsDeleted n then set_deletes s + 1 else set_deletes s).

Definition AddLeaf (parent : Hash) (blob : bytes) (s : NodeSet) : NodeSet :=
  mkNodeSet (set_Owner s) (Leaves s ++ [mkLeaf blob parent]) (Nodes s) (set_updates s) (set_deletes s).

(** [MergeSet]: [false] for the error of sets with different owners. *)
Definition MergeSet (s other : NodeSet) : bool * NodeSet :=
  if negb (set_Owner s =? set_Owner other) then (false, s)
  else (true, mkNodeSet (set_Owner s) (Leaves s ++ Leaves other) (Nodes other ∪ Nodes s)
                (set_updates s + set_updates other) (set_deletes s + set_deletes other)).

(** ** The committer ([committer.go]) *)

Section committer.
(** The nodes that were read from the database, and whether leaves are collected. *)
Variable accessed : gmap bytes bytes.
Variable collectLeaf : bool.

(** [c.store(path, n)]: the hash of the node if it has one, the node itself otherwise. *)
Definition store (path : bytes) (n : node) (s : NodeSet) : Outcome (node * NodeSet) :=
  '(hash, _) ← cache n;
  match hash with
  | None =>
      Ret (n, if bool_decide (is_Some (accessed !! path)) then AddNode path NewDeleted s else s)
  | Some hash =>
      let nhash := BytesToHash hash in
      blob ← nodeToBytes n;
      let s := AddNode path (mkNode nhash blob) s in
      let s := match n with
               | shortNode _ (valueNode v) _ => if collectLeaf then AddLeaf nhash v s else s
               | _ => s
               end in
      Ret (hashNode hash, s)
  end.

(** The loop of [commitChildren] without [parallel]: [i] is the index of the first child in the list. *)
Definition commitChildren (commit : bytes -> node -> NodeSet -> Outcome (node * NodeSet)) (path : bytes) :
    nat -> list node -> NodeSet -> Outcome (list node * NodeSet) :=
  fix go i cs s {struct cs} :=
    match cs with
    | [] => Ret ([], s)
    | c :: cs =>
        '(c, s) ← (if (i <? 16)%nat then
                     match c with
                     | nilNode | hashNode _ => Ret (c, s)
                     | _ => commit (path ++ [Z.of_nat i]) c s
                     end
                   else Ret (c, s));
        '(cs, s) ← go (S i) cs s;
        Ret (c :: cs, s)
    end.

(** [c.commit(path, n, false)] *)
Fixpoint commit (path : bytes) (n : node) (s : NodeSet) {struct n} : Outcome (node * NodeSet) :=
  '(hash, dirty) ← cache n;
  match hash, dirty with
  | Some h, false => Ret (hashNode h, s)
  | _, _ =>
      match n with
      | shortNode k v fl =>
          '(v, s) ← (match v with fullNode _ _ => commit (path ++ k) v s | _ => Ret (v, s) end);
          key ← hexToCompact k;
          store path (shortNode key v fl) s
      | fullNode cs fl =>
          '(cs, s) ← commitChildren commit path 0 cs s;
          store path (fullNode cs fl) s
      | hashNode h => Ret (hashNode h, s)
      | _ => Fail PanicExplicit
      end
  end.

(** What the goroutines of [commitChildren] compute with [parallel]: each child that is in memory is
    committed into a node set of its own. *)
Fixpoint commitEach (owner : Hash) (path : bytes) (i : nat) (cs : list node) : Outcome (list node * list NodeSet) :=
  match cs with
  | [] => Ret ([], [])
  | c :: cs =>
      '(c, s) ← (if (i <? 16)%nat then
                   match c with
                   | nilNode | hashNode _ => Ret (c, NewNodeSet owner)
                   | _ => commit (path ++ [Z.of_nat i]) c (NewNodeSet owner)
                   end
                 else Ret (c, NewNodeSet owner));
      '(cs, sets) ← commitEach owner path (S i) cs;
      Ret (c :: cs, s :: sets)
  end.

(** They take the lock and merge their sets in the order [order] of the children, which the scheduler
    chooses. *)
Definition mergeAll (order : list nat) (sets : list NodeSet) (s : NodeSet) : NodeSet :=
  fold_left (fun s i => match sets !! i with Some other => snd (MergeSet s other) | None => s end) order s.

Definition commitChildrenParallel (order : list nat) (path : bytes) (cs : list node) (s : NodeSet) : Outcome (list node * NodeSet) :=
  '(cs, sets) ← commitEach (set_Owner s) path 0 cs;
  Ret (cs, mergeAll order sets s).

(** [c.commit(nil, n, parallel)]: only the children of a full node at the root are committed in parallel. *)
Definition commitRoot (order : list nat) (parallel : bool) (n : node) (s : NodeSet) : Outcome (node * NodeSet) :=
  match n with
  | fullNode cs fl =>
      match parallel, flag_hash fl, flag_dirty fl with
      | false, _, _ => commit [] n s
      | true, Some h, false => Ret (hashNode h, s)
      | true, _, _ => '(cs, s) ← commitChildrenParallel order [] cs s; store [] (fullNode cs fl) s
      end
  | _ => commit [] n s
  end.
End committer.

(** ** [Trie.Commit] *)

Definition set_committed (t : Trie) : Trie :=
  mkTrie (root t) (owner t) true (unhashed t) (uncommitted t) (reader t) (t_tracer t).
Definition set_uncommitted (n : Z) (t : Trie) : Trie :=
  mkTrie (root t) (owner t) (committed t) (unhashed t) n (reader t) (t_tracer t).

(** The set with the deleted nodes. *)
Definition deletedSet (owner : Hash) (paths : list bytes) : NodeSet :=
  fold_left (fun s path => AddNode path NewDeleted s) paths (NewNodeSet owner).

(** The root hash and the node set ([None] for nil); the type assertion in [committer.Commit] panics
    if the root is not replaced by its hash.  [order] is the order in which the goroutines of a parallel
    commit merge their sets. *)
Definition Commit `{C : Crypto} (order : list nat) (collectLeaf : bool) : ST Trie (Hash * option NodeSet) :=
  t ← st_get;
  let paths := deletedNodes (t_tracer t) in
  r ← (if is_nil (root t) then
         mret (EmptyRootHash, match paths with [] => None | _ => Some (deletedSet (owner t) paths) end)
       else
         rootHash ← Trie_Hash;
         t ← st_get;
         '(hashedNode, dirty) ← st_lift (cache (root t));
         if negb dirty then
           _ ← st_modify (set_root (match hashedNode with Some h => hashNode h | None => nilNode end));
           mret (rootHash, None)
         else
           '(n, nodes) ← st_lift (commitRoot (accessList (t_tracer t)) collectLeaf order (100 <? uncommitted t) (root t)
                                    (deletedSet (owner t) paths));
           match n with
           | hashNode _ =>
               _ ← st_modify (fun t => set_uncommitted 0 (set_root n t));
               mret (rootHash, Some nodes)
           | _ => st_fail PanicExplicit
           end);
  _ ← st_modify set_committed;
  mret r.

(** ** What a commit stores *)

Section commit.
Context `{C : Crypto}.

(** All the big nodes of a tree satisfy [P]. *)
Inductive stored_by (P : bytes -> tree -> Prop) : bytes -> tree -> Prop :=
  | sb_nil p : stored_by P p TNil
  | sb_val p v : stored_by P p (TVal v)
  | sb_short p k t : (32 <= len (tenc (TShort k t)) -> P p (TShort k t)) ->
      stored_by P (p ++ k) t -> stored_by P p (TShort k t)
  | sb_full p ts : (32 <= len (tenc (TFull ts)) -> P p (TFull ts)) ->
      (forall i t, ts !! i = Some t -> stored_by P (p ++ [Z.of_nat i]) t) -> stored_by P p (TFull ts).

Lemma stored_by_mono (P Q : bytes -> tree -> Prop) p t : stored_by P p t ->
  (forall r x, node_at t r -> P (p ++ r) x -> Q (p ++ r) x) -> stored_by Q p t.
Proof.
  induction 1 as [p|p v|p k t Hp Hs IH|p ts Hp Hs IH]; intros H; constructor.
  - intros Hb. rewrite <- (app_nil_r p). apply H; [constructor|]. rewrite app_nil_r. auto.
  - apply IH. intros r x Hr Hx. rewrite <- app_assoc in *. apply H; [by constructor|done].
  - intros Hb. rewrite <- (app_nil_r p). apply H; [constructor|]. rewrite app_nil_r. auto.
  - intros i t Ht. apply (IH i t Ht). intros r x Hr Hx. rewrite <- app_assoc in *. apply H; [by econstructor|done].
Qed.

Lemma avail_stored rd p t : avail rd p t <-> stored_by (in_db rd) p t.
Proof. split; induction 1; constructor; auto. Qed.

Section reader.
Variable rd : trieReader.

(** The node [x] at the path [q] after nodes were added: it is in the set, or it is in the database and
    the set is as before at its path. *)
Definition has (N0 N : gmap bytes Node) (q : bytes) (x : tree) : Prop :=
  N !! q = Some (mkNode (BytesToHash (thash x)) (tenc x)) \/ (in_db rd q x /\ N !! q = N0 !! q).

(** Only paths of nodes of [t] below [p] changed. *)
Definition frame (p : bytes) (t : tree) (N0 N : gmap bytes Node) : Prop :=
  forall q, (forall r, node_at t r -> q <> p ++ r) -> N !! q = N0 !! q.

Lemma frame_refl p t N : frame p t N N.
Proof. done. Qed.

(** The result for a subtree: the node that goes into the parent, and what was stored. *)
Definition commits (p : bytes) (t : tree) (s : NodeSet) (r : Outcome (node * NodeSet)) : Prop :=
  exists c s', r = Ret (c, s') /\ nitem c = tref t /\ encodable c /\ set_Owner s' = set_Owner s /\ frame p t (Nodes s) (Nodes s') /\
    stored_by (has (Nodes s) (Nodes s')) p t.

Lemma commits_same p t c s : nitem c = tref t -> encodable c -> avail rd p t -> commits p t s (Ret (c, s)).
Proof.
  intros E He Ha. exists c, s. split_and!; try done. apply avail_stored in Ha. eapply stored_by_mono; [done|].
  intros r x _ Hx. by right.
Qed.

Lemma commits_value p v s : commits p (TVal v) s (Ret (valueNode v, s)).
Proof. apply commits_same; constructor. Qed.
Lemma commits_nil p s : commits p TNil s (Ret (nilNode, s)).
Proof. apply commits_same; constructor. Qed.

Lemma commits_hash p h t s : repr rd false p (hashNode h) t -> commits p t s (Ret (hashNode h, s)).
Proof.
  inversion 1 as [| | | |? ? ? Hn Hv [?|Hb] Hdb Ha]; subst; [done|]. apply commits_same; [|constructor|done].
  destruct (tref_hash_or_list t Hn Hv) as [(? & _)|(_ & E)]; [lia|]. by rewrite E.
Qed.

(** Two changes one after the other. *)
Lemma has_frame_l p t N0 N1 N2 : (forall r, node_at t r -> N2 !! (p ++ r) = N1 !! (p ++ r)) ->
  stored_by (has N0 N1) p t -> stored_by (has N0 N2) p t.
Proof.
  intros Hf Hs. eapply stored_by_mono; [done|]. intros r x Hr [H|[H1 H2]]; [left|right]; rewrite Hf by done; done.
Qed.

Lemma has_frame_r p t N0 N1 N2 : (forall r, node_at t r -> N1 !! (p ++ r) = N0 !! (p ++ r)) ->
  stored_by (has N1 N2) p t -> stored_by (has N0 N2) p t.
Proof.
  intros Hf Hs. eapply stored_by_mono; [done|]. intros r x Hr [H|[H1 H2]]; [by left|right]. split; [done|]. by rewrite H2, Hf.
Qed.

(** ** The children of a full node *)

Section children.
Variables (accessed : gmap bytes bytes) (collectLeaf : bool).

Definition commitChild (p : bytes) (i : nat) (c : node) (s : NodeSet) : Outcome (node * NodeSet) :=
  if (i <? 16)%nat then
    match c with nilNode | hashNode _ => Ret (c, s) | _ => commit accessed collectLeaf (p ++ [Z.of_nat i]) c s end
  else Ret (c, s).

(** The paths of the nodes below the children from the index [i] on. *)
Definition below (p : bytes) (i : nat) (ts : list tree) (q : bytes) : Prop :=
  exists j t r, ts !! j = Some t /\ node_at t r /\ q = p ++ Z.of_nat (i + j) :: r.

Lemma child_path p (i j : nat) r r' : p ++ Z.of_nat i :: r = p ++ Z.of_nat j :: r' -> i = j.
Proof. intros E. apply app_inv_head in E. injection E as E _. lia. Qed.

Lemma commitChildren_spec p cs : forall ts i s, length cs = length ts ->
  (forall j c t s, cs !! j = Some c -> ts !! j = Some t -> commits (p ++ [Z.of_nat (i + j)]) t s (commitChild p (i + j) c s)) ->
  exists cs' s', commitChildren (commit accessed collectLeaf) p i cs s = Ret (cs', s') /\ length cs' = length cs /\
    (forall j c t, cs' !! j = Some c -> ts !! j = Some t -> nitem c = tref t /\ encodable c) /\ set_Owner s' = set_Owner s /\
    (forall q, ~ below p i ts q -> Nodes s' !! q = Nodes s !! q) /\
    (forall j t, ts !! j = Some t -> stored_by (has (Nodes s) (Nodes s')) (p ++ [Z.of_nat (i + j)]) t).
Proof.
  induction cs as [|c cs IH]; intros [|t ts] i s Hl H; try done; [exists [], s; by split_and!|].
  destruct (H 0%nat c t s) as (c' & s1 & E1 & Ei & He & Ho1 & Hf1 & Hs1); [done|done|]. rewrite Nat.add_0_r in E1, Hf1, Hs1.
  destruct (IH ts (S i) s1) as (cs' & s2 & E2 & Hl2 & Hi2 & Ho2 & Hf2 & Hs2); [cbn in Hl; lia| |].
  { intros j d u s' Hd Hu. specialize (H (S j) d u s' Hd Hu). by rewrite <- plus_n_Sm in H. }
  exists (c' :: cs'), s2. cbn [commitChildren]. fold (commitChild p i c s). rewrite E1. cbn [mbind outcome_bind].
  change ((fix go (i0 : nat) (cs0 : list node) (s0 : NodeSet) {struct cs0} : Outcome (list node * NodeSet) := _) (S i) cs s1)
    with (commitChildren (commit accessed collectLeaf) p (S i) cs s1).
  rewrite E2. cbn [mbind outcome_bind]. split_and!; [done|cbn; lia| |congruence| |].
  - intros [|j] d u Hd Hu; [injection Hd as <-; injection Hu as <-; done|]. by eapply Hi2.
  - intros q Hq. rewrite Hf2; [apply Hf1|].
    + intros r Hr ->. apply Hq. exists 0%nat, t, r. rewrite Nat.add_0_r, <- app_assoc. done.
    + intros (j & u & r & Hj & Hr & ->). apply Hq. exists (S j), u, r. by rewrite <- plus_n_Sm.
  - intros [|j] u Hu.
    + injection Hu as ->. rewrite Nat.add_0_r. eapply has_frame_l; [|done]. intros r Hr. apply Hf2.
      intros (j & w & r' & Hj & Hr' & E). rewrite <- app_assoc in E. apply child_path in E. lia.
    + specialize (Hs2 j u Hu). rewrite <- plus_n_Sm. eapply has_frame_r; [|done]. intros r Hr. apply Hf1.
      intros r' Hr' E. rewrite <- !app_assoc in E. apply child_path in E. lia.
Qed.

(** ** A node *)

(** [store] on the collapsed node of the tree [t]. *)
Lemma store_spec D f p t n fl s : canon D t -> D <= maxLen -> t <> TNil -> collapsed_ok n t ->
  cache n = Ret (flag_hash fl, flag_dirty fl) -> (forall h, flag_hash fl = Some h -> h = thash t /\ (f = true \/ 32 <= len (tenc t))) ->
  (flag_hash fl = None -> f = false /\ len (tenc t) < 32) ->
  exists c s', store accessed collectLeaf p n s = Ret (c, s') /\ hashed_ok f c t /\ set_Owner s' = set_Owner s /\
    (forall q, q <> p -> Nodes s' !! q = Nodes s !! q) /\
    (f = true \/ 32 <= len (tenc t) -> Nodes s' !! p = Some (mkNode (BytesToHash (thash t)) (tenc t))).
Proof.
  intros Hc HD Hn (He & Hnn & Ei) Ec Hh Hs. unfold store. rewrite Ec. cbn [mbind outcome_bind].
  destruct (canon_fine D t Hc HD Hn) as [_ Hlen]. destruct (flag_hash fl) as [h|] eqn:Efl.
  - destruct (Hh h eq_refl) as [-> Hf]. rewrite nodeToBytes_item, Ei by (try done; rewrite Ei; apply encMax_u64; pose proof (len_nonneg (encode (titem t))); lia).
    cbn [mbind outcome_bind]. fold (tenc t). eexists _, _. split; [done|]. split; [by left|].
    set (s1 := AddNode p (mkNode (BytesToHash (thash t)) (tenc t)) s).
    assert (E1 : forall v, Nodes (if collectLeaf then AddLeaf (BytesToHash (thash t)) v s1 else s1) = Nodes s1) by (by intros; destruct collectLeaf).
    assert (E : Nodes (match n with shortNode _ (valueNode v) _ => if collectLeaf then AddLeaf (BytesToHash (thash t)) v s1 else s1 | _ => s1 end) = Nodes s1)
      by (repeat case_match; done).
    rewrite E. split; [|split].
    + repeat case_match; done.
    + intros q Hq. cbn. by rewrite lookup_insert_ne.
    + intros _. cbn. by rewrite lookup_insert_eq.
  - destruct (Hs eq_refl) as [-> Hl]. eexists _, _. split; [done|]. split_and!; [|by case_bool_decide|intros q Hq; case_bool_decide; [cbn; by rewrite lookup_insert_ne|done]|intros [?|?]; [done|lia]].
    right. split_and!; try done. inversion Hc; subst; rewrite ?titem_short, ?titem_full; eauto; done.
Qed.

(** The node of a subtree below the root. *)
Lemma commits_of p t s r : t <> TNil -> (forall v, t <> TVal v) ->
  (exists c s', r = Ret (c, s') /\ hashed_ok false c t /\ set_Owner s' = set_Owner s /\ frame p t (Nodes s) (Nodes s') /\
    stored_by (has (Nodes s) (Nodes s')) p t) -> commits p t s r.
Proof.
  intros Hn Hv (c & s' & E & Hh & Ho & Hf & Hs). destruct (hashed_ref c t Hn Hv Hh). by exists c, s'.
Qed.

Lemma node_at_top D t : canon D t -> t <> TNil -> node_at t [].
Proof. inversion 1; [done|constructor..]. Qed.

Lemma hex_path_ne (p k r : bytes) : k <> [] -> p <> p ++ k ++ r.
Proof. intros Hk E. apply (f_equal length) in E. rewrite !length_app in E. destruct k; [done|cbn in E; lia]. Qed.

(** What [commit] promises for a node at [p]. *)
Definition commit_ok (f : bool) (p : bytes) (t : tree) (s : NodeSet) (r : Outcome (node * NodeSet)) : Prop :=
  exists c s', r = Ret (c, s') /\ hashed_ok f c t /\ set_Owner s' = set_Owner s /\ frame p t (Nodes s) (Nodes s') /\
    stored_by (has (Nodes s) (Nodes s')) p t /\ (f = true -> has (Nodes s) (Nodes s') p t).

(** A node that is not dirty is replaced by its hash. *)
Lemma commit_clean f p fl t s h (P : Prop) : flag_ok rd f p fl t P -> flag_hash fl = Some h -> flag_dirty fl = false ->
  commit_ok f p t s (Ret (hashNode h, s)).
Proof.
  intros [H1 H2] Eh Ed. destruct (H1 h Eh) as (-> & Hf & _). destruct (H2 Ed) as [Ha Hdb].
  assert (in_db rd p t) by (destruct Hdb as [?|[-> ?]]; [done|]; destruct Hf as [?|?]; [done|lia]).
  exists (hashNode (thash t)), s. split_and!; [done|by left|done|apply frame_refl| |by right].
  apply avail_stored in Ha. eapply stored_by_mono; [done|]. by right.
Qed.

Lemma commit_cases f p t s fl (P : Prop) body : flag_ok rd f p fl t P -> commit_ok f p t s body ->
  commit_ok f p t s (match flag_hash fl, flag_dirty fl with Some h, false => Ret (hashNode h, s) | _, _ => body end).
Proof.
  intros Hfl Hb. destruct (flag_hash fl) as [h|] eqn:Eh; [|done]. destruct (flag_dirty fl) eqn:Ed; [done|].
  by eapply commit_clean.
Qed.

(** The end of [commit] on a node whose children are committed. *)
Lemma commit_store D f p t n fl s s1 (P : Prop) : canon D t -> D <= maxLen -> t <> TNil -> collapsed_ok n t ->
  cache n = Ret (flag_hash fl, flag_dirty fl) -> flag_ok rd f p fl t P -> (flag_hash fl = None -> f = false /\ len (tenc t) < 32) ->
  set_Owner s1 = set_Owner s -> (forall q, q <> p -> (forall r, node_at t r -> q <> p ++ r) -> Nodes s1 !! q = Nodes s !! q) ->
  (forall s', (forall q, q <> p -> Nodes s' !! q = Nodes s1 !! q) -> (32 <= len (tenc t) -> has (Nodes s) (Nodes s') p t) ->
     stored_by (has (Nodes s) (Nodes s')) p t) ->
  commit_ok f p t s (store accessed collectLeaf p n s1).
Proof.
  intros Hc HD Hn Hcol Ec [Hfl _] Hsm Ho Hfr Hst.
  destruct (store_spec D f p t n fl s1) as (c & s2 & E & Hh & Ho2 & Hf2 & Hp); try done; [intros h Hh; by destruct (Hfl h Hh) as (? & ? & _)|].
  exists c, s2. split_and!; [done|done|congruence| | |].
  - intros q Hq. assert (Hqp : q <> p) by (rewrite <- (app_nil_r p); apply Hq; by eapply node_at_top). rewrite Hf2, Hfr; done.
  - apply Hst; [done|]. intros Hb. left. auto.
  - intros Hf. left. auto.
Qed.

(** The children of a full node, given what [commit] does for those in memory. *)
Lemma child_commits D p (cs : list node) ts : canon D (TFull ts) -> D <= maxLen ->
  (forall i c t, cs !! i = Some c -> ts !! i = Some t -> repr rd false (p ++ [Z.of_nat i]) c t) ->
  (forall i c t s, cs !! i = Some c -> ts !! i = Some t -> canon (D - 1) t -> t <> TNil -> (forall h, c <> hashNode h) ->
     commit_ok false (p ++ [Z.of_nat i]) t s (commit accessed collectLeaf (p ++ [Z.of_nat i]) c s)) ->
  forall j c t s, cs !! j = Some c -> ts !! j = Some t -> commits (p ++ [Z.of_nat j]) t s (commitChild p j c s).
Proof.
  intros Hc HD Hr H j c t s Hj Ht. specialize (Hr j c t Hj Ht). unfold commitChild.
  destruct (canon_child D ts j t Hc Ht) as [[Hlt Hct]|[-> [->|(v & -> & _)]]].
  - rewrite (proj2 (Nat.ltb_lt _ _)) by done. destruct (decide (t = TNil)) as [->|Hnt].
    { inversion Hr; subst; [apply commits_nil|done]. }
    destruct c; [inversion Hr; by subst| | |by apply commits_hash|inversion Hr; subst; by apply canon_not_val in Hct];
      (apply commits_of; [done|by eapply canon_tval_absurd|]);
      (destruct (H j _ t s Hj Ht Hct Hnt) as (c9 & s9 & ? & ? & ? & ? & ? & _); [done|by exists c9, s9]).
  - inversion Hr; subst; [apply commits_nil|done].
  - inversion Hr; subst; [apply commits_value|]. by match goal with H : forall v, _ <> TVal v |- _ => destruct (H v) end.
Qed.

(** The end of [commit] on a full node. *)
Lemma commit_full D f p (cs' : list node) ts fl s s1 (P : Prop) : canon D (TFull ts) -> D <= maxLen -> flag_ok rd f p fl (TFull ts) P ->
  (flag_hash fl = None -> f = false /\ len (tenc (TFull ts)) < 32) -> length cs' = length ts ->
  (forall j c t, cs' !! j = Some c -> ts !! j = Some t -> nitem c = tref t /\ encodable c) -> set_Owner s1 = set_Owner s ->
  (forall q, ~ below p 0 ts q -> Nodes s1 !! q = Nodes s !! q) ->
  (forall j t, ts !! j = Some t -> stored_by (has (Nodes s) (Nodes s1)) (p ++ [Z.of_nat j]) t) ->
  commit_ok f p (TFull ts) s (store accessed collectLeaf p (fullNode cs' fl) s1).
Proof.
  intros Hc HD Hfl Hsm Hl1 Hi1 Ho1 Hf1 Hs1.
  assert (L : length cs' = 17%nat) by (apply canon_full_inv in Hc as (_ & Hl17 & _); lia).
  assert (HT : forall i c, cs' !! i = Some c -> exists t, ts !! i = Some t) by (intros i c Hi; apply lookup_lt_is_Some_2; apply lookup_lt_Some in Hi; lia).
  eapply (commit_store D f p _ _ fl s s1); try done.
  - split_and!; [|done|].
    + constructor; [by destruct cs'|]. intros i c Hi. destruct (HT i c Hi) as [t Ht]. by eapply Hi1.
    + rewrite titem_full. change (nitem (fullNode cs' fl)) with (Lst (nitem <$> cs')). f_equal.
      apply list_eq_same_length with 17%nat; [rewrite length_fmap; lia|rewrite length_fmap; lia|].
      intros i x y _ Hx Hy. apply list_lookup_fmap_Some in Hx as (c & -> & Hx), Hy as (t & -> & Hy). by eapply Hi1.
  - intros q Hqp Hq. apply Hf1. intros (j & t & r & Hj & Hr' & ->). apply (Hq (Z.of_nat j :: r)); [by econstructor|done].
  - intros s2 Hf2 Hp. constructor; [done|]. intros i t Ht. eapply has_frame_l; [|by apply (Hs1 i t Ht)]. intros r _. apply Hf2.
    rewrite <- app_assoc. intros E'. symmetry in E'. by apply (hex_path_ne p [Z.of_nat i] r).
Qed.

(** A node without cached hash is small, and is not the root. *)
Lemma no_hash_small (f : bool) n fl t : cache n = Ret (flag_hash fl, flag_dirty fl) -> (flag_hash fl = None -> len (tenc t) < 32) ->
  (f = true -> forall d, cache n <> Ret (None, d)) -> flag_hash fl = None -> f = false /\ len (tenc t) < 32.
Proof. intros Ec Hsm Hroot E. split; [|auto]. destruct f; [|done]. exfalso. apply (Hroot eq_refl (flag_dirty fl)). by rewrite Ec, E. Qed.

Lemma commit_repr f p n t : repr rd f p n t -> hashed n t -> (f = true -> forall d, cache n <> Ret (None, d)) ->
  forall D s, canon D t -> D <= maxLen -> t <> TNil -> (forall h, n <> hashNode h) ->
  commit_ok f p t s (commit accessed collectLeaf p n s).
Proof.
  induction 1 as [f p|f p v|f p k n t fl Hfl Hr IH|f p cs ts fl Hfl Hl Hr IH|f p t Hn Hv Hf Hdb Ha];
    intros Hh Hroot D s Hc HD Hnil Hnh; [done|by apply canon_not_val in Hc|..|by destruct (Hnh (thash t))].
  - inversion Hh as [| |? ? ? ? Hsm Hhn| |]; subst. cbn [commit cache mbind outcome_bind].
    pose proof (canon_short_key _ _ _ Hc) as Hkne. destruct (compact_fine k (canon_key_ok _ _ _ Hc)) as (Ek & _).
    assert (Hchild : commits (p ++ k) t s (match n with fullNode _ _ => commit accessed collectLeaf (p ++ k) n s | _ => Ret (n, s) end)).
    { inversion Hc as [|? ns v Hn Hv HlD|? ns ts Hne Hn Hc'|]; subst; inversion Hr; subst; [apply commits_value| | |by apply commits_hash].
      - by match goal with H : forall v, _ <> TVal v |- _ => destruct (H v) end.
      - apply commits_of; [done|done|]. pose proof (len_nonneg k).
        destruct (IH Hhn ltac:(done) (D - len k) s) as (c & s' & ? & ? & ? & ? & ? & _); [done|lia|done|done|]. by exists c, s'. }
    eapply commit_cases; [done|]. destruct Hchild as (cv & s1 & -> & Ei & He & Ho1 & Hf1 & Hs1). cbn [mbind outcome_bind]. rewrite Ek. cbn [mbind outcome_bind].
    eapply (commit_store D f p _ _ fl s s1); try done.
    + split_and!; [by constructor|done|by rewrite titem_short, <- Ei].
    + by apply (no_hash_small f (shortNode k n fl)).
    + intros q Hqp Hq. apply Hf1. intros r Hr' ->. apply (Hq (k ++ r)); [by constructor|by rewrite app_assoc].
    + intros s2 Hf2 Hp. constructor; [done|]. eapply has_frame_l; [|done]. intros r _. apply Hf2. rewrite <- app_assoc.
      intros E. by eapply hex_path_ne.
  - inversion Hh as [| | |? ? ? Hsm Hhc|]; subst. cbn [commit cache mbind outcome_bind].
    destruct (commitChildren_spec p cs ts 0 s Hl) as (cs' & s1 & E & Hl1 & Hi1 & Ho1 & Hf1 & Hs1).
    { cbn [Nat.add]. apply (child_commits D); try done. intros i c t s0 Hi Ht Hct Hnt Hnh0. apply (IH i c t Hi Ht) with (D - 1); try done; [by eapply Hhc|lia]. }
    eapply commit_cases; [done|]. rewrite E. cbn [mbind outcome_bind].
    eapply commit_full; try done; [by apply (no_hash_small f (fullNode cs fl))|congruence].
Qed.

(** ** The parallel commit *)

Lemma commitEach_spec p owner cs : forall ts i, length cs = length ts ->
  (forall j c t s, cs !! j = Some c -> ts !! j = Some t -> commits (p ++ [Z.of_nat (i + j)]) t s (commitChild p (i + j) c s)) ->
  exists cs' sets, commitEach accessed collectLeaf owner p i cs = Ret (cs', sets) /\ length cs' = length cs /\ length sets = length cs /\
    (forall j c t, cs' !! j = Some c -> ts !! j = Some t -> nitem c = tref t /\ encodable c) /\
    (forall j S t, sets !! j = Some S -> ts !! j = Some t -> set_Owner S = owner /\ frame (p ++ [Z.of_nat (i + j)]) t ∅ (Nodes S) /\
      stored_by (has ∅ (Nodes S)) (p ++ [Z.of_nat (i + j)]) t /\ ((16 <= i + j)%nat -> Nodes S = ∅)).
Proof.
  induction cs as [|c cs IH]; intros [|t ts] i Hl H; try done; [exists [], []; by split_and!|].
  destruct (H 0%nat c t (NewNodeSet owner)) as (c' & s1 & E1 & Ei & He & Ho1 & Hf1 & Hs1); [done|done|]. rewrite Nat.add_0_r in E1, Hf1, Hs1.
  destruct (IH ts (S i)) as (cs' & sets & E2 & Hl2 & Hl3 & Hi2 & H2); [cbn in Hl; lia| |].
  { intros j d u s' Hd Hu. specialize (H (S j) d u s' Hd Hu). by rewrite <- plus_n_Sm in H. }
  exists (c' :: cs'), (s1 :: sets). cbn [commitEach]. fold (commitChild p i c (NewNodeSet owner)). rewrite E1. cbn [mbind outcome_bind].
  rewrite E2. cbn [mbind outcome_bind]. split_and!; [done|cbn; lia|cbn; lia| |].
  - intros [|j] d u Hd Hu; [injection Hd as <-; injection Hu as <-; done|]. by eapply Hi2.
  - intros [|j] S u HS Hu; [injection HS as <-; injection Hu as <-|rewrite <- plus_n_Sm; by eapply H2].
    rewrite Nat.add_0_r. split_and!; [done|done|done|]. intros Hi. unfold commitChild in E1. rewrite (proj2 (Nat.ltb_ge _ _)) in E1 by lia.
    injection E1 as _ <-. done.
Qed.

Lemma mergeAll_owner order sets s : set_Owner (mergeAll order sets s) = set_Owner s.
Proof.
  unfold mergeAll. revert s. induction order as [|i order IH]; intros s; [done|]. cbn [fold_left]. rewrite IH.
  destruct (sets !! i); [|done]. unfold MergeSet. by case_if.
Qed.

(** A path that at most one set has: the order of the merges does not matter. *)
Lemma mergeAll_lookup (order : list nat) sets s q o : (forall i S, sets !! i = Some S -> set_Owner S = set_Owner s) ->
  (forall i S, i ∈ order -> sets !! i = Some S -> Nodes S !! q = None \/ Nodes S !! q = o) ->
  Nodes s !! q = o \/ (exists i S, i ∈ order /\ sets !! i = Some S /\ Nodes S !! q = o /\ is_Some o) ->
  Nodes (mergeAll order sets s) !! q = o.
Proof.
  unfold mergeAll. revert s. induction order as [|i order IH]; intros s Ho Hall H.
  { destruct H as [?|(i & _ & Hi & _)]; [done|]. by apply not_elem_of_nil in Hi. }
  cbn [fold_left]. assert (Hs' : forall j S, j ∈ order -> sets !! j = Some S -> Nodes S !! q = None \/ Nodes S !! q = o) by (intros j S Hj; apply (Hall j S); by apply list_elem_of_further).
  destruct (sets !! i) as [S|] eqn:ES.
  - assert (EO : (set_Owner s =? set_Owner S) = true) by (rewrite (Ho i S ES); apply Z.eqb_refl).
    unfold MergeSet. rewrite EO. cbn [negb snd]. apply IH; [done|done|]. cbn [Nodes].
    destruct (Hall i S (list_elem_of_here _ _) ES) as [E|E]; [rewrite lookup_union_r by done|].
    + destruct H as [?|(j & S' & Hj & HS' & E' & Hso)]; [by left|]. apply elem_of_cons in Hj as [->|Hj]; [|right; by exists j, S'].
      exfalso. rewrite ES in HS'. injection HS' as <-. rewrite E in E'. subst o. by destruct Hso.
    + destruct o as [nd|]; [left; by apply lookup_union_Some_l|]. rewrite lookup_union_r by done.
      left. destruct H as [?|(? & ? & _ & _ & _ & Hso)]; [done|by destruct Hso].
  - apply IH; [done|done|]. destruct H as [?|(j & S' & Hj & HS' & E')]; [by left|right].
    apply elem_of_cons in Hj as [->|Hj]; [congruence|by exists j, S'].
Qed.

Lemma commitParallel_spec order p (cs : list node) ts s : order ≡ₚ seq 0 16 -> length cs = length ts ->
  (forall j c t s, cs !! j = Some c -> ts !! j = Some t -> commits (p ++ [Z.of_nat j]) t s (commitChild p j c s)) ->
  exists cs' s', commitChildrenParallel accessed collectLeaf order p cs s = Ret (cs', s') /\ length cs' = length cs /\
    (forall j c t, cs' !! j = Some c -> ts !! j = Some t -> nitem c = tref t /\ encodable c) /\ set_Owner s' = set_Owner s /\
    (forall q, ~ below p 0 ts q -> Nodes s' !! q = Nodes s !! q) /\
    (forall j t, ts !! j = Some t -> stored_by (has (Nodes s) (Nodes s')) (p ++ [Z.of_nat j]) t).
Proof.
  intros Hord Hl H. destruct (commitEach_spec p (set_Owner s) cs ts 0 Hl H) as (cs' & sets & E & Hl1 & Hl2 & Hi & Hs).
  assert (HT : forall i S, sets !! i = Some S -> exists t, ts !! i = Some t) by (intros i S HS; apply lookup_lt_is_Some_2; apply lookup_lt_Some in HS; lia).
  assert (Hown : forall i S, sets !! i = Some S -> set_Owner S = set_Owner s) by (intros i S HS; destruct (HT i S HS) as [t Ht]; by eapply Hs).
  assert (Hother : forall i j t r S, ts !! j = Some t -> node_at t r -> sets !! i = Some S -> i <> j -> Nodes S !! (p ++ Z.of_nat j :: r) = None).
  { intros i j t r S Ht Hr HS Hne. destruct (HT i S HS) as [t' Ht']. destruct (Hs i S t' HS Ht') as (_ & Hf & _).
    rewrite Hf; [done|]. intros r' _ E'. rewrite <- app_assoc in E'. by apply child_path in E'. }
  unfold commitChildrenParallel. rewrite E. cbn [mbind outcome_bind]. eexists cs', _. split_and!; [done|done|done|apply mergeAll_owner| |].
  - intros q Hq. apply mergeAll_lookup; [done| |by left]. intros i S _ HS. left. destruct (HT i S HS) as [t Ht].
    destruct (Hs i S t HS Ht) as (_ & Hf & _). rewrite Hf; [done|]. intros r Hr ->. apply Hq. exists i, t, r. by rewrite <- app_assoc.
  - intros j t Ht. destruct (lookup_lt_is_Some_2 sets j) as [S HS]; [apply lookup_lt_Some in Ht; lia|].
    destruct (Hs j S t HS Ht) as (_ & _ & Hst & Hbig). eapply stored_by_mono; [done|]. intros r x Hr. rewrite <- app_assoc. cbn [app].
    intros [Hx|[Hdb Hx]]; [left|right; split; [done|]]; (apply mergeAll_lookup; [done| |]).
    + intros i S' _ HS'. destruct (decide (i = j)) as [->|Hne]; [rewrite HS in HS'; injection HS' as <-; by right|left; by eapply Hother].
    + right. exists j, S. split_and!; [|done|done|done]. rewrite Hord. apply elem_of_seq. split; [lia|].
      destruct (decide (j < 16)%nat); [lia|]. cbn [Nat.add] in Hbig. rewrite Hbig, lookup_empty in Hx by lia. done.
    + intros i S' _ HS'. left. destruct (decide (i = j)) as [->|Hne]; [rewrite HS in HS'; injection HS' as <-; done|by eapply Hother].
    + by left.
Qed.

Lemma commitRoot_repr order parallel n t : order ≡ₚ seq 0 16 -> repr rd true [] n t -> hashed n t -> (forall d, cache n <> Ret (None, d)) ->
  forall D s, canon D t -> D <= maxLen -> t <> TNil -> (forall h, n <> hashNode h) ->
  commit_ok true [] t s (commitRoot accessed collectLeaf order parallel n s).
Proof.
  intros Hord Hr Hh Hroot D s Hc HD Hnil Hnh. pose proof (commit_repr true [] n t Hr Hh (fun _ => Hroot) D s Hc HD Hnil Hnh) as Hseq.
  destruct n as [|cs fl| | |]; try done. destruct parallel; [|done]. cbn [commitRoot].
  inversion Hr as [| | |? ? ? ts ? Hfl Hl Hrc|]; subst. inversion Hh as [| | |? ? ? Hsm Hhc|]; subst.
  destruct (commitParallel_spec order [] cs ts s Hord Hl) as (cs' & s1 & E & Hl1 & Hi1 & Ho1 & Hf1 & Hs1).
  { apply (child_commits D); try done. intros i c t s0 Hi Ht Hct Hnt Hnh0. apply commit_repr with (D - 1); try done; [by eapply Hrc|by eapply Hhc|lia]. }
  eapply commit_cases; [done|]. rewrite E. cbn [mbind outcome_bind].
  eapply commit_full; try done; [by apply (no_hash_small true (fullNode cs fl))|congruence].
Qed.
End children.
End reader.

(** ** Commit and reopen *)

(** The nodes of a set, nil included. *)
Definition set_nodes (ns : option NodeSet) : gmap bytes Node := match ns with Some s => Nodes s | None => ∅ end.

(** The reader [new] of a database that took over the node set: it serves the nodes of the set, and at
    the other paths what [old] served. *)
Definition persists (old new : trieReader) (ns : option NodeSet) : Prop :=
  forall q, match set_nodes ns !! q with
            | Some nd => IsDeleted nd = true \/ reader_node new q (Node_Hash nd) = inl (Blob nd)
            | None => forall h b, reader_node old q h = inl b -> reader_node new q h = inl b
            end.

Lemma deletedSet_notin owner paths q : q ∉ paths -> Nodes (deletedSet owner paths) !! q = None.
Proof.
  unfold deletedSet. assert (H : Nodes (NewNodeSet owner) !! q = None) by done. revert H. generalize (NewNodeSet owner).
  induction paths as [|p paths IH]; intros s Hs Hq; [done|]. cbn [fold_left]. apply IH; [|set_solver].
  cbn. rewrite lookup_insert_ne by set_solver. done.
Qed.

Lemma deleted_none tr T owner r : tracer_ok tr T -> node_at T r -> Nodes (deletedSet owner (deletedNodes tr)) !! r = None.
Proof.
  intros Ht Hr. apply deletedSet_notin. unfold deletedNodes. intros [_ Hin]%list_elem_of_filter.
  apply elem_of_elements in Hin. by apply (Ht r).
Qed.

Lemma persists_serves rd rd2 ns q h b : persists rd rd2 ns -> set_nodes ns !! q = Some (mkNode h b) -> 1 <= len b ->
  reader_node rd2 q h = inl b.
Proof.
  intros Hp E Hl. specialize (Hp q). rewrite E in Hp. destruct Hp as [Hd|?]; [|done].
  unfold IsDeleted in Hd. cbn [Blob] in Hd. bool_to_Z. lia.
Qed.

Lemma persists_keeps rd rd2 ns q h b : persists rd rd2 ns -> set_nodes ns !! q = None -> reader_node rd q h = inl b ->
  reader_node rd2 q h = inl b.
Proof. intros Hp E. specialize (Hp q). rewrite E in Hp. apply Hp. Qed.

(** The nodes of a committed tree are in a database that took over the set. *)
Lemma has_persists rd rd2 N0 ns q x : persists rd rd2 ns -> N0 !! q = None ->
  has rd N0 (set_nodes ns) q x -> in_db rd2 q x.
Proof.
  intros Hp H0 [E|[Hdb E]]; unfold in_db in *.
  - eapply persists_serves; [exact Hp|exact E|apply encode_nonempty].
  - rewrite H0 in E. eapply persists_keeps; [exact Hp|exact E|exact Hdb].
Qed.

(** All nodes of the tree are in the set or, with the set silent about their path, in the database. *)
Definition saved (rd : trieReader) (ns : option NodeSet) (T : tree) : Prop :=
  exists N0, (forall r, node_at T r -> N0 !! r = None) /\ stored_by (has rd N0 (set_nodes ns)) [] T /\
    (T <> TNil -> has rd N0 (set_nodes ns) [] T).

Lemma saved_avail rd rd2 ns T : persists rd rd2 ns -> canon maxLen T -> saved rd ns T ->
  avail rd2 [] T /\ (T <> TNil -> in_db rd2 [] T).
Proof.
  intros Hp Hc (N0 & H0 & Hs & Hr). split.
  - apply avail_stored. eapply stored_by_mono; [done|]. cbn [app]. intros r x Hx. apply has_persists; auto.
  - intros Hn. eapply has_persists; [done| |by apply Hr]. apply H0. by eapply node_at_top.
Qed.

(** Nodes that were not changed are in the database. *)
Lemma saved_clean rd T : avail rd [] T -> in_db rd [] T -> saved rd None T.
Proof.
  intros Ha Hdb. exists ∅. split; [done|]. split; [|by right]. apply avail_stored in Ha. eapply stored_by_mono; [done|]. by right.
Qed.

Lemma commit_root_saved t T order par cl s : order ≡ₚ seq 0 16 -> trie_ok t T -> hashed (root t) T -> T <> TNil ->
  (exists h, root t = hashNode h) \/ (forall d, cache (root t) <> Ret (None, d)) ->
  s = deletedSet (owner t) (deletedNodes (t_tracer t)) ->
  exists h s', commitRoot (accessList (t_tracer t)) cl order par (root t) s = Ret (hashNode h, s') /\ saved (reader t) (Some s') T.
Proof.
  intros Hord (Hcm & Hr & Hc & Ht) Hh Hn Hroot ->. destruct Hroot as [[h E]|Hroot].
  - rewrite E in *. eexists h, _. split; [done|]. inversion Hr as [| | | |? ? ? _ Hv _ Hdb Ha]; subst.
    eexists. split; [intros r Hx; by eapply deleted_none|]. split; [|by right].
    apply avail_stored in Ha. eapply stored_by_mono; [done|]. by right.
  - assert (Hnh : forall h, root t <> hashNode h) by (intros h E; apply (Hroot true); by rewrite E).
    destruct (commitRoot_repr (reader t) (accessList (t_tracer t)) cl order par (root t) T Hord Hr Hh Hroot maxLen
      (deletedSet (owner t) (deletedNodes (t_tracer t))) Hc (Z.le_refl _) Hn Hnh) as (c & s' & E & Hok & _ & _ & Hs & Htop).
    destruct Hok as [[_ ->]|[? _]]; [|done]. eexists _, s'. split; [done|].
    eexists. split; [intros r Hx; by eapply deleted_none|]. split; [done|]. auto.
Qed.

Lemma Commit_tree t T order cl : order ≡ₚ seq 0 16 -> trie_ok t T ->
  exists ns t', Commit order cl t = Ret ((troot T, ns), t') /\ committed t' = true /\ saved (reader t) ns T.
Proof.
  intros Hord Hok. pose proof Hok as (Hcm & Hr & Hc & Ht). unfold Commit, mbind, st_bind, st_get.
  destruct (decide (T = TNil)) as [->|Hn].
  { assert (En : root t = nilNode) by (by eapply repr_nil_iff). rewrite En. cbn [is_nil]. eexists _, _. split; [done|]. split; [done|].
    exists ∅. split; [done|]. split; [constructor|done]. }
  assert (En : is_nil (root t) = false) by (destruct (root t); [by inversion Hr; subst|done..]). rewrite En.
  destruct (Trie_Hash_tree t T Hok) as (t1 & E1 & Hok1 & Hh1 & Erd & Etr & Eow & Hroot). rewrite E1, <- Erd, <- Etr.
  pose proof Hok1 as (_ & Hr1 & _). unfold st_lift.
  assert (Hca : exists h d, cache (root t1) = Ret (h, d)) by (destruct (root t1); [by inversion Hr1; subst|eauto..]).
  destruct Hca as (h & d & Eca). rewrite Eca. destruct d; cbn [negb].
  - destruct (commit_root_saved t1 T order (100 <? uncommitted t1) cl _ Hord Hok1 Hh1 Hn (Hroot Hn) eq_refl) as (h' & s' & -> & Hs). eexists _, _. split; [done|]. split; [done|done].
  - eexists _, _. split; [done|]. split; [done|].
    destruct (root t1) as [|cs fl|k v fl|h'|v]; try done; injection Eca as _ Ed; inversion Hr1 as [| |? ? ? ? ? ? [_ Hfl]|? ? ? ? ? [_ Hfl]|]; subst;
      destruct (Hfl Ed) as [Ha [Hdb|[? _]]]; try done; by apply saved_clean.
Qed.

Lemma New_saved T M S o db r : stores T M -> canon maxLen T -> S <> 0 -> S <> EmptyRootHash -> db S = Some r ->
  avail (mkReader o (Some r) None) [] T -> (T <> TNil -> in_db (mkReader o (Some r) None) [] T) ->
  (troot T = 0 \/ troot T = EmptyRootHash -> M = ∅) ->
  exists t, New (mkID S o (troot T)) db = Ret (inl t) /\ holds t M.
Proof.
  intros Hs Hc H0 HE Hdb Ha Hin Hz. unfold New, newTrieReader. cbn [StateRoot Owner Root].
  rewrite (proj2 (Z.eqb_neq S 0)), (proj2 (Z.eqb_neq S EmptyRootHash)), Hdb by done. cbn [orb].
  destruct ((troot T =? 0) || (troot T =? EmptyRootHash)) eqn:Er.
  { rewrite Hz by (apply orb_prop in Er as [?|?]; bool_to_Z; auto). eexists. split; [done|apply holds_empty]. }
  assert (Hn : T <> TNil) by (intros ->; cbn in Er; done). rewrite Hash_Bytes_troot by done.
  assert (Hr : repr (mkReader o (Some r) None) true [] (hashNode (thash T)) T).
  { constructor; auto. intros v ->. by apply canon_not_val in Hc. }
  destruct (resolve_repr _ true [] (thash T) T maxLen newTracer Hr Hc (Z.le_refl _)) as (tr' & -> & Hr' & _ & Hd).
  cbn [mbind outcome_bind]. eexists. split; [done|]. exists T. split; [|done]. split_and!; [done|done|done|].
  intros q _. cbn [t_tracer set_tracer set_root]. rewrite Hd. cbn. set_solver.
Qed.

(** C23 Committing a trie and opening it again gives the trie back.  [Commit] never fails or panics;
    it returns the root hash that [Hash] returns and a node set, and the trie cannot be used any more;
    a parallel commit does so in every order in which its goroutines may merge their sets.
    Let a database take over the set: its reader serves the nodes of the set and, at the paths that
    the set does not mention, what the trie's reader served (the paths of deleted nodes may serve
    anything).  Then [New] with the root hash opens a trie that stores the same map, unless the root
    hash of a trie that is not empty is one of the two hashes that stand for the empty trie. *)
Theorem Commit_reopen (t : Trie) (M : gmap bytes bytes) (order : list nat) (collectLeaf : bool) :
  order ≡ₚ seq 0 16 -> holds t M ->
  exists h ns t1 t2, Trie_Hash t = Ret (h, t1) /\ Commit order collectLeaf t = Ret ((h, ns), t2) /\
    (forall key, Get key t2 = Ret (inr ErrCommitted, t2)) /\
    forall S o db r, S <> 0 -> S <> EmptyRootHash -> db S = Some r ->
      persists (reader t) (mkReader o (Some r) None) ns -> (h = 0 \/ h = EmptyRootHash -> M = ∅) ->
      exists t3, New (mkID S o h) db = Ret (inl t3) /\ holds t3 M.
Proof.
  intros Hord (T & Hok & Hs). destruct (Trie_Hash_tree t T Hok) as (t1 & E1 & _), (Commit_tree t T order collectLeaf Hord Hok) as (ns & t2 & E2 & Hcm & Hsv).
  exists (troot T), ns, t1, t2. split_and!; [done|done| |].
  - intros key. unfold Get, mbind, st_bind, st_get. by rewrite Hcm.
  - intros S o db r H0 HE Hdb Hp Hz. pose proof Hok as (_ & _ & Hc & _).
    destruct (saved_avail (reader t) (mkReader o (Some r) None) ns T Hp Hc Hsv) as [Ha Hin]. by eapply (New_saved T M S o db r).
Qed.
End commit.

(** ** Witnesses *)

(** A database with the nodes of a set. *)
Definition set_reader (ns : option NodeSet) : NodeReader :=
  fun _ path hash => match set_nodes ns !! path with
                     | Some nd => if Node_Hash nd =? hash then Some (Blob nd) else None
                     | None => None
                     end.

(** A trie with enough changes for a parallel commit, with the children merged in descending order. *)
Definition demo_parallel : Trie := set_uncommitted 101 demo1.
Definition demo_commit : Hash * option NodeSet :=
  match @Commit toy_crypto (rev (seq 0 16)) false demo_parallel with Ret (r, _) => r | Fail _ => (0, None) end.

Lemma demo_parallel_holds `{C : Crypto} : holds demo_parallel demo_map.
Proof. destruct (proj1 demo_holds) as (T & (Hcm & Hr & Hc & Ht) & Hs). by exists T. Qed.

Lemma Commit_reopen_witness : exists t3,
  New (mkID 1 0 (fst demo_commit)) (fun _ => Some (set_reader (snd demo_commit))) = Ret (inl t3) /\ @holds toy_crypto t3 demo_map.
Proof.
  destruct (@Commit_reopen toy_crypto demo_parallel demo_map (rev (seq 0 16)) false) as (h & ns & t1 & t2 & _ & E & _ & H).
  - symmetry. apply Permutation_rev.
  - apply demo_parallel_holds.
  - assert (Ed : demo_commit = (h, ns)) by (unfold demo_commit; by rewrite E).
    rewrite Ed. apply (H 1 0 (fun _ => Some (set_reader ns)) (set_reader ns)); [done|done|done| |].
    + intros q. destruct (set_nodes ns !! q) as [nd|] eqn:Eq; [|intros ? ? [=]].
      unfold IsDeleted, reader_node. cbn [fst snd banned tr_reader tr_owner]. unfold set_reader. rewrite Eq, Z.eqb_refl.
      destruct (len (Blob nd) =? 0); [by left|by right].
    + assert (Eh : h = fst demo_commit) by (by rewrite Ed). clear - Eh. subst h.
      assert (En : (fst demo_commit =? 0) || (fst demo_commit =? EmptyRootHash) = false) by (vm_compute; reflexivity).
      apply orb_false_elim in En as [E1%Z.eqb_neq E2%Z.eqb_neq]. intros [E|E]; [destruct (E1 E)|destruct (E2 E)].
Defined.
