(* ===== verification/StackTrie.v ===== *)
(** * Stack tries ([trie/stacktrie.go], the encoders of [trie/node_enc.go])

    A trie that is filled in the order of the keys: a subtree is hashed, handed to the callback and
    forgotten as soon as a key to its right arrives. *)

From S2P Require Import Prelude Bytes Rlp RlpTheorems VM TrieKeys TrieNode Trie.

Set Default Proof Using "Type".

(** [stNode]: a constructor for every value of [typ], with the fields that are used with it.  The
    objects come from a pool and are reset before they return to it. *)
Inductive stNode :=
  | emptyNode
  | branchNode (children : list (option stNode))
  | extNode (key : bytes) (child : stNode)
  | leafNode (key val : bytes)
  | hashedNode (val : bytes).

Definition no_kids : list (option stNode) := replicate 16 None.

Definition newLeaf (key val : bytes) : stNode := leafNode key val.
Definition newExt (key : bytes) (child : stNode) : stNode := extNode key child.

(** The field [val] *)
Definition st_val (n : stNode) : option bytes :=
  match n with leafNode _ v | hashedNode v => Some v | _ => None end.

Definition is_hashed (n : stNode) : bool := match n with hashedNode _ => true | _ => false end.

(** ** The encoders *)

(** A child of [fullnodeEncoder], the value of [extNodeEncoder] *)
Definition writeRef (w : encBuffer) (c : option bytes) : encBuffer :=
  match c with
  | None => append_str w [128]
  | Some c => if len c <? 32 then append_str w c else writeBytes w c
  end.

Definition fullnodeEncoder_encode (children : list (option bytes)) : Outcome bytes :=
  let '(offset, w) := buf_list emptyBuf in
  w ← listEnd (fold_left writeRef children w) offset;
  Ret (makeBytes w).

Definition extNodeEncoder_encode (key : bytes) (val : option bytes) : Outcome bytes :=
  let '(offset, w) := buf_list emptyBuf in
  w ← listEnd (writeRef (writeBytes w key) val) offset;
  Ret (makeBytes w).

Definition leafNodeEncoder_encode (key val : bytes) : Outcome bytes :=
  let '(offset, w) := buf_list emptyBuf in
  w ← listEnd (writeBytes (writeBytes w key) val) offset;
  Ret (makeBytes w).

(** ** Hashing and insertion

    The state is the list of the calls of [onTrieNode]: path, hash and encoded node. *)

Definition call : Type := (bytes * Hash * bytes).

Section stacktrie.
Context `{C : Crypto}.

(** The end of [hash], after the node is encoded *)
Definition hashBlob (path blob : bytes) : ST (list call) stNode :=
  if (len blob <? 32) && (0 <? len path) then mret (hashedNode blob)
  else
    let val := hashData blob in
    _ ← st_modify (fun calls => calls ++ [(path, BytesToHash val, blob)]);
    mret (hashedNode val).

(** The loop over the children of a branch: their values after hashing, [i] the index of the first. *)
Definition hashKids (hash : stNode -> bytes -> ST (list call) stNode) (path : bytes) :
    nat -> list (option stNode) -> ST (list call) (list (option bytes)) :=
  fix go i cs {struct cs} :=
    match cs with
    | [] => mret []
    | None :: cs => vs ← go (S i) cs; mret (None :: vs)
    | Some child :: cs =>
        child ← hash child (path ++ [Z.of_nat i]);
        vs ← go (S i) cs;
        mret (st_val child :: vs)
    end.

Fixpoint st_hash (st : stNode) (path : bytes) {struct st} : ST (list call) stNode :=
  match st with
  | hashedNode _ => mret st
  | emptyNode => mret (hashedNode (Hash_Bytes EmptyRootHash))
  | branchNode children =>
      vals ← hashKids st_hash path 0 children;
      blob ← st_lift (fullnodeEncoder_encode (vals ++ [None]));
      hashBlob path blob
  | extNode key child =>
      child ← st_hash child (path ++ key);
      key ← st_lift (hexToCompactInPlace key);
      blob ← st_lift (extNodeEncoder_encode key (st_val child));
      hashBlob path blob
  | leafNode key val =>
      key ← st_lift (hexToCompactInPlace (key ++ [16]));
      blob ← st_lift (leafNodeEncoder_encode key val);
      hashBlob path blob
  end.

(** [st.getDiffIndex(key)], [k] is the key of the node *)
Fixpoint getDiffIndex (k key : bytes) : Outcome nat :=
  match k with
  | [] => Ret 0%nat
  | nibble :: k =>
      match key with
      | [] => Fail PanicIndex
      | x :: key => if negb (nibble =? x) then Ret 0%nat else idx ← getDiffIndex k key; Ret (S idx)
      end
  end.

(** The loop of [insert] that hashes the next sibling to the left: [i] is one more than the index. *)
Fixpoint hashElder (i : nat) (children : list (option stNode)) (path : bytes) : ST (list call) (list (option stNode)) :=
  match i with
  | O => mret children
  | S i =>
      match children !! i with
      | None => st_fail PanicIndex
      | Some None => hashElder i children path
      | Some (Some child) =>
          if is_hashed child then mret children
          else child ← st_hash child (path ++ [Z.of_nat i]); mret (<[i := Some child]> children)
      end
  end.

(** [p.children[origIdx] = n; p.children[newIdx] = o] on a new branch node *)
Definition twoChildren (origIdx : Z) (n : stNode) (newIdx : Z) (o : stNode) : Outcome stNode :=
  _ ← index no_kids origIdx;
  _ ← index no_kids newIdx;
  Ret (branchNode (<[Z.to_nat newIdx := Some o]> (<[Z.to_nat origIdx := Some n]> no_kids))).

(** The split of an extension or a leaf with the key [k] at the index [diffidx]: [n] is the hashed rest. *)
Definition splitNode (k key value : bytes) (diffidx : nat) (n : stNode) : Outcome stNode :=
  origIdx ← index k (Z.of_nat diffidx);
  newIdx ← index key (Z.of_nat diffidx);
  p ← twoChildren origIdx n newIdx (newLeaf (drop (S diffidx) key) value);
  Ret (if (diffidx =? 0)%nat then p else extNode (take diffidx k) p).

(** The child of a branch at an index: a new leaf, or the result of the insertion into the child. *)
Definition atKid (leaf : stNode) (ins : stNode -> ST (list call) stNode) : list (option stNode) -> nat -> ST (list call) stNode :=
  fix go cs i {struct cs} :=
    match cs, i with
    | [], _ => st_fail PanicIndex
    | None :: _, O => mret leaf
    | Some child :: _, O => ins child
    | _ :: cs, S i => go cs i
    end.

Fixpoint st_insert (st : stNode) (key value path : bytes) {struct st} : ST (list call) stNode :=
  match st with
  | branchNode children =>
      k0 ← st_lift (index key 0);
      let idx := Z.to_nat k0 in
      children' ← hashElder idx children path;
      child ← atKid (newLeaf (drop 1 key) value) (fun child => st_insert child (drop 1 key) value (path ++ [k0])) children idx;
      mret (branchNode (<[idx := Some child]> children'))
  | extNode k child =>
      diffidx ← st_lift (getDiffIndex k key);
      if (diffidx =? length k)%nat then
        child ← st_insert child (drop diffidx key) value (path ++ take diffidx key);
        mret (extNode k child)
      else
        n ← (if (diffidx <? length k - 1)%nat
             then st_hash (newExt (drop (S diffidx) k) child) (path ++ take (S diffidx) k)
             else st_hash child (path ++ k));
        st_lift (splitNode k key value diffidx n)
  | leafNode k val =>
      diffidx ← st_lift (getDiffIndex k key);
      if (length k <=? diffidx)%nat then st_fail PanicExplicit
      else
        n ← st_hash (newLeaf (drop (S diffidx) k) val) (path ++ take (S diffidx) k);
        st_lift (splitNode k key value diffidx n)
  | emptyNode => mret (leafNode key value)
  | hashedNode _ => st_fail PanicExplicit
  end.

(** ** The trie *)

(** [last] is nil before the first key, which compares as the empty key.  The buffer [pBuf] for paths
    and the contents of [kBuf] have no influence; [calls] are the calls of the callback. *)
Record StackTrie := mkStackTrie {
  st_root : stNode;
  st_last : bytes;
  kBuf : bytes;
  calls : list call;
}.

Inductive sterror := ErrEmptyValue | ErrNonAscending.

Definition NewStackTrie : StackTrie := mkStackTrie emptyNode [] (replicate 64 0) [].

Definition grow (key : bytes) (t : StackTrie) : StackTrie :=
  mkStackTrie (st_root t) (st_last t)
    (if len (kBuf t) <? 2 * len key then zreplicate (2 * len key) 0 else kBuf t) (calls t).

(** [bytes.Compare] *)
Fixpoint Compare (a b : bytes) : comparison :=
  match a, b with
  | [], [] => Eq
  | [], _ => Lt
  | _, [] => Gt
  | x :: a, y :: b => match x ?= y with Eq => Compare a b | c => c end
  end.

(** A computation on the nodes as one on the trie *)
Definition on_calls {A} (m : ST (list call) A) : ST StackTrie A :=
  fun t => match m (calls t) with
           | Ret (a, cs) => Ret (a, mkStackTrie (st_root t) (st_last t) (kBuf t) cs)
           | Fail f => Fail f
           end.

Definition st_Update (key value : bytes) : ST StackTrie (option sterror) :=
  if len value =? 0 then mret (Some ErrEmptyValue)
  else
    _ ← st_modify (grow key);
    t ← st_get;
    k ← st_lift (writeHexKey (kBuf t) key);
    match Compare (st_last t) k with
    | Eq | Gt => mret (Some ErrNonAscending)
    | Lt =>
        _ ← st_modify (fun t => mkStackTrie (st_root t) k (kBuf t) (calls t));
        r ← on_calls (st_insert (st_root t) k value []);
        _ ← st_modify (fun t => mkStackTrie r (st_last t) (kBuf t) (calls t));
        mret None
    end.

Definition st_Reset : ST StackTrie () := st_modify (fun t => mkStackTrie emptyNode [] (kBuf t) (calls t)).

(** [TrieKey]: the key without the terminator *)
Definition TrieKey (key : bytes) : bytes := let k := keybytesToHex key in take (length k - 1) k.

Definition st_Hash : ST StackTrie Hash :=
  t ← st_get;
  n ← on_calls (st_hash (st_root t) []);
  _ ← st_modify (fun t => mkStackTrie n (st_last t) (kBuf t) (calls t));
  mret (BytesToHash (default [] (st_val n))).
End stacktrie.
