(* ===== verification/StackTrieTheorems.v ===== *)
(** * The stack trie computes the root hash of the trie

    Filled with the keys of a map in ascending order, the stack trie has the root hash of every trie
    that stores the map, and the nodes that it hands to its callback are the nodes of that trie. *)

From Stdlib Require Import Sorting.Sorted.
From S2P Require Import Prelude Bytes Rlp RlpTheorems VM TrieKeys TrieNode Trie TrieSpec TrieHash TrieOps TrieTheorems TrieCommit StackTrie.

Set Default Proof Using "Type".

Section stacktrie.
Context `{C : Crypto}.

(** ** The encoders *)

(** A list whose content is written in one piece. *)
Lemma flat_list (s : bytes) : is_u64 (len s) ->
  (let '(offset, w) := buf_list emptyBuf in w ← listEnd (append_str w s) offset; Ret (makeBytes w)) = Ret (puthead 192 247 (len s) ++ s).
Proof.
  intros Hu. pose proof (listEnd_ok [] s [] [] 0 0) as E. cbn [app] in E. rewrite Z.add_0_r in E.
  assert (E0 : listEnd (append_str (mkBuf [] [mkListhead 0 0] 0) s) 0 =
    Ret (mkBuf s [mkListhead 0 (len s)] (0 + (len (puthead 192 247 (len s)) + 0)))) by exact (E Hu).
  change (buf_list emptyBuf) with (0, mkBuf [] [mkListhead 0 0] 0). cbv beta iota. rewrite E0. done.
Qed.

(** What stands for a child in its parent: the encoding if it is small, the hash otherwise. *)
Definition refval (t : tree) : bytes := if len (tenc t) <? 32 then tenc t else thash t.
Definition kidval (t : tree) : option bytes := if is_tnil t then None else Some (refval t).

Lemma writeRef_kid D t w : canon D t -> writeRef w (kidval t) = append_str w (encode (tref t)).
Proof.
  intros Hc. unfold kidval. destruct (is_tnil t) eqn:En; [by destruct t|].
  assert (Hn : t <> TNil) by (by destruct t). assert (Hv : forall v, t <> TVal v) by (intros v ->; by apply canon_not_val in Hc).
  unfold refval. cbn [writeRef]. destruct (tref_hash_or_list t Hn Hv) as [(Hl & E & _)|(Hl & E)]; rewrite E.
  - by rewrite !(proj2 (Z.ltb_lt (len (tenc t)) 32)).
  - rewrite (proj2 (Z.ltb_ge (len (tenc t)) 32)) by done. unfold thash. rewrite hashData_length. cbn [Z.ltb]. apply writeBytes_eq.
Qed.

Lemma append_str_app w a b : append_str (append_str w a) b = append_str w (a ++ b).
Proof. unfold append_str. cbn. by rewrite app_assoc. Qed.

Lemma append_str_nil w : append_str w [] = w.
Proof. unfold append_str. rewrite app_nil_r. by destruct w. Qed.

Lemma writeRefs_kids D ts w : (forall t, t ∈ ts -> canon D t) ->
  fold_left writeRef (kidval <$> ts) w = append_str w (concat (encode <$> (tref <$> ts))).
Proof.
  revert w. induction ts as [|t ts IH]; intros w H; [by rewrite append_str_nil|]. rewrite !fmap_cons. cbn [fold_left concat].
  rewrite (writeRef_kid D), IH, append_str_app; [done| |]; intros; apply H; [by right|by left].
Qed.

Lemma enc_fine_payload_u64 l B : enc_fine (Lst l) B -> B <= encMax -> is_u64 (len (concat (encode <$> l))).
Proof.
  intros [_ Hl] HB. cbn [encode] in Hl. rewrite len_app in Hl. pose proof (len_nonneg (concat (encode <$> l))).
  pose proof (len_nonneg (puthead 192 247 (len (concat (encode <$> l))))). apply encMax_u64. lia.
Qed.

Lemma fullnode_encode D ts : canon D (TFull ts) -> D <= maxLen -> ts !! 16%nat = Some TNil ->
  fullnodeEncoder_encode (kidval <$> ts) = Ret (tenc (TFull ts)).
Proof.
  intros Hc HD H16. unfold fullnodeEncoder_encode. pose proof (canon_fine D _ Hc HD ltac:(done)) as Hf. rewrite titem_full in Hf.
  pose proof (enc_fine_payload_u64 _ _ Hf (Z.le_refl _)) as Hu. unfold tenc. rewrite titem_full. cbn [encode].
  rewrite <- (flat_list _ Hu). destruct (buf_list emptyBuf) as [o w]. rewrite (writeRefs_kids (D - 1)); [done|].
  intros t [i Hi]%list_elem_of_lookup. destruct (canon_child D ts i t Hc Hi) as [[_ ?]|[-> _]]; [done|].
  rewrite H16 in Hi. injection Hi as <-. constructor.
Qed.

Lemma ext_encode D k ts : canon D (TShort k (TFull ts)) -> D <= maxLen ->
  extNodeEncoder_encode (compact k) (Some (refval (TFull ts))) = Ret (tenc (TShort k (TFull ts))).
Proof.
  intros Hc HD. pose proof (canon_fine D _ Hc HD ltac:(done)) as Hf. rewrite titem_short in Hf.
  pose proof (enc_fine_payload_u64 _ _ Hf (Z.le_refl _)) as Hu. unfold tenc, extNodeEncoder_encode. rewrite titem_short. cbn [encode].
  rewrite <- (flat_list _ Hu). destruct (buf_list emptyBuf) as [o w]. rewrite writeBytes_eq.
  assert (Hk : exists D', canon D' (TFull ts)) by (inversion Hc; subst; eauto). destruct Hk as [D' Hk].
  pose proof (writeRef_kid D' (TFull ts) (append_str w (encode_bytes (compact k))) Hk) as E. cbn [kidval is_tnil] in E.
  rewrite E, append_str_app. rewrite !fmap_cons. cbn [concat encode]. by rewrite fmap_nil, app_nil_r.
Qed.

Lemma leaf_encode D k v : canon D (TShort k (TVal v)) -> D <= maxLen ->
  leafNodeEncoder_encode (compact k) v = Ret (tenc (TShort k (TVal v))).
Proof.
  intros Hc HD. pose proof (canon_fine D _ Hc HD ltac:(done)) as Hf. rewrite titem_short in Hf.
  pose proof (enc_fine_payload_u64 _ _ Hf (Z.le_refl _)) as Hu. unfold tenc, leafNodeEncoder_encode. rewrite titem_short. cbn [encode].
  rewrite <- (flat_list _ Hu). destruct (buf_list emptyBuf) as [o w]. rewrite !writeBytes_eq, append_str_app.
  rewrite !fmap_cons. cbn [concat encode tref]. by rewrite fmap_nil, app_nil_r.
Qed.

(** ** Nodes and trees *)

(** The node [x] at the path [q] was handed to the callback. *)
Definition emitted (tr : list call) (q : bytes) (x : tree) : Prop := (q, BytesToHash (thash x), tenc x) ∈ tr.

(** A subtree that is hashed. *)
Definition shut (tr : list call) (p : bytes) (n : stNode) (t : tree) : Prop :=
  n = hashedNode (refval t) /\ stored_by (emitted tr) p t.

(** A child to the left of the last key: absent or hashed. *)
Definition elder (tr : list call) (p : bytes) (c : option stNode) (t : tree) : Prop :=
  (c = None /\ t = TNil) \/ (exists n, c = Some n /\ t <> TNil /\ shut tr p n t).

(** The nodes in memory, on the path of the last key [l]: everything to the left of it is hashed, and
    there is nothing to the right. *)
Inductive live (tr : list call) : bytes -> stNode -> tree -> bytes -> Prop :=
  | live_leaf p k v : live tr p (leafNode k v) (TShort (k ++ [16]) (TVal v)) k
  | live_ext p k c ts l : live tr (p ++ k) c (TFull ts) l -> live tr p (extNode k c) (TShort k (TFull ts)) (k ++ l)
  | live_branch p cs ts (i : nat) c t l : length cs = 16%nat -> length ts = 17%nat -> ts !! 16%nat = Some TNil ->
      cs !! i = Some (Some c) -> ts !! i = Some t -> live tr (p ++ [Z.of_nat i]) c t l ->
      (forall j c t, (j < i)%nat -> cs !! j = Some c -> ts !! j = Some t -> elder tr (p ++ [Z.of_nat j]) c t) ->
      (forall j c t, (i < j)%nat -> cs !! j = Some c -> ts !! j = Some t -> c = None /\ t = TNil) ->
      live tr p (branchNode cs) (TFull ts) (Z.of_nat i :: l).

Lemma shut_mono tr tr' p n t : tr ⊆ tr' -> shut tr p n t -> shut tr' p n t.
Proof. intros Hs [-> H]. split; [done|]. eapply stored_by_mono; [done|]. intros r x _ Hx. by apply Hs. Qed.

Lemma elder_mono tr tr' p c t : tr ⊆ tr' -> elder tr p c t -> elder tr' p c t.
Proof. intros Hs [?|(n & ? & ? & H)]; [by left|right; exists n; split_and!; [done|done|by eapply shut_mono]]. Qed.

Lemma live_mono tr tr' p n t l : tr ⊆ tr' -> live tr p n t l -> live tr' p n t l.
Proof.
  intros Hs. induction 1 as [|p k c ts l H IH|p cs ts i c t l Hl Hlt H16 Hi Ht H IH He Hy]; [constructor|by constructor|].
  eapply live_branch; try done. intros j d u Hj Hd Hu. eapply elder_mono; [done|by apply He].
Qed.

Lemma live_not_nil tr p n t l : live tr p n t l -> t <> TNil.
Proof. by inversion 1. Qed.

(** ** Hashing *)

(** What is left of a node that is hashed at the path [p]; at the root it is always the hash. *)
Definition shutval (p : bytes) (t : tree) : bytes := if (len (tenc t) <? 32) && (0 <? len p) then tenc t else thash t.

Lemma shutval_below p x q t : shutval (p ++ x :: q) t = refval t.
Proof.
  unfold shutval, refval. rewrite len_app, len_cons. pose proof (len_nonneg p). pose proof (len_nonneg q).
  rewrite (proj2 (Z.ltb_lt 0 _)) by lia. by rewrite andb_true_r.
Qed.

(** [hash] on a node at the path [p], with any calls made before. *)
Definition hashes (tr : list call) (p : bytes) (n : stNode) (t : tree) : Prop :=
  exists tr', st_hash n p tr = Ret (hashedNode (shutval p t), tr') /\ tr ⊆ tr' /\ stored_by (emitted tr') p t /\
    (p = [] -> emitted tr' p t).

Lemma hashBlob_ok tr p t : (forall tr', tr ⊆ tr' -> (32 <= len (tenc t) -> emitted tr' p t) -> stored_by (emitted tr') p t) ->
  exists tr', hashBlob p (tenc t) tr = Ret (hashedNode (shutval p t), tr') /\ tr ⊆ tr' /\ stored_by (emitted tr') p t /\
    (p = [] -> emitted tr' p t).
Proof.
  intros H. unfold hashBlob, shutval. destruct ((len (tenc t) <? 32) && (0 <? len p)) eqn:E.
  - exists tr. apply andb_prop in E as [E1 E2]. bool_to_Z. split_and!; [done|done|apply H; [done|lia]|]. intros ->. unfold len in E2. cbn in E2. lia.
  - eexists. split; [done|]. assert (He : emitted (tr ++ [(p, BytesToHash (thash t), tenc t)]) p t) by (apply elem_of_app; right; by left).
    split; [intros x Hx; apply elem_of_app; by left|]. split; [|done]. apply H; [|done]. intros x Hx. apply elem_of_app. by left.
Qed.

Lemma hashKids_ok tr p cs : forall ts (i : nat) tr1, tr ⊆ tr1 -> length cs = length ts ->
  (forall j c t, cs !! j = Some c -> ts !! j = Some t ->
     match c with None => t = TNil | Some n => t <> TNil /\ forall tr', tr ⊆ tr' -> hashes tr' (p ++ [Z.of_nat (i + j)]) n t end) ->
  exists tr2, hashKids st_hash p i cs tr1 = Ret (kidval <$> ts, tr2) /\ tr1 ⊆ tr2 /\
    forall j t, ts !! j = Some t -> stored_by (emitted tr2) (p ++ [Z.of_nat (i + j)]) t.
Proof.
  induction cs as [|c cs IH]; intros [|t ts] i tr1 Hs Hl H; try done; [by exists tr1|].
  assert (Hrest : forall tr', tr1 ⊆ tr' -> exists tr2, hashKids st_hash p (S i) cs tr' = Ret (kidval <$> ts, tr2) /\ tr' ⊆ tr2 /\
    forall j t, ts !! j = Some t -> stored_by (emitted tr2) (p ++ [Z.of_nat (S i + j)]) t).
  { intros tr' Hs'. apply IH; [by etrans|cbn in Hl; lia|]. intros j d u Hd Hu. specialize (H (S j) d u Hd Hu). by rewrite <- plus_n_Sm in H. }
  specialize (H 0%nat c t eq_refl eq_refl). rewrite Nat.add_0_r in H. destruct c as [n|].
  - destruct H as [Hn Hh]. destruct (Hh tr1 Hs) as (tr2 & E & Hs2 & Hst & _).
    destruct (Hrest tr2 Hs2) as (tr3 & E3 & Hs3 & Hst3). exists tr3. cbn [hashKids]. unfold mbind, st_bind. rewrite E.
    change ((fix go (i0 : nat) (cs0 : list (option stNode)) {struct cs0} : ST (list call) (list (option bytes)) := _) (S i) cs tr2)
      with (hashKids st_hash p (S i) cs tr2). rewrite E3. rewrite fmap_cons.
    assert (Ek : kidval t = Some (shutval (p ++ [Z.of_nat i]) t)) by (rewrite shutval_below; by destruct t).
    rewrite Ek. split_and!; [done|by etrans|]. intros [|j] u Hu; [|rewrite <- plus_n_Sm; by apply Hst3].
    injection Hu as ->. rewrite Nat.add_0_r. eapply stored_by_mono; [done|]. intros r x _ Hx. by apply Hs3.
  - subst t. destruct (Hrest tr1) as (tr3 & E3 & Hs3 & Hst3); [done|]. exists tr3. cbn [hashKids]. unfold mbind, st_bind.
    change ((fix go (i0 : nat) (cs0 : list (option stNode)) {struct cs0} : ST (list call) (list (option bytes)) := _) (S i) cs tr1)
      with (hashKids st_hash p (S i) cs tr1). rewrite E3. rewrite fmap_cons. split_and!; [done|done|].
    intros [|j] u Hu; [injection Hu as <-; constructor|rewrite <- plus_n_Sm; by apply Hst3].
Qed.

Lemma hashes_shut tr tr' p n t x : shut tr (p ++ [x]) n t -> tr ⊆ tr' -> hashes tr' (p ++ [x]) n t.
Proof.
  intros Hsh Hs. apply (shut_mono _ tr') in Hsh as [-> Hst]; [|done]. exists tr'. rewrite shutval_below. split_and!; try done.
  intros E. by apply (f_equal length) in E; rewrite length_app in E; cbn in E; lia.
Qed.

Lemma hash_live tr p n t l : live tr p n t l -> forall D tr', canon D t -> D <= maxLen -> tr ⊆ tr' -> hashes tr' p n t.
Proof.
  induction 1 as [p k v|p k c ts l H IH|p cs ts i c t l Hl Hlt H16 Hi Ht H IH He Hy]; intros D tr' Hc HD Hs; unfold hashes; cbn [st_hash].
  - destruct (hexToCompact_ok (k ++ [16])) as (ck & E & _ & _ & _ & E'); [by eapply canon_key_ok|].
    assert (Eck : ck = compact (k ++ [16])) by (unfold compact; by rewrite E). subst ck.
    unfold mbind, st_bind, st_lift. rewrite E' by (by destruct k). rewrite (leaf_encode D) by done. apply hashBlob_ok.
    intros tr2 _ He. constructor; [done|constructor].
  - pose proof (canon_short_key _ _ _ Hc) as Hk. destruct (hexToCompact_ok k) as (ck & E & _ & _ & _ & E'); [by eapply canon_key_ok|].
    assert (Eck : ck = compact k) by (unfold compact; by rewrite E). subst ck.
    assert (Hct : canon (D - len k) (TFull ts)) by (by inversion Hc). pose proof (len_nonneg k).
    destruct (IH (D - len k) tr' Hct) as (tr2 & E2 & Hs2 & Hst & _); [lia|done|].
    unfold mbind, st_bind, st_lift. rewrite E2, E' by done.
    assert (Ev : shutval (p ++ k) (TFull ts) = refval (TFull ts)) by (destruct k; [done|apply shutval_below]).
    cbn [st_val]. rewrite Ev, (ext_encode D) by done. destruct (hashBlob_ok tr2 p (TShort k (TFull ts))) as (tr3 & E3 & Hs3 & Hst3 & Hr3).
    { intros tr3 Hs3 He. constructor; [done|]. eapply stored_by_mono; [done|]. intros r x _ Hx. by apply Hs3. }
    exists tr3. split_and!; [done|by etrans|done|done].
  - assert (Ets : ts = take 16 ts ++ [TNil]) by (rewrite <- (take_drop_middle ts 16 TNil) at 1 by done; rewrite (drop_ge ts 17) by lia; done).
    destruct (hashKids_ok tr p cs (take 16 ts) 0 tr') as (tr2 & E2 & Hs2 & Hst); [done|rewrite length_take; lia| |].
    { intros j d u Hd Hu. apply lookup_lt_Some in Hd as Hj. rewrite lookup_take_lt in Hu by lia. cbn [Nat.add].
      destruct (lt_eq_lt_dec j i) as [[Hji| ->]|Hji].
      - destruct (He j d u Hji Hd Hu) as [[-> ->]|(m & -> & Hn & Hsh)]; [done|]. split; [done|]. intros tr1 Hs1. by eapply hashes_shut.
      - rewrite Hi in Hd. injection Hd as <-. rewrite Ht in Hu. injection Hu as <-. split; [by eapply live_not_nil|].
        intros tr1 Hs1. apply (IH (D - 1)); [|lia|done]. apply canon_full_inv in Hc as (_ & _ & Hc & _). by apply (Hc i); [lia|].
      - by destruct (Hy j d u Hji Hd Hu) as [-> ->]. }
    unfold mbind, st_bind, st_lift. rewrite E2.
    assert (Ek : (kidval <$> take 16 ts) ++ [None] = kidval <$> ts) by (rewrite Ets at 2; by rewrite fmap_app).
    rewrite Ek, (fullnode_encode D) by done. destruct (hashBlob_ok tr2 p (TFull ts)) as (tr3 & E3 & Hs3 & Hst3 & Hr3).
    { intros tr3 Hs3 Hem. constructor; [done|]. intros j u Hu. destruct (decide (j = 16%nat)) as [->|Hj].
      - rewrite H16 in Hu. injection Hu as <-. constructor.
      - apply lookup_lt_Some in Hu as Hju. eapply stored_by_mono; [apply (Hst j); by rewrite lookup_take_lt by lia|]. intros r x _ Hx. by apply Hs3. }
    exists tr3. split_and!; [done|by etrans|done|done].
Qed.

(** ** Insertion *)

(** The new key is greater than the last one and does not extend it. *)
Definition diverges (l k : bytes) : Prop := exists q (a b : Z) r s, l = q ++ a :: r /\ k = q ++ b :: s /\ a < b.

Lemma getDiffIndex_split q a b r s : a <> b -> getDiffIndex (q ++ a :: r) (q ++ b :: s) = Ret (length q).
Proof.
  intros Hne. induction q as [|x q IH]; cbn [app getDiffIndex length].
  - by rewrite (proj2 (Z.eqb_neq _ _)).
  - rewrite Z.eqb_refl. cbn [negb]. by rewrite IH.
Qed.

Lemma getDiffIndex_prefix k s : getDiffIndex k (k ++ s) = Ret (length k).
Proof. induction k as [|x k IH]; [done|]. cbn [app getDiffIndex length]. rewrite Z.eqb_refl. cbn [negb]. by rewrite IH. Qed.

Lemma atKid_lookup leaf ins cs i tr : atKid leaf ins cs i tr =
  match cs !! i with Some (Some c) => ins c tr | Some None => Ret (leaf, tr) | None => Fail PanicIndex end.
Proof. revert i. induction cs as [|[c|] cs IH]; intros [|i]; try done; apply IH. Qed.

Lemma hashElder_done cs p tr i : (i <= length cs)%nat ->
  (forall j c, (j < i)%nat -> cs !! j = Some (Some c) -> is_hashed c = true) -> hashElder i cs p tr = Ret (cs, tr).
Proof.
  induction i as [|i IH]; intros Hl H; [done|]. cbn [hashElder]. destruct (lookup_lt_is_Some_2 cs i) as [c Hc]; [lia|]. rewrite Hc.
  destruct c as [c|]; [|apply IH; [lia|]; intros; eapply H; [|done]; lia]. by rewrite (H i c) by (lia || done).
Qed.

Lemma hashElder_hash cs p tr (i d : nat) c : (i + d < length cs)%nat -> cs !! i = Some (Some c) -> is_hashed c = false ->
  (forall j, (i < j < S (i + d))%nat -> cs !! j = Some None) ->
  hashElder (S (i + d)) cs p tr = (child ← st_hash c (p ++ [Z.of_nat i]); mret (<[i := Some child]> cs)) tr.
Proof.
  induction d as [|d IH]; intros Hl Hi Hh Hn.
  - rewrite Nat.add_0_r. cbn [hashElder]. by rewrite Hi, Hh.
  - cbn [hashElder]. rewrite (Hn (i + S d)%nat) by lia. replace (i + S d)%nat with (S (i + d)) by lia. apply IH; [lia|done|done|].
    intros j Hj. apply Hn. lia.
Qed.

Lemma live_not_hashed tr p n t l : live tr p n t l -> is_hashed n = false.
Proof. by inversion 1. Qed.

Lemma shut_of_hashes tr p x q n t : hashes tr (p ++ x :: q) n t ->
  exists n' tr', st_hash n (p ++ x :: q) tr = Ret (n', tr') /\ tr ⊆ tr' /\ shut tr' (p ++ x :: q) n' t.
Proof. intros (tr' & E & Hs & Hst & _). rewrite shutval_below in E. by exists (hashedNode (refval t)), tr'. Qed.

(** The node after a split. *)
Lemma split_live tr p q (a b : nat) r s v n t1 : (a < b < 16)%nat -> t1 <> TNil -> shut tr (p ++ q ++ [Z.of_nat a]) n t1 ->
  exists n', splitNode (q ++ Z.of_nat a :: r) (q ++ Z.of_nat b :: s) v (length q) n = Ret n' /\
    live tr p n' (graft q (branch a b t1 (TShort (s ++ [16]) (TVal v)))) (q ++ Z.of_nat b :: s).
Proof.
  intros Hab Ht Hsh. unfold splitNode, twoChildren. change (Z.of_nat (length q)) with (len q). rewrite !index_app. cbn [mbind outcome_bind].
  unfold no_kids. rewrite (index_lookup _ a None) by (apply lookup_replicate_2; lia). cbn [mbind outcome_bind].
  rewrite (index_lookup _ b None) by (apply lookup_replicate_2; lia). cbn [mbind outcome_bind]. rewrite drop_S_app, take_app_length, !Nat2Z.id.
  eexists. split; [done|].
  set (p' := p ++ q). assert (Hb : live tr p' (branchNode (<[b := Some (newLeaf s v)]> (<[a := Some n]> (replicate 16 None))))
    (branch a b t1 (TShort (s ++ [16]) (TVal v))) (Z.of_nat b :: s)).
  { unfold branch. apply (live_branch _ _ _ _ b (newLeaf s v) (TShort (s ++ [16]) (TVal v))).
    - by rewrite !length_insert, length_replicate.
    - by rewrite !length_insert, length_replicate.
    - rewrite !list_lookup_insert_ne by lia. by apply lookup_replicate_2; lia.
    - apply list_lookup_insert_eq. rewrite length_insert, length_replicate. lia.
    - apply list_lookup_insert_eq. rewrite length_insert, length_replicate. lia.
    - constructor.
    - intros j c t Hj Hc Hj'. rewrite list_lookup_insert_ne in Hc by lia. rewrite list_lookup_insert_ne in Hj' by lia. destruct (decide (j = a)) as [->|Hja].
      + rewrite list_lookup_insert_eq in Hc by (rewrite length_replicate; lia). rewrite list_lookup_insert_eq in Hj' by (rewrite length_replicate; lia). injection Hc as <-. injection Hj' as <-.
        right. exists n. split_and!; [done|done|]. unfold p'. by rewrite <- app_assoc.
      + rewrite list_lookup_insert_ne in Hc by lia. rewrite list_lookup_insert_ne in Hj' by lia. apply lookup_replicate in Hc as [-> _], Hj' as [-> _]. by left.
    - intros j c t Hj Hc Hj'. rewrite !list_lookup_insert_ne in Hc by lia. rewrite !list_lookup_insert_ne in Hj' by lia. by apply lookup_replicate in Hc as [-> _], Hj' as [-> _]. }
  destruct q as [|x q]; cbn [length Nat.eqb graft app]; [unfold p' in Hb; by rewrite app_nil_r in Hb|]. by apply (live_ext _ p (x :: q)).
Qed.

(** What an insertion of the key [k] does. *)
Definition st_inserted (tr : list call) (p : bytes) (D : Z) (t : tree) (k v : bytes) (r : Outcome (stNode * list call)) : Prop :=
  exists n' t' tr', r = Ret (n', tr') /\ tr ⊆ tr' /\ live tr' p n' t' k /\ canon D t' /\ upd t (k ++ [16]) (Some v) t' /\
    (forall ts, t = TFull ts -> exists ts', t' = TFull ts').

Lemma nibble_nat x : is_nibble x -> exists i : nat, x = Z.of_nat i /\ (i < 16)%nat.
Proof. intros Hx. unfold is_nibble in Hx. exists (Z.to_nat x). lia. Qed.

Lemma complete_nibbles ns : Forall is_nibble ns -> complete (ns ++ [16]).
Proof. intros H. by exists ns. Qed.

(** The end of a split: the rest of the old node is hashed. *)
Lemma insert_split tr tr' p D q (a b : nat) r0 s t v n : canon D (TShort (q ++ Z.of_nat a :: r0) t) -> (forall ts, TShort (q ++ Z.of_nat a :: r0) t <> TFull ts) ->
  Forall is_nibble (q ++ Z.of_nat b :: s) -> len (q ++ Z.of_nat b :: s) + 1 <= D -> val_ok v -> (a < b)%nat -> tr ⊆ tr' ->
  shut tr' (p ++ q ++ [Z.of_nat a]) n (graft r0 t) ->
  forall r, st_inserted tr p D (TShort (q ++ Z.of_nat a :: r0) t) (q ++ Z.of_nat b :: s) v
    (st_lift (splitNode (q ++ Z.of_nat a :: r) (q ++ Z.of_nat b :: s) v (length q) n) tr').
Proof.
  intros Hc Hnf Hn Hl Hv Hab Hs Hsh r. apply Forall_app in Hn as Hq. destruct Hq as [Hq Hbs]. apply Forall_cons in Hbs as [Hb Hss].
  assert (Hb16 : (b < 16)%nat) by (unfold is_nibble in Hb; lia).
  destruct (split_child D q (Z.of_nat a) r0 t Hc) as (_ & _ & _ & Hng & _).
  destruct (split_live tr' p q a b r s v n (graft r0 t)) as (n' & E & Hlive); [lia|done|done|].
  destruct (split_tree D q b a (s ++ [16]) r0 t v) as [Hcb Hu]; [done|rewrite app_comm_cons, app_assoc; by apply complete_nibbles| |done|lia|lia|lia|].
  { rewrite app_comm_cons, app_assoc, len_app. change (len [16]) with 1. lia. }
  assert (Eg : graft (s ++ [16]) (TVal v) = TShort (s ++ [16]) (TVal v)) by (by destruct s). rewrite Eg in *.
  exists n', (graft q (branch a b (graft r0 t) (TShort (s ++ [16]) (TVal v)))), tr'. unfold st_lift. rewrite E. split_and!; [done|done|done| | |].
  - destruct q as [|x q]; [by rewrite len_nil, Z.sub_0_r in Hcb|]. by apply canon_ext.
  - rewrite <- app_assoc. cbn [app]. intros z. rewrite tlookup_graft. apply Hu.
  - intros ts Ets. by destruct (Hnf ts).
Qed.

(** A key that leaves a branch to the right of the last key: the subtree of the last key is hashed. *)
Lemma insert_right tr p D cs ts (i : nat) c t l (b : nat) s v : length cs = 16%nat -> length ts = 17%nat -> ts !! 16%nat = Some TNil ->
  cs !! i = Some (Some c) -> ts !! i = Some t -> live tr (p ++ [Z.of_nat i]) c t l ->
  (forall j c t, (j < i)%nat -> cs !! j = Some c -> ts !! j = Some t -> elder tr (p ++ [Z.of_nat j]) c t) ->
  (forall j c t, (i < j)%nat -> cs !! j = Some c -> ts !! j = Some t -> c = None /\ t = TNil) ->
  canon D (TFull ts) -> D <= maxLen -> Forall is_nibble (Z.of_nat b :: s) -> len (Z.of_nat b :: s) + 1 <= D -> val_ok v ->
  Z.of_nat i < Z.of_nat b -> st_inserted tr p D (TFull ts) (Z.of_nat b :: s) v (st_insert (branchNode cs) (Z.of_nat b :: s) v p tr).
Proof.
  intros Hl Hlt H16 Hi Ht Hlive He Hy Hc HD Hk HlD Hv Hib. apply Forall_cons in Hk as Hbs. destruct Hbs as [Hb Hs]. unfold is_nibble in Hb.
  assert (Hb' : (b < 16)%nat) by lia. destruct (lookup_lt_is_Some_2 ts b) as [tb Htb]; [lia|]. destruct (lookup_lt_is_Some_2 cs b) as [cb Hcb]; [lia|].
  destruct (Hy b cb tb ltac:(lia) Hcb Htb) as [-> ->].
  assert (Hct : canon (D - 1) t) by (apply canon_full_inv in Hc as (_ & _ & Hc & _); apply (Hc i); [lia|done]).
  destruct (shut_of_hashes tr p (Z.of_nat i) [] c t) as (n' & tr' & E & Hs' & Hsh); [eapply hash_live; [done|done|lia|done]|].
  cbn [st_insert]. unfold mbind, st_bind, st_lift. change (index (Z.of_nat b :: s) 0) with (Ret (Z.of_nat b)). cbv beta iota.
  assert (Eb : b = S (i + (b - i - 1))) by lia.
  assert (Eh : hashElder b cs p tr = (child ← st_hash c (p ++ [Z.of_nat i]); mret (<[i := Some child]> cs)) tr).
  { rewrite Eb. apply hashElder_hash; [lia|done|by eapply live_not_hashed|].
    intros j Hj. destruct (lookup_lt_is_Some_2 ts j) as [u Hu]; [lia|]. destruct (lookup_lt_is_Some_2 cs j) as [d Hd]; [lia|].
    destruct (Hy j d u ltac:(lia) Hd Hu) as [-> _]. done. }
  rewrite Nat2Z.id, Eh.
  unfold mbind, st_bind. rewrite E. cbv beta iota. unfold mret, st_ret. rewrite atKid_lookup, Hcb. cbn [drop].
  eexists _, (TFull (<[b := TShort (s ++ [16]) (TVal v)]> ts)), tr'. rewrite len_cons in HlD.
  assert (Hcl : canon (D - 1) (TShort (s ++ [16]) (TVal v))) by (constructor; [done|done|lia]).
  split_and!; [done|done| | |apply (upd_full ts b TNil (s ++ [16])); [done|apply upd_leaf]|eauto].
  - apply (live_branch _ _ _ _ b (newLeaf s v) (TShort (s ++ [16]) (TVal v)));
      rewrite ?length_insert, ?list_lookup_insert_eq, ?(list_lookup_insert_ne _ b 16) by (rewrite ?length_insert; lia); try done; [constructor| |].
    + intros j d u Hj Hd Hu. rewrite list_lookup_insert_ne in Hd by lia. rewrite list_lookup_insert_ne in Hu by lia.
      destruct (lt_eq_lt_dec j i) as [[Hji| ->]|Hji].
      * rewrite list_lookup_insert_ne in Hd by lia. eapply elder_mono; [done|by apply He].
      * rewrite list_lookup_insert_eq in Hd by lia. injection Hd as <-. rewrite Ht in Hu. injection Hu as <-. right. exists n'. split_and!; [done|by eapply live_not_nil|done].
      * rewrite list_lookup_insert_ne in Hd by lia. left. by apply (Hy j).
    + intros j d u Hj Hd Hu. rewrite !list_lookup_insert_ne in Hd by lia. rewrite list_lookup_insert_ne in Hu by lia. apply (Hy j); [lia|done|done].
  - eapply (canon_full_child D ts b _ (s ++ [16])); [done|lia|by apply (complete_nibbles (Z.of_nat b :: s))|left; split; [done|by apply complete_nibbles]|done].
Qed.

Lemma insert_live tr p n t l : live tr p n t l -> forall D k v, canon D t -> D <= maxLen -> Forall is_nibble k -> len k + 1 <= D ->
  val_ok v -> diverges l k -> st_inserted tr p D t k v (st_insert n k v p tr).
Proof.
  induction 1 as [p k0 v0|p k0 c ts l H IH|p cs ts i c t l Hl Hlt H16 Hi Ht H IH He Hy]; intros D k v Hc HD Hk HlD Hv (q & a & b & r & s & El & -> & Hab).
  - subst k0. cbn [st_insert]. unfold mbind, st_bind. unfold st_lift at 1. rewrite getDiffIndex_split by lia.
    rewrite (proj2 (Nat.leb_gt _ _)) by (rewrite length_app; cbn; lia). rewrite drop_S_app, take_S_app.
    assert (Ek : (q ++ a :: r) ++ [16] = q ++ a :: (r ++ [16])) by (by rewrite <- app_assoc). rewrite Ek in *.
    assert (Hb : is_nibble b) by (by apply Forall_app in Hk as [_ [? _]%Forall_cons]).
    assert (Ha : exists a' : nat, a = Z.of_nat a' /\ (a' < 16)%nat).
    { apply nibble_nat. destruct (split_child D q a (r ++ [16]) (TVal v0) Hc) as (_ & [Ha| ->] & _); [done|]. unfold is_nibble in Hb. lia. }
    destruct Ha as (a' & -> & Ha). apply nibble_nat in Hb as (b' & -> & Hb). destruct (split_child D q (Z.of_nat a') (r ++ [16]) (TVal v0) Hc) as (_ & _ & _ & _ & Hch).
    assert (Eg : graft (r ++ [16]) (TVal v0) = TShort (r ++ [16]) (TVal v0)) by (by destruct r).
    destruct (Hch a' eq_refl) as [[_ Hca]|[? _]]; [|lia]. rewrite Eg in Hca. pose proof (len_nonneg q).
    destruct (shut_of_hashes tr (p ++ q) (Z.of_nat a') [] (newLeaf r v0) (TShort (r ++ [16]) (TVal v0))) as (n' & tr' & E & Hs & Hsh).
    { eapply (hash_live tr); [apply live_leaf|done|lia|done]. }
    rewrite <- app_assoc in E, Hsh. rewrite E. eapply insert_split; try done; [lia|by rewrite Eg].
  - assert (Hcases : (exists q', q = k0 ++ q' /\ l = q' ++ a :: r) \/ (exists r0, k0 = q ++ a :: r0)).
    { destruct (app_prefix_cases k0 q l (a :: r) El) as [(q' & -> & E)|([|a' r0] & -> & E)]; [left; by exists q'|left|right].
      - exists []. rewrite !app_nil_r. done.
      - injection E as <- E. by exists r0. }
    cbn [st_insert]. unfold mbind, st_bind. unfold st_lift at 1. destruct Hcases as [(q' & -> & ->)|(r0 & ->)].
    + rewrite <- app_assoc, getDiffIndex_prefix, Nat.eqb_refl, drop_app_length, take_app_length. rewrite <- app_assoc in Hk, HlD.
      pose proof (canon_short_key _ _ _ Hc). inversion Hc as [| |? ? ? _ Hnk Hct|]; subst. apply Forall_app in Hk as [_ Hk]. rewrite len_app in HlD. pose proof (len_nonneg k0).
      destruct (IH (D - len k0) (q' ++ b :: s) v Hct) as (c' & t' & tr' & -> & Hs & Hlive & Hc' & Hu & Hf); [lia|done|lia|done|by exists q', a, b, r, s|].
      destruct (Hf ts eq_refl) as [ts' ->]. eexists _, (TShort k0 (TFull ts')), tr'. split_and!; [done|done|by constructor|by constructor| |done].
      rewrite <- app_assoc. by apply upd_short.
    + rewrite getDiffIndex_split by lia. rewrite (proj2 (Nat.eqb_neq _ _)) by (rewrite length_app; cbn; lia).
      assert (Hb : is_nibble b) by (by apply Forall_app in Hk as [_ [? _]%Forall_cons]).
      assert (Hct : canon (D - len (q ++ a :: r0)) (TFull ts) /\ is_nibble a).
      { inversion Hc as [| |? ? ? _ Hnk Hct|]; subst. split; [done|]. by apply Forall_app in Hnk as [_ [? _]%Forall_cons]. }
      destruct Hct as [Hct Ha]. apply nibble_nat in Ha as (a' & -> & Ha), Hb as (b' & -> & Hb).
      destruct (split_child D q (Z.of_nat a') r0 (TFull ts) Hc) as (_ & _ & _ & _ & Hch). destruct (Hch a' eq_refl) as [[_ Hca]|[? _]]; [|lia].
      pose proof (len_nonneg q). rewrite take_S_app, drop_S_app.
      assert (Hsh : exists n' tr', (if (length q <? length (q ++ Z.of_nat a' :: r0) - 1)%nat then st_hash (newExt r0 c) (p ++ q ++ [Z.of_nat a'])
          else st_hash c (p ++ q ++ Z.of_nat a' :: r0)) tr = Ret (n', tr') /\ tr ⊆ tr' /\ shut tr' (p ++ q ++ [Z.of_nat a']) n' (graft r0 (TFull ts))).
      { rewrite length_app. cbn [length]. rewrite !(app_assoc p). destruct r0 as [|x r0].
        - rewrite (proj2 (Nat.ltb_ge _ _)) by (cbn; lia). apply shut_of_hashes. cbn [graft] in *. eapply hash_live; [by rewrite <- app_assoc|done|lia|done].
        - rewrite (proj2 (Nat.ltb_lt _ _)) by (cbn; lia). apply shut_of_hashes. cbn [graft] in *. eapply hash_live; [|done|lia|done].
          apply (live_ext _ _ (x :: r0)). by rewrite <- !app_assoc. }
      destruct Hsh as (n' & tr' & -> & Hs & Hsh). eapply insert_split; try done. lia.
  - destruct q as [|x q]; cbn [app] in *; injection El as <- El.
    + apply Forall_cons in Hk as Hbs. destruct Hbs as [Hb Hs]. apply nibble_nat in Hb as (b' & -> & Hb). by eapply (insert_right tr p D cs ts i c t l b' s v).
    + subst l. apply Forall_cons in Hk as Hkq. destruct Hkq as [_ Hkq]. rewrite len_cons in HlD. apply lookup_lt_Some in Hi as Hi16.
      assert (Hct : canon (D - 1) t) by (apply canon_full_inv in Hc as (_ & _ & Hc & _); apply (Hc i); [lia|done]).
      destruct (IH (D - 1) (q ++ b :: s) v Hct) as (c' & t' & tr' & E & Hs & Hlive & Hc' & Hu & _); [lia|done|lia|done|by exists q, a, b, r, s|].
      cbn [st_insert]. unfold mbind, st_bind, st_lift. change (index (Z.of_nat i :: q ++ b :: s) 0) with (Ret (Z.of_nat i)). cbv beta iota.
      rewrite Nat2Z.id, hashElder_done, atKid_lookup, Hi; [|lia|].
      2:{ intros j d Hj Hd. destruct (lookup_lt_is_Some_2 ts j) as [u Hu']; [lia|]. destruct (He j _ u Hj Hd Hu') as [[? _]|(m & Em & _ & -> & _)]; [done|]. by injection Em as ->. }
      cbn [drop]. rewrite drop_0, E. eexists _, (TFull (<[i := t']> ts)), tr'. split_and!; [done|done| | |by apply (upd_full ts i t)|eauto].
      * apply (live_branch _ _ _ _ i c' t'); rewrite ?length_insert, ?list_lookup_insert_eq, ?(list_lookup_insert_ne _ i 16) by lia; try done.
        -- intros j d u Hj Hd Hu'. rewrite list_lookup_insert_ne in Hd by lia. rewrite list_lookup_insert_ne in Hu' by lia. eapply elder_mono; [done|by apply He].
        -- intros j d u Hj Hd Hu'. rewrite list_lookup_insert_ne in Hd by lia. rewrite list_lookup_insert_ne in Hu' by lia. by eapply Hy.
      * eapply (canon_full_child D ts i t'); [done|lia| |left; split; [exact Hc'|by apply complete_nibbles]|by eapply live_not_nil].
        by apply (complete_nibbles (Z.of_nat i :: q ++ b :: s)).
Qed.

(** ** Keys in ascending order *)

(** The key [k1] is smaller than [k2] at the first byte where they differ. *)
Definition before (k1 k2 : bytes) : Prop := diverges k1 k2.

Lemma nibbles_diverge k1 k2 : Forall is_byte k1 -> Forall is_byte k2 -> before k1 k2 -> diverges (keybytesNibbles k1) (keybytesNibbles k2).
Proof.
  intros H1 H2 (q & a & b & r & s & -> & -> & Hab). apply Forall_app in H1 as [_ [Ha _]%Forall_cons], H2 as [_ [Hb _]%Forall_cons].
  rewrite !keybytesNibbles_app. cbn [keybytesNibbles]. unfold is_byte in *.
  destruct (decide (a / 16 = b / 16)) as [E|Hne].
  - exists (keybytesNibbles q ++ [a / 16]), (a mod 16), (b mod 16), (keybytesNibbles r), (keybytesNibbles s). rewrite <- !app_assoc. cbn [app].
    rewrite <- E. split_and!; [done|done|]. pose proof (Z.div_mod a 16). pose proof (Z.div_mod b 16). lia.
  - exists (keybytesNibbles q), (a / 16), (b / 16), (a mod 16 :: keybytesNibbles r), (b mod 16 :: keybytesNibbles s). split_and!; [done|done|].
    pose proof (Z.div_le_mono a b 16). lia.
Qed.

Lemma Compare_diverges l k : diverges l k -> Compare l k = Lt.
Proof.
  intros (q & a & b & r & s & -> & -> & Hab). induction q as [|x q IH]; cbn [app Compare]; [by rewrite (proj2 (Z.compare_lt_iff a b))|].
  by rewrite Z.compare_refl.
Qed.

Lemma before_irrefl k : ~ before k k.
Proof. intros H%Compare_diverges. assert (E : Compare k k = Eq) by (clear; induction k; cbn; [done|by rewrite Z.compare_refl]). congruence. Qed.

(** ** The trie *)

(** The stack trie [t] was filled with the map [M], the key [last] at the end. *)
Definition st_holds (t : StackTrie) (M : gmap bytes bytes) (last : option bytes) : Prop :=
  exists T, canon maxLen T /\ stores T M /\
    match last with
    | None => T = TNil /\ st_root t = emptyNode /\ st_last t = []
    | Some key => Forall is_byte key /\ st_last t = keybytesNibbles key /\ live (calls t) [] (st_root t) T (keybytesNibbles key)
    end.

Lemma writeHexKey_grow key t : key <> [] -> writeHexKey (kBuf (grow key t)) key = Ret (keybytesNibbles key).
Proof.
  intros Hk. unfold writeHexKey, grow. cbn [kBuf]. assert (1 <= len key) by (destruct key; [done|rewrite len_cons; pose proof (len_nonneg key); lia]).
  set (buf := if len (kBuf t) <? 2 * len key then zreplicate (2 * len key) 0 else kBuf t). assert (Hb : 2 * len key <= len buf).
  { subst buf. case_if; bool_to_Z; [rewrite len_zreplicate; lia|lia]. }
  destruct (lookup_lt_is_Some_2 buf (Z.to_nat (2 * len key - 1))) as [x Hx]; [unfold len in *; lia|].
  apply index_lookup in Hx. rewrite Z2Nat.id in Hx by lia. by rewrite Hx.
Qed.

Lemma st_Update_holds t M last key value : st_holds t M last -> key_ok key -> key <> [] -> val_ok value ->
  (forall k, last = Some k -> before k key) ->
  exists t', st_Update key value t = Ret (None, t') /\ st_holds t' (<[key := value]> M) (Some key).
Proof.
  intros (T & Hc & Hs & Hlast) [Hb Hl] Hne Hv Hlt. unfold st_Update. rewrite len_nz by apply Hv. unfold mbind, st_bind, st_get, st_modify, st_lift.
  rewrite writeHexKey_grow by done. cbv beta iota. cbn [st_last st_root grow].
  assert (Hn : Forall is_nibble (keybytesNibbles key)) by (by apply keybytesNibbles_ok).
  pose proof (keybytesNibbles_len key) as Hkl. unfold keybytesToHex in *.
  assert (Hnn : keybytesNibbles key <> []) by (by destruct key).
  assert (Hcmp : Compare (st_last t) (keybytesNibbles key) = Lt).
  { destruct last as [k|]; [|destruct Hlast as (_ & _ & ->); by destruct (keybytesNibbles key)].
    destruct Hlast as (Hkb & -> & _). apply Compare_diverges, nibbles_diverge; auto. }
  rewrite Hcmp. unfold on_calls. cbn [calls st_root st_last kBuf grow].
  assert (Hins : st_inserted (calls t) [] maxLen T (keybytesNibbles key) value (st_insert (st_root t) (keybytesNibbles key) value [] (calls t))).
  { destruct last as [k|].
    - destruct Hlast as (Hkb & _ & Hlive). eapply insert_live; try done; [lia|]. apply nibbles_diverge; auto.
    - destruct Hlast as (-> & -> & _). eexists _, (TShort (keybytesNibbles key ++ [16]) (TVal value)), _. split; [done|]. split; [done|].
      split_and!; [constructor|constructor; [done|done|lia]|apply upd_leaf|done]. }
  destruct Hins as (n' & T' & tr' & E & Hs' & Hlive & Hc' & Hu & _). rewrite E. cbv beta iota. eexists. split; [done|].
  exists T'. split_and!; [done|by eapply stores_insert|done|done|done].
Qed.

Lemma st_holds_empty : st_holds NewStackTrie ∅ None.
Proof.
  exists TNil. split; [constructor|]. split; [|done]. split; [intros key v Hv; by rewrite lookup_empty in Hv|].
  intros q v. split; [done|]. intros (key & _ & Hv). by rewrite lookup_empty in Hv.
Qed.

Lemma st_Hash_tree t M last T : st_holds t M last -> canon maxLen T -> stores T M ->
  exists t', st_Hash t = Ret (troot T, t') /\ stored_by (emitted (calls t')) [] T /\ (T <> TNil -> emitted (calls t') [] T).
Proof.
  intros (T' & Hc' & Hs' & Hlast) Hc Hs. assert (T' = T) as -> by (by eapply stores_unique). clear Hc' Hs'.
  unfold st_Hash, mbind, st_bind, st_get, on_calls, st_modify. destruct last as [key|].
  - destruct Hlast as (_ & _ & Hlive). destruct (hash_live _ _ _ _ _ Hlive maxLen (calls t) Hc) as (tr' & E & _ & Hst & Hem); [lia|done|].
    rewrite E. cbv beta iota. pose proof (live_not_nil _ _ _ _ _ Hlive) as Hn.
    assert (Et : BytesToHash (shutval [] T) = troot T).
    { unfold shutval. change (0 <? len []) with false. rewrite andb_false_r. unfold thash. rewrite BytesToHash_data. by destruct T. }
    eexists. cbn [st_val default from_option id]. rewrite Et. split; [done|]. cbn [calls]. auto.
  - destruct Hlast as (-> & -> & _). cbn [st_hash]. eexists. split; [|split; [constructor|done]]. unfold mret, st_ret. cbv beta iota. cbn [st_val]. 
    by vm_compute.
Qed.

(** Updates with the pairs of a list, until one fails. *)
Fixpoint st_fill (kvs : list (bytes * bytes)) : ST StackTrie (option sterror) :=
  match kvs with
  | [] => mret None
  | (k, v) :: kvs => e ← st_Update k v; match e with None => st_fill kvs | Some _ => mret e end
  end.

(** A list of pairs that a stack trie can be filled with. *)
Definition fillable (kvs : list (bytes * bytes)) : Prop :=
  StronglySorted before (fst <$> kvs) /\ Forall (fun kv => key_ok (fst kv) /\ fst kv <> [] /\ val_ok (snd kv)) kvs.

Lemma before_nodup (ks : list bytes) : StronglySorted before ks -> NoDup ks.
Proof.
  induction 1 as [|k ks Hs IH Hk]; constructor; [|done]. intros Hin. rewrite Forall_forall in Hk. by apply (before_irrefl k), Hk.
Qed.

Lemma st_fill_holds kvs : forall t M last, st_holds t M last -> fillable kvs -> (forall k, last = Some k -> Forall (before k) (fst <$> kvs)) ->
  exists t' last', st_fill kvs t = Ret (None, t') /\ st_holds t' (foldl (fun M kv => <[fst kv := snd kv]> M) M kvs) last'.
Proof.
  induction kvs as [|[k v] kvs IH]; intros t M last Ht [Hs Hok] Hl; [by exists t, last|].
  apply Forall_cons in Hok as [(Hk & Hne & Hv) Hok]. rewrite fmap_cons in Hs, Hl. cbn [fst snd] in *. apply StronglySorted_inv in Hs as [Hs Hbk].
  destruct (st_Update_holds t M last k v Ht Hk Hne Hv) as (t1 & E1 & H1); [intros k0 E0; specialize (Hl k0 E0); by apply Forall_cons in Hl as [? _]|].
  destruct (IH t1 _ _ H1) as (t2 & last2 & E2 & H2); [by split|intros k0 [= <-]; done|].
  exists t2, last2. cbn [st_fill]. unfold mbind, st_bind. rewrite E1. done.
Qed.

Lemma foldl_insert_map (kvs : list (bytes * bytes)) (M : gmap bytes bytes) : NoDup (fst <$> kvs) -> (forall k, k ∈ fst <$> kvs -> M !! k = None) ->
  foldl (fun M kv => <[fst kv := snd kv]> M) M kvs = list_to_map kvs ∪ M.
Proof.
  revert M. induction kvs as [|[k v] kvs IH]; intros M Hn HM; cbn [foldl fst snd]; [by rewrite list_to_map_nil, map_empty_union|].
  rewrite fmap_cons in Hn, HM. apply NoDup_cons in Hn as [Hk Hn]. cbn [fst] in *. rewrite IH; [|done|].
  - rewrite list_to_map_cons, <- insert_union_l, <- insert_union_r; [done|]. by apply not_elem_of_list_to_map_1.
  - intros k' Hk'. rewrite lookup_insert_ne by set_solver. apply HM. set_solver.
Qed.

Lemma st_fill_map kvs : fillable kvs -> exists t last, st_fill kvs NewStackTrie = Ret (None, t) /\ st_holds t (list_to_map kvs) last.
Proof.
  intros Hf. destruct (st_fill_holds kvs NewStackTrie ∅ None st_holds_empty Hf) as (t & last & E & H); [done|]. exists t, last. split; [done|].
  rewrite foldl_insert_map, map_union_empty in H; [done|by apply before_nodup, Hf|done].
Qed.

(** ** Properties *)

(** C24 The stack trie has the root hash of the trie.  Filled with pairs whose keys ascend and are not
    prefixes of each other, it fails or panics nowhere, and [Hash] returns the root hash of every trie
    that stores the same map.  What it handed to the callback is all of that trie: [New] with the hash
    on a database that serves the nodes of the callback opens a trie that stores the map. *)
Theorem stacktrie_root (kvs : list (bytes * bytes)) : fillable kvs ->
  exists t1 t2 h, st_fill kvs NewStackTrie = Ret (None, t1) /\ st_Hash t1 = Ret (h, t2) /\
    (forall tr, holds tr (list_to_map kvs) -> exists tr', Trie_Hash tr = Ret (h, tr')) /\
    forall S o db r, S <> 0 -> S <> EmptyRootHash -> db S = Some r ->
      (forall q hash blob, (q, hash, blob) ∈ calls t2 -> reader_node (mkReader o (Some r) None) q hash = inl blob) ->
      (h = 0 \/ h = EmptyRootHash -> kvs = []) ->
      exists t3, New (mkID S o h) db = Ret (inl t3) /\ holds t3 (list_to_map kvs).
Proof.
  intros Hf. destruct (st_fill_map kvs Hf) as (t1 & last & E1 & H1). pose proof H1 as (T & Hc & Hs & _).
  destruct (st_Hash_tree t1 _ last T H1 Hc Hs) as (t2 & E2 & Hst & Hem). exists t1, t2, (troot T). split_and!; [done|done| |].
  - intros tr (T' & Hok & Hs'). pose proof Hok as (_ & _ & Hc' & _). assert (T' = T) as -> by (by eapply stores_unique).
    destruct (Trie_Hash_tree tr T Hok) as (tr' & E & _). by exists tr'.
  - intros S o db r HS HE Hdb Hserve Hz. apply (New_saved T _ S o db r); try done.
    + apply avail_stored. eapply stored_by_mono; [done|]. cbn [app]. intros q x _ Hx. by apply Hserve.
    + intros Hn. by apply Hserve, Hem.
    + intros Hh. by rewrite (Hz Hh).
Qed.

(** What [Update] rejects.  It refuses an empty value and a key that does not ascend and leaves the
    nodes as they are; but the empty key, a key that extends the last one, and any key after [Hash]
    are not refused: the first panics in [writeHexKey], the second, when the last key is the only
    one, and the third panic in [insert]. *)
Theorem stacktrie_rejects (t : StackTrie) (key value more : bytes) : key <> [] -> value <> [] -> more <> [] ->
  st_Update key [] t = Ret (Some ErrEmptyValue, t) /\
  (Compare (st_last t) (keybytesNibbles key) <> Lt -> exists t', st_Update key value t = Ret (Some ErrNonAscending, t') /\ st_root t' = st_root t /\ calls t' = calls t) /\
  st_Update [] value t = Fail PanicIndex /\
  (exists t', st_Update key value NewStackTrie = Ret (None, t') /\ st_Update (key ++ more) value t' = Fail PanicExplicit) /\
  (forall v, st_root t = hashedNode v -> Compare (st_last t) (keybytesNibbles key) = Lt -> st_Update key value t = Fail PanicExplicit).
Proof.
  intros Hk Hv Hm. assert (Hn : keybytesNibbles key <> []) by (by destruct key). split_and!.
  - done.
  - intros Hcmp. unfold st_Update. rewrite len_nz by done. unfold mbind, st_bind, st_get, st_modify, st_lift. rewrite writeHexKey_grow by done.
    cbn [st_last grow]. destruct (Compare (st_last t) (keybytesNibbles key)); [by eexists|done|by eexists].
  - unfold st_Update. by rewrite len_nz.
  - assert (E1 : st_Update key value NewStackTrie = Ret (None, mkStackTrie (leafNode (keybytesNibbles key) value) (keybytesNibbles key) (kBuf (grow key NewStackTrie)) [])).
    { unfold st_Update. rewrite len_nz by done. unfold mbind, st_bind, st_get, st_modify, st_lift. rewrite writeHexKey_grow by done.
      cbn [st_last st_root grow NewStackTrie]. by destruct (keybytesNibbles key). }
    eexists. split; [done|]. unfold st_Update. rewrite len_nz by done. unfold mbind, st_bind, st_get, st_modify, st_lift. rewrite writeHexKey_grow by (by destruct key).
    cbn [st_last st_root grow]. rewrite keybytesNibbles_app.
    assert (Hc : Compare (keybytesNibbles key) (keybytesNibbles key ++ keybytesNibbles more) = Lt).
    { generalize (keybytesNibbles key). intros l. induction l as [|x l IH]; [by destruct more|]. cbn [app Compare]. by rewrite Z.compare_refl. }
    rewrite Hc. unfold on_calls. cbn [calls st_insert]. unfold mbind, st_bind, st_lift. rewrite getDiffIndex_prefix, Nat.leb_refl. done.
  - intros v Hr Hcmp. unfold st_Update. rewrite len_nz by done. unfold mbind, st_bind, st_get, st_modify, st_lift. rewrite writeHexKey_grow by done.
    cbn [st_last st_root grow]. rewrite Hcmp. unfold on_calls. rewrite Hr. done.
Qed.
End stacktrie.

(** ** Witnesses *)

Definition demo_kvs : list (bytes * bytes) := [([18; 52], demo_value 7); ([18; 53], demo_value 9); ([200], [1])].

Lemma demo_fillable : fillable demo_kvs.
Proof.
  assert (Hv : forall b, 0 <= b < 256 -> val_ok (demo_value b)) by (intros b Hb; split_and!; [done|by apply Forall_replicate|by vm_compute]).
  split.
  - change (StronglySorted before [[18; 52]; [18; 53]; [200]]). repeat (apply SSorted_cons || apply SSorted_nil || (apply Forall_nil; exact I) || (apply Forall_cons; split)).
    + by exists [], 18, 200, [53], [].
    + by exists [18], 52, 53, [], [].
    + by exists [], 18, 200, [52], [].
  - apply Forall_cons; split; [|apply Forall_cons; split; [|apply Forall_cons; split; [|apply Forall_nil; done]]]; cbn [fst snd]; (split; [|split; [done|]]).
    + by apply demo_key_ok.
    + by apply Hv.
    + by apply demo_key_ok.
    + by apply Hv.
    + split; [bytes_ok|by vm_compute].
    + split_and!; [done|bytes_ok|by vm_compute].
Qed.

Definition demo_stack : Hash * StackTrie :=
  match @st_fill toy_crypto demo_kvs NewStackTrie with
  | Ret (_, t) => match @st_Hash toy_crypto t with Ret r => r | Fail _ => (0, t) end
  | Fail _ => (0, NewStackTrie)
  end.

(** A database with the calls of the callback. *)
Definition calls_reader (cs : list call) : NodeReader :=
  fun _ path hash => match list_find (fun c => fst (fst c) = path /\ snd (fst c) = hash) cs with Some (_, (_, _, blob)) => Some blob | None => None end.

Lemma stacktrie_root_witness : exists t3,
  New (mkID 1 0 (fst demo_stack)) (fun _ => Some (calls_reader (calls (snd demo_stack)))) = Ret (inl t3) /\ @holds toy_crypto t3 (list_to_map demo_kvs).
Proof.
  destruct (@stacktrie_root toy_crypto demo_kvs demo_fillable) as (t1 & t2 & h & E1 & E2 & _ & H).
  assert (Ed : demo_stack = (h, t2)) by (unfold demo_stack; by rewrite E1, E2). rewrite Ed.
  apply (H 1 0 (fun _ => Some (calls_reader (calls t2))) (calls_reader (calls t2))); [done|done|done| |].
  - assert (Ec : calls t2 = calls (snd demo_stack)) by (by rewrite Ed). rewrite Ec. clear.
    assert (Hall : Forall (fun c => reader_node (mkReader 0 (Some (calls_reader (calls (snd demo_stack)))) None) (fst (fst c)) (snd (fst c)) = inl (snd c)) (calls (snd demo_stack))).
    { vm_compute. repeat (apply Forall_cons; split; [reflexivity|]). by apply Forall_nil. }
    rewrite Forall_forall in Hall. intros q hash blob Hin. exact (Hall _ Hin).
  - assert (Eh : h = fst demo_stack) by (by rewrite Ed). clear - Eh. subst h.
    assert (En : (fst demo_stack =? 0) || (fst demo_stack =? EmptyRootHash) = false) by (vm_compute; reflexivity).
    apply orb_false_elim in En as [N1%Z.eqb_neq N2%Z.eqb_neq]. intros [E|E]; [destruct (N1 E)|destruct (N2 E)].
Defined.

Lemma stacktrie_rejects_witness : @st_Update toy_crypto [] [1] NewStackTrie = Fail PanicIndex.
Proof. by destruct (@stacktrie_rejects toy_crypto NewStackTrie [1] [1] [2]) as (_ & _ & ? & _). Defined.
