(* ===== verification/DeriveSha.v ===== *)
(** * Roots of lists ([core/types/hashing.go])

    [DeriveSha] computes the root in a block header of a list (transactions, receipts, withdrawals)
    with a [TrieHasher].  The interface and what it promises are type classes; the stack trie and the
    trie implement them. *)

From Stdlib Require Import Sorting.Sorted.
From stdpp Require Import sorting.
From S2P Require Import Prelude Bytes Rlp RlpTheorems VM TrieKeys TrieNode Trie TrieSpec TrieHash TrieOps TrieTheorems TrieCommit StackTrie StackTrieTheorems.

Set Default Proof Using "Type".

(** ** The code *)

(** [types.TrieHasher] over an object of type [S]; [Update] returns whether there is an error. *)
Class TrieHasher (S : Type) := {
  th_Reset : ST S ();
  th_Update : bytes -> bytes -> ST S bool;
  th_Hash : ST S Hash;
}.

Section derive.
Context {S : Type} `{!TrieHasher S}.

(** [hasher.Update(rlp.AppendUint64(indexBuf[:0], uint64(i)), encodeForDerive(list, i, valueBuf))] for
    the indexes of a loop; the error is ignored.  [items] has the encodings that [EncodeIndex] writes. *)
Fixpoint deriveLoop (items : list bytes) (indexes : list nat) : ST S () :=
  match indexes with
  | [] => mret tt
  | i :: indexes =>
      value ← st_lift (index items (Z.of_nat i));
      _ ← th_Update (AppendUint64 [] (Z.of_nat i)) value;
      deriveLoop items indexes
  end.

Definition DeriveSha (items : list bytes) : ST S Hash :=
  _ ← th_Reset;
  _ ← deriveLoop items (seq 1 (Nat.min (length items) 128 - 1));
  _ ← deriveLoop items (if (0 <? length items)%nat then [0%nat] else []);
  _ ← deriveLoop items (seq 128 (length items - 128));
  th_Hash.
End derive.

#[export] Instance stacktrie_hasher `{C : Crypto} : TrieHasher StackTrie := {|
  th_Reset := st_Reset;
  th_Update key value := e ← st_Update key value; mret (match e with Some _ => true | None => false end);
  th_Hash := st_Hash;
|}.

#[export] Instance trie_hasher `{C : Crypto} : TrieHasher Trie := {|
  th_Reset := st_modify Reset;
  th_Update key value := e ← Update key value; mret (match e with Some _ => true | None => false end);
  th_Hash := Trie_Hash;
|}.

(** ** What a hasher promises *)

(** Updates with the pairs of a list *)
Fixpoint th_fill {S} `{!TrieHasher S} (kvs : list (bytes * bytes)) : ST S () :=
  match kvs with
  | [] => mret tt
  | (k, v) :: kvs => _ ← th_Update k v; th_fill kvs
  end.

(** The hash of a map. *)
Definition root_of `{C : Crypto} (M : gmap bytes bytes) (h : Hash) : Prop := exists T, canon maxLen T /\ stores T M /\ h = troot T.

(** After a reset and updates with ascending keys the hash is the root of the content. *)
Class TrieHasherSpec `{C : Crypto} (S : Type) `{!TrieHasher S} : Prop :=
  hasher_root : forall (s : S) kvs, fillable kvs -> exists h s1 s2, (_ ← th_Reset; th_fill kvs) s = Ret (tt, s1) /\
    th_Hash s1 = Ret (h, s2) /\ root_of (list_to_map kvs) h.

Section derive_proofs.
Context `{C : Crypto}.

#[export] Instance stacktrie_hasher_spec : TrieHasherSpec StackTrie.
Proof.
  intros s kvs Hf. assert (Hfill : forall kvs (t t' : StackTrie), st_fill kvs t = Ret (None, t') -> th_fill kvs t = Ret (tt, t')).
  { clear. intros kvs. induction kvs as [|[k v] kvs IH]; intros t t' E; [by injection E as ->|]. cbn [th_fill st_fill] in *.
    unfold th_Update, stacktrie_hasher, mbind, st_bind in *. destruct (st_Update k v t) as [[[e|] t1]|]; [done| |done]. by apply IH. }
  assert (H0 : st_holds (mkStackTrie emptyNode [] (kBuf s) (calls s)) ∅ None) by (destruct st_holds_empty as (T & ? & ? & ?); by exists T).
  destruct (st_fill_holds kvs _ ∅ None H0 Hf) as (t1 & last & E1 & H1); [done|].
  rewrite foldl_insert_map, map_union_empty in H1; [|by apply before_nodup, Hf|done]. pose proof H1 as (T & Hc & Hs & _).
  destruct (st_Hash_tree t1 _ last T H1 Hc Hs) as (t2 & E2 & _). exists (troot T), t1, t2. split_and!; [|done|by exists T].
  apply Hfill. exact E1.
Qed.

#[export] Instance trie_hasher_spec : TrieHasherSpec Trie.
Proof.
  intros s kvs Hf. assert (Hfill : forall kvs t M, holds t M -> Forall (fun kv => key_ok (fst kv) /\ fst kv <> [] /\ val_ok (snd kv)) kvs ->
    exists t', th_fill kvs t = Ret (tt, t') /\ holds t' (foldl (fun M kv => <[fst kv := snd kv]> M) M kvs)).
  { clear. intros kvs. induction kvs as [|[k v] kvs IH]; intros t M Ht Hok; [by exists t|]. apply Forall_cons in Hok as [(Hk & _ & Hv) Hok]. cbn [fst snd] in *.
    destruct (Update_holds t M k v Ht Hk) as (t1 & E1 & H1); [apply Hv|apply Hv|]. rewrite decide_False in H1 by apply Hv.
    destruct (IH t1 _ H1 Hok) as (t2 & E2 & H2). exists t2. cbn [th_fill]. unfold th_Update, trie_hasher, mbind, st_bind in *. rewrite E1. done. }
  destruct (Hfill kvs (Reset s) ∅) as (t1 & E1 & H1); [apply holds_empty|apply Hf|].
  rewrite foldl_insert_map, map_union_empty in H1; [|by apply before_nodup, Hf|done]. destruct H1 as (T & Hok & Hs).
  destruct (Trie_Hash_tree t1 T Hok) as (t2 & E2 & _). exists (troot T), t1, t2. split_and!; [exact E1|done|]. pose proof Hok as (_ & _ & Hc & _). by exists T.
Qed.


(** ** The keys of the indexes *)

(** The order in which [DeriveSha] writes: 0 comes after 127. *)
Definition rank (i : nat) : Z := if (i =? 0)%nat then 255 else 2 * Z.of_nat i.
Definition derive_order (n : nat) : list nat :=
  seq 1 (Nat.min n 128 - 1) ++ (if (0 <? n)%nat then [0%nat] else []) ++ seq 128 (n - 128).

Definition index_key (i : nat) : bytes := AppendUint64 [] (Z.of_nat i).

Lemma be_val_before l k : Forall is_byte l -> Forall is_byte k -> length l = length k -> be_val l < be_val k -> before l k.
Proof.
  revert k. induction l as [|x l IH]; intros [|y k] Hl Hk E Hlt; try done. apply Forall_cons in Hl as [Hx Hl], Hk as [Hy Hk].
  change (x :: l) with ([x] ++ l) in Hlt. change (y :: k) with ([y] ++ k) in Hlt. rewrite !be_val_app in Hlt.
  change (be_val [x]) with x in Hlt. change (be_val [y]) with y in Hlt.
  assert (El : len l = len k) by (unfold len; cbn in E; lia). rewrite El in Hlt.
  pose proof (be_val_bounds l Hl) as Bl. pose proof (be_val_bounds k Hk) as Bk. rewrite El in Bl.
  destruct (Z.lt_total x y) as [Hxy|[->|Hxy]]; [by exists [], x, y, l, k| |exfalso; nia].
  destruct (IH k Hl Hk) as (q & a & b & r & s & -> & -> & Hab); [by injection E|lia|]. by exists (y :: q), a, b, r, s.
Qed.

Lemma index_key_small i : (1 <= i < 128)%nat -> index_key i = [Z.of_nat i].
Proof.
  intros Hi. unfold index_key, AppendUint64. rewrite (proj2 (Z.eqb_neq _ _)), (proj2 (Z.ltb_lt _ _)) by lia. cbn [app]. unfold u8.
  by rewrite Z.mod_small by lia.
Qed.

Lemma index_key_big i : (128 <= i)%nat -> index_key i = (128 + len (putint (Z.of_nat i))) :: putint (Z.of_nat i).
Proof. intros Hi. unfold index_key, AppendUint64. by rewrite (proj2 (Z.eqb_neq _ _)), (proj2 (Z.ltb_ge _ _)) by lia. Qed.

Lemma index_key_before i j : is_u64 (Z.of_nat i) -> is_u64 (Z.of_nat j) -> rank i < rank j -> before (index_key i) (index_key j).
Proof.
  intros Ui Uj Hr. unfold rank in Hr.
  assert (Hbig : forall n, (128 <= n)%nat -> is_u64 (Z.of_nat n) -> 1 <= len (putint (Z.of_nat n)) <= 8)
    by (intros n Hn Hu; rewrite putint_len by done; by apply intsize_spec).
  destruct (Nat.eqb_spec i 0) as [->|Hi], (Nat.eqb_spec j 0) as [->|Hj]; try lia.
  - rewrite (index_key_big j) by lia. exists [], 128, (128 + len (putint (Z.of_nat j))), [], (putint (Z.of_nat j)).
    split_and!; [done|done|]. specialize (Hbig j ltac:(lia) Uj). lia.
  - rewrite (index_key_small i) by lia. exists [], (Z.of_nat i), 128, [], []. split_and!; [done|done|lia].
  - destruct (decide (j < 128)%nat).
    { rewrite !index_key_small by lia. exists [], (Z.of_nat i), (Z.of_nat j), [], []. split_and!; [done|done|lia]. }
    pose proof (Hbig j ltac:(lia) Uj). rewrite (index_key_big j) by lia. destruct (decide (i < 128)%nat).
    { rewrite index_key_small by lia. eexists [], (Z.of_nat i), _, [], _. split_and!; [done|done|lia]. }
    rewrite (index_key_big i) by lia. pose proof (Hbig i ltac:(lia) Ui).
    assert (Hv : be_val (putint (Z.of_nat i)) < be_val (putint (Z.of_nat j))) by (rewrite !putint_val by done; lia).
    destruct (Z.lt_total (len (putint (Z.of_nat i))) (len (putint (Z.of_nat j)))) as [Hl|[E|Hl]].
    + eexists [], _, _, _, _. split_and!; [done|done|lia].
    + destruct (be_val_before (putint (Z.of_nat i)) (putint (Z.of_nat j))) as (q & a & b & r & s & Ea & Eb & Hab);
        [by apply putint_bytes|by apply putint_bytes|unfold len in E; lia|done|].
      rewrite E. exists ((128 + len (putint (Z.of_nat j))) :: q), a, b, r, s. split_and!; [by rewrite Ea|by rewrite Eb|done].
    + exfalso. rewrite !putint_len in Hl by done. destruct (intsize_spec (Z.of_nat i) Ui) as (_ & _ & Hgi), (intsize_spec (Z.of_nat j) Uj) as (Hrj & Hltj & _).
      specialize (Hgi ltac:(lia)).
      assert (256 ^ intsize (Z.of_nat j) <= 256 ^ (intsize (Z.of_nat i) - 1)) by (apply Z.pow_le_mono_r; lia). lia.
Qed.

Lemma index_key_inj i j : is_u64 (Z.of_nat i) -> is_u64 (Z.of_nat j) -> index_key i = index_key j -> i = j.
Proof.
  intros Ui Uj E. destruct (Z.lt_total (rank i) (rank j)) as [H|[H|H]].
  - apply index_key_before in H; [|done|done]. rewrite E in H. by apply before_irrefl in H.
  - unfold rank in H. destruct (Nat.eqb_spec i 0), (Nat.eqb_spec j 0); lia.
  - apply index_key_before in H; [|done|done]. rewrite E in H. by apply before_irrefl in H.
Qed.

Lemma derive_order_elem n i : i ∈ derive_order n <-> (i < n)%nat.
Proof.
  unfold derive_order. rewrite !elem_of_app, !elem_of_seq. destruct (Nat.ltb_spec 0 n); rewrite ?list_elem_of_singleton, ?elem_of_nil; lia.
Qed.

Lemma rank_seq a n : (1 <= a)%nat -> StronglySorted (fun i j => rank i < rank j) (seq a n).
Proof.
  revert a. induction n as [|n IH]; intros a Ha; [constructor|]. cbn [seq]. apply SSorted_cons; [apply IH; lia|].
  apply Forall_forall. intros j Hj%elem_of_seq. unfold rank. destruct (Nat.eqb_spec a 0), (Nat.eqb_spec j 0); lia.
Qed.

Lemma derive_order_sorted n : StronglySorted (fun i j => rank i < rank j) (derive_order n).
Proof.
  assert (Hz : StronglySorted (fun i j => rank i < rank j) (if (0 <? n)%nat then [0%nat] else [])) by (case_if; repeat constructor).
  assert (He : forall i, i ∈ (if (0 <? n)%nat then [0%nat] else []) -> i = 0%nat) by (intros i; case_if; set_solver).
  unfold derive_order. apply StronglySorted_app_2; [|by apply rank_seq|apply StronglySorted_app_2; [|done|by apply rank_seq; lia]].
  - intros i j Hi%elem_of_seq [Hj%He|Hj%elem_of_seq]%elem_of_app; unfold rank; destruct (Nat.eqb_spec i 0), (Nat.eqb_spec j 0); lia.
  - intros i j ->%He Hj%elem_of_seq. unfold rank. destruct (Nat.eqb_spec j 0); cbn [Nat.eqb]; lia.
Qed.

(** ** The content *)

Definition index_map (items : list bytes) : gmap bytes bytes := list_to_map (imap (fun i v => (index_key i, v)) items).

Definition derive_pairs (items : list bytes) (idx : list nat) : list (bytes * bytes) := (fun i => (index_key i, items !!! i)) <$> idx.

Lemma deriveLoop_fill {S} `{!TrieHasher S} items idx (s : S) : (forall i, i ∈ idx -> (i < length items)%nat) ->
  deriveLoop items idx s = th_fill (derive_pairs items idx) s.
Proof.
  revert s. induction idx as [|i idx IH]; intros s H; [done|]. unfold derive_pairs. rewrite fmap_cons. cbn [deriveLoop th_fill].
  unfold mbind, st_bind, st_lift. destruct (lookup_lt_is_Some_2 items i) as [v Hv]; [apply H; by left|].
  rewrite (index_lookup _ _ _ Hv), (list_lookup_total_correct _ _ _ Hv). fold (index_key i).
  destruct (th_Update (index_key i) v s) as [[e s1]|]; [|done]. apply IH. intros j Hj. apply H. by right.
Qed.

Lemma th_fill_app {S} `{!TrieHasher S} l1 l2 (s : S) : th_fill (l1 ++ l2) s = (_ ← th_fill l1; th_fill l2) s.
Proof.
  revert s. induction l1 as [|[k v] l1 IH]; intros s; [done|]. cbn [app th_fill]. unfold mbind, st_bind in *.
  destruct (th_Update k v s) as [[e s1]|]; [|done]. apply IH.
Qed.

Lemma DeriveSha_fill {S} `{!TrieHasher S} items (s : S) :
  DeriveSha items s = (_ ← (_ ← th_Reset; th_fill (derive_pairs items (derive_order (length items)))); th_Hash) s.
Proof.
  unfold DeriveSha, derive_order, derive_pairs. rewrite !fmap_app. fold (derive_pairs items (seq 1 (Nat.min (length items) 128 - 1))).
  unfold mbind, st_bind. destruct (th_Reset s) as [[[] s0]|]; [|done]. rewrite th_fill_app. unfold mbind, st_bind.
  rewrite deriveLoop_fill by (intros i Hi%elem_of_seq; lia). destruct (th_fill _ s0) as [[[] s1]|]; [|done].
  rewrite th_fill_app. unfold mbind, st_bind. rewrite deriveLoop_fill; [|intros i; destruct (Nat.ltb_spec 0 (length items)); set_solver].
  unfold derive_pairs. destruct (th_fill _ s1) as [[[] s2]|]; [|done].
  rewrite deriveLoop_fill by (intros i Hi%elem_of_seq; lia). done.
Qed.

Lemma index_u64 (items : list bytes) i : len items < two64 -> (i < length items)%nat -> is_u64 (Z.of_nat i).
Proof. intros Hl Hi. unfold len in Hl. unfold_u64. lia. Qed.

Lemma derive_keys items : len items < two64 -> StronglySorted before (fst <$> derive_pairs items (derive_order (length items))).
Proof.
  intros Hl. unfold derive_pairs. rewrite <- list_fmap_compose. change (fst ∘ _) with index_key.
  assert (H : forall idx, (forall i, i ∈ idx -> (i < length items)%nat) -> StronglySorted (fun i j => rank i < rank j) idx ->
    StronglySorted before (index_key <$> idx)).
  { intros idx Hin. induction 1 as [|i idx Hs IH Hi]; [constructor|]. rewrite fmap_cons. apply SSorted_cons; [apply IH; intros; apply Hin; by right|].
    rewrite Forall_fmap. rewrite Forall_forall in Hi. apply Forall_forall. intros j Hj. apply index_key_before; [..|by apply Hi];
      eapply index_u64; [done|apply Hin; by left|done|apply Hin; by right]. }
  apply H; [intros i Hi; by apply derive_order_elem|apply derive_order_sorted].
Qed.

Lemma index_key_ok i : is_u64 (Z.of_nat i) -> key_ok (index_key i) /\ index_key i <> [].
Proof.
  intros Hu. assert (Hp : 1 <= len (putint (Z.of_nat i)) <= 8) by (rewrite putint_len by done; by apply intsize_spec).
  destruct (decide (i = 0%nat)) as [->|Hi]; [split; [split; [bytes_ok|by vm_compute]|done]|].
  destruct (decide (i < 128)%nat).
  - rewrite index_key_small by lia. split; [split; [bytes_ok|by vm_compute]|done].
  - rewrite index_key_big by lia. split; [|done]. split.
    + apply Forall_cons. split; [unfold is_byte; lia|by apply putint_bytes].
    + rewrite len_cons. apply Z.le_trans with 19; [lia|by vm_compute].
Qed.

Lemma derive_fillable items : len items < two64 -> Forall val_ok items -> fillable (derive_pairs items (derive_order (length items))).
Proof.
  intros Hl Hv. split; [by apply derive_keys|]. unfold derive_pairs. rewrite Forall_fmap. apply Forall_forall. intros i Hi%derive_order_elem. cbn.
  destruct (lookup_lt_is_Some_2 items i Hi) as [v E]. rewrite (list_lookup_total_correct _ _ _ E). rewrite Forall_lookup in Hv.
  destruct (index_key_ok i) as [? ?]; [by eapply index_u64|]. split_and!; [done|done|by apply (Hv i)].
Qed.

Lemma index_map_lookup items key v : len items < two64 -> index_map items !! key = Some v <-> exists i, key = index_key i /\ items !! i = Some v.
Proof.
  intros Hl. unfold index_map. rewrite <- elem_of_list_to_map.
  - rewrite elem_of_lookup_imap. split; [intros (i & x & [= -> ->] & Hi); by exists i|intros (i & -> & Hi); by exists i, v].
  - apply NoDup_alt. intros i j k Hi Hj. rewrite !list_lookup_fmap, !list_lookup_imap in *.
    destruct (items !! i) as [x|] eqn:Ei; [|done]. destruct (items !! j) as [y|] eqn:Ej; [|done]. cbn in Hi, Hj. simplify_eq.
    apply lookup_lt_Some in Ei, Ej. eapply index_key_inj; [by eapply index_u64|by eapply index_u64|congruence].
Qed.

Lemma derive_map items : len items < two64 -> list_to_map (derive_pairs items (derive_order (length items))) = index_map items.
Proof.
  intros Hl. apply map_eq. intros key. apply option_eq. intros v. rewrite index_map_lookup by done. rewrite <- elem_of_list_to_map; [|apply before_nodup; by apply derive_keys].
  unfold derive_pairs. rewrite list_elem_of_fmap. split.
  - intros (i & [= -> ->] & Hi%derive_order_elem). exists i. split; [done|]. by apply list_lookup_lookup_total_lt.
  - intros (i & -> & Hi). exists i. rewrite (list_lookup_total_correct _ _ _ Hi). split; [done|]. apply derive_order_elem. by eapply lookup_lt_Some.
Qed.

Lemma index_map_inj l1 l2 : len l1 < two64 -> len l2 < two64 -> index_map l1 = index_map l2 -> l1 = l2.
Proof.
  intros H1 H2 E.
  assert (Hsub : forall l1 l2 i v, len l1 < two64 -> len l2 < two64 -> index_map l1 = index_map l2 -> l1 !! i = Some v -> l2 !! i = Some v).
  { clear. intros l1 l2 i v H1 H2 E Hi. assert (Hm : index_map l1 !! index_key i = Some v) by (apply index_map_lookup; [done|by exists i]).
    rewrite E in Hm. apply index_map_lookup in Hm as (j & Ej & Hj); [|done]. apply lookup_lt_Some in Hi as Li. apply lookup_lt_Some in Hj as Lj.
    apply index_key_inj in Ej as ->; [done|by apply (index_u64 l1)|by apply (index_u64 l2)]. }
  apply list_eq. intros i. apply option_eq. intros v. split; apply Hsub; done.
Qed.

Lemma DeriveSha_root {S} `{!TrieHasher S, !TrieHasherSpec S} items (s : S) : len items < two64 -> Forall val_ok items ->
  exists h s', DeriveSha items s = Ret (h, s') /\ root_of (index_map items) h.
Proof.
  intros Hl Hv. destruct (hasher_root s _ (derive_fillable items Hl Hv)) as (h & s1 & s2 & E1 & E2 & Hr). exists h, s2.
  rewrite DeriveSha_fill. unfold mbind at 1, st_bind at 1. rewrite E1. split; [done|]. by rewrite derive_map in Hr.
Qed.

(** ** Properties *)

(** C25 The root of a list commits to the list.  [DeriveSha] of a list of fewer than 2^64 encodings
    that are not empty never panics, with any hasher that meets its interface; lists have the same root
    exactly if they are equal, even when one root is computed with the stack trie and the other with
    the trie, unless two different byte strings among the encoded nodes of the tries of the two lists have the same
    hash. *)
Theorem DeriveSha_commits {S1 S2} `{!TrieHasher S1, !TrieHasherSpec S1, !TrieHasher S2, !TrieHasherSpec S2} (s1 : S1) (s2 : S2) (items1 items2 : list bytes) :
  empty_root_known -> len items1 < two64 -> len items2 < two64 -> Forall val_ok items1 -> Forall val_ok items2 ->
  exists h1 h2 s1' s2', DeriveSha items1 s1 = Ret (h1, s1') /\ DeriveSha items2 s2 = Ret (h2, s2') /\
    (items1 = items2 -> h1 = h2) /\
    (h1 = h2 -> items1 = items2 \/ hash_collision (fun x => trie_data (index_map items1) x \/ trie_data (index_map items2) x)).
Proof.
  intros He L1 L2 V1 V2. destruct (DeriveSha_root items1 s1 L1 V1) as (h1 & s1' & E1 & T1 & Hc1 & Hs1 & ->), (DeriveSha_root items2 s2 L2 V2) as (h2 & s2' & E2 & T2 & Hc2 & Hs2 & ->).
  exists (troot T1), (troot T2), s1', s2'. split_and!; [done|done| |].
  - intros ->. by rewrite (stores_unique maxLen maxLen T1 T2 (index_map items2)).
  - intros E. destruct (trie_data_binds T1 T2 _ _ He Hc1 Hc2 Hs1 Hs2 E) as [Em|?]; [left|by right]. by apply index_map_inj.
Qed.
End derive_proofs.

(** Lists with one element, on the two hashers. *)
Lemma DeriveSha_commits_witness : exists h1 h2 s1' s2',
  @DeriveSha StackTrie (@stacktrie_hasher toy_crypto) [[1; 2; 3]] NewStackTrie = Ret (h1, s1') /\
  @DeriveSha Trie (@trie_hasher toy_crypto) [[1; 2; 3]] empty_trie = Ret (h2, s2') /\
  ([[1; 2; 3]] = [[1; 2; 3]] -> h1 = h2) /\
  (h1 = h2 -> [[1; 2; 3]] = [[1; 2; 3]] \/
    @hash_collision toy_crypto (fun x => @trie_data toy_crypto (index_map [[1; 2; 3]]) x \/ @trie_data toy_crypto (index_map [[1; 2; 3]]) x)).
Proof.
  apply (@DeriveSha_commits toy_crypto StackTrie Trie _ (@stacktrie_hasher_spec toy_crypto) _ (@trie_hasher_spec toy_crypto));
    [by vm_compute|done|done|apply Forall_cons; split; [split_and!; [done|bytes_ok|by vm_compute]|by apply Forall_nil]..].
Defined.
