(* ===== verification/Transactions.v ===== *)
(** * Transactions ([core/types/transaction.go] and the files of the transaction types)

    The five kinds of transaction data, their RLP types, the binary encodings and the methods of
    [Transaction] with its caches.  A [*big.Int] field is an integer: [copy] and the decoders make
    every field non-nil.  A [*uint256.Int] is a word of the 256-bit library.  The time a transaction
    was first seen is not part of the model. *)

From S2P Require Import Prelude Bytes Uint256 Params Rlp RlpStream RlpTypes VM StateTransition.

Set Default Proof Using "Type".

Definition LegacyTxType : Z := 0.
Definition AccessListTxType : Z := 1.
Definition DynamicFeeTxType : Z := 2.
Definition BlobTxType : Z := 3.
Definition SetCodeTxType : Z := 4.

(** The errors of the package; [errSign] and [errEcrecover] stand for those of
    [crypto.Sign] and [crypto.Ecrecover]. *)
Inductive txerror :=
  | ErrInvalidSig | ErrUnexpectedProtection | ErrTxTypeNotSupported | ErrGasFeeCapTooLow | errShortTypedTx
  | ErrInvalidChainId | errSign | errEcrecover | errInvalidPublicKey | errRlp (e : rlperror)
  | errCommitmentCount | errBlobHash (i : nat).

Section transactions.
Context `{U : Uint256} `{C : Crypto}.

(** ** Data *)

Record LegacyTx := mkLegacyTx {
  l_Nonce : Z; l_GasPrice : Z; l_Gas : Z; l_To : option Address; l_Value : Z; l_Data : bytes;
  l_V : Z; l_R : Z; l_S : Z }.

Record AccessListTx := mkAccessListTx {
  a_ChainID : Z; a_Nonce : Z; a_GasPrice : Z; a_Gas : Z; a_To : option Address; a_Value : Z; a_Data : bytes;
  a_AccessList : AccessList; a_V : Z; a_R : Z; a_S : Z }.

Record DynamicFeeTx := mkDynamicFeeTx {
  d_ChainID : Z; d_Nonce : Z; d_GasTipCap : Z; d_GasFeeCap : Z; d_Gas : Z; d_To : option Address; d_Value : Z;
  d_Data : bytes; d_AccessList : AccessList; d_V : Z; d_R : Z; d_S : Z }.

(** The blobs have 131072 bytes each, the commitments and proofs 48. *)
Record BlobTxSidecar := mkSidecar { sc_Blobs : list bytes; sc_Commitments : list bytes; sc_Proofs : list bytes }.

Record BlobTx := mkBlobTx {
  b_ChainID : word; b_Nonce : Z; b_GasTipCap : word; b_GasFeeCap : word; b_Gas : Z; b_To : Address; b_Value : word;
  b_Data : bytes; b_AccessList : AccessList; b_BlobFeeCap : word; b_BlobHashes : list Hash;
  b_Sidecar : option BlobTxSidecar; b_V : word; b_R : word; b_S : word }.

Record SetCodeTx := mkSetCodeTx {
  c_ChainID : word; c_Nonce : Z; c_GasTipCap : word; c_GasFeeCap : word; c_Gas : Z; c_To : Address; c_Value : word;
  c_Data : bytes; c_AccessList : AccessList; c_AuthList : list SetCodeAuthorization; c_V : word; c_R : word; c_S : word }.

(** [type TxData interface]: the types that implement it *)
Inductive TxData :=
  | TxLegacy (tx : LegacyTx)
  | TxAccessList (tx : AccessListTx)
  | TxDynamicFee (tx : DynamicFeeTx)
  | TxBlob (tx : BlobTx)
  | TxSetCode (tx : SetCodeTx).

(** ** Accessors *)

Definition txType (t : TxData) : Z :=
  match t with
  | TxLegacy _ => LegacyTxType | TxAccessList _ => AccessListTxType | TxDynamicFee _ => DynamicFeeTxType
  | TxBlob _ => BlobTxType | TxSetCode _ => SetCodeTxType
  end.

(** [big.Int.Uint64]: the low 64 bits of the absolute value *)
Definition bigUint64 (z : Z) : Z := wrap64 (Z.abs z).

Definition deriveChainId (v : Z) : Z :=
  if bitLen v <=? 64 then
    let v := bigUint64 v in
    if (v =? 27) || (v =? 28) then 0 else (v -! 35) / 2
  else Z.shiftr (v - 35) 1.

Definition isProtectedV (V : Z) : bool :=
  if bitLen V <=? 8 then
    let v := bigUint64 V in
    negb (v =? 27) && negb (v =? 28) && negb (v =? 1) && negb (v =? 0)
  else true.

Definition chainID (t : TxData) : Z :=
  match t with
  | TxLegacy tx => deriveChainId (l_V tx) | TxAccessList tx => a_ChainID tx | TxDynamicFee tx => d_ChainID tx
  | TxBlob tx => uval (b_ChainID tx) | TxSetCode tx => uval (c_ChainID tx)
  end.

Definition accessList (t : TxData) : AccessList :=
  match t with
  | TxLegacy _ => [] | TxAccessList tx => a_AccessList tx | TxDynamicFee tx => d_AccessList tx
  | TxBlob tx => b_AccessList tx | TxSetCode tx => c_AccessList tx
  end.

Definition data (t : TxData) : bytes :=
  match t with
  | TxLegacy tx => l_Data tx | TxAccessList tx => a_Data tx | TxDynamicFee tx => d_Data tx
  | TxBlob tx => b_Data tx | TxSetCode tx => c_Data tx
  end.

Definition gas (t : TxData) : Z :=
  match t with
  | TxLegacy tx => l_Gas tx | TxAccessList tx => a_Gas tx | TxDynamicFee tx => d_Gas tx
  | TxBlob tx => b_Gas tx | TxSetCode tx => c_Gas tx
  end.

Definition gasPrice (t : TxData) : Z :=
  match t with
  | TxLegacy tx => l_GasPrice tx | TxAccessList tx => a_GasPrice tx | TxDynamicFee tx => d_GasFeeCap tx
  | TxBlob tx => uval (b_GasFeeCap tx) | TxSetCode tx => uval (c_GasFeeCap tx)
  end.

Definition gasTipCap (t : TxData) : Z :=
  match t with
  | TxLegacy tx => l_GasPrice tx | TxAccessList tx => a_GasPrice tx | TxDynamicFee tx => d_GasTipCap tx
  | TxBlob tx => uval (b_GasTipCap tx) | TxSetCode tx => uval (c_GasTipCap tx)
  end.

Definition gasFeeCap (t : TxData) : Z :=
  match t with
  | TxLegacy tx => l_GasPrice tx | TxAccessList tx => a_GasPrice tx | TxDynamicFee tx => d_GasFeeCap tx
  | TxBlob tx => uval (b_GasFeeCap tx) | TxSetCode tx => uval (c_GasFeeCap tx)
  end.

Definition value (t : TxData) : Z :=
  match t with
  | TxLegacy tx => l_Value tx | TxAccessList tx => a_Value tx | TxDynamicFee tx => d_Value tx
  | TxBlob tx => uval (b_Value tx) | TxSetCode tx => uval (c_Value tx)
  end.

Definition nonce (t : TxData) : Z :=
  match t with
  | TxLegacy tx => l_Nonce tx | TxAccessList tx => a_Nonce tx | TxDynamicFee tx => d_Nonce tx
  | TxBlob tx => b_Nonce tx | TxSetCode tx => c_Nonce tx
  end.

Definition to_ (t : TxData) : option Address :=
  match t with
  | TxLegacy tx => l_To tx | TxAccessList tx => a_To tx | TxDynamicFee tx => d_To tx
  | TxBlob tx => Some (b_To tx) | TxSetCode tx => Some (c_To tx)
  end.

Definition rawSignatureValues (t : TxData) : Z * Z * Z :=
  match t with
  | TxLegacy tx => (l_V tx, l_R tx, l_S tx)
  | TxAccessList tx => (a_V tx, a_R tx, a_S tx)
  | TxDynamicFee tx => (d_V tx, d_R tx, d_S tx)
  | TxBlob tx => (uval (b_V tx), uval (b_R tx), uval (b_S tx))
  | TxSetCode tx => (uval (c_V tx), uval (c_R tx), uval (c_S tx))
  end.

(** The chain id is a nil pointer ([None]) for the signers before EIP-155: a dynamic transaction would
    then get a nil field, which the model does not have. *)
Definition setSignatureValues (chainID : option Z) (v r s : Z) (t : TxData) : Outcome TxData :=
  match t, chainID with
  | TxLegacy tx, _ =>
      Ret (TxLegacy (mkLegacyTx (l_Nonce tx) (l_GasPrice tx) (l_Gas tx) (l_To tx) (l_Value tx) (l_Data tx) v r s))
  | TxAccessList tx, Some chainID =>
      Ret (TxAccessList (mkAccessListTx chainID (a_Nonce tx) (a_GasPrice tx) (a_Gas tx) (a_To tx) (a_Value tx) (a_Data tx)
        (a_AccessList tx) v r s))
  | TxDynamicFee tx, Some chainID =>
      Ret (TxDynamicFee (mkDynamicFeeTx chainID (d_Nonce tx) (d_GasTipCap tx) (d_GasFeeCap tx) (d_Gas tx) (d_To tx) (d_Value tx)
        (d_Data tx) (d_AccessList tx) v r s))
  | TxBlob tx, Some chainID =>
      Ret (TxBlob (mkBlobTx (FromBig chainID) (b_Nonce tx) (b_GasTipCap tx) (b_GasFeeCap tx) (b_Gas tx) (b_To tx) (b_Value tx)
        (b_Data tx) (b_AccessList tx) (b_BlobFeeCap tx) (b_BlobHashes tx) (b_Sidecar tx) (FromBig v) (FromBig r) (FromBig s)))
  | TxSetCode tx, Some chainID =>
      if FromBigOverflow chainID then Fail PanicExplicit
      else Ret (TxSetCode (mkSetCodeTx (FromBig chainID) (c_Nonce tx) (c_GasTipCap tx) (c_GasFeeCap tx) (c_Gas tx) (c_To tx)
        (c_Value tx) (c_Data tx) (c_AccessList tx) (c_AuthList tx) (FromBig v) (FromBig r) (FromBig s)))
  | _, None => Fail Unmodelled
  end.

(** [effectiveGasPrice(dst, baseFee)] of the types with a fee cap *)
Definition effectivePrice (feeCap tipCap : Z) (baseFee : option Z) : Z :=
  match baseFee with
  | None => feeCap
  | Some baseFee =>
      let tip := feeCap - baseFee in
      let tip := if tipCap <? tip then tipCap else tip in
      tip + baseFee
  end.

Definition effectiveGasPrice (t : TxData) (baseFee : option Z) : Z :=
  match t with
  | TxLegacy tx => l_GasPrice tx
  | TxAccessList tx => a_GasPrice tx
  | _ => effectivePrice (gasFeeCap t) (gasTipCap t) baseFee
  end.

(** ** RLP types *)

Local Notation "i ::: r" := (fcons i None r) (at level 60, right associativity).

Definition accessTupleInfo : typeinfo (Address * list Hash) :=
  viewInfo (fun v => (v.1, v.2.1)) (fun t => (t.1, (t.2, tt))) (structInfo (addressInfo ::: sliceInfo hashInfo ::: fnil)).
Definition accessListInfo : typeinfo AccessList := sliceInfo accessTupleInfo.

(** [To *common.Address `rlp:"nil"`] *)
Definition toInfo : typeinfo (option Address) := nilPtrInfo KString addressInfo.

(** [uint256.Int] *)
Definition wordInfo : typeinfo word := viewInfo FromBig uval u256Info.

Definition authInfo : typeinfo SetCodeAuthorization :=
  viewInfo (fun '(c, (a, (n, (v, (r, (s, _)))))) => mkAuth c a n v r s)
    (fun a => (auth_ChainID a, (auth_Address a, (auth_Nonce a, (auth_V a, (auth_R a, (auth_S a, tt)))))))
    (structInfo (wordInfo ::: addressInfo ::: uintInfo 64 ::: uintInfo 8 ::: wordInfo ::: wordInfo ::: fnil)).

Definition legacyInfo : typeinfo LegacyTx :=
  viewInfo (fun '(n, (p, (g, (t, (v, (d, (sv, (sr, (ss, _))))))))) => mkLegacyTx n p g t v d sv sr ss)
    (fun tx => (l_Nonce tx, (l_GasPrice tx, (l_Gas tx, (l_To tx, (l_Value tx, (l_Data tx, (l_V tx, (l_R tx, (l_S tx, tt))))))))))
    (structInfo (uintInfo 64 ::: bigIntInfo ::: uintInfo 64 ::: toInfo ::: bigIntInfo ::: byteSliceInfo
       ::: bigIntInfo ::: bigIntInfo ::: bigIntInfo ::: fnil)).

Definition accessListTxInfo : typeinfo AccessListTx :=
  viewInfo (fun '(c, (n, (p, (g, (t, (v, (d, (al, (sv, (sr, (ss, _))))))))))) => mkAccessListTx c n p g t v d al sv sr ss)
    (fun tx => (a_ChainID tx, (a_Nonce tx, (a_GasPrice tx, (a_Gas tx, (a_To tx, (a_Value tx, (a_Data tx, (a_AccessList tx,
       (a_V tx, (a_R tx, (a_S tx, tt))))))))))))
    (structInfo (bigIntInfo ::: uintInfo 64 ::: bigIntInfo ::: uintInfo 64 ::: toInfo ::: bigIntInfo ::: byteSliceInfo
       ::: accessListInfo ::: bigIntInfo ::: bigIntInfo ::: bigIntInfo ::: fnil)).

Definition dynamicFeeTxInfo : typeinfo DynamicFeeTx :=
  viewInfo (fun '(c, (n, (tc, (fc, (g, (t, (v, (d, (al, (sv, (sr, (ss, _)))))))))))) => mkDynamicFeeTx c n tc fc g t v d al sv sr ss)
    (fun tx => (d_ChainID tx, (d_Nonce tx, (d_GasTipCap tx, (d_GasFeeCap tx, (d_Gas tx, (d_To tx, (d_Value tx, (d_Data tx,
       (d_AccessList tx, (d_V tx, (d_R tx, (d_S tx, tt)))))))))))))
    (structInfo (bigIntInfo ::: uintInfo 64 ::: bigIntInfo ::: bigIntInfo ::: uintInfo 64 ::: toInfo ::: bigIntInfo
       ::: byteSliceInfo ::: accessListInfo ::: bigIntInfo ::: bigIntInfo ::: bigIntInfo ::: fnil)).

(** The field [Sidecar] has the tag [rlp:"-"]. *)
Definition blobTxInfo : typeinfo BlobTx :=
  viewInfo (fun '(c, (n, (tc, (fc, (g, (t, (v, (d, (al, (bf, (bh, (sv, (sr, (ss, _)))))))))))))) =>
              mkBlobTx c n tc fc g t v d al bf bh None sv sr ss)
    (fun tx => (b_ChainID tx, (b_Nonce tx, (b_GasTipCap tx, (b_GasFeeCap tx, (b_Gas tx, (b_To tx, (b_Value tx, (b_Data tx,
       (b_AccessList tx, (b_BlobFeeCap tx, (b_BlobHashes tx, (b_V tx, (b_R tx, (b_S tx, tt)))))))))))))))
    (structInfo (wordInfo ::: uintInfo 64 ::: wordInfo ::: wordInfo ::: uintInfo 64 ::: addressInfo ::: wordInfo
       ::: byteSliceInfo ::: accessListInfo ::: wordInfo ::: sliceInfo hashInfo ::: wordInfo ::: wordInfo ::: wordInfo ::: fnil)).

Definition setCodeTxInfo : typeinfo SetCodeTx :=
  viewInfo (fun '(c, (n, (tc, (fc, (g, (t, (v, (d, (al, (au, (sv, (sr, (ss, _))))))))))))) =>
              mkSetCodeTx c n tc fc g t v d al au sv sr ss)
    (fun tx => (c_ChainID tx, (c_Nonce tx, (c_GasTipCap tx, (c_GasFeeCap tx, (c_Gas tx, (c_To tx, (c_Value tx, (c_Data tx,
       (c_AccessList tx, (c_AuthList tx, (c_V tx, (c_R tx, (c_S tx, tt))))))))))))))
    (structInfo (wordInfo ::: uintInfo 64 ::: wordInfo ::: wordInfo ::: uintInfo 64 ::: addressInfo ::: wordInfo
       ::: byteSliceInfo ::: accessListInfo ::: sliceInfo authInfo ::: wordInfo ::: wordInfo ::: wordInfo ::: fnil)).

(** [type blobTxWithBlobs struct], as the transaction with its sidecar *)
Definition withSidecar (tx : BlobTx) (sc : option BlobTxSidecar) : BlobTx :=
  mkBlobTx (b_ChainID tx) (b_Nonce tx) (b_GasTipCap tx) (b_GasFeeCap tx) (b_Gas tx) (b_To tx) (b_Value tx) (b_Data tx)
    (b_AccessList tx) (b_BlobFeeCap tx) (b_BlobHashes tx) sc (b_V tx) (b_R tx) (b_S tx).
Definition withoutSidecar (tx : BlobTx) : BlobTx := withSidecar tx None.

Definition BlobSize : Z := 131072.
Definition blobTxWithBlobs : Type := option BlobTx * (list bytes * (list bytes * (list bytes * ()))).
Definition blobTxWithBlobsInfo : typeinfo blobTxWithBlobs :=
  structInfo (ptrInfo KList blobTxInfo ::: sliceInfo (byteArrayInfo BlobSize) ::: sliceInfo (byteArrayInfo 48)
    ::: sliceInfo (byteArrayInfo 48) ::: fnil).

(** ** Binary encoding *)

(** [rlp.Encode(w, tx.inner)] *)
Definition encodeInner (t : TxData) : Outcome (bytes + rlperror) :=
  match t with
  | TxLegacy tx => encodeVal legacyInfo tx
  | TxAccessList tx => encodeVal accessListTxInfo tx
  | TxDynamicFee tx => encodeVal dynamicFeeTxInfo tx
  | TxBlob tx => encodeVal blobTxInfo tx
  | TxSetCode tx => encodeVal setCodeTxInfo tx
  end.

(** [tx.inner.encode(w)] *)
Definition encode_ (t : TxData) : Outcome (bytes + rlperror) :=
  match t with
  | TxLegacy _ => Fail PanicExplicit
  | TxBlob tx =>
      match b_Sidecar tx with
      | None => encodeInner t
      | Some sc => encodeVal blobTxWithBlobsInfo (Some tx, (sc_Blobs sc, (sc_Commitments sc, (sc_Proofs sc, tt))))
      end
  | _ => encodeInner t
  end.

(** The bytes written and the error *)
Definition encodeTyped (t : TxData) : Outcome (bytes * option rlperror) :=
  r ← encode_ t;
  Ret (match r with inl b => (txType t :: b, None) | inr e => ([txType t], Some e) end).

Definition MarshalBinary (t : TxData) : Outcome (bytes * option rlperror) :=
  if txType t =? LegacyTxType then
    r ← encodeInner t;
    Ret (match r with inl b => (b, None) | inr e => ([], Some e) end)
  else encodeTyped t.

(** [Transactions.EncodeIndex]: the error is ignored. *)
Definition EncodeIndex (t : TxData) : Outcome bytes := '(b, _) ← MarshalBinary t; Ret b.

(** [func (tx *Transaction) EncodeRLP(w io.Writer) error] into the encoder's buffer *)
Definition tx_EncodeRLP (t : TxData) : W := fun w =>
  if txType t =? LegacyTxType then
    match t with TxLegacy tx => ti_writer legacyInfo tx w | _ => Fail PanicNil end
  else
    '(b, err) ← encodeTyped t;
    match err with Some e => Ret (inr e) | None => writeByteSlice b w end.

Definition mapRes {A B} (f : A -> B) (r : Outcome (A + rlperror)) : Outcome (B + txerror) :=
  r ← r; Ret (match r with inl a => inl (f a) | inr e => inr (errRlp e) end).

(** [func (tx *BlobTx) decode(input []byte) error] *)
Definition decodeBlobTx (input : bytes) : Outcome (TxData + txerror) :=
  r ← SplitList input;
  match r with
  | inr e => Ret (inr (errRlp e))
  | inl (outerList, _) =>
      r ← Split outerList;
      match r with
      | inr e => Ret (inr (errRlp e))
      | inl (firstElemKind, _, _) =>
          if negb (bool_decide (firstElemKind = KList)) then mapRes TxBlob (decodeVal blobTxInfo input)
          else
            r ← decodeVal blobTxWithBlobsInfo input;
            match r with
            | inr e => Ret (inr (errRlp e))
            | inl (Some tx, (blobs, (commitments, (proofs, _)))) =>
                Ret (inl (TxBlob (withSidecar tx (Some (mkSidecar blobs commitments proofs)))))
            | inl (None, _) => Fail PanicNil
            end
      end
  end.

Definition decodeTyped (b : bytes) : Outcome (TxData + txerror) :=
  match b with
  | t :: (_ :: _) as rest =>
      if t =? AccessListTxType then mapRes TxAccessList (decodeVal accessListTxInfo rest)
      else if t =? DynamicFeeTxType then mapRes TxDynamicFee (decodeVal dynamicFeeTxInfo rest)
      else if t =? BlobTxType then decodeBlobTx rest
      else if t =? SetCodeTxType then mapRes TxSetCode (decodeVal setCodeTxInfo rest)
      else Ret (inr ErrTxTypeNotSupported)
  | _ => Ret (inr errShortTypedTx)
  end.

(** The transaction data; [setDecoded] also remembers the size. *)
Definition UnmarshalBinary (b : bytes) : Outcome (TxData + txerror) :=
  match b with
  | b0 :: _ => if 127 <? b0 then mapRes TxLegacy (decodeVal legacyInfo b) else decodeTyped b
  | [] => decodeTyped b
  end.

(** [func (tx *Transaction) DecodeRLP(s *rlp.Stream) error]: the data and the size for [setDecoded];
    [errDecoder] stands for the errors of the package. *)
Definition tx_DecodeRLP : D (TxData * Z) :=
  let! (kind, size) := s_Kind in
  match kind with
  | KList => let! tx := ti_decoder legacyInfo in d_ret (TxLegacy tx, ListSize size)
  | KByte => d_err errDecoder
  | KString =>
      if MaxUint64 / 2 <? size then d_err errDecoder
      else
        let! b := ReadBytes size in
        r ← st_lift (decodeTyped b);
        match r with
        | inl tx => d_ret (tx, size)
        | inr (errRlp e) => d_err e
        | inr _ => d_err errDecoder
        end
  end.

Definition txInfo : typeinfo TxData := mkInfo (let! (tx, _) := tx_DecodeRLP in d_ret tx) tx_EncodeRLP.
End transactions.
