(* ===== verification/TxSigning.v ===== *)
(** * Signatures and caches of transactions ([core/types/transaction_signing.go], [transaction.go])

    The signers of the forks, the hash that is signed, recovering the sender, and the methods of
    [Transaction] that cache their result.  The operations on the curve ([crypto.Sign],
    [crypto.Ecrecover]) and SHA-256 are parameters.  The message of a transaction
    ([core.TransactionToMessage]) is at the end. *)

From S2P Require Import Prelude Bytes Uint256 Params Rlp RlpStream RlpTypes VM ChainConfig StateTransition Transactions.

Set Default Proof Using "Type".

(** ** Signers *)

Inductive Signer :=
  | FrontierSigner
  | HomesteadSigner
  | EIP155Signer (chainId chainIdMul : Z)
  | modernSigner (txtypes : gset Z) (chainID : Z) (legacy : Signer).

Definition forks_Homestead : Z := 2.
Definition forks_SpuriousDragon : Z := 5.
Definition forks_Berlin : Z := 11.
Definition forks_London : Z := 12.
Definition forks_Cancun : Z := 17.
Definition forks_Prague : Z := 18.

Definition NewEIP155Signer (chainId : option Z) : Signer :=
  let chainId := default 0 chainId in EIP155Signer chainId (chainId * 2).

Definition newModernSigner (chainID : option Z) (fork : Z) : Outcome Signer :=
  match chainID with
  | None => Fail PanicExplicit
  | Some id =>
      if id <=? 0 then Fail PanicExplicit
      else
        let legacy := if forks_SpuriousDragon <=? fork then NewEIP155Signer chainID
                      else if forks_Homestead <=? fork then HomesteadSigner else FrontierSigner in
        let txtypes : gset Z := {[ LegacyTxType ]} in
        let txtypes := if forks_Berlin <=? fork then {[ AccessListTxType ]} ∪ txtypes else txtypes in
        let txtypes := if forks_London <=? fork then {[ DynamicFeeTxType ]} ∪ txtypes else txtypes in
        let txtypes := if forks_Cancun <=? fork then {[ BlobTxType ]} ∪ txtypes else txtypes in
        let txtypes := if forks_Prague <=? fork then {[ SetCodeTxType ]} ∪ txtypes else txtypes in
        Ret (modernSigner txtypes id legacy)
  end.

Definition NewPragueSigner (chainId : option Z) : Outcome Signer := newModernSigner chainId forks_Prague.
Definition NewCancunSigner (chainId : option Z) : Outcome Signer := newModernSigner chainId forks_Cancun.
Definition NewLondonSigner (chainId : option Z) : Outcome Signer := newModernSigner chainId forks_London.
Definition NewEIP2930Signer (chainId : option Z) : Outcome Signer := newModernSigner chainId forks_Berlin.

Definition MakeSigner (config : ChainConfig) (blockNumber : option Z) (blockTime : Z) : Outcome Signer :=
  if Config.IsPrague config blockNumber blockTime then NewPragueSigner (config_ChainID_ config)
  else if Config.IsCancun config blockNumber blockTime then NewCancunSigner (config_ChainID_ config)
  else if Config.IsLondon config blockNumber then NewLondonSigner (config_ChainID_ config)
  else if Config.IsBerlin config blockNumber then NewEIP2930Signer (config_ChainID_ config)
  else if Config.IsEIP155 config blockNumber then Ret (NewEIP155Signer (config_ChainID_ config))
  else if Config.IsHomestead config blockNumber then Ret HomesteadSigner
  else Ret FrontierSigner.

(** [p != nil] *)
Definition set {A} (o : option A) : bool := match o with Some _ => true | None => false end.

Definition LatestSigner (config : ChainConfig) : Outcome Signer :=
  let chainID := config_ChainID_ config in
  if set chainID then
    if set (PragueTime config) then NewPragueSigner chainID
    else if set (CancunTime config) then NewCancunSigner chainID
    else if set (LondonBlock config) then NewLondonSigner chainID
    else if set (BerlinBlock config) then NewEIP2930Signer chainID
    else if set (EIP155Block config) then Ret (NewEIP155Signer chainID)
    else Ret HomesteadSigner
  else Ret HomesteadSigner.

Definition LatestSignerForChainID (chainID : option Z) : Outcome Signer :=
  if set chainID then NewPragueSigner chainID else Ret HomesteadSigner.

Definition signer_ChainID (s : Signer) : option Z :=
  match s with EIP155Signer id _ => Some id | modernSigner _ id _ => Some id | _ => None end.

Fixpoint signer_Equal (s s2 : Signer) : bool :=
  match s, s2 with
  | FrontierSigner, FrontierSigner => true
  | HomesteadSigner, HomesteadSigner => true
  | EIP155Signer id _, EIP155Signer id2 _ => id2 =? id
  | modernSigner ts id l, modernSigner ts2 id2 l2 => (id =? id2) && bool_decide (ts = ts2) && signer_Equal l l2
  | _, _ => false
  end.

Definition supportsType (txtypes : gset Z) (txtype : Z) : bool := bool_decide (txtype ∈ txtypes).

(** ** Signature values *)

Definition SignatureLength : Z := 65.

(** [R, S, V] of a signature in the format R || S || V; a byte wraps around. *)
Definition decodeSignature (sig : bytes) : Outcome (Z * Z * Z) :=
  if negb (len sig =? SignatureLength) then Fail PanicExplicit
  else
    r ← slice sig 0 32; s ← slice sig 32 64; v ← index sig 64;
    Ret (be_val r, be_val s, be_val [u8 (v + 27)]).

(** [big.Int.Bytes] *)
Definition bigBytes (v : Z) : bytes := be_bytes (Z.to_nat ((bitLen v + 7) / 8)) (Z.abs v).

(** [copy(sig[n-len(r):n], r)] into 32 zero bytes *)
Definition padded32 (r : bytes) : Outcome bytes :=
  if len r <=? 32 then Ret (zreplicate (32 - len r) 0 ++ r) else Fail PanicIndex.

Section signing.
Context `{U : Uint256} `{C : Crypto}.
Context (Ecrecover : Hash -> bytes -> option bytes).

Definition recoverPlain (sighash : Hash) (R S Vb : Z) (homestead : bool) : Outcome (Address + txerror) :=
  if 8 <? bitLen Vb then Ret (inr ErrInvalidSig)
  else
    let V := u8 (bigUint64 Vb -! 27) in
    if negb (ValidateSignatureValues V R S homestead) then Ret (inr ErrInvalidSig)
    else
      r ← padded32 (bigBytes R); s ← padded32 (bigBytes S);
      match Ecrecover sighash (r ++ s ++ [V]) with
      | None => Ret (inr errEcrecover)
      | Some pub =>
          if negb (bool_decide (head pub = Some 4)) then Ret (inr errInvalidPublicKey)
          else Ret (inl (Keccak256 (drop 1 pub) mod 2 ^ 160))
      end.

(** ** Hashes *)

(** [rlpHash] and [prefixedRlpHash]: the hasher gets nothing of a value that cannot be encoded. *)
Definition written (r : bytes + rlperror) : bytes := match r with inl b => b | inr _ => [] end.
Definition rlpHash (x : Outcome (bytes + rlperror)) : Outcome Hash := r ← x; Ret (Keccak256 (written r)).
Definition prefixedRlpHash (prefix : Z) (x : Outcome (bytes + rlperror)) : Outcome Hash :=
  r ← x; Ret (Keccak256 (prefix :: written r)).

(** The elements of a [[]any] *)
Definition aUint (v : Z) : W := ti_writer (uintInfo 64) v.
Definition aBig (v : Z) : W := ti_writer bigIntPtrInfo (Some v).
Definition aWord (w : word) : W := ti_writer wordInfo w.
Definition aTo (t : option Address) : W := ti_writer (ptrInfo KString addressInfo) t.
Definition aData (d : bytes) : W := ti_writer byteSliceInfo d.

Definition frontierHash (t : TxData) : Outcome Hash :=
  rlpHash (encodeAny [aUint (nonce t); aBig (gasPrice t); aUint (gas t); aTo (to_ t); aBig (value t); aData (data t)]).

(** [tx.inner.sigHash(chainID)] *)
Definition LegacyTx_sigHash (tx : LegacyTx) (chainID : Z) : Outcome Hash :=
  rlpHash (encodeAny [aUint (l_Nonce tx); aBig (l_GasPrice tx); aUint (l_Gas tx); aTo (l_To tx); aBig (l_Value tx);
    aData (l_Data tx); aBig chainID; aUint 0; aUint 0]).

Definition AccessListTx_sigHash (tx : AccessListTx) (chainID : Z) : Outcome Hash :=
  prefixedRlpHash AccessListTxType (encodeAny [aBig chainID; aUint (a_Nonce tx); aBig (a_GasPrice tx); aUint (a_Gas tx);
    aTo (a_To tx); aBig (a_Value tx); aData (a_Data tx); ti_writer accessListInfo (a_AccessList tx)]).

Definition DynamicFeeTx_sigHash (tx : DynamicFeeTx) (chainID : Z) : Outcome Hash :=
  prefixedRlpHash DynamicFeeTxType (encodeAny [aBig chainID; aUint (d_Nonce tx); aBig (d_GasTipCap tx);
    aBig (d_GasFeeCap tx); aUint (d_Gas tx); aTo (d_To tx); aBig (d_Value tx); aData (d_Data tx);
    ti_writer accessListInfo (d_AccessList tx)]).

Definition BlobTx_sigHash (tx : BlobTx) (chainID : Z) : Outcome Hash :=
  prefixedRlpHash BlobTxType (encodeAny [aBig chainID; aUint (b_Nonce tx); aWord (b_GasTipCap tx);
    aWord (b_GasFeeCap tx); aUint (b_Gas tx); ti_writer addressInfo (b_To tx); aWord (b_Value tx); aData (b_Data tx);
    ti_writer accessListInfo (b_AccessList tx); aWord (b_BlobFeeCap tx); ti_writer (sliceInfo hashInfo) (b_BlobHashes tx)]).

Definition SetCodeTx_sigHash (tx : SetCodeTx) (chainID : Z) : Outcome Hash :=
  prefixedRlpHash SetCodeTxType (encodeAny [aBig chainID; aUint (c_Nonce tx); aWord (c_GasTipCap tx);
    aWord (c_GasFeeCap tx); aUint (c_Gas tx); ti_writer addressInfo (c_To tx); aWord (c_Value tx); aData (c_Data tx);
    ti_writer accessListInfo (c_AccessList tx); ti_writer (sliceInfo authInfo) (c_AuthList tx)]).

Definition tx_sigHash (t : TxData) (chainID : Z) : Outcome Hash :=
  match t with
  | TxLegacy tx => LegacyTx_sigHash tx chainID
  | TxAccessList tx => AccessListTx_sigHash tx chainID
  | TxDynamicFee tx => DynamicFeeTx_sigHash tx chainID
  | TxBlob tx => BlobTx_sigHash tx chainID
  | TxSetCode tx => SetCodeTx_sigHash tx chainID
  end.

Definition signer_Hash (s : Signer) (t : TxData) : Outcome Hash :=
  match s with
  | FrontierSigner | HomesteadSigner => frontierHash t
  | EIP155Signer id _ => tx_sigHash t id
  | modernSigner _ id _ => tx_sigHash t id
  end.

Definition Protected (t : TxData) : bool :=
  match t with TxLegacy tx => isProtectedV (l_V tx) | _ => true end.

Definition FrontierSigner_Sender (t : TxData) : Outcome (Address + txerror) :=
  if negb (txType t =? LegacyTxType) then Ret (inr ErrTxTypeNotSupported)
  else let '(v, r, s) := rawSignatureValues t in h ← frontierHash t; recoverPlain h r s v false.

Definition HomesteadSigner_Sender (t : TxData) : Outcome (Address + txerror) :=
  if negb (txType t =? LegacyTxType) then Ret (inr ErrTxTypeNotSupported)
  else let '(v, r, s) := rawSignatureValues t in h ← frontierHash t; recoverPlain h r s v true.

Definition EIP155Signer_Sender (chainId chainIdMul : Z) (t : TxData) : Outcome (Address + txerror) :=
  if negb (txType t =? LegacyTxType) then Ret (inr ErrTxTypeNotSupported)
  else if negb (Protected t) then HomesteadSigner_Sender t
  else if negb (chainID t =? chainId) then Ret (inr ErrInvalidChainId)
  else
    let '(V, R, S_) := rawSignatureValues t in
    let V := V - chainIdMul - 8 in
    h ← tx_sigHash t chainId; recoverPlain h R S_ V true.

Fixpoint signer_Sender (s : Signer) (t : TxData) : Outcome (Address + txerror) :=
  match s with
  | FrontierSigner => FrontierSigner_Sender t
  | HomesteadSigner => HomesteadSigner_Sender t
  | EIP155Signer id mul => EIP155Signer_Sender id mul t
  | modernSigner txtypes id legacy =>
      if negb (supportsType txtypes (txType t)) then Ret (inr ErrTxTypeNotSupported)
      else if txType t =? LegacyTxType then signer_Sender legacy t
      else if negb (chainID t =? id) then Ret (inr ErrInvalidChainId)
      else
        let '(V, R, S_) := rawSignatureValues t in
        let V := V + 27 in
        h ← tx_sigHash t id; recoverPlain h R S_ V true
  end.

(** [R, S, V] *)
Definition FrontierSigner_SignatureValues (t : TxData) (sig : bytes) : Outcome ((Z * Z * Z) + txerror) :=
  if negb (txType t =? LegacyTxType) then Ret (inr ErrTxTypeNotSupported)
  else rsv ← decodeSignature sig; Ret (inl rsv).

Definition EIP155Signer_SignatureValues (chainId chainIdMul : Z) (t : TxData) (sig : bytes) : Outcome ((Z * Z * Z) + txerror) :=
  if negb (txType t =? LegacyTxType) then Ret (inr ErrTxTypeNotSupported)
  else
    '(R, S_, V) ← decodeSignature sig;
    if negb (Z.sgn chainId =? 0) then v ← index sig 64; Ret (inl (R, S_, u8 (v + 35) + chainIdMul))
    else Ret (inl (R, S_, V)).

Fixpoint SignatureValues (s : Signer) (t : TxData) (sig : bytes) : Outcome ((Z * Z * Z) + txerror) :=
  match s with
  | FrontierSigner | HomesteadSigner => FrontierSigner_SignatureValues t sig
  | EIP155Signer id mul => EIP155Signer_SignatureValues id mul t sig
  | modernSigner txtypes id legacy =>
      if negb (supportsType txtypes (txType t)) then Ret (inr ErrTxTypeNotSupported)
      else if txType t =? LegacyTxType then SignatureValues legacy t sig
      else if negb (Z.sgn (chainID t) =? 0) && negb (chainID t =? id) then Ret (inr ErrInvalidChainId)
      else
        '(R, S_, _) ← decodeSignature sig;
        V ← index sig 64;
        Ret (inl (R, S_, V))
  end.

(** ** Transactions and their caches *)

(** [type Transaction struct] without the time it was first seen; a size of zero is not set. *)
Record Transaction := mkTx { inner : TxData; tx_hash : option Hash; tx_size : Z; tx_from : option (Signer * Address) }.

Definition with_hash (h : Hash) (tx : Transaction) : Transaction := mkTx (inner tx) (Some h) (tx_size tx) (tx_from tx).
Definition with_size (n : Z) (tx : Transaction) : Transaction := mkTx (inner tx) (tx_hash tx) n (tx_from tx).
Definition with_from (f : Signer * Address) (tx : Transaction) : Transaction := mkTx (inner tx) (tx_hash tx) (tx_size tx) (Some f).

Definition setDecoded (t : TxData) (size : Z) (tx : Transaction) : Transaction :=
  mkTx t (tx_hash tx) (if 0 <? size then size else tx_size tx) (tx_from tx).

(** [NewTx]: [copy] gives equal data. *)
Definition freshTx (t : TxData) (size : Z) : Transaction := setDecoded t size (mkTx t None 0 None).
Definition NewTx (t : TxData) : Transaction := freshTx t 0.

(** [new(Transaction).UnmarshalBinary(b)] *)
Definition decodeTx (b : bytes) : Outcome (Transaction + txerror) :=
  r ← UnmarshalBinary b;
  Ret (match r with inl t => inl (freshTx t (len b)) | inr e => inr e end).

Definition hashOf (t : TxData) : Outcome Hash :=
  if txType t =? LegacyTxType then rlpHash (encodeInner t) else prefixedRlpHash (txType t) (encodeInner t).

Definition tx_Hash : ST Transaction Hash :=
  tx ← st_get;
  match tx_hash tx with
  | Some h => mret h
  | None => h ← st_lift (hashOf (inner tx)); st_modify (with_hash h);; mret h
  end.

Definition tx_BlobTxSidecar (t : TxData) : option BlobTxSidecar := match t with TxBlob tx => b_Sidecar tx | _ => None end.

(** [func (sc *BlobTxSidecar) encodedSize() uint64] *)
Definition sumSizes (l : list bytes) : Z := fold_left (fun n b => n +! BytesSize b) l 0.
Definition encodedSize (sc : BlobTxSidecar) : Z :=
  ListSize (sumSizes (sc_Blobs sc)) +! ListSize (sumSizes (sc_Commitments sc)) +! ListSize (sumSizes (sc_Proofs sc)).

(** What [Size] computes on a cache miss: the bytes that [rlp.Encode] writes are counted. *)
Definition sizeOf (t : TxData) : Outcome Z :=
  r ← encodeInner t;
  let size := len (written r) in
  let size := match tx_BlobTxSidecar t with Some sc => size +! ListSize (encodedSize sc) | None => size end in
  Ret (if negb (txType t =? LegacyTxType) then size +! 1 else size).

Definition tx_Size : ST Transaction Z :=
  tx ← st_get;
  if 0 <? tx_size tx then mret (tx_size tx)
  else size ← st_lift (sizeOf (inner tx)); st_modify (with_size size);; mret size.

(** [func Sender(signer Signer, tx *Transaction) (common.Address, error)] *)
Definition Sender (signer : Signer) : ST Transaction (Address + txerror) :=
  tx ← st_get;
  match tx_from tx with
  | Some (s, from) =>
      if signer_Equal s signer then mret (inl from)
      else
        r ← st_lift (signer_Sender signer (inner tx));
        match r with inl addr => st_modify (with_from (signer, addr));; mret (inl addr) | inr e => mret (inr e) end
  | None =>
      r ← st_lift (signer_Sender signer (inner tx));
      match r with inl addr => st_modify (with_from (signer, addr));; mret (inl addr) | inr e => mret (inr e) end
  end.

(** A copy with another sidecar keeps the hash and the sender, not the size. *)
Definition WithoutBlobTxSidecar (tx : Transaction) : Transaction :=
  match inner tx with
  | TxBlob b => mkTx (TxBlob (withoutSidecar b)) (tx_hash tx) 0 (tx_from tx)
  | _ => tx
  end.
Definition WithBlobTxSidecar (sideCar : option BlobTxSidecar) (tx : Transaction) : Transaction :=
  match inner tx with
  | TxBlob b => mkTx (TxBlob (withSidecar b sideCar)) (tx_hash tx) 0 (tx_from tx)
  | _ => tx
  end.

Definition WithSignature (signer : Signer) (sig : bytes) (tx : Transaction) : Outcome (Transaction + txerror) :=
  r ← SignatureValues signer (inner tx) sig;
  match r with
  | inr e => Ret (inr e)
  | inl (r, s, v) =>
      cpy ← setSignatureValues (signer_ChainID signer) v r s (inner tx);
      Ret (inl (mkTx cpy None 0 None))
  end.

Section sign.
Context {Key : Type} (Sign : Hash -> Key -> option bytes).

Definition SignTx (tx : Transaction) (s : Signer) (prv : Key) : Outcome (Transaction + txerror) :=
  h ← signer_Hash s (inner tx);
  match Sign h prv with
  | None => Ret (inr errSign)
  | Some sig => WithSignature s sig tx
  end.

Definition SignNewTx (prv : Key) (s : Signer) (txdata : TxData) : Outcome (Transaction + txerror) := SignTx (NewTx txdata) s prv.

Definition MustSignNewTx (prv : Key) (s : Signer) (txdata : TxData) : Outcome Transaction :=
  r ← SignNewTx prv s txdata;
  match r with inl tx => Ret tx | inr _ => Fail PanicExplicit end.

Definition SignSetCode (prv : Key) (auth : SetCodeAuthorization) : Outcome (SetCodeAuthorization + txerror) :=
  sighash ← sigHash auth;
  match Sign sighash prv with
  | None => Ret (inr errSign)
  | Some sig =>
      '(r, s, _) ← decodeSignature sig;
      v ← index sig 64;
      if FromBigOverflow r || FromBigOverflow s then Fail PanicExplicit
      else Ret (inl (mkAuth (auth_ChainID auth) (auth_Address auth) (auth_Nonce auth) v (FromBig r) (FromBig s)))
  end.
End sign.

Definition sanityCheckSignature (v r s : Z) (maybeProtected : bool) : option txerror :=
  if isProtectedV v && negb maybeProtected then Some ErrUnexpectedProtection
  else
    let plainV :=
      if isProtectedV v then u8 (bigUint64 v -! 35 -! (2 *! bigUint64 (deriveChainId v)))
      else if maybeProtected then u8 (bigUint64 v -! 27)
      else u8 (bigUint64 v) in
    if negb (ValidateSignatureValues plainV r s false) then Some ErrInvalidSig else None.

(** ** Fees *)

Definition blobGas (tx : BlobTx) : Z := BlobTxBlobGasPerBlob *! len (b_BlobHashes tx).
Definition tx_BlobGas (t : TxData) : Z := match t with TxBlob tx => blobGas tx | _ => 0 end.
Definition tx_BlobGasFeeCap (t : TxData) : option Z := match t with TxBlob tx => Some (uval (b_BlobFeeCap tx)) | _ => None end.
Definition tx_BlobHashes (t : TxData) : option (list Hash) := match t with TxBlob tx => Some (b_BlobHashes tx) | _ => None end.
Definition tx_SetCodeAuthorizations (t : TxData) : option (list SetCodeAuthorization) :=
  match t with TxSetCode tx => Some (c_AuthList tx) | _ => None end.

Definition Cost (t : TxData) : Z :=
  let total := gasPrice t * gas t in
  let total := match t with TxBlob tx => total + uval (b_BlobFeeCap tx) * blobGas tx | _ => total end in
  total + value t.

(** The tip, and the error *)
Definition EffectiveGasTip (t : TxData) (baseFee : option Z) : Z * option txerror :=
  match baseFee with
  | None => (gasTipCap t, None)
  | Some baseFee =>
      let err := if gasFeeCap t <? baseFee then Some ErrGasFeeCapTooLow else None in
      let dst := gasFeeCap t - baseFee in
      (if gasTipCap t <? dst then gasTipCap t else dst, err)
  end.

Definition EffectiveGasTipCmp (t other : TxData) (baseFee : option Z) : comparison :=
  match baseFee with
  | None => gasTipCap t ?= gasTipCap other
  | Some _ => (EffectiveGasTip t baseFee).1 ?= (EffectiveGasTip other baseFee).1
  end.

Definition EffectiveGasTipIntCmp (t : TxData) (other : Z) (baseFee : option Z) : comparison :=
  match baseFee with
  | None => gasTipCap t ?= other
  | Some _ => (EffectiveGasTip t baseFee).1 ?= other
  end.

(** ** Authorities and blob hashes *)

Fixpoint authorities (l : list SetCodeAuthorization) (marks : gset Address) (auths : list Address) : Outcome (list Address) :=
  match l with
  | [] => Ret auths
  | auth :: l =>
      r ← Authority Ecrecover auth;
      match r with
      | Some addr =>
          if bool_decide (addr ∈ marks) then authorities l marks auths
          else authorities l ({[ addr ]} ∪ marks) (auths ++ [addr])
      | None => authorities l marks auths
      end
  end.
Definition SetCodeAuthorities (t : TxData) : Outcome (list Address) :=
  match t with TxSetCode tx => authorities (c_AuthList tx) ∅ [] | _ => Ret [] end.

Section blobs.
Context (sha256 : bytes -> Hash).

(** [kzg4844.CalcBlobHashV1] *)
Definition CalcBlobHashV1 (commit : bytes) : Hash := 2 ^ 248 + sha256 commit mod 2 ^ 248.

(** [func (sc *BlobTxSidecar) BlobHashes() []common.Hash]: one hash per commitment, computed for as many
    as there are blobs *)
Definition sc_BlobHashes (sc : BlobTxSidecar) : Outcome (list Hash) :=
  if len (sc_Commitments sc) <? len (sc_Blobs sc) then Fail PanicIndex
  else Ret (imap (fun i c => if Z.of_nat i <? len (sc_Blobs sc) then CalcBlobHashV1 c else 0) (sc_Commitments sc)).

Fixpoint checkCommitments (i : nat) (hashes : list Hash) (commitments : list bytes) : Outcome (option txerror) :=
  match hashes, commitments with
  | [], _ => Ret None
  | vhash :: hashes, c :: commitments =>
      if negb (vhash =? CalcBlobHashV1 c) then Ret (Some (errBlobHash i)) else checkCommitments (S i) hashes commitments
  | _ :: _, [] => Fail PanicIndex
  end.
Definition ValidateBlobCommitmentHashes (sc : BlobTxSidecar) (hashes : list Hash) : Outcome (option txerror) :=
  if negb (len (sc_Commitments sc) =? len hashes) then Ret (Some errCommitmentCount)
  else checkCommitments 0 hashes (sc_Commitments sc).
End blobs.

(** ** Messages ([core/state_transition.go]) *)

Definition TransactionToMessage (s : Signer) (baseFee : option Z) : ST Transaction (Message * option txerror) :=
  t ← st_gets inner;
  let price := match baseFee with
               | None => gasPrice t
               | Some baseFee => let p := gasTipCap t + baseFee in if gasFeeCap t <? p then gasFeeCap t else p
               end in
  r ← Sender s;
  let '(from, err) := match r with inl a => (a, None) | inr e => (0, Some e) end in
  mret (mkMessage (to_ t) from (nonce t) (value t) (gas t) price (Some (gasFeeCap t)) (Some (gasTipCap t))
          (data t) (accessList t) (tx_BlobGasFeeCap t) (tx_BlobHashes t) (tx_SetCodeAuthorizations t) false false, err).
End signing.
