(* ===== verification/TxCodec.v ===== *)
(** * Encoding of transactions

    The RLP types of the transactions and of their parts, in both directions: the encoding of a
    well-formed value is the RLP item written out here, and a decoder accepts nothing else.  The binary
    encoding [MarshalBinary] and its inverse [UnmarshalBinary] follow. *)

From S2P Require Import Prelude Bytes Uint256 Params Rlp RlpTheorems RlpStream RlpTypes RlpCodec RlpCanon VM StateTransition Transactions.

Set Default Proof Using "Type*".

Lemma exact_iff {A} (i : typeinfo A) (ok ok' : A -> Prop) (it it' : A -> item) : Exact i ok it ->
  (forall v, ok' v <-> ok v) -> (forall v, ok v -> it' v = it v) -> Exact i ok' it'.
Proof.
  intros [H1 H2] Hok Hit. split.
  - eapply codec_weaken; [done|]. intros v Hv. apply Hok in Hv. split; [done|]. by apply Hit.
  - eapply canon_weaken; [done|]. intros v Hv. split; [by apply Hok|]. by apply Hit.
Qed.

Section codec.
Context `{U : Uint256} {US : Uint256Spec U}.

(** ** Items *)

Definition iUint (v : Z) : item := Str (intBytes v).
Definition iBig (v : Z) : item := Str (minBytes v).
Definition iWord (w : word) : item := Str (minBytes (uval w)).
Definition iAddr (a : Address) : item := Str (Address_Bytes a).
Definition iHash (h : Hash) : item := Str (Hash_Bytes h).
Definition iTo (t : option Address) : item := match t with Some a => iAddr a | None => Str [] end.
Definition iTuple (t : Address * list Hash) : item := Lst [iAddr t.1; Lst (iHash <$> t.2)].
Definition iAccess (l : AccessList) : item := Lst (iTuple <$> l).
Definition iAuth (a : SetCodeAuthorization) : item :=
  Lst [iWord (auth_ChainID a); iAddr (auth_Address a); iUint (auth_Nonce a); iUint (auth_V a); iWord (auth_R a); iWord (auth_S a)].

Definition iLegacy (tx : LegacyTx) : item :=
  Lst [iUint (l_Nonce tx); iBig (l_GasPrice tx); iUint (l_Gas tx); iTo (l_To tx); iBig (l_Value tx); Str (l_Data tx);
       iBig (l_V tx); iBig (l_R tx); iBig (l_S tx)].
Definition iAccessListTx (tx : AccessListTx) : item :=
  Lst [iBig (a_ChainID tx); iUint (a_Nonce tx); iBig (a_GasPrice tx); iUint (a_Gas tx); iTo (a_To tx); iBig (a_Value tx);
       Str (a_Data tx); iAccess (a_AccessList tx); iBig (a_V tx); iBig (a_R tx); iBig (a_S tx)].
Definition iDynamicFeeTx (tx : DynamicFeeTx) : item :=
  Lst [iBig (d_ChainID tx); iUint (d_Nonce tx); iBig (d_GasTipCap tx); iBig (d_GasFeeCap tx); iUint (d_Gas tx); iTo (d_To tx);
       iBig (d_Value tx); Str (d_Data tx); iAccess (d_AccessList tx); iBig (d_V tx); iBig (d_R tx); iBig (d_S tx)].
Definition iBlobTx (tx : BlobTx) : item :=
  Lst [iWord (b_ChainID tx); iUint (b_Nonce tx); iWord (b_GasTipCap tx); iWord (b_GasFeeCap tx); iUint (b_Gas tx);
       iAddr (b_To tx); iWord (b_Value tx); Str (b_Data tx); iAccess (b_AccessList tx); iWord (b_BlobFeeCap tx);
       Lst (iHash <$> b_BlobHashes tx); iWord (b_V tx); iWord (b_R tx); iWord (b_S tx)].
Definition iSetCodeTx (tx : SetCodeTx) : item :=
  Lst [iWord (c_ChainID tx); iUint (c_Nonce tx); iWord (c_GasTipCap tx); iWord (c_GasFeeCap tx); iUint (c_Gas tx);
       iAddr (c_To tx); iWord (c_Value tx); Str (c_Data tx); iAccess (c_AccessList tx); Lst (iAuth <$> c_AuthList tx);
       iWord (c_V tx); iWord (c_R tx); iWord (c_S tx)].

(** ** Well-formed data *)

Definition addr_ok (a : Address) : Prop := 0 <= a < 2 ^ 160.
Definition hash_ok (h : Hash) : Prop := 0 <= h < two256.
Definition to_ok (t : option Address) : Prop := match t with Some a => addr_ok a | None => True end.
Definition tuple_ok (t : Address * list Hash) : Prop := addr_ok t.1 /\ Forall hash_ok t.2.
Definition access_ok (l : AccessList) : Prop := Forall tuple_ok l.
Definition auth_ok (a : SetCodeAuthorization) : Prop := addr_ok (auth_Address a) /\ is_u64 (auth_Nonce a) /\ is_byte (auth_V a).

Definition legacy_ok (tx : LegacyTx) : Prop :=
  is_u64 (l_Nonce tx) /\ 0 <= l_GasPrice tx /\ is_u64 (l_Gas tx) /\ to_ok (l_To tx) /\ 0 <= l_Value tx /\
  Forall is_byte (l_Data tx) /\ 0 <= l_V tx /\ 0 <= l_R tx /\ 0 <= l_S tx.
Definition accessListTx_ok (tx : AccessListTx) : Prop :=
  0 <= a_ChainID tx /\ is_u64 (a_Nonce tx) /\ 0 <= a_GasPrice tx /\ is_u64 (a_Gas tx) /\ to_ok (a_To tx) /\ 0 <= a_Value tx /\
  Forall is_byte (a_Data tx) /\ access_ok (a_AccessList tx) /\ 0 <= a_V tx /\ 0 <= a_R tx /\ 0 <= a_S tx.
Definition dynamicFeeTx_ok (tx : DynamicFeeTx) : Prop :=
  0 <= d_ChainID tx /\ is_u64 (d_Nonce tx) /\ 0 <= d_GasTipCap tx /\ 0 <= d_GasFeeCap tx /\ is_u64 (d_Gas tx) /\ to_ok (d_To tx) /\
  0 <= d_Value tx /\ Forall is_byte (d_Data tx) /\ access_ok (d_AccessList tx) /\ 0 <= d_V tx /\ 0 <= d_R tx /\ 0 <= d_S tx.
Definition sidecar_ok (sc : BlobTxSidecar) : Prop :=
  Forall (fun b => Forall is_byte b /\ len b = BlobSize) (sc_Blobs sc) /\
  Forall (fun b => Forall is_byte b /\ len b = 48) (sc_Commitments sc) /\
  Forall (fun b => Forall is_byte b /\ len b = 48) (sc_Proofs sc).
Definition blobCore_ok (tx : BlobTx) : Prop :=
  is_u64 (b_Nonce tx) /\ is_u64 (b_Gas tx) /\ addr_ok (b_To tx) /\ Forall is_byte (b_Data tx) /\ access_ok (b_AccessList tx) /\
  Forall hash_ok (b_BlobHashes tx).
Definition setCodeTx_ok (tx : SetCodeTx) : Prop :=
  is_u64 (c_Nonce tx) /\ is_u64 (c_Gas tx) /\ addr_ok (c_To tx) /\ Forall is_byte (c_Data tx) /\ access_ok (c_AccessList tx) /\
  Forall auth_ok (c_AuthList tx).

Definition data_ok (t : TxData) : Prop :=
  match t with
  | TxLegacy tx => legacy_ok tx
  | TxAccessList tx => accessListTx_ok tx
  | TxDynamicFee tx => dynamicFeeTx_ok tx
  | TxBlob tx => blobCore_ok tx /\ match b_Sidecar tx with Some sc => sidecar_ok sc | None => True end
  | TxSetCode tx => setCodeTx_ok tx
  end.

(** ** The types *)

Lemma to_exact : Exact toInfo to_ok iTo.
Proof.
  eapply exact_iff; [apply (nilPtr_exact KString); [done|apply address_exact]|..].
  - intros [a|]; [|done]. cbn. unfold addr_ok. split; [|tauto]. intros Ha. split; [done|]. split; [|done].
    intros [= E].
  - intros [a|]; done.
Qed.

Lemma uint64_exact : Exact (uintInfo 64) is_u64 iUint.
Proof. eapply exact_iff; [by apply uint_exact|done|done]. Qed.
Lemma uint8_exact : Exact (uintInfo 8) is_byte iUint.
Proof. eapply exact_iff; [by apply uint_exact|done|done]. Qed.
Lemma big_exact : Exact bigIntInfo (fun v => 0 <= v) iBig.
Proof. apply bigInt_exact. Qed.
Lemma addr_exact : Exact addressInfo addr_ok iAddr.
Proof. apply address_exact. Qed.
Lemma hash_exact' : Exact hashInfo hash_ok iHash.
Proof. apply hash_exact. Qed.

Lemma word_exact : Exact wordInfo (fun _ => True) iWord.
Proof.
  eapply view_exact; [apply u256_exact|..].
  - intros w _. split; [apply uval_range|]. split; [|done]. apply uval_inj. rewrite FromBig_spec. apply Z.mod_small, uval_range.
  - intros z Hz. split; [done|]. rewrite FromBig_spec. by apply Z.mod_small.
Qed.

#[local] Hint Resolve to_exact uint64_exact uint8_exact big_exact addr_exact hash_exact' word_exact : rlp.

(** The fields of a struct one by one, then the record and its tuple of fields *)
Ltac record_exact :=
  unfold tuple_ok, auth_ok, legacy_ok, accessListTx_ok, dynamicFeeTx_ok, blobCore_ok, setCodeTx_ok;
  eapply view_exact; [apply struct_exact; repeat (apply fe_req; [eauto with rlp|]); apply fe_nil|..];
  [intros []; cbn; intros H; destruct_and? H; subst; split_and!; done
  |intros a H; repeat (lazymatch type of a with (_ * _)%type => destruct a as [? a] end); destruct a; cbn in *; destruct_and? H; split_and!; done].

Lemma tuple_exact : Exact accessTupleInfo tuple_ok iTuple.
Proof. record_exact. Qed.
#[local] Hint Resolve tuple_exact : rlp.
Lemma access_exact : Exact accessListInfo access_ok iAccess.
Proof. apply slice_exact, tuple_exact. Qed.
#[local] Hint Resolve access_exact : rlp.
Lemma auth_exact : Exact authInfo auth_ok iAuth.
Proof. record_exact. Qed.
#[local] Hint Resolve auth_exact : rlp.

Lemma legacy_exact : Exact legacyInfo legacy_ok iLegacy.
Proof. record_exact. Qed.
Lemma accessListTx_exact : Exact accessListTxInfo accessListTx_ok iAccessListTx.
Proof. record_exact. Qed.
Lemma dynamicFeeTx_exact : Exact dynamicFeeTxInfo dynamicFeeTx_ok iDynamicFeeTx.
Proof. record_exact. Qed.
Lemma blobTx_exact : Exact blobTxInfo (fun tx => blobCore_ok tx /\ b_Sidecar tx = None) iBlobTx.
Proof. record_exact. Qed.
Lemma setCodeTx_exact : Exact setCodeTxInfo setCodeTx_ok iSetCodeTx.
Proof. record_exact. Qed.

Definition iSidecar (tx : BlobTx) (blobs commitments proofs : list bytes) : item :=
  Lst [iBlobTx tx; Lst (Str <$> blobs); Lst (Str <$> commitments); Lst (Str <$> proofs)].
Definition withBlobs_ok (v : blobTxWithBlobs) : Prop :=
  match v with
  | (Some tx, (bs, (cs, (ps, _)))) => (blobCore_ok tx /\ b_Sidecar tx = None) /\ sidecar_ok (mkSidecar bs cs ps)
  | _ => False
  end.
Definition iWithBlobs (v : blobTxWithBlobs) : item :=
  match v with (Some tx, (bs, (cs, (ps, _)))) => iSidecar tx bs cs ps | _ => Lst [] end.

Lemma withBlobs_exact : Exact blobTxWithBlobsInfo withBlobs_ok iWithBlobs.
Proof.
  eapply exact_iff.
  - apply struct_exact. apply fe_req; [apply ptr_exact, blobTx_exact|].
    repeat (apply fe_req; [apply slice_exact, byteArray_exact; done|]). apply fe_nil.
  - intros ([tx|] & bs & cs & ps & []); cbn; unfold sidecar_ok; cbn; tauto.
  - intros ([tx|] & bs & cs & ps & []); cbn; [done|tauto].
Qed.

(** ** Splitting never panics *)

Lemma readSize_total b slen : 1 <= slen -> exists r, readSize b slen = Ret r.
Proof.
  intros Hs. unfold readSize. case_if; [by eexists|]. bool_to_Z. case_if; [by eexists|].
  destruct b as [|x b]; [rewrite len_nil in *; lia|]. change (index (x :: b) 0) with (@Ret Z x). cbn. case_if; by eexists.
Qed.

Lemma readKind_total b : exists r, readKind b = Ret r.
Proof.
  unfold readKind. destruct b as [|x b]; [by eexists|].
  destruct (Z.ltb_spec x 128); [case_if; by eexists|].
  destruct (Z.ltb_spec x 184); [destruct b; repeat case_if; by eexists|].
  destruct (Z.ltb_spec x 192).
  { destruct (readSize_total b (x - 183) ltac:(lia)) as ([n|e] & ->); cbn; [case_if|]; by eexists. }
  destruct (Z.ltb_spec x 248); [case_if; by eexists|].
  destruct (readSize_total b (x - 247) ltac:(lia)) as ([n|e] & ->); cbn; [case_if|]; by eexists.
Qed.

Lemma Split_total b : Forall is_byte b -> is_u64 (len b) -> exists r, Split b = Ret r.
Proof.
  intros Hb Hu. unfold Split. destruct (readKind_total b) as ([[[k ts] cs]|e] & E); [|rewrite E; by eexists].
  destruct (readKind_sound b k ts cs Hb Hu E) as (c & rest & Eb & Hf & -> & ->).
  assert (Hc : Forall is_byte c) by (rewrite Eb in Hb; by decompose_Forall). clear E.
  rewrite Eb in *. pose proof (Split_header k c rest Hf Hc Hu) as Hs. unfold Split in Hs. rewrite Hs. by eexists.
Qed.

Lemma Split_content b k c rest : Forall is_byte b -> is_u64 (len b) -> Split b = Ret (inl (k, c, rest)) ->
  Forall is_byte c /\ is_u64 (len c).
Proof.
  intros Hb Hu E. destruct (Split_sound b k c rest Hb Hu E) as [-> _]. split; [by decompose_Forall|].
  rewrite !len_app in Hu. pose proof (len_nonneg c). pose proof (len_nonneg rest). pose proof (len_nonneg (header k c)). unfold_u64. lia.
Qed.

(** ** Binary encoding *)

Definition iData (t : TxData) : item :=
  match t with
  | TxLegacy tx => iLegacy tx
  | TxAccessList tx => iAccessListTx tx
  | TxDynamicFee tx => iDynamicFeeTx tx
  | TxBlob tx =>
      match b_Sidecar tx with
      | Some sc => iSidecar tx (sc_Blobs sc) (sc_Commitments sc) (sc_Proofs sc)
      | None => iBlobTx tx
      end
  | TxSetCode tx => iSetCodeTx tx
  end.

(** The canonical encoding: the RLP list, after the type byte of a typed transaction *)
Definition binary (t : TxData) : bytes :=
  match t with TxLegacy _ => encode (iData t) | _ => txType t :: encode (iData t) end.

Lemma encodeBlobTx_ok tx : blobCore_ok tx -> is_u64 (len (encode (iBlobTx tx))) -> encodeVal blobTxInfo tx = Ret (inl (encode (iBlobTx tx))).
Proof. intros Hok Hu. by apply (encodeVal_ok blobTxInfo _ _ (withoutSidecar tx) (ex_codec _ _ _ blobTx_exact)). Qed.

Lemma MarshalBinary_ok t : data_ok t -> is_u64 (len (encode (iData t))) -> MarshalBinary t = Ret (binary t, None).
Proof.
  intros Hok Hu. unfold MarshalBinary, encodeTyped, encode_, encodeInner, binary. destruct t as [tx|tx|tx|tx|tx]; cbn -[encodeVal encode] in *.
  - by rewrite (encodeVal_ok _ _ _ _ (ex_codec _ _ _ legacy_exact)).
  - by rewrite (encodeVal_ok _ _ _ _ (ex_codec _ _ _ accessListTx_exact)).
  - by rewrite (encodeVal_ok _ _ _ _ (ex_codec _ _ _ dynamicFeeTx_exact)).
  - destruct Hok as [Hok Hsc]. destruct (b_Sidecar tx) as [sc|].
    + pose proof (encodeVal_ok blobTxWithBlobsInfo _ _ (Some (withoutSidecar tx), (sc_Blobs sc, (sc_Commitments sc, (sc_Proofs sc, tt))))
        (ex_codec _ _ _ withBlobs_exact)) as E. change (encodeVal blobTxWithBlobsInfo (Some tx, ?v)) with (encodeVal blobTxWithBlobsInfo (Some (withoutSidecar tx), v)).
      by rewrite E.
    + by rewrite encodeBlobTx_ok.
  - by rewrite (encodeVal_ok _ _ _ _ (ex_codec _ _ _ setCodeTx_exact)).
Qed.

(** The kind of the first element decides between the two forms of a blob transaction. *)
Lemma split_first x l : item_ok (Lst (x :: l)) -> is_u64 (len (encode (Lst (x :: l)))) ->
  exists outer k c rest, SplitList (encode (Lst (x :: l))) = Ret (inl (outer, [])) /\ Split outer = Ret (inl (k, c, rest)) /\
    match x with Str _ => k <> KList | Lst _ => k = KList end.
Proof.
  intros Hi Hu. pose proof (encode_list (x :: l)) as El. rewrite El, len_app in Hu.
  pose proof (len_nonneg (header KList (concat (encode <$> x :: l)))). inversion Hi as [|? Hl]; subst. apply Forall_cons in Hl as [Hx Hl].
  destruct (split_list_encode (x :: l) []) as [Es _]; [done|rewrite app_nil_r, El, len_app; done|]. rewrite app_nil_r in Es.
  destruct (Split_encode x (concat (encode <$> l)) Hx) as (k & c & Ec & _ & _ & _ & Hk).
  { change (concat (encode <$> x :: l)) with (encode x ++ concat (encode <$> l)) in *. pose proof (len_nonneg (encode x ++ concat (encode <$> l))). unfold_u64. lia. }
  exists (concat (encode <$> x :: l)), k, c, (concat (encode <$> l)). split_and!; [done|done|]. destruct x; tauto.
Qed.

Lemma len_u64 (b : bytes) : len b < 2 ^ 63 -> is_u64 (len b).
Proof. intros. pose proof (len_nonneg b). unfold_u64. lia. Qed.

Lemma decodeBlobTx_ok tx : data_ok (TxBlob tx) -> len (encode (iData (TxBlob tx))) < 2 ^ 63 ->
  decodeBlobTx (encode (iData (TxBlob tx))) = Ret (inl (TxBlob tx)).
Proof.
  intros [Hok Hsc] Hl. unfold decodeBlobTx. cbn [iData] in *. destruct (b_Sidecar tx) as [sc|] eqn:Esc.
  - assert (Hw : withBlobs_ok (Some (withoutSidecar tx), (sc_Blobs sc, (sc_Commitments sc, (sc_Proofs sc, tt))))) by (destruct sc; done).
    destruct (split_first (iBlobTx tx) [Lst (Str <$> sc_Blobs sc); Lst (Str <$> sc_Commitments sc); Lst (Str <$> sc_Proofs sc)])
      as (outer & k & c & rest & Es & E & Hk); [apply (c_item _ _ _ (ex_codec _ _ _ withBlobs_exact) _ Hw)|by apply len_u64|].
    change (SplitList (encode (iSidecar tx (sc_Blobs sc) (sc_Commitments sc) (sc_Proofs sc))) = Ret (inl (outer, []))) in Es. rewrite Es.
    cbn [mbind outcome_bind]. rewrite E. cbn [mbind outcome_bind]. cbn in Hk. subst k.
    rewrite bool_decide_true by done. cbn [negb].
    pose proof (decodeVal_ok _ _ _ _ (ex_codec _ _ _ withBlobs_exact) Hw Hl) as Ed. cbn [iWithBlobs] in Ed.
    change (iSidecar (withoutSidecar tx)) with (iSidecar tx) in Ed. rewrite Ed. cbn. do 2 f_equal. unfold withSidecar. by destruct tx, sc; cbn in *; subst.
  - assert (Hw : blobCore_ok tx /\ b_Sidecar tx = None) by done.
    destruct (split_first (iWord (b_ChainID tx)) (tail match iBlobTx tx with Lst l => l | _ => [] end)) as (outer & k & c & rest & Es & E & Hk);
      [apply (c_item _ _ _ (ex_codec _ _ _ blobTx_exact) _ Hw)|by apply len_u64|].
    change (SplitList (encode (iBlobTx tx)) = Ret (inl (outer, []))) in Es. rewrite Es.
    cbn [mbind outcome_bind]. rewrite E. cbn [mbind outcome_bind]. cbn in Hk.
    rewrite bool_decide_false by done. cbn [negb]. unfold mapRes.
    by rewrite (decodeVal_ok _ _ _ _ (ex_codec _ _ _ blobTx_exact) Hw Hl).
Qed.

Lemma list_first l : is_u64 (len (encode (Lst l))) -> exists x r, encode (Lst l) = x :: r /\ 192 <= x.
Proof.
  rewrite encode_list, len_app. set (c := concat (encode <$> l)). intros Hu. cbn [header] in *. unfold puthead in *. pose proof (len_nonneg c).
  case_if; bool_to_Z; eexists _, _; (split; [done|]).
  - unfold u8. rewrite (Z.mod_small (len c) 256), Z.mod_small; lia.
  - rewrite len_cons in Hu. pose proof (len_nonneg (putint (len c))).
    assert (Hc : is_u64 (len c)) by (unfold_u64; lia). destruct (intsize_spec (len c) Hc) as [Hi _]. rewrite <- putint_len in Hi by done.
    unfold u8. rewrite (Z.mod_small (len (putint _)) 256), Z.mod_small; lia.
Qed.

Lemma UnmarshalBinary_ok t : data_ok t -> len (binary t) < 2 ^ 63 -> UnmarshalBinary (binary t) = Ret (inl t).
Proof.
  intros Hok Hl. assert (Hne : 1 <= len (encode (iData t))) by apply encode_nonempty.
  assert (Hl' : len (encode (iData t)) < 2 ^ 63) by (destruct t; [done|unfold binary in Hl; rewrite len_cons in Hl; lia..]).
  unfold UnmarshalBinary, binary. destruct t as [tx|tx|tx|tx|tx]; unfold decodeTyped; cbn [txType iData] in *.
  - destruct (list_first _ (len_u64 _ Hl')) as (x & r & Ex & Hx). pose proof (decodeVal_ok _ _ _ _ (ex_codec _ _ _ legacy_exact) Hok Hl') as Ed.
    unfold iLegacy in *. rewrite Ex in *. replace (127 <? x) with true by lia. unfold mapRes. by rewrite Ed.
  - pose proof (decodeVal_ok _ _ _ _ (ex_codec _ _ _ accessListTx_exact) Hok Hl') as Ed. destruct (encode _); [done|]. cbn -[decodeVal]. by rewrite Ed.
  - pose proof (decodeVal_ok _ _ _ _ (ex_codec _ _ _ dynamicFeeTx_exact) Hok Hl') as Ed. destruct (encode _); [done|]. cbn -[decodeVal]. by rewrite Ed.
  - pose proof (decodeBlobTx_ok tx Hok Hl') as Ed. cbn [iData] in Ed. destruct (encode _); [done|]. cbn -[decodeBlobTx]. by rewrite Ed.
  - pose proof (decodeVal_ok _ _ _ _ (ex_codec _ _ _ setCodeTx_exact) Hok Hl') as Ed. destruct (encode _); [done|]. cbn -[decodeVal]. by rewrite Ed.
Qed.

(** What a decoder of transaction data does on every input: it ends, and accepts only the encoding. *)
Definition canonical (P : TxData -> Prop) (b : bytes) (m : Outcome (TxData + txerror)) : Prop :=
  exists r, m = Ret r /\ forall t, r = inl t -> P t /\ data_ok t /\ b = encode (iData t).

Lemma mapRes_canonical {A} (i : typeinfo A) ok it (f : A -> TxData) (P : TxData -> Prop) b : Exact i ok it ->
  (forall v, ok v -> P (f v) /\ data_ok (f v) /\ iData (f v) = it v) -> Forall is_byte b -> len b < 2 ^ 63 ->
  canonical P b (mapRes f (decodeVal i b)).
Proof.
  intros Hi Hf Hb Hl. destruct (decodeVal_canonical i ok it b Hi Hb Hl) as (r & E & H). unfold mapRes, canonical. rewrite E. cbn.
  eexists. split; [done|]. destruct r as [v|e]; [|done]. intros t [= <-]. destruct (H v eq_refl) as [Hv ->].
  destruct (Hf v Hv) as (? & ? & ->). done.
Qed.

Definition isBlob (t : TxData) : Prop := txType t = BlobTxType.

Lemma decodeBlobTx_canonical b : Forall is_byte b -> len b < 2 ^ 63 -> canonical isBlob b (decodeBlobTx b).
Proof.
  intros Hb Hl. pose proof (len_u64 _ Hl) as Hu. unfold decodeBlobTx, SplitList.
  destruct (Split_total b Hb Hu) as ([[[k c] rest]|e] & E); rewrite E; cbn [mbind outcome_bind]; [|by eexists].
  destruct (Split_content b k c rest Hb Hu E) as [Hc Huc]. destruct k; cbn [mbind outcome_bind]; [by eexists..|].
  destruct (Split_total c Hc Huc) as ([[[k c'] rest']|e] & ->); cbn [mbind outcome_bind]; [|by eexists].
  case_if.
  - apply (mapRes_canonical _ _ _ TxBlob isBlob b blobTx_exact); [|done..]. intros tx [Hok Hs]. cbn. by rewrite Hs.
  - destruct (decodeVal_canonical _ _ _ b withBlobs_exact Hb Hl) as (r & -> & H). cbn [mbind outcome_bind].
    destruct r as [([tx|] & bs & cs & ps & [])|e]; [..|by eexists]; destruct (H _ eq_refl) as [Hok ->]; [|done].
    eexists. split; [done|]. intros t [= <-]. destruct Hok as [[Hok _] Hsc]. done.
Qed.

Lemma UnmarshalBinary_canon b : Forall is_byte b -> len b < 2 ^ 63 ->
  exists r, UnmarshalBinary b = Ret r /\ forall t, r = inl t -> data_ok t /\ b = binary t.
Proof.
  intros Hb Hl.
  assert (Htyped : exists r, decodeTyped b = Ret r /\ forall t, r = inl t -> data_ok t /\ b = binary t).
  { unfold decodeTyped. destruct b as [|ty [|x r]]; [by eexists..|]. apply Forall_cons in Hb as [_ Hb]. rewrite len_cons in Hl.
    assert (Hr : forall P m, canonical P (x :: r) m -> (forall t, P t -> txType t = ty /\ ty <> 0) ->
      exists q, m = Ret q /\ forall t, q = inl t -> data_ok t /\ ty :: x :: r = binary t).
    { intros P m (q & -> & H) HP. exists q. split; [done|]. intros t ->. destruct (H t eq_refl) as (Ht & Hok & ->). split; [done|].
      destruct (HP t Ht) as [<- Hne]. by destruct t. }
    pose (isType t' := txType t' = ty).
    repeat case_if; bool_to_Z; try subst ty; [eapply (Hr isType)..|by eexists]; try done.
    - apply (mapRes_canonical _ _ _ TxAccessList _ _ accessListTx_exact); done || lia.
    - apply (mapRes_canonical _ _ _ TxDynamicFee _ _ dynamicFeeTx_exact); done || lia.
    - apply decodeBlobTx_canonical; done || lia.
    - apply (mapRes_canonical _ _ _ TxSetCode _ _ setCodeTx_exact); done || lia. }
  unfold UnmarshalBinary. destruct b as [|x b]; [done|]. case_if; [|done].
  destruct (mapRes_canonical _ _ _ TxLegacy (fun t => exists tx, t = TxLegacy tx) (x :: b) legacy_exact) as (r & -> & H); [|done..|].
  - intros v Hv. split; [by eexists|done].
  - exists r. split; [done|]. intros t ->. destruct (H t eq_refl) as ((tx & ->) & Hok & E). done.
Qed.
End codec.
