(* ===== verification/TxCaches.v ===== *)
(** * The caches of a transaction

    [Hash], [Size] and [Sender] keep their results in the transaction, and the copies with another
    sidecar carry the hash and the sender over.  Here it is shown that, whatever the history of a
    transaction, a cached result is the one that a fresh computation gives. *)

From S2P Require Import Prelude Bytes Uint256 Params Rlp RlpTheorems RlpStream RlpTypes RlpCodec RlpCanon VM ChainConfig StateTransition Transactions TxSigning TxCodec.

Set Default Proof Using "Type*".

Section caches.
Context `{U : Uint256} {US : Uint256Spec U} `{C : Crypto}.
Context (Ecrecover : Hash -> bytes -> option bytes).

(** The signers that the constructors make *)
Fixpoint signer_ok (s : Signer) : Prop :=
  match s with
  | EIP155Signer id mul => 0 <= id /\ mul = id * 2
  | modernSigner _ id l => 0 <= id /\ signer_ok l
  | _ => True
  end.

Lemma signer_Equal_eq s : forall s', signer_ok s -> signer_ok s' -> signer_Equal s s' = true -> s = s'.
Proof.
  induction s as [| |id mul|ts id l IH]; intros [| |id' mul'|ts' id' l'] Hs Hs' E; cbn in *; try done; bool_to_Z.
  - subst. by destruct Hs as [_ ->], Hs' as [_ ->].
  - destruct Hs as [_ Hs], Hs' as [_ Hs']. bool_to_Z. f_equal; [by eapply bool_decide_eq_true|done|by apply IH].
Qed.

(** The sidecar is neither hashed nor signed. *)
Lemma hashOf_sidecar b sc : hashOf (TxBlob (withSidecar b sc)) = hashOf (TxBlob b).
Proof. done. Qed.

Lemma signer_Sender_sidecar s b sc : signer_Sender Ecrecover s (TxBlob (withSidecar b sc)) = signer_Sender Ecrecover s (TxBlob b).
Proof. by destruct s. Qed.

(** ** Sizes *)

Lemma headsize_ok t1 t2 n : is_u64 n -> headsize n = len (puthead t1 t2 n).
Proof. intros Hu. unfold headsize. rewrite len_puthead by (unfold_u64; lia). case_if; [done|]. by rewrite putint_len. Qed.

Lemma BytesSize_ok d : is_u64 (len d) -> BytesSize d = len (encode_bytes d).
Proof.
  intros Hu. unfold BytesSize, encode_bytes. destruct d as [|x [|y d]]; [done| |].
  - by destruct (x <=? 127).
  - rewrite len_app, <- headsize_ok by done. done.
Qed.

Lemma ListSize_ok l : is_u64 (len (encs l)) -> ListSize (len (encs l)) = len (encode (Lst l)).
Proof. intros Hu. rewrite encode_list, len_app. fold (encs l). unfold ListSize. by rewrite (headsize_ok 192 247). Qed.

Lemma encs_le l : len (encs l) <= len (encode (Lst l)).
Proof. rewrite encode_list, len_app. fold (encs l). pose proof (len_nonneg (header KList (encs l))). lia. Qed.

Lemma sumSizes_ok l : is_u64 (len (encs (Str <$> l))) -> sumSizes l = len (encs (Str <$> l)).
Proof.
  unfold sumSizes. cut (forall n, 0 <= n -> is_u64 (n + len (encs (Str <$> l))) ->
    fold_left (fun n b => n +! BytesSize b) l n = n + len (encs (Str <$> l))).
  { intros H Hu. by rewrite (H 0). }
  induction l as [|b l IH]; intros n Hn Hu; cbn [fold_left].
  - rewrite Z.add_0_r. done.
  - rewrite fmap_cons, encs_cons, len_app in *. cbn [encode] in *. pose proof (len_nonneg (encs (Str <$> l))).
    assert (len b <= len (encode_bytes b)).
    { unfold encode_bytes. pose proof (len_nonneg (puthead 128 183 (len b))). destruct b as [|x [|y d]]; [done| |rewrite len_app; lia].
      destruct (x <=? 127); [done|rewrite len_app; lia]. }
    pose proof (len_nonneg b). rewrite BytesSize_ok by (unfold_u64; lia). rewrite wrap64_small by (unfold_u64; lia).
    rewrite IH by (unfold_u64; lia). lia.
Qed.

(** The header of the list with the sidecar is as long as that of the sidecar alone. *)
Definition plain (t : TxData) : Prop :=
  match t with
  | TxBlob tx =>
      match b_Sidecar tx with
      | Some sc => headsize (len (encode (iBlobTx tx)) + encodedSize sc) = headsize (encodedSize sc)
      | None => True
      end
  | _ => True
  end.

Lemma encodedSize_ok sc rest : is_u64 (rest + len (encs [Lst (Str <$> sc_Blobs sc); Lst (Str <$> sc_Commitments sc); Lst (Str <$> sc_Proofs sc)])) -> 0 <= rest ->
  encodedSize sc = len (encs [Lst (Str <$> sc_Blobs sc); Lst (Str <$> sc_Commitments sc); Lst (Str <$> sc_Proofs sc)]).
Proof.
  intros Hu Hr. rewrite !encs_cons, !len_app in *. change (encs []) with (@nil Z) in *. rewrite len_nil in *.
  pose proof (encs_le (Str <$> sc_Blobs sc)). pose proof (encs_le (Str <$> sc_Commitments sc)). pose proof (encs_le (Str <$> sc_Proofs sc)).
  pose proof (len_nonneg (encs (Str <$> sc_Blobs sc))). pose proof (len_nonneg (encs (Str <$> sc_Commitments sc))). pose proof (len_nonneg (encs (Str <$> sc_Proofs sc))).
  unfold encodedSize. rewrite !sumSizes_ok, !ListSize_ok by (unfold_u64; lia). rewrite (wrap64_small (len _ + len _)) by (unfold_u64; lia).
  rewrite wrap64_small by (unfold_u64; lia). lia.
Qed.

Ltac typed_size :=
  cbn [mbind outcome_bind written negb Z.eqb AccessListTxType DynamicFeeTxType BlobTxType SetCodeTxType LegacyTxType];
  f_equal; rewrite wrap64_small by (unfold_u64; lia); lia.

Lemma sizeOf_ok t : data_ok t -> plain t -> len (binary t) < 2 ^ 63 -> sizeOf t = Ret (len (binary t)).
Proof.
  intros Hok Hp Hl. assert (Hl' : len (encode (iData t)) < 2 ^ 63).
  { unfold binary in Hl. destruct t; [done|..]; rewrite len_cons in Hl; lia. }
  pose proof (len_u64 _ Hl') as Hu. unfold sizeOf, encodeInner, binary in *. pose proof (len_nonneg (encode (iData t))).
  destruct t as [tx|tx|tx|tx|tx]; cbn [data_ok iData tx_BlobTxSidecar txType] in *; rewrite ?len_cons in *.
  - rewrite (encodeVal_ok _ _ _ _ (ex_codec _ _ _ legacy_exact) Hok Hu). done.
  - rewrite (encodeVal_ok _ _ _ _ (ex_codec _ _ _ accessListTx_exact) Hok Hu). typed_size.
  - rewrite (encodeVal_ok _ _ _ _ (ex_codec _ _ _ dynamicFeeTx_exact) Hok Hu). typed_size.
  - destruct Hok as [Hok Hsc]. unfold plain in Hp. destruct (b_Sidecar tx) as [sc|].
    + unfold iSidecar in *. set (side := [Lst (Str <$> sc_Blobs sc); Lst (Str <$> sc_Commitments sc); Lst (Str <$> sc_Proofs sc)]) in *.
      pose proof (encs_le (iBlobTx tx :: side)) as Hle. rewrite encs_cons, len_app in Hle. pose proof (len_nonneg (encode (iBlobTx tx))). pose proof (len_nonneg (encs side)).
      rewrite encodeBlobTx_ok by (done || (unfold_u64; lia)). cbn [mbind outcome_bind written].
      rewrite (encodedSize_ok sc 0) in Hp |- * by (done || (fold side; unfold_u64; lia)). fold side in Hp |- *.
      pose proof (ListSize_ok (iBlobTx tx :: side) ltac:(rewrite encs_cons, len_app; unfold_u64; lia)) as El.
      rewrite encs_cons, len_app in El. rewrite <- El. unfold ListSize in *. rewrite Hp in *. f_equal. rewrite (wrap64_small (_ + (_ + _))) by (unfold_u64; lia).
      cbn [negb Z.eqb BlobTxType LegacyTxType]. rewrite wrap64_small by (unfold_u64; lia). lia.
    + rewrite encodeBlobTx_ok by done. typed_size.
  - rewrite (encodeVal_ok _ _ _ _ (ex_codec _ _ _ setCodeTx_exact) Hok Hu). typed_size.
Qed.

(** ** Coherence *)

Record coherent (tx : Transaction) : Prop := {
  co_data : data_ok (inner tx);
  co_hash h : tx_hash tx = Some h -> hashOf (inner tx) = Ret h;
  co_from s a : tx_from tx = Some (s, a) -> signer_ok s /\ signer_Sender Ecrecover s (inner tx) = Ret (inl a);
  co_size : 0 < tx_size tx -> plain (inner tx) -> len (binary (inner tx)) < 2 ^ 63 -> tx_size tx = len (binary (inner tx));
}.

Lemma fresh_coherent t n : data_ok t -> (0 < n -> n = len (binary t)) -> coherent (freshTx t n).
Proof.
  intros Ht Hn. split; cbn; [done|done|done|]. intros H _ _. destruct (Z.ltb_spec 0 n); [auto|lia].
Qed.

Lemma tx_Hash_coherent tx : coherent tx ->
  match tx_Hash tx with Ret (h, tx') => hashOf (inner tx) = Ret h /\ inner tx' = inner tx /\ coherent tx' | Fail f => hashOf (inner tx) = Fail f end.
Proof.
  intros Hc. unfold tx_Hash. unfold mbind, st_bind, st_get. destruct (tx_hash tx) as [h|] eqn:Eh.
  - cbn. split; [by apply (co_hash tx)|done].
  - unfold st_lift. destruct (hashOf (inner tx)) as [h|f] eqn:E; [|done]. cbn. split; [done|]. split; [done|].
    destruct Hc as [H1 H2 H3 H4]. split; cbn; [done| |done|done]. by intros ? [= <-].
Qed.

Lemma tx_Size_coherent tx : coherent tx -> plain (inner tx) -> len (binary (inner tx)) < 2 ^ 63 ->
  exists tx', tx_Size tx = Ret (len (binary (inner tx)), tx') /\ inner tx' = inner tx /\ coherent tx'.
Proof.
  intros Hc Hp Hl. unfold tx_Size. unfold mbind, st_bind, st_get. destruct (Z.ltb_spec 0 (tx_size tx)).
  - exists tx. rewrite (co_size tx) by done. done.
  - unfold st_lift. rewrite sizeOf_ok by (done || apply Hc). eexists. split; [done|]. split; [done|].
    destruct Hc as [H1 H2 H3 H4]. split; cbn; done.
Qed.

Lemma tx_Size_keeps tx n tx' : coherent tx -> len (binary (inner tx)) < 2 ^ 63 -> tx_Size tx = Ret (n, tx') -> coherent tx'.
Proof.
  intros Hc Hl. unfold tx_Size. unfold mbind, st_bind, st_get. destruct (Z.ltb_spec 0 (tx_size tx)); [by intros [= <- <-]|].
  unfold st_lift. destruct (sizeOf (inner tx)) as [m|] eqn:E; [|done]. intros [= <- <-].
  destruct Hc as [H1 H2 H3 H4]. split; cbn; [done..|]. intros _ Hp _. rewrite sizeOf_ok in E by done. congruence.
Qed.

Lemma Sender_coherent s tx : signer_ok s -> coherent tx ->
  match Sender Ecrecover s tx with
  | Ret (r, tx') => signer_Sender Ecrecover s (inner tx) = Ret r /\ inner tx' = inner tx /\ coherent tx'
  | Fail f => signer_Sender Ecrecover s (inner tx) = Fail f
  end.
Proof.
  intros Hs Hc.
  assert (Hfresh : match (r ← st_lift (signer_Sender Ecrecover s (inner tx));
      match r with inl addr => st_modify (with_from (s, addr));; mret (inl addr) | inr e => mret (inr e) end) tx with
    | Ret (r, tx') => signer_Sender Ecrecover s (inner tx) = Ret r /\ inner tx' = inner tx /\ coherent tx'
    | Fail f => signer_Sender Ecrecover s (inner tx) = Fail f
    end).
  { unfold mbind, st_bind, st_lift. destruct (signer_Sender Ecrecover s (inner tx)) as [[a|e]|f] eqn:E; cbn; [|done|done].
    split; [done|]. split; [done|]. destruct Hc as [H1 H2 H3 H4]. split; cbn; [done|done| |done]. by intros ? ? [= <- <-]. }
  unfold Sender. unfold mbind at 1, st_bind at 1, st_get. destruct (tx_from tx) as [[s' a]|] eqn:Ef; [|exact Hfresh].
  destruct (co_from tx Hc s' a Ef) as [Hs' E]. destruct (signer_Equal s' s) eqn:Eq; [|exact Hfresh].
  apply signer_Equal_eq in Eq as <-; [|done..]. cbn. done.
Qed.

Lemma WithBlobTxSidecar_coherent sc tx : match sc with Some sc => sidecar_ok sc | None => True end -> coherent tx -> coherent (WithBlobTxSidecar sc tx).
Proof.
  intros Hsc Hc. unfold WithBlobTxSidecar. destruct (inner tx) as [| | |b|] eqn:Ei; try done. destruct Hc as [H1 H2 H3 H4]. rewrite Ei in *.
  split; cbn [inner tx_hash tx_size tx_from].
  - destruct H1 as [H1 _]. done.
  - intros h Hh. rewrite hashOf_sidecar. by apply H2.
  - intros s a Hf. rewrite signer_Sender_sidecar. by apply H3.
  - lia.
Qed.

Lemma WithoutBlobTxSidecar_eq tx : WithoutBlobTxSidecar tx = WithBlobTxSidecar None tx.
Proof. done. Qed.

(** ** Signatures keep the data well formed *)

Lemma decodeSignature_nonneg sig r s v : Forall is_byte sig -> decodeSignature sig = Ret (r, s, v) -> 0 <= r /\ 0 <= s /\ 0 <= v.
Proof.
  intros Hb. unfold decodeSignature, slice. case_if; [done|]. bool_to_Z.
  replace (len sig) with 65 by done. cbn [Z.leb Z.compare Pos.compare Pos.compare_cont andb mbind outcome_bind].
  destruct (index sig 64) as [x|]; [|done]. cbn [mbind outcome_bind]. intros [= <- <- <-].
  assert (forall lo hi, 0 <= be_val (zslice sig lo hi)) by (intros; apply be_val_bounds; unfold zslice; by apply Forall_take, Forall_drop).
  split_and!; [done..|]. apply Z.mod_pos_bound. lia.
Qed.

Lemma index_byte (l : bytes) i x : Forall is_byte l -> index l i = Ret x -> 0 <= x.
Proof.
  intros Hb. unfold index. case_if; [|done]. destruct (l !! _) as [y|] eqn:E; [|done]. intros [= <-].
  rewrite Forall_lookup in Hb. by apply Hb in E as [? _].
Qed.

Lemma SignatureValues_nonneg s t sig r s_ v : Forall is_byte sig -> signer_ok s -> SignatureValues s t sig = Ret (inl (r, s_, v)) ->
  0 <= r /\ 0 <= s_ /\ 0 <= v.
Proof.
  intros Hb. pose proof (decodeSignature_nonneg sig) as Hd. induction s as [| |id mul|ts id l IH]; cbn [SignatureValues signer_ok]; unfold FrontierSigner_SignatureValues, EIP155Signer_SignatureValues; intros Hs.
  - case_if; [done|]. destruct (decodeSignature sig) as [[[a b] c]|]; [|done]. intros [= <- <- <-]. by apply Hd.
  - case_if; [done|]. destruct (decodeSignature sig) as [[[a b] c]|]; [|done]. intros [= <- <- <-]. by apply Hd.
  - case_if; [done|]. destruct (decodeSignature sig) as [[[a b] c]|]; [|done]. destruct (Hd a b c Hb eq_refl) as (? & ? & ?). cbn [mbind outcome_bind].
    case_if; [|by intros [= <- <- <-]]. destruct (index sig 64) as [x|]; [|done]. intros [= <- <- <-]. split_and!; [done..|].
    pose proof (Z.mod_pos_bound (x + 35) 256 ltac:(lia)). unfold u8. destruct Hs as [? ->]. lia.
  - destruct Hs as [Hid Hl]. case_if; [done|]. case_if; [by apply IH|]. case_if; [done|].
    destruct (decodeSignature sig) as [[[a b] c]|]; [|done]. destruct (Hd a b c Hb eq_refl) as (? & ? & ?). cbn [mbind outcome_bind].
    destruct (index sig 64) as [x|] eqn:Ex; [|done]. intros [= <- <- <-]. split_and!; [done..|]. by eapply index_byte.
Qed.

Lemma setSignatureValues_ok id v r s t t' : 0 <= default 0 id -> 0 <= v -> 0 <= r -> 0 <= s -> data_ok t ->
  setSignatureValues id v r s t = Ret t' -> data_ok t'.
Proof.
  intros Hid Hv Hr Hs Hok. destruct t as [tx|tx|tx|tx|tx]; cbn [data_ok] in Hok; unfold legacy_ok, accessListTx_ok, dynamicFeeTx_ok, blobCore_ok, setCodeTx_ok in Hok;
    destruct_and? Hok; cbn [setSignatureValues]; [|destruct id; try done; try case_if; try done..]; intros [= <-]; cbn [data_ok];
    unfold legacy_ok, accessListTx_ok, dynamicFeeTx_ok, blobCore_ok, setCodeTx_ok; cbn; split_and!; done.
Qed.

Lemma WithSignature_coherent s sig tx tx' : Forall is_byte sig -> signer_ok s -> coherent tx -> WithSignature s sig tx = Ret (inl tx') -> coherent tx'.
Proof.
  intros Hb Hs Hc. unfold WithSignature. destruct (SignatureValues s (inner tx) sig) as [[[[r s_] v]|e]|] eqn:E; [|done..]. cbn [mbind outcome_bind].
  destruct (SignatureValues_nonneg s _ sig r s_ v Hb Hs E) as (Hr & Hs_ & Hv).
  destruct (setSignatureValues _ _ _ _ _) as [t'|] eqn:Et; [|done]. cbn [mbind outcome_bind]. intros [= <-].
  apply (fresh_coherent t' 0); [|lia]. eapply setSignatureValues_ok; [|done|exact Hr|exact Hs_|apply Hc|exact Et].
  destruct s; cbn in *; tauto || lia.
Qed.

(** ** Histories *)

(** The transactions that the methods of the package produce from new and decoded ones *)
Inductive history : Transaction -> Prop :=
  | h_new t : data_ok t -> history (NewTx t)
  | h_decode b tx : Forall is_byte b -> len b < 2 ^ 63 -> decodeTx b = Ret (inl tx) -> history tx
  | h_hash tx h tx' : history tx -> tx_Hash tx = Ret (h, tx') -> history tx'
  | h_size tx n tx' : history tx -> len (binary (inner tx)) < 2 ^ 63 -> tx_Size tx = Ret (n, tx') -> history tx'
  | h_sender s tx r tx' : history tx -> signer_ok s -> Sender Ecrecover s tx = Ret (r, tx') -> history tx'
  | h_without tx : history tx -> history (WithoutBlobTxSidecar tx)
  | h_with sc tx : history tx -> sidecar_ok sc -> history (WithBlobTxSidecar (Some sc) tx)
  | h_signed s sig tx tx' : history tx -> Forall is_byte sig -> signer_ok s -> WithSignature s sig tx = Ret (inl tx') -> history tx'.

Lemma history_coherent tx : history tx -> coherent tx.
Proof.
  induction 1 as [t Ht|b tx Hb Hl E|tx h tx' _ IH E|tx n tx' _ IH Hl E|s tx r tx' _ IH Hs E|tx _ IH|sc tx _ IH Hsc|s sig tx tx' _ IH Hb Hs E].
  - apply fresh_coherent; [done|lia].
  - destruct (UnmarshalBinary_canon b Hb Hl) as (r & Er & H). unfold decodeTx in E. rewrite Er in E. cbn in E.
    destruct r as [t|]; [|done]. injection E as <-. destruct (H t eq_refl) as [Ht ->]. by apply fresh_coherent.
  - pose proof (tx_Hash_coherent tx IH) as H. rewrite E in H. by destruct H as (_ & _ & ?).
  - by eapply tx_Size_keeps.
  - pose proof (Sender_coherent s tx Hs IH) as H. rewrite E in H. by destruct H as (_ & _ & ?).
  - rewrite WithoutBlobTxSidecar_eq. by apply WithBlobTxSidecar_coherent.
  - by apply WithBlobTxSidecar_coherent.
  - by eapply WithSignature_coherent.
Qed.
End caches.
