(* ===== verification/TxTheorems.v ===== *)
(** * Correctness of transactions

    The binary encoding is a bijection between well-formed transaction data and the byte strings that
    the decoder accepts; the caches of a transaction are transparent; a transaction signed with a key is
    recovered to the address of that key by the same signer; what is signed determines the transaction
    and the chain; and the price in the message is the effective gas price. *)

From S2P Require Import Prelude Bytes Uint256 Params Rlp RlpTheorems RlpStream RlpTypes RlpCodec RlpCanon VM ChainConfig StateTransition Transactions TxSigning TxCodec TxCaches.

Set Default Proof Using "Type*".

(** ** Integers of 32 bytes *)

Lemma padded32_ok v : 0 <= v < two256 -> padded32 (bigBytes v) = Ret (be_bytes 32 v).
Proof.
  intros Hv. assert (E : bigBytes v = minBytes v) by (unfold bigBytes, minBytes; by rewrite Z.abs_eq by lia). rewrite E.
  assert (Hlen : len (minBytes v) <= 32).
  { rewrite minBytes_len by lia. pose proof (bitLen_bound v 256 ltac:(unfold two256 in *; lia)).
    enough ((bitLen v + 7) / 8 < 33) by lia. apply Z.div_lt_upper_bound; lia. }
  unfold padded32. replace (len (minBytes v) <=? 32) with true by lia. f_equal.
  set (l := zreplicate (32 - len (minBytes v)) 0 ++ minBytes v).
  assert (Hl : Forall is_byte l).
  { apply Forall_app. split; [apply Forall_replicate; done|apply minBytes_bytes]. }
  assert (Hn : length l = 32%nat).
  { unfold l, zreplicate. rewrite length_app, length_replicate. unfold len in *. lia. }
  rewrite <- (be_bytes_be_val l Hl), Hn. f_equal. unfold l. rewrite be_val_app, minBytes_val by lia.
  assert (be_val (zreplicate (32 - len (minBytes v)) 0) = 0) as ->; [|lia].
  unfold zreplicate. induction (Z.to_nat _) as [|n IH]; [done|]. by rewrite replicate_S_end, be_val_snoc, IH.
Qed.

Create HintDb txsig.

Section theorems.
Context `{U : Uint256} {US : Uint256Spec U} `{C : Crypto}.

(** Everything but the signature values and the chain id *)
Definition unsigned (t : TxData) : TxData :=
  match t with
  | TxLegacy tx => TxLegacy (mkLegacyTx (l_Nonce tx) (l_GasPrice tx) (l_Gas tx) (l_To tx) (l_Value tx) (l_Data tx) 0 0 0)
  | TxAccessList tx =>
      TxAccessList (mkAccessListTx 0 (a_Nonce tx) (a_GasPrice tx) (a_Gas tx) (a_To tx) (a_Value tx) (a_Data tx) (a_AccessList tx) 0 0 0)
  | TxDynamicFee tx =>
      TxDynamicFee (mkDynamicFeeTx 0 (d_Nonce tx) (d_GasTipCap tx) (d_GasFeeCap tx) (d_Gas tx) (d_To tx) (d_Value tx) (d_Data tx)
        (d_AccessList tx) 0 0 0)
  | TxBlob tx =>
      TxBlob (mkBlobTx wzero (b_Nonce tx) (b_GasTipCap tx) (b_GasFeeCap tx) (b_Gas tx) (b_To tx) (b_Value tx) (b_Data tx)
        (b_AccessList tx) (b_BlobFeeCap tx) (b_BlobHashes tx) (b_Sidecar tx) wzero wzero wzero)
  | TxSetCode tx =>
      TxSetCode (mkSetCodeTx wzero (c_Nonce tx) (c_GasTipCap tx) (c_GasFeeCap tx) (c_Gas tx) (c_To tx) (c_Value tx) (c_Data tx)
        (c_AccessList tx) (c_AuthList tx) wzero wzero wzero)
  end.

(** What a signature covers: the sidecar is not part of it either. *)
Definition signedContent (t : TxData) : TxData :=
  match unsigned t with TxBlob tx => TxBlob (withoutSidecar tx) | t => t end.

(** ** What is signed *)

Definition signedItems (t : TxData) (id : option Z) : list item :=
  match t with
  | TxLegacy tx =>
      [iUint (l_Nonce tx); iBig (l_GasPrice tx); iUint (l_Gas tx); iTo (l_To tx); iBig (l_Value tx); Str (l_Data tx)] ++
      match id with Some id => [iBig id; iUint 0; iUint 0] | None => [] end
  | TxAccessList tx =>
      [iBig (default 0 id); iUint (a_Nonce tx); iBig (a_GasPrice tx); iUint (a_Gas tx); iTo (a_To tx); iBig (a_Value tx);
       Str (a_Data tx); iAccess (a_AccessList tx)]
  | TxDynamicFee tx =>
      [iBig (default 0 id); iUint (d_Nonce tx); iBig (d_GasTipCap tx); iBig (d_GasFeeCap tx); iUint (d_Gas tx); iTo (d_To tx);
       iBig (d_Value tx); Str (d_Data tx); iAccess (d_AccessList tx)]
  | TxBlob tx =>
      [iBig (default 0 id); iUint (b_Nonce tx); iWord (b_GasTipCap tx); iWord (b_GasFeeCap tx); iUint (b_Gas tx); iAddr (b_To tx);
       iWord (b_Value tx); Str (b_Data tx); iAccess (b_AccessList tx); iWord (b_BlobFeeCap tx); Lst (iHash <$> b_BlobHashes tx)]
  | TxSetCode tx =>
      [iBig (default 0 id); iUint (c_Nonce tx); iWord (c_GasTipCap tx); iWord (c_GasFeeCap tx); iUint (c_Gas tx); iAddr (c_To tx);
       iWord (c_Value tx); Str (c_Data tx); iAccess (c_AccessList tx); Lst (iAuth <$> c_AuthList tx)]
  end.

Definition signedBytes (t : TxData) (id : option Z) : bytes :=
  match t with TxLegacy _ => [] | _ => [txType t] end ++ encode (Lst (signedItems t id)).

Lemma writes_exact {A} (i : typeinfo A) ok it v : Exact i ok it -> ok v -> writes_as (ti_writer i v) [it v].
Proof. intros [H _] Hv. by apply (c_writes _ _ _ H). Qed.

Lemma aBig_writes v : 0 <= v -> writes_as (aBig v) [iBig v].
Proof. intros Hv. apply (writes_exact _ _ _ (Some v) bigIntPtr_exact). by exists v. Qed.
Lemma aUint_writes v : is_u64 v -> writes_as (aUint v) [iUint v].
Proof. apply (writes_exact _ _ _ v uint64_exact). Qed.
Lemma aWord_writes w : writes_as (aWord w) [iWord w].
Proof. by apply (writes_exact _ _ _ w word_exact). Qed.
Lemma aData_writes d : Forall is_byte d -> writes_as (aData d) [Str d].
Proof. apply (writes_exact _ _ _ d byteSlice_exact). Qed.
Lemma aTo_writes t : to_ok t -> writes_as (aTo t) [iTo t].
Proof. destruct t as [a|]; [apply (writes_exact _ _ _ a addr_exact)|]. intros _. by apply writes_str. Qed.
Lemma addr_writes a : addr_ok a -> writes_as (ti_writer addressInfo a) [iAddr a].
Proof. apply (writes_exact _ _ _ a addr_exact). Qed.
Lemma access_writes l : access_ok l -> writes_as (ti_writer accessListInfo l) [iAccess l].
Proof. apply (writes_exact _ _ _ l access_exact). Qed.
Lemma hashes_writes l : Forall hash_ok l -> writes_as (ti_writer (sliceInfo hashInfo) l) [Lst (iHash <$> l)].
Proof. apply (writes_exact _ _ _ l (slice_exact _ _ _ hash_exact')). Qed.
Lemma auths_writes l : Forall auth_ok l -> writes_as (ti_writer (sliceInfo authInfo) l) [Lst (iAuth <$> l)].
Proof. apply (writes_exact _ _ _ l (slice_exact _ _ _ auth_exact)). Qed.
#[local] Hint Resolve aBig_writes aUint_writes aWord_writes aData_writes aTo_writes addr_writes access_writes hashes_writes auths_writes : txsig.

Lemma sigHash_bytes t id : data_ok t -> 0 <= id -> is_u64 (len (signedBytes t (Some id))) ->
  tx_sigHash t id = Ret (Keccak256 (signedBytes t (Some id))).
Proof.
  intros Hok Hid Hu. assert (Hu' : is_u64 (len (encode (Lst (signedItems t (Some id)))))).
  { unfold signedBytes in Hu. rewrite len_app in Hu. pose proof (len_nonneg (encode (Lst (signedItems t (Some id))))).
    pose proof (len_nonneg (match t with TxLegacy _ => [] | _ => [txType t] end)). unfold_u64. lia. }
  unfold tx_sigHash, LegacyTx_sigHash, AccessListTx_sigHash, DynamicFeeTx_sigHash, BlobTx_sigHash, SetCodeTx_sigHash, signedBytes, rlpHash, prefixedRlpHash.
  destruct t as [tx|tx|tx|tx|tx]; cbn [data_ok] in Hok;
    unfold legacy_ok, accessListTx_ok, dynamicFeeTx_ok, blobCore_ok, setCodeTx_ok in Hok; destruct_and? Hok;
    (erewrite encodeAny_ok; [|cbn [signedItems app default]; repeat constructor; eauto with txsig|]); try done; by apply aUint_writes.
Qed.

Lemma frontierHash_bytes tx : legacy_ok tx -> is_u64 (len (signedBytes (TxLegacy tx) None)) ->
  frontierHash (TxLegacy tx) = Ret (Keccak256 (signedBytes (TxLegacy tx) None)).
Proof.
  intros Hok Hu. unfold frontierHash, rlpHash. cbn [nonce gasPrice gas to_ value data]. unfold legacy_ok in Hok. destruct_and? Hok.
  erewrite encodeAny_ok; [done| |exact Hu]. cbn. repeat constructor; eauto with txsig.
Qed.

(** ** The items determine the values *)

Lemma Str_inj a b : Str a = Str b -> a = b.
Proof. by intros [= ->]. Qed.
Lemma Lst_inj a b : Lst a = Lst b -> a = b.
Proof. by intros [= ->]. Qed.
Lemma cons_eq_inv {A} (x y : A) l k : x :: l = y :: k -> x = y /\ l = k.
Proof. by intros [= -> ->]. Qed.
(** The elements of an equation between lists, without computing in them *)
Ltac split_items E :=
  repeat match type of E with _ :: _ = _ :: _ => let H := fresh "E" in apply cons_eq_inv in E as [H E] end.

Lemma iBig_inj a b : 0 <= a -> 0 <= b -> iBig a = iBig b -> a = b.
Proof. intros Ha Hb E. apply Str_inj in E. by rewrite <- (minBytes_val a Ha), <- (minBytes_val b Hb), E. Qed.
Lemma iUint_inj a b : is_u64 a -> is_u64 b -> iUint a = iUint b -> a = b.
Proof. intros Ha Hb. unfold iUint. rewrite !minBytes_intBytes by done. apply iBig_inj; apply Ha || apply Hb. Qed.
Lemma iWord_inj a b : iWord a = iWord b -> a = b.
Proof. intros E. apply uval_inj, iBig_inj; [apply uval_range..|done]. Qed.
Lemma iAddr_inj a b : addr_ok a -> addr_ok b -> iAddr a = iAddr b -> a = b.
Proof.
  intros Ha Hb E. apply Str_inj, (f_equal be_val) in E. unfold Address_Bytes in E. rewrite !be_val_be_bytes in E.
  change (256 ^ Z.of_nat 20) with (2 ^ 160) in E. by rewrite !Z.mod_small in E.
Qed.
Lemma iHash_inj a b : hash_ok a -> hash_ok b -> iHash a = iHash b -> a = b.
Proof.
  intros Ha Hb E. apply Str_inj, (f_equal be_val) in E. unfold Hash_Bytes in E. rewrite !be_val_be_bytes in E.
  change (256 ^ Z.of_nat 32) with two256 in E. by rewrite !Z.mod_small in E.
Qed.
Lemma iTo_inj a b : to_ok a -> to_ok b -> iTo a = iTo b -> a = b.
Proof.
  destruct a as [a|], b as [b|]; cbn; intros Ha Hb E; [f_equal; by apply iAddr_inj|..|done].
  all: apply (f_equal (fun i => match i with Str l => length l | _ => O end)) in E; done.
Qed.
Lemma items_inj {A} (ok : A -> Prop) (it : A -> item) l : (forall a b, ok a -> ok b -> it a = it b -> a = b) ->
  forall k, Forall ok l -> Forall ok k -> Lst (it <$> l) = Lst (it <$> k) -> l = k.
Proof.
  intros H. induction l as [|a l IH]; intros [|b k] Hl Hk E; try done. apply Lst_inj in E. rewrite !fmap_cons in E.
  apply cons_eq_inv in E as [E1 E2]. apply Forall_cons in Hl as [Ha Hl], Hk as [Hb Hk]. f_equal; [by apply H|]. apply IH; [done..|by rewrite E2].
Qed.
Lemma hashes_inj a b : Forall hash_ok a -> Forall hash_ok b -> Lst (iHash <$> a) = Lst (iHash <$> b) -> a = b.
Proof. apply (items_inj hash_ok iHash), iHash_inj. Qed.
Lemma iAccess_inj a b : access_ok a -> access_ok b -> iAccess a = iAccess b -> a = b.
Proof.
  apply (items_inj tuple_ok iTuple). intros [x l] [y k] [Hx Hl] [Hy Hk] E. unfold iTuple in E. apply Lst_inj in E. split_items E.
  f_equal; [by apply iAddr_inj|by apply hashes_inj].
Qed.
Lemma iAuth_inj a b : auth_ok a -> auth_ok b -> iAuth a = iAuth b -> a = b.
Proof.
  destruct a, b. intros (H1 & H2 & H3) (H1' & H2' & H3') E. apply Lst_inj in E. cbn in *. split_items E. f_equal.
  - by apply iWord_inj.
  - by apply iAddr_inj.
  - by apply iUint_inj.
  - apply iUint_inj; [unfold_u64; unfold is_byte in *; lia..|done].
  - by apply iWord_inj.
  - by apply iWord_inj.
Qed.
Lemma auths_inj a b : Forall auth_ok a -> Forall auth_ok b -> Lst (iAuth <$> a) = Lst (iAuth <$> b) -> a = b.
Proof. apply (items_inj auth_ok iAuth), iAuth_inj. Qed.

(** ** The bytes that are signed determine the content and the chain *)

Definition id_ok (id : option Z) : Prop := 0 <= default 0 id.

Lemma item_exact {A} (i : typeinfo A) ok it v : Exact i ok it -> ok v -> item_ok (it v).
Proof. intros [H _]. apply (c_item _ _ _ H). Qed.

Lemma signedItems_ok t id : data_ok t -> id_ok id -> Forall item_ok (signedItems t id).
Proof.
  intros Hok Hid. pose proof (item_exact _ _ _ _ big_exact Hid) as Hid'.
  pose proof (fun v => item_exact _ _ _ v big_exact) as Hbig. pose proof (fun v => item_exact _ _ _ v uint64_exact) as Huint.
  pose proof (fun v => item_exact _ _ _ v word_exact I) as Hword. pose proof (fun v => item_exact _ _ _ v addr_exact) as Haddr.
  pose proof (fun v => item_exact _ _ _ v to_exact) as Hto. pose proof (fun v => item_exact _ _ _ v access_exact) as Hacc.
  pose proof (fun v => item_exact _ _ _ v (slice_exact _ _ _ hash_exact')) as Hhs.
  pose proof (fun v => item_exact _ _ _ v (slice_exact _ _ _ auth_exact)) as Hau. pose proof ok_Str as Hstr.
  assert (H0 : is_u64 0) by done.
  destruct t as [tx|tx|tx|tx|tx]; cbn [data_ok] in Hok;
    unfold legacy_ok, accessListTx_ok, dynamicFeeTx_ok, blobCore_ok, setCodeTx_ok in Hok; destruct_and? Hok;
    cbn [signedItems]; [destruct id|..]; cbn [app]; repeat (apply Forall_cons; split); try apply Forall_nil; auto.
Qed.

Lemma signedBytes_type t t' id id' : is_u64 (len (signedBytes t id)) -> is_u64 (len (signedBytes t' id')) ->
  signedBytes t id = signedBytes t' id' -> txType t = txType t' /\ encode (Lst (signedItems t id)) = encode (Lst (signedItems t' id')).
Proof.
  intros Hu Hu' E. unfold signedBytes in *.
  destruct t, t'; cbn [app txType] in *; try (split; [done|congruence]); try (by injection E); exfalso.
  all: match type of E with ?x :: _ = _ => destruct (list_first _ Hu') as (y & r & Ey & Hy) | _ = ?x :: _ => destruct (list_first _ Hu) as (y & r & Ey & Hy) end.
  all: rewrite Ey in E; injection E as E _; unfold AccessListTxType, DynamicFeeTxType, BlobTxType, SetCodeTxType in *; lia.
Qed.

Ltac typed_inj :=
  match goal with
  | Hn : ?id = None -> _, Hn' : ?id' = None -> _, E : _ = _ :> list item |- _ =>
      destruct id; [|by specialize (Hn eq_refl)]; destruct id'; [|by specialize (Hn' eq_refl)]; split_items E; cbn [default] in *;
      (split; [unfold signedContent, withoutSidecar, withSidecar; cbn; do 2 f_equal; auto using iUint_inj, iBig_inj, iWord_inj, iAddr_inj, iTo_inj, Str_inj, iAccess_inj, hashes_inj, auths_inj
              |f_equal; by apply iBig_inj])
  end.

Lemma signedItems_inj t t' id id' : data_ok t -> data_ok t' -> id_ok id -> id_ok id' -> txType t = txType t' ->
  (id = None -> txType t = LegacyTxType) -> (id' = None -> txType t' = LegacyTxType) ->
  signedItems t id = signedItems t' id' -> signedContent t = signedContent t' /\ id = id'.
Proof.
  intros Hok Hok' Hid Hid' Ht Hn Hn' E. unfold id_ok in *.
  destruct t as [tx|tx|tx|tx|tx], t' as [tx'|tx'|tx'|tx'|tx']; try done; cbn [data_ok] in Hok, Hok';
    unfold legacy_ok, accessListTx_ok, dynamicFeeTx_ok, blobCore_ok, setCodeTx_ok in Hok, Hok'; destruct_and? Hok; destruct_and? Hok';
    cbn [signedItems] in E.
  - assert (Eid : id = id').
    { destruct id, id'; cbn [app] in E; split_items E; try done. f_equal. by apply iBig_inj. }
    split; [|done]. cbn [app] in E. split_items E. unfold signedContent. cbn. do 2 f_equal; auto using iUint_inj, iBig_inj, iTo_inj, Str_inj.
  - typed_inj.
  - typed_inj.
  - typed_inj.
  - typed_inj.
Qed.

Lemma signedBytes_inj t t' id id' : data_ok t -> data_ok t' -> id_ok id -> id_ok id' ->
  (id = None -> txType t = LegacyTxType) -> (id' = None -> txType t' = LegacyTxType) ->
  is_u64 (len (signedBytes t id)) -> is_u64 (len (signedBytes t' id')) ->
  signedBytes t id = signedBytes t' id' -> signedContent t = signedContent t' /\ id = id'.
Proof.
  intros Hok Hok' Hid Hid' Hn Hn' Hu Hu' E. destruct (signedBytes_type t t' id id' Hu Hu' E) as [Ht Ee].
  apply signedItems_inj; try done. apply Lst_inj. rewrite <- (app_nil_r (encode _)), <- (app_nil_r (encode (Lst (signedItems t' id')))) in Ee.
  eapply encode_prefix_free; [by apply ok_Lst, signedItems_ok|by apply ok_Lst, signedItems_ok| |exact Ee].
  rewrite app_nil_r. unfold signedBytes in Hu. rewrite len_app in Hu. pose proof (len_nonneg (encode (Lst (signedItems t id)))).
  pose proof (len_nonneg (match t with TxLegacy _ => [] | _ => [txType t] end)). unfold_u64. lia.
Qed.

(** The types of transaction a signer handles *)
Definition supports (s : Signer) (t : TxData) : Prop :=
  match s with modernSigner ts _ _ => txType t ∈ ts | _ => txType t = LegacyTxType end.

Lemma signer_Hash_bytes s t : data_ok t -> signer_ok s -> supports s t -> is_u64 (len (signedBytes t (signer_ChainID s))) ->
  signer_Hash s t = Ret (Keccak256 (signedBytes t (signer_ChainID s))).
Proof.
  intros Hok Hs Hsup Hu. destruct s; cbn [signer_Hash signer_ChainID supports signer_ok] in *.
  1,2: destruct t; try done; by apply frontierHash_bytes.
  all: apply sigHash_bytes; tauto.
Qed.

Lemma signer_ok_id s : signer_ok s -> id_ok (signer_ChainID s).
Proof. destruct s; cbn; unfold id_ok; cbn; tauto || lia. Qed.

Section signing.
(** The curve: a signature has the form R || S || V with the small S, and recovers to the public key. *)
Context {Key : Type} (Sign : Hash -> Key -> option bytes) (Ecrecover : Hash -> bytes -> option bytes) (pubOf : Key -> bytes).

Definition curve_ok : Prop := forall h k sig, Sign h k = Some sig -> exists r s v,
  sig = be_bytes 32 r ++ be_bytes 32 s ++ [v] /\ 1 <= r < secp256k1N /\ 1 <= s <= secp256k1N / 2 /\ (v = 0 \/ v = 1) /\
  Ecrecover h sig = Some (4 :: pubOf k).

Definition addressOf (k : Key) : Address := Keccak256 (pubOf k) mod 2 ^ 160.

Lemma recoverPlain_signed h k r s v homestead : 1 <= r < secp256k1N -> 1 <= s <= secp256k1N / 2 -> v = 0 \/ v = 1 ->
  Ecrecover h (be_bytes 32 r ++ be_bytes 32 s ++ [v]) = Some (4 :: pubOf k) ->
  recoverPlain Ecrecover h r s (v + 27) homestead = Ret (inl (addressOf k)).
Proof.
  intros Hr Hs Hv E. assert (secp256k1N < two256 /\ secp256k1N / 2 < secp256k1N) as [HN HN2] by done.
  unfold recoverPlain. assert ((8 <? bitLen (v + 27)) = false) as -> by (by destruct Hv as [-> | ->]).
  assert (u8 (bigUint64 (v + 27) -! 27) = v) as -> by (by destruct Hv as [-> | ->]).
  assert (ValidateSignatureValues v r s homestead = true) as ->.
  { unfold ValidateSignatureValues. replace (r <? 1) with false by lia. replace (s <? 1) with false by lia.
    replace (secp256k1N / 2 <? s) with false by lia. rewrite andb_false_r. cbn [orb].
    replace (r <? secp256k1N) with true by lia. replace (s <? secp256k1N) with true by lia. by destruct Hv as [-> | ->]. }
  cbn [negb]. rewrite !padded32_ok by lia. cbn [mbind outcome_bind]. rewrite E. done.
Qed.

Lemma signature_index r s v : index (be_bytes 32 r ++ be_bytes 32 s ++ [v]) 64 = Ret v.
Proof.
  unfold index. change (0 <=? 64) with true. cbv iota. change (Z.to_nat 64) with 64%nat.
  rewrite lookup_app_r, lookup_app_r by (rewrite ?be_bytes_length; lia). rewrite !be_bytes_length. done.
Qed.

Lemma signature_R r s v : 0 <= r < two256 -> be_val (zslice (be_bytes 32 r ++ be_bytes 32 s ++ [v]) 0 32) = r.
Proof.
  intros Hr. unfold zslice. change (Z.to_nat (32 - 0)) with 32%nat. change (Z.to_nat 0) with 0%nat.
  rewrite drop_0, take_app_le, take_ge by (rewrite be_bytes_length; lia). rewrite be_val_be_bytes. by apply Z.mod_small.
Qed.
Lemma signature_S r s v : 0 <= s < two256 -> be_val (zslice (be_bytes 32 r ++ be_bytes 32 s ++ [v]) 32 64) = s.
Proof.
  intros Hs. unfold zslice. change (Z.to_nat (64 - 32)) with 32%nat. change (Z.to_nat 32) with 32%nat.
  rewrite drop_app_length' by (rewrite be_bytes_length; lia). rewrite take_app_le, take_ge by (rewrite be_bytes_length; lia).
  rewrite be_val_be_bytes. by apply Z.mod_small.
Qed.

Lemma decodeSignature_ok r s v : 0 <= r < two256 -> 0 <= s < two256 -> v = 0 \/ v = 1 ->
  decodeSignature (be_bytes 32 r ++ be_bytes 32 s ++ [v]) = Ret (r, s, v + 27).
Proof.
  intros Hr Hs Hv. assert (Hlen : len (be_bytes 32 r ++ be_bytes 32 s ++ [v]) = 65) by (unfold len; rewrite !length_app, !be_bytes_length; done).
  unfold decodeSignature, SignatureLength, slice. rewrite Hlen. cbn [negb Z.eqb Pos.eqb Z.leb Z.compare Pos.compare Pos.compare_cont andb mbind outcome_bind].
  rewrite signature_index. cbn [mbind outcome_bind]. rewrite signature_R, signature_S by done. by destruct Hv as [-> | ->].
Qed.

(** The signers of the forks, for a chain id *)
Inductive signer_of (id : Z) : Signer -> Prop :=
  | of_frontier : signer_of id FrontierSigner
  | of_homestead : signer_of id HomesteadSigner
  | of_eip155 : signer_of id (EIP155Signer id (id * 2))
  | of_modern ts : signer_of id (modernSigner ts id (EIP155Signer id (id * 2))).

Lemma newModernSigner_of id fork s : forks_SpuriousDragon <= fork -> newModernSigner (Some id) fork = Ret s -> signer_of id s.
Proof.
  intros Hf. unfold newModernSigner. case_if; [done|]. intros [= <-]. replace (forks_SpuriousDragon <=? fork) with true by lia. apply of_modern.
Qed.

Lemma MakeSigner_of config num time id s : config_ChainID_ config = Some id -> MakeSigner config num time = Ret s -> signer_of id s.
Proof.
  intros Hid. unfold MakeSigner, NewPragueSigner, NewCancunSigner, NewLondonSigner, NewEIP2930Signer. rewrite Hid.
  repeat case_if; try (apply newModernSigner_of; done); intros [= <-]; constructor.
Qed.

(** The chain id of EIP-155 in V *)
Lemma bitLen_le v n : 0 <= n -> 0 <= v -> bitLen v <= n -> v < 2 ^ n.
Proof.
  intros Hn Hv H. unfold bitLen in H. destruct (Z.eqb_spec v 0) as [->|]; [by apply Z.pow_pos_nonneg|]. rewrite Z.abs_eq in H by lia.
  destruct (Z.log2_spec v ltac:(lia)) as [_ Hl]. eapply Z.lt_le_trans; [exact Hl|]. apply Z.pow_le_mono_r; lia.
Qed.

Lemma deriveChainId_ok id v : 0 < id -> v = 0 \/ v = 1 -> deriveChainId (v + 35 + id * 2) = id /\ isProtectedV (v + 35 + id * 2) = true.
Proof.
  intros Hid Hv. set (V := v + 35 + id * 2). split.
  - unfold deriveChainId. destruct (Z.leb_spec (bitLen V) 64) as [Hb|Hb].
    + apply bitLen_le in Hb; [|lia..]. unfold bigUint64. rewrite Z.abs_eq by lia. rewrite (wrap64_small V) by (unfold_u64; lia).
      replace (V =? 27) with false by lia. replace (V =? 28) with false by lia. cbn [orb]. rewrite wrap64_small by (unfold_u64; lia).
      symmetry. apply (Z.div_unique _ _ _ v); lia.
    + rewrite Z.shiftr_div_pow2 by lia. symmetry. apply (Z.div_unique _ _ _ v); lia.
  - unfold isProtectedV. destruct (Z.leb_spec (bitLen V) 8) as [Hb|Hb]; [|done].
    apply bitLen_le in Hb; [|lia..]. unfold bigUint64. rewrite Z.abs_eq by lia. rewrite (wrap64_small V) by (unfold_u64; lia).
    replace (V =? 27) with false by lia. replace (V =? 28) with false by lia.
    replace (V =? 1) with false by lia. replace (V =? 0) with false by lia. done.
Qed.

(** What a signature by [k] gives *)
Definition signed_by (s : Signer) (k : Key) (t t' : TxData) : Prop :=
  unsigned t' = unsigned t /\ signer_Sender Ecrecover s t' = Ret (inl (addressOf k)).

Lemma sign_eip155 id t k h r s v : 0 < id -> txType t = LegacyTxType -> 1 <= r < secp256k1N -> 1 <= s <= secp256k1N / 2 -> v = 0 \/ v = 1 ->
  Ecrecover h (be_bytes 32 r ++ be_bytes 32 s ++ [v]) = Some (4 :: pubOf k) -> tx_sigHash t id = Ret h ->
  exists t', setSignatureValues (Some id) (v + 35 + id * 2) r s t = Ret t' /\ signed_by (EIP155Signer id (id * 2)) k t t'.
Proof.
  intros Hid Ht Hr Hs Hv E Hh. destruct t as [tx| | | |]; try done. cbn. eexists. split; [done|]. split; [done|].
  destruct (deriveChainId_ok id v Hid Hv) as [Ec Ep]. cbn [signer_Sender]. unfold EIP155Signer_Sender. cbn [txType Protected l_V chainID rawSignatureValues].
  change (negb (LegacyTxType =? LegacyTxType)) with false. rewrite Ep, Ec, Z.eqb_refl. cbn [negb].
  change (tx_sigHash (TxLegacy _) id) with (tx_sigHash (TxLegacy tx) id). rewrite Hh. cbn [mbind outcome_bind l_R l_S].
  replace (v + 35 + id * 2 - id * 2 - 8) with (v + 27) by lia. by apply recoverPlain_signed.
Qed.

Lemma FromBig_small z : 0 <= z < two256 -> uval (FromBig z) = z.
Proof. intros. rewrite FromBig_spec. by apply Z.mod_small. Qed.

Lemma sign_typed id ts l t k h r s v : 0 < id < two256 -> txType t <> LegacyTxType -> txType t ∈ ts ->
  1 <= r < secp256k1N -> 1 <= s <= secp256k1N / 2 -> v = 0 \/ v = 1 ->
  Ecrecover h (be_bytes 32 r ++ be_bytes 32 s ++ [v]) = Some (4 :: pubOf k) -> tx_sigHash t id = Ret h ->
  exists t', setSignatureValues (Some id) v r s t = Ret t' /\ signed_by (modernSigner ts id l) k t t'.
Proof.
  intros Hid Ht Hts Hr Hs Hv E Hh. assert (secp256k1N < two256 /\ secp256k1N / 2 < secp256k1N) as [HN HN2] by done.
  assert (Ev : 0 <= v < two256) by (unfold two256; lia).
  destruct t as [tx|tx|tx|tx|tx]; [done|..]; cbn [setSignatureValues]; rewrite ?FromBigOverflow_spec;
    try (replace (two256 <=? Z.abs id) with false by lia); (eexists; split; [done|]); (split; [done|]); cbn [signer_Sender];
    unfold supportsType; rewrite bool_decide_true by done; cbn [txType negb Z.eqb LegacyTxType AccessListTxType DynamicFeeTxType BlobTxType SetCodeTxType chainID a_ChainID d_ChainID b_ChainID c_ChainID];
    rewrite ?(FromBig_small id) by lia; rewrite Z.eqb_refl; cbn [negb rawSignatureValues a_V a_R a_S d_V d_R d_S b_V b_R b_S c_V c_R c_S];
    rewrite ?FromBig_small by lia.
  - change (tx_sigHash (TxAccessList _) id) with (tx_sigHash (TxAccessList tx) id). rewrite Hh. by apply recoverPlain_signed.
  - change (tx_sigHash (TxDynamicFee _) id) with (tx_sigHash (TxDynamicFee tx) id). rewrite Hh. by apply recoverPlain_signed.
  - change (tx_sigHash (TxBlob _) id) with (tx_sigHash (TxBlob tx) id). rewrite Hh. by apply recoverPlain_signed.
  - change (tx_sigHash (TxSetCode _) id) with (tx_sigHash (TxSetCode tx) id). rewrite Hh. by apply recoverPlain_signed.
Qed.

Lemma sign_plain s0 t k h r s v : s0 = FrontierSigner \/ s0 = HomesteadSigner -> txType t = LegacyTxType ->
  1 <= r < secp256k1N -> 1 <= s <= secp256k1N / 2 -> v = 0 \/ v = 1 ->
  Ecrecover h (be_bytes 32 r ++ be_bytes 32 s ++ [v]) = Some (4 :: pubOf k) -> frontierHash t = Ret h ->
  exists t', setSignatureValues None (v + 27) r s t = Ret t' /\ signed_by s0 k t t'.
Proof.
  intros Hs0 Ht Hr Hs Hv E Hh. destruct t as [tx| | | |]; try done. cbn. eexists. split; [done|]. split; [done|].
  destruct Hs0 as [-> | ->]; cbn [signer_Sender]; unfold FrontierSigner_Sender, HomesteadSigner_Sender; cbn [txType rawSignatureValues]; change (negb (LegacyTxType =? LegacyTxType)) with false; cbv iota;
    change (frontierHash (TxLegacy _)) with (frontierHash (TxLegacy tx)); rewrite Hh; by apply recoverPlain_signed.
Qed.

(** The modern signer, one level at a time *)
Lemma modern_Sender ts id l t : signer_Sender Ecrecover (modernSigner ts id l) t =
  if negb (supportsType ts (txType t)) then Ret (inr ErrTxTypeNotSupported)
  else if txType t =? LegacyTxType then signer_Sender Ecrecover l t
  else if negb (chainID t =? id) then Ret (inr ErrInvalidChainId)
  else let '(V, R, S_) := rawSignatureValues t in h ← tx_sigHash t id; recoverPlain Ecrecover h R S_ (V + 27) true.
Proof. done. Qed.

Lemma modern_SignatureValues ts id l t sig : SignatureValues (modernSigner ts id l) t sig =
  if negb (supportsType ts (txType t)) then Ret (inr ErrTxTypeNotSupported)
  else if txType t =? LegacyTxType then SignatureValues l t sig
  else if negb (Z.sgn (chainID t) =? 0) && negb (chainID t =? id) then Ret (inr ErrInvalidChainId)
  else '(R, S_, _) ← decodeSignature sig; V ← index sig 64; Ret (inl (R, S_, V)).
Proof. done. Qed.

Lemma SignTx_sender id s t k h sig : curve_ok -> 0 < id < two256 -> signer_of id s -> supports s t ->
  (txType t = LegacyTxType \/ chainID t = 0 \/ chainID t = id) -> signer_Hash s t = Ret h -> Sign h k = Some sig ->
  exists t', SignTx Sign (NewTx t) s k = Ret (inl (mkTx t' None 0 None)) /\ signed_by s k t t'.
Proof.
  intros Hc Hid Hs Hsup Hch Hh Hsig. destruct (Hc h k sig Hsig) as (r & s_ & v & -> & Hr & Hs_ & Hv & E).
  assert (secp256k1N < two256 /\ secp256k1N / 2 < secp256k1N) as [HN HN2] by done.
  unfold SignTx, NewTx, freshTx, setDecoded. cbn [inner]. rewrite Hh. cbn [mbind outcome_bind]. rewrite Hsig. unfold WithSignature. cbn [inner].
  assert (Hd : decodeSignature (be_bytes 32 r ++ be_bytes 32 s_ ++ [v]) = Ret (r, s_, v + 27)) by (apply decodeSignature_ok; lia || done).
  assert (H155 : forall t, txType t = LegacyTxType -> SignatureValues (EIP155Signer id (id * 2)) t (be_bytes 32 r ++ be_bytes 32 s_ ++ [v]) =
    Ret (inl (r, s_, v + 35 + id * 2))).
  { intros t' Ht'. cbn [SignatureValues]. unfold EIP155Signer_SignatureValues. rewrite Ht'. change (negb (LegacyTxType =? LegacyTxType)) with false. rewrite Hd. cbn [mbind outcome_bind].
    replace (Z.sgn id =? 0) with false by lia. cbn [negb]. rewrite signature_index. cbn. by destruct Hv as [-> | ->]. }
  clear HN HN2. destruct Hs as [| | |ts]; cbn [supports] in Hsup.
  - cbn [SignatureValues]. unfold FrontierSigner_SignatureValues. rewrite Hsup. change (negb (LegacyTxType =? LegacyTxType)) with false. rewrite Hd. cbn [mbind outcome_bind signer_ChainID].
    destruct (sign_plain FrontierSigner t k h r s_ v) as (t' & -> & ?); [tauto|done..|]. by exists t'.
  - cbn [SignatureValues]. unfold FrontierSigner_SignatureValues. rewrite Hsup. change (negb (LegacyTxType =? LegacyTxType)) with false. rewrite Hd. cbn [mbind outcome_bind signer_ChainID].
    destruct (sign_plain HomesteadSigner t k h r s_ v) as (t' & -> & ?); [tauto|done..|]. by exists t'.
  - rewrite H155 by done. cbn [mbind outcome_bind signer_ChainID].
    destruct (sign_eip155 id t k h r s_ v) as (t' & -> & ?); [lia|done..|]. by exists t'.
  - rewrite modern_SignatureValues.
    unfold supportsType. rewrite bool_decide_true by done. cbn [negb]. destruct (Z.eqb_spec (txType t) LegacyTxType) as [Ht|Ht].
    + rewrite H155 by done. cbn [mbind outcome_bind signer_ChainID].
      destruct (sign_eip155 id t k h r s_ v) as (t' & -> & Hu & Hsnd); [lia|done..|]. exists t'. split; [done|]. split; [done|].
      rewrite modern_Sender. assert (txType t' = LegacyTxType) as Ht' by (destruct t; try done; by destruct t').
      rewrite Ht'. unfold supportsType. rewrite bool_decide_true by (by rewrite <- Ht). exact Hsnd.
    + assert (negb (Z.sgn (chainID t) =? 0) && negb (chainID t =? id) = false) as ->.
      { destruct Hch as [?|[-> | ->]]; [done|done|]. by rewrite Z.eqb_refl, andb_false_r. }
      rewrite Hd. cbn [mbind outcome_bind]. rewrite signature_index. cbn [mbind outcome_bind signer_ChainID].
      destruct (sign_typed id ts (EIP155Signer id (id * 2)) t k h r s_ v) as (t' & -> & ?); [done..|]. by exists t'.
Qed.
End signing.

(** ** Prices *)

Lemma effectivePrice_min cap tip base : effectivePrice cap tip (Some base) = Z.min (tip + base) cap.
Proof. unfold effectivePrice. case_if; bool_to_Z; lia. Qed.

(** ** Theorems *)

(** C10 Well-formed transaction data of every type, with or without the blobs of a blob transaction, is encoded
    without an error by [MarshalBinary], and [UnmarshalBinary] of the bytes gives the same data back. *)
Theorem tx_binary_roundtrip (t : TxData) : data_ok t -> len (binary t) < 2 ^ 63 ->
  exists b, MarshalBinary t = Ret (b, None) /\ UnmarshalBinary b = Ret (inl t).
Proof.
  intros Hok Hl. exists (binary t). split; [|by apply UnmarshalBinary_ok]. apply MarshalBinary_ok; [done|].
  apply len_u64. unfold binary in Hl. destruct t; rewrite ?len_cons in Hl; lia.
Qed.

(** C9 [UnmarshalBinary] returns on every input, a transaction or an error and never a panic; and it accepts
    exactly one encoding of a transaction: what it decodes is encoded to the input again. *)
Theorem UnmarshalBinary_canonical (b : bytes) : Forall is_byte b -> len b < 2 ^ 63 ->
  exists r, UnmarshalBinary b = Ret r /\ forall t, r = inl t -> data_ok t /\ MarshalBinary t = Ret (b, None).
Proof.
  intros Hb Hl. destruct (UnmarshalBinary_canon b Hb Hl) as (r & E & H). exists r. split; [done|]. intros t Ht.
  destruct (H t Ht) as [Hok ->]. split; [done|]. apply MarshalBinary_ok; [done|].
  apply len_u64. unfold binary in Hl. destruct t; rewrite ?len_cons in Hl; lia.
Qed.

(** C11 The caches of a transaction are transparent: after any sequence of calls that decode it, hash it, ask for
    its size or its sender (with any signers), sign it, add or remove its sidecar, [Hash] and [Sender] return what a
    computation from the data returns.  Where [Size] is right when it is computed, it is right from the cache: if the
    list header of the sidecar is as long as that of the transaction with its sidecar ([plain]; always so without a
    sidecar), [Size] returns the length of the binary encoding. *)
Theorem caches_transparent (Ecrecover : Hash -> bytes -> option bytes) (tx : Transaction) : history Ecrecover tx ->
  (p ← tx_Hash tx; Ret p.1) = hashOf (inner tx) /\
  (forall s, signer_ok s -> (p ← Sender Ecrecover s tx; Ret p.1) = signer_Sender Ecrecover s (inner tx)) /\
  (plain (inner tx) -> len (binary (inner tx)) < 2 ^ 63 -> exists b,
     MarshalBinary (inner tx) = Ret (b, None) /\ (p ← tx_Size tx; Ret p.1) = Ret (len b)).
Proof.
  intros H. apply history_coherent in H. split_and!.
  - pose proof (tx_Hash_coherent _ tx H) as E. destruct (tx_Hash tx) as [[h tx']|]; [by destruct E as (-> & _)|done].
  - intros s Hs. pose proof (Sender_coherent _ s tx Hs H) as E. destruct (Sender Ecrecover s tx) as [[r tx']|]; [by destruct E as (-> & _)|done].
  - intros Hp Hl. exists (binary (inner tx)). destruct (tx_Size_coherent _ tx H Hp Hl) as (tx' & -> & _). split; [|done].
    apply MarshalBinary_ok; [apply H|]. apply len_u64. unfold binary in Hl. destruct (inner tx); rewrite ?len_cons in Hl; lia.
Qed.

(** C8 A transaction signed with a key by the signer of a block, on a chain with a positive chain id below 2^256, has
    the address of the key as its sender for the same signer, for every type of transaction the signer supports (whose
    own chain id, if it is set, is that of the chain); and the signature changes nothing but the signature values and
    the chain id: the sidecar of a blob transaction is kept. *)
Theorem signed_sender {Key : Type} (Sign : Hash -> Key -> option bytes) (Ecrecover : Hash -> bytes -> option bytes) (pubOf : Key -> bytes)
    (config : ChainConfig) (num : option Z) (time id : Z) (s : Signer) (t : TxData) (k : Key) (h : Hash) (sig : bytes) :
  curve_ok Sign Ecrecover pubOf -> config_ChainID_ config = Some id -> 0 < id < two256 ->
  MakeSigner config num time = Ret s -> supports s t -> txType t = LegacyTxType \/ chainID t = 0 \/ chainID t = id ->
  signer_Hash s t = Ret h -> Sign h k = Some sig ->
  exists tx, SignTx Sign (NewTx t) s k = Ret (inl tx) /\ unsigned (inner tx) = unsigned t /\
    (p ← Sender Ecrecover s tx; Ret p.1) = Ret (inl (addressOf pubOf k)).
Proof.
  intros Hc Hcfg Hid Hs Hsup Hch Hh Hsig. pose proof (MakeSigner_of config num time id s Hcfg Hs) as Hof.
  destruct (SignTx_sender Sign Ecrecover pubOf id s t k h sig) as (t' & E & Hu & Hsnd); [done..|].
  eexists. split; [done|]. split; [done|]. unfold Sender, mbind, st_bind, st_get, st_lift. cbn [tx_from inner outcome_bind]. by rewrite Hsnd.
Qed.

(** What is hashed for a signature determines the transaction and the chain: the signers' hashes are Keccak
    hashes of byte strings that coincide only if the transactions agree in everything but signature and sidecar and
    both signers have the same chain id (or none).  A signature for one chain or type is none for another. *)
Theorem signed_content_binds (s s' : Signer) (t t' : TxData) : data_ok t -> data_ok t' -> signer_ok s -> signer_ok s' ->
  supports s t -> supports s' t' ->
  is_u64 (len (signedBytes t (signer_ChainID s))) -> is_u64 (len (signedBytes t' (signer_ChainID s'))) ->
  exists p p', signer_Hash s t = Ret (Keccak256 p) /\ signer_Hash s' t' = Ret (Keccak256 p') /\
    (p = p' -> signedContent t = signedContent t' /\ signer_ChainID s = signer_ChainID s').
Proof.
  intros Hok Hok' Hs Hs' Hsup Hsup' Hu Hu'. exists (signedBytes t (signer_ChainID s)), (signedBytes t' (signer_ChainID s')).
  split_and!; [by apply signer_Hash_bytes..|]. intros E.
  eapply (signedBytes_inj t t' _ _ Hok Hok'); [by apply signer_ok_id|by apply signer_ok_id| | |done..].
  - by destruct s.
  - by destruct s'.
Qed.

(** The gas price that [TransactionToMessage] puts into the message is the effective gas price of the transaction
    at the base fee of the block, and where the fee cap covers the base fee it is the base fee plus the effective tip;
    the sender is that of [Sender], and the other fields are those of the transaction. *)
Theorem TransactionToMessage_price (Ecrecover : Hash -> bytes -> option bytes) (s : Signer) (tx : Transaction) (baseFee : option Z) :
  0 <= default 0 baseFee -> 0 <= gasTipCap (inner tx) ->
  match TransactionToMessage Ecrecover s baseFee tx with
  | Ret (msg, err, tx') =>
      msg_GasPrice msg = effectiveGasPrice (inner tx) baseFee /\
      ((EffectiveGasTip (inner tx) baseFee).2 = None -> baseFee <> None ->
         msg_GasPrice msg = default 0 baseFee + (EffectiveGasTip (inner tx) baseFee).1 /\ 0 <= (EffectiveGasTip (inner tx) baseFee).1) /\
      (exists r, Sender Ecrecover s tx = Ret (r, tx') /\ match r with inl a => From_ msg = a /\ err = None | inr e => err = Some e end) /\
      msg_Nonce msg = nonce (inner tx) /\ To msg = to_ (inner tx) /\ Value msg = value (inner tx) /\ msg_GasLimit msg = gas (inner tx) /\
      Data msg = data (inner tx)
  | Fail f => Sender Ecrecover s tx = Fail f
  end.
Proof.
  intros Hb Ht. unfold TransactionToMessage, st_gets. unfold mbind, st_bind. destruct (Sender Ecrecover s tx) as [[r tx']|f]; [|done].
  destruct r as [a|e]; cbn; (split_and!; [|intros He Hn|by eexists|done..]).
  all: try (destruct baseFee as [base|]; [|done || by destruct (inner tx)]; cbn in *).
  all: try (unfold effectiveGasPrice; destruct (inner tx); rewrite ?effectivePrice_min; cbn in *; case_if; bool_to_Z; lia).
  all: destruct (Z.ltb_spec (gasFeeCap (inner tx)) base); [done|]; repeat case_if; bool_to_Z; lia.
Qed.
End theorems.

(** ** Witnesses *)

(** A legacy transaction to address 5, and one with an access list *)
Definition demo_legacy : TxData := TxLegacy (mkLegacyTx 1 20 21000 (Some 5) 7 [1; 2] 0 0 0).
Definition demo_access : TxData := TxAccessList (mkAccessListTx 1 1 20 21000 None 7 [1; 2] [(5, [9])] 0 0 0).

Lemma demo_legacy_ok : data_ok demo_legacy.
Proof. cbn. unfold legacy_ok; cbn. split_and!; try done; repeat (apply Forall_cons; split); done. Qed.
Lemma demo_access_ok : data_ok demo_access.
Proof.
  cbn. unfold accessListTx_ok; cbn. split_and!; try done; repeat (apply Forall_cons; split); try done.
  split; [done|]. by apply Forall_cons.
Qed.

Lemma tx_binary_roundtrip_witness : exists b, MarshalBinary demo_access = Ret (b, None) /\ UnmarshalBinary b = Ret (inl demo_access).
Proof. apply (tx_binary_roundtrip demo_access demo_access_ok). vm_compute. reflexivity. Defined.

Lemma UnmarshalBinary_canonical_witness :
  exists r, UnmarshalBinary [203; 1; 20; 130; 82; 8; 128; 7; 128; 128; 128; 128] = Ret r /\
    forall t, r = inl t -> data_ok t /\ MarshalBinary t = Ret ([203; 1; 20; 130; 82; 8; 128; 7; 128; 128; 128; 128], None).
Proof. apply UnmarshalBinary_canonical; [by repeat (apply Forall_cons; split)|done]. Defined.

(** A curve of two keys: a signature has the number of the key as R and a digest of the hash as S. *)
Definition demo_tx_crypto : Crypto := {| Keccak256 l := be_val l mod two256 |}.
Definition demo_S (h : Hash) : Z := h mod 2 ^ 200 + 1.
Definition demo_Sign (h : Hash) (k : bool) : option bytes := Some (be_bytes 32 (if k then 1 else 2) ++ be_bytes 32 (demo_S h) ++ [0]).
Definition demo_Ecrecover (h : Hash) (sig : bytes) : option bytes :=
  if be_val (zslice sig 32 64) =? demo_S h then Some [4; be_val (zslice sig 0 32)] else Some [4; 0].
Definition demo_pub (k : bool) : bytes := [if k then 1 else 2].

Lemma demo_curve : curve_ok demo_Sign demo_Ecrecover demo_pub.
Proof.
  intros h k sig E. assert (sig = be_bytes 32 (if k then 1 else 2) ++ be_bytes 32 (demo_S h) ++ [0]) as -> by (unfold demo_Sign in E; congruence). clear E. assert (Hk : 1 <= (if k then 1 else 2) < 3) by (destruct k; lia).
  assert (H2 : 2 ^ 200 < secp256k1N / 2 /\ secp256k1N < two256) by done. destruct H2 as [H2 HN].
  assert (secp256k1N / 2 < secp256k1N) by done. assert (Hs : 1 <= demo_S h <= 2 ^ 200).
  { unfold demo_S. pose proof (Z.mod_pos_bound h (2 ^ 200) ltac:(done)). lia. }
  exists (if k then 1 else 2), (demo_S h), 0. split; [done|]. split; [lia|]. split; [lia|]. split; [by left|].
  unfold demo_Ecrecover. rewrite signature_S, Z.eqb_refl by lia. rewrite signature_R by lia. done.
Qed.

Definition demo_config : ChainConfig :=
  mkChainConfig (Some 1) (Some 0) None false (Some 0) (Some 0) (Some 0) (Some 0) (Some 0) (Some 0) (Some 0) (Some 0) (Some 0)
    (Some 0) None None None None None None None None None.

(** The London signer of chain 1 *)
Definition demo_signer : Signer :=
  match MakeSigner demo_config (Some 5) 0 with Ret s => s | Fail _ => FrontierSigner end.
Definition demo_hash (t : TxData) : Hash := match @signer_Hash _ demo_tx_crypto demo_signer t with Ret h => h | Fail _ => 0 end.

Lemma signed_sender_witness :
  exists tx, @SignTx _ demo_tx_crypto bool demo_Sign (NewTx demo_legacy) demo_signer true = Ret (inl tx) /\ unsigned (inner tx) = unsigned demo_legacy /\
    (p ← @Sender _ demo_tx_crypto demo_Ecrecover demo_signer tx; Ret p.1) = Ret (inl (@addressOf demo_tx_crypto bool demo_pub true)).
Proof.
  apply (@signed_sender _ _ demo_tx_crypto bool demo_Sign demo_Ecrecover demo_pub demo_config (Some 5) 0 1 demo_signer demo_legacy true (demo_hash demo_legacy)
    (be_bytes 32 1 ++ be_bytes 32 (demo_S (demo_hash demo_legacy)) ++ [0])).
  - apply demo_curve.
  - reflexivity.
  - done.
  - vm_compute. reflexivity.
  - vm_compute. reflexivity.
  - by left.
  - vm_compute. reflexivity.
  - reflexivity.
Defined.

Lemma signed_content_binds_witness : exists p p',
  @signer_Hash _ demo_tx_crypto demo_signer demo_access = Ret (@Keccak256 demo_tx_crypto p) /\
  @signer_Hash _ demo_tx_crypto HomesteadSigner demo_legacy = Ret (@Keccak256 demo_tx_crypto p') /\
  (p = p' -> signedContent demo_access = signedContent demo_legacy /\ signer_ChainID demo_signer = signer_ChainID HomesteadSigner).
Proof.
  apply (@signed_content_binds _ _ demo_tx_crypto demo_signer HomesteadSigner demo_access demo_legacy).
  - apply demo_access_ok.
  - apply demo_legacy_ok.
  - vm_compute. split; [done|]. by split.
  - done.
  - vm_compute. reflexivity.
  - done.
  - split; vm_compute; done.
  - split; vm_compute; done.
Defined.

(** A transaction after a call of [Hash] and one of [Sender] with another signer *)
Definition after {A} (m : ST Transaction A) (tx : Transaction) : Transaction := match m tx with Ret (_, tx') => tx' | Fail _ => tx end.
Lemma after_ret {A} (m : ST Transaction A) tx : (match m tx with Ret _ => true | Fail _ => false end) = true -> exists a, m tx = Ret (a, after m tx).
Proof. unfold after. destruct (m tx) as [[a tx']|]; [by exists a|done]. Qed.

Definition demo_hashed : Transaction := after (@tx_Hash _ demo_tx_crypto) (NewTx demo_legacy).
Definition demo_used : Transaction := after (@Sender _ demo_tx_crypto demo_Ecrecover HomesteadSigner) demo_hashed.
Lemma demo_used_history : @history _ demo_tx_crypto demo_Ecrecover demo_used.
Proof.
  destruct (after_ret (@tx_Hash _ demo_tx_crypto) (NewTx demo_legacy)) as [h E]; [vm_compute; reflexivity|].
  destruct (after_ret (@Sender _ demo_tx_crypto demo_Ecrecover HomesteadSigner) demo_hashed) as [r E']; [vm_compute; reflexivity|].
  exact (@h_sender _ demo_tx_crypto demo_Ecrecover HomesteadSigner demo_hashed r demo_used (h_hash _ _ _ _ (h_new _ _ demo_legacy_ok) E) I E').
Qed.

Lemma caches_transparent_witness : (p ← @Sender _ demo_tx_crypto demo_Ecrecover demo_signer demo_used; Ret p.1) =
  @signer_Sender _ demo_tx_crypto demo_Ecrecover demo_signer (inner demo_used).
Proof.
  apply (@caches_transparent _ _ demo_tx_crypto demo_Ecrecover demo_used demo_used_history). vm_compute. split; [done|]. by split.
Defined.

Lemma TransactionToMessage_price_witness :
  match @TransactionToMessage _ demo_tx_crypto demo_Ecrecover HomesteadSigner (Some 9) (NewTx demo_legacy) with
  | Ret (msg, _, _) => msg_GasPrice msg = effectiveGasPrice demo_legacy (Some 9)
  | Fail _ => False
  end.
Proof.
  pose proof (@TransactionToMessage_price _ _ demo_tx_crypto demo_Ecrecover HomesteadSigner (NewTx demo_legacy) (Some 9) ltac:(done) ltac:(done)) as H.
  assert (Hr : (match @TransactionToMessage _ demo_tx_crypto demo_Ecrecover HomesteadSigner (Some 9) (NewTx demo_legacy) with Ret _ => true | Fail _ => false end) = true)
    by (vm_compute; reflexivity).
  destruct (TransactionToMessage _ _ _ _) as [[[msg err] tx']|f]; [exact (proj1 H)|discriminate Hr].
Defined.

(** The EIP-155 signer of chain 0 signs one hash and checks another one: a signature of key [true] is
    recovered to some other address. *)
Example eip155_chain_zero :
  match @SignTx _ demo_tx_crypto bool demo_Sign (NewTx demo_legacy) (NewEIP155Signer None) true with
  | Ret (inl tx) => match @Sender _ demo_tx_crypto demo_Ecrecover (NewEIP155Signer None) tx with Ret (inl a, _) => Some a | _ => None end
  | _ => None
  end = Some 0 /\ @addressOf demo_tx_crypto bool demo_pub true = 1.
Proof. split; vm_compute; reflexivity. Qed.

(** The size that [Size] computes for a blob transaction with an empty sidecar is less than that of the encoding. *)
Definition demo_blob : TxData :=
  TxBlob (mkBlobTx (FromBig 1) 0 (FromBig 1) (FromBig 2) 21000 5 (FromBig 0) [] [] (FromBig 1) [1] (Some (mkSidecar [] [] []))
    (FromBig 0) (FromBig 1) (FromBig 1)).
Example Size_empty_sidecar :
  match MarshalBinary demo_blob, sizeOf demo_blob with
  | Ret (b, None), Ret n => Some (len b, n)
  | _, _ => None
  end = Some (77, 76).
Proof. vm_compute. reflexivity. Qed.

(** The chain id of a legacy transaction that is not signed, and so not protected, is not zero. *)
Example ChainId_unsigned : Protected demo_legacy = false /\ chainID demo_legacy = 9223372036854775790.
Proof. split; vm_compute; reflexivity. Qed.
