(* ===== verification/Receipts.v ===== *)
(** * Bloom filters, logs and receipts ([core/types/bloom9.go], [log.go], [receipt.go])

    A bloom filter is its 256 bytes.  A log of a receipt is the log of the state database
    ([TxLog]: contract, topics, data, block number, transaction and index) with the hash of its
    block.  Decoding fills the consensus fields and leaves the others as they are. *)

From S2P Require Import Prelude Bytes Uint256 Params Machine Rlp RlpStream RlpTypes VM State ChainConfig StateTransition Transactions TxSigning.

Set Default Proof Using "Type".

(** ** Bloom filters *)

Definition BloomByteLength : Z := 256.
Definition Bloom0 : bytes := zreplicate BloomByteLength 0.

Section receipts.
Context `{U : Uint256} `{C : Crypto}.

(** [binary.BigEndian.Uint16] *)
Definition be16 (hi lo : Z) : Z := hi * 256 + lo.

(** The pairs of an index and a bit of [bloomValues] *)
Definition bloomValue (hi lo : Z) : Z * Z :=
  (BloomByteLength - Z.shiftr (Z.land (be16 hi lo) 0x7ff) 3 - 1, u8 (Z.shiftl 1 (Z.land lo 0x7))).

Definition bloomValues (data : bytes) : list (Z * Z) :=
  let hashbuf := take 6 (Hash_Bytes (Keccak256 data)) in
  match hashbuf with
  | [b0; b1; b2; b3; b4; b5] => [bloomValue b0 b1; bloomValue b2 b3; bloomValue b4 b5]
  | _ => []
  end.

(** [b[i] |= v] *)
Definition orAt (b : bytes) (iv : Z * Z) : Outcome bytes :=
  x ← index b iv.1; Ret (<[Z.to_nat iv.1 := Z.lor x iv.2]> b).

Definition AddWithBuffer (b : bytes) (d : bytes) : Outcome bytes :=
  foldl (fun b iv => b ← b; orAt b iv) (Ret b) (bloomValues d).

Definition Bloom_Test (b : bytes) (topic : bytes) : Outcome bool :=
  foldl (fun acc iv => acc ← acc; x ← index b iv.1; Ret (acc && (iv.2 =? Z.land iv.2 x))) (Ret true) (bloomValues topic).

(** [type Log struct] in a receipt *)
Record BlockLog := mkBlockLog { bl_log : TxLog; bl_BlockHash : Hash }.

Definition addLogToBloom (bin : bytes) (l : Log) : Outcome bytes :=
  bin ← AddWithBuffer bin (Address_Bytes (log_Address l));
  foldl (fun bin t => bin ← bin; AddWithBuffer bin (Hash_Bytes t)) (Ret bin) (log_Topics l).

(** [CreateBloom] of the logs of a receipt *)
Definition CreateBloom (logs : list BlockLog) : Outcome bytes :=
  foldl (fun bin l => bin ← bin; addLogToBloom bin (tl_log (bl_log l))) (Ret Bloom0) logs.

(** [func (b *Bloom) SetBytes(d []byte)] on a zero filter *)
Definition BytesToBloom (d : bytes) : Outcome bytes :=
  if BloomByteLength <? len d then Fail PanicExplicit else Ret (zreplicate (BloomByteLength - len d) 0 ++ d).

(** ** Receipts *)

Definition ReceiptStatusFailed : Z := 0.
Definition ReceiptStatusSuccessful : Z := 1.
Definition receiptStatusFailedRLP : bytes := [].
Definition receiptStatusSuccessfulRLP : bytes := [1].

Record Receipt := mkReceipt {
  rc_Type : Z; rc_PostState : bytes; rc_Status : Z; rc_CumulativeGasUsed : Z; rc_Bloom : bytes; rc_Logs : list BlockLog;
  rc_TxHash : Hash; rc_ContractAddress : Address; rc_GasUsed : Z; rc_EffectiveGasPrice : option Z;
  rc_BlobGasUsed : Z; rc_BlobGasPrice : option Z;
  rc_BlockHash : Hash; rc_BlockNumber : option Z; rc_TransactionIndex : Z }.

Definition zeroReceipt : Receipt := mkReceipt 0 [] 0 0 Bloom0 [] 0 0 0 None 0 None 0 None 0.

(** The consensus fields, and the status *)
Definition set_consensus (ty gas : Z) (bloom : bytes) (logs : list BlockLog) (r : Receipt) : Receipt :=
  mkReceipt ty (rc_PostState r) (rc_Status r) gas bloom logs (rc_TxHash r) (rc_ContractAddress r) (rc_GasUsed r) (rc_EffectiveGasPrice r)
    (rc_BlobGasUsed r) (rc_BlobGasPrice r) (rc_BlockHash r) (rc_BlockNumber r) (rc_TransactionIndex r).
Definition set_status (post : bytes) (status : Z) (r : Receipt) : Receipt :=
  mkReceipt (rc_Type r) post status (rc_CumulativeGasUsed r) (rc_Bloom r) (rc_Logs r) (rc_TxHash r) (rc_ContractAddress r) (rc_GasUsed r)
    (rc_EffectiveGasPrice r) (rc_BlobGasUsed r) (rc_BlobGasPrice r) (rc_BlockHash r) (rc_BlockNumber r) (rc_TransactionIndex r).

(** [MergeBloom] *)
Definition orBloom (bin bl : bytes) : Outcome bytes :=
  if len bl =? BloomByteLength then Ret (zip_with Z.lor bin bl) else Fail PanicIndex.
Definition MergeBloom (receipts : list Receipt) : Outcome bytes :=
  foldl (fun bin r => bin ← bin; if negb (len (rc_Logs r) =? 0) then orBloom bin (rc_Bloom r) else Ret bin) (Ret Bloom0) receipts.

Inductive rcerror :=
  | errShortTypedReceipt | errReceiptType | errReceiptStatus (b : bytes) | errReceiptCount | rcRlp (e : rlperror).

Definition statusEncoding (r : Receipt) : bytes :=
  if len (rc_PostState r) =? 0 then
    if rc_Status r =? ReceiptStatusFailed then receiptStatusFailedRLP else receiptStatusSuccessfulRLP
  else rc_PostState r.

Definition setStatus (postStateOrStatus : bytes) : ST Receipt (option rcerror) :=
  if bool_decide (postStateOrStatus = receiptStatusSuccessfulRLP) then
    st_modify (fun r => set_status (rc_PostState r) ReceiptStatusSuccessful r);; mret None
  else if bool_decide (postStateOrStatus = receiptStatusFailedRLP) then
    st_modify (fun r => set_status (rc_PostState r) ReceiptStatusFailed r);; mret None
  else if len postStateOrStatus =? 32 then
    st_modify (fun r => set_status postStateOrStatus (rc_Status r) r);; mret None
  else mret (Some (errReceiptStatus postStateOrStatus)).

(** ** RLP types *)

(** A log decoded from RLP: the derived fields are zero. *)
Definition decodedLog (a : Address) (topics : list Hash) (data : bytes) : BlockLog :=
  mkBlockLog (mkTxLog (mkLog a topics data 0) 0 0 0) 0.

(** [func (obj *Log) EncodeRLP(_w io.Writer) error] of [gen_log_rlp.go] *)
Definition Log_EncodeRLP (l : BlockLog) : W :=
  let log := tl_log (bl_log l) in
  inList (w_bind (writeByteSlice (Address_Bytes (log_Address log)))
    (w_bind (inList (writeElems (fun t => writeByteSlice (Hash_Bytes t)) (log_Topics log)))
       (writeByteSlice (log_Data log)))).

(** [Log] is decoded by reflection: the other fields have the tag [rlp:"-"]. *)
Definition logInfo : typeinfo BlockLog :=
  mkInfo
    (ti_decoder (viewInfo (fun '(a, (t, (d, _))) => decodedLog a t d) (fun l => (log_Address (tl_log (bl_log l)), (log_Topics (tl_log (bl_log l)), (log_Data (tl_log (bl_log l)), tt))))
       (structInfo (fcons addressInfo None (fcons (sliceInfo hashInfo) None (fcons byteSliceInfo None fnil))))))
    Log_EncodeRLP.

(** [[]*Log]: the pointers are never nil. *)
Definition logsInfo : typeinfo (list BlockLog) :=
  sliceInfo (viewInfo (fun o => default (decodedLog 0 [] []) o) Some (ptrInfo KList logInfo)).

(** [type receiptRLP struct] and [type storedReceiptRLP struct] *)
Record receiptRLP := mkReceiptRLP { rr_PostStateOrStatus : bytes; rr_CumulativeGasUsed : Z; rr_Bloom : bytes; rr_Logs : list BlockLog }.
Record storedReceiptRLP := mkStoredRLP { sr_PostStateOrStatus : bytes; sr_CumulativeGasUsed : Z; sr_Logs : list BlockLog }.

Definition receiptInfo : typeinfo receiptRLP :=
  viewInfo (fun '(s, (g, (b, (l, _)))) => mkReceiptRLP s g b l)
    (fun r => (rr_PostStateOrStatus r, (rr_CumulativeGasUsed r, (rr_Bloom r, (rr_Logs r, tt)))))
    (structInfo (fcons byteSliceInfo None (fcons (uintInfo 64) None (fcons (byteArrayInfo BloomByteLength) None (fcons logsInfo None fnil))))).
Definition storedReceiptInfo : typeinfo storedReceiptRLP :=
  viewInfo (fun '(s, (g, (l, _))) => mkStoredRLP s g l)
    (fun r => (sr_PostStateOrStatus r, (sr_CumulativeGasUsed r, (sr_Logs r, tt))))
    (structInfo (fcons byteSliceInfo None (fcons (uintInfo 64) None (fcons logsInfo None fnil)))).

(** ** Consensus encoding *)

(** [data := &receiptRLP{r.statusEncoding(), r.CumulativeGasUsed, r.Bloom, r.Logs}] *)
Definition consensusData (r : Receipt) : receiptRLP :=
  mkReceiptRLP (statusEncoding r) (rc_CumulativeGasUsed r) (rc_Bloom r) (rc_Logs r).

Definition rc_MarshalBinary (r : Receipt) : Outcome (bytes * option rlperror) :=
  e ← encodeVal receiptInfo (consensusData r);
  if rc_Type r =? LegacyTxType then Ret (match e with inl b => (b, None) | inr e => ([], Some e) end)
  else Ret (match e with inl b => (rc_Type r :: b, None) | inr e => ([rc_Type r], Some e) end).

(** [Receipts.EncodeIndex]: nothing follows the type byte of an unsupported type, and errors are ignored. *)
Definition rc_EncodeIndex (r : Receipt) : Outcome bytes :=
  if rc_Type r =? LegacyTxType then e ← encodeVal receiptInfo (consensusData r); Ret (written e)
  else if (rc_Type r =? AccessListTxType) || (rc_Type r =? DynamicFeeTxType) || (rc_Type r =? BlobTxType) || (rc_Type r =? SetCodeTxType)
  then e ← encodeVal receiptInfo (consensusData r); Ret (rc_Type r :: written e)
  else Ret [rc_Type r].

(** [func NewReceipt(root []byte, failed bool, cumulativeGasUsed uint64) *Receipt] *)
Definition NewReceipt (root : bytes) (failed : bool) (cumulativeGasUsed : Z) : Receipt :=
  set_status root (if failed then ReceiptStatusFailed else ReceiptStatusSuccessful)
    (set_consensus LegacyTxType cumulativeGasUsed Bloom0 [] zeroReceipt).

(** [func (r *Receipt) EncodeRLP(w io.Writer) error] into the encoder's buffer: a typed receipt is a byte string. *)
Definition rc_EncodeRLP (r : Receipt) : W := fun w =>
  if rc_Type r =? LegacyTxType then ti_writer receiptInfo (consensusData r) w
  else
    e ← encodeVal receiptInfo (consensusData r);
    match e with inr e => Ret (inr e) | inl b => writeByteSlice (rc_Type r :: b) w end.

Definition setFromRLP (ty : Z) (data : receiptRLP) : ST Receipt (option rcerror) :=
  st_modify (set_consensus ty (rr_CumulativeGasUsed data) (rr_Bloom data) (rr_Logs data));;
  setStatus (rr_PostStateOrStatus data).

Definition rc_decode (ty : Z) (b : bytes) : ST Receipt (option rcerror) :=
  d ← st_lift (decodeVal receiptInfo b);
  match d with inr e => mret (Some (rcRlp e)) | inl data => setFromRLP ty data end.

Definition rc_decodeTyped (b : bytes) : ST Receipt (option rcerror) :=
  match b with
  | ty :: ((_ :: _) as rest) =>
      if (ty =? DynamicFeeTxType) || (ty =? AccessListTxType) || (ty =? BlobTxType) || (ty =? SetCodeTxType) then rc_decode ty rest
      else mret (Some errReceiptType)
  | _ => mret (Some errShortTypedReceipt)
  end.

Definition rc_UnmarshalBinary (b : bytes) : ST Receipt (option rcerror) :=
  match b with
  | b0 :: _ => if 127 <? b0 then rc_decode LegacyTxType b else rc_decodeTyped b
  | [] => rc_decodeTyped b
  end.

(** [func (r *Receipt) DecodeRLP(s *rlp.Stream) error] of a new receipt; [errDecoder] stands for the errors of the package. *)
Definition rc_set (m : ST Receipt (option rcerror)) : D Receipt :=
  match m zeroReceipt with
  | Ret (None, r) => d_ret r
  | Ret (Some (rcRlp e), _) => d_err e
  | Ret (Some _, _) => d_err errDecoder
  | Fail f => st_fail f
  end.

Definition rc_DecodeRLP : D Receipt :=
  let! (kind, size) := s_Kind in
  match kind with
  | KList => let! dec := ti_decoder receiptInfo in rc_set (setFromRLP LegacyTxType dec)
  | KByte => d_err errDecoder
  | KString => if MaxUint64 / 2 <? size then d_err errDecoder else let! b := ReadBytes size in rc_set (rc_decodeTyped b)
  end.

Definition rc_info : typeinfo Receipt := mkInfo rc_DecodeRLP rc_EncodeRLP.

(** ** Storage encoding *)

Definition ReceiptForStorage_EncodeRLP (r : Receipt) : W :=
  inList (w_bind (writeByteSlice (statusEncoding r))
    (w_bind (writeUint (rc_CumulativeGasUsed r)) (inList (writeElems Log_EncodeRLP (rc_Logs r))))).

(** Into a new receipt: the bloom filter is derived later. *)
Definition ReceiptForStorage_DecodeRLP : D Receipt :=
  let! stored := ti_decoder storedReceiptInfo in
  let! r := rc_set (setStatus (sr_PostStateOrStatus stored)) in
  d_ret (set_consensus (rc_Type r) (sr_CumulativeGasUsed stored) (rc_Bloom r) (sr_Logs stored) r).

Definition storageInfo : typeinfo Receipt := mkInfo ReceiptForStorage_DecodeRLP ReceiptForStorage_EncodeRLP.

(** [EncodeBlockReceiptLists]: [log.Crit] ends the process. *)
Fixpoint EncodeBlockReceiptLists (receipts : list (list Receipt)) : Outcome (list bytes) :=
  match receipts with
  | [] => Ret []
  | rs :: rest =>
      e ← encodeVal (sliceInfo storageInfo) rs;
      b ← match e with inl b => Ret b | inr _ => Fail PanicExplicit end;
      l ← EncodeBlockReceiptLists rest;
      Ret (b :: l)
  end.

(** ** Derived fields *)

(** [crypto.Ecrecover] *)
Context (Ecrecover : Hash -> bytes -> option bytes).

(** The loop over the logs: the logs and the next index *)
Fixpoint deriveLogs (number : Z) (hash txHash : Hash) (i logIndex : Z) (logs : list BlockLog) : list BlockLog * Z :=
  match logs with
  | [] => ([], logIndex)
  | l :: rest =>
      let log := tl_log (bl_log l) in
      let '(rest, next) := deriveLogs number hash txHash i (logIndex +! 1) rest in
      (mkBlockLog (mkTxLog (mkLog (log_Address log) (log_Topics log) (log_Data log) number) txHash i logIndex) hash :: rest, next)
  end.

(** The part of the block that [DeriveFields] gets *)
Record BlockInfo := mkBlockInfo { bi_hash : Hash; bi_number : Z; bi_baseFee : option Z; bi_blobGasPrice : option Z }.

(** The body of the loop on receipt [i]; [prev] is the cumulative gas of the receipt before. *)
Definition deriveReceipt (signer : Signer) (bi : BlockInfo) (i prev logIndex : Z) (r : Receipt) : ST Transaction (Receipt * Z) :=
  txHash ← tx_Hash;
  t ← st_gets inner;
  contract ← match to_ t with
             | None => from ← Sender Ecrecover signer; st_lift (CreateAddress (match from with inl a => a | inr _ => 0 end) (nonce t))
             | Some _ => mret 0
             end;
  let gasUsed := if i =? 0 then rc_CumulativeGasUsed r else rc_CumulativeGasUsed r -! prev in
  let '(logs, next) := deriveLogs (bi_number bi) (bi_hash bi) txHash i logIndex (rc_Logs r) in
  bloom ← st_lift (CreateBloom logs);
  let isBlob := txType t =? BlobTxType in
  mret (mkReceipt (txType t) (rc_PostState r) (rc_Status r) (rc_CumulativeGasUsed r) bloom logs txHash contract gasUsed
          (Some (effectiveGasPrice t (bi_baseFee bi)))
          (if isBlob then tx_BlobGas t else rc_BlobGasUsed r) (if isBlob then bi_blobGasPrice bi else rc_BlobGasPrice r)
          (bi_hash bi) (Some (bi_number bi)) i, next).

Fixpoint deriveReceipts (signer : Signer) (bi : BlockInfo) (i prev logIndex : Z) (rs : list Receipt) (txs : list Transaction) :
    Outcome (list Receipt * list Transaction) :=
  match rs, txs with
  | r :: rs, tx :: txs =>
      '((r', next), tx') ← deriveReceipt signer bi i prev logIndex r tx;
      '(rs', txs') ← deriveReceipts signer bi (i + 1) (rc_CumulativeGasUsed r) next rs txs;
      Ret (r' :: rs', tx' :: txs')
  | _, _ => Ret ([], txs)
  end.

(** The receipts, and the transactions with their caches *)
Definition DeriveFields (config : ChainConfig) (time : Z) (bi : BlockInfo) (rs : list Receipt) (txs : list Transaction) :
    Outcome ((list Receipt + rcerror) * list Transaction) :=
  signer ← MakeSigner config (Some (bi_number bi)) time;
  if negb (len txs =? len rs) then Ret (inr errReceiptCount, txs)
  else '(rs', txs') ← deriveReceipts signer bi 0 0 0 rs txs; Ret (inl rs', txs').
End receipts.
