(* ===== verification/ReceiptTheorems.v ===== *)
(** * Receipts: bloom filters without false negatives, and the encodings

    A bloom filter made from logs contains the address and every topic of each log, also after the
    filters of the receipts of a block are merged.  The consensus encoding of receipts is canonical and
    round-trips; the receipts read back from storage get their derived fields again. *)

From S2P Require Import Prelude Bytes Uint256 Params Machine Rlp RlpTheorems RlpStream RlpTypes RlpCodec RlpCanon VM State ChainConfig StateTransition Transactions TxSigning TxCodec TxCaches TxTheorems Receipts.

Set Default Proof Using "Type*".

(** ** Bits *)

Definition bloom_ok (b : bytes) : Prop := len b = BloomByteLength /\ Forall is_byte b.

(** Every bit of [b] is set in [b']. *)
Definition bits_le (b b' : bytes) : Prop := forall i, Z.land (nth i b 0) (nth i b' 0) = nth i b 0.

Definition hit (b : bytes) (iv : Z * Z) : Prop := Z.land iv.2 (nth (Z.to_nat iv.1) b 0) = iv.2.

Lemma bits_le_refl b : bits_le b b.
Proof. intros i. apply Z.land_diag. Qed.
Lemma bits_le_trans a b c : bits_le a b -> bits_le b c -> bits_le a c.
Proof. intros H1 H2 i. rewrite <- (H1 i) at 1. by rewrite <- Z.land_assoc, H2, H1. Qed.
Lemma hit_le b b' iv : bits_le b b' -> hit b iv -> hit b' iv.
Proof. unfold hit. intros H E. rewrite <- E at 1. rewrite <- Z.land_assoc, H. done. Qed.

Lemma Bloom0_ok : bloom_ok Bloom0.
Proof. split; [done|]. by apply Forall_replicate. Qed.

Lemma land_lor_absorb x y : Z.land x (Z.lor x y) = x.
Proof. apply Z.bits_inj'. intros n _. rewrite Z.land_spec, Z.lor_spec. by destruct (Z.testbit x n). Qed.

Lemma lor_byte_ok x y : is_byte x -> is_byte y -> is_byte (Z.lor x y).
Proof.
  intros Hx Hy. assert (E : forall z, is_byte z -> Z.land z (Z.ones 8) = z).
  { intros z [? ?]. rewrite Z.land_ones by lia. by apply Z.mod_small. }
  rewrite <- (E x Hx), <- (E y Hy), <- Z.land_lor_distr_l, Z.land_ones by lia. by apply Z.mod_pos_bound.
Qed.

Section bloom.
Context `{C : Crypto}.

Lemma bloomValue_ok hi lo : is_byte lo -> 0 <= (bloomValue hi lo).1 < BloomByteLength /\ is_byte (bloomValue hi lo).2.
Proof.
  intros Hlo. cbn. split; [|apply Z.mod_pos_bound; lia].
  rewrite Z.shiftr_div_pow2 by lia. change 0x7ff with (Z.ones 11). rewrite Z.land_ones by lia.
  pose proof (Z.mod_pos_bound (be16 hi lo) (2 ^ 11) ltac:(done)). change (2 ^ 11) with 2048 in *. change (2 ^ 3) with 8. unfold BloomByteLength.
  pose proof (Z.div_pos (be16 hi lo mod 2048) 8 ltac:(lia) ltac:(lia)).
  assert (be16 hi lo mod 2048 / 8 < 256) by (apply Z.div_lt_upper_bound; lia). lia.
Qed.

Lemma bloomValues_ok d : Forall (fun iv => 0 <= iv.1 < BloomByteLength /\ is_byte iv.2) (bloomValues d).
Proof.
  unfold bloomValues. pose proof (be_bytes_bytes 32 (Keccak256 d)) as Hb. unfold Hash_Bytes. apply (Forall_take _ 6) in Hb.
  destruct (take 6 _) as [|b0 [|b1 [|b2 [|b3 [|b4 [|b5 [|]]]]]]]; try apply Forall_nil_2.
  repeat (apply Forall_cons in Hb as [? Hb]). repeat (apply Forall_cons; split); try apply Forall_nil_2; by apply bloomValue_ok.
Qed.

(** ** Adding *)

Lemma orAt_ok b iv : bloom_ok b -> 0 <= iv.1 < BloomByteLength -> is_byte iv.2 ->
  exists b', orAt b iv = Ret b' /\ bloom_ok b' /\ bits_le b b' /\ hit b' iv.
Proof.
  intros [Hl Hb] Hi Hv. unfold orAt, index. replace (0 <=? iv.1) with true by lia.
  assert (Hlt : (Z.to_nat iv.1 < length b)%nat) by (unfold len in Hl; lia).
  destruct (lookup_lt_is_Some_2 b _ Hlt) as [x Hx]. rewrite Hx. cbn [mbind outcome_bind]. eexists. split; [done|].
  assert (Hn : forall i, nth i (<[Z.to_nat iv.1 := Z.lor x iv.2]> b) 0 = if decide (i = Z.to_nat iv.1) then Z.lor x iv.2 else nth i b 0).
  { intros i. rewrite !nth_lookup. destruct (decide (i = Z.to_nat iv.1)) as [->|]; [by rewrite list_lookup_insert_eq|by rewrite list_lookup_insert_ne]. }
  assert (Ex : nth (Z.to_nat iv.1) b 0 = x) by (by rewrite nth_lookup, Hx).
  split_and!.
  - unfold bloom_ok, len in *. rewrite length_insert. split; [done|]. apply Forall_insert; [done|].
    apply lor_byte_ok; [|done]. rewrite Forall_lookup in Hb. by eapply Hb.
  - intros i. rewrite Hn. destruct (decide _) as [->|]; [rewrite Ex; apply land_lor_absorb|apply Z.land_diag].
  - unfold hit. rewrite Hn, decide_True by done. rewrite Z.lor_comm. apply land_lor_absorb.
Qed.

(** A step that extends a filter such that [P] holds of every extension of the result *)
Definition extends (P : bytes -> Prop) (b : bytes) (m : Outcome bytes) : Prop :=
  exists b', m = Ret b' /\ bloom_ok b' /\ bits_le b b' /\ forall c, bits_le b' c -> P c.

(** A loop that extends the filter at every step *)
Lemma extends_fold {A} (f : bytes -> A -> Outcome bytes) (P : A -> bytes -> Prop) l b : bloom_ok b ->
  (forall a b, a ∈ l -> bloom_ok b -> extends (P a) b (f b a)) ->
  extends (fun c => Forall (fun a => P a c) l) b (foldl (fun b a => b ← b; f b a) (Ret b) l).
Proof.
  revert b. induction l as [|a l IH]; intros b Hb Hf; cbn [foldl].
  - exists b. split_and!; [done|done|apply bits_le_refl|done].
  - destruct (Hf a b) as (b1 & E1 & H1 & L1 & P1); [set_solver|done|]. cbn [mbind outcome_bind]. rewrite E1.
    destruct (IH b1 H1) as (b2 & E2 & H2 & L2 & P2); [intros; apply Hf; [set_solver|done]|]. exists b2.
    split_and!; [done|done|by eapply bits_le_trans|]. intros c Hc. apply Forall_cons. split; [|by apply P2]. apply P1. by eapply bits_le_trans.
Qed.

(** The bits of [d] *)
Definition contains (d : bytes) (b : bytes) : Prop := Forall (hit b) (bloomValues d).

Lemma AddWithBuffer_ok b d : bloom_ok b -> extends (contains d) b (AddWithBuffer b d).
Proof.
  intros Hb. pose proof (bloomValues_ok d) as Hv. rewrite Forall_forall in Hv.
  eapply (extends_fold orAt (fun iv c => hit c iv)); [done|]. intros iv b' Hin Hb'. destruct (Hv iv Hin) as [Hi Hy].
  destruct (orAt_ok b' iv Hb' Hi Hy) as (b1 & E & H1 & L & Hh). exists b1. split_and!; [done..|]. intros c Hc. by eapply hit_le.
Qed.

Lemma Bloom_Test_ok b d : bloom_ok b -> exists r, Bloom_Test b d = Ret r /\ (r = true <-> contains d b).
Proof.
  intros [Hl _]. unfold Bloom_Test, contains. pose proof (bloomValues_ok d) as Hv.
  cut (forall acc, exists r, foldl (fun acc iv => acc ← acc; x ← index b iv.1; Ret (acc && (iv.2 =? Z.land iv.2 x))) (Ret acc) (bloomValues d) = Ret r /\
    (r = true <-> acc = true /\ Forall (hit b) (bloomValues d))).
  { intros H. destruct (H true) as (r & E & Hr). exists r. split; [done|]. rewrite Hr. tauto. }
  induction Hv as [|iv l [Hi Hy] _ IH]; intros acc; cbn [foldl].
  - exists acc. split; [done|]. split; [done|tauto].
  - assert (Ei : index b iv.1 = Ret (nth (Z.to_nat iv.1) b 0)).
    { unfold index. replace (0 <=? iv.1) with true by lia. rewrite nth_lookup.
      destruct (lookup_lt_is_Some_2 b (Z.to_nat iv.1)) as [x Hx]; [unfold len in Hl; lia|]. by rewrite Hx. }
    cbn [mbind outcome_bind]. rewrite Ei. cbn [mbind outcome_bind]. destruct (IH (acc && (iv.2 =? Z.land iv.2 (nth (Z.to_nat iv.1) b 0)))) as (r & E & Hr).
    exists r. split; [done|]. rewrite Hr, Forall_cons. unfold hit at 2. rewrite andb_true_iff, Z.eqb_eq. intuition congruence.
Qed.

(** ** Logs *)

Definition log_in_bloom (l : Log) (b : bytes) : Prop :=
  contains (Address_Bytes (log_Address l)) b /\ Forall (fun t => contains (Hash_Bytes t) b) (log_Topics l).

Lemma addLogToBloom_ok b l : bloom_ok b -> extends (log_in_bloom l) b (addLogToBloom b l).
Proof.
  intros Hb. unfold addLogToBloom. destruct (AddWithBuffer_ok b (Address_Bytes (log_Address l)) Hb) as (b1 & -> & H1 & L1 & P1). cbn [mbind outcome_bind].
  destruct (extends_fold (fun b t => AddWithBuffer b (Hash_Bytes t)) (fun t => contains (Hash_Bytes t)) (log_Topics l) b1 H1) as (b2 & E & H2 & L2 & P2).
  { intros t b' _. apply AddWithBuffer_ok. }
  exists b2. split_and!; [done|done|by eapply bits_le_trans|]. intros c Hc. split; [apply P1; by eapply bits_le_trans|by apply P2].
Qed.

Definition block_log (l : BlockLog) : Log := tl_log (bl_log l).

Lemma CreateBloom_ok logs : exists b, CreateBloom logs = Ret b /\ bloom_ok b /\ forall c, bits_le b c -> Forall (fun l => log_in_bloom (block_log l) c) logs.
Proof.
  destruct (extends_fold (fun b l => addLogToBloom b (block_log l)) (fun l => log_in_bloom (block_log l)) logs Bloom0 Bloom0_ok) as (b & E & H & _ & P).
  { intros l b _. apply addLogToBloom_ok. }
  by exists b.
Qed.

Lemma orBloom_ok b bl : bloom_ok b -> bloom_ok bl -> exists b', orBloom b bl = Ret b' /\ bloom_ok b' /\ bits_le b b' /\ bits_le bl b'.
Proof.
  intros [Hl Hb] [Hl' Hb']. unfold orBloom. rewrite Hl'. change (BloomByteLength =? BloomByteLength) with true. cbv iota. eexists. split; [done|].
  assert (Hlen : length b = length bl) by (unfold len in *; lia).
  assert (Hn : forall i, nth i (zip_with Z.lor b bl) 0 = Z.lor (nth i b 0) (nth i bl 0)).
  { intros i. rewrite !nth_lookup, lookup_zip_with. destruct (b !! i) eqn:Ei; cbn.
    - destruct (lookup_lt_is_Some_2 bl i) as [y Hy]; [rewrite <- Hlen; by eapply lookup_lt_Some|]. by rewrite Hy.
    - apply lookup_ge_None in Ei. rewrite (lookup_ge_None_2 bl i) by lia. done. }
  split_and!.
  - split; [unfold len in *; rewrite length_zip_with, <- Hlen; lia|].
    clear -Hb Hb'. revert bl Hb'. induction Hb as [|x b Hx Hb IH]; intros [|y bl] Hb'; cbn; try constructor.
    + apply Forall_cons in Hb' as [Hy _]. by apply lor_byte_ok.
    + apply Forall_cons in Hb' as [_ Hb']. by apply IH.
  - intros i. rewrite Hn. apply land_lor_absorb.
  - intros i. rewrite Hn, Z.lor_comm. apply land_lor_absorb.
Qed.

(** A receipt with the filter of its logs *)
Definition bloomed (r : Receipt) : Prop := CreateBloom (rc_Logs r) = Ret (rc_Bloom r).

Lemma MergeBloom_ok rs : Forall bloomed rs -> exists b, MergeBloom rs = Ret b /\ bloom_ok b /\
  Forall (fun r => Forall (fun l => log_in_bloom (block_log l) b) (rc_Logs r)) rs.
Proof.
  intros Hrs. rewrite Forall_forall in Hrs.
  destruct (extends_fold (fun bin r => if negb (len (rc_Logs r) =? 0) then orBloom bin (rc_Bloom r) else Ret bin)
    (fun r c => Forall (fun l => log_in_bloom (block_log l) c) (rc_Logs r)) rs Bloom0 Bloom0_ok) as (b & E & H & _ & P).
  - intros r b Hr Hb. destruct (CreateBloom_ok (rc_Logs r)) as (bl & E & Hbl & P). rewrite (Hrs r Hr) in E. injection E as <-.
    case_if; bool_to_Z.
    + destruct (orBloom_ok b (rc_Bloom r) Hb Hbl) as (b' & E & H & L & L'). exists b'. split_and!; [done..|]. intros c Hc. apply P. by eapply bits_le_trans.
    + exists b. split_and!; [done|done|apply bits_le_refl|]. intros c _. destruct (rc_Logs r); [apply Forall_nil_2|]. rewrite len_cons in *. pose proof (len_nonneg l). lia.
  - exists b. split_and!; [done|done|]. apply P, bits_le_refl.
Qed.
End bloom.

(** ** Encodings *)

Section encodings.
Context `{U : Uint256} {US : Uint256Spec U} `{C : Crypto}.

(** A type with the decoder of reflection and a generated writer *)
Lemma exact_writer {A} (i : typeinfo A) ok it (wr : A -> W) : Exact i ok it -> (forall v, ok v -> writes_as (wr v) [it v]) ->
  Exact (mkInfo (ti_decoder i) wr) ok it.
Proof. intros [[H1 H2 H3 H4] [H5]] Hw. split; [by split|by split]. Qed.

Definition stripLog (l : BlockLog) : BlockLog := decodedLog (log_Address (block_log l)) (log_Topics (block_log l)) (log_Data (block_log l)).
Definition log_ok (l : BlockLog) : Prop :=
  addr_ok (log_Address (block_log l)) /\ Forall hash_ok (log_Topics (block_log l)) /\ Forall is_byte (log_Data (block_log l)).
Definition iLog (l : BlockLog) : item :=
  Lst [iAddr (log_Address (block_log l)); Lst (iHash <$> log_Topics (block_log l)); Str (log_Data (block_log l))].

Lemma writeByteSlice_writes d : writes_as (writeByteSlice d) [Str d].
Proof. apply writes_str. intros w. unfold writeByteSlice, w_do. by rewrite writeBytes_eq. Qed.

Lemma Log_EncodeRLP_writes l : writes_as (Log_EncodeRLP l) [iLog l].
Proof.
  unfold Log_EncodeRLP. apply writes_list. apply (writes_bind _ _ [_]); [apply writeByteSlice_writes|].
  apply (writes_bind _ _ [_] [_]); [|apply writeByteSlice_writes]. apply writes_list. fold (block_log l).
  induction (log_Topics (block_log l)) as [|t ts IH]; cbn [writeElems fmap list_fmap]; [apply writes_nil|].
  apply (writes_bind _ _ [_]); [apply writeByteSlice_writes|done].
Qed.

Lemma log_exact : Exact logInfo (fun l => log_ok l /\ l = stripLog l) iLog.
Proof.
  apply exact_writer; [|intros l _; apply Log_EncodeRLP_writes].
  eapply view_exact; [apply struct_exact; apply fe_req; [apply addr_exact|]; apply fe_req; [apply slice_exact, hash_exact'|]; apply fe_req; [apply byteSlice_exact|apply fe_nil]|..].
  - intros l [(H1 & H2 & H3) ->]. done.
  - intros (a & t & d & []) (H1 & H2 & H3 & _). cbn in *. done.
Qed.

Definition logs_ok (ls : list BlockLog) : Prop := Forall (fun l => log_ok l /\ l = stripLog l) ls.
Lemma logs_exact : Exact logsInfo logs_ok (fun l => Lst (iLog <$> l)).
Proof.
  apply slice_exact. eapply view_exact; [apply ptr_exact, log_exact|..].
  - intros l Hl. done.
  - intros [l|] Hl; [done|by destruct Hl].
Qed.

Definition iReceipt (r : receiptRLP) : item :=
  Lst [Str (rr_PostStateOrStatus r); iUint (rr_CumulativeGasUsed r); Str (rr_Bloom r); Lst (iLog <$> rr_Logs r)].
Definition receiptRLP_ok (r : receiptRLP) : Prop :=
  Forall is_byte (rr_PostStateOrStatus r) /\ is_u64 (rr_CumulativeGasUsed r) /\ bloom_ok (rr_Bloom r) /\ logs_ok (rr_Logs r).

Lemma receipt_exact : Exact receiptInfo receiptRLP_ok iReceipt.
Proof.
  eapply view_exact; [apply struct_exact; apply fe_req; [apply byteSlice_exact|]; apply fe_req; [apply uint64_exact|];
    apply fe_req; [by apply byteArray_exact|]; apply fe_req; [apply logs_exact|apply fe_nil]|..].
  - intros [] (H1 & H2 & [H3 H4] & H5). done.
  - intros (a & t & d & l & []) (H1 & H2 & [H3 H4] & H5 & _). cbn in *. done.
Qed.

(** The derived fields of logs are not encoded. *)
Definition strip (d : receiptRLP) : receiptRLP :=
  mkReceiptRLP (rr_PostStateOrStatus d) (rr_CumulativeGasUsed d) (rr_Bloom d) (stripLog <$> rr_Logs d).

Lemma logs_writer ls : ti_writer logsInfo (stripLog <$> ls) = ti_writer logsInfo ls.
Proof.
  cbn [logsInfo sliceInfo ti_writer]. unfold makeSliceWriter. destruct ls as [|l ls]; [done|]. cbn [fmap list_fmap]. f_equal.
  cbn [writeElems]. f_equal. induction ls as [|l' ls IH]; [done|]. cbn [fmap list_fmap writeElems]. by f_equal.
Qed.

Lemma encode_strip d : encodeVal receiptInfo (strip d) = encodeVal receiptInfo d.
Proof.
  unfold encodeVal. assert (E : ti_writer receiptInfo (strip d) = ti_writer receiptInfo d); [|by rewrite E].
  unfold receiptInfo, strip. cbn [viewInfo ti_writer structInfo]. unfold makeStructWriter. cbn -[logsInfo]. by rewrite logs_writer.
Qed.

(** ** Consensus encoding *)

Definition known_type (ty : Z) : Prop := ty = LegacyTxType \/ ty = AccessListTxType \/ ty = DynamicFeeTxType \/ ty = BlobTxType \/ ty = SetCodeTxType.

Definition receipt_ok (r : Receipt) : Prop :=
  known_type (rc_Type r) /\ is_u64 (rc_CumulativeGasUsed r) /\ bloom_ok (rc_Bloom r) /\ Forall log_ok (rc_Logs r) /\
  ((rc_PostState r = [] /\ (rc_Status r = ReceiptStatusFailed \/ rc_Status r = ReceiptStatusSuccessful)) \/
   (len (rc_PostState r) = 32 /\ Forall is_byte (rc_PostState r))).

(** The consensus fields alone; a post state takes the place of the status. *)
Definition consensus (r : Receipt) : Receipt :=
  set_status (rc_PostState r) (if bool_decide (rc_PostState r = []) then rc_Status r else 0)
    (set_consensus (rc_Type r) (rc_CumulativeGasUsed r) (rc_Bloom r) (stripLog <$> rc_Logs r) zeroReceipt).

Definition rc_binary (r : Receipt) : bytes :=
  (if rc_Type r =? LegacyTxType then [] else [rc_Type r]) ++ encode (iReceipt (consensusData r)).

Lemma iReceipt_strip d : iReceipt (strip d) = iReceipt d.
Proof. unfold iReceipt. cbn. by rewrite <- list_fmap_compose. Qed.

Lemma strip_ok r : receipt_ok r -> receiptRLP_ok (strip (consensusData r)).
Proof.
  intros (_ & Hg & Hb & Hl & Hs). split_and!; [|done|done|].
  - cbn [strip rr_PostStateOrStatus consensusData]. unfold statusEncoding. destruct (len (rc_PostState r) =? 0) eqn:El.
    + by destruct (rc_Status r =? ReceiptStatusFailed); [apply Forall_nil_2|apply Forall_singleton].
    + destruct Hs as [[E _]|[_ ?]]; [by rewrite E in El|done].
  - cbn. apply Forall_fmap. eapply Forall_impl; [exact Hl|]. intros l Hlog. split; [exact Hlog|done].
Qed.

Lemma encode_receipt r : receipt_ok r -> len (rc_binary r) < 2 ^ 63 ->
  encodeVal receiptInfo (consensusData r) = Ret (inl (encode (iReceipt (consensusData r)))) /\ len (encode (iReceipt (consensusData r))) < 2 ^ 63.
Proof.
  intros Hr Hl. assert (Hl' : len (encode (iReceipt (consensusData r))) < 2 ^ 63).
  { unfold rc_binary in Hl. rewrite len_app in Hl. pose proof (len_nonneg (if rc_Type r =? LegacyTxType then [] else [rc_Type r])). lia. }
  split; [|done]. rewrite <- encode_strip, <- iReceipt_strip in *.
  apply (encodeVal_ok _ _ _ _ (ex_codec _ _ _ receipt_exact)); [by apply strip_ok|by apply len_u64].
Qed.

Lemma rc_Marshal_ok r : receipt_ok r -> len (rc_binary r) < 2 ^ 63 ->
  rc_MarshalBinary r = Ret (rc_binary r, None) /\ rc_EncodeIndex r = Ret (rc_binary r).
Proof.
  intros Hr Hl. destruct (encode_receipt r Hr Hl) as [E _]. unfold rc_MarshalBinary, rc_EncodeIndex, rc_binary. rewrite E. cbn [mbind outcome_bind written].
  destruct Hr as (Ht & _). destruct (rc_Type r =? LegacyTxType) eqn:Ety; [done|]. split; [done|]. bool_to_Z.
  destruct Ht as [?|Ht]; [done|]. by destruct Ht as [-> |[-> |[-> | ->]]].
Qed.

Lemma setStatus_ok r s r0 : receipt_ok r -> s = statusEncoding r -> rc_PostState r0 = [] -> rc_Status r0 = 0 ->
  setStatus s r0 = Ret (None, set_status (rc_PostState r) (if bool_decide (rc_PostState r = []) then rc_Status r else 0) r0).
Proof.
  intros (_ & _ & _ & _ & Hs) -> Hp0 Hs0. unfold statusEncoding. destruct Hs as [[Hp Hst]|[Hlen Hb]].
  - rewrite (bool_decide_true (rc_PostState r = [])) by done. rewrite Hp. change (len (@nil Z) =? 0) with true. cbv iota.
    destruct r0 as [ty post st]. cbn in Hp0. subst post. by destruct Hst as [-> | ->].
  - assert (Hne : forall l : bytes, len l <> 32 -> rc_PostState r <> l) by (intros l Hl E; apply Hl; by rewrite <- E).
    rewrite Hlen. change (32 =? 0) with false. cbv iota. unfold setStatus.
    rewrite !bool_decide_false, Hlen by (by apply Hne). destruct r0 as [ty post st]. cbn in Hs0. by subst st.
Qed.

Lemma rc_decode_ok r : receipt_ok r -> len (rc_binary r) < 2 ^ 63 ->
  rc_decode (rc_Type r) (encode (iReceipt (consensusData r))) zeroReceipt = Ret (None, consensus r).
Proof.
  intros Hr Hl. destruct (encode_receipt r Hr Hl) as [_ Hl']. unfold rc_decode. rewrite <- iReceipt_strip in *.
  unfold mbind, st_bind, st_lift. rewrite (decodeVal_ok _ _ _ _ (ex_codec _ _ _ receipt_exact) (strip_ok r Hr) Hl').
  unfold setFromRLP, mbind, st_bind, st_modify. cbn [strip rr_CumulativeGasUsed rr_Bloom rr_Logs rr_PostStateOrStatus consensusData].
  by apply (setStatus_ok r).
Qed.

Lemma rc_Unmarshal_ok r : receipt_ok r -> len (rc_binary r) < 2 ^ 63 -> rc_UnmarshalBinary (rc_binary r) zeroReceipt = Ret (None, consensus r).
Proof.
  intros Hr Hl. pose proof (rc_decode_ok r Hr Hl) as Hd. pose proof (encode_receipt r Hr Hl) as [_ Hl']. unfold rc_UnmarshalBinary, rc_binary.
  destruct (list_first _ (len_u64 _ Hl')) as (x & b & Ex & Hx). fold (iReceipt (consensusData r)) in Ex. rewrite Ex in *.
  destruct (rc_Type r =? LegacyTxType) eqn:Ety; bool_to_Z; cbn [app].
  - replace (127 <? x) with true by lia. by rewrite <- Ety.
  - destruct Hr as ([?|Ht] & _); [done|]. assert (0 <= rc_Type r <= 127) by (destruct Ht as [-> |[-> |[-> | ->]]]; done).
    replace (127 <? rc_Type r) with false by lia. unfold rc_decodeTyped.
    destruct Ht as [E |[E |[E | E]]]; rewrite E in *; cbn [Z.eqb Pos.eqb orb DynamicFeeTxType AccessListTxType BlobTxType SetCodeTxType]; exact Hd.
Qed.

(** What [setStatus] accepts is the status encoding of the receipt that it makes. *)
Lemma setStatus_inv s r0 : Forall is_byte s -> rc_PostState r0 = [] -> rc_Status r0 = 0 -> exists e r, setStatus s r0 = Ret (e, r) /\
  (e = None -> exists post status, r = set_status post status r0 /\ statusEncoding r = s /\
     ((post = [] /\ (status = ReceiptStatusFailed \/ status = ReceiptStatusSuccessful)) \/ (len post = 32 /\ status = 0 /\ Forall is_byte post))).
Proof.
  intros Hs Hp0 Hs0. unfold setStatus. repeat case_bool_decide; subst; [| |destruct (Z.eqb_spec (len s) 32) as [E|]].
  - do 2 eexists. split; [done|]. intros _. exists [], ReceiptStatusSuccessful. rewrite Hp0. split_and!; [done|done|]. left. split; [done|by right].
  - do 2 eexists. split; [done|]. intros _. exists [], ReceiptStatusFailed. rewrite Hp0. split_and!; [done|done|]. left. split; [done|by left].
  - do 2 eexists. split; [done|]. intros _. exists s, 0. rewrite Hs0. split_and!; [done| |by right]. unfold statusEncoding. cbn [set_status rc_PostState]. by rewrite E.
  - by do 2 eexists.
Qed.

Lemma rc_decode_canon ty b : known_type ty -> Forall is_byte b -> len b < 2 ^ 63 -> exists e r, rc_decode ty b zeroReceipt = Ret (e, r) /\
  (e = None -> receipt_ok r /\ rc_Type r = ty /\ b = encode (iReceipt (consensusData r))).
Proof.
  intros Ht Hb Hl. unfold rc_decode, mbind, st_bind, st_lift. destruct (decodeVal_canonical _ _ _ b receipt_exact Hb Hl) as (q & -> & H).
  destruct q as [d|e]; [|by do 2 eexists]. destruct (H d eq_refl) as [(H1 & H2 & H3 & H4) E]. unfold setFromRLP, mbind, st_bind, st_modify.
  destruct (setStatus_inv (rr_PostStateOrStatus d) (set_consensus ty (rr_CumulativeGasUsed d) (rr_Bloom d) (rr_Logs d) zeroReceipt) H1 eq_refl eq_refl) as (e & r & Es & Hr).
  exists e, r. split; [exact Es|]. intros He. destruct (Hr He) as (post & st & -> & Est & Hst). split_and!; [|done|].
  - split_and!; [done..| |].
    + eapply Forall_impl; [exact H4|]. by intros l [? _].
    + destruct Hst as [?|(? & _ & ?)]; [by left|by right].
  - rewrite E. unfold consensusData. rewrite Est. by destruct d.
Qed.

Lemma rc_Unmarshal_canon b : Forall is_byte b -> len b < 2 ^ 63 -> exists e r, rc_UnmarshalBinary b zeroReceipt = Ret (e, r) /\
  (e = None -> receipt_ok r /\ b = rc_binary r).
Proof.
  intros Hb Hl. unfold rc_UnmarshalBinary, rc_binary.
  assert (Htyped : exists e r, rc_decodeTyped b zeroReceipt = Ret (e, r) /\ (e = None -> receipt_ok r /\ b = rc_binary r)).
  { unfold rc_decodeTyped. destruct b as [|ty [|x l]]; [by do 2 eexists..|]. case_match eqn:E; [|by do 2 eexists].
    apply Forall_cons in Hb as [_ Hb]. rewrite len_cons in Hl.
    assert (Ht : known_type ty /\ ty <> LegacyTxType) by (unfold known_type; split; rewrite !orb_true_iff, !Z.eqb_eq in E; [tauto|intros ->; by destruct E as [[[?|?]|?]|?]]). destruct Ht as [Ht Hn].
    destruct (rc_decode_canon ty (x :: l)) as (e & r & Er & H); [done|done|lia|]. exists e, r. split; [done|]. intros He.
    destruct (H He) as (Hr & Ety & Ee). split; [done|]. unfold rc_binary. rewrite Ety, <- Ee. by destruct (Z.eqb_spec ty LegacyTxType). }
  destruct b as [|x l]; [done|]. case_if; [|done].
  destruct (rc_decode_canon LegacyTxType (x :: l)) as (e & r & Er & H); [by left|done|done|]. exists e, r. split; [done|]. intros He.
  destruct (H He) as (Hr & Ety & Ee). split; [done|]. by rewrite Ety, <- Ee.
Qed.
End encodings.

(** ** Storage *)

Section storage.
Context `{U : Uint256} {US : Uint256Spec U} `{C : Crypto}.

Lemma reads_then {A B} (m : D A) (k : A -> D B) it a b : reads m it a -> k a = d_ret b -> reads (d_bind m k) it b.
Proof.
  intros H E s rest Hs Er Hroom. destruct (H s rest Hs Er Hroom) as (s' & Em & Ha). exists s'. split; [|done].
  unfold d_bind, mbind, st_bind. by rewrite Em, E.
Qed.

Definition iStored (r : storedReceiptRLP) : item := Lst [Str (sr_PostStateOrStatus r); iUint (sr_CumulativeGasUsed r); Lst (iLog <$> sr_Logs r)].
Definition stored_ok (r : storedReceiptRLP) : Prop := Forall is_byte (sr_PostStateOrStatus r) /\ is_u64 (sr_CumulativeGasUsed r) /\ logs_ok (sr_Logs r).

Lemma stored_exact : Exact storedReceiptInfo stored_ok iStored.
Proof.
  eapply view_exact; [apply struct_exact; apply fe_req; [apply byteSlice_exact|]; apply fe_req; [apply uint64_exact|];
    apply fe_req; [apply logs_exact|apply fe_nil]|..].
  - intros [] (H1 & H2 & H3). done.
  - intros (a & t & l & []) (H1 & H2 & H3 & _). cbn in *. done.
Qed.

(** The status, or the post state *)
Definition status_ok (r : Receipt) : Prop :=
  (rc_PostState r = [] /\ (rc_Status r = ReceiptStatusFailed \/ rc_Status r = ReceiptStatusSuccessful)) \/
  (len (rc_PostState r) = 32 /\ Forall is_byte (rc_PostState r) /\ rc_Status r = 0).

Definition storable (r : Receipt) : Prop := status_ok r /\ is_u64 (rc_CumulativeGasUsed r) /\ Forall log_ok (rc_Logs r).

(** What is stored of a receipt *)
Definition storedPart (r : Receipt) : Receipt :=
  set_status (rc_PostState r) (rc_Status r) (set_consensus 0 (rc_CumulativeGasUsed r) Bloom0 (stripLog <$> rc_Logs r) zeroReceipt).
Definition storedData (r : Receipt) : storedReceiptRLP := mkStoredRLP (statusEncoding r) (rc_CumulativeGasUsed r) (stripLog <$> rc_Logs r).

Lemma storable_ok r : storable r -> receipt_ok (set_consensus 0 (rc_CumulativeGasUsed r) Bloom0 (stripLog <$> rc_Logs r) r).
Proof.
  intros (Hs & Hg & Hl). split_and!; [by left|done|apply Bloom0_ok|by apply Forall_fmap|].
  destruct Hs as [?|(? & ? & _)]; [by left|by right].
Qed.

Lemma storedData_ok r : storable r -> stored_ok (storedData r).
Proof.
  intros Hr. destruct (strip_ok _ (storable_ok r Hr)) as (H1 & H2 & _ & H4). split_and!; [done|done|].
  cbn in H4. unfold storedData, sr_Logs. by rewrite <- list_fmap_compose in H4.
Qed.

Lemma storedPart_reads r : storable r -> rc_set (setStatus (statusEncoding r)) = d_ret (set_status (rc_PostState r) (rc_Status r) zeroReceipt).
Proof.
  intros Hr. unfold rc_set. rewrite (setStatus_ok _ (statusEncoding r) zeroReceipt (storable_ok r Hr)) by done. cbn [set_consensus rc_PostState rc_Status].
  destruct Hr as ([[-> _]|(Hl & _ & Hst)] & _); [done|]. rewrite bool_decide_false by (intros E; by rewrite E in Hl). by rewrite Hst.
Qed.

Lemma storage_codec : Codec storageInfo (fun r => storable r /\ r = storedPart r) (fun r => iStored (storedData r)).
Proof.
  destruct stored_exact as [[H1 H2 H3 H4] _]. split.
  - intros r [Hr _]. by apply H1, storedData_ok.
  - intros r [Hr Er]. cbn [storageInfo ti_writer]. unfold ReceiptForStorage_EncodeRLP. apply writes_list.
    apply (writes_bind _ _ [_] [_; _]); [apply writeByteSlice_writes|]. apply (writes_bind _ _ [_] [_]); [|apply writes_list].
    + pose proof (c_writes _ _ _ (ex_codec _ _ _ uint64_exact) (rc_CumulativeGasUsed r)) as Hw. apply Hw, Hr.
    + cbn [storedData sr_Logs]. rewrite <- list_fmap_compose. induction (rc_Logs r) as [|l ls IH]; cbn [writeElems fmap list_fmap]; [apply writes_nil|].
      apply (writes_bind _ _ [_]); [apply Log_EncodeRLP_writes|done].
  - intros r [Hr Er]. cbn [storageInfo ti_decoder]. eapply reads_then; [by apply H3, storedData_ok|]. cbn [storedData sr_PostStateOrStatus].
    rewrite storedPart_reads by done. rewrite Er at 3. done.
  - apply starts_bind, H4.
Qed.

Lemma writeElems_ext {A B} (f : A -> W) (g : B -> W) (h : A -> B) l : (forall a, f a = g (h a)) -> writeElems f l = writeElems g (h <$> l).
Proof. intros E. induction l as [|a l IH]; [done|]. cbn [writeElems fmap list_fmap]. by rewrite E, IH. Qed.

Lemma stored_writer r : ReceiptForStorage_EncodeRLP (storedPart r) = ReceiptForStorage_EncodeRLP r.
Proof. unfold ReceiptForStorage_EncodeRLP. by rewrite (writeElems_ext Log_EncodeRLP Log_EncodeRLP stripLog (rc_Logs r)) by done. Qed.

Lemma stored_slice rs : encodeVal (sliceInfo storageInfo) (storedPart <$> rs) = encodeVal (sliceInfo storageInfo) rs.
Proof.
  unfold encodeVal. cbn [sliceInfo ti_writer]. unfold makeSliceWriter. destruct rs as [|r rs]; [done|].
  by rewrite (writeElems_ext (ti_writer storageInfo) (ti_writer storageInfo) storedPart (r :: rs)) by (intros; symmetry; apply stored_writer).
Qed.

Lemma storedPart_idem r : storedPart (storedPart r) = storedPart r.
Proof. unfold storedPart. cbn. by rewrite <- list_fmap_compose. Qed.
Lemma storedPart_storable r : storable r -> storable (storedPart r).
Proof. intros (H1 & H2 & H3). split_and!; [done|done|]. by apply Forall_fmap. Qed.

Definition storedItem (rs : list Receipt) : item := Lst ((fun r => iStored (storedData r)) <$> (storedPart <$> rs)).

(** Reading back the receipts of a block *)
Lemma storage_roundtrip rs : Forall storable rs -> len (encode (storedItem rs)) < 2 ^ 63 ->
  encodeVal (sliceInfo storageInfo) rs = Ret (inl (encode (storedItem rs))) /\
  decodeVal (sliceInfo storageInfo) (encode (storedItem rs)) = Ret (inl (storedPart <$> rs)).
Proof.
  intros Hrs Hl. assert (Hok : Forall (fun r => storable r /\ r = storedPart r) (storedPart <$> rs)).
  { apply Forall_fmap. eapply Forall_impl; [exact Hrs|]. intros r Hr. cbn. split; [by apply storedPart_storable|by rewrite storedPart_idem]. }
  rewrite <- stored_slice. split.
  - by apply (encodeVal_ok _ _ _ _ (slice_codec _ _ _ storage_codec)); [|apply len_u64].
  - by apply (decodeVal_ok _ _ _ _ (slice_codec _ _ _ storage_codec)).
Qed.

(** ** Derived fields *)

Section derive.
Context (Ecrecover : Hash -> bytes -> option bytes).

(** The blob fields of a new receipt *)
Definition blobless (r : Receipt) : Prop := rc_BlobGasUsed r = 0 /\ rc_BlobGasPrice r = None.

(** What [DeriveFields] reads of a receipt *)
Definition same_stored (r r' : Receipt) : Prop :=
  rc_PostState r = rc_PostState r' /\ rc_Status r = rc_Status r' /\ rc_CumulativeGasUsed r = rc_CumulativeGasUsed r' /\
  stripLog <$> rc_Logs r = stripLog <$> rc_Logs r'.

Lemma same_storedPart r r' : same_stored r (storedPart r') <-> same_stored r r'.
Proof. unfold same_stored, storedPart. cbn. by rewrite <- list_fmap_compose. Qed.

Lemma deriveLogs_strip number hash txHash i li ls : deriveLogs number hash txHash i li (stripLog <$> ls) = deriveLogs number hash txHash i li ls.
Proof. revert li. induction ls as [|l ls IH]; intros li; [done|]. cbn [fmap list_fmap deriveLogs]. by rewrite IH. Qed.
Lemma strip_deriveLogs number hash txHash i li ls : stripLog <$> (deriveLogs number hash txHash i li ls).1 = stripLog <$> ls.
Proof.
  revert li. induction ls as [|l ls IH]; intros li; [done|]. cbn [fmap list_fmap deriveLogs]. specialize (IH (li +! 1)).
  destruct (deriveLogs number hash txHash i (li +! 1) ls). cbn in *. by rewrite IH.
Qed.

Lemma derive_same signer bi i prev li r r' tx : same_stored r r' -> blobless r -> blobless r' ->
  deriveReceipt Ecrecover signer bi i prev li r tx = deriveReceipt Ecrecover signer bi i prev li r' tx.
Proof.
  intros (E1 & E2 & E3 & E4) [B1 B2] [B1' B2']. unfold deriveReceipt. rewrite E1, E2, E3, B1, B2, B1', B2'.
  assert (El : forall n h t, deriveLogs n h t i li (rc_Logs r) = deriveLogs n h t i li (rc_Logs r')) by (intros; by rewrite <- deriveLogs_strip, E4, deriveLogs_strip).
  unfold mbind, st_bind. destruct (tx_Hash tx) as [[h tx1]|]; [|done]. by rewrite El.
Qed.

Lemma derive_stored signer bi i prev li r r' next tx tx' : deriveReceipt Ecrecover signer bi i prev li r tx = Ret ((r', next), tx') ->
  same_stored r r'.
Proof.
  unfold deriveReceipt, mbind, st_bind. destruct (tx_Hash tx) as [[h tx1]|]; [|done]. unfold st_gets. set (t := inner tx1).
  match goal with |- context[match ?m tx1 with _ => _ end] => destruct (m tx1) as [[a tx2]|]; [|done] end.
  pose proof (strip_deriveLogs (bi_number bi) (bi_hash bi) h i li (rc_Logs r)) as El.
  destruct (deriveLogs (bi_number bi) (bi_hash bi) h i li (rc_Logs r)) as [ls nx]. unfold st_lift. destruct (CreateBloom ls); [|done].
  intros [= <- <- <-]. by split_and!.
Qed.

Lemma deriveReceipts_stored signer bi rs txs : forall i prev li rs' txs', length rs = length txs -> Forall blobless rs ->
  deriveReceipts Ecrecover signer bi i prev li rs txs = Ret (rs', txs') ->
  Forall2 same_stored rs rs' /\ deriveReceipts Ecrecover signer bi i prev li (storedPart <$> rs') txs = Ret (rs', txs').
Proof.
  revert txs. induction rs as [|r rs IH]; intros [|tx txs] i prev li rs' txs' Hlen Hb E; try discriminate Hlen.
  - cbn in E. injection E as <- <-. by split; [constructor|].
  - apply Forall_cons in Hb as [Hr Hb]. cbn [deriveReceipts] in E.
    destruct (deriveReceipt _ _ _ _ _ _ r tx) as [[[r1 next] tx1]|] eqn:E1; [|done]. cbn [mbind outcome_bind] in E.
    destruct (deriveReceipts _ _ _ _ _ _ rs txs) as [[rs1 txs1]|] eqn:E2; [|done]. cbn in E. injection E as <- <-.
    destruct (IH txs _ _ _ rs1 txs1 ltac:(by injection Hlen) Hb E2) as [H2 H3]. pose proof (derive_stored _ _ _ _ _ _ _ _ _ _ E1) as Hs.
    split; [by constructor|]. cbn [fmap list_fmap deriveReceipts].
    rewrite <- (derive_same signer bi i prev li r (storedPart r1)), E1; [|by rewrite same_storedPart|done|done].
    cbn [mbind outcome_bind]. destruct Hs as (_ & _ & Eg & _). cbn [storedPart set_status set_consensus rc_CumulativeGasUsed]. rewrite <- Eg, H3. done.
Qed.

Lemma same_storable r r' : same_stored r r' -> storable r -> storable r'.
Proof.
  intros (E1 & E2 & E3 & E4). unfold storable, status_ok. rewrite E1, E2, E3. intros (? & ? & Hl). split_and!; [done|done|].
  assert (Hst : Forall log_ok (stripLog <$> rc_Logs r)) by (apply Forall_fmap; exact Hl). rewrite E4, Forall_fmap in Hst. exact Hst.
Qed.
End derive.
End storage.

(** ** The properties *)

Section properties.
Context `{U : Uint256} {US : Uint256Spec U} `{C : Crypto}.

(** C15 The bloom filter of a block has no false negatives: when every receipt has the filter that [CreateBloom]
    makes from its logs, [MergeBloom] of the receipts returns a filter in which the address and every topic of every
    log of the block test positive. *)
Theorem block_bloom_complete (rs : list Receipt) : Forall (fun r => CreateBloom (rc_Logs r) = Ret (rc_Bloom r)) rs ->
  exists b, MergeBloom rs = Ret b /\ len b = BloomByteLength /\
    forall r l, r ∈ rs -> l ∈ rc_Logs r ->
      Bloom_Test b (Address_Bytes (log_Address (block_log l))) = Ret true /\
      forall t, t ∈ log_Topics (block_log l) -> Bloom_Test b (Hash_Bytes t) = Ret true.
Proof.
  intros Hrs. destruct (MergeBloom_ok rs Hrs) as (b & E & Hb & H). exists b. split_and!; [done|apply Hb|]. intros r l Hr Hl.
  rewrite Forall_forall in H. specialize (H r Hr). rewrite Forall_forall in H. destruct (H l Hl) as [Ha Ht].
  assert (Htest : forall d, contains d b -> Bloom_Test b d = Ret true).
  { intros d Hd. destruct (Bloom_Test_ok b d Hb) as (q & -> & Hq). by rewrite (proj2 Hq Hd). }
  split; [by apply Htest|]. intros t Hin. rewrite Forall_forall in Ht. by apply Htest, Ht.
Qed.

(** C33 The consensus encoding of receipts is exact on the receipts of the five types with a status or a post
    state: [UnmarshalBinary] of what [MarshalBinary] (and [EncodeIndex], which the receipt root is made from) writes
    gives the consensus fields back; and on every input [UnmarshalBinary] returns, an error or a receipt that is
    encoded to that input again. *)
Theorem receipt_binary_exact :
  (forall r, receipt_ok r -> len (rc_binary r) < 2 ^ 63 ->
     rc_MarshalBinary r = Ret (rc_binary r, None) /\ rc_EncodeIndex r = Ret (rc_binary r) /\
     rc_UnmarshalBinary (rc_binary r) zeroReceipt = Ret (None, consensus r)) /\
  (forall b, Forall is_byte b -> len b < 2 ^ 63 -> exists err r, rc_UnmarshalBinary b zeroReceipt = Ret (err, r) /\
     (err = None -> receipt_ok r /\ rc_MarshalBinary r = Ret (b, None))).
Proof.
  split.
  - intros r Hr Hl. destruct (rc_Marshal_ok r Hr Hl). split_and!; [done|done|by apply rc_Unmarshal_ok].
  - intros b Hb Hl. destruct (rc_Unmarshal_canon b Hb Hl) as (e & r & E & H). exists e, r. split; [done|]. intros He.
    destruct (H He) as [Hr ->]. split; [done|]. by apply rc_Marshal_ok.
Qed.

(** C16 Storing the receipts of a block loses nothing: of receipts with their derived fields, the storage encoding
    (without type, bloom filter, hashes, addresses, prices and positions) is read back by [ReceiptForStorage]'s
    decoder, and [DeriveFields] with the block's transactions then yields the same receipts again. *)
Theorem stored_receipts_recovered (Ecrecover : Hash -> bytes -> option bytes) (config : ChainConfig) (time : Z) (bi : BlockInfo)
  (rs rs' : list Receipt) (txs txs' : list Transaction) :
  Forall storable rs -> Forall blobless rs -> DeriveFields Ecrecover config time bi rs txs = Ret (inl rs', txs') ->
  len (encode (storedItem rs')) < 2 ^ 63 ->
  exists b stored, encodeVal (sliceInfo storageInfo) rs' = Ret (inl b) /\ decodeVal (sliceInfo storageInfo) b = Ret (inl stored) /\
    DeriveFields Ecrecover config time bi stored txs = Ret (inl rs', txs').
Proof.
  intros Hs Hb E Hl. unfold DeriveFields in *. destruct (MakeSigner config (Some (bi_number bi)) time) as [signer|]; [|done]. cbn [mbind outcome_bind] in *.
  destruct (Z.eqb_spec (len txs) (len rs)) as [Hlen|]; [|done]. cbn [negb] in E.
  destruct (deriveReceipts _ _ _ _ _ _ rs txs) as [[rs1 txs1]|] eqn:E1; [|done]. cbn in E. injection E as <- <-.
  destruct (deriveReceipts_stored Ecrecover signer bi rs txs 0 0 0 rs1 txs1 ltac:(unfold len in *; lia) Hb E1) as [H2 H3].
  assert (Hs1 : Forall storable rs1).
  { clear -H2 Hs. induction H2; [constructor|]. apply Forall_cons in Hs as [? ?]. constructor; [by eapply same_storable|by apply IHForall2]. }
  destruct (storage_roundtrip rs1 Hs1 Hl) as [Ee Ed]. do 2 eexists. split_and!; [exact Ee|exact Ed|].
  apply Forall2_length in H2. replace (len txs =? len (storedPart <$> rs1)) with true; [by rewrite H3|].
  symmetry. apply Z.eqb_eq. unfold len in *. rewrite length_fmap. lia.
Qed.
End properties.

(** ** A block of two transactions with three logs *)

Definition demo_log (a : Address) (topics : list Hash) (d : bytes) : BlockLog := decodedLog a topics d.
Definition demo_receipts : list Receipt :=
  [set_status [] 1 (set_consensus 0 21000 Bloom0 [demo_log 5 [2 ^ 250; 7] [1; 2]; demo_log 6 [] []] zeroReceipt);
   set_status [] 0 (set_consensus 0 50000 Bloom0 [demo_log 5 [2 ^ 240 + 9] [3]] zeroReceipt)].
Definition demo_txs : list Transaction := [NewTx demo_legacy; NewTx demo_access].
Definition demo_info_block : BlockInfo := mkBlockInfo 99 5 (Some 9) None.
Definition demo_derived : list Receipt * list Transaction :=
  match @DeriveFields _ demo_tx_crypto demo_Ecrecover demo_config 0 demo_info_block demo_receipts demo_txs with
  | Ret (inl rs, txs) => (rs, txs)
  | _ => ([], [])
  end.

Lemma demo_log_ok : Forall (fun r => Forall log_ok (rc_Logs r)) demo_receipts.
Proof. repeat first [apply Forall_nil_2 | apply Forall_cons; split | split]; by vm_compute. Qed.

Lemma demo_derives : @DeriveFields _ demo_tx_crypto demo_Ecrecover demo_config 0 demo_info_block demo_receipts demo_txs = Ret (inl demo_derived.1, demo_derived.2).
Proof.
  assert (H : (match @DeriveFields _ demo_tx_crypto demo_Ecrecover demo_config 0 demo_info_block demo_receipts demo_txs with
               | Ret (inl _, _) => true | _ => false end) = true) by (vm_compute; reflexivity).
  unfold demo_derived. destruct (DeriveFields _ _ _ _ _ _) as [[[rs|e] txs]|]; [reflexivity|discriminate H..].
Qed.

Lemma demo_derived_two : demo_derived.1 = [nth 0 demo_derived.1 zeroReceipt; nth 1 demo_derived.1 zeroReceipt].
Proof. vm_compute. reflexivity. Qed.

Lemma block_bloom_complete_witness : exists b, @MergeBloom demo_derived.1 = Ret b /\
  @Bloom_Test demo_tx_crypto b (Hash_Bytes (2 ^ 240 + 9)) = Ret true /\ @Bloom_Test demo_tx_crypto b (Address_Bytes 6) = Ret true.
Proof.
  assert (Hrs : Forall (fun r => @CreateBloom demo_tx_crypto (rc_Logs r) = Ret (rc_Bloom r)) demo_derived.1).
  { rewrite demo_derived_two. apply Forall_cons. split; [vm_compute; reflexivity|]. apply Forall_singleton. vm_compute. reflexivity. }
  destruct (@block_bloom_complete demo_tx_crypto demo_derived.1 Hrs) as (b & E & _ & H). exists b. split; [exact E|]. split.
  - set (r := nth 1 demo_derived.1 zeroReceipt). apply (H r (nth 0 (rc_Logs r) (demo_log 0 [] []))).
    + rewrite demo_derived_two. right. left.
    + vm_compute. left.
    + vm_compute. left.
  - set (r := nth 0 demo_derived.1 zeroReceipt). refine (proj1 (H r (nth 1 (rc_Logs r) (demo_log 0 [] [])) _ _)).
    + rewrite demo_derived_two. left.
    + vm_compute. right. left.
Defined.

Definition demo_receipt : Receipt := set_status [] 1 (set_consensus 2 21000 Bloom0 [demo_log 5 [2 ^ 250; 7] [1; 2]] zeroReceipt).

Lemma receipt_binary_exact_witness : exists b,
  rc_MarshalBinary demo_receipt = Ret (b, None) /\ rc_UnmarshalBinary b zeroReceipt = Ret (None, consensus demo_receipt).
Proof.
  assert (Hr : receipt_ok demo_receipt).
  { split_and!; [by right; right; left|done|apply Bloom0_ok|apply Forall_singleton|left; split; [done|by right]].
    split_and!; repeat first [apply Forall_nil_2 | apply Forall_cons; split]; done. }
  assert (Hl : len (rc_binary demo_receipt) < 2 ^ 63) by (vm_compute; reflexivity).
  exists (rc_binary demo_receipt). destruct (proj1 receipt_binary_exact demo_receipt Hr Hl) as (E1 & _ & E2). split; [exact E1|exact E2].
Defined.

Lemma stored_receipts_recovered_witness : exists b stored,
  encodeVal (sliceInfo storageInfo) demo_derived.1 = Ret (inl b) /\ decodeVal (sliceInfo storageInfo) b = Ret (inl stored) /\
  @DeriveFields _ demo_tx_crypto demo_Ecrecover demo_config 0 demo_info_block stored demo_txs = Ret (inl demo_derived.1, demo_derived.2).
Proof.
  apply (@stored_receipts_recovered _ _ demo_tx_crypto demo_Ecrecover demo_config 0 demo_info_block demo_receipts demo_derived.1 demo_txs demo_derived.2).
  - destruct (proj1 (Forall_cons _ _ _) demo_log_ok) as [H1 H]. destruct (proj1 (Forall_cons _ _ _) H) as [H2 _].
    apply Forall_cons. split; [|apply Forall_singleton].
    + split_and!; [left; split; [done|by right]|done|exact H1].
    + split_and!; [left; split; [done|by left]|done|exact H2].
  - apply Forall_cons. split; [done|]. by apply Forall_singleton.
  - exact demo_derives.
  - vm_compute. reflexivity.
Defined.
