(* ===== verification/Blocks.v ===== *)
(** * Blocks: bodies, assembly and validation ([core/types/block.go], [withdrawal.go], [core/block_validator.go])

    A block is its header and body; the caches of its hash and size are left out, since the header
    of a block never changes.  Headers and withdrawals are decoded by reflection and encoded by generated
    code.  The chain and the consensus engine are arguments of the validator. *)

From S2P Require Import Prelude Bytes Uint256 Params Machine Rlp RlpStream RlpTypes VM State ChainConfig Headers HeaderRules StateTransition TrieNode Trie StackTrie DeriveSha Transactions TxSigning Receipts.

Set Default Proof Using "Type".

Section blocks.
Context `{U : Uint256} `{C : Crypto}.

(** ** Headers *)

(** An optional field is written when it or a later one is present. *)
Definition w_when (c : bool) (m : W) : W := fun w => if c then m w else Ret (inl w).

Definition writeHashPtr (h : option Hash) : W := w_do (fun w => writeHashOpt w h).
Definition writeUintPtr (n : option Z) : W := w_do (fun w => writeUintOpt w n).

Fixpoint w_seq (l : list W) : W :=
  match l with [] => fun w => Ret (inl w) | m :: l => w_bind m (w_seq l) end.

(** [func (obj *Header) EncodeRLP(_w io.Writer) error] into the buffer of an encoder; [Headers.EncodeRLP]
    writes the same into a buffer of its own. *)
Definition Header_EncodeRLP (obj : Header) : W :=
  let tmp1 := present (hd_BaseFee obj) in
  let tmp2 := present (hd_WithdrawalsHash obj) in
  let tmp3 := present (hd_BlobGasUsed obj) in
  let tmp4 := present (hd_ExcessBlobGas obj) in
  let tmp5 := present (hd_ParentBeaconRoot obj) in
  let tmp6 := present (hd_RequestsHash obj) in
  inList (w_seq [
    writeByteSlice (Hash_Bytes (hd_ParentHash obj));
    writeByteSlice (Hash_Bytes (hd_UncleHash obj));
    writeByteSlice (Address_Bytes (hd_Coinbase obj));
    writeByteSlice (Hash_Bytes (hd_Root obj));
    writeByteSlice (Hash_Bytes (hd_TxHash obj));
    writeByteSlice (Hash_Bytes (hd_ReceiptHash obj));
    writeByteSlice (hd_Bloom obj);
    writeBigIntPtr (hd_Difficulty obj);
    writeBigIntPtr (hd_Number obj);
    writeUint (hd_GasLimit obj);
    writeUint (hd_GasUsed obj);
    writeUint (hd_Time obj);
    writeByteSlice (hd_Extra obj);
    writeByteSlice (Hash_Bytes (hd_MixDigest obj));
    writeByteSlice (Nonce_Bytes (hd_Nonce obj));
    w_when (tmp1 || tmp2 || tmp3 || tmp4 || tmp5 || tmp6) (writeBigIntPtr (hd_BaseFee obj));
    w_when (tmp2 || tmp3 || tmp4 || tmp5 || tmp6) (writeHashPtr (hd_WithdrawalsHash obj));
    w_when (tmp3 || tmp4 || tmp5 || tmp6) (writeUintPtr (hd_BlobGasUsed obj));
    w_when (tmp4 || tmp5 || tmp6) (writeUintPtr (hd_ExcessBlobGas obj));
    w_when (tmp5 || tmp6) (writeHashPtr (hd_ParentBeaconRoot obj));
    w_when tmp6 (writeHashPtr (hd_RequestsHash obj)) ]).

(** [type BlockNonce [8]byte] *)
Definition nonceInfo : typeinfo Z := viewInfo be_val Nonce_Bytes (byteArrayInfo 8).

Definition headerFields := fcons hashInfo None (fcons hashInfo None (fcons addressInfo None (fcons hashInfo None
  (fcons hashInfo None (fcons hashInfo None (fcons (byteArrayInfo BloomByteLength) None (fcons bigIntPtrInfo None
  (fcons bigIntPtrInfo None (fcons (uintInfo 64) None (fcons (uintInfo 64) None (fcons (uintInfo 64) None
  (fcons byteSliceInfo None (fcons hashInfo None (fcons nonceInfo None
  (fcons bigIntPtrInfo (Some zeroPtr) (fcons (ptrInfo KString hashInfo) (Some zeroPtr)
  (fcons (ptrInfo KString (uintInfo 64)) (Some zeroPtr) (fcons (ptrInfo KString (uintInfo 64)) (Some zeroPtr)
  (fcons (ptrInfo KString hashInfo) (Some zeroPtr) (fcons (ptrInfo KString hashInfo) (Some zeroPtr) fnil)))))))))))))))))))).

Definition tuple_header '(a, (b, (c, (d, (e, (f, (g, (h, (i, (j, (k, (l, (m, (n, (o, (p, (q, (r, (s, (t, (u, tt))))))))))))))))))))) : Header :=
  mkHeader a b c d e f g h i j k l m n o p q r s t u.
Definition header_tuple (x : Header) :=
  (hd_ParentHash x, (hd_UncleHash x, (hd_Coinbase x, (hd_Root x, (hd_TxHash x, (hd_ReceiptHash x, (hd_Bloom x, (hd_Difficulty x,
  (hd_Number x, (hd_GasLimit x, (hd_GasUsed x, (hd_Time x, (hd_Extra x, (hd_MixDigest x, (hd_Nonce x, (hd_BaseFee x,
  (hd_WithdrawalsHash x, (hd_BlobGasUsed x, (hd_ExcessBlobGas x, (hd_ParentBeaconRoot x, (hd_RequestsHash x, tt))))))))))))))))))))).

(** A header decoded by reflection *)
Definition headerInfo : typeinfo Header :=
  mkInfo (ti_decoder (viewInfo tuple_header header_tuple (structInfo headerFields))) Header_EncodeRLP.

(** [[]*Header]: the pointers are never nil. *)
Definition headersInfo : typeinfo (list Header) := sliceInfo headerInfo.

(** [func CopyHeader(h *Header) *Header]: a nil difficulty or number becomes zero. *)
Definition CopyHeader (h : Header) : Header :=
  mkHeader (hd_ParentHash h) (hd_UncleHash h) (hd_Coinbase h) (hd_Root h) (hd_TxHash h) (hd_ReceiptHash h) (hd_Bloom h)
    (Some (default 0 (hd_Difficulty h))) (Some (default 0 (hd_Number h))) (hd_GasLimit h) (hd_GasUsed h) (hd_Time h) (hd_Extra h)
    (hd_MixDigest h) (hd_Nonce h) (hd_BaseFee h) (hd_WithdrawalsHash h) (hd_BlobGasUsed h) (hd_ExcessBlobGas h)
    (hd_ParentBeaconRoot h) (hd_RequestsHash h).

Inductive sanityerror := errLargeNumber | errLargeDifficulty | errLargeExtra | errLargeBaseFee.

Definition SanityCheck (h : Header) : option sanityerror :=
  if match hd_Number h with Some n => negb ((0 <=? n) && (n <=? MaxUint64)) | None => false end then Some errLargeNumber
  else if match hd_Difficulty h with Some d => 80 <? big_BitLen d | None => false end then Some errLargeDifficulty
  else if 100 * 1024 <? len (hd_Extra h) then Some errLargeExtra
  else if match hd_BaseFee h with Some f => 256 <? big_BitLen f | None => false end then Some errLargeBaseFee
  else None.

Definition EmptyTxsHash : Hash := 0x56e81f171bcc55a6ff8345e692c0f86e5b48e01b996cadc001622fb5e363b421.
Definition EmptyReceiptsHash : Hash := 0x56e81f171bcc55a6ff8345e692c0f86e5b48e01b996cadc001622fb5e363b421.
Definition EmptyWithdrawalsHash : Hash := 0x56e81f171bcc55a6ff8345e692c0f86e5b48e01b996cadc001622fb5e363b421.

Definition EmptyBody (h : Header) : bool :=
  let emptyWithdrawals := match hd_WithdrawalsHash h with None => true | Some x => x =? EmptyWithdrawalsHash end in
  (hd_TxHash h =? EmptyTxsHash) && (hd_UncleHash h =? EmptyUncleHash) && emptyWithdrawals.

Definition EmptyReceipts (h : Header) : bool := hd_ReceiptHash h =? EmptyReceiptsHash.

(** [HeaderParentHashFromRLP]: the zero hash if the header is not valid *)
Definition HeaderParentHashFromRLP (header : bytes) : Outcome Hash :=
  r ← SplitList header;
  match r with
  | inr _ => Ret 0
  | inl (listContent, _) =>
      r ← SplitString listContent;
      match r with
      | inr _ => Ret 0
      | inl (parentHash, _) => Ret (if len parentHash =? 32 then be_val parentHash else 0)
      end
  end.

(** ** Withdrawals *)

Record Withdrawal := mkWithdrawal { wd_Index : Z; wd_Validator : Z; wd_Address : Address; wd_Amount : Z }.

Definition Withdrawal_EncodeRLP (obj : Withdrawal) : W :=
  inList (w_seq [writeUint (wd_Index obj); writeUint (wd_Validator obj); writeByteSlice (Address_Bytes (wd_Address obj)); writeUint (wd_Amount obj)]).

Definition withdrawalInfo : typeinfo Withdrawal :=
  mkInfo (ti_decoder (viewInfo (fun '(i, (v, (a, (m, _)))) => mkWithdrawal i v a m)
      (fun w => (wd_Index w, (wd_Validator w, (wd_Address w, (wd_Amount w, tt)))))
      (structInfo (fcons (uintInfo 64) None (fcons (uintInfo 64) None (fcons addressInfo None (fcons (uintInfo 64) None fnil)))))))
    Withdrawal_EncodeRLP.

(** [Withdrawals.EncodeIndex] *)
Definition wd_EncodeIndex (w : Withdrawal) : Outcome bytes := e ← encodeVal withdrawalInfo w; Ret (written e).

(** ** Blocks *)

(** [type Body struct], [type Block struct]; a nil slice of withdrawals is [None]. *)
Record Body := mkBody { body_Transactions : list Transaction; body_Uncles : list Header; body_Withdrawals : option (list Withdrawal) }.
Record Block := mkBlock { blk_header : Header; blk_transactions : list Transaction; blk_uncles : list Header; blk_withdrawals : option (list Withdrawal) }.

Definition block_Body (b : Block) : Body := mkBody (blk_transactions b) (blk_uncles b) (blk_withdrawals b).
Definition block_Header (b : Block) : Header := CopyHeader (blk_header b).
Definition block_Hash (b : Block) : Outcome Hash := Header_Hash (blk_header b).
(** [b.header.Number.Uint64()] *)
Definition NumberU64 (b : Block) : Outcome Z := n ← big (hd_Number (blk_header b)); Ret (wrap64 n).

Definition NewBlockWithHeader (header : Header) : Block := mkBlock (CopyHeader header) [] [] None.
Definition WithSeal (b : Block) (header : Header) : Block := mkBlock (CopyHeader header) (blk_transactions b) (blk_uncles b) (blk_withdrawals b).
Definition WithBody (b : Block) (body : Body) : Block :=
  mkBlock (blk_header b) (body_Transactions body) (CopyHeader <$> body_Uncles body) (body_Withdrawals body).

(** [rlpHash(uncles)]: an error is ignored. *)
Definition CalcUncleHash (uncles : list Header) : Outcome Hash :=
  if len uncles =? 0 then Ret EmptyUncleHash else rlpHash (encodeVal headersInfo uncles).

(** The elements of a list as [EncodeIndex] writes them *)
Fixpoint encodeList {A} (EncodeIndex : A -> Outcome bytes) (l : list A) : Outcome (list bytes) :=
  match l with [] => Ret [] | a :: l => b ← EncodeIndex a; bs ← encodeList EncodeIndex l; Ret (b :: bs) end.

(** [CalcRequestsHash]; [sha256] is the hash function of the standard library, which writes 32 bytes. *)
Definition CalcRequestsHash (sha256 : bytes -> bytes) (requests : list bytes) : Hash :=
  be_val (sha256 (concat (sha256 <$> filter (fun item => 1 < len item) requests))).

Section assembly.
Context {S : Type} `{!TrieHasher S}.

(** [DeriveSha(list, hasher)] *)
Definition deriveList {A} (EncodeIndex : A -> Outcome bytes) (l : list A) : ST S Hash :=
  items ← st_lift (encodeList EncodeIndex l); DeriveSha items.
Definition txEncodeIndex (tx : Transaction) : Outcome bytes := EncodeIndex (inner tx).

(** The header of [NewBlock] with the roots of the body and of the receipts *)
Definition set_roots (h : Header) (uncles txs receipts : Hash) (bloom : bytes) (withdrawals : option Hash) : Header :=
  mkHeader (hd_ParentHash h) uncles (hd_Coinbase h) (hd_Root h) txs receipts bloom
    (hd_Difficulty h) (hd_Number h) (hd_GasLimit h) (hd_GasUsed h) (hd_Time h) (hd_Extra h)
    (hd_MixDigest h) (hd_Nonce h) (hd_BaseFee h) withdrawals (hd_BlobGasUsed h) (hd_ExcessBlobGas h)
    (hd_ParentBeaconRoot h) (hd_RequestsHash h).

Definition NewBlock (header : Header) (body : option Body) (receipts : list Receipt) : ST S Block :=
  let body := default (mkBody [] [] None) body in
  let b := NewBlockWithHeader header in
  let txs := body_Transactions body in
  let uncles := body_Uncles body in
  txHash ← (if len txs =? 0 then mret EmptyTxsHash else deriveList txEncodeIndex txs);
  '(receiptHash, bloom) ← (if len receipts =? 0 then mret (EmptyReceiptsHash, hd_Bloom (blk_header b))
    else h ← deriveList rc_EncodeIndex receipts; bl ← st_lift (MergeBloom receipts); mret (h, bl));
  uncleHash ← st_lift (if len uncles =? 0 then Ret EmptyUncleHash else CalcUncleHash uncles);
  withdrawalsHash ← match body_Withdrawals body with
    | None => mret None
    | Some withdrawals =>
        if len withdrawals =? 0 then mret (Some EmptyWithdrawalsHash)
        else h ← deriveList wd_EncodeIndex withdrawals; mret (Some h)
    end;
  mret (mkBlock (set_roots (blk_header b) uncleHash txHash receiptHash bloom withdrawalsHash) txs (CopyHeader <$> uncles) (body_Withdrawals body)).
End assembly.

(** ** The block validator *)

Inductive blockerror :=
  | ErrKnownBlock | errBadUncles | errUncleRoot | errTxRoot | errMissingWithdrawals | errWithdrawalsRoot | errUnexpectedWithdrawals
  | errBlobSidecar (i : Z) | errBlobGasUsed | errUnexpectedBlobs | ErrUnknownAncestor | ErrPrunedAncestor
  | errNilResult | errGasUsed | errBloom | errReceiptRoot | errRequestsHash | errUnexpectedRequests | errStateRoot.

(** [BlockChain.HasBlockAndState], [BlockChain.HasBlock] and [engine.VerifyUncles] *)
Context (HasBlockAndState HasBlock : Hash -> Z -> bool) (VerifyUncles : Block -> bool).

(** [types.DeriveSha(list, trie.NewStackTrie(nil))] *)
Definition listRoot {A} (EncodeIndex : A -> Outcome bytes) (l : list A) : Outcome Hash :=
  '(h, _) ← deriveList (S := StackTrie) EncodeIndex l NewStackTrie; Ret h.

(** The loop over the transactions: the number of blobs, or the index of one with a sidecar *)
Fixpoint countBlobs (i blobs : Z) (txs : list Transaction) : Z + Z :=
  match txs with
  | [] => inl blobs
  | tx :: txs =>
      let blobs := blobs + len (default [] (tx_BlobHashes (inner tx))) in
      match tx_BlobTxSidecar (inner tx) with Some _ => inr i | None => countBlobs (i + 1) blobs txs end
  end.

(** The withdrawals in the body and in the header *)
Definition checkWithdrawals (header : Header) (b : Block) : Outcome (option blockerror) :=
  match hd_WithdrawalsHash header, blk_withdrawals b with
  | Some _, None => Ret (Some errMissingWithdrawals)
  | Some want, Some ws => h ← listRoot wd_EncodeIndex ws; Ret (if h =? want then None else Some errWithdrawalsRoot)
  | None, Some _ => Ret (Some errUnexpectedWithdrawals)
  | None, None => Ret None
  end.

Definition checkBlobCount (header : Header) (b : Block) : option blockerror :=
  match countBlobs 0 0 (blk_transactions b) with
  | inr i => Some (errBlobSidecar i)
  | inl blobs =>
      match hd_BlobGasUsed header with
      | Some used => if negb (wrap64 blobs =? used / BlobTxBlobGasPerBlob) then Some errBlobGasUsed else None
      | None => if 0 <? blobs then Some errUnexpectedBlobs else None
      end
  end.

Definition ValidateBody (b : Block) : Outcome (option blockerror) :=
  hash ← block_Hash b;
  number ← NumberU64 b;
  if HasBlockAndState hash number then Ret (Some ErrKnownBlock)
  else
    let header := block_Header b in
    if negb (VerifyUncles b) then Ret (Some errBadUncles)
    else
      hash ← CalcUncleHash (blk_uncles b);
      if negb (hash =? hd_UncleHash header) then Ret (Some errUncleRoot)
      else
        hash ← listRoot txEncodeIndex (blk_transactions b);
        if negb (hash =? hd_TxHash header) then Ret (Some errTxRoot)
        else
          err ← checkWithdrawals header b;
          match err with
          | Some e => Ret (Some e)
          | None =>
              match checkBlobCount header b with
              | Some e => Ret (Some e)
              | None =>
                  let parent := hd_ParentHash (blk_header b) in
                  Ret (if negb (HasBlockAndState parent (number -! 1)) then
                         if negb (HasBlock parent (number -! 1)) then Some ErrUnknownAncestor else Some ErrPrunedAncestor
                       else None)
              end
          end.

(** [type ProcessResult struct]; nil requests are [None]. *)
Record ProcessResult := mkProcessResult { pr_Receipts : list Receipt; pr_Requests : option (list bytes); pr_Logs : list BlockLog; pr_GasUsed : Z }.

(** [ValidateState]; [root] is the root that [statedb.IntermediateRoot] computes. *)
Definition ValidateState (sha256 : bytes -> bytes) (b : Block) (root : Hash) (res : option ProcessResult) (stateless : bool) : Outcome (option blockerror) :=
  match res with
  | None => Ret (Some errNilResult)
  | Some res =>
      let header := block_Header b in
      if negb (hd_GasUsed (blk_header b) =? pr_GasUsed res) then Ret (Some errGasUsed)
      else
        rbloom ← MergeBloom (pr_Receipts res);
        if negb (bool_decide (rbloom = hd_Bloom header)) then Ret (Some errBloom)
        else if stateless then Ret None
        else
          receiptSha ← listRoot rc_EncodeIndex (pr_Receipts res);
          if negb (receiptSha =? hd_ReceiptHash header) then Ret (Some errReceiptRoot)
          else
            match hd_RequestsHash header, pr_Requests res with
            | Some want, reqs =>
                if negb (CalcRequestsHash sha256 (default [] reqs) =? want) then Ret (Some errRequestsHash)
                else Ret (if hd_Root header =? root then None else Some errStateRoot)
            | None, Some _ => Ret (Some errUnexpectedRequests)
            | None, None => Ret (if hd_Root header =? root then None else Some errStateRoot)
            end
  end.

(** [func CalcGasLimit(parentGasLimit, desiredLimit uint64) uint64] *)
Definition CalcGasLimit (parentGasLimit desiredLimit : Z) : Z :=
  let delta := parentGasLimit / GasLimitBoundDivisor -! 1 in
  let desiredLimit := if desiredLimit <? MinGasLimit then MinGasLimit else desiredLimit in
  if parentGasLimit <? desiredLimit then
    let limit := parentGasLimit +! delta in if desiredLimit <? limit then desiredLimit else limit
  else if desiredLimit <? parentGasLimit then
    let limit := parentGasLimit -! delta in if limit <? desiredLimit then desiredLimit else limit
  else parentGasLimit.
End blocks.
