(* ===== verification/BlockCodec.v ===== *)
(** * The encoding of headers

    The generated encoder and the decoder of reflection are exact: a header survives a round trip, and only
    its canonical encoding is accepted.  [Headers.EncodeRLP], which the hash is made from, writes the same bytes. *)

From S2P Require Import Prelude Bytes Uint256 Params Machine Rlp RlpTheorems RlpStream RlpTypes RlpCodec RlpCanon VM Frames State ChainConfig Headers HeaderRules StateTransition TrieKeys TrieNode Trie TrieSpec TrieHash TrieOps TrieTheorems StackTrie DeriveSha Transactions TxSigning TxCodec TxCaches TxTheorems Receipts ReceiptTheorems Blocks.

Set Default Proof Using "Type*".

Section headers.
Context `{U : Uint256} {US : Uint256Spec U} `{C : Crypto}.

(** ** The encoding of headers *)

Inductive writes_each : list W -> list item -> Prop :=
  | we_nil : writes_each [] []
  | we_cons m ms it its : writes_as m [it] -> writes_each ms its -> writes_each (m :: ms) (it :: its)
  | we_when (c : bool) m ms it its : writes_as m [it] -> writes_each ms its -> writes_each (w_when c m :: ms) ((if c then [it] else []) ++ its).

Lemma writes_seq ms its : writes_each ms its -> writes_as (w_seq ms) its.
Proof.
  intros H. induction H as [|m ms it its Hm _ IH|c m ms it its Hm _ IH]; cbn [w_seq]; [apply writes_nil|by apply (writes_bind _ _ [_])|].
  destruct c; [by apply (writes_bind _ _ [_])|exact IH].
Qed.

Lemma writes_each_eq ms its its' : writes_each ms its -> its = its' -> writes_each ms its'.
Proof. by intros ? <-. Qed.

Lemma writeUint_writes n : is_u64 n -> writes_as (writeUint n) [iUint n].
Proof. apply (c_writes _ _ _ (ex_codec _ _ _ uint64_exact)). Qed.
Definition nonneg (o : option Z) : Prop := match o with Some z => 0 <= z | None => True end.
Definition iBigPtr (o : option Z) : item := Str (minBytes (default 0 o)).
Lemma writeBigIntPtr_writes o : nonneg o -> writes_as (writeBigIntPtr o) [iBigPtr o].
Proof.
  destruct o as [z|]; intros Hz; [|apply writes_str; reflexivity].
  apply (c_writes _ _ _ (ex_codec _ _ _ big_exact) z Hz).
Qed.
Definition iHashPtr (o : option Hash) : item := ptr_item KString iHash o.
Lemma writeHashPtr_writes o : writes_as (writeHashPtr o) [iHashPtr o].
Proof. destruct o as [h|]; [apply (writeByteSlice_writes (Hash_Bytes h))|apply writes_str; reflexivity]. Qed.
Definition iUintPtr (o : option Z) : item := ptr_item KString iUint o.
Definition u64_opt (o : option Z) : Prop := match o with Some n => is_u64 n | None => True end.
Lemma writeUintPtr_writes o : u64_opt o -> writes_as (writeUintPtr o) [iUintPtr o].
Proof. destruct o as [n|]; intros Hn; [by apply writeUint_writes|apply writes_str; reflexivity]. Qed.

(** An optional field is present if a later one is. *)
Definition prefixed (h : Header) : Prop :=
  (hd_RequestsHash h <> None -> hd_ParentBeaconRoot h <> None) /\ (hd_ParentBeaconRoot h <> None -> hd_ExcessBlobGas h <> None) /\
  (hd_ExcessBlobGas h <> None -> hd_BlobGasUsed h <> None) /\ (hd_BlobGasUsed h <> None -> hd_WithdrawalsHash h <> None) /\
  (hd_WithdrawalsHash h <> None -> hd_BaseFee h <> None).

Definition hash_opt (o : option Hash) : Prop := match o with Some h => hash_ok h | None => True end.

Record header_ok (h : Header) : Prop := {
  ho_hashes : hash_ok (hd_ParentHash h) /\ hash_ok (hd_UncleHash h) /\ hash_ok (hd_Root h) /\ hash_ok (hd_TxHash h) /\ hash_ok (hd_ReceiptHash h) /\ hash_ok (hd_MixDigest h);
  ho_coinbase : addr_ok (hd_Coinbase h);
  ho_bloom : Forall is_byte (hd_Bloom h) /\ len (hd_Bloom h) = BloomByteLength;
  ho_big : (exists d, hd_Difficulty h = Some d /\ 0 <= d) /\ (exists n, hd_Number h = Some n /\ 0 <= n);
  ho_uints : is_u64 (hd_GasLimit h) /\ is_u64 (hd_GasUsed h) /\ is_u64 (hd_Time h) /\ is_u64 (hd_Nonce h);
  ho_extra : Forall is_byte (hd_Extra h);
  ho_opts : nonneg (hd_BaseFee h) /\ hash_opt (hd_WithdrawalsHash h) /\ u64_opt (hd_BlobGasUsed h) /\ u64_opt (hd_ExcessBlobGas h) /\ hash_opt (hd_ParentBeaconRoot h) /\ hash_opt (hd_RequestsHash h);
  ho_prefix : prefixed h;
}.

Definition iNonce (n : Z) : item := Str (Nonce_Bytes n).
Definition opt_its (h : Header) : list item :=
  opt_items zeroPtr iBigPtr (opt_items zeroPtr iHashPtr (opt_items zeroPtr iUintPtr (opt_items zeroPtr iUintPtr (opt_items zeroPtr iHashPtr
    (opt_items zeroPtr iHashPtr (fun _ : () => []))))))
    (hd_BaseFee h, (hd_WithdrawalsHash h, (hd_BlobGasUsed h, (hd_ExcessBlobGas h, (hd_ParentBeaconRoot h, (hd_RequestsHash h, tt)))))).
Definition iHeader (h : Header) : item :=
  Lst (iHash (hd_ParentHash h) :: iHash (hd_UncleHash h) :: iAddr (hd_Coinbase h) :: iHash (hd_Root h) :: iHash (hd_TxHash h) :: iHash (hd_ReceiptHash h) ::
    Str (hd_Bloom h) :: iBigPtr (hd_Difficulty h) :: iBigPtr (hd_Number h) :: iUint (hd_GasLimit h) :: iUint (hd_GasUsed h) :: iUint (hd_Time h) ::
    Str (hd_Extra h) :: iHash (hd_MixDigest h) :: iNonce (hd_Nonce h) :: opt_its h).

Lemma Header_EncodeRLP_writes h : header_ok h -> writes_as (Header_EncodeRLP h) [iHeader h].
Proof.
  intros [_ _ _ [(d & Ed & Hd) (n & En & Hn)] (H1 & H2 & H3 & _) _ (O1 & O2 & O3 & O4 & O5 & O6) _]. unfold Header_EncodeRLP, iHeader.
  rewrite Ed, En. apply writes_list, writes_seq.
  do 7 (apply we_cons; [apply writeByteSlice_writes|]). do 2 (apply we_cons; [by apply writeBigIntPtr_writes|]).
  do 3 (apply we_cons; [by apply writeUint_writes|]). do 3 (apply we_cons; [apply writeByteSlice_writes|]).
  eapply writes_each_eq.
  { apply we_when; [by apply writeBigIntPtr_writes|]. apply we_when; [apply writeHashPtr_writes|]. do 2 (apply we_when; [by apply writeUintPtr_writes|]).
    do 2 (apply we_when; [apply writeHashPtr_writes|]). apply we_nil. }
  unfold opt_its, opt_items. cbn [fst snd].
  by destruct (hd_BaseFee h), (hd_WithdrawalsHash h), (hd_BlobGasUsed h), (hd_ExcessBlobGas h), (hd_ParentBeaconRoot h), (hd_RequestsHash h).
Qed.

Lemma nonce_exact : Exact nonceInfo is_u64 iNonce.
Proof.
  eapply view_exact; [by apply byteArray_exact|..].
  - intros n Hn. unfold Nonce_Bytes, len. rewrite be_bytes_length, be_val_be_bytes. split; [split; [apply be_bytes_bytes|done]|].
    split; [|done]. by apply Z.mod_small.
  - intros l [Hb Hl]. pose proof (be_val_bounds l Hb) as Hr. rewrite Hl in Hr. split; [exact Hr|]. unfold iNonce, Nonce_Bytes. f_equal.
    replace 8%nat with (length l) by (unfold len in Hl; lia). by apply be_bytes_be_val.
Qed.

Lemma hashPtr_exact : Exact (ptrInfo KString hashInfo) (ptr_ok hash_ok) iHashPtr.
Proof. apply ptr_exact, hash_exact'. Qed.
Lemma uintPtr_exact : Exact (ptrInfo KString (uintInfo 64)) (ptr_ok is_u64) iUintPtr.
Proof. apply ptr_exact, uint64_exact. Qed.

#[local] Hint Resolve hash_exact' addr_exact uint64_exact byteSlice_exact bigIntPtr_exact nonce_exact hashPtr_exact uintPtr_exact : rlp.

Lemma header_exact : Exact headerInfo header_ok iHeader.
Proof.
  apply exact_writer; [|apply Header_EncodeRLP_writes].
  eapply view_exact.
  - apply struct_exact. unfold headerFields. repeat (apply fe_req; [first [by apply byteArray_exact|solve [eauto with rlp]]|]).
    repeat (apply fe_opt; [solve [eauto with rlp]|exact I| |done|by first [intros ? (? & -> & ?)|intros [?|]]]). apply fe_nil.
  - intros [a b c d e f g h i j k l m n o p q r s t u] [H1 H2 H3 H4 H5 H6 H7 (P1 & P2 & P3 & P4 & P5)]. cbn in *.
    destruct u, t; try (exfalso; by apply P1); destruct s; try (exfalso; by apply P2); destruct r; try (exfalso; by apply P3);
      destruct q; try (exfalso; by apply P4); destruct p; try (exfalso; by apply P5); clear P1 P2 P3 P4 P5;
      destruct_and? H1; destruct_and? H3; destruct_and? H4; destruct_and? H5; destruct_and? H7; unfold opt_ok; cbn; split_and!; eauto.
  - intros (a & b & c & d & e & f & g & h & i & j & k & l & m & n & o & p & q & r & s & t & u & []) H. cbn [fst snd] in H. unfold opt_ok in H. cbn [fst snd] in H.
    destruct H as (Ha & Hb & Hc & Hd & He & Hf & [Hg Hg'] & Hh & Hi & Hj & Hk & Hl & Hm & Hn & Ho & Hp & Hq & Hr & Hs & Ht & Hu & _).
    split; [|done].
    destruct u; destruct t; try (by destruct Ht); destruct s; try (by destruct Hs); destruct r; try (by destruct Hr);
      destruct q; try (by destruct Hq); destruct p; try (by destruct Hp as (? & ? & _)); cbn in Hp, Hq, Hr, Hs, Ht, Hu; try destruct Hp as (? & [= ->] & ?);
      split; cbn; repeat match goal with |- _ /\ _ => split end; try done.
Qed.

(** [Headers.EncodeRLP], in a buffer of its own *)
Definition writeBig (o : option Z) (w : encBuffer) : encBuffer := match o with None => append_str w [128] | Some z => writeBigInt w z end.
Lemma writeBigOpt_eq w o : nonneg o -> writeBigOpt w o = Some (writeBig o w).
Proof. destruct o as [z|]; cbn; intros Hz; [|done]. by replace (z <? 0) with false by lia. Qed.
Lemma writeBigIntPtr_eq o : nonneg o -> writeBigIntPtr o = w_do (writeBig o).
Proof. destruct o as [z|]; cbn; intros Hz; [|done]. unfold writeBigIntNoPtr. by replace (z <? 0) with false by lia. Qed.

Lemma EncodeRLP_eq h : nonneg (hd_Difficulty h) -> nonneg (hd_Number h) -> nonneg (hd_BaseFee h) ->
  (e ← EncodeRLP h; Ret (match e with Some b => inl b | None => inr ErrNegativeBigInt end)) = encodeVal headerInfo h.
Proof.
  intros Hd Hn Hb. unfold encodeVal. cbn [headerInfo ti_writer]. unfold Header_EncodeRLP, EncodeRLP.
  rewrite !writeBigIntPtr_eq by done. cbn [buf_list emptyBuf]. cbv zeta. rewrite (writeBigOpt_eq _ (hd_Difficulty h)), (writeBigOpt_eq _ (hd_Number h)) by done.
  rewrite (writeBigOpt_eq _ (hd_BaseFee h)) by done. clear Hb. unfold inList. cbn [buf_list].
  destruct (hd_BaseFee h), (hd_WithdrawalsHash h), (hd_BlobGasUsed h), (hd_ExcessBlobGas h), (hd_ParentBeaconRoot h), (hd_RequestsHash h); cbn [present orb];
    match goal with |- context [listEnd ?W ?t] => match goal with |- context [w_seq ?l ?b] => change (w_seq l b) with (@Ret (encBuffer + rlperror) (inl W)) end;
      cbn [mbind outcome_bind]; by destruct (listEnd W t) end.
Qed.
End headers.
