(* ===== verification/BlockTheorems.v ===== *)
(** * Blocks: the hash of a header binds it and its body, and assembled blocks are valid *)

From S2P Require Import Prelude Bytes Uint256 Params Machine Rlp RlpTheorems RlpStream RlpTypes RlpCodec RlpCanon VM Frames State ChainConfig Headers HeaderRules StateTransition TrieKeys TrieNode Trie TrieSpec TrieHash TrieOps TrieTheorems StackTrie DeriveSha Transactions TxSigning TxCodec TxCaches TxTheorems Receipts ReceiptTheorems Blocks BlockCodec.

Set Default Proof Using "Type*".

Section headers.
Context `{U : Uint256} {US : Uint256Spec U} `{C : Crypto}.

#[local] Hint Resolve hash_exact' addr_exact uint64_exact : rlp.

Lemma codec_inj {A} (i : typeinfo A) ok it v1 v2 : Codec i ok it -> ok v1 -> ok v2 -> len (encode (it v1)) < 2 ^ 63 ->
  encode (it v1) = encode (it v2) -> v1 = v2.
Proof.
  intros Hi H1 H2 Hl E. pose proof (decodeVal_ok i ok it v1 Hi H1 Hl) as D1. rewrite E in Hl, D1.
  rewrite (decodeVal_ok i ok it v2 Hi H2 Hl) in D1. congruence.
Qed.

Lemma header_nonneg h : header_ok h -> nonneg (hd_Difficulty h) /\ nonneg (hd_Number h) /\ nonneg (hd_BaseFee h).
Proof. intros [_ _ _ [(d & -> & ?) (n & -> & ?)] _ _ (? & _) _]. done. Qed.

Lemma Header_Hash_ok h : header_ok h -> len (encode (iHeader h)) < 2 ^ 63 -> Header_Hash h = Ret (Keccak256 (encode (iHeader h))).
Proof.
  intros Hh Hl. destruct (header_nonneg h Hh) as (H1 & H2 & H3). pose proof (EncodeRLP_eq h H1 H2 H3) as E.
  rewrite (encodeVal_ok _ _ _ _ (ex_codec _ _ _ header_exact) Hh (len_u64 _ Hl)) in E. unfold Header_Hash.
  destruct (EncodeRLP h) as [[b|]|]; cbn [mbind outcome_bind] in *; [|discriminate E..].
  assert (b = encode (iHeader h)) as -> by congruence. reflexivity.
Qed.

Lemma keccak_inj (X : bytes -> Prop) x y : X x -> X y -> Keccak256 x = Keccak256 y -> x = y \/ hash_collision X.
Proof. intros Hx Hy E. apply hashData_inj; [done|done|]. unfold hashData. by rewrite E. Qed.

Lemma CopyHeader_ok h : header_ok h -> CopyHeader h = h.
Proof. intros [_ _ _ [(d & Ed & _) (n & En & _)] _ _ _ _]. destruct h. cbn in *. subst. done. Qed.

Definition iHeaders (l : list Header) : item := Lst (iHeader <$> l).

Lemma CalcUncleHash_ok l : Forall header_ok l -> len (encode (iHeaders l)) < 2 ^ 63 -> CalcUncleHash l = Ret (Keccak256 (encode (iHeaders l))).
Proof.
  intros Hl Hlen. unfold CalcUncleHash. destruct (Z.eqb_spec (len l) 0) as [E|_].
  - destruct l as [|h l]; [done|]. rewrite len_cons in E. pose proof (len_nonneg l). lia.
  - unfold rlpHash, headersInfo. rewrite (encodeVal_ok _ _ _ _ (slice_codec _ _ _ (ex_codec _ _ _ header_exact)) Hl (len_u64 _ Hlen)). done.
Qed.

(** ** Withdrawals *)

Definition wd_ok (w : Withdrawal) : Prop := is_u64 (wd_Index w) /\ is_u64 (wd_Validator w) /\ addr_ok (wd_Address w) /\ is_u64 (wd_Amount w).
Definition iWithdrawal (w : Withdrawal) : item := Lst [iUint (wd_Index w); iUint (wd_Validator w); iAddr (wd_Address w); iUint (wd_Amount w)].

Lemma withdrawal_exact : Exact withdrawalInfo wd_ok iWithdrawal.
Proof.
  apply exact_writer.
  - eapply view_exact; [apply struct_exact; repeat (apply fe_req; [solve [eauto with rlp]|]); apply fe_nil|..].
    + intros [] (H1 & H2 & H3 & H4). done.
    + intros (a & b & c & d & []) (H1 & H2 & H3 & H4 & _). cbn in *. done.
  - intros w (H1 & H2 & H3 & H4). apply writes_list, writes_seq. do 2 (apply we_cons; [by apply writeUint_writes|]).
    apply we_cons; [apply writeByteSlice_writes|]. apply we_cons; [by apply writeUint_writes|apply we_nil].
Qed.

Lemma wd_EncodeIndex_ok w : wd_ok w -> len (encode (iWithdrawal w)) < 2 ^ 63 -> wd_EncodeIndex w = Ret (encode (iWithdrawal w)).
Proof. intros Hw Hl. unfold wd_EncodeIndex. by rewrite (encodeVal_ok _ _ _ _ (ex_codec _ _ _ withdrawal_exact) Hw (len_u64 _ Hl)). Qed.

(** ** Roots *)

Lemma root_of_fun M h h' : root_of M h -> root_of M h' -> h = h'.
Proof. intros (T & Hc & Hs & ->) (T' & Hc' & Hs' & ->). by rewrite (stores_unique maxLen maxLen T T' M). Qed.
Lemma root_of_inj M M' h : empty_root_known -> root_of M h -> root_of M' h -> M = M' \/ hash_collision (fun x => trie_data M x \/ trie_data M' x).
Proof. intros He (T & Hc & Hs & ->) (T' & Hc' & Hs' & E). exact (trie_data_binds T T' M M' He Hc Hc' Hs Hs' E). Qed.

(** The elements are encoded by [f]. *)
Definition encodes {A} (enc : A -> Outcome bytes) (f : A -> bytes) (a : A) : Prop := enc a = Ret (f a) /\ val_ok (f a).

Lemma encodeList_ok {A} (enc : A -> Outcome bytes) f l : Forall (encodes enc f) l -> encodeList enc l = Ret (f <$> l).
Proof. intros H. induction H as [|a l [E _] _ IH]; [done|]. cbn [encodeList fmap list_fmap]. rewrite E. cbn. by rewrite IH. Qed.

Lemma encodes_val {A} (enc : A -> Outcome bytes) f l : Forall (encodes enc f) l -> Forall val_ok (f <$> l).
Proof. intros H. apply Forall_fmap. eapply Forall_impl; [exact H|]. by intros a [_ ?]. Qed.

Lemma deriveList_ok {A S} `{!TrieHasher S, !TrieHasherSpec S} (enc : A -> Outcome bytes) f l (s : S) : Forall (encodes enc f) l -> len l < two64 ->
  exists h s', deriveList enc l s = Ret (h, s') /\ root_of (index_map (f <$> l)) h.
Proof.
  intros Hf Hl. unfold deriveList, mbind, st_bind, st_lift. rewrite (encodeList_ok enc f l Hf).
  apply DeriveSha_root; [unfold len in *; by rewrite length_fmap|by apply (encodes_val enc)].
Qed.

Lemma listRoot_ok {A} (enc : A -> Outcome bytes) f l : Forall (encodes enc f) l -> len l < two64 ->
  exists h, listRoot enc l = Ret h /\ root_of (index_map (f <$> l)) h.
Proof.
  intros Hf Hl. destruct (deriveList_ok (S := StackTrie) enc f l NewStackTrie Hf Hl) as (h & s' & E & H). exists h. split; [|done].
  unfold listRoot. by rewrite E.
Qed.

(** Lists with the same root are equal, if their elements have different encodings. *)
Lemma listRoot_binds {A} (enc : A -> Outcome bytes) f l l' h : empty_root_known -> Forall (encodes enc f) l -> Forall (encodes enc f) l' ->
  len l < two64 -> len l' < two64 -> (forall a a', a ∈ l -> a' ∈ l' -> f a = f a' -> a = a') ->
  listRoot enc l = Ret h -> listRoot enc l' = Ret h -> l = l' \/ hash_collision (fun x => trie_data (index_map (f <$> l)) x \/ trie_data (index_map (f <$> l')) x).
Proof.
  intros He H1 H2 L1 L2 Hinj E1 E2. destruct (listRoot_ok enc f l H1 L1) as (h1 & E1' & R1), (listRoot_ok enc f l' H2 L2) as (h2 & E2' & R2).
  assert (h1 = h) as -> by congruence. assert (h2 = h) as -> by congruence. destruct (root_of_inj _ _ h He R1 R2) as [Em|?]; [left|by right].
  apply index_map_inj in Em; [|unfold len in *; by rewrite length_fmap..]. clear -Em Hinj. revert l' Em Hinj.
  induction l as [|a l IH]; intros [|a' l'] E Hinj; try discriminate E; [done|]. injection E as E1 E2. f_equal.
  - apply Hinj; [by left|by left|done].
  - apply IH; [done|]. intros x y Hx Hy. apply Hinj; by right.
Qed.
End headers.

(** ** Bodies *)

Section bodies.
Context `{U : Uint256} {US : Uint256Spec U} `{C : Crypto}.

Definition tx_fine (tx : Transaction) : Prop := data_ok (inner tx) /\ len (binary (inner tx)) < maxLen.
Definition wd_fine (w : Withdrawal) : Prop := wd_ok w /\ len (encode (iWithdrawal w)) < maxLen.

(** The sizes that occur, and well-formed data *)
Record block_ok (b : Block) : Prop := {
  bo_header : header_ok (blk_header b) /\ len (encode (iHeader (blk_header b))) < 2 ^ 63;
  bo_uncles : Forall header_ok (blk_uncles b) /\ len (encode (iHeaders (blk_uncles b))) < 2 ^ 63;
  bo_txs : Forall tx_fine (blk_transactions b) /\ len (blk_transactions b) < two64;
  bo_withdrawals : forall ws, blk_withdrawals b = Some ws -> Forall wd_fine ws /\ len ws < two64;
}.

Lemma maxLen_small n : n < maxLen -> n < 2 ^ 63.
Proof. unfold maxLen. lia. Qed.

Lemma iData_ok t : data_ok t -> item_ok (iData t).
Proof.
  intros Ht. destruct t as [tx|tx|tx|tx|tx]; cbn [iData data_ok] in *.
  - by apply (c_item _ _ _ (ex_codec _ _ _ legacy_exact)).
  - by apply (c_item _ _ _ (ex_codec _ _ _ accessListTx_exact)).
  - by apply (c_item _ _ _ (ex_codec _ _ _ dynamicFeeTx_exact)).
  - destruct Ht as [Ht Hsc]. destruct (b_Sidecar tx) as [sc|] eqn:E.
    + apply (c_item _ _ _ (ex_codec _ _ _ withBlobs_exact) (Some (withoutSidecar tx), (sc_Blobs sc, (sc_Commitments sc, (sc_Proofs sc, tt))))). by split.
    + by apply (c_item _ _ _ (ex_codec _ _ _ blobTx_exact)).
  - by apply (c_item _ _ _ (ex_codec _ _ _ setCodeTx_exact)).
Qed.

Lemma binary_val t : data_ok t -> len (binary t) < maxLen -> val_ok (binary t).
Proof.
  intros Ht Hl. assert (Hn : binary t <> []) by (pose proof (encode_nonempty (iData t)); unfold binary; destruct t; [intros E; rewrite E in *; done|done..]).
  split_and!; [done| |done]. apply maxLen_small in Hl.
  assert (Hi : is_u64 (len (encode (iData t)))) by (apply len_u64; unfold binary in Hl; destruct t; rewrite ?len_cons in Hl; lia).
  pose proof (encode_ok (iData t) (iData_ok t Ht) Hi) as Hb. unfold binary. destruct t; [done|apply Forall_cons; by split..].
Qed.

Lemma tx_encodes tx : tx_fine tx -> encodes txEncodeIndex (fun tx => binary (inner tx)) tx.
Proof.
  intros [Ht Hl]. split; [|by apply binary_val]. unfold txEncodeIndex, EncodeIndex.
  rewrite MarshalBinary_ok; [done|done|]. apply maxLen_small in Hl. apply len_u64. unfold binary in Hl. destruct (inner tx); rewrite ?len_cons in Hl; lia.
Qed.

Lemma wd_encodes w : wd_fine w -> encodes wd_EncodeIndex (fun w => encode (iWithdrawal w)) w.
Proof.
  intros [Hw Hl]. pose proof (maxLen_small _ Hl) as Hl'. split; [by apply wd_EncodeIndex_ok|]. split_and!; [|apply encode_ok|done].
  - pose proof (encode_nonempty (iWithdrawal w)). intros E. rewrite E in *. done.
  - by apply (c_item _ _ _ (ex_codec _ _ _ withdrawal_exact)).
  - by apply len_u64.
Qed.

Lemma binary_inj t t' : data_ok t -> data_ok t' -> len (binary t) < maxLen -> binary t = binary t' -> t = t'.
Proof.
  intros H1 H2 Hl E. apply maxLen_small in Hl. pose proof (UnmarshalBinary_ok t H1 Hl) as D1. rewrite E in Hl, D1.
  rewrite (UnmarshalBinary_ok t' H2 Hl) in D1. congruence.
Qed.

Context (HasBlockAndState HasBlock : Hash -> Z -> bool) (VerifyUncles : Block -> bool).

(** What [ValidateBody] has checked of a block that it accepts *)
Lemma ValidateBody_inv b : ValidateBody HasBlockAndState HasBlock VerifyUncles b = Ret None -> block_ok b ->
  CalcUncleHash (blk_uncles b) = Ret (hd_UncleHash (blk_header b)) /\
  listRoot txEncodeIndex (blk_transactions b) = Ret (hd_TxHash (blk_header b)) /\
  checkWithdrawals (blk_header b) b = Ret None /\ checkBlobCount (blk_header b) b = None.
Proof.
  intros H [[Hh _] _ _ _]. unfold ValidateBody, block_Header in H. rewrite (CopyHeader_ok _ Hh) in H.
  destruct (block_Hash b) as [h0|]; [|discriminate H]. cbn [mbind outcome_bind] in H. destruct (NumberU64 b) as [n|]; [|discriminate H]. cbn [mbind outcome_bind] in H.
  destruct (HasBlockAndState h0 n); [discriminate H|]. destruct (VerifyUncles b); [|discriminate H]. cbn [negb] in H.
  destruct (CalcUncleHash _) as [h1|]; [|discriminate H]. cbn [mbind outcome_bind] in H. destruct (Z.eqb_spec h1 (hd_UncleHash (blk_header b))) as [E1|]; [|discriminate H]. cbn [negb] in H.
  destruct (listRoot _ _) as [h2|]; [|discriminate H]. cbn [mbind outcome_bind] in H. destruct (Z.eqb_spec h2 (hd_TxHash (blk_header b))) as [E2|]; [|discriminate H]. cbn [negb] in H.
  destruct (checkWithdrawals _ _) as [[e|]|]; [discriminate H| |discriminate H]. cbn [mbind outcome_bind] in H.
  destruct (checkBlobCount _ _); [discriminate H|]. by rewrite E1, E2.
Qed.
End bodies.

(** ** Properties *)

Section properties.
Context `{U : Uint256} {US : Uint256Spec U} `{C : Crypto}.

Lemma encodeList_inner l : encodeList txEncodeIndex l = encodeList EncodeIndex (inner <$> l).
Proof. induction l as [|tx l IH]; [done|]. cbn [encodeList fmap list_fmap]. by rewrite IH. Qed.
Lemma listRoot_inner l : listRoot txEncodeIndex l = listRoot EncodeIndex (inner <$> l).
Proof. unfold listRoot, deriveList. by rewrite encodeList_inner. Qed.

Lemma txRoot_binds l l' h : empty_root_known -> Forall tx_fine l -> Forall tx_fine l' -> len l < two64 -> len l' < two64 ->
  listRoot txEncodeIndex l = Ret h -> listRoot txEncodeIndex l' = Ret h -> inner <$> l = inner <$> l' \/
  hash_collision (fun x => trie_data (index_map (binary <$> (inner <$> l))) x \/ trie_data (index_map (binary <$> (inner <$> l'))) x).
Proof.
  intros He H1 H2 L1 L2 E1 E2. rewrite listRoot_inner in E1, E2.
  assert (Henc : forall l, Forall tx_fine l -> Forall (encodes EncodeIndex binary) (inner <$> l)).
  { intros l0 H0. apply Forall_fmap. eapply Forall_impl; [exact H0|]. intros tx Htx. exact (tx_encodes tx Htx). }
  apply (listRoot_binds EncodeIndex binary _ _ h); [done|by apply Henc|by apply Henc|unfold len in *; by rewrite length_fmap..| |done|done].
  intros t t' (tx & -> & Hi)%list_elem_of_fmap (tx' & -> & Hi')%list_elem_of_fmap. rewrite Forall_forall in H1, H2.
  destruct (H1 tx Hi), (H2 tx' Hi'). by apply binary_inj.
Qed.

(** The data that is hashed for a block: its header, its uncles, and the nodes of the tries of its transactions and
    withdrawals *)
Definition block_data (b : Block) (x : bytes) : Prop :=
  x = encode (iHeader (blk_header b)) \/ x = encode (iHeaders (blk_uncles b)) \/
  trie_data (index_map (binary <$> (inner <$> blk_transactions b))) x \/
  exists ws, blk_withdrawals b = Some ws /\ trie_data (index_map ((fun w => encode (iWithdrawal w)) <$> ws)) x.
Definition blocks_data (b b' : Block) (x : bytes) : Prop := block_data b x \/ block_data b' x.

Lemma wdRoot_binds b b' : empty_root_known -> block_ok b -> block_ok b' -> blk_header b = blk_header b' ->
  checkWithdrawals (blk_header b) b = Ret None -> checkWithdrawals (blk_header b') b' = Ret None -> blk_withdrawals b = blk_withdrawals b' \/ hash_collision (blocks_data b b').
Proof.
  intros He [_ _ _ H1] [_ _ _ H2] Eh C1 C2. rewrite <- Eh in C2. unfold checkWithdrawals in *.
  destruct (hd_WithdrawalsHash (blk_header b)) as [want|], (blk_withdrawals b) as [ws|] eqn:Ews, (blk_withdrawals b') as [ws'|] eqn:Ews'; try discriminate; [|by left].
  destruct (H1 ws eq_refl) as [F1 L1], (H2 ws' eq_refl) as [F2 L2].
  destruct (listRoot wd_EncodeIndex ws) as [h|] eqn:E; [|discriminate C1]. cbn [mbind outcome_bind] in C1. destruct (Z.eqb_spec h want) as [->|]; [|discriminate C1].
  destruct (listRoot wd_EncodeIndex ws') as [h'|] eqn:E'; [|discriminate C2]. cbn [mbind outcome_bind] in C2. destruct (Z.eqb_spec h' want) as [->|]; [|discriminate C2].
  destruct (listRoot_binds wd_EncodeIndex (fun w => encode (iWithdrawal w)) ws ws' want) as [->|Hcol]; try done; [| | |by left|right].
  - eapply Forall_impl; [exact F1|]. apply wd_encodes.
  - eapply Forall_impl; [exact F2|]. apply wd_encodes.
  - rewrite Forall_forall in F1, F2. intros w w' Hw Hw'. destruct (F1 w Hw) as [? Hl], (F2 w' Hw'). apply (codec_inj _ _ _ _ _ (ex_codec _ _ _ withdrawal_exact)); try done.
    by apply maxLen_small.
  - eapply hash_collision_mono; [|exact Hcol]. intros x [Hx|Hx]; [left|right]; right; right; right; [by exists ws|by exists ws'].
Qed.

(** C13 The hash of a block determines the whole block: of two blocks with the same hash that [ValidateBody]
    accepts (on any two chains), the headers, the transactions, the uncles and the withdrawals are the same,
    unless two different byte strings among the data hashed for these two blocks (headers, uncles, and the encoded
    nodes of the tries of transactions and withdrawals) have the same hash. *)
Theorem block_hash_binds (HasState HasState' HasBlock HasBlock' : Hash -> Z -> bool) (VerifyUncles VerifyUncles' : Block -> bool) (b b' : Block) :
  empty_root_known -> block_ok b -> block_ok b' ->
  ValidateBody HasState HasBlock VerifyUncles b = Ret None -> ValidateBody HasState' HasBlock' VerifyUncles' b' = Ret None ->
  block_Hash b = block_Hash b' ->
  (blk_header b = blk_header b' /\ inner <$> blk_transactions b = inner <$> blk_transactions b' /\
   blk_uncles b = blk_uncles b' /\ blk_withdrawals b = blk_withdrawals b') \/ hash_collision (blocks_data b b').
Proof.
  intros He Hb Hb' V V' E. destruct (ValidateBody_inv _ _ _ b V Hb) as (U1 & T1 & W1 & _), (ValidateBody_inv _ _ _ b' V' Hb') as (U2 & T2 & W2 & _).
  pose proof Hb as [[Hh Hl] [Hu Hul] [Ht Htl] _]. pose proof Hb' as [[Hh' Hl'] [Hu' Hul'] [Ht' Htl'] _].
  unfold block_Hash in E. rewrite (Header_Hash_ok _ Hh Hl), (Header_Hash_ok _ Hh' Hl') in E.
  destruct (keccak_inj (blocks_data b b') (encode (iHeader (blk_header b))) (encode (iHeader (blk_header b')))) as [Eh|?]; [by left; left|by right; left|congruence| |by right].
  apply (codec_inj _ _ _ _ _ (ex_codec _ _ _ header_exact) Hh Hh' Hl) in Eh.
  rewrite <- Eh in U2, T2. destruct (txRoot_binds _ _ _ He Ht Ht' Htl Htl' T1 T2) as [Et|Hcol].
  2: { right. eapply hash_collision_mono; [|exact Hcol]. intros x [Hx|Hx]; [left|right]; right; right; by left. }
  destruct (wdRoot_binds b b' He Hb Hb' Eh W1 W2) as [Ew|?]; [|by right].
  rewrite (CalcUncleHash_ok _ Hu Hul) in U1. rewrite (CalcUncleHash_ok _ Hu' Hul') in U2.
  destruct (keccak_inj (blocks_data b b') (encode (iHeaders (blk_uncles b))) (encode (iHeaders (blk_uncles b')))) as [Eu|?]; [by left; right; left|by right; right; left|congruence| |by right].
  left. split_and!; [done|done| |done].
  by apply (codec_inj _ _ _ _ _ (slice_codec _ _ _ (ex_codec _ _ _ header_exact)) Hu Hu' Hul).
Qed.

(** ** Assembly *)

Lemma root_of_empty h : root_of ∅ h -> h = EmptyRootHash.
Proof. intros (T & Hc & Hs & ->). rewrite (stores_unique maxLen maxLen T TNil ∅); [done|done|constructor|done|]. split; [intros key v Hv; by rewrite lookup_empty in Hv|].
  intros q v. split; [done|]. intros (key & _ & Hv). by rewrite lookup_empty in Hv.
Qed.

(** A root of [NewBlock], which knows the root of the empty list, and the root of the validator *)
Lemma assembled_root {A S} `{!TrieHasher S, !TrieHasherSpec S} (enc : A -> Outcome bytes) f l (s : S) : Forall (encodes enc f) l -> len l < two64 ->
  exists h s', (if len l =? 0 then mret EmptyRootHash else deriveList enc l) s = Ret (h, s') /\ listRoot enc l = Ret h.
Proof.
  intros Hf Hl. destruct (listRoot_ok enc f l Hf Hl) as (h & E & R). destruct (Z.eqb_spec (len l) 0) as [E0|_].
  - exists EmptyRootHash, s. split; [done|]. destruct l as [|a l]; [|rewrite len_cons in E0; pose proof (len_nonneg l); lia].
    by rewrite <- (root_of_empty h R).
  - destruct (deriveList_ok enc f l s Hf Hl) as (h' & s' & E' & R'). exists h', s'. split; [done|]. by rewrite (root_of_fun _ _ _ R' R).
Qed.

Definition rc_fine (r : Receipt) : Prop := receipt_ok r /\ len (rc_binary r) < maxLen.

Lemma rc_encodes r : rc_fine r -> encodes rc_EncodeIndex rc_binary r.
Proof.
  intros [Hr Hl]. pose proof (maxLen_small _ Hl) as Hl'. destruct (rc_Marshal_ok r Hr Hl') as [_ E]. destruct (encode_receipt r Hr Hl') as [_ Hle].
  pose proof (strip_ok r Hr) as Hs. split; [done|].
  assert (Hb : Forall is_byte (encode (iReceipt (consensusData r)))).
  { rewrite <- iReceipt_strip. apply encode_ok; [by apply (c_item _ _ _ (ex_codec _ _ _ receipt_exact))|]. rewrite iReceipt_strip. by apply len_u64. }
  pose proof (encode_nonempty (iReceipt (consensusData r))) as Hn. unfold rc_binary in *. split_and!; [| |done].
  - case_if; [|done]. cbn [app]. intros E0. rewrite E0 in Hn. done.
  - case_if; [done|]. apply Forall_cons. split; [|done]. destruct Hr as (Ht & _). by destruct Ht as [-> |[-> |[-> |[-> | ->]]]].
Qed.

(** The blobs of transactions without sidecars *)
Definition blobsOf (txs : list Transaction) : Z := foldr (fun tx n => len (default [] (tx_BlobHashes (inner tx))) + n) 0 txs.

Lemma countBlobs_ok txs i n : Forall (fun tx => tx_BlobTxSidecar (inner tx) = None) txs -> countBlobs i n txs = inl (n + blobsOf txs).
Proof.
  intros H. revert i n. induction H as [|tx txs Htx _ IH]; intros i n; cbn [countBlobs blobsOf foldr]; [f_equal; lia|]. rewrite Htx, IH.
  f_equal. unfold blobsOf. lia.
Qed.

(** The body is well-formed, has no sidecars, and as many blobs as the header says. *)
Record assembly_ok (header : Header) (body : Body) (receipts : list Receipt) : Prop := {
  as_uncles : Forall header_ok (body_Uncles body) /\ len (encode (iHeaders (body_Uncles body))) < 2 ^ 63;
  as_txs : Forall tx_fine (body_Transactions body) /\ len (body_Transactions body) < two64;
  as_sidecars : Forall (fun tx => tx_BlobTxSidecar (inner tx) = None) (body_Transactions body);
  as_withdrawals : forall ws, body_Withdrawals body = Some ws -> Forall wd_fine ws /\ len ws < two64;
  as_blobs : match hd_BlobGasUsed header with
             | Some used => wrap64 (blobsOf (body_Transactions body)) = used / BlobTxBlobGasPerBlob
             | None => blobsOf (body_Transactions body) = 0
             end;
  as_receipts : Forall rc_fine receipts /\ len receipts < two64 /\ Forall bloomed receipts;
  as_bloom : receipts = [] -> hd_Bloom header = Bloom0;
}.

(** The withdrawals of an assembled block *)
Lemma assembled_withdrawals {S} `{!TrieHasher S, !TrieHasherSpec S} header body receipts (s : S) : assembly_ok header body receipts ->
  exists w s', match body_Withdrawals body with
    | None => mret None
    | Some withdrawals => if len withdrawals =? 0 then mret (Some EmptyWithdrawalsHash) else h ← deriveList wd_EncodeIndex withdrawals; mret (Some h)
    end s = Ret (w, s') /\
  forall h txs us, hd_WithdrawalsHash h = w -> checkWithdrawals h (mkBlock h txs us (body_Withdrawals body)) = Ret None.
Proof.
  intros [_ _ _ H _ _ _]. destruct (body_Withdrawals body) as [ws|].
  - destruct (H ws eq_refl) as [Hw Hl]. destruct (assembled_root wd_EncodeIndex (fun w => encode (iWithdrawal w)) ws s) as (r & s' & E & R); [|done|].
    { eapply Forall_impl; [exact Hw|]. apply wd_encodes. }
    exists (Some r), s'. split.
    + destruct (len ws =? 0); [by injection E as <- <-|]. unfold mbind, st_bind. by rewrite E.
    + intros h txs us Eh. unfold checkWithdrawals. rewrite Eh. cbn [blk_withdrawals]. rewrite R. cbn [mbind outcome_bind]. by rewrite Z.eqb_refl.
  - exists None, s. split; [done|]. intros h txs us Eh. unfold checkWithdrawals. by rewrite Eh.
Qed.

(** The bloom filter and the root of the receipts *)
Lemma assembled_receipts {S} `{!TrieHasher S, !TrieHasherSpec S} header body receipts (s : S) : assembly_ok header body receipts ->
  exists r bl s', (if len receipts =? 0 then mret (EmptyReceiptsHash, hd_Bloom (CopyHeader header))
      else h ← deriveList rc_EncodeIndex receipts; bl ← st_lift (MergeBloom receipts); mret (h, bl)) s = Ret ((r, bl), s') /\
    listRoot rc_EncodeIndex receipts = Ret r /\ MergeBloom receipts = Ret bl.
Proof.
  intros [_ _ _ _ _ (Hr & Hl & Hb) H0]. destruct (assembled_root rc_EncodeIndex rc_binary receipts s) as (r & s' & E & R); [|done|].
  { eapply Forall_impl; [exact Hr|]. apply rc_encodes. }
  destruct (MergeBloom_ok receipts Hb) as (bl & Ebl & _). exists r, bl, s'. split_and!; [|done|done]. destruct (Z.eqb_spec (len receipts) 0) as [E0|_].
  - injection E as <- <-. destruct receipts as [|x l]; [|rewrite len_cons in E0; pose proof (len_nonneg l); lia].
    assert (bl = Bloom0) as -> by (cbn in Ebl; congruence). cbn [CopyHeader hd_Bloom]. by rewrite H0.
  - unfold mbind, st_bind, st_lift. by rewrite E, Ebl.
Qed.

End properties.

(** The gas limit that a miner computes for the next block is always accepted by the rule for gas limits, and it
    is the target or closer to it than the parent's by the greatest step that the rule allows. *)
Theorem CalcGasLimit_valid (parent desired : Z) : MinGasLimit <= parent < 2 ^ 63 - 2 ^ 53 -> is_u64 desired ->
  let target := Z.max desired MinGasLimit in
  let limit := CalcGasLimit parent desired in
  VerifyGaslimit parent limit = None /\
  (limit = target \/ (parent < target /\ limit = parent + (parent / GasLimitBoundDivisor - 1)) \/
   (target < parent /\ limit = parent - (parent / GasLimitBoundDivisor - 1))).
Proof.
  intros Hp Hd target limit. set (delta := parent / GasLimitBoundDivisor - 1).
  assert (Hq : 4 <= parent / GasLimitBoundDivisor <= parent / 1024).
  { split; [|done]. change GasLimitBoundDivisor with 1024. change MinGasLimit with 5000 in Hp. apply Z.div_le_lower_bound; lia. }
  assert (Hdiv : parent / 1024 * 1024 <= parent) by (pose proof (Z.mul_div_le parent 1024); lia).
  assert (Hcases : (limit = target \/ (parent < target /\ limit = parent + delta) \/ (target < parent /\ limit = parent - delta)) /\
    parent - delta <= limit <= parent + delta /\ MinGasLimit <= limit).
  { unfold limit, CalcGasLimit. change GasLimitBoundDivisor with 1024 in *. rewrite (wrap64_small (parent / 1024 - 1)) by (unfold_u64; lia). cbv zeta. fold delta.
    rewrite (wrap64_small (parent + delta)), (wrap64_small (parent - delta)) by (unfold_u64; unfold delta; lia). unfold target.
    replace (if desired <? MinGasLimit then MinGasLimit else desired) with (desired `max` MinGasLimit) by (destruct (Z.ltb_spec desired MinGasLimit); lia).
    assert (Hdl : 0 <= delta) by (unfold delta; lia). clearbody delta. repeat case_if; bool_to_Z; split_and!; lia. }
  destruct Hcases as (Hc & Hb & Hm). split; [|done]. unfold VerifyGaslimit. fold limit.
  assert (H64 : forall z, - 2 ^ 63 <= z < 2 ^ 63 -> int64 z = z).
  { intros z Hz. unfold int64, wrap64, two64. case_if; bool_to_Z.
    - destruct (decide (0 <= z)); [by apply Z.mod_small; lia|]. rewrite <- (Z.mod_add z 1) in * by lia. rewrite Z.mod_small in * by lia. lia.
    - destruct (decide (0 <= z)); [rewrite Z.mod_small in * by lia; lia|]. rewrite <- (Z.mod_add z 1) by lia. rewrite Z.mod_small by lia. lia. }
  change GasLimitBoundDivisor with 1024 in *. unfold delta in *.
  rewrite (H64 parent), (H64 limit), (H64 (parent - limit)) by lia.
  assert (Hdiff : (if parent - limit <? 0 then int64 ((parent - limit) * -1) else parent - limit) = Z.abs (parent - limit)).
  { case_if; bool_to_Z; [rewrite H64 by lia|]; lia. }
  rewrite Hdiff, wrap64_small by (unfold_u64; lia). destruct (Z.leb_spec (parent / 1024) (Z.abs (parent - limit))); [lia|].
  by destruct (Z.ltb_spec limit MinGasLimit); [lia|].
Qed.

(** ** Witnesses *)

(** A block with two transactions and a withdrawal *)
Definition demo_header : Header :=
  mkHeader 11 0 3 77 0 0 Bloom0 (Some 2) (Some 7) 30000000 42000 1000 [1; 2] 0 0 (Some 9) None None None None None.
Definition demo_body : Body := mkBody [NewTx demo_legacy; NewTx demo_access] [] (Some [mkWithdrawal 1 2 5 7]).
Definition demo_block_receipts : list Receipt :=
  [set_status [] 1 (set_consensus 0 21000 Bloom0 [] zeroReceipt); set_status [] 0 (set_consensus 1 42000 Bloom0 [] zeroReceipt)].
Definition demo_block : Block :=
  match @NewBlock _ toy_crypto StackTrie (@stacktrie_hasher toy_crypto) demo_header (Some demo_body) demo_block_receipts NewStackTrie with
  | Ret (b, _) => b
  | Fail _ => mkBlock demo_header [] [] None
  end.
Definition demo_HasState (h : Hash) (n : Z) : bool := h =? 11.

Lemma demo_tx_fine : Forall tx_fine (body_Transactions demo_body).
Proof. apply Forall_cons. split; [split; [apply demo_legacy_ok|by vm_compute]|]. apply Forall_singleton. split; [apply demo_access_ok|by vm_compute]. Qed.
Lemma demo_wd_fine ws : body_Withdrawals demo_body = Some ws -> Forall wd_fine ws /\ len ws < two64.
Proof. intros [= <-]. split; [|done]. apply Forall_singleton. split; [by split_and!|by vm_compute]. Qed.

Lemma demo_assembly : @assembly_ok _ toy_crypto demo_header demo_body demo_block_receipts.
Proof.
  split; [split; [constructor|done]|split; [apply demo_tx_fine|done]|by repeat (apply Forall_cons; split)|apply demo_wd_fine|done| |done].
  split_and!; [|done|apply Forall_cons; split; [done|]; by apply Forall_singleton].
  apply Forall_cons. split; [|apply Forall_singleton]; (split; [|by vm_compute]).
  - split_and!; [by left|done|apply Bloom0_ok|constructor|left; split; [done|by right]].
  - split_and!; [by right; left|done|apply Bloom0_ok|constructor|left; split; [done|by left]].
Qed.


Lemma CalcGasLimit_valid_witness : VerifyGaslimit 30000000 (CalcGasLimit 30000000 60000000) = None.
Proof. refine (proj1 (CalcGasLimit_valid 30000000 60000000 _ _)); [unfold MinGasLimit; lia|unfold_u64; lia]. Defined.

Lemma demo_new_block : exists s', @NewBlock _ toy_crypto StackTrie (@stacktrie_hasher toy_crypto) demo_header (Some demo_body) demo_block_receipts NewStackTrie = Ret (demo_block, s').
Proof.
  unfold demo_block. assert (H : (match @NewBlock _ toy_crypto StackTrie (@stacktrie_hasher toy_crypto) demo_header (Some demo_body) demo_block_receipts NewStackTrie with Ret _ => true | Fail _ => false end) = true)
    by (vm_compute; reflexivity).
  destruct (NewBlock _ _ _ _) as [[b s']|]; [by eexists|discriminate H].
Qed.

Lemma demo_block_ok : block_ok demo_block.
Proof.
  split.
  - split; [|vm_compute; reflexivity]. split.
    + split_and!; split; by vm_compute.
    + split; by vm_compute.
    + split; [|by vm_compute]. replace (hd_Bloom (blk_header demo_block)) with Bloom0 by (vm_compute; reflexivity). apply Bloom0_ok.
    + split; [exists 2|exists 7]; (split; [vm_compute; reflexivity|done]).
    + split_and!; split; by vm_compute.
    + replace (hd_Extra (blk_header demo_block)) with [1; 2] by (vm_compute; reflexivity). by repeat (apply Forall_cons; split).
    + split_and!; by vm_compute.
    + split_and!; by vm_compute.
  - split; [vm_compute; constructor|vm_compute; reflexivity].
  - split; [apply demo_tx_fine|vm_compute; reflexivity].
  - apply demo_wd_fine.
Qed.

Lemma block_hash_binds_witness : let b := demo_block in
  let b' := mkBlock (blk_header b) [NewTx demo_legacy; freshTx demo_access 36] [] (blk_withdrawals b) in
  (inner <$> blk_transactions b = inner <$> blk_transactions b') \/ @hash_collision toy_crypto (@blocks_data _ toy_crypto b b').
Proof.
  intros b b'. assert (Hb' : block_ok b').
  { destruct demo_block_ok as [H1 H2 _ H4]. split; [exact H1|split; [constructor|done]| |exact H4]. split; [|done].
    destruct (proj1 (Forall_cons _ _ _) demo_tx_fine) as [F1 F2]. apply Forall_cons. split; [exact F1|]. apply Forall_singleton.
    exact (proj1 (Forall_singleton _ _) F2). }
  destruct (@block_hash_binds _ _ toy_crypto demo_HasState demo_HasState (fun _ _ => true) (fun _ _ => true) (fun _ => true) (fun _ => true) b b') as [(_ & H & _)|H].
  - vm_compute. reflexivity.
  - exact demo_block_ok.
  - exact Hb'.
  - vm_compute. reflexivity.
  - vm_compute. reflexivity.
  - unfold b', block_Hash. cbn [blk_header]. reflexivity.
  - left. exact H.
  - right. exact H.
Defined.
