(* ===== verification/AncestorTheorems.v ===== *)
(** * Hashes of ancestors

    [GetHashFn] of [core/evm.go] answers the queries of BLOCKHASH from a cache that grows with every query.
    The reference is a walk along the parent hashes with no cache. *)

From S2P Require Import Prelude Bytes Machine VM Headers HeaderRules Processor.

Section ancestors.
Context (GetHeader : Hash -> Z -> option Header).

(** The hash [k] blocks above the block with the given hash and number *)
Fixpoint ancestor (k : nat) (hash : Hash) (number : Z) : option Hash :=
  match k with
  | O => Some hash
  | S k => header ← GetHeader hash number; ancestor k (hd_ParentHash header) (number - 1)
  end.

(** The hash of block [n] before the block [ref] with number [number]; zero if it is not before it, or if a
    header is missing *)
Definition blockHash (ref : Header) (number n : Z) : Hash :=
  if number <=? n then 0 else default 0 (ancestor (Z.to_nat (number - 1 - n)) (hd_ParentHash ref) (number - 1)).

(** Headers are stored under their hash and number. *)
Definition headers_ok : Prop := forall hash number header, GetHeader hash number = Some header -> hd_Number header = Some number.

(** Every entry of the cache is the hash of that ancestor. *)
Definition cache_of (ref : Header) (number : Z) (cache : list Hash) : Prop :=
  forall i h, cache !! i = Some h -> ancestor i (hd_ParentHash ref) (number - 1) = Some h.

Lemma ancestor_S k hash number : ancestor (S k) hash number = (h ← ancestor k hash number; header ← GetHeader h (number - Z.of_nat k); Some (hd_ParentHash header)).
Proof.
  revert hash number. induction k as [|k IH]; intros hash number.
  - cbn. by rewrite Z.sub_0_r.
  - change (ancestor (S (S k)) hash number) with (header ← GetHeader hash number; ancestor (S k) (hd_ParentHash header) (number - 1)).
    change (ancestor (S k) hash number) with (header ← GetHeader hash number; ancestor k (hd_ParentHash header) (number - 1)).
    destruct (GetHeader hash number) as [header|]; [|done]. cbn [mbind option_bind]. rewrite IH. by replace (number - 1 - Z.of_nat k) with (number - Z.of_nat (S k)) by lia.
Qed.

Lemma ancestor_stuck k m hash number : (k <= m)%nat -> ancestor k hash number = None -> ancestor m hash number = None.
Proof. induction 1 as [|m _ IH]; [done|]. intros H. by rewrite ancestor_S, (IH H). Qed.

Lemma cache_snoc ref number cache h : cache_of ref number cache -> ancestor (length cache) (hd_ParentHash ref) (number - 1) = Some h -> cache_of ref number (cache ++ [h]).
Proof.
  intros Hc Hh i x Hi. apply lookup_app_Some in Hi as [Hi|[Hl Hi]]; [by apply Hc|]. apply list_lookup_singleton_Some in Hi as [Ei <-].
  by replace i with (length cache) by lia.
Qed.

(** One turn appends the next ancestor. *)
Lemma getHashLoop_ok ref number n : headers_ok -> is_u64 number -> 0 <= n -> forall fuel cache last,
  cache_of ref number cache -> cache !! (length cache - 1)%nat = Some last -> (0 < length cache)%nat ->
  n < number - len cache -> number - len cache - n <= Z.of_nat fuel ->
  exists cache', getHashLoop GetHeader fuel n cache last (number - len cache) = Ret (blockHash ref number n, cache') /\ cache_of ref number cache'.
Proof.
  intros Hg Hu Hn fuel. induction fuel as [|fuel IH]; intros cache last Hc Hlast Hpos Hlt Hf; [lia|]. cbn [getHashLoop].
  pose proof (len_nonneg cache) as Hl. unfold len in *. pose proof (Hc _ _ Hlast) as Ha.
  pose proof (ancestor_S (length cache - 1) (hd_ParentHash ref) (number - 1)) as Es. rewrite Ha in Es. cbn [mbind option_bind] in Es.
  replace (S (length cache - 1)) with (length cache) in Es by lia. replace (number - 1 - Z.of_nat (length cache - 1)) with (number - Z.of_nat (length cache)) in Es by lia.
  assert (Eb : (number <=? n) = false) by lia. destruct (GetHeader last (number - Z.of_nat (length cache))) as [header|] eqn:E.
  2: { exists cache. split; [|done]. unfold blockHash. rewrite Eb. rewrite (ancestor_stuck (length cache)); [done|lia|exact Es]. }
  rewrite (Hg _ _ _ E). cbn [big mbind outcome_bind]. cbn [mbind option_bind] in Es.
  assert (Ew : wrap64 (number - Z.of_nat (length cache)) -! 1 = number - Z.of_nat (length (cache ++ [hd_ParentHash header]))).
  { rewrite length_app. cbn [length]. rewrite (wrap64_small (number - _)) by (unfold_u64; lia). rewrite wrap64_small by (unfold_u64; lia). lia. }
  rewrite Ew. pose proof (cache_snoc _ _ _ _ Hc Es) as Hc'. destruct (Z.eqb_spec n (number - Z.of_nat (length (cache ++ [hd_ParentHash header])))) as [->|Hne].
  - eexists. split; [|exact Hc']. unfold blockHash. rewrite Eb. rewrite length_app. cbn [length]. do 2 f_equal. 
    replace (Z.to_nat _) with (length cache) by lia. by rewrite Es.
  - apply IH; [done| |rewrite length_app; cbn; lia|rewrite length_app in *; cbn in *; lia|rewrite length_app; cbn; lia].
    rewrite length_app. cbn. replace (length cache + 1 - 1)%nat with (length cache) by lia. by rewrite lookup_app_r, Nat.sub_diag by lia.
Qed.

Lemma index_Some {A} (l : list A) i x : l !! i = Some x -> index l (Z.of_nat i) = Ret x.
Proof. intros H. unfold index. rewrite (proj2 (Z.leb_le _ _)) by lia. by rewrite Nat2Z.id, H. Qed.

Lemma GetHashFn_ok fuel ref number n cache : headers_ok -> hd_Number ref = Some number -> is_u64 number -> is_u64 n -> number - n <= Z.of_nat fuel ->
  cache_of ref number cache ->
  exists cache', GetHashFn GetHeader fuel ref n cache = Ret (blockHash ref number n, cache') /\ cache_of ref number cache'.
Proof.
  intros Hg Hr Hu Hn Hf Hc. unfold GetHashFn. rewrite Hr. cbn [big mbind outcome_bind]. rewrite (wrap64_small number) by done.
  destruct (Z.leb_spec number n) as [Hle|Hlt]; [exists cache; split; [|done]; unfold blockHash; by replace (number <=? n) with true by lia|].
  set (c := if len cache =? 0 then [hd_ParentHash ref] else cache).
  assert (Hc0 : cache_of ref number c /\ (0 < length c)%nat).
  { subst c. unfold len. destruct (Z.eqb_spec (Z.of_nat (length cache)) 0); [|split; [done|lia]]. split; [|cbn; lia]. intros [|i] h Hi; [by injection Hi as <-|done]. }
  clearbody c. clear cache Hc. destruct Hc0 as [Hc Hpos]. rewrite (wrap64_small (number - n)) by (unfold_u64; lia). rewrite (wrap64_small (number - n - 1)) by (unfold_u64; lia).
  destruct (Z.ltb_spec (number - n - 1) (len c)) as [Hi|Hi]; unfold len in *.
  - destruct (lookup_lt_is_Some_2 c (Z.to_nat (number - n - 1))) as [h Eh]; [lia|]. exists c. split; [|done]. apply index_Some in Eh as Ei. rewrite Z2Nat.id in Ei by lia. rewrite Ei. cbn [mbind outcome_bind]. do 2 f_equal.
    unfold blockHash. replace (number <=? n) with false by lia. replace (number - 1 - n) with (number - n - 1) by lia. by rewrite (Hc _ _ Eh).
  - destruct (lookup_lt_is_Some_2 c (length c - 1)) as [h Eh]; [lia|]. apply index_Some in Eh as Ei. replace (Z.of_nat (length c - 1)) with (Z.of_nat (length c) - 1) in Ei by lia. rewrite Ei. cbn [mbind outcome_bind].
    rewrite wrap64_small by (unfold_u64; lia). apply (getHashLoop_ok ref number n Hg Hu); unfold len; try done; unfold_u64; lia.
Qed.

(** Queries one after the other on one cache *)
Fixpoint hashQueries (fuel : nat) (ref : Header) (ns : list Z) : ST (list Hash) (list Hash) :=
  match ns with
  | [] => mret []
  | n :: ns => h ← GetHashFn GetHeader fuel ref n; hs ← hashQueries fuel ref ns; mret (h :: hs)
  end.

(** C17 The cache of [GetHashFn] does not show: whatever blocks are asked for, in whatever order, each answer is the
    hash that a walk along the parent hashes finds, and zero for the block itself, for later blocks and where a header is
    missing. *)
Theorem GetHashFn_transparent (fuel : nat) (ref : Header) (number : Z) (ns : list Z) :
  headers_ok -> hd_Number ref = Some number -> is_u64 number -> Forall (fun n => is_u64 n /\ number - n <= Z.of_nat fuel) ns ->
  exists cache, hashQueries fuel ref ns [] = Ret (blockHash ref number <$> ns, cache).
Proof.
  intros Hg Hr Hu Hns. assert (H : forall cache, cache_of ref number cache -> exists cache', hashQueries fuel ref ns cache = Ret (blockHash ref number <$> ns, cache')).
  { induction Hns as [|n ns [Hn Hf] _ IH]; intros cache Hc; [by eexists|]. destruct (GetHashFn_ok fuel ref number n cache) as (c1 & E1 & Hc1); try done.
    destruct (IH c1 Hc1) as (c2 & E2). exists c2. cbn [hashQueries]. unfold mbind, st_bind. by rewrite E1, E2. }
  apply H. intros i h Hi. done.
Qed.
End ancestors.

(** ** Witness: a chain of ten blocks, asked out of order *)

Definition chain_header (n : Z) : Header :=
  mkHeader (1000 + n - 1) 0 0 0 0 0 [] (Some 0) (Some n) 0 0 0 [] 0 0 None None None None None None.
Definition chain_GetHeader (h : Hash) (n : Z) : option Header := if (h =? 1000 + n) && (0 <=? n) then Some (chain_header n) else None.

Lemma GetHashFn_transparent_witness : exists cache, hashQueries chain_GetHeader 20 (chain_header 10) [7; 9; 2; 10; 7] [] = Ret ([1007; 1009; 1002; 0; 1007], cache).
Proof.
  destruct (GetHashFn_transparent chain_GetHeader 20 (chain_header 10) 10 [7; 9; 2; 10; 7]) as [cache E].
  - intros h n hd. unfold chain_GetHeader. destruct (_ && _); [|discriminate]. by intros [= <-].
  - reflexivity.
  - by split.
  - repeat (constructor; [split; [by split|lia]|]). constructor.
  - exists cache. rewrite E. reflexivity.
Defined.

