(* ===== verification/ProcessorTheorems.v ===== *)
(** * Block processing: gas accounting, receipts, and the state at the end of a block *)

From S2P Require Import Prelude Bytes Uint256 Params Machine Opcodes Analysis JumpTable Rlp VM ChainConfig State GasTable Instructions Evm StateSpec StateProofs StateFinalise Frames InstrSpec TableSpec EvmSafe Fuel StateTransition TransitionTheorems Headers HeaderRules Transactions TxSigning TxCodec TxCaches TxTheorems Receipts ReceiptTheorems Blocks BlockCodec BlockTheorems RlpStream RlpTypes RlpCodec RlpCanon RlpTheorems Processor AncestorTheorems.

Set Default Proof Using "Type*".

(** ** Transactions have senders, hashes and messages *)

Section transactions.
Context `{U : Uint256} {US : Uint256Spec U} `{C : Crypto} (Ecrecover : Hash -> bytes -> option bytes).

Lemma recoverPlain_total h R S_ V homestead : exists r, recoverPlain Ecrecover h R S_ V homestead = Ret r.
Proof.
  unfold recoverPlain. destruct (8 <? bitLen V); [by eexists|]. destruct (ValidateSignatureValues _ R S_ homestead) eqn:E; [|by eexists]. cbn [negb].
  assert (Hr : 0 <= R < two256 /\ 0 <= S_ < two256).
  { unfold ValidateSignatureValues in E. assert (HN : secp256k1N < two256) by (vm_compute; reflexivity). destruct ((R <? 1) || (S_ <? 1)) eqn:E1; [done|]. destruct (_ && _) eqn:E2 in E; [done|].
    clear E2. set (n := secp256k1N) in *. clearbody n. bool_to_Z. destruct_and? E. bool_to_Z. lia. }
  destruct Hr as [Hr Hs]. rewrite !padded32_ok by done. cbn [mbind outcome_bind]. destruct (Ecrecover _ _) as [pub|]; [|by eexists]. by destruct (negb _); eexists.
Qed.

(** Sizes for which nothing overflows *)
Record tx_sized (id : Z) (t : TxData) : Prop := {
  sz_data : TxCodec.data_ok t;
  sz_plain : tx_BlobTxSidecar t = None;
  sz_binary : len (binary t) < 2 ^ 63;
  sz_signed : is_u64 (len (signedBytes t None)) /\ is_u64 (len (signedBytes t (Some id)));
}.

Lemma signer_Sender_total id s t : 0 <= id -> signer_of id s -> tx_sized id t -> exists r, signer_Sender Ecrecover s t = Ret r.
Proof.
  intros Hid Hs [Hok _ _ [Hu Hu']].
  assert (Hplain : forall homestead, txType t = LegacyTxType -> exists r, (let '(v, r, s) := rawSignatureValues t in h ← frontierHash t; recoverPlain Ecrecover h r s v homestead) = Ret r).
  { intros homestead Et. destruct t as [tx|tx|tx|tx|tx]; try discriminate Et. destruct (rawSignatureValues (TxLegacy tx)) as [[v r] s0]. rewrite frontierHash_bytes by done. cbn [mbind outcome_bind]. apply recoverPlain_total. }
  assert (Hsig : forall V R S_, exists r, (h ← tx_sigHash t id; recoverPlain Ecrecover h R S_ V true) = Ret r).
  { intros V R S_. rewrite sigHash_bytes by done. cbn [mbind outcome_bind]. apply recoverPlain_total. }
  assert (Hhome : exists r, HomesteadSigner_Sender Ecrecover t = Ret r).
  { unfold HomesteadSigner_Sender. destruct (Z.eqb_spec (txType t) LegacyTxType) as [Et|]; [|by eexists]. cbn [negb]. by apply Hplain. }
  assert (H155 : exists r, EIP155Signer_Sender Ecrecover id (id * 2) t = Ret r).
  { unfold EIP155Signer_Sender. destruct (txType t =? LegacyTxType); [|by eexists]. destruct (Protected t); [|done]. destruct (chainID t =? id); [|by eexists]. cbn [negb].
    destruct (rawSignatureValues t) as [[V R] S_]. apply Hsig. }
  destruct Hs as [| | |ts]; cbn [signer_Sender]; [|done|done|].
  - unfold FrontierSigner_Sender. destruct (Z.eqb_spec (txType t) LegacyTxType) as [Et|]; [|by eexists]. cbn [negb]. by apply Hplain.
  - destruct (supportsType ts (txType t)); [|by eexists]. destruct (txType t =? LegacyTxType); [done|]. destruct (chainID t =? id); [|by eexists]. cbn [negb].
    destruct (rawSignatureValues t) as [[V R] S_]. apply Hsig.
Qed.

Lemma Sender_total id s tx : 0 <= id -> signer_of id s -> tx_sized id (inner tx) -> exists r tx', Sender Ecrecover s tx = Ret (r, tx') /\ inner tx' = inner tx /\ tx_hash tx' = tx_hash tx.
Proof.
  intros Hid Hs Ht. destruct (signer_Sender_total id s (inner tx) Hid Hs Ht) as (r & E).
  assert (Hfresh : exists r tx', (r ← st_lift (signer_Sender Ecrecover s (inner tx));
    match r with inl addr => st_modify (with_from (s, addr));; mret (inl addr) | inr e => mret (inr e) end) tx = Ret (r, tx') /\ inner tx' = inner tx /\ tx_hash tx' = tx_hash tx).
  { unfold mbind, st_bind, st_lift. rewrite E. destruct r as [a|e]; by do 2 eexists. }
  unfold Sender. unfold mbind at 1, st_bind at 1, st_get. destruct (tx_from tx) as [[s0 from]|]; [|done]. destruct (signer_Equal s0 s); [by do 2 eexists|done].
Qed.

Lemma hashOf_total id t : tx_sized id t -> exists h, hashOf t = Ret h.
Proof.
  intros [Hok Hp Hl _]. assert (Hu : is_u64 (len (encode (iData t)))) by (apply len_u64; unfold binary in Hl; destruct t; rewrite ?len_cons in Hl; lia).
  assert (E : exists b, encodeInner t = Ret b).
  { destruct t as [tx|tx|tx|tx|tx]; cbn [encodeInner iData TxCodec.data_ok] in *.
    - rewrite (encodeVal_ok _ _ _ _ (ex_codec _ _ _ legacy_exact)) by done. by eexists.
    - rewrite (encodeVal_ok _ _ _ _ (ex_codec _ _ _ accessListTx_exact)) by done. by eexists.
    - rewrite (encodeVal_ok _ _ _ _ (ex_codec _ _ _ dynamicFeeTx_exact)) by done. by eexists.
    - cbn in Hp. rewrite Hp in Hu. destruct Hok as [Hok _]. rewrite encodeBlobTx_ok by done. by eexists.
    - rewrite (encodeVal_ok _ _ _ _ (ex_codec _ _ _ setCodeTx_exact)) by done. by eexists. }
  destruct E as [b E]. unfold hashOf, rlpHash, prefixedRlpHash. rewrite E. by destruct (txType t =? LegacyTxType); eexists.
Qed.

Lemma tx_Hash_total id tx : tx_sized id (inner tx) -> exists h tx', tx_Hash tx = Ret (h, tx') /\ inner tx' = inner tx.
Proof.
  intros Ht. destruct (hashOf_total id _ Ht) as [h E]. unfold tx_Hash, mbind, st_bind, st_get. destruct (tx_hash tx); [by do 2 eexists|].
  unfold st_lift. rewrite E. by do 2 eexists.
Qed.

Lemma fees_nonneg t : TxCodec.data_ok t -> 0 <= gasPrice t /\ 0 <= gasTipCap t /\ 0 <= gasFeeCap t /\ 0 <= value t.
Proof.
  destruct t as [tx|tx|tx|tx|tx]; cbn; unfold legacy_ok, accessListTx_ok, dynamicFeeTx_ok; intros H; destruct_and? H; try tauto.
  - pose proof (uval_range (b_GasTipCap tx)). pose proof (uval_range (b_GasFeeCap tx)). pose proof (uval_range (b_Value tx)). lia.
  - pose proof (uval_range (c_GasTipCap tx)). pose proof (uval_range (c_GasFeeCap tx)). pose proof (uval_range (c_Value tx)). lia.
Qed.
Lemma price_cap t : gasPrice t = gasFeeCap t.
Proof. by destruct t. Qed.
Lemma gas_u64 t : TxCodec.data_ok t -> is_u64 (gas t).
Proof. destruct t as [tx|tx|tx|tx|tx]; cbn; unfold legacy_ok, accessListTx_ok, dynamicFeeTx_ok, blobCore_ok, setCodeTx_ok; intros H; destruct_and? H; done. Qed.
End transactions.

(** ** The steps of a block *)

Section processing.
Context `{U : Uint256} {US : Uint256Spec U} `{C : Crypto} (reader : Reader) (Hreader : reader_ok reader).

#[local] Instance DB : VM.StateDB state := state_StateDB reader.
#[local] Instance SP : StateDBSpec state := state_StateDBSpec reader Hreader.

Context (config : ChainConfig) (fuel : nat) (NoBaseFee : bool) (Ecrecover : Hash -> bytes -> option bytes).
Context (env : Env) (table : JumpTable).
Context (Htable : instructionSet (chainRules env) = Ret table) (Henv : env_ok env table).
Context (Hbase : IsLondonBlock config env = true -> is_Some (BaseFee env)) (Hblob : IsCancunBlock config env = true -> is_Some (BlobBaseFee env)).
Context (Hchain : is_Some (config_ChainID_ config)).
Context (Hrules : chainRules env = txRules config env).

Definition vm_inv (v : VM state) : Prop := vm_ok v /\ readOnly v = false.

Lemma context_tx msg : context_ok config (SetTxContext env msg) table.
Proof. split; [done| |done..]. by destruct Henv. Qed.

Lemma vm_Finalise v : vm_inv v -> exists v', vm_db (Finalise true) v = Ret (tt, v') /\ vm_inv v'.
Proof.
  destruct v as [s d t j al ro rd]. intros [[Hd Hj Hr] Hro]. destruct (Finalise_ok reader true s Hd) as (u & s' & E & Hs'). destruct u.
  exists (mkVM s' d t j al ro rd). split; [|by split; [split|]]. unfold vm_db. cbn [statedb]. change (sdb (Finalise true) s) with (StateDB.Finalise reader true s). by rewrite E.
Qed.

(** *** System calls *)

Lemma systemCall_ok addr input v : vm_inv v -> Machine.data_ok input -> 30000000 < Z.of_nat fuel ->
  wp tolerated (systemCall reader fuel env table addr input) (fun r v' => vm_inv v' /\ Machine.data_ok r.1) v.
Proof.
  intros [Hv Hro] Hi Hf. unfold systemCall.
  set (env' := SetTxContext env (systemMsg addr input)). assert (Henv' : env_ok env' table) by (by destruct Henv).
  pose proof (Run_ok env' table Henv' (instructionSet_ok _ _ Htable) fuel) as Hrun.
  apply wp_bind. destruct v as [s d t j al ro rd]. destruct Hv as [Hd Hj Hr]. cbn in *. subst ro.
  apply (wp_vm_db _ _ _ _ _ _ _ false); [done..|]. intros x s1 _ Hs1 _. apply wp_bind.
  eapply wp_mono; [apply (Call_full env' table Henv' _ _ Hrun); [by split|done|done|by split|done]|].
  intros [[ret gas] err] v' [(Hv' & [_ _ Er] & _ & Hdata) _]. apply wp_ret. split; [|done]. by split.
Qed.

Lemma Hash_Bytes_ok h : Machine.data_ok (Hash_Bytes h).
Proof. unfold Hash_Bytes. split; [apply be_bytes_bytes|]. unfold len. by rewrite be_bytes_length. Qed.

(** [ProcessParentBlockHash] panics when its call fails. *)
Definition failures (e : failure) : Prop := tolerated e \/ e = PanicExplicit.

Lemma wp_weaken {S A} (E E' : failure -> Prop) (m : ST S A) (Q : A -> S -> Prop) s : (forall e, E e -> E' e) -> wp E m Q s -> wp E' m Q s.
Proof. unfold wp. intros H. destruct (m s) as [[a s']|e]; auto. Qed.

Lemma wp_Finalise E (Q : unit -> VM state -> Prop) v : vm_inv v -> (forall v', vm_inv v' -> Q tt v') -> wp E (vm_db (Finalise true)) Q v.
Proof. intros Hv HQ. destruct (vm_Finalise v Hv) as (v' & E' & Hv'). unfold wp. rewrite E'. auto. Qed.

Lemma preExecution_ok header v : vm_inv v -> 30000000 < Z.of_nat fuel ->
  wp failures (preExecution reader config fuel env table header) (fun _ v' => vm_inv v') v.
Proof.
  intros Hv Hf. unfold preExecution. apply wp_bind. eapply (wp_mono _ _ (fun _ => vm_inv)).
  { destruct (hd_ParentBeaconRoot header) as [root|]; [|by apply wp_ret]. unfold ProcessBeaconBlockRoot. apply wp_bind.
    eapply wp_weaken; [by left|]. eapply wp_mono; [apply systemCall_ok; [done|apply Hash_Bytes_ok|done]|].
    intros r v1 [Hv1 _]. by apply wp_Finalise. }
  intros _ v1 Hv1. destruct (_ || _); [|by apply wp_ret]. unfold ProcessParentBlockHash. apply wp_bind.
  eapply wp_weaken; [by left|]. eapply wp_mono; [apply systemCall_ok; [done|apply Hash_Bytes_ok|done]|].
  intros [ret [e|]] v2 [Hv2 _]; [by right|]. by apply wp_Finalise.
Qed.

Lemma requestsCall_ok ty addr requests v : vm_inv v -> 30000000 < Z.of_nat fuel ->
  wp tolerated (processRequestsSystemCall reader fuel env table ty addr requests) (fun _ v' => vm_inv v') v.
Proof.
  intros Hv Hf. unfold processRequestsSystemCall. apply wp_bind. eapply wp_mono; [apply systemCall_ok; [done|apply data_ok_nil|done]|].
  intros [ret err] v1 [Hv1 _]. apply wp_bind, wp_Finalise; [done|]. intros v2 Hv2. by apply wp_ret.
Qed.

Lemma readRequests_ok contract logs v : vm_inv v -> 30000000 < Z.of_nat fuel ->
  wp tolerated (readRequests reader fuel contract env table logs) (fun _ v' => vm_inv v') v.
Proof.
  intros Hv Hf. unfold readRequests. destruct (ParseDepositLogs _ _ _) as [requests|e]; [|by apply wp_ret]. apply wp_bind.
  eapply wp_mono; [by apply requestsCall_ok|]. intros [requests'|e] v1 Hv1; [by apply requestsCall_ok|by apply wp_ret].
Qed.

(** *** The DAO fork *)

Lemma drain_ok l : fin_ok reader (drainAccounts reader l).
Proof.
  induction l as [|a l IH]; [apply fin_ret|]. cbn [drainAccounts].
  assert (Hstep : forall A (r : sdbE A), req_ok r -> is_SubRefund r = false -> fin_ok reader (sdb r)).
  { intros A r Hr Hs s Hok. pose proof (sdb_step A r s Hok Hr) as H. destruct (sdb r s) as [[x s']|e]; [|destruct H as [_ H]; congruence]. destruct H as [H _]. by exists x, s'. }
  apply fin_bind; [exact (Hstep _ (GetBalance a) I eq_refl)|]. intros balance. apply fin_bind; [exact (Hstep _ (AddBalance _ balance) I eq_refl)|]. intros _.
  apply fin_bind; [exact (Hstep _ (SubBalance a balance) I eq_refl)|done].
Qed.

Lemma ApplyDAOHardFork_ok : fin_ok reader (ApplyDAOHardFork reader).
Proof.
  intros s Hs. unfold ApplyDAOHardFork. pose proof (sdb_step _ (Exist DAORefundContract) s Hs I) as H. pose proof (sdb_exist DAORefundContract s) as Hex.
  change (sdb (Exist DAORefundContract) s) with (StateDB.Exist reader DAORefundContract s) in H, Hex. unfold mbind at 1, st_bind at 1.
  destruct (StateDB.Exist reader DAORefundContract s) as [[ex s1]|e]; [|by destruct H]. destruct H as [Hs1 _]. specialize (Hex ex s1 Hs eq_refl).
  destruct ex; cbn [negb]; [exact (fin_bind reader (mret tt) (fun _ => drainAccounts reader DAODrainList) (fin_ret _ _) (fun _ => drain_ok _) s1 Hs1)|].
  destruct (sdb_createAccount DAORefundContract s1 Hs1) as (s2 & E & Hs2 & _); [intros Hc; apply Hex in Hc; discriminate|].
  change (sdb (CreateAccount DAORefundContract) s1) with (StateDB.CreateAccount DAORefundContract s1) in E. unfold mbind, st_bind. rewrite E. by apply drain_ok.
Qed.

(** *** Transactions *)

(** A transaction whose sizes and gas are machine numbers, with enough fuel to run it *)
Record tx_runnable (id : Z) (tx : Transaction) : Prop := {
  r_sized : tx_sized id (inner tx);
  r_data : Machine.data_ok (data (inner tx));
  r_fuel : gas (inner tx) < Z.of_nat fuel;
  r_cost : forall create homestead eip2028 eip3860,
    intrinsicCost (data (inner tx)) (accessList (inner tx)) (len (default [] (tx_SetCodeAuthorizations (inner tx)))) create homestead eip2028 eip3860 < two64;
}.

Lemma TransactionToMessage_ok id signer baseFee tx : 0 <= id -> signer_of id signer -> tx_runnable id tx -> (forall b, baseFee = Some b -> 0 <= b) ->
  exists msg err tx', TransactionToMessage Ecrecover signer baseFee tx = Ret ((msg, err), tx') /\ inner tx' = inner tx /\ tx_hash tx' = tx_hash tx /\
    msg_ok config (SetTxContext env msg) fuel NoBaseFee msg /\ msg_GasLimit msg = gas (inner tx).
Proof.
  intros Hid Hs [Hsz Hd Hf Hc] Hb. destruct (Sender_total Ecrecover id signer tx Hid Hs Hsz) as (r & tx' & E & Ei & Eh).
  unfold TransactionToMessage, mbind, st_bind, st_gets. rewrite E. destruct (fees_nonneg _ (sz_data _ _ Hsz)) as (Hp & Ht & Hcap & Hv). pose proof (gas_u64 _ (sz_data _ _ Hsz)) as Hg.
  set (price := match baseFee with Some b => _ | None => _ end). assert (Hprice : 0 <= price <= gasFeeCap (inner tx)).
  { subst price. destruct baseFee as [b|]; [specialize (Hb b eq_refl); destruct (Z.ltb_spec (gasFeeCap (inner tx)) (gasTipCap (inner tx) + b)); lia|rewrite price_cap; lia]. }
  clearbody price. destruct r as [from|e]; do 3 eexists; (split; [done|]); (split; [done|]); (split; [done|]); (split; [|done]).
  all: split; cbn; try done; try lia; [intros cap [= <-]; lia|unfold blobGasUsed; cbn|apply Hc].
  all: destruct (inner tx) as [?|?|?|btx|?]; cbn; try (intros Hpos; discriminate Hpos); intros _; exists (uval (b_BlobFeeCap btx)); split; [done|apply uval_range].
Qed.

(** What is kept from transaction to transaction *)
Record prog_ok (limit : Z) (p : progress) : Prop := {
  pk_vm : vm_inv (pg_vm p);
  pk_sum : pg_gp p + pg_used p = limit;
  pk_gp : 0 <= pg_gp p;
  pk_used : 0 <= pg_used p;
}.

(** The receipt of a transaction that ran after [used] units of gas *)
Record receipt_of (n : Z) (h : Hash) (tx : Transaction) (used : Z) (r : Receipt) : Prop := {
  rt_type : rc_Type r = txType (inner tx);
  rt_hash : exists tx', tx_Hash tx = Ret (rc_TxHash r, tx');
  rt_gas : 0 <= rc_GasUsed r <= gas (inner tx);
  rt_cumulative : rc_CumulativeGasUsed r = used + rc_GasUsed r;
  rt_bloom : bloomed r;
  rt_block : rc_BlockHash r = h /\ rc_BlockNumber r = Some n;
}.

Lemma MakeReceipt_ok env' result n h used root t txHash origin v : vm_inv v -> exists r v', on_db (MakeReceipt env' result n h used root t txHash origin) v = Ret (r, v') /\ vm_inv v' /\
  rc_Type r = txType t /\ rc_TxHash r = txHash /\ rc_GasUsed r = UsedGas result /\ rc_CumulativeGasUsed r = used /\ bloomed r /\ rc_BlockHash r = h /\ rc_BlockNumber r = Some n.
Proof.
  destruct v as [s d tt_ j al ro rd]. intros [[Hd Hj Hr] Hro]. cbn in *.
  assert (Hlogs : exists ls s', GetLogs txHash (wrap64 n) h s = Ret (ls, s') /\ state_ok reader s').
  { unfold GetLogs, mbind, st_bind, st_get. destruct (logs s !! txHash) as [ls|]; [|by do 2 eexists]. do 2 eexists. split; [done|]. by destruct Hd. }
  destruct Hlogs as (ls & s' & El & Hs'). destruct (CreateBloom_ok ls) as (bloom & Eb & _).
  assert (Hc : exists c, match to_ t with None => CreateAddress origin (nonce t) | Some _ => Ret 0 end = Ret c) by (destruct (to_ t); [by eexists|apply CreateAddress_total]).
  destruct Hc as [c Ec]. unfold on_db, MakeReceipt, mbind, st_bind, outcome_bind, st_gets. cbn [statedb]. destruct (to_ t).
  - cbn. rewrite El. unfold st_lift. rewrite Eb. do 2 eexists. split; [done|]. split; [by split; [split|]|]. done.
  - unfold st_lift at 1. rewrite Ec. rewrite El. unfold st_lift. rewrite Eb. do 2 eexists. split; [done|]. split; [by split; [split|]|]. done.
Qed.

Lemma ApplyTransactionWithEVM_ok limit msg n h t txHash p : is_u64 limit -> msg_ok config (SetTxContext env msg) fuel NoBaseFee msg ->
  Config.IsByzantium config (Some n) = true -> prog_ok limit p ->
  match ApplyTransactionWithEVM reader config fuel NoBaseFee Ecrecover env table msg n h t txHash p with
  | Ret (inl r, p') => prog_ok limit p' /\ pg_used p' = pg_used p + rc_GasUsed r /\ 0 <= rc_GasUsed r <= msg_GasLimit msg /\
      rc_Type r = txType t /\ rc_TxHash r = txHash /\ rc_CumulativeGasUsed r = pg_used p' /\ bloomed r /\ rc_BlockHash r = h /\ rc_BlockNumber r = Some n
  | Ret (inr e, p') => vm_inv (pg_vm p')
  | Fail e => tolerated e
  end.
Proof.
  intros Hl Hm Hbyz [Hv Hsum Hgp Hused]. unfold ApplyTransactionWithEVM, ApplyMessage.
  pose proof (execute_ok config (SetTxContext env msg) table fuel NoBaseFee Ecrecover msg (context_tx msg) Hm (mkST (pg_gp p) 0 0 (pg_vm p)) Hv ltac:(unfold_u64; cbn; lia)) as H.
  unfold wp in H. fold DB. destruct (execute _ _ _ _ _ _ _ _) as [[[res|e] st']|e]; [| |exact H]; cbn [mbind outcome_bind]; [|by destruct H].
  destruct H as [Hinv Hu Hm2 Hb Hpool _ _ _]. cbn [st_gp] in *. rewrite Hbyz. cbn [negb].
  destruct (st_evm st') as [s d tr j al ro rd] eqn:Ev. unfold st_inv in Hinv. rewrite Ev in Hinv. destruct Hinv as [[Hd Hj Hr] Hro]. cbn in Hd, Hj, Hr, Hro.
  destruct (Finalise_ok reader true s Hd) as (u & s' & E & Hs'). assert (Ef : on_db (StateDB.Finalise reader true) (mkVM s d tr j al ro rd) = Ret (u, vm_set_db s' (mkVM s d tr j al ro rd))) by (unfold on_db; cbn [statedb]; by rewrite E).
  rewrite Ef. cbn [mbind outcome_bind].
  destruct (MakeReceipt_ok (SetTxContext env msg) res n h (pg_used p +! UsedGas res) [] t txHash (From_ msg) (vm_set_db s' (mkVM s d tr j al ro rd))) as (r & v' & -> & Hv' & Ety & Eh & Eg & Ec & Rest); [by split; [split|]|].
  cbn [mbind outcome_bind pg_used pg_gp pg_vm]. rewrite Ec, Eg. assert (Ew : pg_used p +! UsedGas res = pg_used p + UsedGas res) by (apply wrap64_small; unfold_u64; lia).
  rewrite Ew. split; [|split; [done|split; [lia|done]]]. split; cbn; [done|lia..].
Qed.

(** The receipts of transactions that ran one after the other, between two amounts of used gas *)
Inductive accounted (n : Z) (h : Hash) : Z -> list Transaction -> list Receipt -> Z -> Prop :=
  | acc_nil used : accounted n h used [] [] used
  | acc_cons used tx r txs rs used' : receipt_of n h tx used r -> accounted n h (used + rc_GasUsed r) txs rs used' ->
      accounted n h used (tx :: txs) (r :: rs) used'.

Lemma applyTransactions_ok limit id signer baseFee n h i txs p : is_u64 limit -> 0 <= id -> signer_of id signer -> Forall (tx_runnable id) txs ->
  (forall b, baseFee = Some b -> 0 <= b) -> Config.IsByzantium config (Some n) = true -> prog_ok limit p ->
  match applyTransactions reader config fuel NoBaseFee Ecrecover env table signer baseFee n h i txs p with
  | Ret (inl rs, p') => prog_ok limit p' /\ accounted n h (pg_used p) txs rs (pg_used p')
  | Ret (inr e, p') => vm_inv (pg_vm p')
  | Fail e => tolerated e
  end.
Proof.
  intros Hl Hid Hs Htxs Hb Hbyz. revert i p. induction Htxs as [|tx txs Htx _ IH]; intros i p Hp; [by split; [|constructor]|]. cbn [applyTransactions].
  destruct (TransactionToMessage_ok id signer baseFee tx Hid Hs Htx Hb) as (msg & err & tx1 & -> & Ei & Eh & Hm & Eg). cbn [mbind outcome_bind].
  destruct err as [e|]; [by destruct Hp|]. destruct (tx_Hash_total id tx1) as (hash & tx2 & E2 & Ei2); [rewrite Ei; apply Htx|]. rewrite E2. cbn [mbind outcome_bind].
  assert (Ehash : exists tx', tx_Hash tx = Ret (hash, tx')).
  { clear -Ei Eh E2. revert E2. unfold tx_Hash, mbind, st_bind, st_get. rewrite Eh. destruct (tx_hash tx) as [c|]; [intros [= -> _]; by eexists|]. unfold st_lift. rewrite Ei.
    destruct (hashOf (inner tx)) as [c|]; [|done]. intros [= -> _]. by eexists. }
  set (v1 := vm_set_db (with_tx hash i (statedb (pg_vm p))) (pg_vm p)). assert (Ev : on_db (db_SetTxContext hash i) (pg_vm p) = Ret (tt, v1)) by done. rewrite Ev. cbn [mbind outcome_bind].
  set (p1 := mkProgress (pg_gp p) (pg_used p) v1). assert (Hp1 : prog_ok limit p1).
  { subst p1 v1. destruct p as [gp used [s d tr j al ro rd]]. destruct Hp as [[[Hd Hj Hr] Hro] ? ? ?]. cbn in *. split; cbn; try done. split; [|done]. split; [|done..]. by destruct Hd. }
  pose proof (ApplyTransactionWithEVM_ok limit msg n h (inner tx2) hash p1 Hl Hm Hbyz Hp1) as H.
  destruct (ApplyTransactionWithEVM _ _ _ _ _ _ _ _ _ _ _ _ _) as [[[r|e] p2]|e]; [| |exact H]; [|exact H]. cbn [mbind outcome_bind].
  destruct H as (Hp2 & Eu & Hgas & Ety & Etx & Ecum & Hbl & Hblk). specialize (IH (i + 1) p2 Hp2).
  destruct (applyTransactions _ _ _ _ _ _ _ _ _ _ _ _ _ _) as [[[rs|e] p3]|e]; [| |exact IH]; [|exact IH]. cbn [mbind outcome_bind].
  destruct IH as [Hp3 Hacc]. split; [done|]. change (pg_used p1) with (pg_used p) in Eu. constructor; [|by rewrite <- Eu].
  split; [by rewrite Ety, Ei2, Ei|by rewrite Etx|by rewrite <- Eg|by rewrite Ecum|done|done].
Qed.

(** The gas of receipts *)
Definition gasOf (rs : list Receipt) : Z := foldr (fun r acc => rc_GasUsed r + acc) 0 rs.

Lemma accounted_spec n h used txs rs used' : accounted n h used txs rs used' -> length rs = length txs /\ used' = used + gasOf rs /\
  forall i tx r, txs !! i = Some tx -> rs !! i = Some r -> receipt_of n h tx (used + gasOf (take i rs)) r.
Proof using Type.
  induction 1 as [used|used tx r txs rs used' Hr _ (IHl & IHu & IH)]; [split; [done|]; split; [cbn; lia|done]|].
  cbn [length gasOf foldr]. fold (gasOf rs). split; [by rewrite IHl|]. split; [lia|].
  intros [|i] tx0 r0; [intros [= <-] [= <-]; cbn; by rewrite Z.add_0_r|]. intros Htx Hr0. cbn [take gasOf foldr]. fold (gasOf (take i rs)). rewrite Z.add_assoc. by apply IH.
Qed.
End processing.

(** ** The block *)

Section block.
Context `{U : Uint256} {US : Uint256Spec U} `{C : Crypto} (reader : Reader).
Context (config : ChainConfig) (fuel : nat) (NoBaseFee EnablePreimages : bool) (Ecrecover : Hash -> bytes -> option bytes)
  (precompilesOf : Params.Rules -> gmap Z PrecompiledContract) (GetHeader : Hash -> Z -> option Header) (Author : Header -> Address)
  (Finalize : Header -> Body -> ST state unit) (DepositContractAddress : Address).

Lemma MakeSigner_total id num time : config_ChainID_ config = Some id -> 0 < id -> exists s, MakeSigner config num time = Ret s /\ signer_of id s.
Proof.
  intros Hid Hpos. assert (H : exists s, MakeSigner config num time = Ret s).
  { unfold MakeSigner, NewPragueSigner, NewCancunSigner, NewLondonSigner, NewEIP2930Signer, newModernSigner. rewrite Hid. replace (id <=? 0) with false by lia. repeat case_if; by eexists. }
  destruct H as [s E]. exists s. split; [done|]. by eapply MakeSigner_of.
Qed.

Lemma block_env_rules header author env : NewEVMBlockContext config fuel EnablePreimages precompilesOf GetHeader Author header author = Ret env -> chainRules env = txRules config env.
Proof.
  unfold NewEVMBlockContext. destruct (match hd_ExcessBlobGas header with Some _ => _ | None => _ end); [|done]. cbn [mbind outcome_bind].
  destruct (big (hd_Difficulty header)) as [d|]; [|done]. destruct (big (hd_Number header)) as [n|]; [|done]. cbn [mbind outcome_bind]. intros [= <-]. unfold txRules. cbn. by destruct (d =? 0).
Qed.

(** What a block may be processed in: the rules are of Byzantium or later and without Verkle trees; the pointers that the
    instructions and the message follow are set (the base fee since London, the blob base fee since Cancun); headers are
    stored under their number; precompiled contracts meet their contract; transactions have machine sizes, and the
    [Finalize] of the engine keeps the state well formed. *)
Record runnable (b : Block) (id n : Z) (h : Hash) (env : Env) (table : JumpTable) : Prop := {
  rb_reader : reader_ok reader;
  rb_chain : config_ChainID_ config = Some id /\ 0 < id;
  rb_number : hd_Number (blk_header b) = Some n /\ is_u64 n;
  rb_headers : headers_ok GetHeader;
  rb_byzantium : Config.IsByzantium config (Some n) = true;
  rb_limit : is_u64 (hd_GasLimit (blk_header b));
  rb_baseFee : forall f, hd_BaseFee (blk_header b) = Some f -> 0 <= f;
  rb_hash : block_Hash b = Ret h;
  rb_env : NewEVMBlockContext config fuel EnablePreimages precompilesOf GetHeader Author (block_Header b) None = Ret env;
  rb_table : instructionSet (chainRules env) = Ret table;
  rb_4762 : IsEIP4762 (chainRules env) = false;
  rb_pointers : forall op o, table !! op = Some o -> JumpTable.execute o <> OpBlockhash -> ctx_has env (JumpTable.execute o);
  rb_precompile : forall a p, precompiles env !! a = Some p -> forall input, Machine.data_ok input ->
    is_u64 (RequiredGas p input) /\ Machine.data_ok (Precompile_Run p input).1;
  rb_london : IsLondonBlock config env = true -> is_Some (BaseFee env);
  rb_cancun : IsCancunBlock config env = true -> is_Some (BlobBaseFee env);
  rb_fuel : 30000000 < Z.of_nat fuel;
  rb_txs : Forall (tx_runnable fuel id) (blk_transactions b);
  rb_finalize : forall header body, fin_ok reader (Finalize header body);
}.

(** The chain answers the queries of [BLOCKHASH]. *)
Lemma block_env_hash header author number env k : NewEVMBlockContext config fuel EnablePreimages precompilesOf GetHeader Author header author = Ret env ->
  hd_Number header = Some number -> is_u64 number -> headers_ok GetHeader -> 257 <= Z.of_nat fuel -> is_u64 k ->
  wrap64 (BlockNumber env) - 257 <= k < wrap64 (BlockNumber env) -> exists h, GetHash env k = Ret h.
Proof.
  unfold NewEVMBlockContext. destruct (match hd_ExcessBlobGas header with Some _ => _ | None => _ end); [|done]. cbn [mbind outcome_bind].
  destruct (big (hd_Difficulty header)) as [d|]; [|done]. intros E Hn Hu Hg Hf Hk. rewrite Hn in E. cbn [big mbind outcome_bind] in E. injection E as <-. cbn [BlockNumber GetHash].
  rewrite wrap64_small by done. intros Hw. destruct (GetHashFn_ok GetHeader fuel header number k []) as (c & -> & _); try done; [lia|].
  by eexists.
Qed.

Lemma runnable_env_ok b id n h env table : runnable b id n h env table -> env_ok env table.
Proof.
  intros Hb. split; [apply Hb| |apply Hb]. intros op o Ho. destruct (decide (JumpTable.execute o = OpBlockhash)) as [E|E]; [|by eapply rb_pointers].
  rewrite E. intros k Hk Hw. eapply (block_env_hash (block_Header b)); [apply Hb| |apply Hb|apply Hb|pose proof (rb_fuel _ _ _ _ _ _ Hb); lia|done|done].
  unfold block_Header, CopyHeader. cbn. by rewrite (proj1 (rb_number _ _ _ _ _ _ Hb)).
Qed.

Lemma Process_ok abortLoads b id n h env table s : runnable b id n h env table -> state_ok reader s ->
  match Process reader config fuel NoBaseFee EnablePreimages Ecrecover precompilesOf GetHeader Author Finalize DepositContractAddress abortLoads b s with
  | Ret (inl res, s') => state_ok reader s' /\ accounted n h 0 (blk_transactions b) (pr_Receipts res) (pr_GasUsed res) /\
      pr_GasUsed res <= hd_GasLimit (blk_header b) /\ pr_Logs res = concat (rc_Logs <$> pr_Receipts res) /\
      (is_Some (pr_Requests res) <-> Config.IsPrague config (Some n) (hd_Time (blk_header b)) = true)
  | Ret (inr e, s') => state_ok reader s'
  | Fail e => failures e
  end.
Proof.
  intros Hb Hs. pose proof (runnable_env_ok _ _ _ _ _ _ Hb) as Hok.
  destruct Hb as [Hreader [Hid Hpos] [Hn _] _ Hbyz Hl Hbf Hh Henv Htable _ _ _ Hbase Hblob Hf Htxs Hfin]. unfold Process. rewrite Hh. cbn [mbind outcome_bind]. rewrite Hn. cbn [big mbind outcome_bind].
  assert (Eg : AddGas 0 (hd_GasLimit (blk_header b)) = Ret (hd_GasLimit (blk_header b))).
  { unfold AddGas. replace (_ <? 0) with false by (symmetry; apply Z.ltb_ge; unfold_u64; lia). by rewrite Z.add_0_l, wrap64_small. }
  rewrite Eg. cbn [mbind outcome_bind]. clear Eg.
  assert (Hdao : exists s1, (if DAOForkSupport config && bool_decide (DAOForkBlock config = Some n) then ApplyDAOHardFork reader s else Ret (tt, s)) = Ret (tt, s1) /\ state_ok reader s1).
  { case_if; [|by exists s]. destruct (ApplyDAOHardFork_ok reader Hreader s Hs) as (u & s1 & E & ?). destruct u. by exists s1. }
  destruct Hdao as (s1 & -> & Hs1). cbn [mbind outcome_bind].
  destruct (MakeSigner_total id (hd_Number (block_Header b)) (hd_Time (block_Header b)) Hid Hpos) as (signer & -> & Hsigner). cbn [mbind outcome_bind]. rewrite Henv. cbn [mbind outcome_bind]. rewrite Htable. cbn [mbind outcome_bind].
  pose proof (block_env_rules _ _ _ Henv) as Hrules. pose proof (mk_is_Some _ _ Hid) as Hchain.
  assert (Hv : vm_inv reader Hreader (mkVM s1 0 0 ∅ abortLoads false [])).
  { split; [|done]. split; [done| |apply data_ok_nil]. intros k a. cbn. by rewrite lookup_empty. }
  pose proof (preExecution_ok reader Hreader config fuel env table Htable Hok Hbase Hblob Hchain Hrules (block_Header b) _ Hv Hf) as Hpre. unfold wp in Hpre.
  destruct (preExecution _ _ _ _ _ _ _) as [[u v]|e]; [|exact Hpre]. cbn [mbind outcome_bind].
  pose proof (applyTransactions_ok reader Hreader config fuel NoBaseFee Ecrecover env table Htable Hok Hbase Hblob Hchain Hrules (hd_GasLimit (blk_header b)) id signer (hd_BaseFee (block_Header b)) n h 0
    (blk_transactions b) (mkProgress (hd_GasLimit (blk_header b)) 0 v) Hl ltac:(lia) Hsigner Htxs Hbf Hbyz) as Happ.
  destruct (applyTransactions _ _ _ _ _ _ _ _ _ _ _ _ _ _) as [[[rs|e] p]|e]; cbn [mbind outcome_bind].
  3: { left. apply Happ. split; cbn; [done|unfold_u64; lia..]. }
  2: { apply Happ. split; cbn; [done|unfold_u64; lia..]. }
  destruct Happ as [[Hvp Hsum Hgp Hused] Hacc]; [split; cbn; [done|unfold_u64; lia..]|].
  assert (Hp : Config.IsPrague config (hd_Number (block_Header b)) (hd_Time (block_Header b)) = Config.IsPrague config (Some n) (hd_Time (blk_header b))) by (unfold block_Header, CopyHeader; cbn; by rewrite Hn).
  rewrite Hp. destruct (Config.IsPrague config (Some n) _) eqn:Ep.
  - pose proof (readRequests_ok reader Hreader config fuel env table Htable Hok Hbase Hblob Hchain Hrules DepositContractAddress (concat (rc_Logs <$> rs)) (pg_vm p) Hvp Hf) as Hrq. unfold wp in Hrq.
    destruct (readRequests _ _ _ _ _ _ _) as [[[l|e] v2]|e]; cbn [mbind outcome_bind]; [|apply Hrq|by left].
    destruct (Hfin (block_Header b) (block_Body b) (statedb v2) (v_db _ (proj1 Hrq))) as (? & s3 & -> & Hs3). cbn [mbind outcome_bind]. split; [done|]. split; [done|]. split; [cbn; lia|]. split; [done|]. by split; [|eexists].
  - destruct (Hfin (block_Header b) (block_Body b) (statedb (pg_vm p)) (v_db _ (proj1 Hvp))) as (? & s3 & E & Hs3). cbn [mbind outcome_bind]. rewrite E. cbn [mbind outcome_bind]. split; [done|]. split; [done|]. split; [cbn; lia|]. split; [done|].
    split; [by intros [? ?]|done].
Qed.
End block.

