(* ===== verification/ProcessorScenario.v ===== *)
(** * A block is processed

    A block of the Cancun rules with one signed transaction, on which the theorem on block processing is applied,
    and the evaluation of that block. *)

From S2P Require Import Prelude Bytes Uint256 Params Machine Opcodes JumpTable Rlp VM ChainConfig State GasTable Evm StateSpec StateProofs StateFinalise Frames TableSpec EvmSafe Scenario StateTransition TransitionTheorems Headers HeaderRules Transactions TxSigning TxCodec TxCaches TxTheorems Receipts ReceiptTheorems Blocks Processor ProcessorTheorems.

(** Every account but those of the two contracts is funded. *)
Definition funded_account (a : Address) : option (option StateAccount) :=
  if a =? writer then Some (Some (mkAccount 1 (mk256 0) EmptyRootHash (Keccak256 writer_code)))
  else Some (Some (mkAccount 0 (mk256 1000000) EmptyRootHash EmptyCodeHash)).
Definition funded_reader : Reader :=
  mkReader funded_account (fun _ _ => Some 0) (fun _ h => demo_code h) (fun _ h => option_map len (demo_code h)).

Lemma funded_reader_ok : reader_ok funded_reader.
Proof.
  split; [|done]. intros a acct. cbn. unfold funded_account. case_if; intros [= <-]; cbn [acc_CodeHash]; [right|by left].
  split; [done|]. exists writer_code. split_and!; try done. split; [repeat constructor|]; done.
Qed.

Lemma funded_New_ok : state_ok funded_reader New.
Proof.
  split.
  - intros a o H. unfold New, stateObjects in H. rewrite lookup_empty in H. discriminate H.
  - constructor.
  - split; [|constructor|]; unfold New, access, newAccessList, addresses.
    + intros a i H. rewrite lookup_empty in H. discriminate H.
    + intros a b i _ H. rewrite lookup_empty in H. discriminate H.
  - split; constructor.
  - done.
  - done.
Qed.

(** Cancun with its blob parameters *)
Definition proc_config : ChainConfig :=
  mkChainConfig (Some 1) (Some 0) None false (Some 0) (Some 0) (Some 0) (Some 0) (Some 0) (Some 0)
    (Some 0) None (Some 0) (Some 0) None None None (Some 0) (Some 0) None None None
    (Some (mkBlobSchedule (Some (mkBlobConfig 3 6 3338477)) None None None)).

(** A transaction to the contract that writes its storage *)
Definition call_writer : TxData := TxLegacy (mkLegacyTx 0 2 50000 (Some writer) 0 [] 27 1 1).
Definition proc_header : Header :=
  mkHeader 11 0 3 77 0 0 Bloom0 (Some 0) (Some 7) 1000000 0 1000 [1; 2] 42 0 (Some 1) (Some 5) (Some 0) (Some 0) (Some 9) None.
Definition proc_block : Block := mkBlock proc_header [NewTx call_writer] [] (Some []).

Definition proc_hash : Hash := match block_Hash proc_block with Ret h => h | Fail _ => 0 end.
Definition proc_recover (h : Hash) (sig : bytes) : option bytes := Some [4; 1; 2; 3].
Definition proc_fuel (k : nat) : nat := S (S (S k)).
Definition proc_env (k : nat) : Env :=
  match NewEVMBlockContext proc_config (proc_fuel k) false (fun _ => ∅) (fun _ _ => None) hd_Coinbase (block_Header proc_block) None with
  | Ret env => env
  | Fail _ => demo_env
  end.

Lemma proc_env_eq k : NewEVMBlockContext proc_config (proc_fuel k) false (fun _ => ∅) (fun _ _ => None) hd_Coinbase (block_Header proc_block) None = Ret (proc_env k).
Proof. reflexivity. Qed.

Definition process_demo (fuel : nat) : Outcome ((ProcessResult + procerror) * state) :=
  Process funded_reader proc_config fuel false false proc_recover (fun _ => ∅) (fun _ _ => None) hd_Coinbase (fun _ _ => mret tt) 0 [] proc_block New.

(** The transaction uses 43106 units of gas and its receipt says so. *)
Example demo_block_processed :
  match process_demo 200 with
  | Ret (inl res, _) => Some (pr_GasUsed res, rc_Status <$> pr_Receipts res, rc_CumulativeGasUsed <$> pr_Receipts res)
  | _ => None
  end = Some (43106, [ReceiptStatusSuccessful], [43106]).
Proof. vm_compute. reflexivity. Qed.

(** Enough for the system calls, whose gas is 30 million *)
Definition many : nat := Z.to_nat 30000000.
Lemma many_fuel : 30000000 < Z.of_nat (proc_fuel many).
Proof. unfold proc_fuel, many. rewrite !Nat2Z.inj_succ, Z2Nat.id by lia. lia. Qed.

Lemma call_writer_runnable : tx_runnable (proc_fuel many) 1 (NewTx call_writer).
Proof.
  split; cbn [inner NewTx].
  - split; [cbn; unfold legacy_ok; cbn; split_and!; try done; constructor|done|by vm_compute|split; split; by vm_compute].
  - split; [constructor|done].
  - pose proof many_fuel as H. exact (Z.lt_trans 50000 30000000 _ eq_refl H).
  - intros create homestead eip2028 eip3860. destruct create, homestead, eip2028, eip3860; by vm_compute.
Qed.

Lemma proc_precompiles a p : precompiles (proc_env many) !! a = Some p -> False.
Proof. replace (precompiles (proc_env many)) with (∅ : gmap Z PrecompiledContract) by reflexivity. by rewrite lookup_empty. Qed.

Lemma proc_runnable : runnable funded_reader proc_config (proc_fuel many) false (fun _ => ∅) (fun _ _ => None) hd_Coinbase (fun _ _ => mret tt) proc_block 1 7 proc_hash (proc_env many) demo_table.
Proof.
  split.
  - exact funded_reader_ok.
  - by split.
  - by split.
  - intros hash number header H. discriminate H.
  - done.
  - by split.
  - intros f [= <-]. lia.
  - vm_compute. reflexivity.
  - apply proc_env_eq.
  - unfold instructionSet. exact (eq_refl (Ret newCancunInstructionSet)).
  - reflexivity.
  - intros op o _ Hne. destruct (JumpTable.execute o); cbn; eauto; congruence.
  - intros a p H. destruct (proc_precompiles a p H).
  - by eexists.
  - by eexists.
  - exact many_fuel.
  - apply Forall_singleton, call_writer_runnable.
  - intros header body. apply fin_ret.
Qed.

